(* ===== verification/_CoqProject ===== *)
-Q . S2P
Prelude.v
PyStr.v
PySort.v
PyDict.v
Exceptions.v
CompositeDomain.v
ModelUtils.v
ConstrainedBackends.v
CapabilityIndex.v
CapabilityRefresh.v
BackendRouting.v
SelectorParser.v
WeightedSelector.v
RoutingState.v
RoutingCoordinator.v
RoutingService.v
RecoveryBridge.v
CircuitBreaker.v
TTLCache.v
RateLimitState.v
ErrorHandlers.v
Resilience.v
ModelReplacement.v
LoopText.v
RollingHash.v
TokenWindow.v
HybridDetector.v
RequestDedup.v
ToolFingerprint.v
ToolProgress.v
RetryAfter.v
FailureStrategy.v
FailureRecovery.v
RecoveryLoop.v
RoutedFailover.v
FailoverPlanner.v
StreamChunks.v
ParallelRace.v
ParallelRaceFacts.v
RaceCancel.v
RaceProgress.v
RaceGuarantees.v
ParallelOrchestrator.v
ToolAccess.v
CommandParser.v
NonForwardable.v
CommandService.v
FileSandbox.v
ToolHistory.v
ToolReactor.v
ToolArguments.v
ToolCalls.v
ToolOrchestrator.v
EndpointHealth.v
EndOfSession.v
EosDetection.v
SessionCancellation.v
B2buaMapping.v
B2buaPersistent.v
B2buaSessions.v
