(* ===== verification/Prelude.v ===== *)
(** * A verification library for the LLM interactive proxy

    The proxy sits between chat clients and LLM backends.  A request names its
    model by a _selector_; the proxy turns the selector into a backend and a
    model, guards the backends it calls, recovers from failures, watches what
    models and agents do for loops, swallows duplicate requests, may replace the
    model of a session for a few turns, obeys commands inside the chat, and stops
    tool calls that policies forbid.  This library models that core and proves
    what makes it correct.

    ** The parts and how they interact

    - A _selector_ is a leaf [backend:model?params] or a flat group of leaves:
      failover [a|b], weighted [a^b], parallel [a!b]; leaves carry bracketed
      annotations.  [CompositeSelectorParser] turns it into a plan;
      [CompositeRoutingService] parses and executes the plan;
      [CompositeRoutingCoordinator] executes leaves, weighted groups and failover
      chains, calling a leaf resolver (the [CompositeLeafTargetResolverAdapter]
      around the backend model resolver), and leaves a runtime state in the
      request context; [CompositeFailureRecoveryBridge] reads that state when the
      backend call fails and builds the next request.
    - Around a backend call, [ResilienceCoordinator] asks the endpoint health, the
      circuit breaker and the rate-limit state whether to proceed; afterwards it
      records a success, or classifies the error and runs the handler chain
      (circuit breaker, rate limit, authentication), which updates the two states.
    - When a backend call fails, the completion flow hands the error to
      [FailureRecoveryExecutor]: the bridge first, then the failure strategy, which
      reads the retry-after hint of the error and decides to wait and retry, to
      fail over, or to surface an error; retry and failover call the completion
      flow again, with a budget kept in the request context.
    - A name or a bare model becomes a backend instance in
      [BackendRoutingService]: the model capability index says who serves a model
      (a refresh controller keeps it current), constrained families are collapsed
      to one instance, the resilience coordinator filters the candidates, and round
      robin chooses in the best bucket.  The failure strategy finds its alternatives
      through the same service, the executor its configured ones through the
      failover planner.
    - A parallel group is raced: [ParallelCompletionOrchestrator] resolves the legs
      by the policy, [ParallelCompletionRacer] runs them, with handicaps and
      first-token watchdogs, until one has a meaningful token and cancels the
      others; a non-streaming client gets the aggregated stream.
    - The response stream runs through [HybridLoopDetector], a detector of short
      repeated windows and a rolling hash tracker of long patterns; the request
      processor asks [ToolProgressLoopGuard] whether an agent repeats its tool
      calls; [RequestDeduplicationService] blocks identical requests.
    - [ModelReplacementService] keeps, per session, whether requests go to a
      replacement model; the request processor asks it before a backend call and
      the backend executor tells it when the turn is over.
    - A request's messages pass the command service, which runs a command at the end
      of the latest user message, takes it out of the text and tags the message;
      right before the backend call an enforcer drops every tagged message.
    - Tool policies filter the tools a request offers.  The tool calls of a response
      pass the tool call orchestrator: each new call is read, its arguments parsed
      and fixed up, and put to the tool call reactor, whose handlers (the policies
      again, the file sandbox) may swallow it; a swallowed call's response is
      replaced by a steering message.
    - Health checks of API URLs become the health of the endpoints, by which
      [ResilienceCoordinator] gates the backends that use them.
    - Several observers (the stream, a tool call, a failed backend call, a client that
      left) signal the end of a session; the first signal claims the session in the
      database and publishes one event, whose subscribers write the usage record and
      clean up.  A cancelled session refuses new backend work and cancels the work it
      has; [ClientEndOfSessionService] does both for a client that left.
    - Towards its client the proxy is the A-leg of a session, towards a backend the
      B-leg (a back-to-back user agent).  What a request says of its client's session is
      resolved to an A-leg, which a mapping store keeps per authentication scope, in
      memory or in a database; every backend attempt is given a numbered B-leg, and the
      connector invoker hands the connector the B-leg only.

    ** Files

    Paths are under [src/src/core/] unless they begin with [loop_detection/] or
    [tool_call_loop/], which are under [src/src/].

    - [Prelude]: results [res] and the state and error monad [stm] of the methods,
      tactics, the hint database [proxy], rational comparisons.
    - [PyStr], [PyDict]: the Python [str], [float] text, [dict], [OrderedDict] and
      JSON values the sources use; [PySort]: sorting.
    - [Exceptions]: [common/exceptions.py].
    - [CompositeDomain]: [domain/composite_routing.py].
    - [ModelUtils]: [domain/model_utils.py].
    - [ConstrainedBackends]: [config/constrained_backend_policy.py] and [fnmatch].
    - [CapabilityIndex], [CapabilityRefresh]:
      [services/model_capability_index.py], with [common/model_catalog.py].
    - [BackendRouting]: [services/backend_routing_service.py] and
      [config/models/routing.py].
    - [SelectorParser]: [services/composite_selector_parser.py].
    - [WeightedSelector]: [services/weighted_branch_selector.py].
    - [RoutingState]: [services/composite_routing_state.py], and in its module
      [Diagnostics] [services/composite_diagnostics_publisher.py].
    - [RoutingCoordinator]: [services/composite_routing_coordinator.py], written
      against the interface [LeafTargetResolver] with the laws [LawfulResolver].
    - [RoutingService]: [services/composite_leaf_target_resolver_adapter.py] and
      [services/composite_routing_service.py]; the adapter is an instance of the
      interface and satisfies its laws.
    - [RecoveryBridge]: [services/composite_failure_recovery_bridge.py].
    - [CircuitBreaker]: [services/resilience/circuit_breaker_state.py] and the
      breaker configuration of [config/models/misc.py].
    - [TTLCache]: the interface of the expiring cache of the [cachetools] package,
      with its documented laws and a concrete instance.
    - [RateLimitState]: [services/resilience/rate_limit_state.py].
    - [ErrorHandlers]: [services/provider_error_classifier.py] (module
      [Classifier]), the handlers of [services/resilience/handlers/] and their
      wiring in [di/registrations/_resilience_coordination.py].
    - [Resilience]: [services/resilience/coordinator.py] and [scope.py].
    - [ModelReplacement]: [domain/configuration/replacement_rule.py] and
      [replacement_config.py], [domain/replacement_state.py],
      [services/model_replacement_service.py], the replacement block of
      [services/request_processor_service.py] and the [finally] block of
      [services/backend_executor.py].
    - [LoopText]: texts as lists of code points, the events of
      [loop_detection/event.py] and the results of the detector interface.
    - [RollingHash]: [RollingHashTracker] of [loop_detection/hybrid_detector.py].
    - [TokenWindow]: [loop_detection/token_window_loop_detector.py].
    - [HybridDetector]: [HybridLoopDetector] of [loop_detection/hybrid_detector.py]
      (module [Hybrid]), over the two detectors.
    - [RequestDedup]: [services/request_deduplication_service.py].
    - [ToolFingerprint]: the normal form and the fingerprints of tool calls and of
      their results in [domain/tool_progress_loop.py].
    - [ToolProgress]: [services/tool_progress_loop_guard.py], the other types of
      [domain/tool_progress_loop.py] and the block of
      [services/request_processor_service.py] that applies a decision.
    - [RetryAfter]: [services/resilience/retry_after.py].
    - [FailureStrategy]: [services/failure_handling_strategy.py] against the
      interface [BackendDiscovery], and
      [services/streaming/stream_recovery_budget.py].
    - [FailureRecovery]:
      [services/backend_completion_flow/failure_recovery_executor.py], the
      keep-alives of [services/streaming_keepalive.py],
      [synchronize_request_with_target] of [services/backend_model_resolver.py] and
      the failure paths of [services/backend_completion_flow/service.py].
    - [RecoveryLoop]: the recursion through the completion flow ends.
    - [RoutedFailover]: the routing service with the coordinator of [Resilience] as
      the discovery interface of [FailureStrategy].
    - [FailoverPlanner]: [services/failover_service.py],
      [failover_coordinator.py], [failover_strategy.py] and [failover_planner.py].
    - [StreamChunks]: [common/openai_stream_reasoning.py] and the chunk readers of
      the racer and the orchestrator.
    - [ParallelRace]: [services/parallel_completion_racer.py], the race as a
      transition system.  [ParallelRaceFacts], [RaceCancel], [RaceProgress] and
      [RaceGuarantees] hold its invariants, its measure and its theorems.
    - [ParallelOrchestrator]: [services/parallel_completion_orchestrator.py] and
      [parallel_routing_policy.py].
    - [ToolAccess]: [services/tool_access_policy_service.py] and
      [tool_call_handlers/tool_access_control_handler.py].
    - [CommandParser]: [commands/parser.py] and [commands/models.py].
    - [NonForwardable]: [services/non_forwardable_message_identity_service.py],
      [non_forwardable_message_registry.py], [non_forwardable_message_enforcer.py]
      and messages of [domain/chat.py].
    - [CommandService]: [commands/service.py], [commands/pipeline/],
      [command_policy_service.py], [services/command_handler.py] and the message
      choice of [services/backend_request_preparation_service.py].
    - [FileSandbox]: [services/path_validation_service.py] and
      [services/file_sandboxing_handler.py].
    - [ToolHistory], [ToolReactor]: [services/tool_call_reactor_service.py].
    - [ToolArguments]: the arguments parser and the fixups of
      [services/tool_call_reactor/], [services/windows_double_ampersand_fixer.py].
    - [ToolCalls]: extractor, normalizer, deduplicator and stream buffer of
      [services/tool_call_reactor/], and [tool_call_loop/lifecycle_registry.py].
    - [ToolOrchestrator]: [orchestrator.py] and [replacement_response_factory.py]
      of the same directory, against the interface [ToolCallReactor], of which the
      reactor of [ToolReactor] is an instance.

    - [EndpointHealth]: [domain/health/endpoint_health_state.py], and in
      [services/health/] the registry, the state manager and the backend notifier.
    - [EndOfSession]: [services/end_of_session_service.py],
      [session_metrics_initializer.py] and [usage_tracking_eos_subscriber.py] over the
      session rows of [database/], as interleaved tasks.
    - [EosDetection]: [services/streaming/end_of_session_stream_processor.py],
      [services/end_of_session_tool_call_handler.py], the detector of
      [src/src/services/test_execution_reminder/completion_signal_detector.py] and
      [services/backend_completion_flow/eos_adapter.py].
    - [SessionCancellation]: [services/session_cancellation_coordinator.py],
      [domain/session_key.py], [common/session_key_resolver.py], and in [services/]
      [backend_work_guard.py], [client_termination_reason_mapper.py],
      [session_cancellation_cleanup_eos_subscriber.py] and
      [client_end_of_session_service.py].
    - [B2buaMapping]: the settings and the memory store of
      [services/b2bua_mapping_store_service.py] and the interface [MappingStore] with the
      laws [MappingStoreLaws]; [B2buaPersistent]: the database store of the same file,
      an instance of the same laws.
    - [B2buaSessions]: [domain/b2bua_identity.py], and in [services/]
      [b2bua_session_id_factory.py], [auth_scope_resolver_service.py],
      [client_session_id_extractor_service.py], [b2bua_session_resolver_service.py],
      [b2bua_bleg_allocator_service.py], the attempt context of
      [backend_completion_flow/service.py] and the projection of its
      [connector_invoker.py], against the interface of [B2buaMapping].

    Definitions keep the names of the source ([decide] is [decide_failure], the
    name being taken).  A method that reads and updates an object is a function
    from the object to its result and the object afterwards; a raise is [Err], and
    updates made before it stay.  The request context is [option RequestContext],
    its extensions a finite map of JSON values.  The recovery works on a [world]:
    the context, the attempted backends (the list object the context holds), a
    clock, the sleeps and the number of backend calls.  The race is a state with a
    labelled step relation; a schedule is a list of steps.

    ** What the theorems show

    - Parsing: a plan that is well formed or a bounded, typed error, but for two
      exceptions that escape and are pinned ([parse_plan_or_typed_error]); operator detection, splitting and the gate in
      front of composite routing agree ([detect_split_agree],
      [is_composite_selector_iff]).
    - Choice: the weighted draw is total and proportional
      ([select_index_proportional], [select_total]); the interleaved thinking cycle
      gives every branch as many turns as its weight, a thinker one
      ([thinking_cycle_fair]); max-context filtering
      is exact in spite of its cache ([filter_by_max_context_exact]); a weighted
      group resolves an eligible branch or says why not
      ([execute_weighted_outcome]).
    - Failover: the loop, with its persisted state, history, diagnostics and
      cache, refines an abstract walk over verdicts ([failover_chain_refines]), and
      takes the first branch that resolves within the budget
      ([failover_chain_picks_first]).
    - Service: leaf resolution is bracketed ([leaf_flag_restored],
      [leaf_extra_body_spec]) and raises only what callers handle
      ([service_errors_expected], over the hierarchy of [isinstance_iff_subclass]).
    - Composite recovery: the stored snapshot is read back
      ([weighted_snapshot_roundtrip]), retries progress and are bounded
      ([weighted_retry_progress], [weighted_retries_bounded]), failover goes on in
      order ([failover_recovery_in_order]); the attempt context is exact
      ([attempt_context_exact]).
    - Routing: the capability index answers exactly ([get_candidates_exact]), a
      refresh runs alone and backs off ([refresh_turns_safe]), collapsing a family and
      ranking are exact ([collapse_exact], [rank_exact]); round robin is fair
      ([round_robin_fair]); a bare model gets an allowed instance, a typed error or the
      exception of a comparison that overflows or of a coordinator that raises
      ([model_only_outcome], [model_only_paths_agree], [resolve_respects_limits]);
      configurations are validated ([routing_config_valid]); the failure strategy
      fails over exactly when an eligible alternative exists, or raises what the
      routing service lets escape ([failover_iff_eligible]).
    - Failover plans: a planned attempt is healthy ([failover_plan_healthy]) and a
      configured route is served ([configured_route_served]).
    - Parallel completion: in every schedule the client sees one leg's stream
      ([client_sees_one_stream]), a race without a winner is complete
      ([finished_race_complete]), handicaps are kept ([handicap_respected]) and, as far as the
      streams, the callbacks and the lock return, every race ends
      ([every_race_ends]).  The orchestrator delivers the winner
      ([raced_request_gets_winner]), alternates thinker and executor
      ([executor_and_thinker_alternate]), cancels a leg once ([leg_cancelled_once])
      and aggregates by concatenation ([collect_is_concatenation]).
    - Circuit breaker: the answers and the phases of any history of calls, enabled or
      not, are those of an abstract breaker ([breaker_refines_contract]); it refuses while open, trips at the threshold
      and recovers ([open_circuit_refuses], [trips_at_threshold],
      [circuit_recovers]).
    - Rate limits and errors: [availability_checks_agree],
      [instance_cooldown_lifecycle], [unsupported_survives_success],
      [error_chain_effects], [classify_precedence], [duration_hms],
      [check_availability_all_guards], [unsupported_failure_isolated].
    - Failure recovery: every decision is justified ([decide_justified]); the hint
      it reads is a wait ([retry_after_nonneg]) and printed delays are read back
      ([duration_parsers_agree]); a wait is exact and, unless it is streamed, ends
      soon after a cancellation ([wait_exact_and_cancellable]); a failover plan is tried in order ([failover_plan_in_order]); with targets the
      resolver honours and no configured routes the whole recursion is bounded by
      the configuration ([recovery_terminates]).
    - Loop detection: the rolling scan equals a scan on the text
      ([rolling_scan_exact]), its matches are real ([long_match_sound]), a stream
      that falls into a loop is caught ([periodic_stream_caught]); the window
      detector is sound ([short_loop_sound]), complete for periodic text
      ([periodic_text_detected]) and independent of the chunking
      ([chunking_irrelevant]); their composition reports only real loops
      ([hybrid_reports_justified]), checks complete texts correctly
      ([check_for_loops_correct]) and stays within its memory
      ([hybrid_memory_bounded], [tracker_memory_bounded]).
    - Deduplication: no duplicate passes in the window, until a completion with an
      error lets the retry through ([no_duplicate_in_window]), waiting as told
      suffices ([retry_after_suffices]), the cache is bounded
      ([dedup_cache_bounded]).
    - Tool progress: repetition is steered, then blocked, then forgiven
      ([repeated_call_escalates]); no block without a warning about
      the same calls ([block_only_after_steer]); the state stays well formed ([guard_always_ok]).
    - Model replacement: a request is one step of the session's phases, or the
      KeyError of a full service ([request_turn_refines]), a replacement lasts its turns and is followed by a
      rest ([replacement_window]), no sequence of calls corrupts a state
      ([states_never_corrupt]).
    - Tool access: the selected policy is the best match, through the cache
      ([select_policy_exact]); the filter of the tools that carry a name and the
      check of the calls agree ([enforcement_agrees]).
    - Commands: printed commands are parsed back ([parse_print]), the parser finds
      every command ([parse_finds_commands]), a handled command leaves the message, as text or
      as parts, and no other text does ([command_taken_out]).
    - Non-forwardable messages: an identity survives a copy ([identity_stable]),
      tags stay ([tags_are_for_good]), the enforcer drops exactly the tagged
      messages or raises exactly its errors ([enforcer_exact]); no tagged message
      reaches a backend ([tagged_never_forwarded]), nor does a command executed at the
      end of the latest user message ([tail_command_kept_back]).
    - Sandbox: the paths of a file changing call that passes lead, component by
      component, to places inside the project ([sandbox_confines]); likewise for a
      shell command ([shell_command_confined]).
    - Tool calls: the new calls of a response are put to the reactor in order up to
      the first swallowed one, whose response is replaced ([response_is_checked]) by a response without calls
      ([replacement_has_no_calls]); the first handler in order of priority that is willing in
      the state it is asked in decides ([highest_priority_swallows]), under any alias
      ([aliases_are_transparent]); the history counts exactly ([call_count_exact],
      [counts_sound]) and its snapshots are bounded ([snapshot_bounded]); the
      Windows fixup leaves no ampersands ([no_ampersands_left]).
    - Endpoint health: after any sequence of check results and transitions a backend is
      refused exactly when the last results of its URL say so
      ([backend_gated_by_checks], over the invariant [registry_ok]) when that URL is
      its own normal form, and through the
      coordinator ([unhealthy_endpoint_rejected]).
    - End of a session: in every interleaving a session has at most one event, and one
      more for every claim that the database failed to answer
      ([one_event_per_session]); a new signal on a row that is not claimed is emitted and
      later ones are dropped ([signal_is_emitted]); two signals whose claims failed are
      still told apart by the cache ([fail_open_deduplicates]).  The metrics initializer
      never writes a row ([initializer_writes_nothing]), so from an empty table and with a
      database that answers no event is ever published ([no_event_without_failure]).  The
      observers pass their input through ([observers_pass_through]).
    - Cancellation: in every interleaving work is cancelled at most once, and after a
      cancellation, while its mark lasts, all work of the session is cancelled and new
      work is refused ([cancelled_session_stops]); a guarded stream is a prefix
      ([guarded_prefix]); the end of a client stops its session and touches no
      other, and is handled once while the session is kept
      ([client_end_stops_session]).
    - Session legs: over any store that keeps the laws, the A-leg of an authenticated
      scope is used by that scope only, for one client session ([sessions_isolated]); the B-legs of an
      A-leg are numbered without gaps or repetition ([b_legs_numbered], over
      [allocate_spec]) and a connector sees the B-leg it was given
      ([connector_sees_b_leg]); the memory store and the database store answer alike
      ([stores_agree]).
    - Behaviours that are not as documented or intended, proved as they are:
      [nonfinite_timing_escapes], [long_number_escapes], [registry_error_escapes],
      [nameless_tools_removed], [bare_host_is_never_gated], [side_channel_accepts_first_thinker],
      [suppressed_thinker_still_selected], [disable_lasts_one_ttl],
      [check_availability_changes_breaker], [nested_detail_breaks_reason],
      [opt_out_header_ignored], [full_house_key_error], [threshold_one_raises],
      [check_sees_only_tail], [check_restores_stream], [check_leaks_into_stream],
      [client_error_masked], [explicit_selector_defeats_failover],
      [no_context_ping_pong], [canonical_key_taken],
      [generic_fallback_when_filtered], [huge_cost_escapes], [winner_error_dropped],
      [cancel_misses_returned_call], [policy_ignored], [list_route_dropped],
      [default_route_not_reached], [request_routes_not_planned],
      [broken_block_pattern_allows], [half_compiled_override_allows],
      [command_still_calls_backend], [unknown_command_calls_backend],
      [leading_command_forwarded], [filtering_leaves_commands],
      [caller_parts_changed], [retargeted_link_passes],
      [command_with_workdir_unchecked], [patch_text_is_a_path],
      [text_arguments_pass], [strict_stops_harmless_command],
      [history_reset_at_limit], [total_keeps_expired],
      [cleared_session_crowds_out], [recovered_never_reported],
      [fixups_stay_in_proxy], [rerooted_path_passes_sandbox],
      [repeated_call_passes], [same_id_unchecked], [object_arguments_unchecked],
      [empty_metadata_hides_calls],
      [ipv6_backend_cannot_be_asked], [recovered_ping_notifies_unhealthy],
      [failed_claim_doubles_event], [failing_database_event_per_request],
      [announced_session_never_ends], [quoted_sentinel_ends_session],
      [chunk_id_taken_for_session], [event_reopens_gate],
      [announced_end_reopens_gate], [grouped_session_not_cleaned],
      [late_cancellation_expires], [long_work_not_cancelled],
      [recording_renews_only_in_database], [unstored_session_has_no_attempts],
      [echoed_first_leg_is_replaced], [anonymous_leg_is_for_everyone],
      [b_leg_reveals_a_leg], [structured_chats_are_merged].

    ** Bounds, fuel and clocks

    The annotation loop of the parser runs on as much fuel as the branch has
    characters; [parse_plan_or_typed_error] excludes [OutOfFuel].  The window loop
    of the short detector runs on the number of positions left, which its theorems
    show to be enough.  The waits run on one unit of fuel per slice
    ([wait_slices_spec], [keepalive_loop_spec]).  The recursion of
    [call_completion] runs on fuel; [recovery_terminates] says how much is enough.
    The command parser's loop runs on the text's length ([parse_loop_fuel]), the
    ampersand fixup on the command's ([no_ampersands_left] shows it to be enough).
    A race has no fuel: [every_race_ends] bounds its steps by a measure.  It assumes
    what the steps of the race take for granted, that a stream yields or fails or ends,
    that a cancel callback returns, and that the lock around the choice of the winner,
    which the code holds at most across a cancel callback, is released.
    Decimal printing runs on the bit size of the number ([parse_int_str_of_Z]).
    The eviction loop of the replacement service has the source's own iteration
    bound.  Everything else is structural.  A method reads each clock once; times
    are rationals.  Float text is an exact decimal, so binary rounding and float
    overflow of huge integers are outside the model; so is the OverflowError of a
    weighted group whose weights add up beyond the largest float.  Where an overflow
    decides a theorem it is modelled: costs compared with a float, and numbers of more
    digits than [int] reads.  Strings hold the code points 0 to 255, the texts of loop
    detection any code point.

    ** Parameters

    Code outside the repository, or reached through an interface, is an argument:
    [parse_qs], [urlparse], [json.loads], [json.dumps] and [json_repair], SHA-256, UTF-8 decoding,
    the compilation and search of regular expressions, HTTP dates, the file system's
    [realpath], home and working directory, [uuid4], [str] of values that are no
    strings, prompt token counting, the backend model resolver, the environment of a
    discovery round, the upstream streams of a race, the handlers of commands, the
    end-of-session service, the exception normalizer, the expiring cache, the HTTP
    library's exception classes, [repr] of containers, one-decimal formatting, the
    built-in [hash] and [str.isalpha], the text of a clock reading, the
    random source, the registered backends, the iteration order of a set, the order in
    which the database returns equal rows.  What is relied on is a class of laws, or a named
    hypothesis, with an instance that satisfies it.
    [FailureStrategy] takes its discovery to return; a routing service that raises is
    covered by [failover_iff_eligible].

    ** Not modelled

    Logging, metrics and wire capture; connectors and transport, which are I/O around
    remote services; the streaming pipeline and protocol translation, which rewrite
    provider formats; the single command handlers, artifact previews and history
    compaction; the resolution of buffer state and the middleware around the tool
    call orchestrator, and the other tool call handlers; the retry executor; the
    older loop analyzer and its buffer; authentication and databases; configuration
    loading and dependency injection; the health checkers and their scheduler; the
    delivery of events by the event bus; the background task that triggers refreshes; a
    replacement state's dictionary form, the per-session metrics of the replacement
    service and the fallback to the original model after a failed replacement call.

    ** What is left

    The retry policy, the streaming middleware between the racer and the tool call
    orchestrator, and the round trip of normalized selectors. *)

From Stdlib Require Export ssreflect.
From stdpp Require Export base gmap sets list strings fin_maps.
From Stdlib Require Export QArith Qminmax Lqa.
From stdpp Require Import options.

#[global] Open Scope general_if_scope.
#[global] Close Scope Q_scope.
#[global] Open Scope nat_scope.
#[global] Open Scope stdpp_scope.

(** ** Results: what a Python call returns or raises *)

(** [res E A] is the outcome of a call: [Ok a] when it returns [a], [Err e]
    when it raises [e].  The instances give it stdpp's [x ← c; k] notation,
    and [mapM] is then the list comprehension whose first exception wins. *)
Inductive res (E A : Type) : Type :=
| Ok (a : A)
| Err (e : E).
Arguments Ok {E A} a.
Arguments Err {E A} e.

#[global] Instance res_ret {E} : MRet (res E) := λ A a, Ok a.
#[global] Instance res_bind {E} : MBind (res E) := λ A B f m,
  match m with
  | Ok a => f a
  | Err e => Err e
  end.

#[global] Instance res_fmap {E} : FMap (res E) := λ A B f m,
  match m with
  | Ok a => Ok (f a)
  | Err e => Err e
  end.

#[global] Instance res_eq_dec {E A} `{EqDecision E, EqDecision A} : EqDecision (res E A).
Proof. solve_decision. Defined.

(** ** Computations over a mutable object

    [stm S E A] is a method that reads and updates an object of type [S] and
    returns an [A] or raises an [E]; updates made before a raise stay. *)
Definition stm (S E A : Type) : Type := S → res E A * S.

#[global] Instance stm_ret {S E} : MRet (stm S E) := λ A a s, (Ok a, s).
#[global] Instance stm_bind {S E} : MBind (stm S E) := λ A B f m s,
  match m s with
  | (Ok a, s') => f a s'
  | (Err e, s') => (Err e, s')
  end.

Definition raise {S E A} (e : E) : stm S E A := λ s, (Err e, s).
Definition modify {S E} (f : S → S) : stm S E unit := λ s, (Ok tt, f s).
Definition gets {S E A} (f : S → A) : stm S E A := λ s, (Ok (f s), s).
(** A pure call that may raise. *)
Definition lift {S E A} (r : res E A) : stm S E A := λ s, (r, s).
(** [if b: m] *)
Definition when {S E} (b : bool) (m : stm S E unit) : stm S E unit :=
  if b then m else mret tt.

Declare Scope proxy_scope.
Delimit Scope proxy_scope with proxy.
(** [guard' b else e] is the shape of [if not b: raise e]. *)
Notation "'ensure' b 'else' e ; k" := (if b then k else Err e)
  (at level 20, b at level 100, e at level 100, k at level 200, right associativity,
   format "'ensure'  b  'else'  e ;  '/' k") : proxy_scope.
#[global] Open Scope proxy_scope.

(** ** Databases and tactics *)

Create HintDb proxy discriminated.

(** Case analysis on the first [match] or [if] met, keeping its equation. *)
Ltac case_step :=
  match goal with
  | |- context [match ?x with _ => _ end] => destruct x eqn:?
  | H : context [match ?x with _ => _ end] |- _ => destruct x eqn:?
  end.

(** Boolean hypotheses turned into propositions. *)
Ltac bool_hyps :=
  repeat match goal with
  | H : _ && _ = true |- _ => apply andb_true_iff in H; destruct H
  | H : _ || _ = false |- _ => apply orb_false_iff in H; destruct H
  | H : negb _ = true |- _ => apply negb_true_iff in H
  | H : negb _ = false |- _ => apply negb_false_iff in H
  end.

Ltac crush :=
  repeat (case_step; simplify_eq/=; bool_hyps; try done); simplify_eq/=; eauto with proxy.

(** ** Results: shared lemmas *)

Lemma bind_Ok_inv {E A B} (m : res E A) (f : A → res E B) b :
  m ≫= f = Ok b → ∃ a, m = Ok a ∧ f a = Ok b.
Proof. destruct m; simpl; [eauto | done]. Qed.

Lemma bind_Err_inv {E A B} (m : res E A) (f : A → res E B) e :
  m ≫= f = Err e → m = Err e ∨ ∃ a, m = Ok a ∧ f a = Err e.
Proof. destruct m; simpl; intros; simplify_eq; eauto. Qed.

(** Running the first step of a method. *)
Lemma stm_run_Ok {S E A B} (m : stm S E A) (f : A → stm S E B) s a s' :
  m s = (Ok a, s') → (m ≫= f) s = f a s'.
Proof. unfold mbind, stm_bind. by intros ->. Qed.

Lemma stm_run_Err {S E A B} (m : stm S E A) (f : A → stm S E B) s e s' :
  m s = (Err e, s') → (m ≫= f) s = (Err e, s').
Proof. unfold mbind, stm_bind. by intros ->. Qed.

Section mapM_res.
Context {E A B : Type} (f : A → res E B).

Lemma mapM_Ok_Forall2 (l : list A) (k : list B) :
  mapM f l = Ok k ↔ Forall2 (λ a b, f a = Ok b) l k.
Proof.
  revert k; induction l as [|a l IH]; intros k; simpl.
  - split; [intros [= <-]; constructor | by inversion 1].
  - split.
    + intros (b & Hb & (k' & Hk & [= <-])%bind_Ok_inv)%bind_Ok_inv.
      constructor; [done | by apply IH].
    + inversion 1 as [|? b ? k' Hb Hk]; subst.
      apply IH in Hk. by rewrite Hb /= Hk.
Qed.

Lemma mapM_Err_inv (l : list A) e :
  mapM f l = Err e → ∃ a, a ∈ l ∧ f a = Err e.
Proof.
  induction l as [|a l IH]; simpl; [done|].
  intros [?|(b & Hb & [Hl|(?&_&[=])]%bind_Err_inv)]%bind_Err_inv.
  - exists a. split; [constructor|done].
  - destruct (IH Hl) as (a' & ? & ?). exists a'. split; [by constructor|done].
Qed.
End mapM_res.

(** ** Rational time

    Clock readings and durations are exact rationals; the comparisons are
    booleans, as the code has them. *)

Definition Qltb (x y : Q) : bool := negb (Qle_bool y x).

Lemma Qltb_spec x y : reflect (x < y)%Q (Qltb x y).
Proof.
  unfold Qltb. destruct (Qle_bool y x) eqn:H; constructor.
  - apply Qle_bool_iff in H. intros Hlt. by apply (Qle_not_lt y x).
  - apply Qnot_le_lt. intros Hle. apply Qle_bool_iff in Hle. congruence.
Qed.

Lemma Qle_bool_spec x y : reflect (x <= y)%Q (Qle_bool x y).
Proof.
  destruct (Qle_bool x y) eqn:H; constructor.
  - by apply Qle_bool_iff.
  - intros Hle. apply Qle_bool_iff in Hle. congruence.
Qed.

(** Reflects the rational comparisons of the context and the goal. *)
Ltac qcase :=
  repeat match goal with
  | |- context [Qltb ?x ?y] => destruct (Qltb_spec x y)
  | H : context [Qltb ?x ?y] |- _ => destruct (Qltb_spec x y)
  | |- context [Qle_bool ?x ?y] => destruct (Qle_bool_spec x y)
  | H : context [Qle_bool ?x ?y] |- _ => destruct (Qle_bool_spec x y)
  end.

(** Python's [max] on two floats: the first argument unless the second is
    larger. *)
Definition Qpymax (x y : Q) : Q := if Qltb x y then y else x.

(** Python's [min] on two floats. *)
Definition Qpymin (x y : Q) : Q := if Qltb y x then y else x.

Lemma Qpymin_spec x y : (Qpymin x y <= x)%Q ∧ (Qpymin x y <= y)%Q ∧ (Qpymin x y = x ∨ Qpymin x y = y).
Proof. unfold Qpymin. qcase; split_and!; auto; lra. Qed.

Lemma Qpymax_ge_l x y : (x <= Qpymax x y)%Q.
Proof. unfold Qpymax. qcase; lra. Qed.

Lemma Qpymax_ge_r x y : (y <= Qpymax x y)%Q.
Proof. unfold Qpymax. qcase; lra. Qed.

#[export] Hint Resolve Qpymax_ge_l Qpymax_ge_r : proxy.

(** ** Lists *)

(** Two predicates that agree on the list select the same elements. *)
Lemma list_filter_ext {A} (P Q : A → Prop) `{∀ x, Decision (P x), ∀ x, Decision (Q x)}
    (l : list A) :
  (∀ x, x ∈ l → P x ↔ Q x) → filter P l = filter Q l.
Proof.
  induction l as [|x l IH]; intros HPQ; [done|].
  rewrite !filter_cons IH; [intros; apply HPQ; by right|].
  destruct (HPQ x); [by left|]. repeat case_decide; done || exfalso; auto.
Qed.

(** Fewer elements, fewer selected. *)
Lemma filter_length_sublist {A} (P : A → Prop) `{!∀ x, Decision (P x)} (k l : list A) :
  sublist k l → length (filter P k) ≤ length (filter P l).
Proof.
  induction 1 as [|x k l _ IH|x k l _ IH]; simpl; [done| |]; rewrite !filter_cons;
    case_decide; simpl; lia.
Qed.
