(* ===== verification/PyStr.v ===== *)
(** * Python strings

    The part of [str] the proxy uses, on strings whose characters are the code
    points 0 to 255: whitespace and case follow [str.isspace], [str.strip] and
    [str.lower] on that range.  Also decimal integers ([str(int)], [int(text)])
    and the text form of floats ([float(text)], [str(float)]). *)

From Stdlib Require Import Ascii.
From S2P Require Import Prelude.
From stdpp Require Import options.

Notation str := string (only parsing).

#[global] Arguments Ascii.eqb : simpl never.
#[global] Arguments String.eqb : simpl never.

(** ** Characters *)

(** [str.isspace] on one character. *)
Definition is_space (c : ascii) : bool :=
  let n := nat_of_ascii c in
  ((9 <=? n) && (n <=? 13)) || ((28 <=? n) && (n <=? 32)) || (n =? 133) || (n =? 160).

(** [str.lower] on one character. *)
Definition lower_char (c : ascii) : ascii :=
  let n := nat_of_ascii c in
  if ((65 <=? n) && (n <=? 90)) || ((192 <=? n) && (n <=? 214)) || ((216 <=? n) && (n <=? 222))
  then ascii_of_nat (n + 32) else c.

(** The characters matched by the pattern's [\d]. *)
Definition is_digit (c : ascii) : bool :=
  let n := nat_of_ascii c in (48 <=? n) && (n <=? 57).

Definition digit_val (c : ascii) : N := N.of_nat (nat_of_ascii c - 48).
Definition digit_char (d : N) : ascii := ascii_of_nat (48 + N.to_nat d).

(** ** Whole strings *)

Fixpoint lower (s : str) : str :=
  match s with
  | "" => ""
  | String c s' => String (lower_char c) (lower s')
  end.

Fixpoint lstrip (s : str) : str :=
  match s with
  | "" => ""
  | String c s' => if is_space c then lstrip s' else s
  end.

(** Drops the trailing whitespace: a character stays when it is not a space or
    something after it stays. *)
Fixpoint rstrip (s : str) : str :=
  match s with
  | "" => ""
  | String c s' =>
      match rstrip s' with
      | "" => if is_space c then "" else String c ""
      | t => String c t
      end
  end.

Definition strip (s : str) : str := rstrip (lstrip s).

Definition is_empty (s : str) : bool :=
  match s with "" => true | _ => false end.

Fixpoint startswith (p s : str) : bool :=
  match p, s with
  | "", _ => true
  | String c p', String d s' => if Ascii.eqb c d then startswith p' s' else false
  | String _ _, "" => false
  end.

(** [p in s] *)
Fixpoint str_contains (p s : str) : bool :=
  startswith p s ||
  match s with
  | "" => false
  | String _ s' => str_contains p s'
  end.

Fixpoint str_take (n : nat) (s : str) : str :=
  match n, s with
  | S n', String c s' => String c (str_take n' s')
  | _, _ => ""
  end.

Fixpoint str_drop (n : nat) (s : str) : str :=
  match n, s with
  | S n', String _ s' => str_drop n' s'
  | _, _ => s
  end.

Definition endswith (p s : str) : bool :=
  (String.length p <=? String.length s) &&
  String.eqb (str_drop (String.length s - String.length p) s) p.

(** [s.find(c)] for one character; [None] is the [-1] of Python. *)
Fixpoint str_find (c : ascii) (s : str) : option nat :=
  match s with
  | "" => None
  | String d s' => if Ascii.eqb d c then Some 0 else S <$> str_find c s'
  end.

(** [s.rfind(c)] *)
Fixpoint str_rfind (c : ascii) (s : str) : option nat :=
  match s with
  | "" => None
  | String d s' =>
      match str_rfind c s' with
      | Some n => Some (S n)
      | None => if Ascii.eqb d c then Some 0 else None
      end
  end.

(** [s.partition(c)], without the separator itself. *)
Definition partition (c : ascii) (s : str) : str * str :=
  match str_find c s with
  | Some n => (str_take n s, str_drop (S n) s)
  | None => (s, "")
  end.

(** [s.split(c)] *)
Fixpoint split_char_go (c : ascii) (cur s : str) : list str :=
  match s with
  | "" => [cur]
  | String d s' =>
      if Ascii.eqb d c then cur :: split_char_go c "" s'
      else split_char_go c (cur +:+ String d "") s'
  end.
Definition split_char (c : ascii) (s : str) : list str := split_char_go c "" s.

(** [s.split()]: the maximal runs of non-whitespace. *)
Fixpoint split_ws_go (cur s : str) : list str :=
  match s with
  | "" => if is_empty cur then [] else [cur]
  | String d s' =>
      if is_space d then
        if is_empty cur then split_ws_go "" s' else cur :: split_ws_go "" s'
      else split_ws_go (cur +:+ String d "") s'
  end.
Definition split_ws (s : str) : list str := split_ws_go "" s.

(** The characters at which [str.splitlines] breaks. *)
Definition is_linebreak (c : ascii) : bool :=
  let n := nat_of_ascii c in
  ((10 <=? n) && (n <=? 13)) || ((28 <=? n) && (n <=? 30)) || (n =? 133).

Definition CR : ascii := ascii_of_nat 13.
Definition LF : ascii := ascii_of_nat 10.

(** [s.splitlines()], with the line read so far: a carriage return with its line
    feed is one break, and there is no empty line after the last break. *)
Fixpoint splitlines_go (cur s : str) : list str :=
  match s with
  | "" => if is_empty cur then [] else [cur]
  | String c s' =>
      if is_linebreak c then
        match s' with
        | String d s'' => if Ascii.eqb c CR && Ascii.eqb d LF then cur :: splitlines_go "" s'' else cur :: splitlines_go "" s'
        | "" => cur :: splitlines_go "" s'
        end
      else splitlines_go (cur +:+ String c "") s'
  end.

Definition splitlines (s : str) : list str := splitlines_go "" s.

(** [s.replace(c, d)] for single characters. *)
Fixpoint replace_char (c d : ascii) (s : str) : str :=
  match s with
  | "" => ""
  | String x s' => String (if Ascii.eqb x c then d else x) (replace_char c d s')
  end.

(** [sep.join(l)] *)
Fixpoint join (sep : str) (l : list str) : str :=
  match l with
  | [] => ""
  | [x] => x
  | x :: l' => x +:+ sep +:+ join sep l'
  end.

Definition str_in (s : str) (l : list str) : bool := existsb (String.eqb s) l.

(** ** Decimal integers *)

Fixpoint digits_go (fuel : nat) (n : N) (acc : str) : str :=
  match fuel with
  | 0 => acc
  | S f =>
      let acc' := String (digit_char (n mod 10)) acc in
      if (n / 10 =? 0)%N then acc' else digits_go f (n / 10) acc'
  end.

(** [str(n)]; the number of bits bounds the number of digits. *)
Definition str_of_N (n : N) : str := digits_go (S (N.size_nat n)) n "".

Definition str_of_Z (z : Z) : str :=
  match z with
  | Zneg p => String "-" (str_of_N (Npos p))
  | _ => str_of_N (Z.to_N z)
  end.

Fixpoint parse_digits (acc : N) (s : str) : option N :=
  match s with
  | "" => Some acc
  | String c s' => if is_digit c then parse_digits (acc * 10 + digit_val c) s' else None
  end.

(** At least one digit and nothing else. *)
Definition parse_nat (s : str) : option N :=
  match s with "" => None | _ => parse_digits 0 s end.

(** The full match of [^[+-]?\d+$], with the value [int(text)] it has. *)
Definition parse_int (s : str) : option Z :=
  match s with
  | String "-" s' => (λ n, - Z.of_N n)%Z <$> parse_nat s'
  | String "+" s' => Z.of_N <$> parse_nat s'
  | _ => Z.of_N <$> parse_nat s
  end.

(** [int] refuses a text of more digits, whatever their value. *)
Definition MAX_STR_DIGITS : nat := 4300.

Definition int_digits (s : str) : nat :=
  match s with
  | String "-" s' | String "+" s' => String.length s'
  | _ => String.length s
  end.

Definition too_many_digits (s : str) : bool := MAX_STR_DIGITS <? int_digits s.

(** ** Float literals

    A float is a decimal [m * 10^e], an infinity or a NaN.  The rounding of a
    decimal literal to the nearest double is not modelled, its overflow to an
    infinity and its underflow to zero are. *)

Inductive pyfloat : Type :=
| FDec (m e : Z)
| FInf (negative : bool)
| FNan.

#[global] Instance pyfloat_eq_dec : EqDecision pyfloat.
Proof. solve_decision. Defined.

(** [a * 10^ea <= b * 10^eb], exactly. *)
Definition dec_leb (a ea b eb : Z) : bool :=
  (a * 10 ^ Z.max 0 (ea - eb) <=? b * 10 ^ Z.max 0 (eb - ea))%Z.

(** Literals of at least [2^1024 - 2^970] overflow; those of at most [2^-1075]
    round to zero. *)
Definition mk_float (m e : Z) : pyfloat :=
  if dec_leb (2 ^ 1024 - 2 ^ 970) 0 (Z.abs m) e then FInf (m <? 0)%Z
  else if dec_leb (Z.abs m * 2 ^ 1075) e 1 0 then FDec 0 0
  else FDec m e.

(** CPython drops the underscores of a literal only between digits. *)
Fixpoint drop_underscores (prev : ascii) (s : str) : option str :=
  match s with
  | "" => if Ascii.eqb prev "_" then None else Some ""
  | String c s' =>
      if Ascii.eqb c "_" then if is_digit prev then drop_underscores c s' else None
      else if Ascii.eqb prev "_" && negb (is_digit c) then None
      else String c <$> drop_underscores c s'
  end.

(** [int(text)]; [None] is its [ValueError]. *)
Definition py_int (text : str) : option Z :=
  text ← drop_underscores " " (strip text);
  if too_many_digits text then None else parse_int text.

Fixpoint take_digits (s : str) : str * str :=
  match s with
  | String c s' => if is_digit c then let '(d, r) := take_digits s' in (String c d, r) else ("", s)
  | "" => ("", "")
  end.

Definition N_of_digits (s : str) : N := default 0%N (parse_digits 0 s).

(** The exponent part of a literal; [Some 0] when there is none. *)
Definition parse_exponent (s : str) : option Z :=
  match s with
  | "" => Some 0%Z
  | String c s' => if Ascii.eqb (lower_char c) "e" then parse_int s' else None
  end.

Definition parse_decimal (s : str) : option (Z * Z) :=
  let '(ip, r) := take_digits s in
  let '(fp, r') := match r with String "." r0 => take_digits r0 | _ => ("", r) end in
  if is_empty ip && is_empty fp then None
  else e ← parse_exponent r';
       Some (Z.of_N (N_of_digits (ip +:+ fp)), (e - Z.of_nat (String.length fp))%Z).

(** [float(text)]; [None] is its [ValueError]. *)
Definition py_float (text : str) : option pyfloat :=
  s ← drop_underscores " " (strip text);
  let '(neg, body) :=
    match s with
    | String "-" b => (true, b)
    | String "+" b => (false, b)
    | _ => (false, s)
    end in
  if str_in (lower body) ["inf"; "infinity"] then Some (FInf neg)
  else if String.eqb (lower body) "nan" then Some FNan
  else '(m, e) ← parse_decimal body; Some (mk_float (if neg then - m else m)%Z e).

(** [x < 0] *)
Definition float_neg (x : pyfloat) : bool :=
  match x with
  | FDec m _ => (m <? 0)%Z
  | FInf n => n
  | FNan => false
  end.

(** [x != 0.0] *)
Definition float_nonzero (x : pyfloat) : bool :=
  match x with
  | FDec m _ => negb (m =? 0)%Z
  | _ => true
  end.

(** [int(x)], truncating; the two exceptions are the ones CPython raises. *)
Inductive int_error : Type := IntValueError | IntOverflowError.

Definition int_of_float (x : pyfloat) : res int_error Z :=
  match x with
  | FDec m e => Ok (if (0 <=? e)%Z then m * 10 ^ e else Z.quot m (10 ^ (- e)))%Z
  | FInf _ => Err IntOverflowError
  | FNan => Err IntValueError
  end.

(** [x == n] for an integer [n]. *)
Definition float_eq_Z (x : pyfloat) (n : Z) : bool :=
  match x with
  | FDec m e => (m * 10 ^ Z.max 0 e =? n * 10 ^ Z.max 0 (- e))%Z
  | _ => false
  end.

(** Mantissa without its trailing zeros. *)
Fixpoint norm_dec (fuel : nat) (m e : Z) : Z * Z :=
  match fuel with
  | 0 => (m, e)
  | S f => if (m =? 0)%Z then (0, 0)%Z
           else if (m mod 10 =? 0)%Z then norm_dec f (m / 10) (e + 1) else (m, e)
  end.

Fixpoint zeros (n : nat) : str :=
  match n with 0 => "" | S n' => String "0" (zeros n') end.

(** The shortest [repr] of a decimal: positional for exponents from -4 to 15,
    scientific otherwise. *)
Definition repr_dec (m0 e0 : Z) : str :=
  let '(m, e) := norm_dec (S (N.size_nat (Z.abs_N m0))) m0 e0 in
  let sign := if (m <? 0)%Z then "-" else "" in
  let ds := str_of_N (Z.abs_N m) in
  let nd := Z.of_nat (String.length ds) in
  let pt := (nd + e)%Z in
  sign +:+
  if ((pt <=? -4) || (16 <? pt))%Z then
    let x := (pt - 1)%Z in
    let xs := str_of_N (Z.abs_N x) in
    let frac := str_drop 1 ds in
    str_take 1 ds +:+ (if is_empty frac then "" else String "." frac) +:+ "e" +:+
    (if (x <? 0)%Z then "-" else "+") +:+
    (if (String.length xs <? 2) then String "0" xs else xs)
  else if (pt <=? 0)%Z then "0." +:+ zeros (Z.to_nat (- pt)) +:+ ds
  else if (nd <=? pt)%Z then ds +:+ zeros (Z.to_nat (pt - nd)) +:+ ".0"
  else str_take (Z.to_nat pt) ds +:+ "." +:+ str_drop (Z.to_nat pt) ds.

(** [str(x)] *)
Definition str_of_float (x : pyfloat) : str :=
  match x with
  | FDec m e => repr_dec m e
  | FInf n => if n then "-inf" else "inf"
  | FNan => "nan"
  end.

(** ** Facts about strings *)

Lemma sapp_cons c s t : String c s +:+ t = String c (s +:+ t).
Proof. done. Qed.

Lemma sapp_nil_l s : "" +:+ s = s.
Proof. done. Qed.

Lemma sapp_nil_r s : s +:+ "" = s.
Proof. induction s as [|c s IH]; [done|]. by rewrite sapp_cons IH. Qed.

Lemma sapp_assoc s t u : (s +:+ t) +:+ u = s +:+ t +:+ u.
Proof. induction s as [|c s IH]; [done|]. by rewrite !sapp_cons IH. Qed.

Lemma slength_app s t : String.length (s +:+ t) = String.length s + String.length t.
Proof. induction s as [|c s IH]; [done|]. by rewrite sapp_cons /= IH. Qed.

Lemma is_empty_spec s : is_empty s = true ↔ s = "".
Proof. by destruct s. Qed.

Lemma is_empty_app s t : is_empty (s +:+ t) = is_empty s && is_empty t.
Proof. by destruct s. Qed.

#[export] Hint Rewrite sapp_nil_l sapp_nil_r sapp_assoc sapp_cons slength_app : pystr.

Lemma str_take_drop n s : str_take n s +:+ str_drop n s = s.
Proof.
  revert s; induction n as [|n IH]; intros [|c s]; simpl; try done. by rewrite sapp_cons IH.
Qed.

Lemma slength_take n s : String.length (str_take n s) = Nat.min n (String.length s).
Proof. revert s; induction n as [|n IH]; intros [|c s]; simpl; try done. by rewrite IH. Qed.

Lemma slength_drop n s : String.length (str_drop n s) = String.length s - n.
Proof. revert s; induction n as [|n IH]; intros [|c s]; simpl; try done. Qed.

Lemma str_take_app s t : str_take (String.length s) (s +:+ t) = s.
Proof. induction s as [|c s IH]; [by destruct t|]. by rewrite sapp_cons /= IH. Qed.

Lemma str_drop_app s t : str_drop (String.length s) (s +:+ t) = t.
Proof. by induction s as [|c s IH]. Qed.

(** *** Stripping *)

Lemma rstrip_nonspace_head c s : is_space c = false → ∃ t, rstrip (String c s) = String c t.
Proof. intros Hc. simpl. rewrite Hc. destruct (rstrip s); eauto. Qed.

Lemma lstrip_idem s : lstrip (lstrip s) = lstrip s.
Proof. induction s as [|c s IH]; simpl; [done|]. destruct (is_space c) eqn:H; simpl; by rewrite ?H. Qed.

Lemma lstrip_length s : String.length (lstrip s) ≤ String.length s.
Proof. induction s as [|c s IH]; simpl; [done|]. case_match; simpl; lia. Qed.

Lemma str_drop_length n s : String.length (str_drop n s) = String.length s - n.
Proof. revert s. induction n as [|n IH]; intros [|c s]; simpl; auto with lia. Qed.

Lemma lstrip_head s : lstrip s = "" ∨ ∃ c t, lstrip s = String c t ∧ is_space c = false.
Proof. induction s as [|c s IH]; simpl; [by left|]. destruct (is_space c) eqn:H; eauto. Qed.

Lemma rstrip_idem s : rstrip (rstrip s) = rstrip s.
Proof.
  induction s as [|c s IH]; simpl; [done|].
  destruct (rstrip s) as [|d t] eqn:E.
  - destruct (is_space c) eqn:H; simpl; [done|]. by rewrite H.
  - simpl in IH |- *. by rewrite IH.
Qed.

(** A string that [strip] leaves alone. *)
Definition stripped (s : str) : Prop := strip s = s.

Lemma strip_stripped s : stripped (strip s).
Proof.
  unfold stripped, strip. destruct (lstrip_head s) as [->|(c & t & -> & Hc)]; [done|].
  destruct (rstrip_nonspace_head c t Hc) as [u Hu]. rewrite Hu. simpl (lstrip (String c u)).
  rewrite Hc -Hu. apply rstrip_idem.
Qed.

Lemma strip_idem s : strip (strip s) = strip s.
Proof. apply strip_stripped. Qed.

Lemma stripped_head s : stripped s → s = "" ∨ ∃ c t, s = String c t ∧ is_space c = false.
Proof.
  unfold stripped, strip. intros Hs. destruct (lstrip_head s) as [H|(c & t & H & Hc)].
  - rewrite H in Hs. by left.
  - rewrite H in Hs. destruct (rstrip_nonspace_head c t Hc) as [u Hu]. right.
    exists c, u. by rewrite -Hs Hu.
Qed.

Lemma strip_head_nonspace c s : is_space c = false → strip (String c s) = rstrip (String c s).
Proof. intros Hc. unfold strip. simpl (lstrip _). by rewrite Hc. Qed.

Lemma strip_head_nonempty c s : is_space c = false → is_empty (strip (String c s)) = false.
Proof.
  intros Hc. rewrite strip_head_nonspace //. by destruct (rstrip_nonspace_head c s Hc) as [t ->].
Qed.

(** Prefixing a stripped, non-empty string by text that does not start with a
    space keeps it stripped. *)
Lemma rstrip_app s t : rstrip t ≠ "" → rstrip (s +:+ t) = s +:+ rstrip t.
Proof.
  intros Ht. induction s as [|c s IH]; [done|]. rewrite !sapp_cons /= IH.
  destruct (s +:+ rstrip t) eqn:E; [|done].
  by destruct s.
Qed.

Lemma stripped_rstrip s : stripped s → rstrip s = s.
Proof.
  intros Hs. destruct (stripped_head s Hs) as [->|(c & t & -> & Hc)]; [done|].
  by rewrite -{2}Hs strip_head_nonspace.
Qed.

Lemma stripped_app c s t :
  is_space c = false → t ≠ "" → stripped t → stripped (String c s +:+ t).
Proof.
  intros Hc Ht Hs. unfold stripped. rewrite sapp_cons strip_head_nonspace //.
  rewrite -sapp_cons rstrip_app (stripped_rstrip t) //.
Qed.

(** *** Searching *)

Lemma find_split c s n : str_find c s = Some n →
  s = str_take n s +:+ String c (str_drop (S n) s) ∧ str_find c (str_take n s) = None.
Proof.
  revert n. induction s as [|d s IH]; intros n; simpl; [done|].
  destruct (Ascii.eqb_spec d c) as [->|Hne].
  - intros [= <-]. simpl. by destruct s.
  - intros (k & Hk & ->)%fmap_Some. destruct (IH k Hk) as [Heq Hf]. simpl.
    rewrite sapp_cons. split; [by f_equal|]. destruct (Ascii.eqb_spec d c); [done|]. by rewrite Hf.
Qed.

Lemma find_app c v t : str_find c v = None → str_find c (v +:+ String c t) = Some (String.length v).
Proof.
  induction v as [|d v IH]; simpl.
  - intros _. by rewrite ?sapp_nil_l /= Ascii.eqb_refl.
  - rewrite ?sapp_cons /=. destruct (Ascii.eqb d c); [done|]. intros Hf%fmap_None. by rewrite IH.
Qed.

Lemma startswith_app p t : startswith p (p +:+ t) = true.
Proof. induction p as [|c p IH]; [done|]. by rewrite sapp_cons /= Ascii.eqb_refl. Qed.

Lemma startswith_inv p s : startswith p s = true → ∃ t, s = p +:+ t.
Proof.
  revert s. induction p as [|c p IH]; intros s; simpl; [by exists s|]. destruct s as [|d s]; [done|].
  destruct (Ascii.eqb_spec c d) as [->|]; [|done]. intros [t ->]%IH. exists t. by rewrite sapp_cons.
Qed.

Lemma str_drop_drop n m s : str_drop n (str_drop m s) = str_drop (m + n) s.
Proof. revert s. induction m as [|m IH]; intros s; [done|]. destruct s; simpl; [by destruct n|]. apply IH. Qed.

Lemma str_drop_all n s : String.length s ≤ n → str_drop n s = "".
Proof. revert n. induction s as [|c s IH]; intros [|n]; simpl; try done; [lia|]. intros. apply IH. lia. Qed.

(** All characters of a text are of one kind. *)
Fixpoint str_all (f : ascii → bool) (s : str) : bool :=
  match s with "" => true | String c s' => f c && str_all f s' end.

Lemma str_all_app f s t : str_all f (s +:+ t) = str_all f s && str_all f t.
Proof. induction s as [|c s IH]; [done|]. by rewrite sapp_cons /= IH andb_assoc. Qed.

Lemma str_all_weaken (f g : ascii → bool) s : (∀ c, f c = true → g c = true) → str_all f s = true → str_all g s = true.
Proof. intros H. induction s as [|c s IH]; simpl; [done|]. intros [Hc Hs]%andb_true_iff. by rewrite H // IH. Qed.

(** *** Decimal numbers *)

(** [t] stands somewhere in [s]. *)
Definition substr (t s : str) : Prop := ∃ u v, s = u +:+ t +:+ v.

Lemma substr_refl s : substr s s.
Proof. exists "", "". by rewrite sapp_nil_l sapp_nil_r. Qed.

Lemma substr_trans s t u : substr s t → substr t u → substr s u.
Proof.
  intros (a & b & ->) (c & d & ->). exists (c +:+ a), (b +:+ d). by rewrite !sapp_assoc.
Qed.

Lemma substr_app_l t s : substr t (t +:+ s).
Proof. exists "", s. by rewrite sapp_nil_l. Qed.

Lemma substr_app_r t s : substr t (s +:+ t).
Proof. exists s, "". by rewrite sapp_nil_r. Qed.

Lemma substr_take n s : substr (str_take n s) s.
Proof. rewrite -{2}(str_take_drop n s). apply substr_app_l. Qed.

Lemma substr_drop n s : substr (str_drop n s) s.
Proof. rewrite -{2}(str_take_drop n s). apply substr_app_r. Qed.

Lemma substr_lstrip s : substr (lstrip s) s.
Proof.
  induction s as [|c s IH]; [apply substr_refl|]. cbn [lstrip]. destruct (is_space c); [|apply substr_refl].
  eapply substr_trans; [done|]. by exists (String c ""), ""; rewrite sapp_nil_r.
Qed.

Lemma rstrip_prefix s : ∃ t, s = rstrip s +:+ t.
Proof.
  induction s as [|c s [t IH]]; [by exists ""|]. cbn [rstrip].
  destruct (rstrip s) as [|d r] eqn:E.
  - destruct (is_space c); [by exists (String c s)|]. exists s. by rewrite sapp_cons sapp_nil_l.
  - exists t. by rewrite sapp_cons -IH.
Qed.

Lemma substr_strip s : substr (strip s) s.
Proof.
  unfold strip. eapply substr_trans; [|apply substr_lstrip]. destruct (rstrip_prefix (lstrip s)) as [t Ht].
  rewrite {2}Ht. apply substr_app_l.
Qed.

Lemma substr_join x sep l : x ∈ l → substr x (join sep l).
Proof.
  induction 1 as [x l|x y l Hx IH]; destruct l as [|z l]; try apply substr_refl.
  - apply substr_app_l.
  - by apply elem_of_nil in Hx.
  - eapply substr_trans; [exact IH|]. exists (y +:+ sep), "". by rewrite sapp_nil_r sapp_assoc.
Qed.

Lemma split_char_go_substr c cur s x : x ∈ split_char_go c cur s → substr x (cur +:+ s).
Proof.
  revert cur. induction s as [|d s IH]; intros cur; cbn [split_char_go].
  - intros ->%list_elem_of_singleton. apply substr_app_l.
  - destruct (Ascii.eqb d c).
    + intros [->|Hx]%elem_of_cons; [apply substr_app_l|]. apply IH in Hx. rewrite sapp_nil_l in Hx.
      eapply substr_trans; [exact Hx|]. exists (cur +:+ String d ""), "". by rewrite sapp_nil_r sapp_assoc.
    + intros Hx%IH. by rewrite sapp_assoc in Hx.
Qed.

Lemma substr_split_char c s x : x ∈ split_char c s → substr x s.
Proof. intros Hx%split_char_go_substr. by rewrite sapp_nil_l in Hx. Qed.

(** Splitting at a separator, and undoing a join. *)
Lemma split_char_go_last c cur x : str_find c x = None → split_char_go c cur x = [cur +:+ x].
Proof.
  revert cur. induction x as [|d x IH]; intros cur; simpl; [by rewrite sapp_nil_r|].
  destruct (Ascii.eqb d c) eqn:Hd; [done|]. destruct (str_find c x) eqn:Hx; [done|]. intros _.
  rewrite IH //. by rewrite sapp_assoc.
Qed.

Lemma split_char_go_sep c cur x t :
  str_find c x = None → split_char_go c cur (x +:+ String c t) = (cur +:+ x) :: split_char_go c "" t.
Proof.
  revert cur. induction x as [|d x IH]; intros cur; simpl; [by rewrite Ascii.eqb_refl sapp_nil_r|].
  destruct (Ascii.eqb d c) eqn:Hd; [done|]. destruct (str_find c x) eqn:Hx; [done|]. intros _.
  rewrite IH //. by rewrite sapp_assoc.
Qed.

Lemma split_char_join c l :
  l ≠ [] → Forall (λ x, str_find c x = None) l → split_char_go c "" (join (String c "") l) = l.
Proof.
  intros Hl Hf. induction Hf as [|x l Hx Hf IH]; [done|]. destruct l as [|y l]; [by apply split_char_go_last|].
  change (join (String c "") (x :: y :: l)) with (x +:+ String c (join (String c "") (y :: l))).
  rewrite split_char_go_sep // IH //.
Qed.

Lemma is_digit_digit_char d : (d < 10)%N → is_digit (digit_char d) = true ∧ digit_val (digit_char d) = d.
Proof.
  intros Hd. unfold is_digit, digit_val, digit_char.
  rewrite nat_ascii_embedding; first lia.
  split; [|lia]. apply andb_true_iff. split; apply Nat.leb_le; lia.
Qed.

Lemma parse_digits_go fuel n t :
  (n < 2 ^ N.of_nat fuel)%N → parse_digits 0 (digits_go fuel n t) = parse_digits n t.
Proof.
  revert n t; induction fuel as [|fuel IH]; intros n t Hn; cbn [digits_go].
  - replace n with 0%N; [done|]. change (2 ^ N.of_nat 0)%N with 1%N in Hn. lia.
  - assert (n mod 10 < 10)%N as Hmod by (apply N.mod_upper_bound; lia).
    destruct (is_digit_digit_char _ Hmod) as [Hd Hv].
    pose proof (N.div_mod n 10) as Hdm.
    destruct (N.eqb_spec (n / 10) 0) as [H0|H0]; cbv zeta.
    + cbn [parse_digits]. rewrite Hd Hv. f_equal. lia.
    + rewrite IH.
      * rewrite Nat2N.inj_succ N.pow_succ_r' in Hn.
        apply (N.le_lt_trans _ (n / 2)); [|apply N.Div0.div_lt_upper_bound; lia].
        apply N.div_le_compat_l. lia.
      * cbn [parse_digits]. rewrite Hd Hv. f_equal. lia.
Qed.

Lemma size_nat_bound n : (n < 2 ^ N.of_nat (S (N.size_nat n)))%N.
Proof.
  destruct n as [|p]; [done|]. pose proof (N.size_gt (Npos p)) as H.
  rewrite Nat2N.inj_succ N.pow_succ_r'. cbn [N.size N.size_nat] in *.
  replace (N.of_nat (Pos.size_nat p)) with (Npos (Pos.size p)); [lia|].
  clear. induction p as [p IH|p IH|]; cbn [Pos.size_nat Pos.size]; lia.
Qed.

Lemma digits_go_head fuel n t : ∃ c u, digits_go (S fuel) n t = String c u ∧ is_digit c = true.
Proof.
  revert n t; induction fuel as [|fuel IH]; intros n t.
  - cbn [digits_go]. destruct (is_digit_digit_char (n mod 10)) as [Hd _];
      [apply N.mod_upper_bound; lia|]. destruct (n / 10 =? 0)%N; eauto.
  - cbn [digits_go]. destruct (is_digit_digit_char (n mod 10)) as [Hd _];
      [apply N.mod_upper_bound; lia|]. cbv zeta. destruct (n / 10 =? 0)%N; [eauto|]. apply IH.
Qed.

(** Reading back a printed natural number. *)
Lemma parse_nat_str_of_N n : parse_nat (str_of_N n) = Some n.
Proof.
  unfold str_of_N. destruct (digits_go_head (N.size_nat n) n "") as (c & u & E & _).
  unfold parse_nat. rewrite {1}E parse_digits_go //. apply size_nat_bound.
Qed.

(** [int(str(z)) == z]. *)
Lemma parse_int_str_of_Z z : parse_int (str_of_Z z) = Some z.
Proof.
  assert (∀ n, parse_int (str_of_N n) = Some (Z.of_N n)) as HN.
  { intros n. unfold parse_int. destruct (digits_go_head (N.size_nat n) n "") as (c & u & E & Hc).
    rewrite -/(str_of_N n) in E. rewrite E.
    assert (c ≠ "-"%char ∧ c ≠ "+"%char) as [H1 H2] by (by split; intros ->).
    assert (Z.of_N <$> parse_nat (String c u) = Some (Z.of_N n)) as HH.
    { rewrite -E parse_nat_str_of_N //. }
    destruct c as [[] [] [] [] [] [] [] []]; try done; congruence. }
  destruct z as [|p|p]; simpl; [done| |].
  - rewrite (HN (Npos p)). done.
  - rewrite parse_nat_str_of_N. done.
Qed.

(** *** Printed naturals as float literals *)

Fixpoint all_digits (s : str) : bool :=
  match s with "" => true | String c s' => is_digit c && all_digits s' end.

Lemma parse_digits_all acc s v : parse_digits acc s = Some v → all_digits s = true.
Proof.
  revert acc; induction s as [|c s IH]; intros acc; simpl; [done|].
  destruct (is_digit c); [apply IH|done].
Qed.

(** The digits of an integer text: what is left without the sign. *)
Lemma parse_int_digits s z :
  parse_int s = Some z → ∃ d, substr d s ∧ all_digits d = true ∧ String.length d = int_digits s.
Proof.
  assert (∀ t n, parse_nat t = Some n → all_digits t = true) as Hall.
  { unfold parse_nat. intros [|c t] n; [done|]. apply parse_digits_all. }
  assert (∀ c t, substr t (String c t)) as Htail by (intros c t; exists (String c ""), ""; by rewrite sapp_nil_r).
  intros H. destruct s as [|c s]; [done|].
  assert (parse_nat s ≠ None ∧ int_digits (String c s) = String.length s ∨
          parse_nat (String c s) ≠ None ∧ int_digits (String c s) = S (String.length s)) as [[Hp ->]|[Hp ->]].
  { unfold parse_int in H. destruct c as [[] [] [] [] [] [] [] []]; cbn [int_digits];
      try (right; split; [|reflexivity]; by destruct (parse_nat (String _ s)));
      left; (split; [|reflexivity]); by destruct (parse_nat s). }
  - exists s. destruct (parse_nat s) eqn:E; [|done]. eauto using substr_refl.
  - exists (String c s). destruct (parse_nat (String c s)) eqn:E; [|done]. split_and!; eauto using substr_refl.
Qed.

Lemma str_of_N_digits n : all_digits (str_of_N n) = true ∧ str_of_N n ≠ "".
Proof.
  pose proof (parse_nat_str_of_N n) as H. unfold parse_nat in H.
  destruct (str_of_N n) eqn:E; [done|]. split; [|done]. by eapply parse_digits_all.
Qed.

Lemma digit_range c : is_digit c = true → 48 ≤ nat_of_ascii c ≤ 57.
Proof. unfold is_digit. intros [H1%Nat.leb_le H2%Nat.leb_le]%andb_true_iff. lia. Qed.

Lemma digit_not_space c : is_digit c = true → is_space c = false.
Proof. by destruct c as [[] [] [] [] [] [] [] []]. Qed.

Lemma digit_plain c :
  is_digit c = true → lower_char c = c ∧ c ≠ "_"%char ∧ c ≠ "-"%char ∧ c ≠ "+"%char ∧
  c ≠ "i"%char ∧ c ≠ "n"%char.
Proof. by destruct c as [[] [] [] [] [] [] [] []]. Qed.

Lemma digits_rstrip s : all_digits s = true → rstrip s = s.
Proof.
  induction s as [|c s IH]; simpl; [done|]. intros [Hc Hs]%andb_true_iff. rewrite IH //.
  rewrite digit_not_space //. by destruct s.
Qed.

Lemma digits_strip s : all_digits s = true → strip s = s.
Proof.
  intros H. unfold strip. destruct s as [|c s]; [done|]. simpl in H.
  apply andb_true_iff in H as [Hc Hs]. cbn [lstrip]. rewrite digit_not_space //.
  apply digits_rstrip. simpl. by rewrite Hc Hs.
Qed.

Lemma digits_no_underscore prev s :
  all_digits s = true → prev ≠ "_"%char → drop_underscores prev s = Some s.
Proof.
  revert prev; induction s as [|c s IH]; intros prev; simpl.
  - intros _ Hp. by destruct (Ascii.eqb_spec prev "_").
  - intros [Hc Hs]%andb_true_iff Hp. destruct (digit_plain c Hc) as (_ & Hu & _).
    destruct (Ascii.eqb_spec c "_"); [done|]. destruct (Ascii.eqb_spec prev "_"); [done|]. simpl.
    by rewrite IH.
Qed.

Lemma take_digits_all s rest :
  all_digits s = true → (∀ c r, rest = String c r → is_digit c = false) →
  take_digits (s +:+ rest) = (s, rest).
Proof.
  intros Hs Hr. induction s as [|c s IH].
  - rewrite sapp_nil_l. destruct rest as [|c r]; [done|]. simpl. by rewrite (Hr c r).
  - simpl in Hs. apply andb_true_iff in Hs as [Hc Hs]. rewrite sapp_cons. cbn [take_digits].
    by rewrite Hc IH.
Qed.

Lemma py_float_str_of_N n : py_float (str_of_N n) = Some (mk_float (Z.of_N n) 0).
Proof.
  destruct (str_of_N_digits n) as [Hd Hne]. pose proof (parse_nat_str_of_N n) as Hp.
  unfold py_float. rewrite digits_strip // digits_no_underscore //. cbn [mbind option_bind].
  assert (parse_decimal (str_of_N n) = Some (Z.of_N n, 0%Z)) as Hdec.
  { unfold parse_decimal. rewrite -{1}(sapp_nil_r (str_of_N n)) take_digits_all //.
    unfold parse_nat in Hp. destruct (str_of_N n) as [|c s] eqn:E; [done|].
    cbn [is_empty andb parse_exponent]. rewrite sapp_nil_r. unfold N_of_digits. rewrite Hp. done. }
  destruct (str_of_N n) as [|c s] eqn:E; [done|]. simpl in Hd. apply andb_true_iff in Hd as [Hc _].
  destruct (digit_plain c Hc) as (Hl & _ & H1 & H2 & Hi & Hn).
  assert (str_in (lower (String c s)) ["inf"; "infinity"] = false ∧
          String.eqb (lower (String c s)) "nan" = false) as [Hin Hnan].
  { cbn [lower]. rewrite Hl. unfold str_in. cbn [existsb]. unfold String.eqb. fold String.eqb.
    destruct (Ascii.eqb_spec c "i"); [done|]. destruct (Ascii.eqb_spec c "n"); [done|]. done. }
  destruct c as [[] [] [] [] [] [] [] []]; try done; rewrite Hin Hnan Hdec; done.
Qed.
