(* ===== verification/PySort.v ===== *)
(** * Sorting

    [sorted] and [list.sort] as the proxy uses them: on strings, on the distinct
    strings of a collection, and by a key whose last component is the element
    itself.  All these orders are total, so the sorted arrangement is unique and
    merge sort computes it.  Sorting by a key that elements can share keeps the
    order of equals; [py_sorted] does so for any comparison. *)

From stdpp Require Import sorting.
From S2P Require Import Prelude PyStr.
From stdpp Require Import options.

(** [sorted(l)] *)
Definition sorted_strs (l : list str) : list str := merge_sort String.le l.

(** [sorted(set(l))] *)
Definition sorted_set (l : list str) : list str := sorted_strs (remove_dups l).

(** Sort keys [(int, int, str)], compared component by component. *)
Definition sort_key : Type := Z * Z * str.

Definition key_le (a b : sort_key) : Prop :=
  let '(a1, a2, a3) := a in
  let '(b1, b2, b3) := b in
  (a1 < b1)%Z ∨ a1 = b1 ∧ ((a2 < b2)%Z ∨ a2 = b2 ∧ String.le a3 b3).

#[export] Instance key_le_dec : RelDecision key_le.
Proof. intros [[??]?] [[??]?]. unfold key_le. solve_decision. Defined.

(** [sorted(l, key=key)] *)
Definition sorted_by {A} (key : A → sort_key) (l : list A) : list A :=
  merge_sort (λ a b, key_le (key a) (key b)) l.

#[export] Instance key_le_total : Total key_le.
Proof.
  intros [[a1 a2] a3] [[b1 b2] b3]. unfold key_le.
  destruct (total String.le a3 b3); destruct (Z.lt_trichotomy a1 b1) as [|[]];
    destruct (Z.lt_trichotomy a2 b2) as [|[]]; intuition lia.
Qed.

#[export] Instance key_le_trans : Transitive key_le.
Proof.
  intros [[a1 a2] a3] [[b1 b2] b3] [[c1 c2] c3]. unfold key_le.
  intros [|[-> [|[-> ?]]]] [|[-> [|[-> ?]]]]; try (left; lia); right; (split; [done|]);
    try (left; lia); right; split; [done|]. by trans b3.
Qed.

Lemma sorted_strs_perm l : sorted_strs l ≡ₚ l.
Proof. apply merge_sort_Permutation. Qed.

Lemma sorted_strs_sorted l : StronglySorted String.le (sorted_strs l).
Proof. apply StronglySorted_merge_sort; apply _. Qed.

Lemma elem_of_sorted_strs x l : x ∈ sorted_strs l ↔ x ∈ l.
Proof. by rewrite sorted_strs_perm. Qed.

Lemma sorted_strs_id l : StronglySorted String.le l → sorted_strs l = l.
Proof.
  intros Hl. apply (StronglySorted_unique String.le); [apply sorted_strs_sorted|done|apply sorted_strs_perm].
Qed.

Lemma elem_of_sorted_set x l : x ∈ sorted_set l ↔ x ∈ l.
Proof. unfold sorted_set. by rewrite elem_of_sorted_strs elem_of_remove_dups. Qed.

Lemma NoDup_sorted_strs l : NoDup l → NoDup (sorted_strs l).
Proof. by rewrite sorted_strs_perm. Qed.

Lemma NoDup_sorted_set l : NoDup (sorted_set l).
Proof. apply NoDup_sorted_strs, NoDup_remove_dups. Qed.

Lemma sorted_set_sorted l : StronglySorted String.le (sorted_set l).
Proof. apply sorted_strs_sorted. Qed.

#[export] Hint Resolve sorted_strs_sorted sorted_set_sorted NoDup_sorted_set : proxy.

(** The arrangement depends only on the elements. *)
Lemma sorted_strs_ext l l' : l ≡ₚ l' → sorted_strs l = sorted_strs l'.
Proof.
  intros Hp. apply (StronglySorted_unique String.le); [apply sorted_strs_sorted..|].
  by rewrite !sorted_strs_perm.
Qed.

#[export] Instance sorted_strs_proper : Proper ((≡ₚ) ==> (=)) sorted_strs.
Proof. intros l l'. apply sorted_strs_ext. Qed.

Lemma sorted_set_ext l l' : (∀ x, x ∈ l ↔ x ∈ l') → sorted_set l = sorted_set l'.
Proof.
  intros Heq. unfold sorted_set. apply sorted_strs_ext, NoDup_Permutation; [apply NoDup_remove_dups..|].
  intros x. by rewrite !elem_of_remove_dups.
Qed.

Lemma sorted_set_id l : NoDup l → StronglySorted String.le l → sorted_set l = l.
Proof.
  intros Hn Hl. transitivity (sorted_strs l); [|by apply sorted_strs_id].
  apply sorted_strs_ext, NoDup_Permutation; [apply NoDup_remove_dups|done|].
  intros x. apply elem_of_remove_dups.
Qed.

Lemma elem_of_concat {A} (x : A) ls : x ∈ concat ls ↔ ∃ l, x ∈ l ∧ l ∈ ls.
Proof.
  induction ls as [|l ls IH]; simpl; [set_solver|]. rewrite elem_of_app IH. setoid_rewrite elem_of_cons.
  naive_solver.
Qed.

(** A filtered sorted list is sorted. *)
Lemma StronglySorted_sublist {A} (R : relation A) l l' :
  sublist l l' → StronglySorted R l' → StronglySorted R l.
Proof.
  induction 1 as [|x l l' Hs IH|x l l' Hs IH]; intros Hl; [constructor|..];
    apply StronglySorted_cons in Hl as [Hx Hl]; [|by apply IH].
  constructor; [by apply IH|]. rewrite Forall_forall in Hx. apply Forall_forall. intros y Hy.
  apply Hx. by eapply elem_of_sublist.
Qed.

Section by_key.
Context {A : Type} (key : A → sort_key).

Lemma sorted_by_perm l : sorted_by key l ≡ₚ l.
Proof. apply merge_sort_Permutation. Qed.

(** The first element of a sort by key is the least. *)
Lemma sorted_by_head l x :
  head (sorted_by key l) = Some x → x ∈ l ∧ ∀ y, y ∈ l → key_le (key x) (key y).
Proof.
  intros Hh. assert (StronglySorted (λ a b, key_le (key a) (key b)) (sorted_by key l)) as Hs.
  { apply StronglySorted_merge_sort.
    - intros a b c. apply key_le_trans.
    - intros a b. apply key_le_total. }
  destruct (sorted_by key l) as [|z k] eqn:E; simplify_eq/=.
  apply StronglySorted_cons in Hs as [Hs _]. rewrite Forall_forall in Hs. split.
  - rewrite <-(sorted_by_perm l), E. by left.
  - intros y Hy. rewrite <-(sorted_by_perm l), E in Hy.
    apply elem_of_cons in Hy as [->|Hy]; [|by apply Hs].
    by destruct (key_le_total (key x) (key x)).
Qed.

Lemma sorted_by_nil l : head (sorted_by key l) = None → l = [].
Proof.
  intros Hh. apply Permutation_nil_r. rewrite <-(sorted_by_perm l).
  by destruct (sorted_by key l).
Qed.
End by_key.

(** ** Stable sorting *)

Section stable_sort.
Context {A : Type} (le : A → A → bool).

Fixpoint stable_insert (x : A) (l : list A) : list A :=
  match l with
  | [] => [x]
  | y :: l' => if le x y then x :: l else y :: stable_insert x l'
  end.

(** [sorted(l)] for a comparison of keys; with [reverse=True] the comparison is the
    converse one, as a reversed sort keeps the order of equals too. *)
Definition py_sorted (l : list A) : list A := foldr stable_insert [] l.

Lemma stable_insert_perm x l : stable_insert x l ≡ₚ x :: l.
Proof.
  induction l as [|y l IH]; simpl; [done|]. destruct (le x y); [done|]. rewrite IH. apply Permutation_swap.
Qed.

Lemma py_sorted_perm l : py_sorted l ≡ₚ l.
Proof. induction l as [|x l IH]; simpl; [done|]. by rewrite stable_insert_perm IH. Qed.

Lemma elem_of_py_sorted x l : x ∈ py_sorted l ↔ x ∈ l.
Proof. by rewrite py_sorted_perm. Qed.

Lemma length_py_sorted l : length (py_sorted l) = length l.
Proof. by rewrite py_sorted_perm. Qed.

(** Elements that compare as equal keep their order. *)
Lemma py_sorted_stable (P : A → Prop) `{∀ x, Decision (P x)} l :
  (∀ x y, P x → P y → le x y = true) → filter P (py_sorted l) = filter P l.
Proof.
  intros HP.
  assert (∀ x l', filter P (stable_insert x l') = filter P (x :: l')) as Hi.
  { intros x l'. induction l' as [|y l' IH]; simpl; [done|]. destruct (le x y) eqn:Hle; [done|].
    rewrite filter_cons IH !filter_cons. repeat case_decide; try done. exfalso. by rewrite HP in Hle. }
  induction l as [|x l IH]; simpl; [done|]. by rewrite Hi !filter_cons IH.
Qed.

Hypothesis le_trans : ∀ x y z, le x y = true → le y z = true → le x z = true.
Hypothesis le_total : ∀ x y, le x y = false → le y x = true.

Lemma stable_insert_sorted x l :
  StronglySorted (λ a b, le a b = true) l → StronglySorted (λ a b, le a b = true) (stable_insert x l).
Proof using le_trans le_total.
  induction 1 as [|y l Hl IH Hy]; simpl; [by repeat constructor|]. destruct (le x y) eqn:Hle.
  - constructor; [by constructor|]. constructor; [done|]. eapply Forall_impl; [done|]. intros z Hz. by eapply le_trans.
  - constructor; [done|]. rewrite stable_insert_perm. constructor; [by apply le_total|done].
Qed.

Lemma py_sorted_sorted l : StronglySorted (λ a b, le a b = true) (py_sorted l).
Proof using le_trans le_total.
  induction l as [|x l IH]; simpl; [constructor|by apply stable_insert_sorted].
Qed.

(** The first of the sorted elements: the first of the least ones. *)
Definition first_of_least (x : A) (l : list A) : Prop :=
  ∃ pre post, l = pre ++ x :: post ∧ (∀ y, y ∈ pre → le y x = false) ∧ (∀ y, y ∈ post → le x y = true).

Lemma py_sorted_head x l : head (py_sorted l) = Some x → first_of_least x l.
Proof using le_trans le_total.
  revert x. induction l as [|a l IH]; intros x; simpl; [done|].
  pose proof (py_sorted_sorted l) as Hs. destruct (py_sorted l) as [|y ys] eqn:Hl; simpl.
  { intros [= <-]. exists [], l. split; [done|]. split; [by intros ? ?%elem_of_nil|]. intros y Hy.
    apply elem_of_py_sorted in Hy. rewrite Hl in Hy. by apply elem_of_nil in Hy. }
  destruct (le a y) eqn:Hle; intros [= <-].
  - exists [], l. split; [done|]. split; [by intros ? ?%elem_of_nil|]. intros z Hz.
    apply elem_of_py_sorted in Hz. rewrite Hl in Hz. apply elem_of_cons in Hz as [->|Hz]; [done|].
    apply StronglySorted_cons in Hs as [Hs _]. eapply le_trans; [exact Hle|]. by eapply Forall_forall in Hs.
  - destruct (IH y eq_refl) as (pre & post & -> & H1 & H2). exists (a :: pre), post. split; [done|].
    split; [|done]. intros z [->|Hz]%elem_of_cons; [done|by apply H1].
Qed.

Lemma first_of_least_unique x y l : first_of_least x l → first_of_least y l → x = y.
Proof.
  clear le_trans le_total. intros (p1 & q1 & E1 & H1 & H2) (p2 & q2 & E2 & H3 & H4). rewrite E1 in E2. clear E1.
  apply app_eq_inv in E2 as [(k & -> & E)|(k & -> & E)]; destruct k as [|z k]; simplify_eq/=; try done.
  - exfalso. assert (le z x = false) as Hf by (apply H1; set_solver). assert (le z x = true) by (apply H4; set_solver). congruence.
  - exfalso. assert (le z y = false) as Hf by (apply H3; set_solver). assert (le z y = true) by (apply H2; set_solver). congruence.
Qed.

Lemma py_sorted_head_iff x l : head (py_sorted l) = Some x ↔ first_of_least x l.
Proof using le_trans le_total.
  split; [apply py_sorted_head|]. intros Hx. destruct (head (py_sorted l)) as [y|] eqn:Hy.
  - f_equal. eapply first_of_least_unique; [by apply py_sorted_head|done].
  - destruct Hx as (pre & post & -> & _). destruct (py_sorted _) eqn:E; [|done].
    pose proof (length_py_sorted (pre ++ x :: post)) as Hl. rewrite E length_app /= in Hl. lia.
Qed.

(** Selecting and sorting commute. *)
Lemma py_sorted_filter (P : A → Prop) `{∀ x, Decision (P x)} l :
  filter P (py_sorted l) = py_sorted (filter P l).
Proof using le_trans le_total.
  assert (∀ x l', StronglySorted (λ a b, le a b = true) l' →
    filter P (stable_insert x l') = if decide (P x) then stable_insert x (filter P l') else filter P l') as Hi.
  { intros x l'. induction 1 as [|y l' Hl IH Hy]; simpl; [by rewrite filter_cons|].
    destruct (le x y) eqn:Hle; rewrite !filter_cons; [|rewrite IH; repeat case_decide; simpl; by rewrite ?Hle].
    repeat case_decide; try done; simpl; [by rewrite Hle|].
    destruct (filter P l') as [|z k] eqn:Hz; [done|]. simpl.
    assert (z ∈ l') as Hin.
    { assert (z ∈ filter P l') as Hzl by (rewrite Hz; by left). by apply list_elem_of_filter in Hzl as [_ ?]. }
    rewrite (le_trans x y z) //. by eapply Forall_forall in Hy. }
  induction l as [|x l IH]; simpl; [done|]. rewrite Hi; [apply py_sorted_sorted|]. rewrite filter_cons IH.
  by case_decide.
Qed.
End stable_sort.

(** ** [ORDER BY] *)

(** What [ORDER BY] promises. *)
Class OrderBy (order_by : ∀ A : Type, (A → A → bool) → list A → list A) : Prop := {
  order_by_perm : ∀ A le (l : list A), order_by A le l ≡ₚ l;
  order_by_sorted : ∀ A le (l : list A),
    (∀ x y z, le x y = true → le y z = true → le x z = true) → (∀ x y, le x y = false → le y x = true) →
    StronglySorted (λ x y, le x y = true) (order_by A le l)
}.

#[export] Instance stable_order_by : OrderBy (@py_sorted).
Proof. split; intros; [apply py_sorted_perm|by apply py_sorted_sorted]. Qed.
