(* ===== verification/PyDict.v ===== *)
(** * Python dictionaries and JSON values

    [dict] and [OrderedDict] keep insertion order: a dictionary is an
    association list from the oldest entry to the newest, without duplicate
    keys ([od_ok]).  Assignment to a present key keeps its position, assignment
    to a new key appends, [move_to_end] and [popitem(last=False)] are those of
    [collections.OrderedDict].  JSON values are what request extensions hold. *)

From S2P Require Import Prelude PyStr.
From stdpp Require Import options.

Section od.
Context {K A : Type} `{!EqDecision K}.
Implicit Types (k : K) (v : A) (d : list (K * A)).

(** [d.get(k)] *)
Fixpoint od_get k d : option A :=
  match d with
  | [] => None
  | (k', v) :: d' => if decide (k = k') then Some v else od_get k d'
  end.

(** [d[k] = v] *)
Fixpoint od_set k v d : list (K * A) :=
  match d with
  | [] => [(k, v)]
  | (k', v') :: d' => if decide (k = k') then (k', v) :: d' else (k', v') :: od_set k v d'
  end.

(** [d.pop(k, None)] *)
Fixpoint od_pop k d : list (K * A) :=
  match d with
  | [] => []
  | (k', v') :: d' => if decide (k = k') then d' else (k', v') :: od_pop k d'
  end.

(** [k in d] *)
Definition od_mem k d : bool := match od_get k d with Some _ => true | None => false end.

(** [d.move_to_end(k)]; [None] is its [KeyError]. *)
Definition od_move_to_end k d : option (list (K * A)) :=
  v ← od_get k d; Some (od_pop k d ++ [(k, v)]).

(** In-place mutation of the object stored under [k]: the object is reached
    through the dictionary, so nothing changes when [k] is gone. *)
Definition od_modify (f : A → A) k d : list (K * A) :=
  match od_get k d with Some v => od_set k (f v) d | None => d end.

(** No duplicate keys: what every operation keeps. *)
Definition od_ok d : Prop := NoDup d.*1.

Lemma od_get_set_eq k v d : od_get k (od_set k v d) = Some v.
Proof. induction d as [|[k' v'] d IH]; simpl; repeat (case_decide; simpl); done. Qed.

Lemma od_get_set_ne k k' v d : k ≠ k' → od_get k (od_set k' v d) = od_get k d.
Proof.
  intros Hne. induction d as [|[k0 v0] d IH]; simpl;
    repeat (case_decide; simpl); simplify_eq; done.
Qed.

Lemma od_get_None k d : od_get k d = None ↔ k ∉ d.*1.
Proof.
  induction d as [|[k' v'] d IH]; csimpl; [set_solver|].
  case_decide; set_solver.
Qed.

Lemma od_get_Some_elem k v d : od_get k d = Some v → (k, v) ∈ d.
Proof.
  induction d as [|[k' v'] d IH]; simpl; [done|].
  case_decide; intros; simplify_eq; [by left | right; auto].
Qed.

Lemma od_elem_get k v d : od_ok d → (k, v) ∈ d → od_get k d = Some v.
Proof.
  unfold od_ok. induction d as [|[k' v'] d IH]; csimpl; [set_solver|].
  intros [Hn Hd]%NoDup_cons [?|?]%elem_of_cons; simplify_eq.
  - by rewrite decide_True.
  - case_decide; [|auto]. subst. exfalso. apply Hn.
    apply list_elem_of_fmap. by exists (k', v).
Qed.

Lemma od_set_length_new k v d : od_get k d = None → length (od_set k v d) = S (length d).
Proof.
  induction d as [|[k' v'] d IH]; simpl; [done|].
  case_decide; [done|]. intros; simpl. auto.
Qed.

Lemma od_set_new k v d : od_get k d = None → od_set k v d = d ++ [(k, v)].
Proof.
  induction d as [|[k' v'] d IH]; simpl; [done|].
  case_decide; [done|]. intros. f_equal. auto.
Qed.

Lemma od_set_keys k v d : is_Some (od_get k d) → (od_set k v d).*1 = d.*1.
Proof.
  induction d as [|[k' v'] d IH]; csimpl; [by intros []|].
  case_decide; csimpl; [done|]. intros. f_equal. auto.
Qed.

Lemma od_set_ok k v d : od_ok d → od_ok (od_set k v d).
Proof.
  unfold od_ok. intros Hd. destruct (od_get k d) eqn:Hk.
  - rewrite od_set_keys; eauto.
  - rewrite od_set_new // fmap_app. apply NoDup_app. csimpl.
    apply od_get_None in Hk. split; [done|]. split; [set_solver|].
    apply NoDup_singleton.
Qed.

Lemma od_pop_sublist k d : sublist (od_pop k d) d.
Proof.
  induction d as [|[k' v'] d IH]; simpl; [done|].
  case_decide; constructor; done.
Qed.

Lemma od_pop_ok k d : od_ok d → od_ok (od_pop k d).
Proof.
  unfold od_ok. intros Hd.
  eapply sublist_NoDup; [done|]. apply fmap_sublist, od_pop_sublist.
Qed.

Lemma od_get_pop_eq k d : od_ok d → od_get k (od_pop k d) = None.
Proof.
  unfold od_ok. induction d as [|[k' v'] d IH]; csimpl; [done|].
  intros [Hn Hd]%NoDup_cons. case_decide; simpl.
  - subst. by apply od_get_None.
  - rewrite decide_False; auto.
Qed.

Lemma od_get_pop_ne k k' d : k ≠ k' → od_get k (od_pop k' d) = od_get k d.
Proof.
  intros Hne. induction d as [|[k0 v0] d IH]; simpl; [done|].
  repeat (case_decide; simpl); simplify_eq; done.
Qed.

Lemma od_pop_None k d : od_get k d = None → od_pop k d = d.
Proof.
  induction d as [|[k' v'] d IH]; simpl; [done|].
  case_decide; [done|]. intros. f_equal. auto.
Qed.

Lemma od_pop_length k v d : od_get k d = Some v → S (length (od_pop k d)) = length d.
Proof.
  induction d as [|[k' v'] d IH]; simpl; [done|].
  case_decide; [done|]. intros. simpl. f_equal. auto.
Qed.

Lemma od_get_app k d1 d2 :
  od_get k (d1 ++ d2) = match od_get k d1 with Some v => Some v | None => od_get k d2 end.
Proof. induction d1 as [|[k' v'] d IH]; simpl; [done|]. by case_decide. Qed.

Lemma od_move_to_end_ok k d d' : od_ok d → od_move_to_end k d = Some d' → od_ok d'.
Proof.
  unfold od_move_to_end. intros Hd (v & Hv & [= <-])%bind_Some.
  unfold od_ok. rewrite fmap_app. csimpl. apply NoDup_app.
  split; [by apply od_pop_ok|]. split; [|apply NoDup_singleton].
  intros x Hx ->%list_elem_of_singleton.
  pose proof (od_get_pop_eq k d Hd) as Hn. by apply od_get_None in Hn.
Qed.

Lemma od_move_to_end_get k k' d d' :
  od_ok d → od_move_to_end k d = Some d' → od_get k' d' = od_get k' d.
Proof.
  unfold od_move_to_end. intros Hd (v & Hv & [= <-])%bind_Some.
  rewrite od_get_app. destruct (decide (k' = k)) as [->|Hne].
  - rewrite od_get_pop_eq // /= decide_True //.
  - rewrite od_get_pop_ne //. destruct (od_get k' d); [done|]. by rewrite /= decide_False.
Qed.

Lemma od_move_to_end_length k d d' : od_move_to_end k d = Some d' → length d' = length d.
Proof.
  unfold od_move_to_end. intros (v & Hv & [= <-])%bind_Some.
  rewrite length_app /=. apply od_pop_length in Hv. lia.
Qed.

Lemma od_move_to_end_Some k d : is_Some (od_get k d) → is_Some (od_move_to_end k d).
Proof. intros [v Hv]. unfold od_move_to_end. rewrite Hv. by eexists. Qed.

Lemma od_pop_perm k v d : od_get k d = Some v → d ≡ₚ (k, v) :: od_pop k d.
Proof.
  induction d as [|[k' v'] d IH]; simpl; [done|].
  case_decide; intros; simplify_eq; [done|]. rewrite {1}IH //. constructor.
Qed.

Lemma od_move_to_end_perm k d d' : od_move_to_end k d = Some d' → d ≡ₚ d'.
Proof.
  unfold od_move_to_end. intros (v & Hv & [= <-])%bind_Some.
  rewrite -Permutation_cons_append. by apply od_pop_perm.
Qed.

Lemma od_set_Forall (P : K * A → Prop) k v d :
  Forall P d → P (k, v) → Forall P (od_set k v d).
Proof.
  intros Hd Hk. induction Hd as [|[k' v'] d H Hd IH]; simpl; [by constructor|].
  case_decide; subst; by constructor.
Qed.

Lemma od_modify_get_eq f k d : od_get k (od_modify f k d) = f <$> od_get k d.
Proof.
  unfold od_modify. destruct (od_get k d) eqn:H; [|done]. by rewrite od_get_set_eq.
Qed.

Lemma od_modify_get_ne f k k' d : k ≠ k' → od_get k (od_modify f k' d) = od_get k d.
Proof. intros. unfold od_modify. destruct (od_get k' d); [|done]. by apply od_get_set_ne. Qed.

Lemma od_modify_keys f k d : (od_modify f k d).*1 = d.*1.
Proof. unfold od_modify. destruct (od_get k d) eqn:H; [|done]. rewrite od_set_keys; eauto. Qed.

Lemma od_modify_ok f k d : od_ok d → od_ok (od_modify f k d).
Proof. unfold od_ok. by rewrite od_modify_keys. Qed.

Lemma od_modify_length f k d : length (od_modify f k d) = length d.
Proof. rewrite -(length_fmap fst (od_modify f k d)) od_modify_keys. apply length_fmap. Qed.
(** [for key in keys: d.pop(key, None)] *)
Definition od_del (ks : list K) d : list (K * A) := foldl (λ c k, od_pop k c) d ks.

Lemma od_del_ok ks d : od_ok d → od_ok (od_del ks d).
Proof. unfold od_del. revert d. induction ks as [|k ks IH]; intros d Hd; simpl; [done|]. by apply IH, od_pop_ok. Qed.

Lemma od_del_sublist ks d : sublist (od_del ks d) d.
Proof.
  unfold od_del. revert d. induction ks as [|k ks IH]; intros d; simpl; [done|].
  etrans; [apply IH|apply od_pop_sublist].
Qed.

Lemma od_del_get k ks d : od_ok d → od_get k (od_del ks d) = if decide (k ∈ ks) then None else od_get k d.
Proof.
  unfold od_del. revert d. induction ks as [|k' ks IH]; intros d Hd; cbn [foldl].
  { case_decide; [set_solver|done]. }
  rewrite IH; [by apply od_pop_ok|]. destruct (decide (k = k')) as [->|Hne].
  - rewrite od_get_pop_eq //. repeat case_decide; done || set_solver.
  - rewrite od_get_pop_ne //. repeat case_decide; done || set_solver.
Qed.

(** Removing present, distinct keys removes as many entries. *)
Lemma od_del_length ks d :
  od_ok d → NoDup ks → (∀ k, k ∈ ks → k ∈ d.*1) → length (od_del ks d) = length d - length ks.
Proof.
  unfold od_del. revert d. induction ks as [|k ks IH]; intros d Hd Hnd Hin; simpl; [lia|].
  apply NoDup_cons in Hnd as [Hk Hnd].
  destruct (od_get k d) as [v|] eqn:Hg.
  - apply od_pop_length in Hg as Hl. rewrite IH; [by apply od_pop_ok|done| |lia].
    intros k' Hk'. destruct (od_get k' (od_pop k d)) eqn:Hg'.
    + apply od_get_Some_elem in Hg'. apply list_elem_of_fmap. by exists (k', a).
    + rewrite od_get_pop_ne in Hg'; [by intros ->|]. apply od_get_None in Hg'.
      destruct Hg'. apply Hin. by right.
  - apply od_get_None in Hg. destruct Hg. apply Hin. by left.
Qed.

Lemma od_tail_ok d : od_ok d → od_ok (tail d).
Proof. unfold od_ok. destruct d; simpl; [done|]. by intros [_ H]%NoDup_cons. Qed.

Lemma od_get_tail k v d : od_ok d → od_get k (tail d) = Some v → od_get k d = Some v.
Proof.
  intros Hd Hk%od_get_Some_elem. apply od_elem_get; [done|].
  destruct d; simpl in *; [done|]. apply elem_of_cons. by right.
Qed.

End od.

#[export] Hint Resolve od_set_ok od_pop_ok od_move_to_end_ok od_modify_ok : proxy.
#[export] Hint Rewrite @od_get_set_eq @od_modify_get_eq @od_modify_length @od_modify_keys : proxy.

(** ** JSON values *)

Inductive json : Type :=
| JNull
| JBool (b : bool)
| JInt (z : Z)
| JFloat (x : pyfloat)
| JStr (s : str)
| JList (l : list json)
| JDict (d : list (str * json)).

(** [isinstance(v, int)]: a [bool] is an [int]. *)
Definition as_int (v : option json) : option Z :=
  match v with
  | Some (JInt z) => Some z
  | Some (JBool b) => Some (if b then 1 else 0)%Z
  | _ => None
  end.

Definition as_str (v : option json) : option str :=
  match v with Some (JStr s) => Some s | _ => None end.

(** A list all of whose items are strings. *)
Definition as_str_list (v : option json) : option (list str) :=
  match v with
  | Some (JList l) => mapM (λ j, match j with JStr s => Some s | _ => None end) l
  | _ => None
  end.

(** [bool(v)], [None] being a missing key. *)
Definition truthy (v : option json) : bool :=
  match v with
  | None | Some JNull => false
  | Some (JBool b) => b
  | Some (JInt z) => negb (z =? 0)%Z
  | Some (JFloat x) => float_nonzero x
  | Some (JStr s) => negb (is_empty s)
  | Some (JList l) => match l with [] => false | _ => true end
  | Some (JDict d) => match d with [] => false | _ => true end
  end.

Lemma as_str_list_strs (l : list str) : as_str_list (Some (JList (JStr <$> l))) = Some l.
Proof. simpl. induction l as [|s l IH]; csimpl; [done|]. by rewrite IH. Qed.

#[export] Hint Rewrite as_str_list_strs : proxy.
