(* ===== verification/Exceptions.v ===== *)
(** * The exception hierarchy

    Models [src/core/common/exceptions.py]: the classes, who inherits from whom,
    and the status code each constructor gives.  An exception value is its
    class with the attributes the modelled code reads. *)

From S2P Require Import Prelude PyStr PyDict.
From stdpp Require Import options.

Inductive exn_class : Type :=
| LLMProxyError
| AuthenticationError
| BackendError
| ServiceUnavailableError
| ConfigurationError
| RateLimitExceededError
| ValidationError
| CompositeValidationError        (* domain/composite_routing.py *)
| InvalidRequestError
| ServiceResolutionError
| LoopDetectionError
| TranslationError
| ParsingError
| QualityVerifierError
| LoopBreakingError
| InitializationError
| ToolCallReactorError
| ToolCallLoopError
| ToolCallParsingError
| JSONParsingError
| CommandCreationError
| APIConnectionError
| APITimeoutError
| RoutingError
| SessionCancelledError
| DuplicateRequestError
| NonForwardableEnforcementError
| NoForwardableContentError
| NonForwardableTagLimitExceededError
| ResponsesProtocolError
| ResponsesValidationError
| ResponsesPreviousResponseNotFoundError
| ResponsesProviderLimitationError
| CancelledError                  (* asyncio *)
| PyException (name : str).       (* any other exception *)

#[export] Instance exn_class_eq_dec : EqDecision exn_class.
Proof. solve_decision. Defined.

(** The base class, as far as this hierarchy goes. *)
Definition base_class (c : exn_class) : option exn_class :=
  match c with
  | LLMProxyError | CancelledError | PyException _ => None
  | ServiceUnavailableError | RateLimitExceededError | APIConnectionError | APITimeoutError
  | DuplicateRequestError => Some BackendError
  | CompositeValidationError => Some ValidationError
  | JSONParsingError => Some ParsingError
  | ResponsesValidationError | ResponsesPreviousResponseNotFoundError
  | ResponsesProviderLimitationError => Some ResponsesProtocolError
  | _ => Some LLMProxyError
  end.

(** The class and its bases, at most three deep. *)
Fixpoint mro (depth : nat) (c : exn_class) : list exn_class :=
  match depth with
  | 0 => [c]
  | S depth' => c :: match base_class c with Some b => mro depth' b | None => [] end
  end.

Definition isinstance (c : exn_class) (classes : list exn_class) : bool :=
  existsb (λ b, bool_decide (b ∈ classes)) (mro 2 c).

(** [type(e).__name__] *)
Definition class_name (c : exn_class) : str :=
  match c with
  | LLMProxyError => "LLMProxyError" | AuthenticationError => "AuthenticationError"
  | BackendError => "BackendError" | ServiceUnavailableError => "ServiceUnavailableError"
  | ConfigurationError => "ConfigurationError" | RateLimitExceededError => "RateLimitExceededError"
  | ValidationError => "ValidationError"
  | CompositeValidationError => "CompositeSelectorValidationError"
  | InvalidRequestError => "InvalidRequestError"
  | ServiceResolutionError => "ServiceResolutionError" | LoopDetectionError => "LoopDetectionError"
  | TranslationError => "TranslationError" | ParsingError => "ParsingError"
  | QualityVerifierError => "QualityVerifierError" | LoopBreakingError => "LoopBreakingError"
  | InitializationError => "InitializationError" | ToolCallReactorError => "ToolCallReactorError"
  | ToolCallLoopError => "ToolCallLoopError" | ToolCallParsingError => "ToolCallParsingError"
  | JSONParsingError => "JSONParsingError" | CommandCreationError => "CommandCreationError"
  | APIConnectionError => "APIConnectionError" | APITimeoutError => "APITimeoutError"
  | RoutingError => "RoutingError" | SessionCancelledError => "SessionCancelledError"
  | DuplicateRequestError => "DuplicateRequestError"
  | NonForwardableEnforcementError => "NonForwardableEnforcementError"
  | NoForwardableContentError => "NoForwardableContentError"
  | NonForwardableTagLimitExceededError => "NonForwardableTagLimitExceededError"
  | ResponsesProtocolError => "ResponsesProtocolError"
  | ResponsesValidationError => "ResponsesValidationError"
  | ResponsesPreviousResponseNotFoundError => "ResponsesPreviousResponseNotFoundError"
  | ResponsesProviderLimitationError => "ResponsesProviderLimitationError"
  | CancelledError => "CancelledError"
  | PyException name => name
  end.

(** The attributes of an exception the modelled code reads; an exception from
    outside the hierarchy has status 0 and no details. *)
Record exn : Type := MkExn {
  ex_class : exn_class;
  ex_message : str;
  ex_details : list (str * json);
  ex_status_code : Z;
  ex_code : option str;
  ex_reset_at : option pyfloat
}.

Definition ex_type (e : exn) : str := class_name (ex_class e).

(** [LLMProxyError.__init__]: [status_code or 500]. *)
Definition mk_LLMProxyError (c : exn_class) (message : str) (details : list (str * json))
    (status_code : option Z) : exn :=
  MkExn c message details
    match status_code with Some s => if (s =? 0)%Z then 500%Z else s | None => 500%Z end None None.

(** [BackendError.__init__] and its subclasses; [status_code] is the keyword
    argument, 502 when it is not given. *)
Definition mk_BackendError (c : exn_class) (message : str) (details : list (str * json))
    (code : option str) (status_code : option Z) (reset_at : option pyfloat) : exn :=
  let status := match c with
                | ServiceUnavailableError => Some 503%Z
                | RateLimitExceededError | DuplicateRequestError => Some 429%Z
                | _ => Some (default 502%Z status_code)
                end in
  let e := mk_LLMProxyError c message details status in
  MkExn c message details (ex_status_code e) code reset_at.

(** [RoutingError.__init__]: the status follows the [code] of the details. *)
Definition routing_status (details : list (str * json)) (status_code : option Z) : Z :=
  match status_code with
  | Some s => s
  | None =>
      match as_str (od_get "code" details) with
      | Some code =>
          if String.eqb code "unknown_model" then 404
          else if String.eqb code "unsupported_on_instance" then 400
          else if String.eqb code "temporarily_unavailable" then 503
          else if String.eqb code "policy_rejected" then 403
          else 503
      | None => 503
      end
  end%Z.

Definition mk_RoutingError (message : str) (details : list (str * json)) : exn :=
  mk_LLMProxyError RoutingError message details (Some (routing_status details None)).

Definition mk_ConfigurationError (message : str) (details : list (str * json)) : exn :=
  mk_LLMProxyError ConfigurationError message details (Some 400%Z).

Definition mk_ValidationError (message : str) (details : list (str * json)) : exn :=
  mk_LLMProxyError ValidationError message details (Some 400%Z).

Definition mk_AuthenticationError (message : str) (details : list (str * json)) : exn :=
  mk_LLMProxyError AuthenticationError message details (Some 401%Z).

(** An exception of the language or of a library. *)
Definition py_exception (name message : str) : exn := MkExn (PyException name) message [] 0 None None.

(** ** The hierarchy is that deep *)

(** Inheritance, as the class statements declare it. *)
Inductive subclass : exn_class → exn_class → Prop :=
| subclass_refl c : subclass c c
| subclass_step c b d : base_class c = Some b → subclass b d → subclass c d.

Lemma mro_deep_enough c d : d ∈ mro 2 c ↔ subclass c d.
Proof.
  assert (∀ n b x, x ∈ mro n b → subclass b x) as Hsound.
  { induction n as [|n IH]; intros b x; simpl.
    - intros ->%list_elem_of_singleton. constructor.
    - intros [->|H]%elem_of_cons; [constructor|].
      destruct (base_class b) as [b'|] eqn:E; [|by apply not_elem_of_nil in H].
      econstructor; [done|by apply IH]. }
  split; [apply Hsound|]. intros H. induction H as [c|c b d Hb _ IH]; [constructor|].
  destruct c; simplify_eq/=; set_solver.
Qed.

(** [isinstance] in the model is inheritance: an exception is caught by a
    tuple of classes exactly when its class descends from one of them. *)
Theorem isinstance_iff_subclass c classes :
  isinstance c classes = true ↔ ∃ d, d ∈ classes ∧ subclass c d.
Proof.
  unfold isinstance. rewrite existsb_exists. split.
  - intros (d & Hd%list_elem_of_In%mro_deep_enough & Hin%bool_decide_eq_true). eauto.
  - intros (d & Hin & Hs%mro_deep_enough). exists d. rewrite bool_decide_eq_true.
    by rewrite -list_elem_of_In.
Qed.
