(* ===== verification/CompositeDomain.v ===== *)
(** * Domain contracts of composite selector routing

    Models [src/core/domain/composite_routing.py]: the error taxonomy and its
    operator-safe envelope, the parsed leaf, group and plan objects with the
    validators that guard their construction, the routing input, and the
    request-scoped attempt context (hop budget and bounded branch history). *)

From S2P Require Import Prelude PyStr PyDict.
From stdpp Require Import options.

(** ** Enumerations *)

Inductive RoutingSurface : Type := MAIN | AUXILIARY | QUALITY_VERIFIER | REPLACEMENT_BRIDGE.

Definition surface_value (s : RoutingSurface) : str :=
  match s with
  | MAIN => "main"
  | AUXILIARY => "auxiliary"
  | QUALITY_VERIFIER => "quality_verifier"
  | REPLACEMENT_BRIDGE => "replacement_bridge"
  end.

Inductive CompositeValidationErrorCode : Type :=
| SYNTAX_ERROR | UNSUPPORTED_CONSTRUCT | INVALID_WEIGHT | INVALID_MAX_CONTEXT
| INVALID_HANDICAP | INVALID_TTFT_TIMEOUT | INVALID_LEAF.

Definition validation_code_value (c : CompositeValidationErrorCode) : str :=
  match c with
  | SYNTAX_ERROR => "syntax_error"
  | UNSUPPORTED_CONSTRUCT => "unsupported_construct"
  | INVALID_WEIGHT => "invalid_weight"
  | INVALID_MAX_CONTEXT => "invalid_max_context"
  | INVALID_HANDICAP => "invalid_handicap"
  | INVALID_TTFT_TIMEOUT => "invalid_ttft_timeout"
  | INVALID_LEAF => "invalid_leaf"
  end.

Inductive CompositeBranchOutcomeCategory : Type :=
| VALIDATION_REJECTED | INELIGIBLE | RUNTIME_FAILED | NOT_SELECTED | SELECTED | EXHAUSTED.

Definition outcome_value (c : CompositeBranchOutcomeCategory) : str :=
  match c with
  | VALIDATION_REJECTED => "validation_rejected"
  | INELIGIBLE => "ineligible"
  | RUNTIME_FAILED => "runtime_failed"
  | NOT_SELECTED => "not_selected"
  | SELECTED => "selected"
  | EXHAUSTED => "exhausted"
  end.

(** ** Operator-safe text *)

Definition _DEFAULT_BRANCH_HISTORY_LIMIT : Z := 32.
Definition _MAX_OPERATOR_MESSAGE_CHARS : nat := 256.
Definition _MAX_SELECTOR_ECHO_CHARS : nat := 512.
Definition _TRUNCATION_MARKER : str := "...(truncated)".

Definition _truncate_for_operator_visibility (value : str) (limit : nat) : str :=
  if String.length value <=? limit then value
  else let marker_budget := limit - String.length _TRUNCATION_MARKER in
       str_take marker_budget value +:+ _TRUNCATION_MARKER.

(** [" ".join(value.split())] *)
Definition compact (value : str) : str := join " " (split_ws value).

Record CompositeValidationErrorEnvelope : Type := MkEnvelope {
  env_code : CompositeValidationErrorCode;
  env_message : str;
  env_selector_echo : str
}.

(** Construction runs the two bounding validators; [details] keeps its empty
    default everywhere in the parser. *)
Definition mk_envelope (code : CompositeValidationErrorCode) (message selector_echo : str) :
    CompositeValidationErrorEnvelope :=
  MkEnvelope code
    (_truncate_for_operator_visibility (compact message) _MAX_OPERATOR_MESSAGE_CHARS)
    (_truncate_for_operator_visibility (compact selector_echo) _MAX_SELECTOR_ECHO_CHARS).

(** What the parser can raise: its typed error, a pydantic construction error,
    the two exceptions of [int(float)], and running out of the loop bound (which
    never happens, see [SelectorParser]). *)
Inductive composite_exn : Type :=
| CompositeSelectorValidationError (env : CompositeValidationErrorEnvelope)
| PydanticValidationError (msg : str)
| PyValueError (msg : str)
| PyOverflowError
| OutOfFuel.

(** ** Leaves, groups and plans *)

Record CompositeLeafSelector : Type := MkLeaf {
  leaf_raw_selector : str;
  leaf_normalized_selector : str;
  leaf_weight_annotation : option Z;
  leaf_first_annotation : bool;
  leaf_thinker_annotation : bool;
  leaf_max_context_tokens : option Z;
  leaf_handicap_seconds : pyfloat;
  leaf_ttft_timeout_seconds : pyfloat;
  leaf_uri_params : list (str * json);
  leaf_backend_type : str;
  leaf_model_name : str;
  leaf_embedded_selector : option str
}.

Definition require_text (what value : str) : res composite_exn str :=
  let stripped := strip value in
  if is_empty stripped then Err (PydanticValidationError (what +:+ " cannot be empty"))
  else Ok stripped.

Definition require_positive (what : str) (value : option Z) : res composite_exn (option Z) :=
  match value with
  | None => Ok None
  | Some v => if (v <=? 0)%Z then Err (PydanticValidationError (what +:+ " must be positive"))
              else Ok (Some v)
  end.

Definition require_non_negative (value : pyfloat) : res composite_exn pyfloat :=
  if float_neg value
  then Err (PydanticValidationError "parallel timing values must be non-negative")
  else Ok value.

(** The constructor with its field validators. *)
Definition mk_leaf_selector (l : CompositeLeafSelector) : res composite_exn CompositeLeafSelector :=
  raw ← require_text "selector text" (leaf_raw_selector l);
  normalized ← require_text "selector text" (leaf_normalized_selector l);
  weight ← require_positive "weight annotation" (leaf_weight_annotation l);
  max_context ← require_positive "max_context_tokens" (leaf_max_context_tokens l);
  handicap ← require_non_negative (leaf_handicap_seconds l);
  ttft ← require_non_negative (leaf_ttft_timeout_seconds l);
  Ok (MkLeaf raw normalized weight (leaf_first_annotation l) (leaf_thinker_annotation l)
        max_context handicap ttft (leaf_uri_params l) (leaf_backend_type l)
        (leaf_model_name l) (leaf_embedded_selector l)).

(** [CompositeLeafNode] only wraps its leaf selector. *)
Inductive CompositeNode : Type :=
| LeafNode (leaf : CompositeLeafSelector)
| FailoverGroup (children : list CompositeLeafSelector)
| WeightedGroup (children : list CompositeLeafSelector)
| ParallelGroup (children : list CompositeLeafSelector).

Definition require_multiple_children (what : str) (children : list CompositeLeafSelector) :
    res composite_exn (list CompositeLeafSelector) :=
  if length children <? 2
  then Err (PydanticValidationError (what +:+ " groups require at least two branches"))
  else Ok children.

Definition mk_failover_group children : res composite_exn CompositeNode :=
  FailoverGroup <$> require_multiple_children "failover" children.
Definition mk_weighted_group children : res composite_exn CompositeNode :=
  WeightedGroup <$> require_multiple_children "weighted" children.
Definition mk_parallel_group children : res composite_exn CompositeNode :=
  ParallelGroup <$> require_multiple_children "parallel" children.

Record CompositeRoutePlan : Type := MkPlan {
  plan_source_selector : str;
  plan_normalized_selector : str;
  plan_root_node : CompositeNode
}.

Definition mk_plan (source normalized : str) (root : CompositeNode) :
    res composite_exn CompositeRoutePlan :=
  source' ← require_text "selector" source;
  normalized' ← require_text "selector" normalized;
  Ok (MkPlan source' normalized' root).

(** ** Routing input *)

Record CompositeRoutingInput : Type := MkInput {
  in_selector : str;
  in_surface : RoutingSurface;
  in_require_explicit_backend : bool;
  in_configured_max_hops : option Z;
  in_max_branch_history : Z;
  in_default_backend : str;
  in_prefer_first_weighted_branch : bool;
  in_request_context_tokens : option Z;
  in_weighted_cycle_state : option json
}.

Definition mk_routing_input (i : CompositeRoutingInput) : res composite_exn CompositeRoutingInput :=
  selector ← require_text "selector" (in_selector i);
  Ok (MkInput selector (in_surface i) (in_require_explicit_backend i)
        (in_configured_max_hops i) (Z.max 1 (in_max_branch_history i)) (in_default_backend i)
        (in_prefer_first_weighted_branch i) (Z.max 0 <$> in_request_context_tokens i)
        (in_weighted_cycle_state i)).

(** ** Attempt context: hop budget and branch history *)

(** [FailureHandlingConfig.max_failover_hops], the default of the budget. *)
Definition default_max_failover_hops : Z := 5.

Definition resolve_max_hops (configured_max_hops : option Z) : Z :=
  match configured_max_hops with
  | Some n => if (0 <? n)%Z then n else default_max_failover_hops
  | None => default_max_failover_hops
  end.

Record CompositeBranchRecord : Type := MkBranchRecord {
  br_selector_fragment : str;
  br_outcome_category : CompositeBranchOutcomeCategory;
  br_backend : option str;
  br_model : option str;
  br_reason_code : option str
}.

Definition mk_branch_record (r : CompositeBranchRecord) : res composite_exn CompositeBranchRecord :=
  fragment ← require_text "selector_fragment" (br_selector_fragment r);
  Ok (MkBranchRecord
        (_truncate_for_operator_visibility fragment _MAX_SELECTOR_ECHO_CHARS)
        (br_outcome_category r) (br_backend r) (br_model r) (br_reason_code r)).

Record CompositeRoutingAttemptContext : Type := MkAttempt {
  at_surface : RoutingSurface;
  at_max_hops : Z;
  at_history_limit : Z;
  at_hop_count : Z;
  at_content_started : bool;
  at_exhaustion_reason : option str;
  at_branch_history : list CompositeBranchRecord;
  at_branch_history_omitted : Z
}.

Definition create (surface : RoutingSurface) (configured_max_hops : option Z)
    (history_limit : Z) : CompositeRoutingAttemptContext :=
  MkAttempt surface (resolve_max_hops configured_max_hops) (Z.max 1 history_limit)
    0 false None [] 0.

Definition is_exhausted (c : CompositeRoutingAttemptContext) : bool :=
  (at_max_hops c <=? at_hop_count c)%Z.

Definition remaining_hops (c : CompositeRoutingAttemptContext) : Z :=
  let remaining := (at_max_hops c - at_hop_count c)%Z in
  if (0 <? remaining)%Z then remaining else 0%Z.

Definition with_exhaustion_reason (c : CompositeRoutingAttemptContext) (r : str) :
    CompositeRoutingAttemptContext :=
  match at_exhaustion_reason c with
  | Some _ => c
  | None => MkAttempt (at_surface c) (at_max_hops c) (at_history_limit c) (at_hop_count c)
              (at_content_started c) (Some r) (at_branch_history c) (at_branch_history_omitted c)
  end.

Definition consume_hop (c : CompositeRoutingAttemptContext) (reason_code : str) :
    bool * CompositeRoutingAttemptContext :=
  if is_exhausted c then (false, with_exhaustion_reason c reason_code)
  else
    let c' := MkAttempt (at_surface c) (at_max_hops c) (at_history_limit c)
                (at_hop_count c + 1) (at_content_started c) (at_exhaustion_reason c)
                (at_branch_history c) (at_branch_history_omitted c) in
    (true, if is_exhausted c' then with_exhaustion_reason c' reason_code else c').

Definition mark_content_started (c : CompositeRoutingAttemptContext) :
    CompositeRoutingAttemptContext :=
  MkAttempt (at_surface c) (at_max_hops c) (at_history_limit c) (at_hop_count c) true
    (at_exhaustion_reason c) (at_branch_history c) (at_branch_history_omitted c).

Definition record_branch (c : CompositeRoutingAttemptContext) (r : CompositeBranchRecord) :
    CompositeRoutingAttemptContext :=
  let history := at_branch_history c ++ [r] in
  let overflow := (Z.of_nat (length history) - at_history_limit c)%Z in
  let '(history', omitted') :=
    if (0 <? overflow)%Z
    then (drop (Z.to_nat overflow) history, at_branch_history_omitted c + overflow)%Z
    else (history, at_branch_history_omitted c) in
  MkAttempt (at_surface c) (at_max_hops c) (at_history_limit c) (at_hop_count c)
    (at_content_started c) (at_exhaustion_reason c) history' omitted'.

(** ** The attempt context over a whole request

    A request is a sequence of hops, recorded branches and at most a
    content-started mark; [run_attempt] is the context after them. *)

Inductive attempt_op : Type :=
| OpHop (reason_code : str)
| OpContentStarted
| OpRecord (r : CompositeBranchRecord).

Definition attempt_step (c : CompositeRoutingAttemptContext) (o : attempt_op) :
    CompositeRoutingAttemptContext :=
  match o with
  | OpHop reason => snd (consume_hop c reason)
  | OpContentStarted => mark_content_started c
  | OpRecord r => record_branch c r
  end.

Definition run_attempt (ops : list attempt_op) (c : CompositeRoutingAttemptContext) :=
  foldl attempt_step c ops.

Definition hops_of (ops : list attempt_op) : list str :=
  omap (λ o, match o with OpHop r => Some r | _ => None end) ops.

Definition records_of (ops : list attempt_op) : list CompositeBranchRecord :=
  omap (λ o, match o with OpRecord r => Some r | _ => None end) ops.

(** What the context says of the operations performed so far. *)
Record attempt_summary (maxh limit : Z) (ops : list attempt_op)
    (c : CompositeRoutingAttemptContext) : Prop := {
  sum_max : at_max_hops c = maxh;
  sum_limit : at_history_limit c = limit;
  sum_hops : at_hop_count c = Z.min (Z.of_nat (length (hops_of ops))) maxh;
  sum_reason : at_exhaustion_reason c = hops_of ops !! Z.to_nat (maxh - 1);
  sum_history : at_branch_history c =
    drop (length (records_of ops) - Z.to_nat limit) (records_of ops);
  sum_omitted : at_branch_history_omitted c =
    Z.max 0 (Z.of_nat (length (records_of ops)) - limit)
}.

Lemma resolve_max_hops_pos configured : (0 < resolve_max_hops configured)%Z.
Proof.
  unfold resolve_max_hops, default_max_failover_hops.
  destruct configured as [n|]; [|lia]. destruct (Z.ltb_spec 0 n); lia.
Qed.

Lemma lookup_snoc_reason (l : list str) (x : str) (n : nat) :
  (l ++ [x]) !! n = if decide (n = length l) then Some x else l !! n.
Proof.
  case_decide; subst; [by apply list_lookup_middle|].
  destruct (decide (n < length l)); [by apply lookup_app_l|].
  rewrite !lookup_ge_None_2 // ?length_app /=; lia.
Qed.

Lemma hops_of_snoc ops o :
  hops_of (ops ++ [o]) = hops_of ops ++ match o with OpHop r => [r] | _ => [] end.
Proof. unfold hops_of. rewrite omap_app. by destruct o. Qed.

Lemma records_of_snoc ops o :
  records_of (ops ++ [o]) = records_of ops ++ match o with OpRecord r => [r] | _ => [] end.
Proof. unfold records_of. rewrite omap_app. by destruct o. Qed.

Lemma consume_hop_summary maxh limit ops c reason :
  (0 < maxh)%Z → attempt_summary maxh limit ops c →
  attempt_summary maxh limit (ops ++ [OpHop reason]) (snd (consume_hop c reason)).
Proof.
  intros Hm [Hmax Hlim Hh Hr Hhist Hom].
  assert (at_exhaustion_reason c = None ↔ (Z.of_nat (length (hops_of ops)) < maxh)%Z) as Hnone.
  { rewrite Hr lookup_ge_None. lia. }
  unfold consume_hop, is_exhausted. rewrite Hmax Hh.
  destruct (Z.leb_spec maxh (Z.of_nat (length (hops_of ops)) `min` maxh)).
  - destruct (at_exhaustion_reason c) as [x|] eqn:Hx; [|destruct Hnone as [Hn _]; specialize (Hn eq_refl); lia].
    unfold with_exhaustion_reason; simpl. rewrite Hx.
    constructor; rewrite ?hops_of_snoc ?records_of_snoc ?app_nil_r ?length_app
      ?lookup_snoc_reason /=; try done; try lia.
    case_decide; [lia|congruence].
  - assert (at_exhaustion_reason c = None) as Hx by (apply Hnone; lia).
    unfold with_exhaustion_reason; simpl. rewrite ?Hx.
    destruct (Z.leb_spec maxh (Z.of_nat (length (hops_of ops)) `min` maxh + 1)); simpl;
      constructor; rewrite ?hops_of_snoc ?records_of_snoc ?app_nil_r ?length_app
        ?lookup_snoc_reason /=; try done; try lia.
    + case_decide; [done|lia].
    + case_decide; [lia|congruence].
Qed.

Lemma record_branch_summary maxh limit ops c r :
  (0 < limit)%Z → attempt_summary maxh limit ops c →
  attempt_summary maxh limit (ops ++ [OpRecord r]) (record_branch c r).
Proof.
  intros Hl [Hmax Hlim Hh Hr Hhist Hom].
  unfold record_branch. rewrite Hhist Hom Hlim length_app length_drop /=.
  constructor; rewrite ?hops_of_snoc ?records_of_snoc ?app_nil_r ?length_app /=; destruct (Z.ltb_spec 0
      (Z.of_nat (length (records_of ops) - (length (records_of ops) - Z.to_nat limit) + 1)
       - limit)); simpl; try done; try lia.
  - rewrite -(drop_app_le (records_of ops) [r]); first lia. rewrite drop_drop. f_equal. lia.
  - rewrite -(drop_app_le (records_of ops) [r]); first lia. f_equal. lia.
Qed.

(** The attempt context summarises a request exactly: however hops, records
    and the content mark interleave, the hop counter is the number of hops
    capped by the resolved budget, the exhaustion reason is the reason of the
    hop that used the budget up (none before), the history holds the most
    recent records within the limit and the omitted counter the rest. *)
Theorem attempt_context_exact surface configured limit ops :
  attempt_summary (resolve_max_hops configured) (Z.max 1 limit) ops
    (run_attempt ops (create surface configured limit)).
Proof.
  pose proof (resolve_max_hops_pos configured) as Hm.
  unfold run_attempt. induction ops as [|o ops IH] using rev_ind.
  - split; simpl; try done; try lia.
  - rewrite foldl_app /=. destruct o as [reason| |r].
    + by apply consume_hop_summary.
    + destruct IH. by split; simpl; rewrite ?hops_of_snoc ?records_of_snoc ?app_nil_r.
    + apply record_branch_summary; [lia|done].
Qed.
