(* ===== verification/ModelUtils.v ===== *)
(** * Model selectors: [backend:model?params]

    Models [src/core/domain/model_utils.py]: explicit backend detection and the
    split of a selector into backend, model and URI parameters.  The standard
    library's [parse_qs] is an argument of the functions that reach it. *)

From Stdlib Require Import Ascii.
From S2P Require Import Prelude PyStr PyDict.
From stdpp Require Import options.

Definition _RESERVED_SELECTOR_NAMESPACES : list str := ["alias"; "auto"].

Definition has_explicit_backend_selector (model : str) : bool :=
  let '(route_portion, _) := partition "?" model in
  match str_find ":" route_portion with
  | None => false
  | Some first_colon_index =>
      let namespace := lower (strip (str_take first_colon_index route_portion)) in
      if str_in namespace _RESERVED_SELECTOR_NAMESPACES then false
      else match str_find "/" route_portion with
           | None => true
           | Some first_slash_index => first_colon_index <? first_slash_index
           end
  end.

Record ParsedModel : Type := MkParsedModel { pm_backend_type : str; pm_model_name : str }.

Definition parse_model_backend (model default_backend : str) : ParsedModel :=
  if has_explicit_backend_selector model then
    let '(backend, model_tail) := partition ":" model in
    let '(route_model, _) := partition "?" model_tail in
    MkParsedModel backend route_model
  else
    let '(route_only, _) := partition "?" model in
    MkParsedModel default_backend route_only.

Record ParsedModelWithParams : Type := MkParsedParams {
  pp_backend_type : str;
  pp_model_name : str;
  pp_uri_params : list (str * json)
}.

Section with_parse_qs.
(** [urllib.parse.parse_qs(query, keep_blank_values=False)]; [None] when it
    raises. *)
Context (parse_qs : str → option (list (str * list str))).

(** One value, or the last one when a parameter is repeated. *)
Definition scalar_params (parsed : list (str * list str)) : list (str * json) :=
  foldl (λ acc '(key, values), od_set key (JStr (default "" (last values))) acc) [] parsed.

(** The base selector and the query string; [hybrid:[...]] keeps its closing
    bracket on the base. *)
Definition split_query (model : str) : str * str :=
  if startswith "hybrid:[" model && endswith "]" model && str_contains "?" model then
    match str_rfind "?" model, str_find "[" model with
    | Some question_mark_pos, Some open_pos =>
        if open_pos <? question_mark_pos
        then (str_take question_mark_pos model +:+ "]",
              str_take (String.length model - 1 - (question_mark_pos + 1))
                (str_drop (question_mark_pos + 1) model))
        else (model, "")
    | _, _ => (model, "")
    end
  else if str_contains "?" model then partition "?" model
  else (model, "").

Definition parse_model_with_params (model default_backend : str) : ParsedModelWithParams :=
  let '(base_model, query_string) := split_query model in
  let uri_params :=
    if is_empty query_string then []
    else match parse_qs query_string with
         | Some parsed => scalar_params parsed
         | None => []
         end in
  let parsed_model := parse_model_backend base_model default_backend in
  MkParsedParams (pm_backend_type parsed_model) (pm_model_name parsed_model) uri_params.
End with_parse_qs.
