(* ===== verification/ConstrainedBackends.v ===== *)
(** * Shell patterns and constrained backend families

    [fnmatch.fnmatch] of the standard library (the pattern syntax of its
    documentation: [*], [?], [[seq]], [[!seq]], ranges in a sequence, and a [[]
    without its bracket standing for itself), and
    [src/core/config/constrained_backend_policy.py]: oauth-style families, of
    which routing uses one configured instance only. *)

From Stdlib Require Import Ascii.
From S2P Require Import Prelude PyStr PySort PyDict.
From stdpp Require Import options.

(** ** [fnmatch] *)

Inductive set_item : Type :=
| Single (c : ascii)
| Range (lo hi : ascii).

Inductive glob_token : Type :=
| Star
| AnyChar
| Lit (c : ascii)
| CharSet (negated : bool) (items : list set_item).

Definition item_matches (c : ascii) (i : set_item) : bool :=
  match i with
  | Single d => Ascii.eqb c d
  | Range lo hi => (nat_of_ascii lo <=? nat_of_ascii c) && (nat_of_ascii c <=? nat_of_ascii hi)
  end.

(** The items of a sequence: [x-y] is a range, any other [-] stands for itself. *)
Fixpoint set_items (s : str) : list set_item :=
  match s with
  | "" => []
  | String lo rest =>
      match rest with
      | String "-" (String hi rest') => Range lo hi :: set_items rest'
      | _ => Single lo :: set_items rest
      end
  end.

(** The sequence of a set and what follows its closing bracket; a closing bracket
    in first position, after [!], belongs to the sequence.  [None] when the set
    is not closed. *)
Definition close_set (s : str) : option (bool * str * str) :=
  let '(negated, body) := match s with String "!" s' => (true, s') | _ => (false, s) end in
  let '(first, rest) := match body with String "]" b => ("]", b) | _ => ("", body) end in
  match str_find "]" rest with
  | Some i => Some (negated, first +:+ str_take i rest, str_drop (S i) rest)
  | None => None
  end.

(** Every token consumes a character, so the pattern's length is enough fuel. *)
Fixpoint glob_tokens_go (fuel : nat) (pat : str) : list glob_token :=
  match fuel, pat with
  | S f, String c rest =>
      if Ascii.eqb c "*" then Star :: glob_tokens_go f rest
      else if Ascii.eqb c "?" then AnyChar :: glob_tokens_go f rest
      else if Ascii.eqb c "[" then
        match close_set rest with
        | Some (negated, seq, rest') => CharSet negated (set_items seq) :: glob_tokens_go f rest'
        | None => Lit c :: glob_tokens_go f rest
        end
      else Lit c :: glob_tokens_go f rest
  | _, _ => []
  end.

Definition glob_tokens (pat : str) : list glob_token := glob_tokens_go (String.length pat) pat.

(** Some suffix of [s] satisfies [f]. *)
Fixpoint any_suffix (f : str → bool) (s : str) : bool :=
  f s || match s with "" => false | String _ s' => any_suffix f s' end.

Definition token_matches (t : glob_token) (c : ascii) : bool :=
  match t with
  | Star => false
  | AnyChar => true
  | Lit d => Ascii.eqb c d
  | CharSet negated items => xorb negated (existsb (item_matches c) items)
  end.

Fixpoint glob_match (ts : list glob_token) (s : str) : bool :=
  match ts with
  | [] => is_empty s
  | Star :: ts' => any_suffix (glob_match ts') s
  | t :: ts' =>
      match s with
      | String c s' => token_matches t c && glob_match ts' s'
      | "" => false
      end
  end.

Definition fnmatch (name pat : str) : bool := glob_match (glob_tokens pat) name.

(** ** The policy *)

Definition _CONSTRAINED_FAMILY_PATTERNS : list str := ["*-oauth"; "*-oauth-*"].

Definition normalize_backend_family_name (raw_name : str) : str :=
  let normalized := replace_char "_" "-" (lower (strip raw_name)) in
  fst (partition "." normalized).

Definition match_constrained_connector_family (backend_or_instance : str) : option str :=
  let family := normalize_backend_family_name backend_or_instance in
  if is_empty family then None
  else if negb (existsb (fnmatch family) _CONSTRAINED_FAMILY_PATTERNS) then None
  else Some family.

Definition is_constrained_connector_family (backend_or_instance : str) : bool :=
  match match_constrained_connector_family backend_or_instance with Some _ => true | None => false end.

Definition group_constrained_backend_instances (backend_instances : list str) :
    list (str * list str) :=
  let grouped := foldl (λ grouped backend,
      match match_constrained_connector_family backend with
      | None => grouped
      | Some family => od_set family (default [] (od_get family grouped) ++ [backend]) grouped
      end) [] backend_instances in
  (λ family, (family, sorted_strs (default [] (od_get family grouped)))) <$> sorted_strs grouped.*1.

(** The smallest instance of each constrained family. *)
Definition best_by_family (candidates : list str) : gmap string str :=
  foldl (λ best candidate,
    match match_constrained_connector_family candidate with
    | None => best
    | Some family =>
        match best !! family with
        | None => <[ family := candidate ]> best
        | Some previous => if String.ltb candidate previous then <[ family := candidate ]> best else best
        end
    end) ∅ candidates.

Fixpoint emit_collapsed (best : gmap string str) (emitted_families : gset string)
    (candidates : list str) : list str :=
  match candidates with
  | [] => []
  | candidate :: candidates' =>
      match match_constrained_connector_family candidate with
      | None => candidate :: emit_collapsed best emitted_families candidates'
      | Some family =>
          if decide (family ∈ emitted_families) then emit_collapsed best emitted_families candidates'
          else if decide (best !! family = Some candidate)
          then candidate :: emit_collapsed best ({[ family ]} ∪ emitted_families) candidates'
          else emit_collapsed best emitted_families candidates'
      end
  end.

Definition collapse_constrained_backend_candidates (candidates : list str) : list str :=
  emit_collapsed (best_by_family candidates) ∅ candidates.

(** ** Patterns mean what they should *)

Inductive glob_rel : list glob_token → str → Prop :=
| GNil : glob_rel [] ""
| GStar_skip ts s : glob_rel ts s → glob_rel (Star :: ts) s
| GStar_take ts c s : glob_rel (Star :: ts) s → glob_rel (Star :: ts) (String c s)
| GChar t ts c s : token_matches t c = true → glob_rel ts s → glob_rel (t :: ts) (String c s).

Lemma any_suffix_spec f s : any_suffix f s = true ↔ ∃ pre suf, s = pre +:+ suf ∧ f suf = true.
Proof.
  induction s as [|c s IH]; simpl.
  - rewrite orb_false_r. split; [intros Hf; by exists "", ""|]. by intros ([|??] & [|??] & ? & ?).
  - rewrite orb_true_iff IH. split.
    + intros [Hf|(pre & suf & -> & Hf)]; [exists "", (String c s)|exists (String c pre), suf]; done.
    + intros ([|d pre] & suf & Heq & Hf); rewrite ?sapp_nil_l ?sapp_cons in Heq; simplify_eq; [left|right]; eauto.
Qed.

Lemma glob_star_app ts pre suf : glob_rel ts suf → glob_rel (Star :: ts) (pre +:+ suf).
Proof. intros Hg. induction pre as [|c pre IH]; rewrite ?sapp_nil_l ?sapp_cons; by constructor. Qed.

(** The matcher decides the relation. *)
Lemma glob_match_iff ts s : glob_match ts s = true ↔ glob_rel ts s.
Proof.
  split.
  - revert s. induction ts as [|t ts IH]; intros s.
    { intros ->%is_empty_spec. constructor. }
    destruct t; cbn [glob_match]; try (destruct s as [|c' s]; [done|]; intros [? ?]%andb_true_iff;
      constructor; [done|by apply IH]).
    intros (pre & suf & -> & Hf)%any_suffix_spec. by apply glob_star_app, IH.
  - induction 1 as [|ts s _ IH|ts c s _ IH|t ts c s Ht _ IH].
    + done.
    + simpl. apply any_suffix_spec. by exists "", s.
    + simpl in IH |- *. by rewrite IH orb_true_r.
    + destruct t; simpl in *; [done|by rewrite ?Ht IH..].
Qed.

Lemma endswith_iff p s : endswith p s = true ↔ ∃ pre, s = pre +:+ p.
Proof.
  unfold endswith. split.
  - intros [Hl Heq]%andb_true_iff. apply String.eqb_eq in Heq.
    exists (str_take (String.length s - String.length p) s). rewrite <-Heq at 2. by rewrite str_take_drop.
  - intros [pre ->]. rewrite slength_app. apply andb_true_iff. split; [apply Nat.leb_le; lia|].
    apply String.eqb_eq. replace (_ - _) with (String.length pre) by lia. apply str_drop_app.
Qed.

Lemma str_contains_any p s : str_contains p s = any_suffix (startswith p) s.
Proof. induction s as [|c s IH]; simpl; [done|]. by rewrite IH. Qed.

(** A literal prefix of a pattern, followed by the rest of it. *)
Lemma glob_lits (p : str) ts s :
  glob_match ((Lit <$> String.list_ascii_of_string p) ++ ts) s =
  startswith p s && glob_match ts (str_drop (String.length p) s).
Proof.
  revert s. induction p as [|c p IH]; intros s; csimpl; [done|].
  destruct s as [|d s]; [done|]. rewrite IH Ascii.eqb_sym. by destruct (Ascii.eqb c d).
Qed.

Lemma glob_star_any s : glob_match [Star] s = true.
Proof. apply glob_match_iff. rewrite <-(sapp_nil_r s). apply glob_star_app. constructor. Qed.

Lemma any_suffix_ext f g s : (∀ t, f t = g t) → any_suffix f s = any_suffix g s.
Proof. intros Hfg. induction s as [|c s IH]; simpl; by rewrite Hfg ?IH. Qed.

Lemma startswith_exact p s :
  startswith p s && is_empty (str_drop (String.length p) s) = true → s = p.
Proof.
  revert s. induction p as [|c p IH]; intros s; simpl.
  - by intros ->%is_empty_spec.
  - destruct s as [|d s]; [done|]. destruct (Ascii.eqb_spec c d) as [->|]; [|done].
    by intros ->%IH.
Qed.

Lemma startswith_refl p : startswith p p && is_empty (str_drop (String.length p) p) = true.
Proof. induction p as [|c p IH]; simpl; [done|]. by rewrite Ascii.eqb_refl. Qed.

(** The oauth patterns: ending in [-oauth], or with [-oauth-] inside. *)
Lemma oauth_patterns family :
  existsb (fnmatch family) _CONSTRAINED_FAMILY_PATTERNS =
  endswith "-oauth" family || str_contains "-oauth-" family.
Proof.
  change (existsb (fnmatch family) _CONSTRAINED_FAMILY_PATTERNS) with
    (any_suffix (glob_match ((Lit <$> String.list_ascii_of_string "-oauth") ++ [])) family ||
     (any_suffix (glob_match ((Lit <$> String.list_ascii_of_string "-oauth-") ++ [Star])) family || false)).
  rewrite orb_false_r. f_equal.
  - apply eq_true_iff_eq. rewrite any_suffix_spec endswith_iff. split.
    + intros (pre & suf & -> & Hs). rewrite glob_lits in Hs. apply startswith_exact in Hs as ->. eauto.
    + intros [pre ->]. exists pre, "-oauth". split; [done|]. rewrite glob_lits. apply startswith_refl.
  - rewrite str_contains_any. apply any_suffix_ext. intros t.
    by rewrite glob_lits glob_star_any andb_true_r.
Qed.

Lemma constrained_family_iff name family :
  match_constrained_connector_family name = Some family ↔
  normalize_backend_family_name name = family ∧
  (endswith "-oauth" family = true ∨ str_contains "-oauth-" family = true).
Proof.
  unfold match_constrained_connector_family. rewrite oauth_patterns.
  destruct (normalize_backend_family_name name) as [|c s] eqn:E; [|simpl is_empty; cbv iota].
  - simpl. split; [done|]. intros [<- [|]]; done.
  - split.
    + case_match eqn:Ht; [done|]. intros [= <-]. split; [done|].
      apply negb_false_iff, orb_true_iff in Ht. done.
    + intros [-> Hf]. apply orb_true_iff in Hf. by rewrite Hf.
Qed.

(** ** Collapsing keeps the least instance of each family *)

Definition in_family (family candidate : str) : Prop :=
  match_constrained_connector_family candidate = Some family.

#[export] Instance in_family_dec family candidate : Decision (in_family family candidate).
Proof. unfold in_family. apply _. Defined.

Definition unconstrained (candidate : str) : Prop :=
  match_constrained_connector_family candidate = None.

#[export] Instance unconstrained_dec candidate : Decision (unconstrained candidate).
Proof. unfold unconstrained. apply _. Defined.

(** [b] is the smallest member of [family] in [l]. *)
Definition least_in_family (family : str) (l : list str) (b : str) : Prop :=
  b ∈ l ∧ in_family family b ∧ ∀ y, y ∈ l → in_family family y → String.le b y.

Lemma ltb_false_le x y : String.ltb x y = false → String.le y x.
Proof.
  unfold String.le, String.leb, String.ltb. rewrite (String.compare_antisym x y).
  by destruct (String.compare y x).
Qed.

Lemma ltb_true_le x y : String.ltb x y = true → String.le x y.
Proof. unfold String.le, String.leb, String.ltb. by destruct (String.compare x y). Qed.

Definition best_step (best : gmap string str) (candidate : str) : gmap string str :=
  match match_constrained_connector_family candidate with
  | None => best
  | Some family =>
      match best !! family with
      | None => <[ family := candidate ]> best
      | Some previous => if String.ltb candidate previous then <[ family := candidate ]> best else best
      end
  end.

(** The table holds, for every family, its least member among those seen. *)
Definition best_ok (best : gmap string str) (seen : list str) : Prop :=
  ∀ family, match best !! family with
            | Some b => least_in_family family seen b
            | None => ∀ y, y ∈ seen → ¬ in_family family y
            end.

Lemma best_step_ok best seen c : best_ok best seen → best_ok (best_step best c) (seen ++ [c]).
Proof.
  intros Hok family. specialize (Hok family). unfold best_step.
  destruct (match_constrained_connector_family c) as [fc|] eqn:Hc; last first.
  { unfold least_in_family, in_family in *. destruct (best !! family); set_solver. }
  destruct (decide (fc = family)) as [->|Hne]; last first.
  { assert (¬ in_family family c) by (unfold in_family; congruence).
    assert ((match best !! fc with
      | Some previous => if String.ltb c previous then <[fc:=c]> best else best
      | None => <[fc:=c]> best end) !! family = best !! family) as ->.
    { destruct (best !! fc); [destruct (String.ltb _ _)|]; by rewrite ?lookup_insert_ne. }
    unfold least_in_family in *. destruct (best !! family); set_solver. }
  destruct (best !! family) as [b|] eqn:Hb.
  - destruct Hok as (Hin & Hfam & Hmin). destruct (String.ltb c b) eqn:Hlt.
    + rewrite lookup_insert_eq. split; [set_solver|]. split; [done|]. intros y [Hy|Hy]%elem_of_app Hf.
      * trans b; [by apply ltb_true_le|by apply Hmin].
      * apply list_elem_of_singleton in Hy as ->. done.
    + rewrite Hb. split; [set_solver|]. split; [done|]. intros y [Hy|Hy]%elem_of_app Hf; [by apply Hmin|].
      apply list_elem_of_singleton in Hy as ->. by apply ltb_false_le.
  - rewrite lookup_insert_eq. split; [set_solver|]. split; [done|]. intros y [Hy|Hy]%elem_of_app Hf.
    + by destruct (Hok y).
    + apply list_elem_of_singleton in Hy as ->. done.
Qed.

Lemma best_by_family_ok l : best_ok (best_by_family l) l.
Proof.
  unfold best_by_family. change (foldl _ ∅ l) with (foldl best_step ∅ l).
  induction l as [|c l IH] using rev_ind; [intros f; rewrite lookup_empty; set_solver|].
  rewrite foldl_app. by apply best_step_ok.
Qed.

Lemma emit_sublist best emitted l : sublist (emit_collapsed best emitted l) l.
Proof.
  revert emitted. induction l as [|c l IH]; intros emitted; simpl; [constructor|].
  repeat case_match; try (by constructor). all: by apply sublist_skip.
Qed.

Lemma emit_unconstrained best emitted l :
  filter unconstrained (emit_collapsed best emitted l) = filter unconstrained l.
Proof.
  revert emitted. induction l as [|c l IH]; intros emitted; simpl; [done|].
  destruct (match_constrained_connector_family c) as [fc|] eqn:Hc.
  - rewrite (filter_cons_False _ c l) ?IH; [unfold unconstrained; congruence|].
    repeat case_decide; rewrite ?IH //. rewrite filter_cons_False ?IH //. unfold unconstrained. congruence.
  - rewrite !filter_cons_True ?IH //.
Qed.

Lemma emit_family best emitted family l :
  filter (in_family family) (emit_collapsed best emitted l) =
  match best !! family with
  | Some b => if decide (family ∉ emitted ∧ b ∈ filter (in_family family) l) then [b] else []
  | None => []
  end.
Proof.
  revert emitted. induction l as [|c l IH]; intros emitted; simpl.
  { destruct (best !! family); [|done]. rewrite decide_False //. intros [_ []%elem_of_nil]. }
  destruct (match_constrained_connector_family c) as [fc|] eqn:Hc; last first.
  { rewrite !filter_cons_False ?IH //; unfold in_family; congruence. }
  destruct (decide (fc = family)) as [->|Hne]; last first.
  { assert (¬ in_family family c) by (unfold in_family; congruence).
    rewrite (filter_cons_False _ c l) //.
    repeat case_decide; rewrite ?filter_cons_False //; rewrite IH //; destruct (best !! family); try done;
      repeat case_decide; set_solver. }
  rewrite (filter_cons_True _ c l) //. case_decide as Hem.
  { rewrite IH. destruct (best !! family); [|done]. repeat case_decide; try done; set_solver. }
  case_decide as Hb.
  - rewrite filter_cons_True // IH Hb. repeat case_decide; try done; set_solver.
  - rewrite IH. destruct (best !! family) as [b|]; [|done].
    repeat case_decide; try done; set_solver.
Qed.

Lemma collapse_sublist l : sublist (collapse_constrained_backend_candidates l) l.
Proof. apply emit_sublist. Qed.

Lemma collapse_elem l x : x ∈ collapse_constrained_backend_candidates l → x ∈ l.
Proof. intros Hx. by eapply elem_of_sublist, collapse_sublist. Qed.

Lemma collapse_family l family :
  filter (in_family family) (collapse_constrained_backend_candidates l) =
  match best_by_family l !! family with Some b => [b] | None => [] end.
Proof.
  unfold collapse_constrained_backend_candidates. rewrite emit_family.
  pose proof (best_by_family_ok l family) as Hb. destruct (best_by_family l !! family) as [b|]; [|done].
  destruct Hb as (Hin & Hf & _). rewrite decide_True //. split; [set_solver|].
  by apply list_elem_of_filter.
Qed.

(** A member of the original list survives exactly when it is unconstrained or
    the least of its family. *)
Lemma collapse_elem_iff l x :
  x ∈ collapse_constrained_backend_candidates l ↔
  x ∈ l ∧ ∀ family, in_family family x → least_in_family family l x.
Proof.
  unfold collapse_constrained_backend_candidates.
  destruct (match_constrained_connector_family x) as [fx|] eqn:Hx; last first.
  - assert (unconstrained x) as Hu by done.
    transitivity (x ∈ filter unconstrained (emit_collapsed (best_by_family l) ∅ l)).
    { rewrite list_elem_of_filter. tauto. }
    rewrite emit_unconstrained list_elem_of_filter. unfold in_family. split; [|by intros [? _]].
    intros [_ ?]. split; [done|]. congruence.
  - transitivity (x ∈ filter (in_family fx) (collapse_constrained_backend_candidates l)).
    { rewrite list_elem_of_filter. unfold in_family. tauto. }
    rewrite collapse_family. pose proof (best_by_family_ok l fx) as Hb.
    destruct (best_by_family l !! fx) as [b|].
    + rewrite list_elem_of_singleton. split.
      * intros ->. split; [by apply Hb|]. intros f Hf. assert (f = fx) as -> by (unfold in_family in *; congruence).
        done.
      * intros [Hin Hl]. specialize (Hl fx Hx). destruct Hb as (Hbin & Hbf & Hbm), Hl as (_ & _ & Hxm).
        apply (anti_symm String.le); [by apply Hxm|by apply Hbm].
    + split; [by intros ?%elem_of_nil|]. intros [Hin _]. by destruct (Hb x Hin).
Qed.

Lemma collapse_nil l : collapse_constrained_backend_candidates l = [] → l = [].
Proof.
  intros Hn. destruct l as [|c l']; [done|]. exfalso.
  destruct (match_constrained_connector_family c) as [fc|] eqn:Hc.
  - pose proof (collapse_family (c :: l') fc) as Hf. rewrite Hn in Hf. simpl in Hf.
    pose proof (best_by_family_ok (c :: l') fc) as Hb.
    destruct (best_by_family (c :: l') !! fc); [done|]. apply (Hb c); [by left|done].
  - assert (c ∈ collapse_constrained_backend_candidates (c :: l')) as Hin; [|rewrite Hn in Hin; set_solver].
    apply collapse_elem_iff. split; [by left|]. unfold in_family. congruence.
Qed.

(** Collapsing drops nothing but the surplus: the result is a sublist of the
    candidates that keeps every unconstrained one, and of each constrained family
    that has a candidate it keeps one, the lexicographically least. *)
Theorem collapse_exact l :
  let k := collapse_constrained_backend_candidates l in
  sublist k l ∧
  filter unconstrained k = filter unconstrained l ∧
  ∀ family,
    (∃ b, filter (in_family family) k = [b] ∧ least_in_family family l b) ∨
    (filter (in_family family) k = [] ∧ filter (in_family family) l = []).
Proof.
  intros k. split; [apply collapse_sublist|]. split; [apply emit_unconstrained|]. intros family.
  pose proof (best_by_family_ok l family) as Hb. subst k. rewrite collapse_family.
  destruct (best_by_family l !! family) as [b|]; [left; eauto|right; split; [done|]].
  apply elem_of_nil_inv. intros x [Hf Hx]%list_elem_of_filter. by apply (Hb x).
Qed.

(** ** Grouping *)

Definition group_step (grouped : list (str * list str)) (backend : str) : list (str * list str) :=
  match match_constrained_connector_family backend with
  | None => grouped
  | Some family => od_set family (default [] (od_get family grouped) ++ [backend]) grouped
  end.

Lemma group_steps_spec l :
  let g := foldl group_step [] l in
  od_ok g ∧ (∀ family, default [] (od_get family g) = filter (in_family family) l) ∧
  ∀ family, family ∈ g.*1 → filter (in_family family) l ≠ [].
Proof.
  induction l as [|c l (Hok & Hget & Hne)] using rev_ind; [repeat split; [constructor|set_solver]|].
  rewrite foldl_app /=. set (g := foldl group_step [] l) in *. unfold group_step.
  destruct (match_constrained_connector_family c) as [fc|] eqn:Hc; last first.
  { assert (∀ family, filter (in_family family) (l ++ [c]) = filter (in_family family) l) as Heq.
    { intros f. rewrite filter_app filter_cons_False ?app_nil_r //. unfold in_family. congruence. }
    split; [done|]. split; [intros f; by rewrite Heq|]. intros f Hf. rewrite Heq. by apply Hne. }
  assert (∀ f, filter (in_family f) (l ++ [c]) =
    filter (in_family f) l ++ if decide (f = fc) then [c] else []) as Heq.
  { intros f. rewrite filter_app. f_equal. case_decide as Hd.
    - subst f. by rewrite filter_cons_True.
    - rewrite filter_cons_False //. unfold in_family. congruence. }
  split; [by apply od_set_ok|]. split.
  - intros f. rewrite Heq. case_decide as Hd.
    + subst f. by rewrite od_get_set_eq /= Hget.
    + by rewrite od_get_set_ne // app_nil_r Hget.
  - intros f Hf. rewrite Heq. case_decide as Hd; [by destruct (filter _ l)|]. rewrite app_nil_r.
    apply Hne. destruct (decide (f ∈ g.*1)) as [|Hn]; [done|].
    apply od_get_None in Hn. exfalso. revert Hf. apply od_get_None. by rewrite od_get_set_ne.
Qed.

(** The groups are the constrained families that have an instance, each once and
    in order, with all their instances in order. *)
Theorem group_constrained_exact l family instances :
  (family, instances) ∈ group_constrained_backend_instances l ↔
  instances = sorted_strs (filter (in_family family) l) ∧ instances ≠ [].
Proof.
  destruct (group_steps_spec l) as (Hok & Hget & Hne).
  unfold group_constrained_backend_instances. change (foldl _ [] l) with (foldl group_step [] l).
  set (g := foldl group_step [] l) in *. rewrite list_elem_of_fmap. split.
  - intros (f & [= -> ->] & Hf). rewrite elem_of_sorted_strs in Hf. rewrite Hget. split; [done|].
    intros Hn. apply (Hne f Hf). apply Permutation_nil_r. by rewrite <-(sorted_strs_perm (filter _ l)), Hn.
  - intros [-> Hn]. exists family. rewrite Hget elem_of_sorted_strs. split; [done|].
    destruct (decide (family ∈ g.*1)) as [|Hnin]; [done|]. apply od_get_None in Hnin.
    specialize (Hget family). rewrite Hnin /= in Hget. by rewrite -Hget in Hn.
Qed.
