(* ===== verification/CapabilityIndex.v ===== *)
(** * The model capability index

    [src/core/services/model_capability_index.py]: which configured backend
    instance serves which model.  A snapshot is built from the instances' model
    lists, read by [get_candidates], and replaced as a whole by the refresh
    controller.

    Backends and enumerators are reached over the network; what a discovery round
    gets from them is part of the round's environment ([DiscoveryEnv]). *)

From Stdlib Require Import Ascii.
From stdpp Require Import sorting.
From S2P Require Import Prelude PyStr PySort PyDict Exceptions ModelUtils ConstrainedBackends.
From stdpp Require Import options.

(** ** What the index reads of the configuration *)

Record BackendConfig : Type := MkBackendConfig {
  cfg_connector : str;
  cfg_models : list str;
  cfg_extra : option (list (str * json))
}.

(** [IBackendConfigProvider] *)
Class ConfigProvider : Type := {
  iter_backend_names : gset string;
  iter_configured_backend_names : list str;
  get_backend_config : str → option BackendConfig
}.

Record BackendModelDiscoveryStatus : Type := MkDiscoveryStatus {
  ds_status : str;
  ds_source : str;
  ds_model_count : nat;
  ds_error_code : option str
}.

(** ** Selectors and aliases *)

Definition _normalize_model_selector (selector : str) : str :=
  let '(route, _) := partition "?" selector in
  let candidate := strip route in
  if is_empty candidate then ""
  else if has_explicit_backend_selector candidate
  then strip (pm_model_name (parse_model_backend candidate ""))
  else candidate.

Definition _build_aliases (canonical_model : str) : gset string :=
  if str_contains "/" canonical_model then
    let '(_, tail) := partition "/" canonical_model in
    if is_empty tail then {[ canonical_model ]} else {[ canonical_model; tail ]}
  else {[ canonical_model ]}.

(** ** Snapshots *)

Record ModelCapabilitySnapshot : Type := MkSnapshot {
  generation : Z;
  model_to_instances : gmap string (list str);
  instance_to_models : gmap string (list str);
  alias_to_canonical : gmap string str;
  created_at_monotonic : Q;
  instance_route_policy : gmap string str;
  discovery_status_by_instance : gmap string BackendModelDiscoveryStatus
}.

(** [ModelCapabilityIndex.__init__] without a snapshot. *)
Definition empty_snapshot (now : Q) : ModelCapabilitySnapshot := MkSnapshot 0 ∅ ∅ ∅ now ∅ ∅.

(** [d[k].add(v)] on a [defaultdict(set)]. *)
Definition add_to (k v : str) (d : gmap string (gset string)) : gmap string (gset string) :=
  <[ k := {[ v ]} ∪ default ∅ (d !! k) ]> d.

(** One raw model of an instance: its canonical form and its aliases. *)
Definition index_raw_model (acc : gset string * gmap string (gset string)) (raw_model : str) :
    gset string * gmap string (gset string) :=
  let '(canonical_models, alias_candidates) := acc in
  let canonical := _normalize_model_selector raw_model in
  if is_empty canonical then acc
  else ({[ canonical ]} ∪ canonical_models,
        foldl (λ d alias, add_to alias canonical d) alias_candidates (elements (_build_aliases canonical))).

Record index_tables : Type := MkTables {
  tb_model_to_instances : gmap string (gset string);
  tb_instance_to_models : gmap string (list str);
  tb_alias_candidates : gmap string (gset string)
}.

Definition index_instance (itm : gmap string (list str)) (t : index_tables) (instance : str) : index_tables :=
  let '(canonical_models, alias_candidates) :=
    foldl index_raw_model (∅, tb_alias_candidates t) (default [] (itm !! instance)) in
  let ordered_models := sorted_strs (elements canonical_models) in
  MkTables (foldl (λ d canonical, add_to canonical instance d) (tb_model_to_instances t) ordered_models)
    (<[ instance := ordered_models ]> (tb_instance_to_models t)) alias_candidates.

Definition index_all (itm : gmap string (list str)) : index_tables :=
  foldl (index_instance itm) (MkTables ∅ ∅ ∅) (sorted_strs (elements (dom itm))).

(** More backing instances first, then the shorter identifier, then the smaller. *)
Definition canonical_key (m2i : gmap string (list str)) (candidate : str) : sort_key :=
  (- Z.of_nat (length (default [] (m2i !! candidate))), Z.of_nat (String.length candidate), candidate)%Z.

Definition _select_canonical_for_alias (alias : str) (canonical_candidates : gset string)
    (m2i : gmap string (list str)) : str :=
  default alias (head (sorted_by (canonical_key m2i) (elements canonical_candidates))).

Definition build_snapshot (now : Q) (itm : gmap string (list str)) (gen : Z)
    (route_policy : gmap string str) (status : gmap string BackendModelDiscoveryStatus) :
    ModelCapabilitySnapshot :=
  let t := index_all itm in
  let normalized_model_to_instances : gmap string (list str) :=
    (λ instances, sorted_strs (elements instances)) <$> tb_model_to_instances t in
  let aliases : gmap string str :=
    map_imap (λ alias canonical_set,
      Some (_select_canonical_for_alias alias canonical_set normalized_model_to_instances))
      (tb_alias_candidates t) in
  let own : gmap string str := map_imap (λ canonical _, Some canonical) normalized_model_to_instances in
  MkSnapshot (Z.max 0 gen) normalized_model_to_instances (tb_instance_to_models t)
    (aliases ∪ own) now route_policy status.

Definition from_config_provider `{ConfigProvider} (now : Q) : ModelCapabilitySnapshot :=
  let itm : gmap string (list str) :=
    list_to_map ((λ name, (name, match get_backend_config name with Some cfg => cfg_models cfg | None => [] end))
      <$> sorted_strs (elements iter_backend_names)) in
  build_snapshot now itm 1 ∅ ∅.

(** ** Reading the index *)

(** Instances of every model key that ends in [/normalized]. *)
Definition suffix_candidates (m2i : gmap string (list str)) (normalized : str) : gset string :=
  map_fold (λ model_key model_instances acc,
    if endswith ("/" +:+ normalized) model_key then acc ∪ list_to_set model_instances else acc) ∅ m2i.

Definition get_candidates (snapshot : ModelCapabilitySnapshot) (model_selector : str) : list str :=
  let normalized := _normalize_model_selector model_selector in
  if is_empty normalized then []
  else
    let m2i := model_to_instances snapshot in
    let canonical := default normalized (alias_to_canonical snapshot !! normalized) in
    let candidates : gset string :=
      list_to_set (default [] (m2i !! canonical)) ∪ list_to_set (default [] (m2i !! normalized)) in
    let candidates :=
      if str_contains "/" normalized then
        let '(_, tail) := partition "/" normalized in
        if is_empty tail then candidates else candidates ∪ list_to_set (default [] (m2i !! tail))
      else candidates ∪ suffix_candidates m2i normalized in
    sorted_strs (elements candidates).

Definition get_models_for_instance (snapshot : ModelCapabilitySnapshot) (backend_instance : str) : list str :=
  default [] (instance_to_models snapshot !! backend_instance).

(** The index holds one snapshot; publishing replaces it. *)
Definition publish_discovered (now : Q) (itm : gmap string (list str)) (gen : option Z)
    (current : ModelCapabilitySnapshot) : ModelCapabilitySnapshot :=
  let next_generation :=
    match gen with
    | Some g => Z.max 0 g
    | None => Z.max 1 (generation current + 1)
    end in
  build_snapshot now itm next_generation ∅ ∅.

(** ** The tables of a build *)

(** [instance] serves [model] under the configured model lists. *)
Definition serves (itm : gmap string (list str)) (instance model : str) : Prop :=
  ∃ models raw, itm !! instance = Some models ∧ raw ∈ models ∧
    _normalize_model_selector raw = model ∧ model ≠ "".

Definition members (d : gmap string (gset string)) (k : str) : gset string := default ∅ (d !! k).

(** A [defaultdict(set)] that was only ever added to has no empty entry. *)
Definition no_empty (d : gmap string (gset string)) : Prop := ∀ k s, d !! k = Some s → s ≠ ∅.

Lemma members_add k v d k' x : x ∈ members (add_to k v d) k' ↔ k' = k ∧ x = v ∨ x ∈ members d k'.
Proof.
  unfold members, add_to. destruct (decide (k' = k)) as [->|Hne].
  - rewrite lookup_insert_eq /=. set_solver.
  - rewrite lookup_insert_ne //. naive_solver.
Qed.

Lemma no_empty_add k v d : no_empty d → no_empty (add_to k v d).
Proof. intros Hd k' s. unfold add_to. rewrite lookup_insert_Some. intros [[_ <-]|[_ ?]]; [set_solver|eauto]. Qed.

Lemma no_empty_is_Some d k : no_empty d → is_Some (d !! k) ↔ ∃ x, x ∈ members d k.
Proof.
  intros Hd. unfold members. split.
  - intros [s Hs]. rewrite Hs. apply set_choose_L. eauto.
  - intros [x Hx]. destruct (d !! k); [by eexists|set_solver].
Qed.

(** Adding one value under many keys, and many values under their own keys. *)
Lemma members_add_keys v l d k x :
  x ∈ members (foldl (λ d c, add_to c v d) d l) k ↔ k ∈ l ∧ x = v ∨ x ∈ members d k.
Proof.
  revert d. induction l as [|c l IH]; intros d; simpl; [set_solver|].
  rewrite IH members_add elem_of_cons. naive_solver.
Qed.

Lemma no_empty_add_keys v l d : no_empty d → no_empty (foldl (λ d c, add_to c v d) d l).
Proof. revert d. induction l as [|c l IH]; intros d Hd; simpl; [done|]. by apply IH, no_empty_add. Qed.

Lemma raw_models_spec raws cs d :
  let '(cs', d') := foldl index_raw_model (cs, d) raws in
  (∀ c, c ∈ cs' ↔ c ∈ cs ∨ c ≠ "" ∧ ∃ raw, raw ∈ raws ∧ _normalize_model_selector raw = c) ∧
  (∀ a c, c ∈ members d' a ↔ c ∈ members d a ∨
     c ≠ "" ∧ a ∈ _build_aliases c ∧ ∃ raw, raw ∈ raws ∧ _normalize_model_selector raw = c) ∧
  (no_empty d → no_empty d').
Proof.
  revert cs d. induction raws as [|raw raws IH]; intros cs d; cbn [foldl]; [set_solver|].
  unfold index_raw_model at 2. destruct (is_empty (_normalize_model_selector raw)) eqn:He.
  - apply is_empty_spec in He. specialize (IH cs d). destruct (foldl _ _ _) as [cs' d'].
    destruct IH as (H1 & H2 & H3). split_and!; [| |done].
    + intros c. rewrite H1. setoid_rewrite elem_of_cons. naive_solver.
    + intros a c. rewrite H2. setoid_rewrite elem_of_cons. naive_solver.
  - assert (_normalize_model_selector raw ≠ "") as Hne by (intros Hn; by rewrite Hn in He).
    match goal with |- context [foldl index_raw_model (?cs1, ?d1) raws] => specialize (IH cs1 d1) end.
    destruct (foldl index_raw_model _ _) as [cs' d']. destruct IH as (H1 & H2 & H3). split_and!.
    + intros c. rewrite H1 elem_of_union elem_of_singleton. setoid_rewrite elem_of_cons. naive_solver.
    + intros a c. rewrite H2 members_add_keys elem_of_elements. setoid_rewrite elem_of_cons. naive_solver.
    + intros Hd. by apply H3, no_empty_add_keys.
Qed.

(** The three tables after some instances have been indexed. *)
Record tables_ok (itm : gmap string (list str)) (done_ : list str) (t : index_tables) : Prop := {
  to_m2i c i : i ∈ members (tb_model_to_instances t) c ↔ i ∈ done_ ∧ serves itm i c;
  to_alias a c : c ∈ members (tb_alias_candidates t) a ↔
    a ∈ _build_aliases c ∧ ∃ i, i ∈ done_ ∧ serves itm i c;
  to_i2m i ms : tb_instance_to_models t !! i = Some ms →
    NoDup ms ∧ StronglySorted String.le ms;
  to_i2m_elem i c : c ∈ default [] (tb_instance_to_models t !! i) ↔ i ∈ done_ ∧ serves itm i c;
  to_i2m_dom i : is_Some (tb_instance_to_models t !! i) ↔ i ∈ done_;
  to_m2i_ne : no_empty (tb_model_to_instances t);
  to_alias_ne : no_empty (tb_alias_candidates t)
}.

Lemma serves_default itm i c :
  (∃ raw, raw ∈ default [] (itm !! i) ∧ _normalize_model_selector raw = c) ∧ c ≠ "" ↔ serves itm i c.
Proof. unfold serves. destruct (itm !! i); simpl; [naive_solver|]. set_solver. Qed.

Lemma index_instance_ok itm done_ t i :
  tables_ok itm done_ t → tables_ok itm (done_ ++ [i]) (index_instance itm t i).
Proof.
  intros [H1 H2 H3 H4 H5 H6 H7]. unfold index_instance.
  pose proof (raw_models_spec (default [] (itm !! i)) ∅ (tb_alias_candidates t)) as Hr.
  destruct (foldl index_raw_model _ _) as [cs d']. destruct Hr as (Hc & Ha & Hd).
  assert (∀ c, c ∈ cs ↔ serves itm i c) as Hcs.
  { intros c. rewrite Hc -serves_default. set_solver. }
  assert (∀ j, j ∈ done_ ++ [i] ↔ j ∈ done_ ∨ j = i) as Hdone by set_solver.
  constructor; simpl.
  - intros c j. rewrite members_add_keys elem_of_sorted_strs elem_of_elements Hcs H1 Hdone. naive_solver.
  - intros a c. rewrite Ha H2. setoid_rewrite Hdone. pose proof (serves_default itm i c). naive_solver.
  - intros j ms. rewrite lookup_insert_Some. intros [[_ <-]|[_ Hj]]; [|by apply (H3 j)].
    split; [apply NoDup_sorted_strs, NoDup_elements|apply sorted_strs_sorted].
  - intros j c. destruct (decide (j = i)) as [->|Hne].
    + rewrite lookup_insert_eq /= elem_of_sorted_strs elem_of_elements Hcs. set_solver.
    + rewrite lookup_insert_ne // H4 Hdone. naive_solver.
  - intros j. rewrite lookup_insert_is_Some H5 Hdone. destruct (decide (j = i)); naive_solver.
  - by apply no_empty_add_keys.
  - by apply Hd.
Qed.

Lemma index_all_ok itm : tables_ok itm (sorted_strs (elements (dom itm))) (index_all itm).
Proof.
  unfold index_all. generalize (sorted_strs (elements (dom itm))) as l.
  induction l as [|i l IH] using rev_ind; [|rewrite foldl_app; by apply index_instance_ok].
  constructor; simpl; unfold members, no_empty; setoid_rewrite lookup_empty; simpl; try set_solver.
Qed.

Lemma serves_indexed itm i c : serves itm i c → i ∈ sorted_strs (elements (dom itm)).
Proof.
  intros (ms & raw & Hi & _). rewrite elem_of_sorted_strs elem_of_elements. by eapply elem_of_dom_2.
Qed.

(** ** Well-formed snapshots *)

(** Model and instance tables are inverse relations of sorted, duplicate-free
    rows; aliases are the models' own aliases and point at known models. *)
Record snapshot_wf (s : ModelCapabilitySnapshot) : Prop := {
  wf_m2i_rows m row : model_to_instances s !! m = Some row →
    row ≠ [] ∧ NoDup row ∧ StronglySorted String.le row;
  wf_i2m_rows i ms : instance_to_models s !! i = Some ms → NoDup ms ∧ StronglySorted String.le ms;
  wf_inverse i m : i ∈ default [] (model_to_instances s !! m) ↔ m ∈ get_models_for_instance s i;
  wf_named m : is_Some (model_to_instances s !! m) → m ≠ "";
  wf_alias a m : alias_to_canonical s !! a = Some m →
    a ∈ _build_aliases m ∧ is_Some (model_to_instances s !! m);
  wf_alias_total a m : is_Some (model_to_instances s !! m) → a ∈ _build_aliases m →
    is_Some (alias_to_canonical s !! a);
  wf_generation : (0 <= generation s)%Z
}.

Lemma canonical_alias c : c ∈ _build_aliases c.
Proof. unfold _build_aliases. repeat case_match; set_solver. Qed.

Lemma key_le_inj m2i a b :
  key_le (canonical_key m2i a) (canonical_key m2i b) →
  key_le (canonical_key m2i b) (canonical_key m2i a) → a = b.
Proof.
  unfold canonical_key, key_le. intros [|[? [|[? Hab]]]] [|[? [|[? Hba]]]]; try lia.
  by apply (anti_symm String.le).
Qed.

Section build.
Context (now : Q) (itm : gmap string (list str)) (gen : Z) (policy : gmap string str)
  (status : gmap string BackendModelDiscoveryStatus).
Let s := build_snapshot now itm gen policy status.

Lemma build_m2i m i : i ∈ default [] (model_to_instances s !! m) ↔ serves itm i m.
Proof.
  destruct (index_all_ok itm) as [H1 _ _ _ _ _ _]. specialize (H1 m i). unfold members in H1.
  simpl. rewrite lookup_fmap. transitivity (i ∈ default ∅ (tb_model_to_instances (index_all itm) !! m)).
  - destruct (tb_model_to_instances (index_all itm) !! m); simpl; [|set_solver].
    by rewrite elem_of_sorted_strs elem_of_elements.
  - rewrite H1. split; [by intros [_ ?]|]. intros Hs. split; [by eapply serves_indexed|done].
Qed.

Lemma build_m2i_is_Some m : is_Some (model_to_instances s !! m) ↔ ∃ i, serves itm i m.
Proof.
  destruct (index_all_ok itm) as [H1 _ _ _ _ H6 _]. simpl. rewrite lookup_fmap fmap_is_Some.
  rewrite no_empty_is_Some //. setoid_rewrite H1. split; [naive_solver|].
  intros [i Hi]. exists i. split; [by eapply serves_indexed|done].
Qed.

Lemma build_i2m i m : m ∈ get_models_for_instance s i ↔ serves itm i m.
Proof.
  destruct (index_all_ok itm) as [_ _ _ H4 _ _ _]. unfold get_models_for_instance. simpl.
  rewrite H4. split; [by intros [_ ?]|]. intros Hs. split; [by eapply serves_indexed|done].
Qed.

(** The canonical model an alias resolves to is the preferred one of those that
    have the alias. *)
Lemma build_alias a m :
  alias_to_canonical s !! a = Some m ↔
  (a ∈ _build_aliases m ∧ ∃ i, serves itm i m) ∧
  ∀ m', a ∈ _build_aliases m' → (∃ i, serves itm i m') →
    key_le (canonical_key (model_to_instances s) m) (canonical_key (model_to_instances s) m').
Proof.
  destruct (index_all_ok itm) as [_ H2 _ _ _ _ H7].
  assert (∀ m', m' ∈ members (tb_alias_candidates (index_all itm)) a ↔
    a ∈ _build_aliases m' ∧ ∃ i, serves itm i m') as Hc.
  { intros m'. rewrite H2. split; [naive_solver|]. intros [? [i Hi]]. split; [done|].
    exists i. split; [by eapply serves_indexed|done]. }
  set (m2i := model_to_instances s).
  assert (alias_to_canonical s !! a =
    match tb_alias_candidates (index_all itm) !! a with
    | Some cs => Some (_select_canonical_for_alias a cs m2i)
    | None => match m2i !! a with Some _ => Some a | None => None end
    end) as ->.
  { simpl. rewrite lookup_union !map_lookup_imap.
    destruct (tb_alias_candidates (index_all itm) !! a); simpl; [by rewrite union_Some_l|].
    rewrite left_id. subst m2i. simpl. by destruct (_ !! a). }
  destruct (tb_alias_candidates (index_all itm) !! a) as [cs|] eqn:Ecs.
  - unfold members in Hc. rewrite Ecs /= in Hc. unfold _select_canonical_for_alias.
    destruct (head (sorted_by (canonical_key m2i) (elements cs))) as [b|] eqn:Eh; simpl.
    + apply sorted_by_head in Eh as [Hb Hmin]. rewrite elem_of_elements in Hb.
      split.
      * intros [= ->]. split; [by apply Hc|]. intros m' Ha Hi. apply Hmin, elem_of_elements, Hc. done.
      * intros [Hm Hle]. f_equal. apply Hc in Hm. apply Hc in Hb as [Ha Hi].
        specialize (Hmin m). rewrite elem_of_elements in Hmin.
        apply (key_le_inj m2i); [by apply Hmin|by apply Hle].
    + apply sorted_by_nil, elements_empty_iff in Eh. apply leibniz_equiv in Eh.
      by destruct (H7 a cs Ecs).
  - unfold members in Hc. rewrite Ecs /= in Hc. split.
    + case_match eqn:Em; [|done]. intros [= <-]. exfalso. apply (not_elem_of_empty (C:=gset string) a), Hc.
      split; [apply canonical_alias|]. apply build_m2i_is_Some. subst m2i. eauto.
    + intros [Hm _]. exfalso. apply (not_elem_of_empty (C:=gset string) m). by apply Hc.
Qed.
End build.

Lemma build_snapshot_wf now itm gen policy status : snapshot_wf (build_snapshot now itm gen policy status).
Proof.
  destruct (index_all_ok itm) as [_ _ H3 _ _ H6 _]. constructor.
  - intros m row Hrow. assert (row ≠ []) as Hne.
    { assert (is_Some (model_to_instances (build_snapshot now itm gen policy status) !! m)) as Hs by eauto.
      apply build_m2i_is_Some in Hs as [i Hi]. apply (build_m2i now itm gen policy status) in Hi.
      rewrite Hrow in Hi. intros ->. set_solver. }
    simpl in Hrow. rewrite lookup_fmap fmap_Some in Hrow. destruct Hrow as (set & _ & ->).
    split_and!; [done|apply NoDup_sorted_strs, NoDup_elements|apply sorted_strs_sorted].
  - apply H3.
  - intros i m. by rewrite build_m2i build_i2m.
  - intros m [i (ms & raw & _ & _ & _ & Hne)]%build_m2i_is_Some. done.
  - intros a m [[Ha Hi] _]%build_alias. split; [done|]. by apply build_m2i_is_Some.
  - intros a m Hm%build_m2i_is_Some Ha. simpl. apply lookup_union_is_Some. left.
    rewrite map_lookup_imap. destruct (index_all_ok itm) as [_ H2 _ _ _ _ H7].
    assert (is_Some (tb_alias_candidates (index_all itm) !! a)) as [cs ->]; [|by eexists].
    apply no_empty_is_Some; [done|]. exists m. apply H2. split; [done|]. destruct Hm as [i Hi].
    exists i. split; [by eapply serves_indexed|done].
  - simpl. lia.
Qed.
#[export] Hint Resolve build_snapshot_wf : proxy.

(** ** Paths *)

Definition no_slash (s : str) : Prop := str_find "/" s = None.

#[export] Instance no_slash_dec s : Decision (no_slash s).
Proof. unfold no_slash. apply _. Defined.

Lemma contains_find c s : str_contains (String c "") s = bool_decide (is_Some (str_find c s)).
Proof.
  induction s as [|d s IH]; simpl; [done|]. rewrite Ascii.eqb_sym. destruct (Ascii.eqb d c); simpl; [done|].
  rewrite IH. apply bool_decide_ext. by rewrite fmap_is_Some.
Qed.

(** The split at the first slash. *)
Lemma partition_slash s :
  no_slash s ∧ str_contains "/" s = false ∨
  str_contains "/" s = true ∧ ∃ v t, partition "/" s = (v, t) ∧ no_slash v ∧ s = v +:+ "/" +:+ t.
Proof.
  unfold no_slash, partition. rewrite contains_find. destruct (str_find "/" s) as [n|] eqn:Hn.
  - right. split; [done|]. destruct (find_split _ _ _ Hn) as [Heq Hf]. eexists _, _. split; [done|].
    split; [done|]. by rewrite sapp_cons sapp_nil_l.
  - by left.
Qed.

Lemma slash_app_inv v t v' t' :
  no_slash v → no_slash v' → v +:+ "/" +:+ t = v' +:+ "/" +:+ t' → v = v' ∧ t = t'.
Proof.
  rewrite !sapp_cons !sapp_nil_l. intros Hv Hv' Heq.
  pose proof (find_app "/" v t Hv) as H1. rewrite Heq (find_app "/" v' t' Hv') in H1. injection H1 as Hl.
  pose proof (str_take_app v (String "/" t)) as E1. rewrite Heq -Hl str_take_app in E1. subst v'.
  split; [done|]. pose proof (str_drop_app v (String "/" t)) as E2. rewrite Heq str_drop_app in E2. congruence.
Qed.

(** The aliases of a model are itself and what follows its vendor. *)
Lemma alias_iff a m :
  a ∈ _build_aliases m ↔ a = m ∨ a ≠ "" ∧ ∃ v, no_slash v ∧ m = v +:+ "/" +:+ a.
Proof.
  unfold _build_aliases. destruct (partition_slash m) as [[Hm ->]|[-> (v & t & -> & Hv & ->)]].
  - split; [set_solver|]. intros [->|(_ & v & Hv & ->)]; [set_solver|].
    unfold no_slash in Hm. rewrite sapp_cons sapp_nil_l find_app // in Hm.
  - destruct (is_empty t) eqn:Ht.
    + apply is_empty_spec in Ht as ->. split; [set_solver|]. intros [->|(Ha & v' & Hv' & Heq)]; [set_solver|].
      apply slash_app_inv in Heq as [_ <-]; done.
    + assert (t ≠ "") as Hne by (intros ->; done). split.
      * rewrite elem_of_union !elem_of_singleton. intros [->| ->]; [by left|right; eauto].
      * intros [->|(Ha & v' & Hv' & Heq)]; [set_solver|]. apply slash_app_inv in Heq as [_ <-]; [|done..].
        set_solver.
Qed.

(** ** Candidates *)

Lemma suffix_candidates_spec m2i n x :
  x ∈ suffix_candidates m2i n ↔
  ∃ m row, m2i !! m = Some row ∧ endswith ("/" +:+ n) m = true ∧ x ∈ row.
Proof.
  unfold suffix_candidates.
  apply (map_fold_weak_ind (λ acc (d : gmap string (list str)), x ∈ acc ↔
    ∃ m row, d !! m = Some row ∧ endswith ("/" +:+ n) m = true ∧ x ∈ row)).
  - setoid_rewrite lookup_empty. set_solver.
  - intros m row d acc Hm IH. setoid_rewrite lookup_insert_Some. destruct (endswith _ m) eqn:He.
    + rewrite elem_of_union elem_of_list_to_set IH. split.
      * intros [(m' & row' & Hm' & ? & ?)|Hx]; [exists m', row'|exists m, row]; split_and!; auto.
        right. split; [by intros ->; simplify_eq|done].
      * intros (m' & row' & [[-> ->]|[_ ?]] & ? & ?); [by right|left; eauto].
    + rewrite IH. split.
      * intros (m' & row' & Hm' & ? & ?). exists m', row'. split_and!; auto. right. split; [congruence|done].
      * intros (m' & row' & [[-> ->]|[_ ?]] & ? & ?); [congruence|eauto].
Qed.

(** A served model answers a request for [n]: it is [n] itself, the bare name of
    a request with a vendor, any path to a bare request, or the model the alias
    [n] prefers. *)
Definition answers (s : ModelCapabilitySnapshot) (n m : str) : Prop :=
  m = n ∨
  (m ≠ "" ∧ ∃ v, no_slash v ∧ n = v +:+ "/" +:+ m) ∨
  (no_slash n ∧ ∃ v, m = v +:+ "/" +:+ n) ∨
  alias_to_canonical s !! n = Some m.

Lemma get_candidates_elem s sel x : snapshot_wf s →
  x ∈ get_candidates s sel ↔
  _normalize_model_selector sel ≠ "" ∧
  ∃ m, x ∈ default [] (model_to_instances s !! m) ∧ answers s (_normalize_model_selector sel) m.
Proof.
  intros Hwf. unfold get_candidates, answers. set (n := _normalize_model_selector sel).
  destruct (is_empty n) eqn:Hn.
  { apply is_empty_spec in Hn. split; [set_solver|]. by intros [? _]. }
  assert (n ≠ "") as Hne by (intros Hn'; by rewrite Hn' in Hn).
  set (m2i := model_to_instances s). set (can := default n (alias_to_canonical s !! n)).
  assert (∀ m, x ∈ default [] (m2i !! m) → m = can ↔ m = n ∧ can = n ∨ alias_to_canonical s !! n = Some m) as Hcan.
  { intros m _. subst can. destruct (alias_to_canonical s !! n); simpl; naive_solver. }
  rewrite elem_of_sorted_strs elem_of_elements.
  destruct (partition_slash n) as [[Hs ->]|[-> (v & t & -> & Hv & Hvt)]].
  - rewrite !elem_of_union !elem_of_list_to_set suffix_candidates_spec. split.
    + intros [[Hx|Hx]|(m & row & Hm & [v ->]%endswith_iff & Hx)]; (split; [done|]).
      * exists can. split; [done|]. apply Hcan in Hx as Hc. destruct Hc as [Hc _].
        destruct (Hc eq_refl) as [[? _]|?]; auto.
      * eauto.
      * exists (v +:+ "/" +:+ n). split; [by rewrite /m2i Hm|]. eauto 6.
    + intros [_ (m & Hx & Hm)]. destruct Hm as [->|[(Hm0 & v & Hv & Hnv)|[(_ & v & ->)|Ha]]].
      * auto.
      * exfalso. unfold no_slash in Hs. rewrite Hnv sapp_cons sapp_nil_l find_app // in Hs.
      * right. destruct (m2i !! _) as [row|] eqn:Hrow; [|set_solver]. eexists _, row. split; [done|].
        split; [|done]. apply endswith_iff. eauto.
      * left. left. by rewrite /can Ha.
  - assert (∀ m, m ≠ "" → (∃ w, no_slash w ∧ n = w +:+ "/" +:+ m) ↔ m = t) as Ht.
    { intros m Hm. split; [|intros ->; eauto]. intros (w & Hw & Hnw). rewrite Hvt in Hnw.
      apply slash_app_inv in Hnw as [_ ->]; done. }
    assert (¬ no_slash n) as Hns by (unfold no_slash; rewrite Hvt sapp_cons sapp_nil_l find_app //).
    assert (x ∈ (if is_empty t then list_to_set (default [] (m2i !! can)) ∪ list_to_set (default [] (m2i !! n))
      else list_to_set (default [] (m2i !! can)) ∪ list_to_set (default [] (m2i !! n))
             ∪ list_to_set (default [] (m2i !! t)) : gset string) ↔
      x ∈ default [] (m2i !! can) ∨ x ∈ default [] (m2i !! n) ∨ t ≠ "" ∧ x ∈ default [] (m2i !! t)) as ->.
    { destruct (is_empty t) eqn:Et.
      - apply is_empty_spec in Et as ->. rewrite elem_of_union !elem_of_list_to_set. naive_solver.
      - assert (t ≠ "") by (intros ->; done). rewrite !elem_of_union !elem_of_list_to_set. naive_solver. }
    split.
    + intros Hx. split; [done|]. destruct Hx as [Hx|[Hx|[Ht0 Hx]]].
      * exists can. split; [done|]. apply Hcan in Hx as Hc. destruct Hc as [Hc _].
        destruct (Hc eq_refl) as [[? _]|?]; auto.
      * eauto.
      * exists t. split; [done|]. right. left. split; [done|]. by apply Ht.
    + intros [_ (m & Hx & Hm)]. destruct Hm as [->|[(Hm0 & Hw)|[(Hs & _)|Ha]]]; [auto| |done|].
      * apply Ht in Hw as ->; auto.
      * left. by rewrite /can Ha.
Qed.

(** C25: The index built from a configuration answers a request with the sorted,
    duplicate-free list of exactly the instances that serve a matching model. *)
Theorem get_candidates_exact now itm gen policy status sel :
  let s := build_snapshot now itm gen policy status in
  let n := _normalize_model_selector sel in
  NoDup (get_candidates s sel) ∧ StronglySorted String.le (get_candidates s sel) ∧
  ∀ x, x ∈ get_candidates s sel ↔ n ≠ "" ∧ ∃ m, serves itm x m ∧ answers s n m.
Proof.
  intros s n. split_and!.
  - unfold get_candidates. case_match; [constructor|apply NoDup_sorted_strs, NoDup_elements].
  - unfold get_candidates. case_match; [constructor|apply sorted_strs_sorted].
  - intros x. rewrite get_candidates_elem; [apply build_snapshot_wf|]. subst s n.
    by setoid_rewrite (build_m2i now itm gen policy status).
Qed.

(** A model configured on an instance is always found under its own name. *)
Lemma served_model_found now itm gen policy status x m :
  serves itm x m → _normalize_model_selector m = m →
  x ∈ get_candidates (build_snapshot now itm gen policy status) m.
Proof.
  intros Hs Hm. rewrite get_candidates_elem; [apply build_snapshot_wf|]. rewrite Hm. split.
  - by destruct Hs as (? & ? & _ & _ & _ & ?).
  - exists m. split; [by apply build_m2i|by left].
Qed.

(** A canonical model does not always resolve to itself: another model with the
    same bare name and more instances takes its name. *)
Theorem canonical_key_taken :
  let itm : gmap string (list str) :=
    {[ "a" := ["gpt-4"]; "b" := ["openai/gpt-4"]; "c" := ["openai/gpt-4"] ]} in
  let s := build_snapshot 0 itm 1 ∅ ∅ in
  is_Some (model_to_instances s !! "gpt-4") ∧ alias_to_canonical s !! "gpt-4" = Some "openai/gpt-4".
Proof. vm_compute. split; [by eexists|done]. Qed.
