(* ===== verification/CapabilityRefresh.v ===== *)
(** * Capability discovery and refresh

    [ModelCapabilityDiscoverer], [BackendModelEnumeratorRegistry] and
    [ModelCapabilityRefreshController] of
    [src/core/services/model_capability_index.py], with the enumeration results
    of [src/core/common/model_catalog.py].

    A discovery round asks the configured instances' enumerators, then the live
    backends, then the configuration.  The controller runs rounds one at a time
    and, after a failed one, none until a backoff has passed. *)

From S2P Require Import Prelude PyStr PySort PyDict Exceptions ModelUtils CapabilityIndex.
From stdpp Require Import options.

(** ** Enumerations *)

Record BackendModelEnumeration : Type := MkEnumeration {
  en_instance_name : str;
  en_connector : str;
  en_models : list str;
  en_source : str;
  en_status : str;
  en_instance_pinned : bool;
  en_error_code : option str
}.

(** [dict.fromkeys]: the first occurrence of each item, in order. *)
Fixpoint fromkeys_go (seen : list str) (l : list str) : list str :=
  match l with
  | [] => []
  | x :: l' => if str_in x seen then fromkeys_go seen l' else x :: fromkeys_go (x :: seen) l'
  end.

Definition enumeration_available (instance_name connector : str) (models : list str) (source : str)
    (instance_pinned : bool) : BackendModelEnumeration :=
  MkEnumeration instance_name connector (fromkeys_go [] (filter (λ m, is_empty m = false) models)) source
    "available" instance_pinned None.

Definition enumeration_unavailable (instance_name connector source error_code : str)
    (instance_pinned : bool) : BackendModelEnumeration :=
  MkEnumeration instance_name connector [] source "unavailable" instance_pinned (Some error_code).

(** How the awaited enumeration ends. *)
Inductive enumeration_outcome : Type :=
| EnumReturned (e : BackendModelEnumeration)
| EnumOther
| EnumTimeout
| EnumRaised.

(** An enumerator, given the instance, its configuration and the deadline it is
    awaited under. *)
Definition enumerator : Type := str → BackendConfig → option Q → enumeration_outcome.

(** [BackendModelEnumeratorRegistry._entries] *)
Definition registry : Type := gmap string (enumerator * option Q).

Definition register (connector : str) (e : enumerator) (timeout_seconds : option Q) (r : registry) : registry :=
  <[ connector := (e, (λ t, Qpymax (1 # 10) t) <$> timeout_seconds) ]> r.

(** ** Live backends *)

Inductive live_call : Type :=
| LiveList (l : list json)
| LiveOther
| LiveRaised.

(** The model methods of a backend, [None] when it has no such method. *)
Record live_backend : Type := MkLive {
  get_available_models_async : option live_call;
  get_available_models : option live_call
}.

Definition only_strings (l : list json) : list str :=
  omap (λ j, match j with JStr s => Some s | _ => None end) l.

Definition _enumerate_live_models (backend : option live_backend) : list str :=
  match backend with
  | None => []
  | Some b =>
      match get_available_models_async b with
      | Some (LiveList l) => only_strings l
      | _ =>
          match get_available_models b with
          | Some (LiveList l) => only_strings l
          | _ => []
          end
      end
  end.

(** ** One discovery round *)

(** What the round meets: the live backends ([None] when reading them raised) and
    the registered enumerators. *)
Record DiscoveryEnv : Type := MkEnv {
  env_active : option (gmap string live_backend);
  env_registry : registry
}.

Section discovery.
Context `{ConfigProvider}.

Definition _enumerate_configured (env : DiscoveryEnv) (backend_name : str) :
    option (str * BackendModelEnumeration) :=
  let cfg := get_backend_config backend_name in
  let connector := match cfg with Some c => cfg_connector c | None => "" end in
  match env_registry env !! connector, cfg with
  | Some (enumerate, timeout_seconds), Some c =>
      match enumerate backend_name c timeout_seconds with
      | EnumReturned e => Some (backend_name, e)
      | EnumOther => None
      | EnumTimeout => Some (backend_name, enumeration_unavailable backend_name connector connector "timeout" true)
      | EnumRaised =>
          Some (backend_name, enumeration_unavailable backend_name connector connector "enumeration_failed" true)
      end
  | _, _ => None
  end.

Record discovery_tables : Type := MkDiscovery {
  dt_instance_to_models : gmap string (list str);
  dt_route_policy : gmap string str;
  dt_status : gmap string BackendModelDiscoveryStatus
}.

Definition discover_instance (active : gmap string live_backend)
    (enumerations : gmap string BackendModelEnumeration) (t : discovery_tables) (backend_name : str) :
    discovery_tables :=
  match enumerations !! backend_name with
  | Some e =>
      MkDiscovery (<[ backend_name := en_models e ]> (dt_instance_to_models t))
        (if en_instance_pinned e then <[ backend_name := "instance_pinned" ]> (dt_route_policy t)
         else dt_route_policy t)
        (<[ backend_name := MkDiscoveryStatus (en_status e) (en_source e) (length (en_models e)) (en_error_code e) ]>
           (dt_status t))
  | None =>
      let discovered_models := _enumerate_live_models (active !! backend_name) in
      let discovered_models :=
        match discovered_models with
        | [] => match get_backend_config backend_name with Some cfg => cfg_models cfg | None => [] end
        | _ => discovered_models
        end in
      MkDiscovery (<[ backend_name := discovered_models ]> (dt_instance_to_models t))
        (dt_route_policy t) (dt_status t)
  end.

Definition discover_snapshot (env : DiscoveryEnv) (now : Q) (gen : Z) : ModelCapabilitySnapshot :=
  let active_backends := default ∅ (env_active env) in
  let configured_backend_names : gset string := list_to_set iter_configured_backend_names in
  let active_backend_names : gset string := filter (λ name, str_contains ":" name = false) (dom active_backends) in
  let all_backend_names := configured_backend_names ∪ active_backend_names in
  let enumerations : gmap string BackendModelEnumeration :=
    list_to_map (omap (_enumerate_configured env) (sorted_strs (elements configured_backend_names))) in
  let t := foldl (discover_instance active_backends enumerations) (MkDiscovery ∅ ∅ ∅)
             (sorted_strs (elements all_backend_names)) in
  build_snapshot now (dt_instance_to_models t) gen (dt_route_policy t) (dt_status t).
End discovery.

(** ** The refresh controller *)

(** What the controller relies on: a round yields a well-formed snapshot of the
    generation it was asked for, or raises. *)
Class CapabilityDiscoverer : Type := {
  discover : Q → Z → res exn ModelCapabilitySnapshot;
  discover_wf now gen s : discover now gen = Ok s → snapshot_wf s ∧ generation s = Z.max 0 gen
}.

#[refine] Instance live_discoverer `{ConfigProvider} (env : DiscoveryEnv) : CapabilityDiscoverer :=
  {| discover now gen := Ok (discover_snapshot env now gen) |}.
Proof. intros now gen s [= <-]. split; [apply build_snapshot_wf|done]. Defined.

Record refresh_state : Type := MkRefresh {
  rf_snapshot : ModelCapabilitySnapshot;
  _next_refresh_not_before : Q
}.

(** [max(0.0, float(...))] of the constructor. *)
Definition controller_seconds (configured : Q) : Q := Qpymax 0 configured.

(** The section under the refresh lock: [now] is read on entry, [failed_at] when
    the round raises. *)
Definition refresh_locked (D : CapabilityDiscoverer) (failure_backoff_seconds now failed_at : Q)
    (st : refresh_state) : bool * refresh_state :=
  if Qltb now (_next_refresh_not_before st) then (false, st)
  else
    match discover (CapabilityDiscoverer := D) now (generation (rf_snapshot st) + 1) with
    | Ok snapshot => (true, MkRefresh snapshot 0)
    | Err _ => (false, MkRefresh (rf_snapshot st) (failed_at + failure_backoff_seconds)%Q)
    end.

(** The check before the lock spares the waiting. *)
Definition refresh_now (D : CapabilityDiscoverer) (failure_backoff_seconds asked now failed_at : Q)
    (st : refresh_state) : bool * refresh_state :=
  if Qltb asked (_next_refresh_not_before st) then (false, st)
  else refresh_locked D failure_backoff_seconds now failed_at st.

(** Callers queue at the lock: each turn is one holder's section, with what its
    discoverer answers and its two clock reads. *)
Record refresh_turn : Type := MkTurn {
  turn_discoverer : CapabilityDiscoverer;
  turn_now : Q;
  turn_failed_at : Q
}.

Fixpoint refresh_turns (backoff : Q) (turns : list refresh_turn) (st : refresh_state) :
    list bool * refresh_state :=
  match turns with
  | [] => ([], st)
  | t :: turns' =>
      let '(b, st1) := refresh_locked (turn_discoverer t) backoff (turn_now t) (turn_failed_at t) st in
      let '(bs, st2) := refresh_turns backoff turns' st1 in
      (b :: bs, st2)
  end.

(** ** Where an instance's models come from *)

Section sources.
Context `{ConfigProvider} (env : DiscoveryEnv).

Definition active_backends : gmap string live_backend := default ∅ (env_active env).

Definition discovered_names : gset string :=
  list_to_set iter_configured_backend_names ∪
  filter (λ name, str_contains ":" name = false) (dom active_backends).

(** The enumerator's answer, else the live backend's non-empty one, else the
    configured list. *)
Definition models_of (i : str) : list str :=
  match (if decide (i ∈ iter_configured_backend_names) then _enumerate_configured env i else None) with
  | Some (_, e) => en_models e
  | None =>
      match _enumerate_live_models (active_backends !! i) with
      | [] => match get_backend_config i with Some cfg => cfg_models cfg | None => [] end
      | live => live
      end
  end.

Lemma enumerate_configured_name i j e : _enumerate_configured env i = Some (j, e) → j = i.
Proof. unfold _enumerate_configured. repeat case_match; naive_solver. Qed.

Lemma enumerations_lookup names i : NoDup names →
  (list_to_map (omap (_enumerate_configured env) names) : gmap string _) !! i =
  if decide (i ∈ names) then snd <$> _enumerate_configured env i else None.
Proof.
  induction 1 as [|n names Hn Hnd IH]; csimpl; [done|].
  destruct (_enumerate_configured env n) as [[j e]|] eqn:He; csimpl.
  - apply enumerate_configured_name in He as Hj. subst j. destruct (decide (i = n)) as [->|Hne].
    + rewrite lookup_insert_eq decide_True ?He //. by left.
    + rewrite lookup_insert_ne // IH. apply decide_ext. rewrite elem_of_cons. naive_solver.
  - rewrite IH. destruct (decide (i = n)) as [->|Hne].
    + rewrite decide_False // decide_True ?He //. by left.
    + apply decide_ext. rewrite elem_of_cons. naive_solver.
Qed.

Lemma discover_fold active enumerations names i t :
  dt_instance_to_models (foldl (discover_instance active enumerations) t names) !! i =
  if decide (i ∈ names)
  then Some match enumerations !! i with
            | Some e => en_models e
            | None => match _enumerate_live_models (active !! i) with
                      | [] => match get_backend_config i with Some cfg => cfg_models cfg | None => [] end
                      | live => live
                      end
            end
  else dt_instance_to_models t !! i.
Proof.
  revert t. induction names as [|n names IH]; intros t; cbn [foldl]; [done|]. rewrite IH.
  destruct (decide (i ∈ names)) as [Hin|Hnin]; [by rewrite decide_True; [right|]|].
  destruct (decide (i = n)) as [->|Hne].
  - rewrite decide_True; [by left|]. unfold discover_instance.
    destruct (enumerations !! n); simpl; [by rewrite lookup_insert_eq|].
    rewrite lookup_insert_eq. by destruct (_enumerate_live_models _).
  - rewrite decide_False; [by rewrite elem_of_cons; naive_solver|]. unfold discover_instance.
    destruct (enumerations !! n); simpl; by rewrite lookup_insert_ne.
Qed.

Definition round_tables : discovery_tables :=
  foldl (discover_instance active_backends
      (list_to_map (omap (_enumerate_configured env)
        (sorted_strs (elements (list_to_set iter_configured_backend_names : gset string))))))
    (MkDiscovery ∅ ∅ ∅) (sorted_strs (elements discovered_names)).

Lemma round_models i :
  dt_instance_to_models round_tables !! i = if decide (i ∈ discovered_names) then Some (models_of i) else None.
Proof.
  unfold round_tables. rewrite discover_fold enumerations_lookup; [apply NoDup_sorted_strs, NoDup_elements|].
  rewrite lookup_empty. unfold models_of.
  rewrite (decide_ext (i ∈ sorted_strs (elements discovered_names)) (i ∈ discovered_names));
    [by rewrite elem_of_sorted_strs elem_of_elements|].
  rewrite (decide_ext (i ∈ sorted_strs _) (i ∈ iter_configured_backend_names));
    [by rewrite elem_of_sorted_strs elem_of_elements elem_of_list_to_set|].
  case_decide; [|done]. f_equal. case_decide; [|done]. by destruct (_enumerate_configured env i) as [[??]|].
Qed.

(** A discovery round knows exactly the configured instances and the live
    backends that are not session-scoped, each with the models of its best
    source. *)
Theorem discover_snapshot_sources now gen i m :
  m ∈ get_models_for_instance (discover_snapshot env now gen) i ↔
  i ∈ discovered_names ∧ m ≠ "" ∧ ∃ raw, raw ∈ models_of i ∧ _normalize_model_selector raw = m.
Proof.
  change (discover_snapshot env now gen) with
    (build_snapshot now (dt_instance_to_models round_tables) gen
       (dt_route_policy round_tables) (dt_status round_tables)).
  rewrite build_i2m /serves. setoid_rewrite round_models. case_decide; naive_solver.
Qed.
End sources.

(** ** Refreshing *)

Fixpoint count_true (bs : list bool) : nat :=
  match bs with [] => 0 | b :: bs' => (if b then 1 else 0) + count_true bs' end.

Lemma refresh_locked_spec D backoff now failed_at st :
  snapshot_wf (rf_snapshot st) →
  let '(b, st') := refresh_locked D backoff now failed_at st in
  snapshot_wf (rf_snapshot st') ∧
  (if b then generation (rf_snapshot st') = (generation (rf_snapshot st) + 1)%Z ∧ _next_refresh_not_before st' = 0%Q
   else rf_snapshot st' = rf_snapshot st).
Proof.
  intros Hwf. pose proof (wf_generation _ Hwf) as Hg. unfold refresh_locked.
  destruct (Qltb _ _); [done|]. destruct (discover _ _) as [s|e] eqn:Hd; [|done].
  apply discover_wf in Hd as [Hs Hgen]. simpl. split; [done|]. split; [lia|done].
Qed.

(** Whatever the discoverers answer and in whatever order the callers get the
    lock, the index always holds a well-formed snapshot, its generation has
    grown by one per successful round, and with no success it is the snapshot it
    held before. *)
Theorem refresh_turns_safe backoff turns st :
  snapshot_wf (rf_snapshot st) →
  let '(bs, st') := refresh_turns backoff turns st in
  snapshot_wf (rf_snapshot st') ∧ length bs = length turns ∧
  generation (rf_snapshot st') = (generation (rf_snapshot st) + Z.of_nat (count_true bs))%Z ∧
  (count_true bs = 0 → rf_snapshot st' = rf_snapshot st).
Proof.
  revert st. induction turns as [|t turns IH]; intros st Hwf; simpl; [split_and!; [done|done|cbn; lia|done]|].
  pose proof (refresh_locked_spec (turn_discoverer t) backoff (turn_now t) (turn_failed_at t) st Hwf) as Hs.
  destruct (refresh_locked _ _ _ _ _) as [b st1]. destruct Hs as [Hwf1 Hb]. specialize (IH st1 Hwf1).
  destruct (refresh_turns _ _ _) as [bs st2]. destruct IH as (H1 & H2 & H3 & H4).
  destruct b; simpl.
  - split_and!; [done|lia|lia|lia].
  - rewrite Hb in H3, H4. split_and!; [done|lia|lia|done].
Qed.

(** After a failed round nobody runs another before the backoff has passed: the
    callers that were waiting for the lock come out empty-handed and change
    nothing. *)
Theorem failed_round_backs_off D backoff now failed_at st e turns :
  discover (CapabilityDiscoverer := D) now (generation (rf_snapshot st) + 1) = Err e →
  (_next_refresh_not_before st <= now)%Q →
  Forall (λ t, (turn_now t < failed_at + backoff)%Q) turns →
  refresh_turns backoff (MkTurn D now failed_at :: turns) st =
  (replicate (S (length turns)) false, MkRefresh (rf_snapshot st) (failed_at + backoff)%Q).
Proof.
  intros Hd Hn Hl. simpl. unfold refresh_locked. qcase; [lra|]. rewrite Hd.
  assert (∀ s, _next_refresh_not_before s = (failed_at + backoff)%Q →
    refresh_turns backoff turns s = (replicate (length turns) false, s)) as ->; [|done|done].
  intros s Hs. induction Hl as [|t turns Ht _ IH]; simpl; [done|].
  unfold refresh_locked. rewrite Hs. qcase; [by rewrite IH|lra].
Qed.

(** ** Witnesses *)

#[local] Instance sample_provider : ConfigProvider := {|
  iter_backend_names := {[ "openai.1"; "openai.2" ]};
  iter_configured_backend_names := ["openai.1"; "openai.2"];
  get_backend_config name := Some (MkBackendConfig "openai" ["gpt-4"] None)
|}.

Definition failing_discoverer : CapabilityDiscoverer.
Proof. refine {| discover now gen := Err (py_exception "RuntimeError" "down") |}. done. Defined.

Definition sample_refresh : refresh_state := MkRefresh (from_config_provider 0) 0.

Lemma refresh_turns_safe_witness :
  let '(bs, st') := refresh_turns 30 [MkTurn (live_discoverer (MkEnv None ∅)) 1 1;
    MkTurn failing_discoverer 2 3; MkTurn (live_discoverer (MkEnv None ∅)) 4 4] sample_refresh in
  bs = [true; false; false] ∧ snapshot_wf (rf_snapshot st').
Proof.
  pose proof (refresh_turns_safe 30 [MkTurn (live_discoverer (MkEnv None ∅)) 1 1;
    MkTurn failing_discoverer 2 3; MkTurn (live_discoverer (MkEnv None ∅)) 4 4] sample_refresh
    (build_snapshot_wf _ _ _ _ _)) as Hs.
  split; [vm_compute; reflexivity|]. by destruct Hs as [Hs _].
Defined.

Lemma failed_round_backs_off_witness :
  refresh_turns 30 [MkTurn failing_discoverer 2 3; MkTurn (live_discoverer (MkEnv None ∅)) 20 20] sample_refresh =
  ([false; false], MkRefresh (rf_snapshot sample_refresh) 33).
Proof.
  apply (failed_round_backs_off failing_discoverer 30 2 3 sample_refresh (py_exception "RuntimeError" "down")
    [MkTurn (live_discoverer (MkEnv None ∅)) 20 20]).
  - reflexivity.
  - vm_compute. discriminate.
  - constructor; [reflexivity|constructor].
Defined.
