(* ===== verification/BackendRouting.v ===== *)
(** * Backend routing

    [BackendRoutingService] of [src/core/services/backend_routing_service.py] with
    [RoutingConfig] of [src/core/config/models/routing.py]: a backend instance
    for an explicit name, for a backend type (round robin over its instances), or
    for a model alone (discovery, eligibility, ranking, round robin over the best
    bucket).

    The state is the round-robin counters and the resilience coordinator's own
    state, which an availability check may change; the coordinator and the
    lifecycle manager's disabled registry are arguments of the service.  The
    provider has [iter_backend_names], as its interface requires.  Logging is not
    modelled.  [re.search] is an argument of the message that uses it.  Scores are
    the exact decimals of [PyStr]; two NaN scores are distinct keys. *)

From Stdlib Require Import Ascii.
From stdpp Require Import sorting.
From S2P Require Import Prelude PyStr PySort PyDict Exceptions ModelUtils ConstrainedBackends.
From S2P Require Import CapabilityIndex.
From stdpp Require Import options.

(** ** Configuration *)

Inductive preference_policy : Type := round_robin | cost | priority.

#[export] Instance preference_policy_eq_dec : EqDecision preference_policy.
Proof. solve_decision. Defined.

#[export] Instance preference_policy_countable : Countable preference_policy.
Proof.
  refine (inj_countable' (λ p, match p with round_robin => 0 | cost => 1 | priority => 2 end)
    (λ n, match n with 0 => round_robin | 1 => cost | _ => priority end) _). by intros [].
Defined.

Definition policy_value (p : preference_policy) : str :=
  match p with round_robin => "round_robin" | cost => "cost" | priority => "priority" end.

Record RoutingConfig : Type := MkRoutingConfig {
  disable_backend_ids : bool;
  disable_backend_names : bool;
  disable_model_names : bool;
  model_only_preference_policy : preference_policy;
  model_only_model_overrides : list (str * preference_policy);
  model_only_backend_family_overrides : list (str * preference_policy);
  model_only_missing_cost : pyfloat;
  model_only_missing_priority : Z;
  capability_refresh_interval_seconds : pyfloat;
  capability_refresh_backoff_seconds : pyfloat
}.

Definition default_routing_config : RoutingConfig :=
  MkRoutingConfig false false false round_robin [] [] (FDec 1000000 0) 0 (FDec 0 0) (FDec 30 0).

Definition validate_override_keys (value : list (str * preference_policy)) : list (str * preference_policy) :=
  foldl (λ normalized '(key, policy),
    let normalized_key := strip key in
    if is_empty normalized_key then normalized else od_set normalized_key policy normalized) [] value.

Definition validate_missing_cost (value : pyfloat) : res str pyfloat :=
  if float_neg value then Err "model_only_missing_cost must be >= 0" else Ok value.

Definition validate_refresh_seconds (value : pyfloat) : res str pyfloat :=
  if float_neg value then Err "refresh timing values must be >= 0" else Ok value.

(** The validators in the order of the fields, then the one of the whole model. *)
Definition mk_routing_config (c : RoutingConfig) : res str RoutingConfig :=
  let models := validate_override_keys (model_only_model_overrides c) in
  let families := validate_override_keys (model_only_backend_family_overrides c) in
  missing_cost ← validate_missing_cost (model_only_missing_cost c);
  interval ← validate_refresh_seconds (capability_refresh_interval_seconds c);
  backoff ← validate_refresh_seconds (capability_refresh_backoff_seconds c);
  if disable_backend_names c && disable_model_names c
  then Err ("Invalid routing config: cannot disable both backend names and " +:+
            "model-only routing. At least one routing method must remain available.")
  else Ok (MkRoutingConfig (disable_backend_ids c) (disable_backend_names c) (disable_model_names c)
             (model_only_preference_policy c) models families missing_cost
             (model_only_missing_priority c) interval backoff).

(** ** Scores *)

(** [a <= b] on floats; a NaN compares with nothing. *)
Definition float_leb (a b : pyfloat) : bool :=
  match a, b with
  | FNan, _ | _, FNan => false
  | FInf true, _ | _, FInf false => true
  | FInf false, _ | _, FInf true => false
  | FDec m e, FDec m' e' => dec_leb m e m' e'
  end.

Definition float_eqb (a b : pyfloat) : bool := float_leb a b && float_leb b a.

Definition float_opp (a : pyfloat) : pyfloat :=
  match a with
  | FDec m e => FDec (- m) e
  | FInf n => FInf (negb n)
  | FNan => FNan
  end.

(** [float(v)]: a value, a [TypeError] or [ValueError], or an [OverflowError]. *)
Inductive float_conversion : Type :=
| Converted (x : pyfloat)
| NotConvertible
| Overflows.

Definition float_of_int (z : Z) : float_conversion :=
  match mk_float z 0 with FInf _ => Overflows | x => Converted x end.

Definition float_of_json (v : json) : float_conversion :=
  match v with
  | JBool b => Converted (FDec (if b then 1 else 0)%Z 0)
  | JInt z => float_of_int z
  | JFloat x => Converted x
  | JStr s => match py_float s with Some x => Converted x | None => NotConvertible end
  | JNull | JList _ | JDict _ => NotConvertible
  end.

Definition overflow_error : exn := py_exception "OverflowError" "int too large to convert to float".

Definition of_conversion (c : float_conversion) (missing : float_conversion) : res exn pyfloat :=
  match c with
  | Converted x => Ok x
  | Overflows => Err overflow_error
  | NotConvertible => match missing with Converted x => Ok x | _ => Err overflow_error end
  end.

(** A configured number, or the default when it is missing or not a number. *)
Definition configured_number (raw : option json) (missing : float_conversion) : res exn pyfloat :=
  match raw with
  | None | Some JNull => of_conversion missing missing
  | Some v => of_conversion (float_of_json v) missing
  end.

(** [extra.get(first, extra.get(second))] *)
Definition get_either (extra : list (str * json)) (first second : str) : option json :=
  match od_get first extra with Some v => Some v | None => od_get second extra end.

(** [scored.setdefault(score, []).append(candidate)] *)
Fixpoint add_scored (score : pyfloat) (candidate : str) (scored : list (pyfloat * list str)) :
    list (pyfloat * list str) :=
  match scored with
  | [] => [(score, [candidate])]
  | (s, bucket) :: scored' =>
      if float_eqb s score then (s, bucket ++ [candidate]) :: scored'
      else (s, bucket) :: add_scored score candidate scored'
  end.

(** Higher scores first.  Where a sort leaves NaN keys depends on the comparisons
    it makes; here they come last. *)
Definition score_ge (a b : pyfloat * list str) : Prop := b.1 = FNan ∨ float_leb b.1 a.1 = true.

#[export] Instance score_ge_dec : RelDecision score_ge.
Proof. intros a b. unfold score_ge. apply _. Defined.

(** ** Errors *)

Definition _build_routing_error_details (code model : str) (candidates : option (list str))
    (reason : option str) (retryable : option bool) : list (str * json) :=
  let category := if String.eqb code "unknown_model" then "validation" else "availability" in
  let resolved_retryable := default (String.eqb code "temporarily_unavailable") retryable in
  let details := [("code", JStr code); ("category", JStr category);
                  ("retryable", JBool resolved_retryable); ("model", JStr model)] in
  let details := match candidates with
                 | Some l => od_set "candidates" (JList (JStr <$> l)) details
                 | None => details
                 end in
  match reason with
  | Some r => if is_empty r then details else od_set "reason" (JStr r) details
  | None => details
  end.

Definition _extract_backend_family (backend_name : str) : str := fst (partition "." backend_name).

(** Characters of a pattern that are not wildcards, and those that are. *)
Fixpoint literal_length (pattern : str) : nat :=
  match pattern with
  | "" => 0
  | String c s => (if Ascii.eqb c "*" || Ascii.eqb c "?" then 0 else 1) + literal_length s
  end.

Fixpoint wildcard_count (pattern : str) : nat :=
  match pattern with
  | "" => 0
  | String c s => (if Ascii.eqb c "*" || Ascii.eqb c "?" then 1 else 0) + wildcard_count s
  end.

Definition pattern_key (pattern : str) : sort_key :=
  (- Z.of_nat (literal_length pattern), Z.of_nat (wildcard_count pattern), pattern)%Z.

(** ** The service *)

Record routing_state (Σ : Type) : Type := MkRouting {
  _rr_counters : gmap string nat;
  resilience_state : Σ
}.
Arguments MkRouting {_} _ _.
Arguments _rr_counters {_} _.
Arguments resilience_state {_} _.

Record eligibility_entry : Type := MkEligibility {
  el_model : str;
  el_eligible_instances : list str;
  el_eligible_instance_count : nat;
  el_instances_truncated : bool;
  el_instances_omitted : nat;
  el_applied_preference_policy : preference_policy;
  el_equivalent_score_tie_sets : list (list str)
}.

Record eligibility_diagnostics : Type := MkDiagnostics {
  dg_default_preference_policy : preference_policy;
  dg_model_limit : Z;
  dg_instances_per_model_limit : Z;
  dg_models_truncated : bool;
  dg_models_omitted : nat;
  dg_model_eligibility : list eligibility_entry
}.

Section service.
Context `{ConfigProvider} {Σ : Type}.
Context (routing_config : RoutingConfig) (capability_index : ModelCapabilitySnapshot).
(** [check_availability(candidate, model).should_proceed()], when there is a
    resilience coordinator; it may raise. *)
Context (resilience_coordinator : option (str → str → Σ → res exn bool * Σ)).
(** The lifecycle manager's disabled registry, when there is a manager. *)
Context (disabled_backends : option (gset string)).
(** The loaded alias rules: each rule's [pattern], when it is a string. *)
Context (alias_rules : list (option str)).
(** [re.search(pattern, text)]; [None] is [re.error]. *)
Context (re_search : str → str → option bool).

Notation M := (stm (routing_state Σ) exn).

(** *** Discovery *)

Definition _discover_model_candidates_from_configs (model : str) : list str :=
  let model_variants :=
    if str_contains "/" model then
      let '(_, tail) := partition "/" model in if is_empty tail then [model] else [model; tail]
    else [model] in
  filter (λ backend_name,
    match get_backend_config backend_name with
    | Some cfg => existsb (λ variant, str_in variant (cfg_models cfg)) model_variants
    | None => false
    end = true) (elements iter_backend_names).

Definition _discover_model_candidates (model : str) : list str :=
  sorted_set
    match get_candidates capability_index model with
    | [] => _discover_model_candidates_from_configs model
    | candidates => candidates
    end.

Definition _discover_all_backend_candidates : list str := sorted_set (elements iter_backend_names).

Definition _is_model_catalog_unavailable : bool :=
  if decide (model_to_instances capability_index = ∅) then
    forallb (λ backend_name,
      match get_backend_config backend_name with
      | Some cfg => match cfg_models cfg with [] => true | _ => false end
      | None => true
      end) (elements iter_backend_names)
  else false.

Definition _find_instances_for_backend (backend_type : str) : list str :=
  let instances := sorted_strs (filter (λ name, startswith (backend_type +:+ ".") name = true)
                                  (elements iter_backend_names)) in
  collapse_constrained_backend_candidates instances.

(** *** Eligibility *)

Definition _is_candidate_eligible (candidate model : str) (excluded : gset string) : M bool := λ st,
  if decide (candidate ∈ excluded) then (Ok false, st)
  else if match disabled_backends with Some d => bool_decide (candidate ∈ d) | None => false end
  then (Ok false, st)
  else match resilience_coordinator with
       | None => (Ok true, st)
       | Some check =>
           let '(proceed, σ) := check candidate model (resilience_state st) in
           (proceed, MkRouting (_rr_counters st) σ)
       end.

Fixpoint filter_eligible (model : str) (excluded : gset string) (candidates : list str) : M (list str) :=
  match candidates with
  | [] => mret []
  | candidate :: candidates' =>
      eligible ← _is_candidate_eligible candidate model excluded;
      rest ← filter_eligible model excluded candidates';
      mret (if (eligible : bool) then candidate :: rest else rest)
  end.

Definition _filter_eligible_candidates (model : str) (candidates : list str) (excluded : gset string) :
    M (list str) :=
  filtered ← filter_eligible model excluded (sorted_set candidates);
  mret (collapse_constrained_backend_candidates filtered).

(** *** Selection *)

Definition _select_instance (key : str) (instances : list str) (excluded : gset string) : M str := λ st,
  let instances := filter (λ i, i ∉ excluded) instances in
  match instances with
  | [] => (Err (py_exception "ValueError" "No instances provided for selection"), st)
  | first :: _ =>
      let current_index := default 0 (_rr_counters st !! key) in
      let selected := default first (instances !! (current_index mod length instances)) in
      (Ok selected, MkRouting (<[ key := S current_index ]> (_rr_counters st)) (resilience_state st))
  end.

Definition _select_preference_policy (model : str) (candidates : list str) : preference_policy :=
  let matched_patterns :=
    filter (λ pattern, (String.eqb pattern model || fnmatch model pattern) = true)
      (model_only_model_overrides routing_config).*1 in
  match head (sorted_by pattern_key matched_patterns) with
  | Some selected_pattern =>
      default (model_only_preference_policy routing_config)
        (od_get selected_pattern (model_only_model_overrides routing_config))
  | None =>
      let family_overrides := model_only_backend_family_overrides routing_config in
      let family_policies : gset preference_policy :=
        list_to_set (omap (λ candidate, od_get (_extract_backend_family candidate) family_overrides) candidates) in
      match elements family_policies with
      | [p] => p
      | _ => model_only_preference_policy routing_config
      end
  end.

Definition _score_candidate (candidate : str) (policy : preference_policy) : res exn pyfloat :=
  let extra := match get_backend_config candidate with
               | Some cfg => default [] (cfg_extra cfg)
               | None => []
               end in
  match policy with
  | cost =>
      float_opp <$> configured_number (get_either extra "routing_cost" "cost")
        (Converted (model_only_missing_cost routing_config))
  | priority =>
      configured_number (get_either extra "routing_priority" "priority")
        (float_of_int (model_only_missing_priority routing_config))
  | round_robin => Ok (FDec 0 0)
  end.

Definition _rank_model_candidates (model : str) (candidates : list str) : res exn (list (list str)) :=
  match candidates with
  | [] => Ok []
  | _ =>
      let policy := _select_preference_policy model candidates in
      if decide (policy = round_robin) then Ok [sorted_strs candidates]
      else
        let ordered := sorted_strs candidates in
        scores ← mapM (λ candidate, _score_candidate candidate policy) ordered;
        let scored := foldl (λ d '(score, candidate), add_scored score candidate d) [] (zip scores ordered) in
        Ok ((λ b, sorted_strs b.2) <$> merge_sort score_ge scored)
  end.

(** *** Resolution *)

Definition policy_rejected (message : str) (details : list (str * json)) : exn :=
  mk_RoutingError message (("code", JStr "policy_rejected") :: details).

Definition _resolve_generic_backend (backend_type model : str) (excluded : gset string) : M (option str) :=
  instances ← _filter_eligible_candidates model (_find_instances_for_backend backend_type) excluded;
  match instances with
  | [] =>
      if decide (backend_type ∈ excluded) then mret None
      else
        eligible ← _is_candidate_eligible backend_type model excluded;
        mret (if (eligible : bool) then Some backend_type else None)
  | _ => selected ← _select_instance backend_type instances excluded; mret (Some selected)
  end.

Definition _discover_backend_for_model (model : str) (excluded : gset string) : M (option str) :=
  candidates ← _filter_eligible_candidates model (_discover_model_candidates model) excluded;
  match candidates with
  | [] => mret None
  | _ =>
      ranked_buckets ← lift (_rank_model_candidates model candidates);
      match ranked_buckets with
      | [] => mret None
      | top_bucket :: _ =>
          selected ← _select_instance ("model:" +:+ model) top_bucket excluded; mret (Some selected)
      end
  end.

Definition model_only_disabled (model : str) : exn :=
  policy_rejected ("Routing by model name only ('" +:+ model +:+ "') is disabled by policy.")
    [("model", JStr model)].

Definition resolve_backend_instance (backend_type : option str) (model : str) (excluded : gset string) :
    M (option str) :=
  match backend_type with
  | Some backend =>
      if is_empty backend then
        if disable_model_names routing_config then raise (model_only_disabled model)
        else _discover_backend_for_model model excluded
      else if str_contains "." backend then
        if disable_backend_ids routing_config || disable_backend_names routing_config then
          raise (policy_rejected ("Routing by explicit backend instance ID ('" +:+ backend +:+
            "') is disabled by policy.") [("backend_type", JStr backend); ("model", JStr model)])
        else mret (if decide (backend ∈ excluded) then None else Some backend)
      else if disable_backend_names routing_config then
        raise (policy_rejected ("Routing by backend name ('" +:+ backend +:+ "') is disabled by policy.")
          [("backend_type", JStr backend); ("model", JStr model)])
      else _resolve_generic_backend backend model excluded
  | None =>
      if disable_model_names routing_config then raise (model_only_disabled model)
      else _discover_backend_for_model model excluded
  end.

Definition _matches_any_alias_rule (model : str) : bool :=
  existsb (λ rule,
    match rule with
    | Some pattern =>
        if is_empty pattern then false
        else match re_search pattern model with Some found => found | None => false end
    | None => false
    end) alias_rules.

Definition _build_reserved_selector_hint (model : str) : option str :=
  let '(route_portion, _) := partition "?" model in
  if negb (str_contains ":" route_portion) then None
  else
    let '(namespace, alias_name) := partition ":" route_portion in
    let normalized_namespace := lower (strip namespace) in
    if negb (str_in normalized_namespace ["alias"; "auto"]) then None
    else
      match alias_rules with
      | [] =>
          Some ("The `" +:+ normalized_namespace +:+ ":` selector namespace uses model alias rules, " +:+
                "but no `model_aliases` are loaded. If you expected YAML aliases, verify " +:+
                "the server was started with the intended `--config` file.")
      | _ =>
          if negb (is_empty alias_name) && _matches_any_alias_rule route_portion then None
          else Some ("The `" +:+ normalized_namespace +:+ ":` selector namespace uses model alias rules, " +:+
                     "but no configured alias matched '" +:+ route_portion +:+ "'.")
      end.

Definition _build_unknown_model_message (model : str) : str :=
  let message := "Unknown model '" +:+ model +:+ "'. No backend candidates discovered." in
  match _build_reserved_selector_hint model with
  | Some alias_hint => message +:+ " " +:+ alias_hint
  | None => message
  end.

Definition unknown_model (model : str) : exn :=
  mk_RoutingError (_build_unknown_model_message model)
    (_build_routing_error_details "unknown_model" model None None (Some false)).

Definition temporarily_unavailable (message model : str) (candidates : list str) (reason : str) : exn :=
  mk_RoutingError message
    (_build_routing_error_details "temporarily_unavailable" model (Some (sorted_strs candidates))
       (Some reason) None).

Definition resolve_model_only_backend (model : str) (excluded : gset string) : M str :=
  if disable_model_names routing_config then raise (model_only_disabled model)
  else
    let candidates := _discover_model_candidates model in
    match candidates with
    | [] => raise (unknown_model model)
    | _ =>
        eligible ← _filter_eligible_candidates model candidates excluded;
        match eligible with
        | [] =>
            raise (temporarily_unavailable
              ("Model '" +:+ model +:+ "' is temporarily unavailable. All candidates are currently excluded.")
              model candidates "all_candidates_filtered")
        | _ =>
            ranked_buckets ← lift (_rank_model_candidates model eligible);
            match ranked_buckets with
            | [] =>
                raise (temporarily_unavailable ("Model '" +:+ model +:+ "' is temporarily unavailable.")
                  model candidates "no_ranked_candidates")
            | top_bucket :: _ => _select_instance ("model:" +:+ model) top_bucket ∅
            end
        end
    end.

(** [find_alternative_instances] *)
Definition alternatives_for (model : str) (exclude : gset string) : M (list str) :=
  candidates ← _filter_eligible_candidates model (_discover_model_candidates model) exclude;
  ranked_buckets ← lift (_rank_model_candidates model candidates);
  mret (concat (sorted_strs <$> ranked_buckets)).

(** *** Diagnostics *)

Definition eligibility_of (safe_instances_limit : Z) (model : str) : M eligibility_entry :=
  let candidates := sorted_set (get_candidates capability_index model) in
  eligible ← _filter_eligible_candidates model candidates ∅;
  let applied_policy :=
    _select_preference_policy model match eligible with [] => candidates | _ => eligible end in
  ranked_buckets ← lift (_rank_model_candidates model eligible);
  let tie_sets := filter (λ bucket : list str, 1 < length bucket) ranked_buckets in
  let limited_eligible := take (Z.to_nat safe_instances_limit) eligible in
  let omitted_instances := length eligible - length limited_eligible in
  mret (MkEligibility model limited_eligible (length eligible) (bool_decide (0 < omitted_instances))
          omitted_instances applied_policy tie_sets).

Fixpoint eligibility_all (safe_instances_limit : Z) (models : list str) : M (list eligibility_entry) :=
  match models with
  | [] => mret []
  | model :: models' =>
      entry ← eligibility_of safe_instances_limit model;
      rest ← eligibility_all safe_instances_limit models';
      mret (entry :: rest)
  end.

Definition build_model_eligibility_diagnostics (model_limit instances_per_model_limit : Z) :
    M eligibility_diagnostics :=
  let safe_model_limit := Z.max 1 model_limit in
  let safe_instances_limit := Z.max 1 instances_per_model_limit in
  let canonical_models := sorted_set (map_to_list (alias_to_canonical capability_index)).*2 in
  let selected_models := take (Z.to_nat safe_model_limit) canonical_models in
  let models_omitted := length canonical_models - length selected_models in
  entries ← eligibility_all safe_instances_limit selected_models;
  mret (MkDiagnostics (model_only_preference_policy routing_config) safe_model_limit safe_instances_limit
          (bool_decide (0 < models_omitted)) models_omitted entries).
End service.

(** ** Eligibility *)

Set Default Proof Using "Type*".

Section eligibility.
Context {Σ : Type} (resilience_coordinator : option (str → str → Σ → res exn bool * Σ)).
Context (disabled_backends : option (gset string)).
Local Notation _is_candidate_eligible := (_is_candidate_eligible resilience_coordinator disabled_backends).
Local Notation filter_eligible := (filter_eligible resilience_coordinator disabled_backends).
Local Notation _filter_eligible_candidates := (_filter_eligible_candidates resilience_coordinator disabled_backends).

(** Not excluded by the caller and not disabled for good. *)
Definition allowed (excluded : gset string) (candidate : str) : Prop :=
  candidate ∉ excluded ∧ candidate ∉ default ∅ disabled_backends.

(** What the resilience coordinator says of the candidate in state [σ]. *)
Definition proceeds (candidate model : str) (σ : Σ) : Prop :=
  match resilience_coordinator with Some check => fst (check candidate model σ) = Ok true | None => True end.

(** An availability check can raise [e]. *)
Definition coordinator_raises (e : exn) : Prop :=
  match resilience_coordinator with
  | Some check => ∃ candidate model σ, fst (check candidate model σ) = Err e
  | None => False
  end.

Lemma candidate_eligible_run candidate model excluded st :
  ∃ r σ, _is_candidate_eligible candidate model excluded st = (r, MkRouting (_rr_counters st) σ) ∧
    match r with
    | Ok b => b = true ↔ allowed excluded candidate ∧ proceeds candidate model (resilience_state st)
    | Err e => coordinator_raises e
    end.
Proof.
  unfold _is_candidate_eligible, allowed, proceeds, coordinator_raises. destruct st as [rr σ]; simpl.
  destruct (decide (candidate ∈ excluded)); [eexists (Ok _), _; split; [done|]; naive_solver|].
  assert (∀ P : Prop, P →
    ∃ r σ', match resilience_coordinator with
            | Some check => let '(proceed, σ0) := check candidate model σ in (proceed, MkRouting rr σ0)
            | None => (Ok true, MkRouting rr σ)
            end = (r, MkRouting rr σ') ∧
      match r with
      | Ok b => b = true ↔ P ∧ match resilience_coordinator with
                               | Some check => fst (check candidate model σ) = Ok true | None => True end
      | Err e => match resilience_coordinator with
                 | Some check => ∃ candidate model σ, fst (check candidate model σ) = Err e | None => False end
      end) as Hask.
  { intros P HP. destruct resilience_coordinator as [check|]; [|by eexists (Ok _), _].
    destruct (check candidate model σ) as [[b|e] σ'] eqn:E; eexists _, _; (split; [done|]); simpl; [naive_solver|].
    exists candidate, model, σ. by rewrite E. }
  destruct disabled_backends as [d|]; simpl; [case_bool_decide as Hd|].
  - eexists (Ok _), _. split; [done|]. naive_solver.
  - by apply Hask.
  - apply Hask. set_solver.
Qed.

(** A candidate passes the filter only if it was allowed and the coordinator let
    it proceed in some state of the run; no counter moves. *)
Lemma filter_eligible_run model excluded candidates st :
  ∃ r σ, filter_eligible model excluded candidates st = (r, MkRouting (_rr_counters st) σ) ∧
    match r with
    | Ok l => sublist l candidates ∧ ∀ c, c ∈ l → allowed excluded c ∧ ∃ σ', proceeds c model σ'
    | Err e => coordinator_raises e
    end.
Proof.
  revert st. induction candidates as [|c candidates IH]; intros st; simpl.
  { destruct st. eexists (Ok _), _. split; [done|]. split; [constructor|]. by intros ? ?%elem_of_nil. }
  destruct (candidate_eligible_run c model excluded st) as ([b|e] & σ & Hb & Hiff);
    unfold mbind, stm_bind; rewrite Hb; [|by eexists _, _].
  destruct (IH (MkRouting (_rr_counters st) σ)) as ([l|e] & σ' & Hl & Hall); rewrite Hl; simpl; [|by eexists _, _].
  destruct Hall as [Hsub Hall]. eexists (Ok _), _. split; [done|]. destruct b.
  - split; [by constructor|]. destruct Hiff as [[Ha Hp] _]; [done|].
    intros x [->|Hx]%elem_of_cons; [by eauto|by apply Hall].
  - split; [by constructor|done].
Qed.

Lemma filter_eligible_candidates_run model candidates excluded st :
  ∃ r σ, _filter_eligible_candidates model candidates excluded st = (r, MkRouting (_rr_counters st) σ) ∧
    match r with
    | Ok l => sublist l (sorted_set candidates) ∧
        (∀ c, c ∈ l → allowed excluded c ∧ ∃ σ', proceeds c model σ') ∧
        (∀ family, length (filter (in_family family) l) ≤ 1)
    | Err e => coordinator_raises e
    end.
Proof.
  unfold _filter_eligible_candidates, mbind, stm_bind.
  destruct (filter_eligible_run model excluded (sorted_set candidates) st) as ([l|e] & σ & -> & Hall);
    simpl; [|by eexists _, _].
  destruct Hall as [Hsub Hall]. eexists (Ok _), _. split; [done|]. split_and!.
  - etrans; [apply collapse_sublist|done].
  - intros c Hc%collapse_elem. by apply Hall.
  - intros family. rewrite collapse_family. case_match; simpl; lia.
Qed.
End eligibility.

(** ** Round robin *)

Section round_robin.
Context {Σ : Type}.
Implicit Types st : routing_state Σ.

Definition counter st (key : str) : nat := default 0 (_rr_counters st !! key).

Lemma filter_excluded_none (excluded : gset string) (l : list str) :
  (∀ x, x ∈ l → x ∉ excluded) → filter (λ i, i ∉ excluded) l = l.
Proof.
  induction l as [|x l IH]; intros Hl; [done|].
  rewrite filter_cons_True; [apply Hl; by left|]. f_equal. apply IH. intros y Hy. apply Hl. by right.
Qed.

Lemma select_instance_run key instances excluded st :
  filter (λ i, i ∉ excluded) instances ≠ [] →
  ∃ x, _select_instance key instances excluded st =
      (Ok x, MkRouting (<[ key := S (counter st key) ]> (_rr_counters st)) (resilience_state st)) ∧
    filter (λ i, i ∉ excluded) instances !!
      (counter st key mod length (filter (λ i, i ∉ excluded) instances)) = Some x.
Proof.
  intros Hne. unfold _select_instance. destruct (filter _ instances) as [|x l] eqn:El; [done|].
  destruct (lookup_lt_is_Some_2 (x :: l) (counter st key mod length (x :: l))) as [y Hy].
  { apply Nat.mod_upper_bound. done. }
  exists y. split; [|done]. unfold counter in *. by rewrite Hy.
Qed.

(** Calls of [_select_instance] with their keys and instance lists. *)
Fixpoint select_calls (calls : list (str * list str)) : stm (routing_state Σ) exn (list str) :=
  match calls with
  | [] => mret []
  | (key, instances) :: calls' =>
      x ← _select_instance key instances ∅;
      xs ← select_calls calls';
      mret (x :: xs)
  end.

(** The answers to the calls with one key. *)
Definition answers_for (key : str) (calls : list (str * list str)) (xs : list str) : list str :=
  (filter (λ cx, cx.1.1 = key) (zip calls xs)).*2.

Definition calls_with (key : str) (calls : list (str * list str)) : list (str * list str) :=
  filter (λ c, c.1 = key) calls.

Lemma select_calls_run calls st :
  Forall (λ c, c.2 ≠ []) calls →
  ∃ xs st', select_calls calls st = (Ok xs, st') ∧ length xs = length calls ∧
    ∀ key l, Forall (λ c, c.2 = l) (calls_with key calls) →
      counter st' key = counter st key + length (calls_with key calls) ∧
      length (answers_for key calls xs) = length (calls_with key calls) ∧
      ∀ i, i < length (calls_with key calls) →
        answers_for key calls xs !! i = l !! ((counter st key + i) mod length l).
Proof.
  intros Hne. revert st. induction Hne as [|[k0 l0] calls Hl0 Hne IH]; intros st; simpl.
  { eexists _, _. split; [done|]. split; [done|]. intros key l _. split; [simpl; lia|]. simpl. split; [done|lia]. }
  simpl in Hl0. destruct (select_instance_run k0 l0 ∅ st) as (x & Hx & Hlk); [rewrite filter_excluded_none; set_solver|].
  rewrite filter_excluded_none in Hlk; [set_solver|].
  unfold mbind, stm_bind. rewrite Hx.
  destruct (IH (MkRouting (<[k0:=S (counter st k0)]> (_rr_counters st)) (resilience_state st)))
    as (xs & st' & Hxs & Hlen & Hk).
  rewrite Hxs. eexists _, _. split; [done|]. split; [simpl; lia|]. intros key l Hall.
  unfold calls_with, answers_for in *. cbn [zip_with]. destruct (decide (k0 = key)) as [->|Hkey].
  - rewrite !filter_cons_True //. rewrite filter_cons_True // in Hall. apply Forall_cons in Hall as [Hl Hall].
    simpl in Hl. subst l0. destruct (Hk key l Hall) as (Hc & Hla & Hi). clear Hk.
    unfold counter at 2 in Hc. simpl in Hc. rewrite lookup_insert_eq /= in Hc.
    csimpl. split; [lia|]. split; [by rewrite Hla|]. intros [|i] Hlt; simpl.
    + by rewrite Nat.add_0_r.
    + rewrite Hi; [lia|]. unfold counter at 1. simpl. rewrite lookup_insert_eq /=. f_equal. f_equal. lia.
  - rewrite !filter_cons_False //. rewrite filter_cons_False // in Hall.
    destruct (Hk key l Hall) as (Hc & Hla & Hi).
    assert (counter (MkRouting (<[k0:=S (counter st k0)]> (_rr_counters st)) (resilience_state st)) key =
      counter st key) as Heq by (unfold counter; simpl; by rewrite lookup_insert_ne).
    rewrite Heq in Hc, Hi. done.
Qed.

(** A full turn from any position is a rotation of the instances. *)
Lemma window_rotation {A} (l picks : list A) c :
  l ≠ [] → length picks = length l →
  (∀ i, i < length l → picks !! i = l !! ((c + i) mod length l)) → picks = rotate c l.
Proof.
  intros Hne Hlen Hp. apply list_eq. intros i. destruct (decide (i < length l)) as [Hi|Hi].
  - rewrite Hp // lookup_rotate_r //. f_equal. unfold rotate_nat_add.
    assert (length l ≠ 0) by (by destruct l).
    rewrite -(Nat2Z.id ((c + i) mod length l)). f_equal. rewrite Nat2Z.inj_mod. f_equal. lia.
  - rewrite !lookup_ge_None_2 //; rewrite ?length_rotate; lia.
Qed.

Lemma rotate_perm {A} n (l : list A) : rotate n l ≡ₚ l.
Proof. unfold rotate. by rewrite Permutation_app_comm take_drop. Qed.

Lemma windows_perm {A} (l : list A) k picks c :
  l ≠ [] → length picks = k * length l →
  (∀ i, i < length picks → picks !! i = l !! ((c + i) mod length l)) →
  picks ≡ₚ concat (replicate k l).
Proof.
  intros Hne. revert picks c. induction k as [|k IH]; intros picks c Hlen Hp; simpl in *.
  { by destruct picks. }
  rewrite -(take_drop (length l) picks). f_equiv.
  - rewrite (window_rotation l (take (length l) picks) c) //; [rewrite length_take; lia| |apply rotate_perm].
    intros i Hi. rewrite lookup_take_lt // Hp //. lia.
  - apply (IH _ (c + length l)); rewrite length_drop; [lia|].
    intros i Hi. rewrite lookup_drop Hp; [lia|]. f_equal.
    replace (c + (length l + i)) with (c + length l + i) by lia. done.
Qed.

(** C23: Round robin is fair: however the calls for different keys interleave and
    wherever a key's counter stands, [k] full turns over its instances choose
    every instance [k] times. *)
Theorem round_robin_fair calls st key l k :
  Forall (λ c, c.2 ≠ []) calls → l ≠ [] →
  Forall (λ c, c.2 = l) (calls_with key calls) →
  length (calls_with key calls) = k * length l →
  ∃ xs st', select_calls calls st = (Ok xs, st') ∧
    answers_for key calls xs ≡ₚ concat (replicate k l).
Proof.
  intros Hne Hl Hall Hlen. destruct (select_calls_run calls st Hne) as (xs & st' & Hrun & _ & Hk).
  exists xs, st'. split; [done|]. destruct (Hk key l Hall) as (_ & Hla & Hi).
  apply (windows_perm l k _ (counter st key)); [done|by rewrite Hla|]. intros i Hlt. apply Hi. lia.
Qed.
End round_robin.

(** ** The order of scores *)

Definition float_ltb (a b : pyfloat) : bool := float_leb a b && negb (float_leb b a).

Lemma dec_leb_scale k a ea b eb : (k <= ea)%Z → (k <= eb)%Z →
  dec_leb a ea b eb = true ↔ (a * 10 ^ (ea - k) <= b * 10 ^ (eb - k))%Z.
Proof.
  intros Ha Hb. unfold dec_leb. rewrite Z.leb_le.
  assert (∃ mn, (mn <= ea ∧ mn <= eb ∧ k <= mn ∧ (mn = ea ∨ mn = eb))%Z) as (mn & H1 & H2 & H3 & H4)
    by (exists (Z.min ea eb); lia).
  replace (Z.max 0 (ea - eb)) with (ea - mn)%Z by lia. replace (Z.max 0 (eb - ea)) with (eb - mn)%Z by lia.
  replace (ea - k)%Z with ((ea - mn) + (mn - k))%Z by lia. replace (eb - k)%Z with ((eb - mn) + (mn - k))%Z by lia.
  rewrite (Z.pow_add_r 10 (ea - mn)) ?(Z.pow_add_r 10 (eb - mn)); [lia..|]. rewrite !Z.mul_assoc.
  apply Z.mul_le_mono_pos_r, Z.pow_pos_nonneg; lia.
Qed.

Lemma float_leb_trans a b c : float_leb a b = true → float_leb b c = true → float_leb a c = true.
Proof.
  destruct a as [ma ea|[]|], b as [mb eb|[]|], c as [mc ec|[]|]; simpl; try (by intros).
  rewrite !(dec_leb_scale (Z.min ea (Z.min eb ec))); lia.
Qed.

Lemma float_leb_total a b : a ≠ FNan → b ≠ FNan → float_leb a b = true ∨ float_leb b a = true.
Proof.
  destruct a as [ma ea|[]|], b as [mb eb|[]|]; simpl; auto; try done.
  rewrite !(dec_leb_scale (Z.min ea eb)); lia.
Qed.

Lemma float_leb_not_nan a b : float_leb a b = true → a ≠ FNan ∧ b ≠ FNan.
Proof. by destruct a as [| [] |], b as [| [] |]; simpl. Qed.

Lemma float_eqb_true a b : float_eqb a b = true ↔ float_leb a b = true ∧ float_leb b a = true.
Proof. apply andb_true_iff. Qed.

Lemma float_eqb_refl a : a ≠ FNan → float_eqb a a = true.
Proof. intros Ha. apply float_eqb_true. destruct (float_leb_total a a Ha Ha); done. Qed.

Lemma float_eqb_sym a b : float_eqb a b = float_eqb b a.
Proof. apply andb_comm. Qed.

Lemma float_eqb_trans a b c : float_eqb a b = true → float_eqb b c = true → float_eqb a c = true.
Proof. rewrite !float_eqb_true. intros [] []. split; by eapply float_leb_trans. Qed.

#[export] Instance score_ge_total : Total score_ge.
Proof.
  intros [a la] [b lb]. unfold score_ge. simpl. destruct (decide (a = FNan)), (decide (b = FNan)); auto.
  destruct (float_leb_total a b); auto.
Qed.

#[export] Instance score_ge_trans : Transitive score_ge.
Proof.
  intros [a la] [b lb] [c lc]. unfold score_ge. simpl. intros [->|Hab] [->|Hbc]; auto.
  - by apply float_leb_not_nan in Hbc as [_ ?].
  - right. by eapply float_leb_trans.
Qed.

(** ** Buckets *)

Definition scored_of (items : list (pyfloat * str)) : list (pyfloat * list str) :=
  foldl (λ d '(score, candidate), add_scored score candidate d) [] items.

(** The dictionary of the candidates scored so far: it holds each of them once, in
    a bucket of its own score, and no two keys are equal. *)
Record scored_ok (items : list (pyfloat * str)) (d : list (pyfloat * list str)) : Prop := {
  so_perm : concat d.*2 ≡ₚ items.*2;
  so_nonempty s b : (s, b) ∈ d → b ≠ [];
  so_score s b c : (s, b) ∈ d → c ∈ b → ∃ sc, (sc, c) ∈ items ∧ (sc = s ∨ float_eqb s sc = true);
  so_key s b : (s, b) ∈ d → ∃ c, c ∈ b ∧ (s, c) ∈ items;
  so_keys : StronglySorted (λ p q, float_eqb p.1 q.1 = false) d
}.

Lemma add_scored_perm score c d : concat (add_scored score c d).*2 ≡ₚ concat d.*2 ++ [c].
Proof.
  induction d as [|[s b] d IH]; csimpl; [done|]. case_match; csimpl.
  - rewrite -!app_assoc. f_equiv. apply Permutation_app_comm.
  - by rewrite IH app_assoc.
Qed.

Lemma add_scored_elem score c d p : p ∈ add_scored score c d →
  p ∈ d ∨ p = (score, [c]) ∨ ∃ s b, (s, b) ∈ d ∧ float_eqb s score = true ∧ p = (s, b ++ [c]).
Proof.
  induction d as [|[s b] d IH]; simpl; [set_solver|]. case_match eqn:He; intros [->|Hp]%elem_of_cons.
  - right. right. exists s, b. split; [by left|done].
  - left. by right.
  - left. by left.
  - destruct (IH Hp) as [?|[?|(s' & b' & ? & ?)]]; [left; by right|auto|].
    right. right. exists s', b'. split; [by right|done].
Qed.

Lemma add_scored_keys score c d :
  StronglySorted (λ p q, float_eqb p.1 q.1 = false) d →
  StronglySorted (λ p q, float_eqb p.1 q.1 = false) (add_scored score c d).
Proof.
  induction d as [|[s b] d IH]; intros Hd; simpl; [repeat constructor|].
  apply StronglySorted_cons in Hd as [Hs Hd]. case_match eqn:He; constructor; auto.
  rewrite Forall_forall in Hs. apply Forall_forall. intros p Hp.
  apply add_scored_elem in Hp as [Hp|[->|(s' & b' & Hp & _ & ->)]]; [by apply Hs|done|].
  by apply (Hs (s', b')).
Qed.

Lemma scored_of_ok items : scored_ok items (scored_of items).
Proof.
  unfold scored_of. induction items as [|[score c] items [H1 H2 H3 H4 H5]] using rev_ind.
  { constructor; simpl; [done|by intros ?? []%elem_of_nil|by intros ??? []%elem_of_nil|
    by intros ?? []%elem_of_nil|constructor]. }
  rewrite foldl_app /=. set (d := foldl _ [] items) in *. constructor.
  - by rewrite add_scored_perm H1 fmap_app.
  - intros s b [Hp|[[= -> ->]|(s' & b' & Hp & _ & [= -> ->])]]%add_scored_elem; [by eapply H2|done|].
    by destruct b'.
  - intros s b x [Hp|[[= -> ->]|(s' & b' & Hp & He & [= -> ->])]]%add_scored_elem Hx.
    + destruct (H3 s b x Hp Hx) as (sc & ? & ?). exists sc. set_solver.
    + exists score. set_solver.
    + apply elem_of_app in Hx as [Hx|Hx].
      * destruct (H3 s' b' x Hp Hx) as (sc & ? & ?). exists sc. set_solver.
      * apply list_elem_of_singleton in Hx as ->. exists score. split; [set_solver|by right].
  - intros s b [Hp|[[= -> ->]|(s' & b' & Hp & He & [= -> ->])]]%add_scored_elem.
    + destruct (H4 s b Hp) as (x & ? & ?). exists x. set_solver.
    + exists c. set_solver.
    + destruct (H4 s' b' Hp) as (x & ? & ?). exists x. set_solver.
  - by apply add_scored_keys.
Qed.

Lemma NoDup_buckets (d : list (pyfloat * list str)) :
  NoDup (concat d.*2) → (∀ s b, (s, b) ∈ d → b ≠ []) → NoDup d.
Proof.
  induction d as [|[s b] d IH]; csimpl; intros Hn Hne; [constructor|].
  apply NoDup_app in Hn as (_ & Hdis & Hn). constructor.
  - intros Hin. destruct b as [|x b]; [by apply (Hne s []); [left|]|].
    apply (Hdis x); [by left|]. apply elem_of_concat. exists (x :: b). split; [by left|].
    apply list_elem_of_fmap. by exists (s, x :: b).
  - apply IH; [done|]. intros s' b' Hin. apply (Hne s'). by right.
Qed.

Lemma float_ltb_eqb a a' b b' :
  float_eqb a a' = true → float_eqb b b' = true → float_ltb a b = true → float_ltb a' b' = true.
Proof.
  rewrite !float_eqb_true. unfold float_ltb. intros [Ha Ha'] [Hb Hb'].
  intros [Hab Hn]%andb_true_iff. apply negb_true_iff in Hn. apply andb_true_iff. split.
  - eapply float_leb_trans; [done|]. by eapply float_leb_trans.
  - apply negb_true_iff. destruct (float_leb b' a') eqn:He; [|done].
    assert (float_leb b a = true); [|congruence]. eapply float_leb_trans; [done|]. by eapply float_leb_trans.
Qed.

Section ranking.
Context `{ConfigProvider} (routing_config : RoutingConfig).
Local Notation rank := (_rank_model_candidates routing_config).
Local Notation policy_for := (_select_preference_policy routing_config).
Local Notation score := (_score_candidate routing_config).

Lemma rank_shape model candidates buckets :
  rank model candidates = Ok buckets →
  concat buckets ≡ₚ candidates ∧ Forall (λ b, b ≠ [] ∧ StronglySorted String.le b) buckets.
Proof.
  unfold _rank_model_candidates. destruct candidates as [|c0 cs]; [by intros [= <-]|].
  set (candidates := c0 :: cs). case_decide.
  { intros [= <-]. simpl. rewrite app_nil_r. split; [apply sorted_strs_perm|]. constructor; [|constructor].
    split; [|apply sorted_strs_sorted]. intros Hn. pose proof (sorted_strs_perm candidates) as Hp.
    rewrite Hn in Hp. by apply Permutation_nil_l in Hp. }
  intros (scores & Hs & [= <-])%bind_Ok_inv. apply mapM_Ok_Forall2 in Hs.
  change (foldl _ [] ?items) with (scored_of items). set (items := zip scores (sorted_strs candidates)).
  destruct (scored_of_ok items) as [H1 H2 _ _ _]. split.
  - transitivity (concat (merge_sort score_ge (scored_of items)).*2).
    + rewrite list_fmap_compose. generalize ((merge_sort score_ge (scored_of items)).*2). intros l.
      induction l as [|b l IH]; csimpl; [done|]. by rewrite IH sorted_strs_perm.
    + rewrite merge_sort_Permutation H1. subst items. rewrite snd_zip; [|apply sorted_strs_perm].
      apply Forall2_length in Hs. lia.
  - apply Forall_fmap, Forall_forall. intros [s b] Hb. simpl. rewrite merge_sort_Permutation in Hb.
    split; [|apply sorted_strs_sorted]. intros Hn. apply (H2 s b Hb). apply Permutation_nil_r.
    by rewrite -(sorted_strs_perm b) Hn.
Qed.

Lemma rank_nonempty model candidates buckets :
  rank model candidates = Ok buckets → candidates ≠ [] → ∃ top rest, buckets = top :: rest ∧ top ≠ [].
Proof.
  intros [Hp Hf]%rank_shape Hne. destruct buckets as [|top rest].
  - by apply Permutation_nil_l in Hp.
  - apply Forall_cons in Hf as [[? _] _]. eauto.
Qed.

(** Buckets in the order of the score: every bucket holds candidates of one score, and
    a bucket's candidates score strictly more than those of the buckets after
    it. *)
Definition ranked_by (sc : str → pyfloat) (buckets : list (list str)) : Prop :=
  Forall (λ b, ∀ x y, x ∈ b → y ∈ b → float_eqb (sc x) (sc y) = true) buckets ∧
  StronglySorted (λ b b', ∀ x y, x ∈ b → y ∈ b' → float_ltb (sc y) (sc x) = true) buckets.

Lemma sorted_strictly (d : list (pyfloat * list str)) :
  NoDup d → (∀ p, p ∈ d → p.1 ≠ FNan) →
  (∀ p q, p ∈ d → q ∈ d → p ≠ q → float_eqb p.1 q.1 = false) →
  StronglySorted score_ge d → StronglySorted (λ p q, float_ltb q.1 p.1 = true) d.
Proof.
  induction d as [|p d IH]; intros Hn Hnan Hk Hs; [constructor|].
  apply NoDup_cons in Hn as [Hp Hn]. apply StronglySorted_cons in Hs as [Hall Hs]. constructor.
  - apply IH; [done| | |done]; intros; [apply Hnan|apply Hk]; try right; done.
  - rewrite Forall_forall in Hall. apply Forall_forall. intros q Hq.
    destruct (Hall q Hq) as [Hqn|Hle]; [by destruct (Hnan q); [right|]|].
    unfold float_ltb. rewrite Hle /=. apply negb_true_iff.
    assert (float_eqb p.1 q.1 = false) as Hf; [|unfold float_eqb in Hf; by rewrite Hle andb_true_r in Hf].
    apply Hk; [by left|by right|]. by intros ->.
Qed.

Lemma keys_distinct (d : list (pyfloat * list str)) p q :
  StronglySorted (λ p q, float_eqb p.1 q.1 = false) d → p ∈ d → q ∈ d → p ≠ q → float_eqb p.1 q.1 = false.
Proof.
  induction 1 as [|r d _ IH Hall]; [set_solver|]. rewrite Forall_forall in Hall.
  intros [->|Hp]%elem_of_cons [->|Hq]%elem_of_cons Hne; [done|by apply Hall| |by apply IH].
  rewrite float_eqb_sym. by apply Hall.
Qed.

Lemma mapM_scores (sc : str → pyfloat) policy l :
  (∀ c, c ∈ l → score c policy = Ok (sc c)) → mapM (λ c, score c policy) l = Ok (sc <$> l).
Proof.
  induction l as [|c l IH]; intros Hl; [done|]. cbn. rewrite Hl; [by left|]. cbn. rewrite IH; [|done].
  intros x Hx. apply Hl. by right.
Qed.

(** The scored dictionary, sorted, ranks the candidates. *)
Lemma scored_ranked (sc : str → pyfloat) l :
  NoDup l → (∀ c, c ∈ l → sc c ≠ FNan) →
  ranked_by sc ((λ b, sorted_strs b.2) <$> merge_sort score_ge (scored_of ((λ c, (sc c, c)) <$> l))).
Proof.
  intros Hnd Hnan. set (items := (λ c, (sc c, c)) <$> l). destruct (scored_of_ok items) as [H1 H2 H3 H4 H5].
  set (d := scored_of items) in *.
  assert (∀ s c, (s, c) ∈ items → s = sc c ∧ c ∈ l) as Hit by (subst items; set_solver).
  assert (∀ s b c, (s, b) ∈ d → c ∈ b → float_eqb s (sc c) = true) as Hkey.
  { intros s b c Hb Hc. destruct (H3 s b c Hb Hc) as (s' & [-> Hl]%Hit & [<-|He]); [|done].
    apply float_eqb_refl. by apply Hnan. }
  assert (NoDup (concat d.*2)) as Hn.
  { rewrite H1. subst items. rewrite -list_fmap_compose. by rewrite list_fmap_id. }
  assert (StronglySorted (λ p q, float_ltb q.1 p.1 = true) (merge_sort score_ge d)) as Hs.
  { apply sorted_strictly.
    - rewrite merge_sort_Permutation. by apply NoDup_buckets.
    - intros [s b] Hp. rewrite merge_sort_Permutation in Hp.
      destruct (H4 s b Hp) as (c & Hc & [-> Hl]%Hit). by apply Hnan.
    - intros p q. rewrite !merge_sort_Permutation. by apply keys_distinct.
    - apply StronglySorted_merge_sort; apply _. }
  assert (∀ p, p ∈ merge_sort score_ge d → p ∈ d) as Hin by (intros p; by rewrite merge_sort_Permutation).
  split.
  - apply Forall_fmap, Forall_forall. intros [s b] Hb%Hin x y. simpl. rewrite !elem_of_sorted_strs.
    intros Hx Hy. apply (float_eqb_trans _ s); [rewrite float_eqb_sym|]; by apply (Hkey s b).
  - revert Hin. induction Hs as [|p k Hs IH Hall]; intros Hin; csimpl; [constructor|]. constructor.
    + apply IH. intros q Hq. apply Hin. by right.
    + rewrite Forall_fmap. rewrite Forall_forall in Hall. apply Forall_forall. intros q Hq x y. simpl.
      rewrite !elem_of_sorted_strs. intros Hx Hy. destruct p as [s b], q as [s' b'].
      assert (float_eqb s (sc x) = true) as Ex by (apply (Hkey s b); [apply Hin; by left|done]).
      assert (float_eqb s' (sc y) = true) as Ey by (apply (Hkey s' b'); [apply Hin; by right|done]).
      specialize (Hall _ Hq). simpl in Hall. by apply (float_ltb_eqb s' (sc y) s (sc x)).
Qed.
End ranking.

Lemma rank_ranked `{ConfigProvider} routing_config model candidates sc :
  NoDup candidates → candidates ≠ [] →
  let policy := _select_preference_policy routing_config model candidates in
  (∀ c, c ∈ candidates → _score_candidate routing_config c policy = Ok (sc c) ∧ sc c ≠ FNan) →
  ∃ buckets, _rank_model_candidates routing_config model candidates = Ok buckets ∧
    (policy = round_robin → buckets = [sorted_strs candidates]) ∧
    (policy ≠ round_robin → ranked_by sc buckets).
Proof.
  intros Hnd Hne policy Hsc.
  assert (mapM (λ c, _score_candidate routing_config c policy) (sorted_strs candidates) =
    Ok (sc <$> sorted_strs candidates)) as Hm.
  { apply mapM_scores. intros c. rewrite elem_of_sorted_strs. intros Hc. by apply Hsc. }
  unfold _rank_model_candidates. destruct candidates as [|c0 cs]; [done|]. fold policy.
  set (candidates := c0 :: cs) in *. case_decide as Hp; [by eexists|].
  rewrite Hm. eexists. split; [done|]. split; [done|]. intros _.
  change (foldl _ [] ?items) with (scored_of items).
  rewrite zip_with_fmap_l zip_with_diag.
  apply (scored_ranked sc); [by apply NoDup_sorted_strs|].
  intros c. rewrite elem_of_sorted_strs. intros Hc. by apply Hsc.
Qed.

(** Ranking loses no candidate and orders them: round robin keeps one bucket; cost
    and priority give buckets of equal scores in strictly decreasing order, when
    every score is a number. *)
Theorem rank_exact `{ConfigProvider} routing_config model candidates sc :
  NoDup candidates → candidates ≠ [] →
  let policy := _select_preference_policy routing_config model candidates in
  (∀ c, c ∈ candidates → _score_candidate routing_config c policy = Ok (sc c) ∧ sc c ≠ FNan) →
  ∃ buckets, _rank_model_candidates routing_config model candidates = Ok buckets ∧
    concat buckets ≡ₚ candidates ∧
    Forall (λ b, b ≠ [] ∧ StronglySorted String.le b) buckets ∧
    (policy = round_robin → buckets = [sorted_strs candidates]) ∧
    (policy ≠ round_robin → ranked_by sc buckets).
Proof.
  intros Hnd Hne policy Hsc.
  destruct (rank_ranked routing_config model candidates sc Hnd Hne Hsc) as (bs & Hr & Hrr & Hrk).
  exists bs. split; [done|]. apply rank_shape in Hr as [? ?]. done.
Qed.

(** ** Resolution *)

Section resolution.
Context `{ConfigProvider} {Σ : Type}.
Context (routing_config : RoutingConfig) (capability_index : ModelCapabilitySnapshot).
Context (resilience_coordinator : option (str → str → Σ → res exn bool * Σ)).
Context (disabled_backends : option (gset string)).
Context (alias_rules : list (option str)) (re_search : str → str → option bool).
Implicit Types st : routing_state Σ.

Local Notation discovered := (_discover_model_candidates capability_index).
Local Notation eligible_filter := (_filter_eligible_candidates resilience_coordinator disabled_backends).
Local Notation rank := (_rank_model_candidates routing_config).
Local Notation select := (_select_instance (Σ := Σ)).
Local Notation model_only :=
  (resolve_model_only_backend routing_config capability_index resilience_coordinator disabled_backends
     alias_rules re_search).
Local Notation resolve :=
  (resolve_backend_instance routing_config capability_index resilience_coordinator disabled_backends).

(** A configured number of a candidate for the model is an integer beyond the range
    of floats. *)
Definition score_overflows (candidates : list str) : Prop :=
  ∃ candidate policy, candidate ∈ candidates ∧
    _score_candidate routing_config candidate policy = Err overflow_error.

Lemma score_total candidate policy :
  (∃ x, _score_candidate routing_config candidate policy = Ok x) ∨
  _score_candidate routing_config candidate policy = Err overflow_error.
Proof.
  assert (∀ c c', (∃ x, of_conversion c c' = Ok x) ∨ of_conversion c c' = Err overflow_error) as Hc.
  { intros [x| |] [y| |]; simpl; eauto. }
  assert (∀ r c, (∃ x, configured_number r c = Ok x) ∨ configured_number r c = Err overflow_error) as Hn.
  { intros [[]|] c; apply Hc. }
  unfold _score_candidate. destruct policy; [by left; eexists| |apply Hn].
  match goal with |- context [configured_number ?r ?c] => destruct (Hn r c) as [[x ->]| ->] end; simpl; eauto.
Qed.

Lemma rank_total model candidates :
  (∃ buckets, rank model candidates = Ok buckets) ∨
  rank model candidates = Err overflow_error ∧ score_overflows candidates.
Proof.
  unfold _rank_model_candidates. destruct candidates as [|c0 cs]; [by left; eexists|].
  case_decide; [by left; eexists|].
  assert (∀ l, (∀ c, c ∈ l → c ∈ c0 :: cs) →
    let m := mapM (λ c, _score_candidate routing_config c
      (_select_preference_policy routing_config model (c0 :: cs))) l in
    (∃ xs, m = Ok xs) ∨ m = Err overflow_error ∧ score_overflows (c0 :: cs)) as Hm.
  { induction l as [|c l IH]; intros Hl; [by left; eexists|]. cbn.
    destruct (score_total c (_select_preference_policy routing_config model (c0 :: cs))) as [[x Hx]|Hx];
      rewrite Hx; cbn.
    - destruct IH as [[xs ->]|[-> ?]]; [intros; apply Hl; by right|by left; eexists|by right].
    - right. split; [done|]. exists c. eexists. split; [apply Hl; by left|exact Hx]. }
  destruct (Hm (sorted_strs (c0 :: cs))) as [[xs ->]|[-> ?]];
    [intros c Hc; by apply elem_of_sorted_strs|by left; eexists|by right].
Qed.

(** A selection among candidates none of which is excluded moves one counter. *)
Lemma select_member key bucket excluded st :
  bucket ≠ [] → (∀ x, x ∈ bucket → x ∉ excluded) →
  ∃ x, x ∈ bucket ∧ select key bucket excluded st =
    (Ok x, MkRouting (<[ key := S (counter st key) ]> (_rr_counters st)) (resilience_state st)) ∧
    select key bucket ∅ st = select key bucket excluded st.
Proof.
  intros Hne Hex. assert (filter (λ i, i ∉ excluded) bucket = bucket) as Hf by (by apply filter_excluded_none).
  destruct (select_instance_run key bucket excluded st) as (x & Hx & Hl); [by rewrite Hf|].
  rewrite Hf in Hl. exists x. split; [by eapply list_elem_of_lookup_2|]. split; [done|].
  unfold _select_instance. rewrite Hf filter_excluded_none; [set_solver|done].
Qed.

Lemma filter_nil_run model excluded st : eligible_filter model [] excluded st = (Ok [], st).
Proof. done. Qed.

Lemma discovered_sorted model : sorted_set (discovered model) = discovered model.
Proof. apply sorted_set_id; unfold _discover_model_candidates; auto with proxy. Qed.

(** What leaves the routing service beside its own errors: what an availability
    check raises, and the overflow of a configured number. *)
Definition escapes (candidates : list str) (e : exn) : Prop :=
  coordinator_raises resilience_coordinator e ∨ e = overflow_error ∧ score_overflows candidates.

(** The steps of a model-only resolution, once the policy allows it. *)
Lemma model_only_run model excluded st :
  disable_model_names routing_config = false →
  ∃ f σ, eligible_filter model (discovered model) excluded st = (f, MkRouting (_rr_counters st) σ) ∧
    let st1 := MkRouting (_rr_counters st) σ in
    match f with
    | Err e => coordinator_raises resilience_coordinator e ∧
        model_only model excluded st = (Err e, st1) ∧ resolve None model excluded st = (Err e, st1)
    | Ok l =>
        l = [] ∧ discovered model = [] ∧ σ = resilience_state st ∧
          model_only model excluded st = (Err (unknown_model alias_rules re_search model), st) ∧
          resolve None model excluded st = (Ok None, st) ∨
        l = [] ∧ discovered model ≠ [] ∧
          (∃ e, model_only model excluded st = (Err e, st1) ∧
            ex_class e = RoutingError ∧ ex_status_code e = 503%Z) ∧
          resolve None model excluded st = (Ok None, st1) ∨
        l ≠ [] ∧ score_overflows l ∧ model_only model excluded st = (Err overflow_error, st1) ∧
          resolve None model excluded st = (Err overflow_error, st1) ∨
        ∃ top rest x, rank model l = Ok (top :: rest) ∧ x ∈ top ∧ x ∈ l ∧
          let st' := MkRouting (<[ "model:" +:+ model := S (counter st ("model:" +:+ model)) ]> (_rr_counters st)) σ in
          model_only model excluded st = (Ok x, st') ∧ resolve None model excluded st = (Ok (Some x), st')
    end.
Proof.
  intros Hd. unfold resolve_model_only_backend, resolve_backend_instance, _discover_backend_for_model.
  rewrite Hd. unfold mbind, stm_bind.
  destruct (filter_eligible_candidates_run resilience_coordinator disabled_backends model
    (discovered model) excluded st) as (f & σ & Hl & Hf).
  exists f, σ. split; [done|]. destruct (discovered model) as [|d0 ds] eqn:Ed.
  { rewrite filter_nil_run in Hl |- *. injection Hl as <- Hst. left.
    split_and!; [done|done|by destruct st; simplify_eq/=|done|done]. }
  rewrite Hl. destruct f as [l|e]; [|done]. destruct Hf as (_ & Hall & _).
  destruct l as [|c0 l0]; [right; left|right; right].
  { split; [done|]. split; [done|]. split; [|done]. eexists. split; [done|]. split; reflexivity. }
  unfold lift. destruct (rank_total model (c0 :: l0)) as [[buckets Hb]|[Hb Ho]]; rewrite Hb; [right|by left].
  destruct (rank_nonempty routing_config model (c0 :: l0) buckets Hb) as (top & rest & -> & Htop); [done|].
  apply rank_shape in Hb as Hshape. destruct Hshape as [Hp _].
  assert (∀ x, x ∈ top → x ∈ c0 :: l0) as Hin.
  { intros x Hx. rewrite -Hp /= elem_of_app. by left. }
  destruct (select_member ("model:" +:+ model) top excluded (MkRouting (_rr_counters st) σ)) as (x & Hx & Hs & Heq);
    [done|intros x Hx; apply Hall; by apply Hin|].
  exists top, rest, x. split; [done|]. split; [done|]. split; [by apply Hin|]. simpl. rewrite Heq Hs. done.
Qed.

Lemma filtered_discovered model excluded st l :
  fst (eligible_filter model (discovered model) excluded st) = Ok l → ∀ x, x ∈ l → x ∈ discovered model.
Proof.
  destruct (filter_eligible_candidates_run resilience_coordinator disabled_backends model
    (discovered model) excluded st) as (f & σ & -> & Hf).
  simpl. intros -> x Hx. destruct Hf as (Hsub & _). rewrite -discovered_sorted. by eapply elem_of_sublist.
Qed.

(** C24: A model-only request gets an instance that serves the model, is neither
    excluded nor disabled and is let through by the resilience coordinator, or a
    routing error whose status tells why: 403 by policy, 404 for a model nobody
    serves, 503 when every candidate was filtered out.  Two other errors can leave
    the service: one that an availability check raised, and the overflow of an
    integer cost or priority beyond the range of floats that is configured for a
    candidate. *)
Theorem model_only_outcome model excluded st :
  let '(r, _) := model_only model excluded st in
  match r with
  | Ok x => disable_model_names routing_config = false ∧ x ∈ discovered model ∧
      allowed disabled_backends excluded x ∧ ∃ σ, proceeds resilience_coordinator x model σ
  | Err e =>
      if disable_model_names routing_config then ex_class e = RoutingError ∧ ex_status_code e = 403%Z
      else if decide (discovered model = []) then ex_class e = RoutingError ∧ ex_status_code e = 404%Z
      else match fst (eligible_filter model (discovered model) excluded st) with
           | Ok [] => ex_class e = RoutingError ∧ ex_status_code e = 503%Z
           | Ok (_ :: _) => e = overflow_error ∧ score_overflows (discovered model)
           | Err e' => e = e' ∧ coordinator_raises resilience_coordinator e
           end
  end.
Proof.
  destruct (disable_model_names routing_config) eqn:Hd.
  { unfold resolve_model_only_backend. rewrite Hd. split; reflexivity. }
  destruct (filter_eligible_candidates_run resilience_coordinator disabled_backends model
    (discovered model) excluded st) as (f' & σ' & Hl' & Hf).
  pose proof (filtered_discovered model excluded st) as Hdis.
  destruct (model_only_run model excluded st Hd) as (f & σ & Hl & Hcases).
  rewrite Hl in Hl', Hdis. injection Hl' as <- _. rewrite Hl. simpl in Hdis. destruct f as [l|e]; simpl.
  - specialize (Hdis l eq_refl). destruct Hcases as [(-> & He & _ & -> & _)|[(-> & Hne & (e & -> & Hc & Hs) & _)|
      [(Hne & (c & pol & Hin & Hov) & -> & _)|(top & rest & x & _ & _ & Hx & -> & _)]]].
    + by rewrite decide_True.
    + by rewrite decide_False.
    + destruct l as [|c0 l0]; [done|]. rewrite decide_False.
      { intros E. rewrite E in Hdis. by specialize (Hdis c Hin); apply elem_of_nil in Hdis. }
      split; [done|]. exists c, pol. split; [by apply Hdis|done].
    + destruct Hf as (_ & Hall & _). split; [done|]. split; [by apply Hdis|by apply Hall].
  - destruct Hcases as (Hr & -> & _). rewrite decide_False; [|done].
    intros E. rewrite E filter_nil_run in Hl. done.
Qed.

(** The two model-only entry points agree: [resolve_backend_instance] without a
    backend gives the instance [resolve_model_only_backend] gives, moves the same
    counter, gives none where the other raises 404 or 503, and raises what else
    the other raises. *)
Theorem model_only_paths_agree model excluded st :
  let '(r, st') := model_only model excluded st in
  ∃ r', resolve None model excluded st = (r', st') ∧
  match r with
  | Ok x => r' = Ok (Some x)
  | Err e => r' = Err e ∧ (ex_class e = RoutingError ∧ ex_status_code e = 403%Z ∨ escapes (discovered model) e) ∨
      r' = Ok None ∧ ex_class e = RoutingError ∧ (ex_status_code e = 404%Z ∨ ex_status_code e = 503%Z)
  end.
Proof.
  destruct (disable_model_names routing_config) eqn:Hd.
  { unfold resolve_backend_instance, resolve_model_only_backend. rewrite Hd. eexists. split; [done|].
    left. split; [done|]. by left. }
  pose proof (filtered_discovered model excluded st) as Hdis.
  destruct (model_only_run model excluded st Hd) as (f & σ & Hl & Hc). rewrite Hl in Hdis.
  destruct f as [l|e]; simpl in Hdis.
  - destruct Hc as [(_ & _ & _ & -> & ->)|[(_ & _ & (e & -> & Hcl & Hs) & ->)|
      [(_ & (c & pol & Hin & Hov) & -> & ->)|(top & rest & x & _ & _ & _ & -> & ->)]]];
      eexists; (split; [done|]); [right; split; [done|]; by split; [|left]|right; by auto| |done].
    left. split; [done|]. right. right. split; [done|]. exists c, pol. split; [by eapply Hdis|done].
  - destruct Hc as (Hr & -> & ->). eexists. split; [done|]. left. split; [done|]. right. by left.
Qed.

(** With numeric scores, the instance chosen by cost or priority scores at least as
    much as every eligible candidate. *)
Theorem model_only_picks_best model excluded st sc x st' eligible :
  model_only model excluded st = (Ok x, st') →
  fst (eligible_filter model (discovered model) excluded st) = Ok eligible →
  let policy := _select_preference_policy routing_config model eligible in
  policy ≠ round_robin →
  (∀ c, c ∈ eligible → _score_candidate routing_config c policy = Ok (sc c) ∧ sc c ≠ FNan) →
  x ∈ eligible ∧ ∀ y, y ∈ eligible → float_leb (sc y) (sc x) = true.
Proof.
  intros Hok He policy Hp Hsc.
  destruct (disable_model_names routing_config) eqn:Hd.
  { unfold resolve_model_only_backend in Hok. by rewrite Hd in Hok. }
  destruct (filter_eligible_candidates_run resilience_coordinator disabled_backends model
    (discovered model) excluded st) as (l' & σ' & Hl' & Hsub).
  destruct (model_only_run model excluded st Hd) as (l & σ & Hl & Hcases).
  rewrite Hl in Hl', He. simplify_eq/=. rename eligible into l. destruct Hsub as [Hsub _].
  destruct Hcases as [(_ & _ & _ & Hm & _)|[(_ & _ & (e & Hm & _) & _)|[(_ & _ & Hm & _)|
    (top & rest & x' & Hrank & Htop & Hxl & Hm & _)]]]; rewrite Hok in Hm; simplify_eq.
  split; [done|]. intros y Hy.
  assert (NoDup l) as Hnd by (eapply sublist_NoDup; [apply NoDup_sorted_set|done]).
  destruct (rank_ranked routing_config model l sc Hnd) as (bs & Hbs & _ & Hrk); [by intros ->; set_solver|done|].
  rewrite Hrank in Hbs. simplify_eq. destruct (Hrk Hp) as [Heq Hlt].
  apply rank_shape in Hrank as [Hperm _]. rewrite -Hperm /= elem_of_app elem_of_concat in Hy.
  apply Forall_cons in Heq as [Heq _]. apply StronglySorted_cons in Hlt as [Hlt _].
  rewrite Forall_forall in Hlt. destruct Hy as [Hy|(b & Hyb & Hb)].
  - by apply float_eqb_true, Heq.
  - specialize (Hlt b Hb x' y Htop Hyb). by apply andb_true_iff in Hlt as [? _].
Qed.

(** What a failed request's failover is offered. *)
Lemma alternatives_run model exclude st :
  ∃ r σ, alternatives_for routing_config capability_index resilience_coordinator disabled_backends
      model exclude st = (r, MkRouting (_rr_counters st) σ) ∧
    match r with
    | Ok l => NoDup l ∧
        (∀ x, x ∈ l → x ∈ discovered model ∧ allowed disabled_backends exclude x ∧
           ∃ σ', proceeds resilience_coordinator x model σ') ∧
        ∃ eligible, fst (eligible_filter model (discovered model) exclude st) = Ok eligible ∧ l ≡ₚ eligible
    | Err e => escapes (discovered model) e
    end.
Proof.
  unfold alternatives_for, mbind, stm_bind. pose proof (filtered_discovered model exclude st) as Hdis.
  destruct (filter_eligible_candidates_run resilience_coordinator disabled_backends model
    (discovered model) exclude st) as ([l|e] & σ & Hrun & Hf); rewrite Hrun in Hdis |- *;
    [|eexists _, σ; split; [done|]; by left].
  destruct Hf as (Hsub & Hall & _). specialize (Hdis l eq_refl). unfold lift.
  destruct (rank_total model l) as [[bs Hb]|[Hb (c & pol & Hc & Hov)]]; rewrite Hb; simpl;
    [|eexists _, σ; split; [done|]; right; split; [done|]; exists c, pol; split; [by apply Hdis|done]].
  apply rank_shape in Hb as [Hp _].
  assert (concat (sorted_strs <$> bs) ≡ₚ l) as Hperm.
  { rewrite -Hp. clear Hp. induction bs as [|b bs IH]; csimpl; [done|]. by rewrite IH sorted_strs_perm. }
  eexists _, σ. split; [done|]. split_and!.
  - rewrite Hperm. eapply sublist_NoDup; [apply NoDup_sorted_set|done].
  - intros x. rewrite Hperm. intros Hx. split; [by apply Hdis|by apply Hall].
  - by exists l.
Qed.

Lemma find_instances_spec backend x :
  x ∈ _find_instances_for_backend backend → startswith (backend +:+ ".") x = true ∧ x ∈ iter_backend_names.
Proof.
  unfold _find_instances_for_backend. intros Hx%collapse_elem.
  rewrite elem_of_sorted_strs list_elem_of_filter elem_of_elements in Hx. done.
Qed.

Lemma resolve_generic_run backend model excluded st :
  ∃ r st', _resolve_generic_backend resilience_coordinator disabled_backends backend model excluded st = (r, st') ∧
    match r with
    | Ok (Some x) =>
        allowed disabled_backends excluded x ∧ (∃ σ, proceeds resilience_coordinator x model σ) ∧
        (x = backend ∨ startswith (backend +:+ ".") x = true ∧ x ∈ iter_backend_names)
    | Ok None => True
    | Err e => coordinator_raises resilience_coordinator e
    end.
Proof.
  unfold _resolve_generic_backend, mbind, stm_bind.
  destruct (filter_eligible_candidates_run resilience_coordinator disabled_backends model
    (_find_instances_for_backend backend) excluded st) as ([l|e] & σ & -> & Hf); [|by eexists _, _].
  destruct Hf as (Hsub & Hall & _). destruct l as [|c0 l0].
  - case_decide as Hb; [by eexists (Ok None), _|].
    destruct (candidate_eligible_run resilience_coordinator disabled_backends backend model excluded
      (MkRouting (_rr_counters st) σ)) as ([b|e] & σ' & -> & Hiff); [|by eexists _, _].
    eexists (Ok _), _. split; [done|]. destruct b; [|done].
    destruct Hiff as [[Ha Hp] _]; [done|]. split; [done|]. split; [by eexists|by left].
  - destruct (select_member backend (c0 :: l0) excluded (MkRouting (_rr_counters st) σ)) as (x & Hx & -> & _);
      [done|intros y Hy; by apply Hall|].
    eexists (Ok _), _. split; [done|]. destruct (Hall x Hx) as [Ha Hp]. split; [done|].
    split; [done|]. right. apply find_instances_spec.
    apply (elem_of_sublist _ _ _ Hx) in Hsub. by rewrite elem_of_sorted_set in Hsub.
Qed.

Lemma discover_backend_run model excluded st :
  ∃ r st', _discover_backend_for_model routing_config capability_index resilience_coordinator
      disabled_backends model excluded st = (r, st') ∧
    match r with
    | Ok (Some x) => x ∈ discovered model ∧ allowed disabled_backends excluded x ∧
        ∃ σ, proceeds resilience_coordinator x model σ
    | Ok None => True
    | Err e => escapes (discovered model) e
    end.
Proof.
  unfold _discover_backend_for_model, mbind, stm_bind. pose proof (filtered_discovered model excluded st) as Hdis.
  destruct (filter_eligible_candidates_run resilience_coordinator disabled_backends model
    (discovered model) excluded st) as ([l|e] & σ & Hrun & Hf); rewrite Hrun in Hdis |- *;
    [|eexists _, _; split; [done|]; by left].
  specialize (Hdis l eq_refl). destruct Hf as (Hsub & Hall & _).
  destruct l as [|c0 l0]; [by eexists (Ok None), _|]. unfold lift.
  destruct (rank_total model (c0 :: l0)) as [[bs Hb]|[Hb (c & pol & Hc & Hov)]]; rewrite Hb;
    [|eexists _, _; split; [done|]; right; split; [done|]; exists c, pol; split; [by apply Hdis|done]].
  destruct (rank_nonempty routing_config model (c0 :: l0) bs Hb) as (top & rest & -> & Htop); [done|].
  apply rank_shape in Hb as [Hp _].
  assert (∀ x, x ∈ top → x ∈ c0 :: l0) as Hin by (intros x Hx; rewrite -Hp /= elem_of_app; by left).
  destruct (select_member ("model:" +:+ model) top excluded (MkRouting (_rr_counters st) σ)) as (x & Hx & -> & _);
    [done|intros y Hy; by apply Hall, Hin|].
  eexists (Ok _), _. split; [done|]. split; [by apply Hdis, Hin|by apply Hall, Hin].
Qed.

(** Resolution raises by policy, with a 403, or what escapes the service, and never
    answers with an excluded backend.  An explicit instance is taken as named; any
    other answer is not disabled and was let through by the resilience
    coordinator, and is the requested backend or one of its instances, or a
    candidate for the model. *)
Theorem resolve_respects_limits backend_type model excluded st :
  let '(r, _) := resolve backend_type model excluded st in
  match r with
  | Err e => ex_class e = RoutingError ∧ ex_status_code e = 403%Z ∨ escapes (discovered model) e
  | Ok None => True
  | Ok (Some x) => x ∉ excluded ∧
      (backend_type = Some x ∧ str_contains "." x = true ∨
       (x ∉ default ∅ disabled_backends ∧ (∃ σ, proceeds resilience_coordinator x model σ) ∧
        match backend_type with
        | None | Some "" => x ∈ discovered model
        | Some backend => x = backend ∨ startswith (backend +:+ ".") x = true ∧ x ∈ iter_backend_names
        end))
  end.
Proof.
  unfold resolve_backend_instance.
  destruct (discover_backend_run model excluded st) as (rd & std & Hrd & Hd).
  destruct backend_type as [[|c s]|].
  - simpl. destruct (disable_model_names _); [by left|]. rewrite Hrd. destruct rd as [[x|]|e]; [|done|by right].
    destruct Hd as (? & [? ?] & ?). auto.
  - cbn [is_empty]. destruct (str_contains "." (String c s)) eqn:Hdot.
    + destruct (orb _ _); [by left|]. simpl. case_decide; [done|]. auto.
    + destruct (disable_backend_names _); [by left|].
      destruct (resolve_generic_run (String c s) model excluded st) as (r & st' & -> & Hg).
      destruct r as [[x|]|e]; [|done|right; by left]. destruct Hg as ([? ?] & ? & ?). auto.
  - destruct (disable_model_names _); [by left|]. rewrite Hrd. destruct rd as [[x|]|e]; [|done|by right].
    destruct Hd as (? & [? ?] & ?). auto.
Qed.
End resolution.

(** ** Configuration and diagnostics *)

Lemma override_keys_ok l :
  od_ok (validate_override_keys l) ∧
  ∀ k p, (k, p) ∈ validate_override_keys l → k ≠ "" ∧ stripped k.
Proof.
  unfold validate_override_keys. induction l as [|[k p] l [IH1 IH2]] using rev_ind.
  { split; [constructor|]. set_solver. }
  rewrite foldl_app /=. set (d := foldl _ [] l) in *.
  destruct (is_empty (strip k)) eqn:He; [done|]. split; [by apply od_set_ok|].
  intros k' p' Hin. assert (Forall (λ kp : str * preference_policy, kp.1 ≠ "" ∧ stripped kp.1)
    (od_set (strip k) p d)) as Hf; [|rewrite Forall_forall in Hf; by apply (Hf (k', p'))].
  apply od_set_Forall; [apply Forall_forall; intros [k1 p1] Hk1; by apply (IH2 k1 p1)|].
  split; [by intros Hn; simpl in Hn; rewrite Hn in He|apply strip_stripped].
Qed.

(** C26: A configuration that passes validation leaves a way to route, has
    non-negative numbers, and overrides with stripped, non-empty, distinct keys. *)
Theorem routing_config_valid c c' :
  mk_routing_config c = Ok c' →
  (disable_backend_names c' = false ∨ disable_model_names c' = false) ∧
  float_neg (model_only_missing_cost c') = false ∧
  float_neg (capability_refresh_interval_seconds c') = false ∧
  float_neg (capability_refresh_backoff_seconds c') = false ∧
  Forall (λ l : list (str * preference_policy), od_ok l ∧ ∀ k p, (k, p) ∈ l → k ≠ "" ∧ stripped k)
    [model_only_model_overrides c'; model_only_backend_family_overrides c'].
Proof.
  unfold mk_routing_config, validate_missing_cost, validate_refresh_seconds.
  destruct (float_neg (model_only_missing_cost c)) eqn:H1; [done|]. cbn.
  destruct (float_neg (capability_refresh_interval_seconds c)) eqn:H2; [done|]. cbn.
  destruct (float_neg (capability_refresh_backoff_seconds c)) eqn:H3; [done|]. cbn.
  destruct (disable_backend_names c && disable_model_names c) eqn:Hb; [done|]. intros [= <-]. cbn.
  apply andb_false_iff in Hb. split_and!; try done.
  constructor; [apply override_keys_ok|]. constructor; [apply override_keys_ok|constructor].
Qed.

(** The diagnostics are bounded: at most the limit of models and of instances per
    model, and what was left out is counted. *)
Theorem diagnostics_bounded `{ConfigProvider} {Σ : Type} routing_config capability_index
    (resilience_coordinator : option (str → str → Σ → res exn bool * Σ)) disabled_backends
    model_limit instances_limit (st st' : routing_state Σ) d :
  build_model_eligibility_diagnostics routing_config capability_index resilience_coordinator
    disabled_backends model_limit instances_limit st = (Ok d, st') →
  _rr_counters st' = _rr_counters st ∧
  (Z.of_nat (length (dg_model_eligibility d)) <= Z.max 1 model_limit)%Z ∧
  length (dg_model_eligibility d) + dg_models_omitted d =
    length (sorted_set (map_to_list (alias_to_canonical capability_index)).*2) ∧
  Forall (λ e, (Z.of_nat (length (el_eligible_instances e)) <= Z.max 1 instances_limit)%Z ∧
    length (el_eligible_instances e) + el_instances_omitted e = el_eligible_instance_count e)
    (dg_model_eligibility d).
Proof.
  assert (∀ limit models s r s', (1 <= limit)%Z →
    eligibility_all routing_config capability_index resilience_coordinator disabled_backends limit models s = (Ok r, s') →
    _rr_counters s' = _rr_counters s ∧ length r = length models ∧
    Forall (λ e, (Z.of_nat (length (el_eligible_instances e)) <= limit)%Z ∧
      length (el_eligible_instances e) + el_instances_omitted e = el_eligible_instance_count e) r) as Hall.
  { intros limit models s r s' Hlim. revert s r s'. induction models as [|m models IH]; intros s r s'; simpl.
    { unfold mret, stm_ret. intros [= <- <-]. repeat split; constructor. }
    unfold eligibility_of, mbind, stm_bind.
    destruct (filter_eligible_candidates_run resilience_coordinator disabled_backends m
      (sorted_set (get_candidates capability_index m)) ∅ s) as ([l|e] & σ & -> & _); [|done].
    unfold lift. destruct (_rank_model_candidates routing_config m l) as [bs|e]; [|done]. cbn.
    destruct (eligibility_all _ _ _ _ _ _ _) as [[r1|e1] s1] eqn:Ha; [|done].
    intros [= <- <-]. apply IH in Ha as (Hc & Hl & Hf). simpl in Hc |- *. split; [done|]. split; [by rewrite Hl|].
    constructor; [|done]. simpl. rewrite length_take. lia. }
  unfold build_model_eligibility_diagnostics, mbind, stm_bind.
  destruct (eligibility_all _ _ _ _ _ _ _) as [[r1|e1] s1] eqn:Ha; [|done]. intros [= <- <-]. simpl.
  apply Hall in Ha as (Hc & Hl & Hf); [|lia]. rewrite length_take in Hl. rewrite length_take.
  split_and!; [done|lia|lia|done].
Qed.

(** ** Witnesses *)

Definition priced (models : list str) (c : Z) : option BackendConfig :=
  Some (MkBackendConfig "openai" models (Some [("routing_cost", JInt c)])).

Definition sample_routing_provider : ConfigProvider := {|
  iter_backend_names := {[ "openai.1"; "openai.2"; "openai.3"; "qwen-oauth.1" ]};
  iter_configured_backend_names := ["openai.1"; "openai.2"; "openai.3"; "qwen-oauth.1"];
  get_backend_config name :=
    if String.eqb name "openai.1" then priced ["gpt-4"] 5
    else if String.eqb name "openai.2" then priced ["gpt-4"] 3
    else if String.eqb name "openai.3" then priced ["openai/gpt-4"] 3
    else None
|}.

Definition sample_index : ModelCapabilitySnapshot := from_config_provider (H := sample_routing_provider) 0.

Definition by_cost : RoutingConfig :=
  MkRoutingConfig false false false cost [] [] (FDec 1000000 0) 0 (FDec 0 0) (FDec 30 0).

(** A coordinator that counts its checks and refuses [openai.3]. *)
Definition sample_coordinator : option (str → str → nat → res exn bool * nat) :=
  Some (λ candidate _ n, (Ok (negb (String.eqb candidate "openai.3")), S n)).

Definition sample_routing : routing_state nat := MkRouting ∅ 0.

Lemma round_robin_fair_witness :
  ∃ xs st', select_calls [("a", ["x"; "y"]); ("b", ["z"]); ("a", ["x"; "y"])] (MkRouting {[ "a" := 7 ]} 0) = (Ok xs, st') ∧
    answers_for "a" [("a", ["x"; "y"]); ("b", ["z"]); ("a", ["x"; "y"])] xs ≡ₚ concat (replicate 1 ["x"; "y"]).
Proof.
  apply (round_robin_fair [("a", ["x"; "y"]); ("b", ["z"]); ("a", ["x"; "y"])] (MkRouting {[ "a" := 7 ]} 0)
    "a" ["x"; "y"] 1); [repeat constructor; discriminate|discriminate|repeat constructor|reflexivity].
Defined.

Definition sample_scores (c : str) : pyfloat := FDec (if String.eqb c "openai.1" then -5 else -3)%Z 0.

Lemma rank_exact_witness :
  ∃ buckets, _rank_model_candidates (H := sample_routing_provider) by_cost "gpt-4"
      ["openai.1"; "openai.3"; "openai.2"] = Ok buckets ∧
    concat buckets ≡ₚ ["openai.1"; "openai.3"; "openai.2"].
Proof.
  destruct (rank_exact (H := sample_routing_provider) by_cost "gpt-4" ["openai.1"; "openai.3"; "openai.2"]
    sample_scores) as (bs & Hbs & Hp & _).
  - by apply (bool_decide_unpack _).
  - discriminate.
  - intros c Hc. repeat (apply elem_of_cons in Hc as [->|Hc]); [vm_compute; split; [reflexivity|discriminate]..|].
    by apply elem_of_nil in Hc.
  - exists bs. by split.
Defined.

Lemma model_only_outcome_witness :
  fst (resolve_model_only_backend (H := sample_routing_provider) by_cost sample_index sample_coordinator
    None [] (λ _ _, None) "gpt-4" {[ "openai.2" ]} sample_routing) = Ok "openai.1" ∧
  "openai.1" ∈ _discover_model_candidates (H := sample_routing_provider) sample_index "gpt-4".
Proof.
  pose proof (model_only_outcome (H := sample_routing_provider) by_cost sample_index sample_coordinator
    None [] (λ _ _, None) "gpt-4" {[ "openai.2" ]} sample_routing) as Ho.
  split; [vm_compute; reflexivity|].
  destruct (resolve_model_only_backend _ _ _ _ _ _ _ _ _) as [r st'] eqn:E.
  assert (r = Ok "openai.1") as -> by (change r with (fst (r, st')); rewrite <-E; vm_compute; reflexivity).
  apply Ho.
Defined.

Lemma model_only_picks_best_witness :
  float_leb (sample_scores "openai.1") (sample_scores "openai.2") = true.
Proof.
  destruct (model_only_picks_best (H := sample_routing_provider) by_cost sample_index sample_coordinator
    None [] (λ _ _, None) "gpt-4" ∅ sample_routing sample_scores "openai.2"
    (MkRouting {[ "model:gpt-4" := 1 ]} 3) ["openai.1"; "openai.2"]) as [_ Hbest].
  - vm_compute. reflexivity.
  - vm_compute. reflexivity.
  - vm_compute. discriminate.
  - intros c Hc. repeat (apply elem_of_cons in Hc as [->|Hc]); [vm_compute; split; [reflexivity|discriminate]..|].
    by apply elem_of_nil in Hc.
  - apply Hbest. by left.
Defined.

Lemma resolve_respects_limits_witness :
  fst (resolve_backend_instance (H := sample_routing_provider) by_cost sample_index sample_coordinator
    (Some {[ "openai.1" ]}) (Some "openai") "gpt-4" ∅ sample_routing) = Ok (Some "openai.2") ∧
  "openai.2" ∉ (∅ : gset string).
Proof.
  pose proof (resolve_respects_limits (H := sample_routing_provider) by_cost sample_index sample_coordinator
    (Some {[ "openai.1" ]}) (Some "openai") "gpt-4" ∅ sample_routing) as Ho.
  split; [vm_compute; reflexivity|].
  destruct (resolve_backend_instance _ _ _ _ _ _ _ _) as [r st'] eqn:E.
  assert (r = Ok (Some "openai.2")) as -> by (change r with (fst (r, st')); rewrite <-E; vm_compute; reflexivity).
  by destruct Ho as [Ho _].
Defined.

Lemma routing_config_valid_witness :
  float_neg (model_only_missing_cost by_cost) = false.
Proof. by destruct (routing_config_valid by_cost by_cost eq_refl) as (_ & Hc & _). Defined.

(** Also when instances of a backend are configured but none is eligible, the bare
    backend name is the answer, although it is not configured. *)
Theorem generic_fallback_when_filtered :
  fst (resolve_backend_instance (H := sample_routing_provider) by_cost sample_index sample_coordinator
    (Some {[ "openai.1"; "openai.2"; "openai.3" ]}) (Some "openai") "gpt-4" ∅ sample_routing) =
  Ok (Some "openai") ∧
  "openai" ∉ iter_backend_names (ConfigProvider := sample_routing_provider).
Proof. split; [vm_compute; reflexivity|]. simpl. set_solver. Qed.

(** An integer cost beyond the range of floats is not replaced by the default cost:
    the conversion's [OverflowError] leaves the routing service. *)
Theorem huge_cost_escapes :
  let provider : ConfigProvider := {|
    iter_backend_names := {[ "openai.1" ]}; iter_configured_backend_names := ["openai.1"];
    get_backend_config name := priced ["gpt-4"] (10 ^ 400) |} in
  fst (resolve_model_only_backend (H := provider) by_cost (from_config_provider (H := provider) 0)
    (None : option (str → str → unit → res exn bool * unit)) None [] (λ _ _, None) "gpt-4" ∅ (MkRouting ∅ tt)) =
  Err overflow_error.
Proof. vm_compute. reflexivity. Qed.
