(* ===== verification/SelectorParser.v ===== *)
(** * The composite selector parser

    Models [src/core/services/composite_selector_parser.py]: a selector is a
    single leaf or a flat failover ([|]), weighted ([^]) or parallel ([!])
    group; each branch may carry bracketed prefix annotations.  Every raise of
    the source is an [Err]; the annotation loop runs on fuel that is shown to
    be enough. *)

From Stdlib Require Import Ascii.
From S2P Require Import Prelude PyStr PyDict CompositeDomain ModelUtils.
From stdpp Require Import options.

(** ** Errors *)

Definition _raise_validation_error {A} (code : CompositeValidationErrorCode)
    (selector message : str) : res composite_exn A :=
  Err (CompositeSelectorValidationError (mk_envelope code message selector)).

(** ** Operators outside brackets *)

Definition _COMPOSITE_OPERATORS : list ascii := ["|"%char; "^"%char; "!"%char].

Definition is_operator (c : ascii) : bool := existsb (Ascii.eqb c) _COMPOSITE_OPERATORS.

(** The bracket depth after one character. *)
Definition step_depth (c : ascii) (depth : nat) : nat :=
  if Ascii.eqb c "[" then S depth
  else if Ascii.eqb c "]" && (0 <? depth) then depth - 1
  else depth.

Fixpoint detect_primary_operator_go (depth : nat) (s : str) : option ascii :=
  match s with
  | "" => None
  | String c s' =>
      if Ascii.eqb c "[" then detect_primary_operator_go (S depth) s'
      else if Ascii.eqb c "]" && (0 <? depth) then detect_primary_operator_go (depth - 1) s'
      else if (depth =? 0) && is_operator c then Some c
      else detect_primary_operator_go depth s'
  end.
Definition _detect_primary_operator (selector : str) : option ascii :=
  detect_primary_operator_go 0 selector.

Fixpoint contains_operator_go (operator : ascii) (depth : nat) (s : str) : bool :=
  match s with
  | "" => false
  | String c s' =>
      if Ascii.eqb c "[" then contains_operator_go operator (S depth) s'
      else if Ascii.eqb c "]" && (0 <? depth) then contains_operator_go operator (depth - 1) s'
      else if (depth =? 0) && Ascii.eqb c operator then true
      else contains_operator_go operator depth s'
  end.
Definition _contains_operator_outside_brackets (selector : str) (operator : ascii) : bool :=
  contains_operator_go operator 0 selector.

Fixpoint split_top_level_go (operator : ascii) (depth : nat) (current s : str) : list str :=
  match s with
  | "" => [current]
  | String c s' =>
      let depth' := step_depth c depth in
      if Ascii.eqb c operator && (depth' =? 0)
      then current :: split_top_level_go operator depth' "" s'
      else split_top_level_go operator depth' (current +:+ String c "") s'
  end.
Definition _split_top_level (selector : str) (operator : ascii) : list str :=
  split_top_level_go operator 0 "" selector.

(** ** Annotations *)

Record _PrefixAnnotations : Type := MkAnnotations {
  ann_weight : option Z;
  ann_first : bool;
  ann_thinker : bool;
  ann_max_context : option Z;
  ann_handicap : option pyfloat;
  ann_ttft_timeout : option pyfloat
}.

Definition no_annotations : _PrefixAnnotations := MkAnnotations None false false None None None.

Definition _ANNOTATION_TRUE_VALUES : list str := ["true"; "yes"; "1"].
Definition _ANNOTATION_FALSE_VALUES : list str := ["false"; "no"; "0"].

Definition annotation_text (raw_value : option str) : str := strip (default "" raw_value).

(** The [ValueError] of [int] on a text of too many digits. *)
Definition int_limit_message (digits : nat) : str :=
  "Exceeds the limit (" +:+ str_of_N (N.of_nat MAX_STR_DIGITS) +:+
  " digits) for integer string conversion: value has " +:+ str_of_N (N.of_nat digits) +:+
  " digits; use sys.set_int_max_str_digits() to increase the limit".

Definition _parse_positive_integer_annotation (key : str) (raw_value : option str)
    (source_selector : str) (error_code : CompositeValidationErrorCode) : res composite_exn Z :=
  let value_text := annotation_text raw_value in
  let invalid := "Invalid [" +:+ key +:+ "=N] annotation '" +:+ value_text +:+ "'." in
  if is_empty value_text then _raise_validation_error error_code source_selector invalid
  else match parse_int value_text with
       | None => _raise_validation_error error_code source_selector invalid
       | Some value =>
           if too_many_digits value_text
           then Err (PyValueError (int_limit_message (int_digits value_text)))
           else if (value <=? 0)%Z
           then _raise_validation_error error_code source_selector
                  (key +:+ " must be a positive integer, received " +:+ str_of_Z value +:+ ".")
           else Ok value
       end.

Definition _parse_non_negative_number_annotation (key : str) (raw_value : option str)
    (source_selector : str) (error_code : CompositeValidationErrorCode) :
    res composite_exn pyfloat :=
  let value_text := annotation_text raw_value in
  let invalid := "Invalid [" +:+ key +:+ "=N] annotation '" +:+ value_text +:+ "'." in
  if is_empty value_text then _raise_validation_error error_code source_selector invalid
  else match py_float value_text with
       | None => _raise_validation_error error_code source_selector invalid
       | Some value =>
           if float_neg value
           then _raise_validation_error error_code source_selector
                  (key +:+ " must be a non-negative number, received " +:+ value_text +:+ ".")
           else Ok value
       end.

(** [_parse_first_annotation] and [_parse_thinker_annotation] differ in the
    annotation's name and in the wording of the rejection. *)
Definition parse_flag_annotation (name accepted : str) (raw_value : option str)
    (source_selector : str) : res composite_exn bool :=
  match raw_value with
  | None => Ok true
  | Some raw =>
      let normalized_value := lower (strip raw) in
      if str_in normalized_value _ANNOTATION_TRUE_VALUES then Ok true
      else
        let unsupported :=
          "Unsupported [" +:+ name +:+ "] annotation '[" +:+ name +:+ "=" +:+ raw +:+ "]'. " in
        if str_in normalized_value _ANNOTATION_FALSE_VALUES
        then _raise_validation_error UNSUPPORTED_CONSTRUCT source_selector
               (unsupported +:+ "Use [" +:+ name +:+ "] without negation.")
        else _raise_validation_error UNSUPPORTED_CONSTRUCT source_selector (unsupported +:+ accepted)
  end.

Definition _parse_first_annotation : option str → str → res composite_exn bool :=
  parse_flag_annotation "first"
    "Accepted forms: [first], [first=1], [first=yes], [first=true].".

Definition _parse_thinker_annotation : option str → str → res composite_exn bool :=
  parse_flag_annotation "thinker"
    "Accepted forms: [thinker], [thinker=1], [thinker=yes], [thinker=true].".

(** One entry of a block as its lower-case key and its value. *)
Definition split_entry (entry : str) : str * option str :=
  match str_find "=" entry with
  | Some n => (lower (strip (str_take n entry)), Some (strip (str_drop (S n) entry)))
  | None => (lower (strip entry), None)
  end.

Definition duplicate_error {A} (source_selector what : str) : res composite_exn A :=
  _raise_validation_error UNSUPPORTED_CONSTRUCT source_selector
    ("Duplicate [" +:+ what +:+ "] annotations are not supported.").

(** The body of the loop over the entries of one block. *)
Definition annotate_entry (source_selector : str) (a : _PrefixAnnotations) (entry : str) :
    res composite_exn _PrefixAnnotations :=
  let '(key, raw_value) := split_entry entry in
  if String.eqb key "weight" then
    match ann_weight a with
    | Some _ => duplicate_error source_selector "weight=N"
    | None => w ← _parse_positive_integer_annotation "weight" raw_value source_selector INVALID_WEIGHT;
              Ok (MkAnnotations (Some w) (ann_first a) (ann_thinker a) (ann_max_context a)
                    (ann_handicap a) (ann_ttft_timeout a))
    end
  else if String.eqb key "max_context" then
    match ann_max_context a with
    | Some _ => duplicate_error source_selector "max_context=N"
    | None => m ← _parse_positive_integer_annotation "max_context" raw_value source_selector
                    INVALID_MAX_CONTEXT;
              Ok (MkAnnotations (ann_weight a) (ann_first a) (ann_thinker a) (Some m)
                    (ann_handicap a) (ann_ttft_timeout a))
    end
  else if String.eqb key "first" then
    if ann_first a then duplicate_error source_selector "first"
    else b ← _parse_first_annotation raw_value source_selector;
         Ok (MkAnnotations (ann_weight a) b (ann_thinker a) (ann_max_context a)
               (ann_handicap a) (ann_ttft_timeout a))
  else if String.eqb key "thinker" then
    if ann_thinker a then duplicate_error source_selector "thinker"
    else b ← _parse_thinker_annotation raw_value source_selector;
         Ok (MkAnnotations (ann_weight a) (ann_first a) b (ann_max_context a)
               (ann_handicap a) (ann_ttft_timeout a))
  else if String.eqb key "handicap" then
    match ann_handicap a with
    | Some _ => duplicate_error source_selector "handicap=N"
    | None => h ← _parse_non_negative_number_annotation "handicap" raw_value source_selector
                    INVALID_HANDICAP;
              Ok (MkAnnotations (ann_weight a) (ann_first a) (ann_thinker a) (ann_max_context a)
                    (Some h) (ann_ttft_timeout a))
    end
  else if String.eqb key "ttft_timeout" then
    match ann_ttft_timeout a with
    | Some _ => duplicate_error source_selector "ttft_timeout=N"
    | None => t ← _parse_non_negative_number_annotation "ttft_timeout" raw_value source_selector
                    INVALID_TTFT_TIMEOUT;
              Ok (MkAnnotations (ann_weight a) (ann_first a) (ann_thinker a) (ann_max_context a)
                    (ann_handicap a) (Some t))
    end
  else _raise_validation_error UNSUPPORTED_CONSTRUCT source_selector
         ("Unsupported annotation key '" +:+ key +:+ "'.").

Fixpoint annotate_entries (source_selector : str) (a : _PrefixAnnotations) (entries : list str) :
    res composite_exn _PrefixAnnotations :=
  match entries with
  | [] => Ok a
  | e :: entries' => a' ← annotate_entry source_selector a e;
                     annotate_entries source_selector a' entries'
  end.

(** The [while remaining.startswith("[")] loop. *)
Fixpoint prefix_loop (fuel : nat) (source_selector : str) (a : _PrefixAnnotations)
    (remaining : str) : res composite_exn (_PrefixAnnotations * str) :=
  if negb (startswith "[" remaining) then Ok (a, remaining)
  else match fuel with
  | 0 => Err OutOfFuel
  | S fuel' =>
      match str_find "]" remaining with
      | None | Some 0 =>
          _raise_validation_error SYNTAX_ERROR source_selector
            "Unclosed annotation prefix bracket in selector branch."
      | Some closing_index =>
          let annotation_block := strip (str_take (closing_index - 1) (str_drop 1 remaining)) in
          let trailing := str_drop (closing_index + 1) remaining in
          if is_empty annotation_block
          then _raise_validation_error UNSUPPORTED_CONSTRUCT source_selector
                 "Empty annotation block is not supported."
          else
            let entries := strip <$> split_char "," annotation_block in
            if existsb is_empty entries
            then _raise_validation_error UNSUPPORTED_CONSTRUCT source_selector
                   "Malformed annotation list in selector branch."
            else a' ← annotate_entries source_selector a entries;
                 prefix_loop fuel' source_selector a' trailing
      end
  end.

(** [remaining[0].isspace()], false on the empty string. *)
Definition starts_with_space (s : str) : bool :=
  match s with "" => false | String c _ => is_space c end.

Definition _extract_prefix_annotations (leaf_text source_selector : str) :
    res composite_exn (_PrefixAnnotations * str) :=
  '(a, remaining) ← prefix_loop (String.length leaf_text) source_selector no_annotations leaf_text;
  if startswith "[" leaf_text && (is_empty remaining || starts_with_space remaining)
  then _raise_validation_error UNSUPPORTED_CONSTRUCT source_selector
         "Annotation prefixes must appear immediately before a selector without whitespace."
  else Ok (a, strip remaining).

(** ** Formatting of parallel branches *)

Definition _format_annotation_number (value : pyfloat) : res composite_exn str :=
  match int_of_float value with
  | Err IntValueError => Err (PyValueError "cannot convert float NaN to integer")
  | Err IntOverflowError => Err PyOverflowError
  | Ok n => Ok (if float_eq_Z value n then str_of_Z n else str_of_float value)
  end.

Definition _format_parallel_leaf_for_plan (normalized_leaf_selector : str)
    (handicap_seconds ttft_timeout_seconds : pyfloat) : res composite_exn str :=
  part1 ← (if float_nonzero handicap_seconds
           then n ← _format_annotation_number handicap_seconds; Ok ["handicap=" +:+ n]
           else Ok []);
  part2 ← (if float_nonzero ttft_timeout_seconds
           then n ← _format_annotation_number ttft_timeout_seconds; Ok ["ttft_timeout=" +:+ n]
           else Ok []);
  match part1 ++ part2 with
  | [] => Ok normalized_leaf_selector
  | annotation_parts => Ok ("[" +:+ join "," annotation_parts +:+ "]" +:+ normalized_leaf_selector)
  end.

(** ** Leaves *)

Definition fzero : pyfloat := FDec 0 0.

Definition weighted_prefix (weight : Z) (a : _PrefixAnnotations) : str :=
  "[weight=" +:+ str_of_Z weight +:+ "]" +:+
  (if ann_first a then "[first]" else "") +:+
  (if ann_thinker a then "[thinker]" else "") +:+
  match ann_max_context a with
  | Some m => "[max_context=" +:+ str_of_Z m +:+ "]"
  | None => ""
  end.

Definition is_some {A} (o : option A) : bool := match o with Some _ => true | None => false end.

Section parser.
Context (parse_qs : str → option (list (str * list str))).

(** The leaf checks that follow annotation extraction. *)
Definition check_annotation_placement (routing_input : CompositeRoutingInput)
    (is_weighted_group is_parallel_group : bool) (a : _PrefixAnnotations) :
    res composite_exn unit :=
  let raise := _raise_validation_error UNSUPPORTED_CONSTRUCT (in_selector routing_input) in
  if is_some (ann_weight a) && negb is_weighted_group
  then raise "Weight annotations are only supported for weighted ('^') selectors."
  else if ann_first a && negb is_weighted_group
  then raise "First annotations are only supported for weighted ('^') selectors."
  else if ann_thinker a && negb is_weighted_group
  then raise "Thinker annotations are only supported for weighted ('^') selectors."
  else if is_some (ann_handicap a) && negb is_parallel_group
  then raise "Handicap annotations are only supported for parallel ('!') selectors."
  else if is_some (ann_ttft_timeout a) && negb is_parallel_group
  then raise "[ttft_timeout] annotations are only supported for parallel ('!') selectors."
  else Ok tt.

Definition check_leaf_target (routing_input : CompositeRoutingInput)
    (normalized_leaf_selector : str) (parsed_leaf : ParsedModelWithParams) :
    res composite_exn unit :=
  let raise := _raise_validation_error INVALID_LEAF normalized_leaf_selector in
  let explicit := has_explicit_backend_selector normalized_leaf_selector in
  if in_require_explicit_backend routing_input && negb explicit
  then raise "Selector must use explicit backend:model syntax for this routing surface."
  else if explicit then
    if is_empty (strip (pp_backend_type parsed_leaf)) || is_empty (strip (pp_model_name parsed_leaf))
    then raise "Explicit backend selector must contain both backend and model segments."
    else Ok tt
  else if is_empty (strip (pp_model_name parsed_leaf))
  then raise "Leaf selector model segment cannot be empty."
  else Ok tt.

(** [_parse_leaf]; the result pairs the leaf with its text in the plan
    ([_LeafParseResult]). *)
Definition _parse_leaf (routing_input : CompositeRoutingInput)
    (is_weighted_group is_parallel_group : bool) (leaf_text : str) :
    res composite_exn (CompositeLeafSelector * str) :=
  let raw_leaf_text := strip leaf_text in
  if is_empty raw_leaf_text
  then _raise_validation_error SYNTAX_ERROR (in_selector routing_input)
         "Composite selector contains an empty branch."
  else
  '(annotations, normalized_leaf_selector) ←
    _extract_prefix_annotations raw_leaf_text (in_selector routing_input);
  _ ← check_annotation_placement routing_input is_weighted_group is_parallel_group annotations;
  let handicap_seconds := default fzero (ann_handicap annotations) in
  let ttft_timeout_seconds := default fzero (ann_ttft_timeout annotations) in
  let weight_annotation :=
    if is_weighted_group then Some (default 1%Z (ann_weight annotations)) else ann_weight annotations in
  normalized_leaf_for_plan ←
    (if is_weighted_group
     then Ok (weighted_prefix (default 1%Z (ann_weight annotations)) annotations
              +:+ normalized_leaf_selector)
     else if is_parallel_group
     then _format_parallel_leaf_for_plan normalized_leaf_selector handicap_seconds
            ttft_timeout_seconds
     else match ann_max_context annotations with
          | Some m => Ok ("[max_context=" +:+ str_of_Z m +:+ "]" +:+ normalized_leaf_selector)
          | None => Ok raw_leaf_text
          end);
  let parsed_leaf :=
    parse_model_with_params parse_qs normalized_leaf_selector (in_default_backend routing_input) in
  _ ← check_leaf_target routing_input normalized_leaf_selector parsed_leaf;
  leaf ← mk_leaf_selector (MkLeaf raw_leaf_text normalized_leaf_selector
           (if is_weighted_group then weight_annotation else None)
           (if is_weighted_group then ann_first annotations else false)
           (if is_weighted_group then ann_thinker annotations else false)
           (ann_max_context annotations) handicap_seconds ttft_timeout_seconds
           (pp_uri_params parsed_leaf) (pp_backend_type parsed_leaf) (pp_model_name parsed_leaf)
           None);
  Ok (leaf, normalized_leaf_for_plan).

Definition contains_any_operator (s : str) : bool :=
  existsb (_contains_operator_outside_brackets s) _COMPOSITE_OPERATORS.

(** The opaque executor side of [[thinker]x^executor]. *)
Definition mk_embedded_leaf (raw normalized : str) (max_context : option Z) :
    res composite_exn (CompositeLeafSelector * str) :=
  leaf ← mk_leaf_selector (MkLeaf raw normalized (Some 1%Z) false false max_context fzero fzero
           [] "" "" (Some normalized));
  Ok (leaf, "[weight=1]" +:+ normalized).

Definition _parse_leaf_allowing_embedded_selector (routing_input : CompositeRoutingInput)
    (leaf_text : str) : res composite_exn (CompositeLeafSelector * str) :=
  let raw_leaf_text := strip leaf_text in
  if is_empty raw_leaf_text
  then _raise_validation_error SYNTAX_ERROR (in_selector routing_input)
         "Composite selector contains an empty branch."
  else if negb (startswith "[thinker]" raw_leaf_text) && contains_any_operator raw_leaf_text
  then mk_embedded_leaf raw_leaf_text raw_leaf_text None
  else
  '(annotations, normalized_leaf_selector) ←
    _extract_prefix_annotations raw_leaf_text (in_selector routing_input);
  if is_some (ann_weight annotations) || ann_first annotations
  then _parse_leaf routing_input true false raw_leaf_text
  else if ann_thinker annotations then _parse_leaf routing_input true false raw_leaf_text
  else if contains_any_operator normalized_leaf_selector then
    if is_some (ann_handicap annotations) || is_some (ann_ttft_timeout annotations)
    then _raise_validation_error UNSUPPORTED_CONSTRUCT (in_selector routing_input)
           "Executor-route annotations must be inside the embedded selector."
    else mk_embedded_leaf raw_leaf_text normalized_leaf_selector (ann_max_context annotations)
  else _parse_leaf routing_input true false raw_leaf_text.

(** ** Plans *)

Definition mk_group_plan (routing_input : CompositeRoutingInput) (operator : str)
    (mk_group : list CompositeLeafSelector → res composite_exn CompositeNode)
    (leaves : list (CompositeLeafSelector * str)) : res composite_exn CompositeRoutePlan :=
  root ← mk_group leaves.*1;
  mk_plan (in_selector routing_input) (join operator leaves.*2) root.

Definition _try_parse_thinker_side_channel_selector (routing_input : CompositeRoutingInput)
    (parts : list str) : res composite_exn (option CompositeRoutePlan) :=
  if negb (length parts =? 2) then Ok None
  else
  parsed_parts ← mapM (_parse_leaf_allowing_embedded_selector routing_input) parts;
  let thinker_parts := filter (λ p, leaf_thinker_annotation p.1 = true) parsed_parts in
  let executor_parts := filter (λ p, leaf_thinker_annotation p.1 = false) parsed_parts in
  match thinker_parts, executor_parts with
  | [_], [executor] =>
      if is_empty (default "" (leaf_embedded_selector executor.1)) then Ok None
      else Some <$> mk_group_plan routing_input "^" mk_weighted_group parsed_parts
  | _, _ => Ok None
  end.

(** The three checks on the branches of a weighted group. *)
Definition check_weighted_group (routing_input : CompositeRoutingInput)
    (leaves : list CompositeLeafSelector) : res composite_exn unit :=
  let raise := _raise_validation_error UNSUPPORTED_CONSTRUCT (in_selector routing_input) in
  if 1 <? length (filter (λ l, leaf_first_annotation l = true) leaves)
  then raise "Only one branch can have a [first] annotation in a weighted group."
  else if 1 <? length (filter (λ l, leaf_thinker_annotation l = true) leaves)
  then raise "Only one branch can have a [thinker] annotation in a weighted group."
  else if existsb (λ l, leaf_first_annotation l && leaf_thinker_annotation l) leaves
  then raise ("A thinker branch cannot also have a [first] annotation; " +:+
              "there is no prior session context to reflect on during the first turn.")
  else Ok tt.

Definition mixes_operators (operator : ascii) (parts : list str) : bool :=
  existsb (λ segment,
    existsb (_contains_operator_outside_brackets segment)
      (filter (λ o, o ≠ operator) _COMPOSITE_OPERATORS)) parts.

Definition parse (routing_input : CompositeRoutingInput) : res composite_exn CompositeRoutePlan :=
  let selector := strip (in_selector routing_input) in
  if is_empty selector
  then _raise_validation_error SYNTAX_ERROR (in_selector routing_input)
         "Composite selector cannot be empty."
  else match _detect_primary_operator selector with
  | None =>
      '(leaf, normalized) ← _parse_leaf routing_input false false selector;
      mk_plan (in_selector routing_input) normalized (LeafNode leaf)
  | Some operator =>
      let parts := _split_top_level selector operator in
      let mixed_error :=
        _raise_validation_error UNSUPPORTED_CONSTRUCT selector
          ("Composite selector cannot mix failover ('|'), weighted ('^'), " +:+
           "and parallel ('!') operators in one string.") in
      if mixes_operators operator parts then
        if Ascii.eqb operator "^" then
          special_plan ← _try_parse_thinker_side_channel_selector routing_input parts;
          match special_plan with
          | Some plan => Ok plan
          | None => mixed_error
          end
        else mixed_error
      else if Ascii.eqb operator "|" then
        leaves ← mapM (_parse_leaf routing_input false false) parts;
        mk_group_plan routing_input "|" mk_failover_group leaves
      else if Ascii.eqb operator "^" then
        leaves ← mapM (_parse_leaf routing_input true false) parts;
        _ ← check_weighted_group routing_input leaves.*1;
        mk_group_plan routing_input "^" mk_weighted_group leaves
      else if Ascii.eqb operator "!" then
        if existsb (λ segment, _contains_operator_outside_brackets segment "!") parts
        then _raise_validation_error UNSUPPORTED_CONSTRUCT selector
               "Parallel ('!') operator cannot appear inside a branch selector."
        else
        leaves ← mapM (_parse_leaf routing_input false true) parts;
        mk_group_plan routing_input "!" mk_parallel_group leaves
      else _raise_validation_error SYNTAX_ERROR selector
             "Composite selector contains an unsupported operator token."
  end.
End parser.

(** ** Scanning: splitting and operator detection agree *)

Fixpoint depth_after (depth : nat) (s : str) : nat :=
  match s with
  | "" => depth
  | String c s' => depth_after (step_depth c depth) s'
  end.

(** A character that is not a bracket: the operators are. *)
Definition plain_char (c : ascii) : Prop := c ≠ "["%char ∧ c ≠ "]"%char.

Lemma depth_after_app d s t : depth_after d (s +:+ t) = depth_after (depth_after d s) t.
Proof. revert d; induction s as [|c s IH]; intros d; [done|]. rewrite sapp_cons /=. apply IH. Qed.

Lemma step_depth_plain c d : plain_char c → step_depth c d = d.
Proof.
  intros [H1 H2]. unfold step_depth.
  destruct (Ascii.eqb_spec c "["); [done|]. destruct (Ascii.eqb_spec c "]"); done.
Qed.

Lemma contains_go_cons op d c s :
  plain_char op →
  contains_operator_go op d (String c s) =
  ((d =? 0) && Ascii.eqb c op) || contains_operator_go op (step_depth c d) s.
Proof.
  intros [H1 H2]. cbn [contains_operator_go]. unfold step_depth.
  destruct (Ascii.eqb_spec c "[") as [->|].
  { destruct (Ascii.eqb_spec "[" op); [congruence|]. by rewrite andb_false_r. }
  destruct (Ascii.eqb_spec c "]") as [->|]; simpl.
  - destruct (Ascii.eqb_spec "]" op); [congruence|].
    rewrite andb_false_r. by destruct (0 <? d).
  - by destruct (_ && _).
Qed.

Lemma contains_go_app op d s t :
  plain_char op →
  contains_operator_go op d (s +:+ t) =
  contains_operator_go op d s || contains_operator_go op (depth_after d s) t.
Proof.
  intros Hop. revert d; induction s as [|c s IH]; intros d; [done|].
  rewrite sapp_cons !contains_go_cons // IH /= orb_assoc //.
Qed.

Lemma is_operator_plain c : is_operator c = true → plain_char c.
Proof.
  unfold is_operator, plain_char. intros Hc.
  split; intros ->; discriminate Hc.
Qed.

(** Concatenating the parts with the operator gives the selector back. *)
Lemma join_split_go op d cur s :
  join (String op "") (split_top_level_go op d cur s) = cur +:+ s.
Proof.
  revert d cur; induction s as [|c s IH]; intros d cur; cbn [split_top_level_go].
  - by rewrite sapp_nil_r.
  - cbv zeta. destruct (Ascii.eqb c op && _) eqn:E.
    + apply andb_true_iff in E as [->%Ascii.eqb_eq _].
      specialize (IH (step_depth op d) "").
      destruct (split_top_level_go op _ "" s) as [|x l] eqn:Es.
      { destruct s; cbn in Es; [done|]. by destruct (_ && _). }
      cbn [join] in IH |- *. by rewrite IH.
    + rewrite IH sapp_assoc //.
Qed.

Lemma split_go_nonempty op d cur s : split_top_level_go op d cur s ≠ [].
Proof.
  revert d cur; induction s as [|c s IH]; intros d cur; cbn [split_top_level_go]; [done|].
  cbv zeta. by destruct (_ && _).
Qed.

(** No part contains the operator outside brackets, every part but the last
    ends at depth 0. *)
Lemma split_go_parts op d cur s :
  plain_char op → depth_after 0 cur = d → contains_operator_go op 0 cur = false →
  Forall (λ p, contains_operator_go op 0 p = false) (split_top_level_go op d cur s).
Proof.
  intros Hop. revert d cur; induction s as [|c s IH]; intros d cur Hd Hc;
    cbn [split_top_level_go].
  - by constructor.
  - cbv zeta. destruct (Ascii.eqb c op && _) eqn:E.
    + apply andb_true_iff in E as [->%Ascii.eqb_eq E%Nat.eqb_eq].
      constructor; [done|]. apply IH; rewrite ?E //.
    + apply IH.
      * rewrite depth_after_app Hd //.
      * rewrite contains_go_app // Hc contains_go_cons // Hd /= orb_false_r.
        destruct (Ascii.eqb_spec c op) as [->|]; [|by rewrite andb_false_r].
        simpl in E. rewrite step_depth_plain // in E. by rewrite E.
Qed.

Lemma split_top_level_join selector op :
  join (String op "") (_split_top_level selector op) = selector.
Proof. apply join_split_go. Qed.

Lemma split_top_level_parts selector op :
  plain_char op →
  Forall (λ p, _contains_operator_outside_brackets p op = false) (_split_top_level selector op).
Proof. intros. by apply split_go_parts. Qed.

Lemma split_go_length op d cur s :
  plain_char op → 2 ≤ length (split_top_level_go op d cur s) ↔ contains_operator_go op d s = true.
Proof.
  intros Hop. revert d cur; induction s as [|c s IH]; intros d cur; cbn [split_top_level_go].
  - simpl. split; [lia|done].
  - cbv zeta. rewrite contains_go_cons //. destruct (Ascii.eqb_spec c op) as [->|Hne]; simpl.
    + rewrite step_depth_plain // andb_true_r. destruct (d =? 0) eqn:Ed; simpl; [|apply IH].
      pose proof (split_go_nonempty op d "" s).
      destruct (split_top_level_go op d "" s); simpl; [done|]. split; [done|lia].
    + rewrite andb_false_r /=. apply IH.
Qed.

Lemma detect_go_None d s :
  detect_primary_operator_go d s = None ↔
  Forall (λ o, contains_operator_go o d s = false) _COMPOSITE_OPERATORS.
Proof.
  revert d; induction s as [|c s IH]; intros d.
  { split; [|done]. intros _. by repeat constructor. }
  assert (∀ o, is_operator o = true → contains_operator_go o d (String c s) = false ↔
            (d =? 0) && Ascii.eqb c o = false ∧ contains_operator_go o (step_depth c d) s = false) as Hc.
  { intros o Ho. rewrite contains_go_cons; [by apply is_operator_plain|]. apply orb_false_iff. }
  assert (detect_primary_operator_go d (String c s) =
          if (d =? 0) && is_operator c then Some c
          else detect_primary_operator_go (step_depth c d) s) as ->.
  { cbn [detect_primary_operator_go]. unfold step_depth.
    destruct (Ascii.eqb_spec c "[") as [->|]; [by rewrite andb_false_r|].
    destruct (Ascii.eqb_spec c "]") as [->|]; simpl; [|done].
    rewrite andb_false_r. by destruct (0 <? d). }
  rewrite /_COMPOSITE_OPERATORS !Forall_cons !Hc //.
  specialize (IH (step_depth c d)). rewrite /_COMPOSITE_OPERATORS !Forall_cons in IH.
  destruct ((d =? 0) && is_operator c) eqn:E.
  - split; [done|]. intros ([H1 _] & [H2 _] & [H3 _] & _). exfalso.
    apply andb_true_iff in E as [Ed Eo]. rewrite Ed /= in H1, H2, H3.
    unfold is_operator in Eo. simpl in Eo. by rewrite H1 H2 H3 in Eo.
  - rewrite IH. unfold is_operator in E. simpl in E.
    destruct (d =? 0); simpl in E |- *; [|naive_solver].
    destruct (Ascii.eqb c "|"), (Ascii.eqb c "^"), (Ascii.eqb c "!"); naive_solver.
Qed.

Lemma detect_go_Some d s op :
  detect_primary_operator_go d s = Some op →
  is_operator op = true ∧ contains_operator_go op d s = true.
Proof.
  revert d; induction s as [|c s IH]; intros d; cbn [detect_primary_operator_go]; [done|].
  destruct (Ascii.eqb c "[") eqn:E1; [|destruct (Ascii.eqb c "]" && (0 <? d)) eqn:E2;
    [|destruct ((d =? 0) && is_operator c) eqn:E3]].
  - intros [Ho Hc]%IH. split; [done|]. cbn [contains_operator_go]. by rewrite E1 Hc.
  - intros [Ho Hc]%IH. split; [done|]. cbn [contains_operator_go]. by rewrite E1 E2 Hc.
  - intros [= <-]. apply andb_true_iff in E3 as [E3 Ho]. split; [done|].
    rewrite contains_go_cons; [by apply is_operator_plain|]. by rewrite E3 Ascii.eqb_refl.
  - intros [Ho Hc]%IH. split; [done|]. cbn [contains_operator_go].
    rewrite E1 E2 Hc. by case: ((d =? 0) && _).
Qed.

(** ** Typed errors and well-formed results *)

(** The envelope an operator may see: bounded texts. *)
Definition envelope_bounded (env : CompositeValidationErrorEnvelope) : Prop :=
  String.length (env_message env) ≤ _MAX_OPERATOR_MESSAGE_CHARS ∧
  String.length (env_selector_echo env) ≤ _MAX_SELECTOR_ECHO_CHARS.

Definition typed_error (e : composite_exn) : Prop :=
  ∃ env, e = CompositeSelectorValidationError env ∧ envelope_bounded env.

Lemma truncate_length value limit :
  String.length _TRUNCATION_MARKER ≤ limit →
  String.length (_truncate_for_operator_visibility value limit) ≤ limit.
Proof.
  intros Hl. unfold _truncate_for_operator_visibility.
  destruct (Nat.leb_spec (String.length value) limit); [done|].
  rewrite slength_app slength_take. lia.
Qed.

Lemma envelope_typed code msg sel : typed_error (CompositeSelectorValidationError (mk_envelope code msg sel)).
Proof. eexists. split; [done|]. split; apply truncate_length; vm_compute; lia. Qed.

Lemma raise_typed {A} code sel msg (e : composite_exn) :
  _raise_validation_error (A := A) code sel msg = Err e → typed_error e.
Proof.
  unfold _raise_validation_error. intros [= <-]. apply envelope_typed.
Qed.

Lemma duplicate_typed {A} sel what (e : composite_exn) :
  duplicate_error (A := A) sel what = Err e → typed_error e.
Proof. apply raise_typed. Qed.

#[export] Hint Resolve raise_typed duplicate_typed : proxy.

(** Peels the binds and branches off a hypothesis [_ = Err e] or [_ = Ok _];
    the lemmas of the database close the raises. *)
Ltac res_cases :=
  repeat (match goal with
  | H : _ ≫= _ = Err _ |- _ => apply bind_Err_inv in H as [H|(? & ? & H)]
  | H : _ ≫= _ = Ok _ |- _ => apply bind_Ok_inv in H as (? & ? & H)
  | H : context [match ?x with _ => _ end] |- _ => destruct x eqn:?
  | H : Ok _ = Ok _ |- _ => injection H as H; subst
  | H : _raise_validation_error _ _ _ = Ok _ |- _ => discriminate H
  | H : duplicate_error _ _ = Ok _ |- _ => discriminate H
  end; simplify_eq/=).

Definition ann_ok (a : _PrefixAnnotations) : Prop :=
  (∀ w, ann_weight a = Some w → 0 < w)%Z ∧
  (∀ m, ann_max_context a = Some m → 0 < m)%Z ∧
  (∀ h, ann_handicap a = Some h → float_neg h = false) ∧
  (∀ t, ann_ttft_timeout a = Some t → float_neg t = false).

(** One untyped way out: an integer annotation of too many digits. *)
Definition long_number (text : str) (e : composite_exn) : Prop :=
  ∃ d, substr d text ∧ all_digits d = true ∧ MAX_STR_DIGITS < String.length d ∧
    e = PyValueError (int_limit_message (String.length d)).

(** What reading [text] raises. *)
Definition read_error (text : str) (e : composite_exn) : Prop := typed_error e ∨ long_number text e.

Lemma read_error_substr s t e : substr s t → read_error s e → read_error t e.
Proof.
  intros Hs [?|(d & Hd & Hrest)]; [by left|]. right. exists d. split; [by eapply substr_trans|done].
Qed.

Lemma typed_read text e : typed_error e → read_error text e.
Proof. by left. Qed.

#[export] Hint Resolve typed_read : proxy.

Lemma parse_positive_err key raw sel code e :
  _parse_positive_integer_annotation key raw sel code = Err e → read_error (default "" raw) e.
Proof.
  unfold _parse_positive_integer_annotation. cbv zeta. intros H. res_cases; eauto with proxy.
  match goal with E : parse_int _ = Some _ |- _ => apply parse_int_digits in E as (d & Hd & Hall & Hlen) end.
  right. exists d. split_and!; [by eapply substr_trans, substr_strip|done| |by rewrite Hlen].
  rewrite Hlen. by apply Nat.ltb_lt.
Qed.

Lemma parse_positive_ok key raw sel code v :
  _parse_positive_integer_annotation key raw sel code = Ok v → (0 < v)%Z.
Proof.
  unfold _parse_positive_integer_annotation. intros H. res_cases.
  by match goal with E : (_ <=? _)%Z = false |- _ => apply Z.leb_gt in E end.
Qed.

Lemma parse_number_err key raw sel code e :
  _parse_non_negative_number_annotation key raw sel code = Err e → typed_error e.
Proof. unfold _parse_non_negative_number_annotation. intros H. res_cases; eauto with proxy. Qed.

Lemma parse_number_ok key raw sel code v :
  _parse_non_negative_number_annotation key raw sel code = Ok v → float_neg v = false.
Proof. unfold _parse_non_negative_number_annotation. intros H. by res_cases. Qed.

Lemma parse_flag_err name acc raw sel e :
  parse_flag_annotation name acc raw sel = Err e → typed_error e.
Proof. unfold parse_flag_annotation. intros H. res_cases; eauto with proxy. Qed.

#[export] Hint Resolve parse_positive_err parse_positive_ok parse_number_err parse_number_ok
  parse_flag_err : proxy.

Lemma split_entry_substr entry key value : split_entry entry = (key, value) → substr (default "" value) entry.
Proof.
  unfold split_entry. destruct (str_find "=" entry); intros [= <- <-]; simpl.
  - eapply substr_trans; [apply substr_strip|exact (substr_drop (S n) entry)].
  - by exists "", entry.
Qed.

Lemma annotate_entry_err sel a entry e : annotate_entry sel a entry = Err e → read_error entry e.
Proof.
  unfold annotate_entry, _parse_first_annotation, _parse_thinker_annotation. intros H.
  destruct (split_entry entry) as [key raw] eqn:Hs. apply split_entry_substr in Hs.
  assert (∀ code k v, _parse_positive_integer_annotation k raw v code = Err e → read_error entry e) as Hpos.
  { intros code k v Hp. by eapply read_error_substr, parse_positive_err. }
  res_cases; eauto with proxy.
Qed.

Lemma annotate_entry_ok sel a entry a' :
  ann_ok a → annotate_entry sel a entry = Ok a' → ann_ok a'.
Proof.
  unfold annotate_entry. intros (Hw & Hm & Hh & Ht) H.
  res_cases; repeat split; simpl in *; intros; simplify_eq; eauto with proxy.
Qed.

Lemma annotate_entries_err sel a entries e :
  annotate_entries sel a entries = Err e → ∃ entry, entry ∈ entries ∧ read_error entry e.
Proof.
  revert a; induction entries as [|x entries IH]; intros a H; cbn [annotate_entries] in H; [done|].
  apply bind_Err_inv in H as [H|(a' & _ & H)].
  - exists x. split; [by left|by eapply annotate_entry_err].
  - destruct (IH _ H) as (entry & Hin & He). exists entry. split; [by right|done].
Qed.

Lemma annotate_entries_ok sel a entries a' :
  ann_ok a → annotate_entries sel a entries = Ok a' → ann_ok a'.
Proof.
  revert a; induction entries as [|x entries IH]; intros a Ha H; cbn [annotate_entries] in H.
  - by simplify_eq.
  - res_cases; eauto using annotate_entry_ok.
Qed.

(** The fuel given to the annotation loop is enough, and it leaves only typed
    errors. *)
Lemma prefix_loop_err fuel sel a remaining e :
  String.length remaining ≤ fuel →
  prefix_loop fuel sel a remaining = Err e → read_error remaining e.
Proof.
  revert a remaining; induction fuel as [|fuel IH]; intros a remaining Hf H; cbn [prefix_loop] in H.
  - destruct remaining; simpl in *; [done|lia].
  - destruct (startswith "[" remaining); [|done]. cbn [negb] in H.
    destruct (str_find "]" remaining) as [[|n]|] eqn:Hfind; [by eapply typed_read, raise_typed| |by eapply typed_read, raise_typed].
    cbv zeta in H. destruct (is_empty _); [by eapply typed_read, raise_typed|].
    destruct (existsb _ _); [by eapply typed_read, raise_typed|].
    apply bind_Err_inv in H as [H|(a' & _ & H)].
    + apply annotate_entries_err in H as (x & (y & -> & Hy)%list_elem_of_fmap & He).
      eapply read_error_substr; [|exact He]. eapply substr_trans; [apply substr_strip|].
      eapply substr_trans; [by eapply substr_split_char|]. eapply substr_trans; [apply substr_strip|].
      eapply substr_trans; [apply substr_take|apply substr_drop].
    + eapply read_error_substr; [apply substr_drop|]. eapply IH; [|exact H]. rewrite slength_drop. lia.
Qed.

Lemma prefix_loop_ok fuel sel a remaining a' rest :
  ann_ok a → prefix_loop fuel sel a remaining = Ok (a', rest) →
  ann_ok a' ∧ startswith "[" rest = false.
Proof.
  revert a remaining; induction fuel as [|fuel IH]; intros a remaining Ha H;
    cbn [prefix_loop] in H; destruct (startswith "[" remaining) eqn:Hs; cbn [negb] in H;
    simplify_eq; try done.
  destruct (str_find "]" remaining) as [[|n]|]; [done| |done].
  cbv zeta in H. destruct (is_empty _); [done|]. destruct (existsb _ _); [done|].
  apply bind_Ok_inv in H as (a1 & H1 & H). eauto using annotate_entries_ok.
Qed.

Lemma no_annotations_ok : ann_ok no_annotations.
Proof. by repeat split. Qed.

Lemma extract_err leaf_text sel e :
  _extract_prefix_annotations leaf_text sel = Err e → read_error leaf_text e.
Proof.
  unfold _extract_prefix_annotations.
  intros [H|([a r] & _ & H)]%bind_Err_inv; [by eapply prefix_loop_err|].
  destruct (_ && _); [by eapply typed_read, raise_typed|done].
Qed.

Lemma extract_ok leaf_text sel a rest :
  leaf_text ≠ "" → stripped leaf_text →
  _extract_prefix_annotations leaf_text sel = Ok (a, rest) →
  ann_ok a ∧ stripped rest ∧ rest ≠ "" ∧ startswith "[" rest = false.
Proof.
  unfold _extract_prefix_annotations. intros Hne Hst.
  intros ([a0 r] & Hl & H)%bind_Ok_inv.
  destruct (prefix_loop_ok _ _ _ _ _ _ no_annotations_ok Hl) as [Ha Hr].
  destruct (startswith "[" leaf_text && (is_empty r || starts_with_space r)) eqn:E; [done|].
  injection H as <- <-. split; [done|]. split; [apply strip_stripped|].
  assert (∃ c t, r = String c t ∧ is_space c = false) as (c & t & -> & Hc).
  { destruct (startswith "[" leaf_text) eqn:Es.
    - simpl in E. apply orb_false_iff in E as [E1 E2]. destruct r as [|c t]; [done|]. eauto.
    - assert (r = leaf_text) as ->.
      { destruct leaf_text; [done|]. cbn [prefix_loop String.length] in Hl.
        rewrite Es /= in Hl. congruence. }
      destruct (stripped_head _ Hst) as [?|?]; [done|eauto]. }
  rewrite strip_head_nonspace //. destruct (rstrip_nonspace_head c t Hc) as [u Hu]. rewrite Hu.
  split; [done|]. cbn in Hr |- *. destruct (Ascii.eqb "[" c) eqn:Ec; [|done]. by destruct t.
Qed.

(** The other untyped way out: printing a timing that is not a finite number. *)
Definition nonfinite_error (x : pyfloat) (e : composite_exn) : Prop :=
  (∃ n, x = FInf n) ∧ e = PyOverflowError ∨
  x = FNan ∧ e = PyValueError "cannot convert float NaN to integer".

Definition finite (x : pyfloat) : Prop := ∃ m e, x = FDec m e.

Lemma format_number_err x e : _format_annotation_number x = Err e → nonfinite_error x e.
Proof.
  unfold _format_annotation_number, nonfinite_error. intros H.
  destruct x as [m ex|n|]; simpl in H; simplify_eq; eauto.
Qed.

Lemma format_number_ok x s : _format_annotation_number x = Ok s → finite x.
Proof. unfold _format_annotation_number, finite. destruct x; simpl; intros; simplify_eq; eauto. Qed.

Lemma float_zero_finite x : float_nonzero x = false → finite x.
Proof. unfold finite. destruct x; simpl; eauto; done. Qed.

Lemma format_parallel_err n h t e :
  _format_parallel_leaf_for_plan n h t = Err e → nonfinite_error h e ∨ nonfinite_error t e.
Proof.
  unfold _format_parallel_leaf_for_plan. intros H. res_cases; try done;
    match goal with E : _format_annotation_number _ = Err _ |- _ => apply format_number_err in E end; by auto.
Qed.

Lemma format_parallel_ok n h t s :
  _format_parallel_leaf_for_plan n h t = Ok s → finite h ∧ finite t.
Proof.
  unfold _format_parallel_leaf_for_plan. intros H.
  res_cases; eauto using format_number_ok, float_zero_finite.
Qed.

Lemma mk_leaf_ok l :
  stripped (leaf_raw_selector l) → leaf_raw_selector l ≠ "" →
  stripped (leaf_normalized_selector l) → leaf_normalized_selector l ≠ "" →
  (∀ w, leaf_weight_annotation l = Some w → 0 < w)%Z →
  (∀ m, leaf_max_context_tokens l = Some m → 0 < m)%Z →
  float_neg (leaf_handicap_seconds l) = false → float_neg (leaf_ttft_timeout_seconds l) = false →
  mk_leaf_selector l = Ok l.
Proof.
  destruct l as [raw norm w f th m h t u b mn e]; simpl. intros Hr Hr' Hn Hn' Hw Hm Hh Ht.
  assert (∀ what s, stripped s → s ≠ "" → require_text what s = Ok s) as Htext.
  { intros what s Hs Hne. unfold require_text. rewrite Hs. by destruct s. }
  assert (∀ what o, (∀ w, o = Some w → 0 < w)%Z → require_positive what o = Ok o) as Hpos.
  { intros what [x|] Ho; [|done]. simpl. specialize (Ho x eq_refl).
    destruct (Z.leb_spec x 0); [lia|done]. }
  unfold mk_leaf_selector, require_non_negative; simpl.
  by rewrite !Htext // /= !Hpos // /= Hh Ht.
Qed.

(** How a branch was written: the group it stands in. *)
Inductive group_kind : Type := KLeaf | KWeighted | KParallel.
Definition is_weighted (k : group_kind) : bool := match k with KWeighted => true | _ => false end.
Definition is_parallel (k : group_kind) : bool := match k with KParallel => true | _ => false end.

(** What a parsed leaf guarantees to the coordinator. *)
Record leaf_wf (k : group_kind) (l : CompositeLeafSelector) : Prop := {
  wf_raw : stripped (leaf_raw_selector l) ∧ leaf_raw_selector l ≠ "";
  wf_normalized : stripped (leaf_normalized_selector l) ∧ leaf_normalized_selector l ≠ "";
  wf_weight : if is_weighted k then ∃ w, leaf_weight_annotation l = Some w ∧ (0 < w)%Z
              else leaf_weight_annotation l = None;
  wf_flags : is_weighted k = false →
             leaf_first_annotation l = false ∧ leaf_thinker_annotation l = false;
  wf_max_context : ∀ m, leaf_max_context_tokens l = Some m → (0 < m)%Z;
  wf_timing : if is_parallel k
              then finite (leaf_handicap_seconds l) ∧ finite (leaf_ttft_timeout_seconds l) ∧
                   float_neg (leaf_handicap_seconds l) = false ∧
                   float_neg (leaf_ttft_timeout_seconds l) = false
              else leaf_handicap_seconds l = fzero ∧ leaf_ttft_timeout_seconds l = fzero
}.

(** Text that [strip] cannot empty. *)
Definition nonspace_head (s : str) : Prop := ∃ c t, s = String c t ∧ is_space c = false.

Lemma nonspace_head_app s t : nonspace_head s → nonspace_head (s +:+ t).
Proof. intros (c & u & -> & Hc). by exists c, (u +:+ t). Qed.

Lemma nonspace_head_strip s : nonspace_head s → is_empty (strip s) = false.
Proof. intros (c & t & -> & Hc). by apply strip_head_nonempty. Qed.

Lemma stripped_nonspace_head s : stripped s → s ≠ "" → nonspace_head s.
Proof. intros Hs Hne. by destruct (stripped_head s Hs). Qed.

Lemma nonspace_head_join op l :
  l ≠ [] → Forall nonspace_head l → nonspace_head (join op l).
Proof.
  destruct l as [|x l]; [done|]. intros _ [Hx _]%Forall_cons.
  destruct l; simpl; [done|]. by apply nonspace_head_app.
Qed.

(** A branch that names a timing which is not a finite number. *)
Definition bad_timing (sel text : str) (e : composite_exn) : Prop :=
  ∃ a rest x, _extract_prefix_annotations (strip text) sel = Ok (a, rest) ∧
    (ann_handicap a = Some x ∨ ann_ttft_timeout a = Some x) ∧ nonfinite_error x e.

Section parser_facts.
Context (parse_qs : str → option (list (str * list str))).
Implicit Types inp : CompositeRoutingInput.

Lemma check_placement_err inp wg pg a e :
  check_annotation_placement inp wg pg a = Err e → typed_error e.
Proof.
  unfold check_annotation_placement. cbv zeta. intros H.
  repeat (destruct (_ && _); [by eapply raise_typed|]). done.
Qed.

Lemma check_placement_ok inp wg pg a :
  check_annotation_placement inp wg pg a = Ok tt →
  (wg = false → ann_weight a = None ∧ ann_first a = false ∧ ann_thinker a = false) ∧
  (pg = false → ann_handicap a = None ∧ ann_ttft_timeout a = None).
Proof.
  unfold check_annotation_placement. destruct a as [[]  [] [] mc [] []], wg, pg; simpl; done.
Qed.

Lemma check_leaf_target_err inp n p e : check_leaf_target inp n p = Err e → typed_error e.
Proof.
  unfold check_leaf_target. cbv zeta. intros H.
  destruct (_ && _); [by eapply raise_typed|].
  destruct (has_explicit_backend_selector n).
  - destruct (_ || _); [by eapply raise_typed|done].
  - destruct (is_empty _); [by eapply raise_typed|done].
Qed.

(** The branch of [_parse_leaf] after the annotations are known good. *)
Lemma parse_leaf_mk k raw n a p :
  ann_ok a → stripped raw → raw ≠ "" → stripped n → n ≠ "" →
  mk_leaf_selector (MkLeaf raw n
    (if is_weighted k then (if is_weighted k then Some (default 1%Z (ann_weight a)) else ann_weight a)
     else None)
    (if is_weighted k then ann_first a else false) (if is_weighted k then ann_thinker a else false)
    (ann_max_context a) (default fzero (ann_handicap a)) (default fzero (ann_ttft_timeout a))
    (pp_uri_params p) (pp_backend_type p) (pp_model_name p) None) =
  Ok (MkLeaf raw n (if is_weighted k then Some (default 1%Z (ann_weight a)) else None)
    (if is_weighted k then ann_first a else false) (if is_weighted k then ann_thinker a else false)
    (ann_max_context a) (default fzero (ann_handicap a)) (default fzero (ann_ttft_timeout a))
    (pp_uri_params p) (pp_backend_type p) (pp_model_name p) None).
Proof.
  intros (Hw & Hm & Hh & Ht) Hr Hr' Hn Hn'.
  assert (0 < default 1 (ann_weight a))%Z by (destruct (ann_weight a); simpl; [auto|lia]).
  assert (float_neg (default fzero (ann_handicap a)) = false)
    by (destruct (ann_handicap a); simpl; auto).
  assert (float_neg (default fzero (ann_ttft_timeout a)) = false)
    by (destruct (ann_ttft_timeout a); simpl; auto).
  destruct k; apply mk_leaf_ok; simpl; try done; by intros ? [= <-].
Qed.

Lemma parse_leaf_err inp k text e :
  _parse_leaf parse_qs inp (is_weighted k) (is_parallel k) text = Err e →
  read_error text e ∨ (k = KParallel ∧ bad_timing (in_selector inp) text e).
Proof.
  unfold _parse_leaf. cbv zeta. intros H.
  destruct (is_empty (strip text)) eqn:Ee; [left; by eapply typed_read, raise_typed|].
  assert (strip text ≠ "") as Hne by (by intros E; rewrite E in Ee).
  apply bind_Err_inv in H as [H|([a n] & Hx & H)].
  { left. by eapply read_error_substr, extract_err; [apply substr_strip|]. }
  destruct (extract_ok _ _ _ _ Hne (strip_stripped text) Hx) as (Ha & Hn & Hn' & _).
  apply bind_Err_inv in H as [H|(_ & _ & H)]; [left; left; by eapply check_placement_err|].
  apply bind_Err_inv in H as [H|(p & _ & H)].
  { destruct k; simpl in H; simplify_eq.
    - by destruct (ann_max_context a).
    - right. split; [done|]. apply format_parallel_err in H.
      destruct H as [H|H]; [destruct (ann_handicap a) as [x|] eqn:Ea|destruct (ann_ttft_timeout a) as [x|] eqn:Ea];
        simpl in H; try (by unfold nonfinite_error in H; naive_solver); exists a, n, x; auto. }
  apply bind_Err_inv in H as [H|(_ & _ & H)]; [left; left; by eapply check_leaf_target_err|].
  rewrite parse_leaf_mk // in H. apply strip_stripped.
Qed.

Lemma parse_leaf_ok inp k text l s :
  _parse_leaf parse_qs inp (is_weighted k) (is_parallel k) text = Ok (l, s) →
  leaf_wf k l ∧ leaf_embedded_selector l = None ∧ nonspace_head s.
Proof.
  unfold _parse_leaf. cbv zeta. intros H.
  destruct (is_empty (strip text)) eqn:Ee; [done|].
  assert (strip text ≠ "") as Hne by (by intros E; rewrite E in Ee).
  apply bind_Ok_inv in H as ([a n] & Hx & H).
  destruct (extract_ok _ _ _ _ Hne (strip_stripped text) Hx) as (Ha & Hn & Hn' & _).
  apply bind_Ok_inv in H as ([] & Hp & H). apply check_placement_ok in Hp as [Hp1 Hp2].
  apply bind_Ok_inv in H as (p & Hf & H). apply bind_Ok_inv in H as (_ & _ & H).
  rewrite parse_leaf_mk // in H; [apply strip_stripped|]. simpl in H. injection H as <- <-.
  destruct Ha as (Hw & Hm & Hh & Ht).
  split; [|split; [done|]].
  - split; simpl; try done; [split; [apply strip_stripped|done]| | |].
    + destruct k; simpl; try done. eexists; split; [done|].
      destruct (ann_weight a) eqn:E; simpl; [auto|lia].
    + by destruct k.
    + destruct k; simpl in *; try (by destruct (Hp2 eq_refl) as [-> ->]).
      apply format_parallel_ok in Hf as [? ?]. repeat split; try done.
      all: [> destruct (ann_handicap a) | destruct (ann_ttft_timeout a)]; simpl; auto.
  - destruct k; simpl in Hf.
    + destruct (ann_max_context a); injection Hf as <-; [by eexists _, _|].
      apply stripped_nonspace_head; [apply strip_stripped|done].
    + injection Hf as <-. by eexists _, _.
    + unfold _format_parallel_leaf_for_plan in Hf.
      res_cases; try (by apply stripped_nonspace_head); by eexists _, _.
Qed.

Lemma mk_embedded_leaf_ok raw n mc :
  stripped raw → raw ≠ "" → stripped n → n ≠ "" → (∀ m, mc = Some m → 0 < m)%Z →
  ∃ l, mk_embedded_leaf raw n mc = Ok (l, "[weight=1]" +:+ n) ∧ leaf_wf KWeighted l ∧
       nonspace_head ("[weight=1]" +:+ n) ∧
       leaf_first_annotation l = false ∧ leaf_thinker_annotation l = false.
Proof.
  intros. unfold mk_embedded_leaf. rewrite mk_leaf_ok //=; [by intros w [= <-]|].
  eexists. split; [done|]. split; [|split; [by eexists _, _|done]]. split; simpl; try done.
  by exists 1%Z.
Qed.

(** Both outcomes of the branch parser that may keep an executor opaque. *)
Lemma parse_embedded_cases inp text :
  match _parse_leaf_allowing_embedded_selector parse_qs inp text with
  | Ok (l, s) => leaf_wf KWeighted l ∧ nonspace_head s ∧
      (leaf_embedded_selector l = None ∨
       leaf_first_annotation l = false ∧ leaf_thinker_annotation l = false)
  | Err e => read_error text e
  end.
Proof.
  assert (∀ t, match _parse_leaf parse_qs inp true false t with
    | Ok (l, s) => leaf_wf KWeighted l ∧ nonspace_head s ∧
        (leaf_embedded_selector l = None ∨
         leaf_first_annotation l = false ∧ leaf_thinker_annotation l = false)
    | Err e => read_error t e
    end) as Hleaf.
  { intros t. destruct (_parse_leaf parse_qs inp true false t) as [[l s]|e] eqn:E.
    - apply (parse_leaf_ok inp KWeighted) in E as (? & ? & ?). eauto.
    - apply (parse_leaf_err inp KWeighted) in E as [?|[? _]]; done. }
  unfold _parse_leaf_allowing_embedded_selector. cbv zeta.
  destruct (is_empty (strip text)) eqn:Ee; [left; apply envelope_typed|].
  specialize (Hleaf (strip text)). assert (∀ e, read_error (strip text) e → read_error text e) as Hsub
    by (intros e; apply read_error_substr, substr_strip).
  assert (strip text ≠ "") as Hne by (by intros E; rewrite E in Ee).
  pose proof (strip_stripped text) as Hst.
  destruct (_ && _).
  { destruct (mk_embedded_leaf_ok (strip text) (strip text) None) as (l & -> & ? & ? & ? & ?);
      [done..|by intros m [=]|eauto 10]. }
  destruct (_extract_prefix_annotations (strip text) (in_selector inp)) as [[a n]|e] eqn:Ex;
    [|apply Hsub; by eapply extract_err]. cbn [mbind res_bind].
  destruct (extract_ok _ _ _ _ Hne Hst Ex) as ((_ & Hm & _) & Hn & Hn' & _).
  assert (match _parse_leaf parse_qs inp true false (strip text) with
    | Ok (l, s) => leaf_wf KWeighted l ∧ nonspace_head s ∧
        (leaf_embedded_selector l = None ∨
         leaf_first_annotation l = false ∧ leaf_thinker_annotation l = false)
    | Err e => read_error text e
    end) as Hleaf' by (destruct (_parse_leaf _ _ _ _ _) as [[l s]|e]; auto).
  destruct (_ || _); [apply Hleaf'|]. destruct (ann_thinker a); [apply Hleaf'|].
  destruct (contains_any_operator n); [|apply Hleaf'].
  destruct (_ || _); [left; apply envelope_typed|].
  destruct (mk_embedded_leaf_ok (strip text) n (ann_max_context a)) as (l & -> & ? & ? & ? & ?);
    [done..|eauto 10].
Qed.

(** *** Plans *)

Definition weighted_flags_ok (ls : list CompositeLeafSelector) : Prop :=
  length (filter (λ l, leaf_first_annotation l = true) ls) ≤ 1 ∧
  length (filter (λ l, leaf_thinker_annotation l = true) ls) ≤ 1 ∧
  (Forall (λ l, leaf_embedded_selector l = None) ls →
   Forall (λ l, ¬ (leaf_first_annotation l = true ∧ leaf_thinker_annotation l = true)) ls).

(** What a plan promises to the code that executes it. *)
Definition node_wf (n : CompositeNode) : Prop :=
  match n with
  | LeafNode l => leaf_wf KLeaf l
  | FailoverGroup ls => 2 ≤ length ls ∧ Forall (leaf_wf KLeaf) ls
  | WeightedGroup ls => 2 ≤ length ls ∧ Forall (leaf_wf KWeighted) ls ∧ weighted_flags_ok ls
  | ParallelGroup ls => 2 ≤ length ls ∧ Forall (leaf_wf KParallel) ls
  end.

Definition plan_wf (p : CompositeRoutePlan) : Prop :=
  plan_source_selector p ≠ "" ∧ plan_normalized_selector p ≠ "" ∧ node_wf (plan_root_node p).

Lemma mapM_leaves_ok inp k parts leaves :
  mapM (_parse_leaf parse_qs inp (is_weighted k) (is_parallel k)) parts = Ok leaves →
  length leaves = length parts ∧ Forall (leaf_wf k) leaves.*1 ∧
  Forall (λ l, leaf_embedded_selector l = None) leaves.*1 ∧ Forall nonspace_head leaves.*2.
Proof.
  intros H%mapM_Ok_Forall2. split; [symmetry; by eapply Forall2_length|].
  rewrite !Forall_fmap. repeat split; eapply Forall2_Forall_r; try exact H;
    apply Forall_true; intros t [l s] E; simpl; by apply parse_leaf_ok in E as (? & ? & ?).
Qed.

Lemma mk_group_plan_ok inp op (mk : list CompositeLeafSelector → res composite_exn CompositeNode)
    (ctor : list CompositeLeafSelector → CompositeNode) what leaves :
  mk = (λ ls, ctor <$> require_multiple_children what ls) →
  is_empty (strip (in_selector inp)) = false → 2 ≤ length leaves →
  Forall nonspace_head leaves.*2 →
  ∃ p, mk_group_plan inp op mk leaves = Ok p ∧ plan_source_selector p = strip (in_selector inp) ∧
       plan_source_selector p ≠ "" ∧
       plan_normalized_selector p = strip (join op leaves.*2) ∧
       plan_normalized_selector p ≠ "" ∧ plan_root_node p = ctor leaves.*1.
Proof.
  intros -> Hsrc Hlen Hheads. unfold mk_group_plan, require_multiple_children, mk_plan, require_text.
  rewrite length_fmap. destruct (Nat.ltb_spec (length leaves) 2); [lia|]. simpl. rewrite Hsrc /=.
  assert (is_empty (strip (join op leaves.*2)) = false) as Hj.
  { apply nonspace_head_strip, nonspace_head_join; [|done]. by destruct leaves; simpl in *; [lia|]. }
  rewrite Hj /=. eexists. split; [done|]. simpl.
  repeat split; try done; intros E; rewrite E in Hsrc || rewrite E in Hj; done.
Qed.

Lemma detect_parts selector op :
  _detect_primary_operator selector = Some op →
  plain_char op ∧ is_operator op = true ∧ 2 ≤ length (_split_top_level selector op).
Proof.
  intros [Ho Hc]%detect_go_Some. pose proof (is_operator_plain _ Ho).
  split; [done|]. split; [done|]. by apply split_go_length.
Qed.

(** One statement for both outcomes: every result of [parse] is a plan that
    keeps the promises of [plan_wf], or a typed error, or comes from an integer
    annotation of too many digits, or from a non-finite timing in a branch of a
    parallel selector. *)
Definition parse_outcome_ok inp (r : res composite_exn CompositeRoutePlan) : Prop :=
  match r with
  | Ok p => plan_wf p ∧ plan_source_selector p = strip (in_selector inp)
  | Err e => typed_error e ∨ long_number (in_selector inp) e ∨
      (_detect_primary_operator (strip (in_selector inp)) = Some "!"%char ∧
       ∃ part, part ∈ _split_top_level (strip (in_selector inp)) "!" ∧ bad_timing (in_selector inp) part e)
  end.

Lemma check_weighted_group_spec inp ls :
  match check_weighted_group inp ls with
  | Ok _ => length (filter (λ l, leaf_first_annotation l = true) ls) ≤ 1 ∧
            length (filter (λ l, leaf_thinker_annotation l = true) ls) ≤ 1 ∧
            Forall (λ l, ¬ (leaf_first_annotation l = true ∧ leaf_thinker_annotation l = true)) ls
  | Err e => typed_error e
  end.
Proof.
  unfold check_weighted_group. cbv zeta.
  destruct (Nat.ltb_spec 1 (length (filter (λ l, leaf_first_annotation l = true) ls)));
    [apply envelope_typed|].
  destruct (Nat.ltb_spec 1 (length (filter (λ l, leaf_thinker_annotation l = true) ls)));
    [apply envelope_typed|].
  destruct (existsb _ ls) eqn:E; [apply envelope_typed|].
  split; [lia|]. split; [lia|]. apply Forall_forall. intros l Hl [H1 H2].
  assert (existsb (λ l, leaf_first_annotation l && leaf_thinker_annotation l) ls = true) as E';
    [|congruence].
  apply existsb_exists. exists l. rewrite H1 H2. split; [by apply list_elem_of_In|done].
Qed.

Lemma side_channel_outcome inp parts :
  is_empty (strip (in_selector inp)) = false →
  match _try_parse_thinker_side_channel_selector parse_qs inp parts with
  | Ok (Some p) => plan_wf p ∧ plan_source_selector p = strip (in_selector inp)
  | Ok None => True
  | Err e => ∃ part, part ∈ parts ∧ read_error part e
  end.
Proof.
  intros Hsrc. unfold _try_parse_thinker_side_channel_selector.
  destruct (Nat.eqb_spec (length parts) 2) as [Hlen|]; simpl; [|done].
  destruct (mapM _ parts) as [leaves|e] eqn:E; cbn [mbind res_bind].
  2: { apply mapM_Err_inv in E as (t & Hin & Et). pose proof (parse_embedded_cases inp t) as Ht.
       rewrite Et in Ht. eauto. }
  apply mapM_Ok_Forall2 in E.
  assert (Forall (λ r, leaf_wf KWeighted r.1 ∧ nonspace_head r.2 ∧
    (leaf_embedded_selector r.1 = None ∨
     leaf_first_annotation r.1 = false ∧ leaf_thinker_annotation r.1 = false)) leaves) as Hall.
  { eapply Forall2_Forall_r; [exact E|]. apply Forall_true. intros t [l s] Et.
    pose proof (parse_embedded_cases inp t) as Ht. by rewrite Et in Ht. }
  apply Forall2_length in E. rewrite Hlen in E.
  destruct leaves as [|[l1 s1] [|[l2 s2] [|]]]; simpl in E; try lia. clear E Hlen.
  apply Forall_cons in Hall as [(W1 & N1 & E1) [(W2 & N2 & E2) _]%Forall_cons]. simpl in *.
  destruct (mk_group_plan_ok inp "^" mk_weighted_group WeightedGroup "weighted"
    [(l1, s1); (l2, s2)] eq_refl Hsrc ltac:(simpl; lia) ltac:(by repeat constructor))
    as (p & Hp & Hsrc' & Hne & _ & Hne' & Hroot).
  rewrite Hp. cbn [fmap res_fmap].
  assert (weighted_flags_ok [l1; l2] → plan_wf p) as Hwf.
  { intros Hf. split; [done|]. split; [done|]. rewrite Hroot /=.
    split; [lia|]. split; [by rewrite !Forall_cons|done]. }
  rewrite !filter_cons filter_nil; simpl.
  destruct (leaf_thinker_annotation l1) eqn:T1, (leaf_thinker_annotation l2) eqn:T2; simpl; try done.
  - destruct (is_empty (default "" (leaf_embedded_selector l2))) eqn:Emb; [done|].
    split; [|done]. apply Hwf. destruct (leaf_embedded_selector l2) eqn:E; [|done].
    destruct E2 as [|[F2 _]]; [done|].
    unfold weighted_flags_ok. rewrite !filter_cons !filter_nil /= T1 T2 F2 /=.
    split; [by destruct (leaf_first_annotation l1); simpl; lia|].
    split; [lia|]. intros [_ [? _]%Forall_cons]%Forall_cons. congruence.
  - destruct (is_empty (default "" (leaf_embedded_selector l1))) eqn:Emb; [done|].
    split; [|done]. apply Hwf. destruct (leaf_embedded_selector l1) eqn:E; [|done].
    destruct E1 as [|[F1 _]]; [done|].
    unfold weighted_flags_ok. rewrite !filter_cons !filter_nil /= T1 T2 F1 /=.
    split; [by destruct (leaf_first_annotation l2); simpl; lia|].
    split; [lia|]. intros [? _]%Forall_cons. congruence.
Qed.
(** The branches of [parse] that build a group from parsed leaves. *)
Lemma group_outcome inp k op mk ctor what parts
    (check : list CompositeLeafSelector → res composite_exn unit) :
  mk = (λ ls, ctor <$> require_multiple_children what ls) →
  is_empty (strip (in_selector inp)) = false → 2 ≤ length parts →
  (∀ ls, match check ls with
         | Ok _ => 2 ≤ length ls → Forall (leaf_wf k) ls → node_wf (ctor ls)
         | Err e => typed_error e
         end) →
  match (leaves ← mapM (_parse_leaf parse_qs inp (is_weighted k) (is_parallel k)) parts;
         _ ← check leaves.*1; mk_group_plan inp op mk leaves) with
  | Ok p => plan_wf p ∧ plan_source_selector p = strip (in_selector inp)
  | Err e => typed_error e ∨
      ∃ part, part ∈ parts ∧ (read_error part e ∨ (k = KParallel ∧ bad_timing (in_selector inp) part e))
  end.
Proof.
  intros Hmk Hsrc Hlen Hcheck.
  destruct (mapM _ parts) as [leaves|e] eqn:E; cbn [mbind res_bind].
  2: { apply mapM_Err_inv in E as (t & Hin & Et). right. exists t. split; [done|]. by eapply parse_leaf_err. }
  apply mapM_leaves_ok in E as (Hl & Hwf & _ & Hh).
  specialize (Hcheck leaves.*1). destruct (check leaves.*1); cbn [mbind res_bind]; [|by left].
  destruct (mk_group_plan_ok inp op mk ctor what leaves Hmk Hsrc ltac:(lia) Hh)
    as (p & -> & Hp & Hne & _ & Hne' & Hroot).
  split; [|done]. split; [done|]. split; [done|]. rewrite Hroot.
  apply Hcheck; [|done]. rewrite length_fmap. lia.
Qed.

Lemma leaf_plan_outcome inp :
  is_empty (strip (in_selector inp)) = false →
  match ('(leaf, normalized) ← _parse_leaf parse_qs inp false false (strip (in_selector inp));
         mk_plan (in_selector inp) normalized (LeafNode leaf)) with
  | Ok p => plan_wf p ∧ plan_source_selector p = strip (in_selector inp)
  | Err e => read_error (strip (in_selector inp)) e
  end.
Proof.
  intros Hsrc. destruct (_parse_leaf _ _ _ _ _) as [[l s]|e] eqn:E; cbn [mbind res_bind].
  2: { by apply (parse_leaf_err inp KLeaf) in E as [?|[? _]]. }
  apply (parse_leaf_ok inp KLeaf) in E as (Hl & _ & Hs%nonspace_head_strip).
  unfold mk_plan, require_text. rewrite Hsrc /= Hs /=. split; [|done].
  split; [|split; [|done]]; simpl; intros E; rewrite E in Hsrc || rewrite E in Hs; done.
Qed.

Lemma part_read inp op part e :
  part ∈ _split_top_level (strip (in_selector inp)) op → read_error part e →
  typed_error e ∨ long_number (in_selector inp) e.
Proof.
  intros Hin He. apply (read_error_substr part (in_selector inp)); [|done].
  eapply substr_trans; [|exact (substr_strip (in_selector inp))].
  apply (substr_join _ (String op "")) in Hin. by rewrite split_top_level_join in Hin.
Qed.

Lemma parse_outcome inp : parse_outcome_ok inp (parse parse_qs inp).
Proof.
  unfold parse_outcome_ok, parse. cbv zeta.
  destruct (is_empty (strip (in_selector inp))) eqn:Hsrc; [left; apply envelope_typed|].
  destruct (_detect_primary_operator (strip (in_selector inp))) as [op|] eqn:Hd.
  2: { pose proof (leaf_plan_outcome inp Hsrc) as H. destruct (mbind _ _); [done|].
       apply (read_error_substr _ (in_selector inp)) in H; [|apply substr_strip].
       destruct H; [by left|by right; left]. }
  destruct (detect_parts _ _ Hd) as (_ & _ & Hlen).
  pose proof (part_read inp op) as Hpart.
  set (parts := _split_top_level _ op) in *.
  assert (∀ e, (∃ part, part ∈ parts ∧ read_error part e) → typed_error e ∨ long_number (in_selector inp) e ∨
    (Some op = Some "!"%char ∧ ∃ part, part ∈ _split_top_level (strip (in_selector inp)) "!" ∧
       bad_timing (in_selector inp) part e)) as Hread.
  { intros e (part & Hin & He). destruct (Hpart part e Hin He); [by left|by right; left]. }
  destruct (mixes_operators op parts).
  { destruct (Ascii.eqb op "^"); [|left; apply envelope_typed].
    pose proof (side_channel_outcome inp parts Hsrc) as H.
    destruct (_try_parse_thinker_side_channel_selector _ _ _) as [[p|]|e]; cbn [mbind res_bind];
      [done|left; apply envelope_typed|auto]. }
  destruct (Ascii.eqb_spec op "|") as [->|_].
  { pose proof (group_outcome inp KLeaf "|" mk_failover_group FailoverGroup "failover" parts
      (λ _, Ok tt) eq_refl Hsrc Hlen ltac:(done)) as H.
    simpl in H. destruct (mbind _ _); [done|]. destruct H as [H|(part & Hin & [H|[? _]])]; [by left|eauto|done]. }
  destruct (Ascii.eqb_spec op "^") as [->|_].
  { pose proof (group_outcome inp KWeighted "^" mk_weighted_group WeightedGroup "weighted" parts
      (check_weighted_group inp) eq_refl Hsrc Hlen) as H.
    simpl in H. destruct (mbind _ _); apply H || (destruct H as [H|(part & Hin & [H|[? _]])]; [|by left|eauto|done]).
    all: intros ls; pose proof (check_weighted_group_spec inp ls) as Hc;
      destruct (check_weighted_group inp ls); [|done].
    all: intros ? ?; destruct Hc as (? & ? & ?); done. }
  destruct (Ascii.eqb_spec op "!") as [->|_]; [|left; apply envelope_typed].
  destruct (existsb _ parts); [left; apply envelope_typed|].
  pose proof (group_outcome inp KParallel "!" mk_parallel_group ParallelGroup "parallel" parts
    (λ _, Ok tt) eq_refl Hsrc Hlen ltac:(done)) as H.
  simpl in H. destruct (mbind _ _); [done|]. destruct H as [H|(part & Hin & [H|[_ H]])]; [by left|eauto|].
  right; right. eauto.
Qed.
End parser_facts.

(** ** Properties of the parser *)

(** A concrete input for the witnesses, and a [parse_qs] that finds nothing. *)
Definition sample_input (selector : str) : CompositeRoutingInput :=
  MkInput selector MAIN true None 32 "openai" false None None.
Definition no_query (q : str) : option (list (str * list str)) := Some [].

(** C1: Parsing never surprises its caller.  Every plan it returns keeps the
    promises the executor relies on (at least two branches per group, positive
    weights on exactly the weighted branches, finite non-negative timings on
    exactly the parallel ones, at most one [first] and one [thinker] branch,
    stripped non-empty texts) and records the stripped source; every error is
    the typed validation error with bounded texts, with two exceptions, each
    pinned to its cause: a [ValueError] when the selector holds a number of more
    than 4300 digits, and, for a parallel selector, the [int(float)] exception of
    the infinite or NaN timing that one of its branches is annotated with. *)
Theorem parse_plan_or_typed_error parse_qs inp :
  parse_outcome_ok inp (parse parse_qs inp).
Proof. apply parse_outcome. Qed.

(** Operator detection and splitting agree: the detected operator is one of
    the three, occurs outside brackets, and splitting at it loses nothing -
    joining the parts gives the selector back, no part contains the operator
    outside brackets, and there are at least two parts; no operator is detected
    exactly when none occurs outside brackets. *)
Theorem detect_split_agree selector :
  match _detect_primary_operator selector with
  | Some op =>
      is_operator op = true ∧ _contains_operator_outside_brackets selector op = true ∧
      join (String op "") (_split_top_level selector op) = selector ∧
      2 ≤ length (_split_top_level selector op) ∧
      Forall (λ p, _contains_operator_outside_brackets p op = false) (_split_top_level selector op)
  | None => Forall (λ o, _contains_operator_outside_brackets selector o = false) _COMPOSITE_OPERATORS
  end.
Proof.
  destruct (_detect_primary_operator selector) as [op|] eqn:E.
  - pose proof (detect_parts _ _ E) as (Hp & Ho & Hl). pose proof (detect_go_Some _ _ _ E) as [_ Hc].
    split_and!; [done..|apply split_top_level_join|done|by apply split_top_level_parts].
  - by apply detect_go_None in E.
Qed.

(** A non-finite timing annotation is not rejected as a validation error:
    [[handicap=inf]] raises [OverflowError] and [[ttft_timeout=nan]] raises
    [ValueError] out of the parser. *)
Theorem nonfinite_timing_escapes parse_qs :
  parse parse_qs (sample_input "a:b![handicap=inf]c:d") = Err PyOverflowError ∧
  parse parse_qs (sample_input "a:b![ttft_timeout=nan]c:d") =
    Err (PyValueError "cannot convert float NaN to integer").
Proof. split; vm_compute; reflexivity. Qed.

(** An integer annotation of too many digits escapes the same way, from any kind of
    selector: [[weight=111...1]] with 4301 digits raises [ValueError]. *)
Theorem long_number_escapes parse_qs :
  let digits := String.concat "" (repeat "1" (S MAX_STR_DIGITS)) in
  parse parse_qs (sample_input ("[weight=" +:+ digits +:+ "]a:b^c:d")) =
    Err (PyValueError (int_limit_message (S MAX_STR_DIGITS))).
Proof. vm_compute. reflexivity. Qed.

(** The thinker side channel accepts a branch that is both [first] and
    [thinker], which the plain weighted group rejects. *)
Theorem side_channel_accepts_first_thinker :
  (∃ p l1 l2, parse no_query (sample_input "[first][thinker]a:m^b:m|c:m") = Ok p ∧
     plan_root_node p = WeightedGroup [l1; l2] ∧
     leaf_first_annotation l1 = true ∧ leaf_thinker_annotation l1 = true) ∧
  (∃ e, parse no_query (sample_input "[first][thinker]a:m^b:m") = Err e ∧ typed_error e).
Proof.
  split.
  - eexists _, _, _. split; [vm_compute; reflexivity|].
    split; [reflexivity|]. split; reflexivity.
  - pose proof (parse_outcome no_query (sample_input "[first][thinker]a:m^b:m")) as H.
    destruct (parse no_query (sample_input "[first][thinker]a:m^b:m")) as [p|e] eqn:E;
      [by vm_compute in E|].
    exists e. split; [done|]. destruct H as [H|[(d & _ & _ & _ & ->)|[H _]]]; [done|by vm_compute in E|by vm_compute in H].
Qed.
