(* ===== verification/WeightedSelector.v ===== *)
(** * Weighted branch selection

    Models [src/core/services/weighted_branch_selector.py].  The random source
    is one reading per selection, passed as an argument; the arithmetic on the
    threshold is exact, so the theorems speak of the rule, not of binary
    rounding. *)

From S2P Require Import Prelude PyStr PyDict CompositeDomain.
From stdpp Require Import options.

(** [0.9999999999999999] as the double it denotes. *)
Definition largest_below_one : Q := 9007199254740991 # 9007199254740992.

Definition clamp_random (random_value : Q) : Q :=
  if Qltb random_value 0 then 0%Q
  else if Qle_bool 1 random_value then largest_below_one
  else random_value.

Inductive weight_error : Type :=
| NoWeights
| InvalidWeight (w : Z)
| NoTotalWeight
| NoBranches
| MultipleFirst.

(** The loop over the normalized weights. *)
Fixpoint cumulative_search (threshold : Q) (cumulative_weight : Q) (index : nat) (weights : list Z) :
    option nat :=
  match weights with
  | [] => None
  | weight :: weights' =>
      let cumulative_weight := (cumulative_weight + inject_Z weight)%Q in
      if Qltb threshold cumulative_weight then Some index
      else cumulative_search threshold cumulative_weight (S index) weights'
  end.

Definition normalize_weight (w : Z) : res weight_error Z :=
  if (w <=? 0)%Z then Err (InvalidWeight w) else Ok w.

Definition sumZ (weights : list Z) : Z := foldr Z.add 0%Z weights.

Definition select_index_from_weights (random_value : Q) (weights : list Z) : res weight_error nat :=
  match weights with
  | [] => Err NoWeights
  | _ =>
      normalized_weights ← mapM normalize_weight weights;
      let total_weight := sumZ normalized_weights in
      if (total_weight <=? 0)%Z then Err NoTotalWeight
      else
        let threshold := (clamp_random random_value * inject_Z total_weight)%Q in
        Ok (default (length normalized_weights - 1)
              (cumulative_search threshold 0 0 normalized_weights))
  end.

(** [weight_annotation], 1 when it is missing. *)
Definition resolved_weight (leaf : CompositeLeafSelector) : Z :=
  default 1%Z (leaf_weight_annotation leaf).

(** The branches are objects: the coordinator compares them by identity, so a
    branch is any type with a leaf selector.  Indexing [children[index]] out of
    range would raise; [select_total] shows it never does, so the model returns
    an option there. *)
Definition select {A} (leaf_of : A → CompositeLeafSelector) (random_value : Q) (children : list A)
    (prefer_first : bool) : res weight_error (option A) :=
  let weighted :=
    normalized_weights ← mapM (λ b, normalize_weight (resolved_weight (leaf_of b))) children;
    index ← select_index_from_weights random_value normalized_weights;
    Ok (children !! index) in
  match children with
  | [] => Err NoBranches
  | _ =>
      if prefer_first then
        match filter (λ c, leaf_first_annotation (leaf_of c) = true) children with
        | [branch] => Ok (Some branch)
        | [] => weighted
        | _ => Err MultipleFirst
        end
      else weighted
  end.

(** ** The cumulative rule *)

Lemma clamp_bounds r : (0 <= clamp_random r < 1)%Q.
Proof. unfold clamp_random, largest_below_one. qcase; split; try done; lra. Qed.

Lemma sumZ_app l k : sumZ (l ++ k) = (sumZ l + sumZ k)%Z.
Proof. induction l as [|x l IH]; simpl; [done|]. unfold sumZ in *. simpl. lia. Qed.

Lemma sumZ_nonneg l : Forall (λ w, 0 < w)%Z l → (0 <= sumZ l)%Z.
Proof. induction 1; simpl; [done|]. unfold sumZ in *; simpl. lia. Qed.

Lemma normalize_all weights :
  Forall (λ w, 0 < w)%Z weights → mapM normalize_weight weights = Ok weights.
Proof.
  intros H. apply mapM_Ok_Forall2. induction H as [|w l Hw _ IH]; constructor; [|done].
  unfold normalize_weight. destruct (Z.leb_spec w 0); [lia|done].
Qed.

(** The loop stops at the one interval that holds the threshold. *)
Lemma cumulative_search_spec t c i weights j :
  Forall (λ w, 0 < w)%Z weights → (c <= t)%Q →
  cumulative_search t c i weights = Some j ↔
  ∃ k, j = i + k ∧ k < length weights ∧
    (c + inject_Z (sumZ (take k weights)) <= t < c + inject_Z (sumZ (take (S k) weights)))%Q.
Proof.
  revert c i; induction weights as [|w ws IH]; intros c i Hpos Hc;
    cbn [cumulative_search length].
  - split; [done|]. intros (k & _ & ? & _). lia.
  - apply Forall_cons in Hpos as [Hw Hws].
    assert (∀ k, inject_Z (sumZ (take (S k) (w :: ws))) == inject_Z w + inject_Z (sumZ (take k ws)))%Q
      as Hs by (intros k; rewrite -inject_Z_plus; done).
    assert (∀ l : list Z, inject_Z (sumZ (take 0 l)) == 0)%Q as Hz by done.
    assert (∀ k, 0 <= inject_Z (sumZ (take k ws)))%Q as Hn.
    { intros k. rewrite (_ : 0 = inject_Z 0)%Q // -Zle_Qle. by apply sumZ_nonneg, Forall_take. }
    destruct (Qltb_spec t (c + inject_Z w)) as [Hlt|Hge].
    + split.
      * intros [= <-]. exists 0. split; [lia|]. split; [lia|].
        specialize (Hs 0). pose proof (Hz ws). pose proof (Hz (w :: ws)). split; lra.
      * intros ([|k] & -> & Hk & H1 & H2); [f_equal; lia|]. exfalso.
        specialize (Hs k). specialize (Hn k). lra.
    + rewrite IH //; [lra|]. split.
      * intros (k & -> & Hk & H1 & H2). exists (S k). split; [lia|]. split; [lia|].
        pose proof (Hs k). pose proof (Hs (S k)). split; lra.
      * intros ([|k] & -> & Hk & H1 & H2).
        { exfalso. specialize (Hs 0). pose proof (Hz ws). lra. }
        exists k. split; [lia|]. split; [lia|]. pose proof (Hs k). pose proof (Hs (S k)). split; lra.
Qed.

(** A threshold below the total is always inside some interval. *)
Lemma cumulative_search_total t c i weights :
  (t < c + inject_Z (sumZ weights))%Q → (c <= t)%Q → is_Some (cumulative_search t c i weights).
Proof.
  revert c i; induction weights as [|w ws IH]; intros c i Ht Hc; simpl.
  - exfalso. change (inject_Z (sumZ [])) with 0%Q in Ht. lra.
  - destruct (Qltb_spec t (c + inject_Z w)) as [|Hge]; [by eexists|].
    apply IH; [|lra]. assert (inject_Z (sumZ (w :: ws)) == inject_Z w + inject_Z (sumZ ws))%Q
      by (rewrite -inject_Z_plus; done). lra.
Qed.

(** The interval of branch [k] of [weights] on the scale of the total weight. *)
Definition in_branch_interval (weights : list Z) (k : nat) (x : Q) : Prop :=
  k < length weights ∧
  (inject_Z (sumZ (take k weights)) <= x < inject_Z (sumZ (take (S k) weights)))%Q.

Lemma sumZ_pos l : Forall (λ w, 0 < w)%Z l → l ≠ [] → (0 < sumZ l)%Z.
Proof.
  destruct 1 as [|w l Hw Hl]; [done|]. intros _. apply sumZ_nonneg in Hl.
  unfold sumZ in *; simpl. lia.
Qed.

Lemma select_index_ok r weights :
  Forall (λ w, 0 < w)%Z weights → weights ≠ [] →
  ∃ k, select_index_from_weights r weights = Ok k ∧
       cumulative_search (clamp_random r * inject_Z (sumZ weights)) 0 0 weights = Some k.
Proof.
  intros Hpos Hne. pose proof (sumZ_pos _ Hpos Hne) as Hsum.
  unfold select_index_from_weights. rewrite normalize_all //.
  destruct (cumulative_search_total (clamp_random r * inject_Z (sumZ weights)) 0 0 weights) as [k Hk].
  - rewrite Zlt_Qlt in Hsum. change (inject_Z 0) with 0%Q in Hsum.
    pose proof (clamp_bounds r). nra.
  - rewrite Zlt_Qlt in Hsum. change (inject_Z 0) with 0%Q in Hsum.
    pose proof (clamp_bounds r). nra.
  - exists k. split; [|done]. destruct weights as [|w ws]; [done|].
    cbn [mbind res_bind]. destruct (Z.leb_spec (sumZ (w :: ws)) 0); [lia|]. by rewrite Hk.
Qed.

(** C9: The weighted choice is proportional and total: for positive weights the
    returned index is in range and is the one branch whose interval of the
    cumulative weights contains the (clamped) random value scaled by the total
    weight, so branch [k] is chosen for a share [w_k / total] of the random
    values. *)
Theorem select_index_proportional r weights k :
  Forall (λ w, 0 < w)%Z weights → weights ≠ [] →
  select_index_from_weights r weights = Ok k ↔
  in_branch_interval weights k (clamp_random r * inject_Z (sumZ weights)).
Proof.
  intros Hpos Hne. destruct (select_index_ok r weights Hpos Hne) as (j & -> & Hj).
  pose proof (sumZ_pos _ Hpos Hne) as Hsum. rewrite Zlt_Qlt in Hsum.
  change (inject_Z 0) with 0%Q in Hsum. pose proof (clamp_bounds r).
  assert (0 <= clamp_random r * inject_Z (sumZ weights))%Q as H0 by nra.
  pose proof (λ i, cumulative_search_spec _ 0 0 weights i Hpos H0) as Hs.
  assert (∀ i, in_branch_interval weights i (clamp_random r * inject_Z (sumZ weights)) ↔ j = i) as ->.
  { intros i. transitivity (cumulative_search (clamp_random r * inject_Z (sumZ weights)) 0 0 weights
      = Some i); [|by rewrite Hj; split; [intros [=]|intros ->]].
    rewrite Hs. unfold in_branch_interval. split.
    - intros (? & ? & ?). exists i. split; [lia|]. split; [done|]. split; lra.
    - intros (k' & -> & ? & ? & ?). split; [done|]. simpl. split; lra. }
  split; [by intros [=]|by intros ->].
Qed.

Lemma select_index_proportional_witness :
  select_index_from_weights (1 # 2) [1; 3]%Z = Ok 1 ↔
  in_branch_interval [1; 3]%Z 1 (clamp_random (1 # 2) * inject_Z (sumZ [1; 3]%Z)).
Proof. apply (select_index_proportional (1 # 2) [1; 3]%Z 1); [by repeat constructor|done]. Defined.

Lemma select_weighted_ok {A} (leaf_of : A → CompositeLeafSelector) r (children : list A) :
  children ≠ [] → Forall (λ c, 0 < resolved_weight (leaf_of c))%Z children →
  ∃ node k,
    (normalized_weights ← mapM (λ b, normalize_weight (resolved_weight (leaf_of b))) children;
     index ← select_index_from_weights r normalized_weights;
     Ok (children !! index)) = Ok (Some node) ∧
    select_index_from_weights r ((λ c, resolved_weight (leaf_of c)) <$> children) = Ok k ∧
    children !! k = Some node.
Proof.
  intros Hne Hpos. set (ws := (λ c, resolved_weight (leaf_of c)) <$> children).
  assert (Forall (λ w, 0 < w)%Z ws) as Hws by (by apply Forall_fmap).
  assert (mapM (λ b, normalize_weight (resolved_weight (leaf_of b))) children = Ok ws) as ->.
  { apply mapM_Ok_Forall2, Forall2_fmap_r, Forall_Forall2_diag.
    eapply Forall_impl; [exact Hpos|]. intros c Hc. unfold normalize_weight.
    destruct (Z.leb_spec (resolved_weight (leaf_of c)) 0); [simpl in *; lia|done]. }
  destruct (select_index_ok r ws Hws) as (k & Hk & Hs); [by unfold ws; destruct children|].
  assert (0 <= clamp_random r * inject_Z (sumZ ws))%Q as H0.
  { pose proof (clamp_bounds r). pose proof (sumZ_nonneg _ Hws) as Hn.
    rewrite Zle_Qle in Hn. change (inject_Z 0) with 0%Q in Hn. nra. }
  apply (cumulative_search_spec _ _ _ _ _ Hws H0) in Hs as (k' & -> & Hlen & _).
  unfold ws in Hlen. rewrite length_fmap in Hlen.
  destruct (lookup_lt_is_Some_2 children (0 + k') Hlen) as [node Hl].
  exists node, (0 + k'). cbn [mbind res_bind]. rewrite Hk /= Hl. done.
Qed.

(** Selecting a branch never fails on a group the parser can build: with
    positive weights it returns one of the branches, the [first] branch when
    the caller prefers it and there is exactly one, and without that preference
    (or without such a branch) the branch at the weighted index. *)
Theorem select_total {A} (leaf_of : A → CompositeLeafSelector) r (children : list A) prefer_first :
  children ≠ [] → Forall (λ c, 0 < resolved_weight (leaf_of c))%Z children →
  length (filter (λ c, leaf_first_annotation (leaf_of c) = true) children) ≤ 1 →
  ∃ node, select leaf_of r children prefer_first = Ok (Some node) ∧ node ∈ children ∧
    if prefer_first && existsb (λ c, leaf_first_annotation (leaf_of c)) children
    then leaf_first_annotation (leaf_of node) = true
    else ∃ k, select_index_from_weights r ((λ c, resolved_weight (leaf_of c)) <$> children) = Ok k ∧
              children !! k = Some node.
Proof.
  intros Hne Hpos Hfirst.
  destruct (select_weighted_ok leaf_of r children Hne Hpos) as (node & k & Hw & Hk & Hl).
  unfold select. cbv zeta. rewrite Hw.
  destruct children as [|c0 cs] eqn:Ec; [done|]. rewrite -Ec in Hl Hk Hfirst |- *. clear Hw.
  assert (node ∈ children) by (by eapply list_elem_of_lookup_2).
  destruct prefer_first; simpl; [|by exists node; eauto].
  destruct (filter _ children) as [|f [|]] eqn:Ef; simpl in Hfirst; [| |lia].
  - assert (existsb (λ c, leaf_first_annotation (leaf_of c)) children = false) as ->;
      [|by exists node; eauto].
    apply not_true_iff_false. intros (c & Hc & Hcf)%existsb_exists.
    apply (filter_nil_not_elem_of _ _ c Ef); [done|by apply list_elem_of_In].
  - assert (f ∈ filter (λ c, leaf_first_annotation (leaf_of c) = true) children) as Hf
      by (rewrite Ef; constructor). apply list_elem_of_filter in Hf as [Hff Hf].
    exists f. split; [done|]. split; [done|].
    assert (existsb (λ c, leaf_first_annotation (leaf_of c)) children = true) as ->; [|done].
    apply existsb_exists. exists f. split; [by apply list_elem_of_In|done].
Qed.

Definition sample_leaf (w : Z) (first : bool) : CompositeLeafSelector :=
  MkLeaf "a:b" "a:b" (Some w) first false None (FDec 0 0) (FDec 0 0) [] "a" "b" None.

Lemma select_total_witness :
  ∃ leaf, select id (1 # 4) [sample_leaf 1 false; sample_leaf 2 true] true = Ok (Some leaf) ∧
    leaf ∈ [sample_leaf 1 false; sample_leaf 2 true] ∧ leaf_first_annotation leaf = true.
Proof.
  exact (select_total id (1 # 4) [sample_leaf 1 false; sample_leaf 2 true] true ltac:(done)
    ltac:(by repeat constructor) ltac:(vm_compute; lia)).
Defined.
