(* ===== verification/RoutingState.v ===== *)
(** * Runtime state and diagnostics of composite routing

    Models [src/core/services/composite_routing_state.py] (extension keys, the
    failover and weighted-retry snapshots, surface resolution, top-level
    operator detection, the two exhaustion errors) and
    [src/core/services/composite_diagnostics_publisher.py].  The request context
    is its session id and its [extensions] dictionary; a call without a context
    has the state [None]. *)

From Stdlib Require Import Ascii.
From S2P Require Import Prelude PyStr PyDict Exceptions CompositeDomain SelectorParser.
From stdpp Require Import options.

(** ** Requests, contexts, targets, errors

    Of a request context and of a request, the fields the modelled code reads or
    writes: the session id and the extensions; the model, the messages (which only
    token counting looks into) and the extra body. *)

Record RequestContext : Type := MkContext {
  ctx_session_id : option str;
  ctx_extensions : gmap string json
}.

Record ChatRequest : Type := MkRequest {
  req_model : str;
  req_messages : list json;
  req_extra_body : list (str * json)
}.

Record BackendTarget : Type := MkTarget {
  tgt_backend : str;
  tgt_model : str;
  tgt_uri_params : list (str * json)
}.

(** ** Extension keys *)

Definition COMPOSITE_ROUTING_STATE_KEY : string := "composite_routing_state".
Definition COMPOSITE_ROUTING_SURFACE_KEY : string := "composite_routing_surface".
Definition COMPOSITE_LEAF_RESOLUTION_FLAG : string := "composite_leaf_resolution".
Definition COMPOSITE_LEAF_RESOLUTION_EXTRA_BODY_KEY : str := "_composite_leaf_resolution".
Definition COMPOSITE_LEAF_SELECTOR_EXTRA_BODY_KEY : str := "_composite_leaf_selector".
Definition COMPOSITE_LEAF_PARSED_BACKEND_EXTRA_BODY_KEY : str := "_composite_leaf_parsed_backend".
Definition COMPOSITE_LEAF_PARSED_MODEL_EXTRA_BODY_KEY : str := "_composite_leaf_parsed_model".
Definition COMPOSITE_SELECTED_LEAF_SELECTOR_KEY : string := "composite_selected_leaf_selector".
Definition COMPOSITE_SELECTED_LEAF_IS_THINKER_KEY : string := "composite_selected_leaf_is_thinker".
Definition INTERLEAVED_THINKING_WEIGHTED_CYCLE_STATE_KEY : string :=
  "interleaved_thinking_weighted_cycle_state".
Definition INTERLEAVED_THINKING_SUPPRESS_THINKER_SELECTION_KEY : string :=
  "interleaved_thinking_suppress_thinker_selection".
Definition FAILOVER_MODE : str := "failover".
Definition WEIGHTED_RETRY_MODE : str := "weighted_retry".
Definition COMPOSITE_ROUTING_DIAGNOSTICS_KEY : string := "composite_routing_diagnostics".

(** ** The context as the state of a computation *)

Definition ctx_get (key : string) (context : option RequestContext) : option json :=
  match context with Some c => ctx_extensions c !! key | None => None end.

(** [context.extensions[key] = value], nothing without a context. *)
Definition ctx_set (key : string) (value : json) (context : option RequestContext) :
    option RequestContext :=
  match context with
  | Some c => Some (MkContext (ctx_session_id c) (<[key := value]> (ctx_extensions c)))
  | None => None
  end.

(** [context.extensions.pop(key, None)] *)
Definition ctx_pop (key : string) (context : option RequestContext) : option RequestContext :=
  match context with
  | Some c => Some (MkContext (ctx_session_id c) (delete key (ctx_extensions c)))
  | None => None
  end.

(** ** Failover state *)

Record FailoverRuntimeState : Type := MkFailoverState {
  fs_branches : list str;
  fs_next_index : Z;
  fs_hop_count : Z;
  fs_max_hops : Z
}.

Definition failover_state_json (s : FailoverRuntimeState) : json :=
  JDict [("mode", JStr FAILOVER_MODE); ("branches", JList (JStr <$> fs_branches s));
         ("next_index", JInt (fs_next_index s)); ("hop_count", JInt (fs_hop_count s));
         ("max_hops", JInt (fs_max_hops s))].

Record WeightedRetryBranch : Type := MkRetryBranch { wb_selector : str; wb_weight : Z }.

Record WeightedRetryRuntimeState : Type := MkRetryState {
  wr_branches : list WeightedRetryBranch;
  wr_excluded_selectors : list str;
  wr_selected_selector : str;
  wr_hop_count : Z;
  wr_max_hops : Z
}.

Definition weighted_retry_json (s : WeightedRetryRuntimeState) : json :=
  JDict [("mode", JStr WEIGHTED_RETRY_MODE);
         ("branches", JList ((λ b, JDict [("selector", JStr (wb_selector b));
                                          ("weight", JInt (wb_weight b))]) <$> wr_branches s));
         ("excluded_selectors", JList (JStr <$> wr_excluded_selectors s));
         ("selected_selector", JStr (wr_selected_selector s));
         ("hop_count", JInt (wr_hop_count s)); ("max_hops", JInt (wr_max_hops s))].

(** ** Surface *)

Definition surface_of_value (v : str) : option RoutingSurface :=
  if String.eqb v "main" then Some MAIN
  else if String.eqb v "auxiliary" then Some AUXILIARY
  else if String.eqb v "quality_verifier" then Some QUALITY_VERIFIER
  else if String.eqb v "replacement_bridge" then Some REPLACEMENT_BRIDGE
  else None.

(** [call_purpose] is a string or absent, as every writer of it has it. *)
Definition resolve_composite_routing_surface (context : option RequestContext) : RoutingSurface :=
  let raw_purpose := as_str (ctx_get "call_purpose" context) in
  let raw_surface := as_str (ctx_get COMPOSITE_ROUTING_SURFACE_KEY context) in
  if match raw_purpose with Some p => startswith "quality_verifier" p | None => false end
  then QUALITY_VERIFIER
  else match raw_surface ≫= surface_of_value with
  | Some surface => surface
  | None =>
      match raw_purpose with
      | Some p =>
          if String.eqb p "auxiliary" then AUXILIARY
          else if str_in p ["replacement"; "model_replacement"] then REPLACEMENT_BRIDGE
          else MAIN
      | None => MAIN
      end
  end.

(** ** Operators outside brackets *)

Fixpoint contains_top_level_go (operator : ascii) (bracket_depth : nat) (selector : str) : bool :=
  match selector with
  | "" => false
  | String char rest =>
      if Ascii.eqb char "[" then contains_top_level_go operator (S bracket_depth) rest
      else if Ascii.eqb char "]" && (0 <? bracket_depth)
      then contains_top_level_go operator (bracket_depth - 1) rest
      else if Ascii.eqb char operator && (bracket_depth =? 0) then true
      else contains_top_level_go operator bracket_depth rest
  end.
Definition contains_top_level_operator (selector : str) (operator : ascii) : bool :=
  contains_top_level_go operator 0 selector.

Definition is_composite_selector (model : str) : bool :=
  existsb (contains_top_level_operator model) ["|"%char; "^"%char; "!"%char].

(** ** Exhaustion errors *)

Definition unavailable_details (reason : str) (rest : list (str * json)) : list (str * json) :=
  [("code", JStr "temporarily_unavailable"); ("category", JStr "availability");
   ("retryable", JBool true); ("reason", JStr reason)] ++ rest.

Definition build_budget_exhausted_error (state : FailoverRuntimeState) : exn :=
  mk_RoutingError "Composite routing attempt budget exhausted."
    (unavailable_details "attempt_budget_exhausted"
       [("hop_count", JInt (fs_hop_count state)); ("max_hops", JInt (fs_max_hops state))]).

Definition build_failover_exhausted_error (state : FailoverRuntimeState) : exn :=
  mk_RoutingError "Composite failover branches were exhausted."
    (unavailable_details "failover_exhausted"
       [("next_index", JInt (fs_next_index state));
        ("branch_count", JInt (Z.of_nat (length (fs_branches state))))]).

(** ** Diagnostics *)

Module Diagnostics.

Definition should_publish (selector : str) (surface : RoutingSurface) : bool :=
  contains_top_level_operator selector "|" || contains_top_level_operator selector "^" ||
  match surface with REPLACEMENT_BRIDGE => true | _ => false end.

(** [_ensure_payload]: a copy of the stored payload with the surface and the
    selector set; its keys are strings by construction. *)
Definition _ensure_payload (context : option RequestContext) (selector : str)
    (surface : RoutingSurface) : option (list (str * json)) :=
  match context with
  | None => None
  | Some _ =>
      let payload := match ctx_get COMPOSITE_ROUTING_DIAGNOSTICS_KEY context with
                     | Some (JDict existing) => existing
                     | _ => []
                     end in
      Some (od_set "selector" (JStr selector) (od_set "surface" (JStr (surface_value surface)) payload))
  end.

Definition _persist (payload : list (str * json)) (context : option RequestContext) :
    option RequestContext :=
  ctx_set COMPOSITE_ROUTING_DIAGNOSTICS_KEY (JDict payload) context.

(** A branch history entry is a dictionary; normalizing copies it. *)
Definition _normalize_branch_history (history : list (list (str * json))) : json :=
  JList (JDict <$> history).

Definition with_history (branch_history : option (list (list (str * json))))
    (branch_history_omitted : option Z) (payload : list (str * json)) : list (str * json) :=
  match branch_history with
  | None => payload
  | Some history =>
      let payload := od_set "branch_history" (_normalize_branch_history history) payload in
      match branch_history_omitted with
      | Some n => if (0 <? n)%Z then od_set "branch_history_omitted" (JInt n) payload else payload
      | None => payload
      end
  end.

(** The three publish operations build a payload and persist it. *)
Definition publish (selector : str) (surface : RoutingSurface)
    (f : list (str * json) → list (str * json)) (context : option RequestContext) :
    option RequestContext :=
  match _ensure_payload context selector surface with
  | None => context
  | Some diagnostics => _persist (f diagnostics) context
  end.

Definition envelope_json (env : CompositeValidationErrorEnvelope) : json :=
  JDict [("code", JStr (validation_code_value (env_code env)));
         ("message", JStr (env_message env)); ("selector_echo", JStr (env_selector_echo env));
         ("details", JDict [])].

Definition publish_validation_error (selector : str) (surface : RoutingSurface)
    (env : CompositeValidationErrorEnvelope) : option RequestContext → option RequestContext :=
  publish selector surface
    (od_set "error" (JDict [("code", JStr "routing_validation_failed");
                            ("message", JStr (env_message env));
                            ("validation", envelope_json env)])).

Definition publish_selected_target (selector : str) (surface : RoutingSurface)
    (selected_selector : str) (target : BackendTarget)
    (branch_history : option (list (list (str * json)))) (branch_history_omitted : option Z) :
    option RequestContext → option RequestContext :=
  let selected_target :=
    [("selector", JStr selected_selector); ("backend", JStr (tgt_backend target));
     ("model", JStr (tgt_model target))] ++
    match tgt_uri_params target with
    | [] => []
    | uri_params => [("uri_params", JDict uri_params)]
    end in
  publish selector surface (λ diagnostics,
    with_history branch_history branch_history_omitted
      (od_set "selected_target" (JDict selected_target) diagnostics)).

Definition publish_exhaustion (selector : str) (surface : RoutingSurface) (reason : str)
    (details : list (str * json)) (branch_history : option (list (list (str * json))))
    (branch_history_omitted : option Z) : option RequestContext → option RequestContext :=
  let exhaustion := foldl (λ acc '(key, value), od_set key value acc) [("reason", JStr reason)] details in
  publish selector surface (λ diagnostics,
    with_history branch_history branch_history_omitted
      (od_set "exhaustion" (JDict exhaustion) diagnostics)).
End Diagnostics.

(** ** Facts about the context *)

Lemma ctx_get_set_eq k v c : ctx_get k (ctx_set k v (Some c)) = Some v.
Proof. simpl. apply lookup_insert_eq. Qed.

Lemma ctx_get_set_ne k k' v c : k ≠ k' → ctx_get k (ctx_set k' v c) = ctx_get k c.
Proof. intros. destruct c; simpl; [|done]. by apply lookup_insert_ne. Qed.

Lemma ctx_get_pop_ne k k' c : k ≠ k' → ctx_get k (ctx_pop k' c) = ctx_get k c.
Proof. intros. destruct c; simpl; [|done]. by apply lookup_delete_ne. Qed.

Lemma publish_frame sel surf f k c :
  k ≠ COMPOSITE_ROUTING_DIAGNOSTICS_KEY → ctx_get k (Diagnostics.publish sel surf f c) = ctx_get k c.
Proof. intros. destruct c; [|done]. by apply ctx_get_set_ne. Qed.

#[export] Hint Rewrite ctx_get_set_ne ctx_get_pop_ne publish_frame using done : proxy.

(** ** The two operator scans agree *)

Lemma contains_top_level_same op d s :
  contains_top_level_go op d s = contains_operator_go op d s.
Proof.
  revert d; induction s as [|c s IH]; intros d; [done|].
  cbn [contains_top_level_go contains_operator_go]. rewrite !IH.
  by rewrite (andb_comm (Ascii.eqb c op)).
Qed.

(** The gate in front of composite routing and the parser agree on what a
    composite selector is: [is_composite_selector] holds exactly when the
    parser detects an operator. *)
Theorem is_composite_selector_iff model :
  is_composite_selector model = true ↔ is_Some (_detect_primary_operator model).
Proof.
  pose proof (detect_go_None 0 model) as Hn. unfold is_composite_selector.
  rewrite existsb_exists. unfold _detect_primary_operator in *.
  destruct (detect_primary_operator_go 0 model) as [op|] eqn:E.
  - split; [by eexists|]. intros _. apply detect_go_Some in E as [Ho Hc].
    exists op. unfold contains_top_level_operator. rewrite contains_top_level_same. split; [|done].
    apply existsb_exists in Ho as (o & Ho & ->%Ascii.eqb_eq). done.
  - split; [|by intros [? [=]]]. intros (o & Ho & Hc).
    destruct Hn as [Hn _]. specialize (Hn eq_refl). rewrite Forall_forall in Hn.
    unfold contains_top_level_operator in Hc. rewrite contains_top_level_same Hn // in Hc.
    by apply list_elem_of_In.
Qed.
