(* ===== verification/RoutingCoordinator.v ===== *)
(** * The composite routing coordinator

    Models [src/core/services/composite_routing_coordinator.py]: execution of a
    parsed plan against a request and its context, with max-context filtering,
    interleaved thinking cycles, weighted choice, failover with a hop budget,
    the persisted runtime state and diagnostics; and
    [composite_leaf_target_resolver_adapter.py], the resolver it calls.

    Every method is a computation over the optional request context.  A branch
    is an object compared by identity, so a node is its position in the group
    with its leaf. *)

From S2P Require Import Prelude PyStr PyDict Exceptions CompositeDomain ModelUtils SelectorParser.
From S2P Require Import WeightedSelector RoutingState.
From stdpp Require Import options.

Definition CompositeLeafNode : Type := nat * CompositeLeafSelector.
Definition leaf_selector (n : CompositeLeafNode) : CompositeLeafSelector := n.2.
Definition node_text (n : CompositeLeafNode) : str := leaf_normalized_selector (leaf_selector n).
Definition nodes (children : list CompositeLeafSelector) : list CompositeLeafNode := imap pair children.

(** [a is b] on nodes of one group. *)
Definition is_node (a b : CompositeLeafNode) : bool := a.1 =? b.1.

(** A method of the coordinator. *)
Notation M := (stm (option RequestContext) exn).

(** ** The resolver interface

    What the coordinator asks of the object that resolves one leaf. *)
Class LeafTargetResolver : Type :=
  resolve_leaf : ChatRequest → CompositeLeafSelector → M BackendTarget.

Definition session_of (c : option RequestContext) : option str := c ≫= ctx_session_id.

(** The law the failover theorems use: the answer depends on the session, the
    request and the leaf only, and the session and the extensions the
    coordinator keeps its own state in are left alone. *)
Class LawfulResolver (R : LeafTargetResolver) : Type := {
  leaf_answer : option str → ChatRequest → CompositeLeafSelector → res exn BackendTarget;
  resolve_answer : ∀ req leaf c, fst (resolve_leaf req leaf c) = leaf_answer (session_of c) req leaf;
  resolve_session : ∀ req leaf c, session_of (snd (resolve_leaf req leaf c)) = session_of c;
  resolve_frame : ∀ req leaf c k,
    k ∈ [COMPOSITE_ROUTING_STATE_KEY; INTERLEAVED_THINKING_SUPPRESS_THINKER_SELECTION_KEY] →
    ctx_get k (snd (resolve_leaf req leaf c)) = ctx_get k c
}.

(** ** Branch history *)

Definition history_entry : Type := list (str * json).

(** [if value: entry[key] = value] *)
Definition optional_entry (key : str) (value : option str) : list (str * json) :=
  match value with
  | Some v => if is_empty v then [] else [(key, JStr v)]
  | None => []
  end.

Definition _branch_history_entry (selector_fragment outcome_category : str)
    (reason_code backend model : option str) : history_entry :=
  [("selector_fragment", JStr selector_fragment); ("outcome_category", JStr outcome_category)] ++
  optional_entry "reason_code" reason_code ++ optional_entry "backend" backend ++
  optional_entry "model" model.

(** The list is bounded in place; the result is the list and the omitted count. *)
Definition _append_branch_history (branch_history : list history_entry) (entry : history_entry)
    (limit omitted : Z) : list history_entry * Z :=
  let branch_history := branch_history ++ [entry] in
  if (Z.of_nat (length branch_history) <=? limit)%Z then (branch_history, omitted)
  else
    let overflow := (Z.of_nat (length branch_history) - limit)%Z in
    if (0 <? overflow)%Z
    then (drop (Z.to_nat overflow) branch_history, omitted + overflow)%Z
    else (branch_history, omitted).

(** The history published on exhaustion: one more entry, same bound. *)
Definition exhaustion_history_of (branch_history : list history_entry) (entry : history_entry)
    (limit omitted : Z) : list history_entry * Z :=
  let exhaustion_history := branch_history ++ [entry] in
  if (limit <? Z.of_nat (length exhaustion_history))%Z then
    let overflow := (Z.of_nat (length exhaustion_history) - limit)%Z in
    (drop (Z.to_nat overflow) exhaustion_history, omitted + overflow)%Z
  else (exhaustion_history, omitted).

(** ** Error classification *)

Definition _is_failover_eligible_leaf_resolution_error (error : exn) : bool :=
  isinstance (ex_class error) [RoutingError; ValidationError; ConfigurationError].

Definition _extract_reason_code (error : exn) : str :=
  if isinstance (ex_class error) [RoutingError] then
    match as_str (od_get "code" (ex_details error)) with
    | Some code => if is_empty (strip code) then ex_type error else strip code
    | None => ex_type error
    end
  else ex_type error.

Definition is_category (error : exn) (category : str) : bool :=
  match as_str (od_get "category" (ex_details error)) with
  | Some c => String.eqb c category
  | None => false
  end.

Definition _classify_branch_error (error : exn) : str * str :=
  let reason_code := _extract_reason_code error in
  let is_routing := isinstance (ex_class error) [RoutingError] in
  if is_routing && (is_category error "validation" || String.eqb reason_code "unknown_model")
  then (outcome_value VALIDATION_REJECTED, reason_code)
  else if is_routing &&
          (is_category error "availability" || String.eqb reason_code "temporarily_unavailable")
  then (outcome_value INELIGIBLE, reason_code)
  else if isinstance (ex_class error) [ValidationError; ConfigurationError]
  then (outcome_value VALIDATION_REJECTED, reason_code)
  else (outcome_value RUNTIME_FAILED, reason_code).

(** ** Runtime state in the context *)

Definition init_failover_state (branches : list str) (max_hops : Z) : FailoverRuntimeState :=
  MkFailoverState branches 0 0 max_hops.

(** The snapshot stored under the routing-state key, when it belongs to the
    same branches and its numbers are sane. *)
Definition stored_failover_state (raw_state : option json) (branches : list str) :
    option FailoverRuntimeState :=
  match raw_state with
  | Some (JDict d) =>
      match as_str (od_get "mode" d), as_str_list (od_get "branches" d),
            as_int (od_get "next_index" d), as_int (od_get "hop_count" d),
            as_int (od_get "max_hops" d) with
      | Some mode, Some stored_branches, Some next_index, Some hop_count, Some max_hops =>
          if String.eqb mode FAILOVER_MODE && bool_decide (stored_branches = branches) &&
             (0 <=? next_index)%Z && (0 <=? hop_count)%Z && (0 <? max_hops)%Z
          then Some (MkFailoverState stored_branches (Z.min next_index (Z.of_nat (length branches)))
                       hop_count max_hops)
          else None
      | _, _, _, _, _ => None
      end
  | _ => None
  end.

Definition _persist_state (state : FailoverRuntimeState) : M unit :=
  modify (ctx_set COMPOSITE_ROUTING_STATE_KEY (failover_state_json state)).

(** The object stored on initialization is the one returned and mutated later;
    every mutation is followed by [_persist_state] before anything else reads
    the context, so returning a value loses nothing. *)
Definition _load_or_init_state (branches : list str) (configured_max_hops : option Z) :
    M FailoverRuntimeState :=
  let initialized := init_failover_state branches (resolve_max_hops configured_max_hops) in
  raw_state ← gets (ctx_get COMPOSITE_ROUTING_STATE_KEY);
  match stored_failover_state raw_state branches with
  | Some state => mret state
  | None => _ ← _persist_state initialized; mret initialized
  end.

Definition _persist_weighted_retry_state (eligible_leaves : list CompositeLeafNode)
    (selected_leaf : CompositeLeafNode) (configured_max_hops : option Z) : M unit :=
  modify (ctx_set COMPOSITE_ROUTING_STATE_KEY (weighted_retry_json (MkRetryState
    ((λ child, MkRetryBranch (node_text child) (resolved_weight (leaf_selector child)))
       <$> eligible_leaves)
    [] (node_text selected_leaf) 0 (resolve_max_hops configured_max_hops)))).

(** ** Thinker suppression *)

Definition _should_suppress_thinker_selection (context : option RequestContext) : bool :=
  truthy (ctx_get INTERLEAVED_THINKING_SUPPRESS_THINKER_SELECTION_KEY context).

Definition is_thinker (n : CompositeLeafNode) : bool := leaf_thinker_annotation (leaf_selector n).

Definition _filter_thinker_children_if_needed (context : option RequestContext)
    (children : list CompositeLeafNode) : list CompositeLeafNode :=
  if negb (_should_suppress_thinker_selection context) then children
  else filter (λ child, is_thinker child = false) children.

Definition _has_thinker_branch (children : list CompositeLeafNode) : bool :=
  existsb is_thinker children.

(** ** Interleaved thinking cycle *)

(** [[child] * n], empty for a non-positive [n]. *)
Definition repeat_node (child : CompositeLeafNode) : list CompositeLeafNode :=
  replicate (Z.to_nat (resolved_weight (leaf_selector child))) child.

Definition _build_interleaved_thinking_sequence (children : list CompositeLeafNode) :
    list CompositeLeafNode :=
  foldl (λ acc child, if is_thinker child then acc else acc ++ repeat_node child) [] children ++
  foldl (λ acc child, if is_thinker child then acc ++ [child] else acc) [] children.

Definition _first_annotation_sequence_index (sequence : list CompositeLeafNode) : option nat :=
  fst <$> list_find (λ child, leaf_first_annotation (leaf_selector child) = true) sequence.

(** Where the cycle stands, as the stored state says. *)
Definition cycle_next_index (sequence : list CompositeLeafNode) (selector : str)
    (cycle_state : option json) (prefer_first : bool) : nat :=
  let fresh := if prefer_first then default 0 (_first_annotation_sequence_index sequence) else 0 in
  match cycle_state with
  | Some (JDict d) =>
      match as_str (od_get "selector" d), as_str_list (od_get "sequence" d),
            as_int (od_get "next_index" d) with
      | Some stored_selector, Some stored_sequence, Some stored_next_index =>
          if String.eqb stored_selector selector &&
             bool_decide (stored_sequence = node_text <$> sequence) && (0 <=? stored_next_index)%Z
          then Z.to_nat (stored_next_index mod Z.of_nat (length sequence))
          else fresh
      | _, _, _ => fresh
      end
  | _ => fresh
  end.

Definition cycle_state_json (selector : str) (sequence : list CompositeLeafNode) (next_index : nat) :
    json :=
  JDict [("selector", JStr selector); ("sequence", JList (JStr <$> (node_text <$> sequence)));
         ("next_index", JInt (Z.of_nat (S next_index mod length sequence)))].

Definition value_error (message : str) : exn := py_exception "ValueError" message.

Definition _select_interleaved_thinking_weighted_cycle_leaf (children : list CompositeLeafNode)
    (selector : str) (cycle_state : option json) (prefer_first : bool) : M CompositeLeafNode :=
  let sequence := _build_interleaved_thinking_sequence children in
  if length sequence =? 0
  then raise (value_error "Weighted node must contain at least one branch.")
  else
  let next_index := cycle_next_index sequence selector cycle_state prefer_first in
  match sequence !! next_index with
  | None => raise (py_exception "IndexError" "list index out of range")
  | Some selected_leaf =>
      _ ← modify (ctx_set INTERLEAVED_THINKING_WEIGHTED_CYCLE_STATE_KEY
                    (cycle_state_json selector sequence next_index));
      mret selected_leaf
  end.

(** ** Max-context eligibility *)

Section coordinator.
Context {Resolver : LeafTargetResolver}.
(** [count_tokens(extract_prompt_text(request.messages), model=hint)]; [None]
    when one of the caught exceptions is raised. *)
Context (count_prompt_tokens : ChatRequest → str → option Z).
Implicit Types (request : ChatRequest) (token_cache : gmap string Z).

Definition model_hint_of (leaf : CompositeLeafNode) : str :=
  let model_hint := strip (leaf_model_name (leaf_selector leaf)) in
  if is_empty model_hint then node_text leaf else model_hint.

Definition _resolve_request_tokens_for_leaf (request_context_tokens : option Z) request
    (leaf : CompositeLeafNode) token_cache : option Z * gmap string Z :=
  match request_context_tokens with
  | Some tokens => (Some tokens, token_cache)
  | None =>
      let model_hint := model_hint_of leaf in
      match token_cache !! model_hint with
      | Some cached_tokens => (Some cached_tokens, token_cache)
      | None =>
          match count_prompt_tokens request model_hint with
          | None => (None, token_cache)
          | Some resolved_tokens =>
              (Some resolved_tokens, <[model_hint := resolved_tokens]> token_cache)
          end
      end
  end.

Definition _is_branch_eligible_for_max_context (request_context_tokens : option Z) request
    (leaf : CompositeLeafNode) token_cache : bool * gmap string Z :=
  match leaf_max_context_tokens (leaf_selector leaf) with
  | None => (true, token_cache)
  | Some max_context_tokens =>
      let '(resolved_request_tokens, token_cache) :=
        _resolve_request_tokens_for_leaf request_context_tokens request leaf token_cache in
      match resolved_request_tokens with
      | None => (true, token_cache)
      | Some tokens => ((tokens <=? max_context_tokens)%Z, token_cache)
      end
  end.

Definition ineligible_entry (leaf : CompositeLeafNode) (reason : str) : history_entry :=
  _branch_history_entry (node_text leaf) (outcome_value INELIGIBLE) (Some reason) None None.

Fixpoint _filter_children_by_max_context (request_context_tokens : option Z) request
    (children : list CompositeLeafNode) token_cache : list CompositeLeafNode * list history_entry :=
  match children with
  | [] => ([], [])
  | child :: children' =>
      let '(ok, token_cache) :=
        _is_branch_eligible_for_max_context request_context_tokens request child token_cache in
      let '(eligible, ineligible_history) :=
        _filter_children_by_max_context request_context_tokens request children' token_cache in
      if ok then (child :: eligible, ineligible_history)
      else (eligible, ineligible_entry child "max_context_exceeded" :: ineligible_history)
  end.

(** ** Resolving one leaf *)

Definition _resolve_leaf request (leaf_node : CompositeLeafNode) : M BackendTarget :=
  resolved ← resolve_leaf request (leaf_selector leaf_node);
  _ ← modify (ctx_set COMPOSITE_SELECTED_LEAF_SELECTOR_KEY (JStr (node_text leaf_node)));
  _ ← modify (ctx_set COMPOSITE_SELECTED_LEAF_IS_THINKER_KEY (JBool (is_thinker leaf_node)));
  mret resolved.

Definition opt_int (v : option Z) : json := match v with Some z => JInt z | None => JNull end.

Definition unavailable (message reason : str) : exn :=
  mk_RoutingError message (unavailable_details reason []).

(** The error of [weighted_branch_selector]. *)
Definition weight_value_error (e : weight_error) : exn :=
  value_error match e with
  | NoWeights => "Weighted selection requires at least one weight."
  | InvalidWeight w => "Invalid branch weight " +:+ str_of_Z w +:+ "; weights must be positive."
  | NoTotalWeight => "Weighted selection must have a positive total weight."
  | NoBranches => "Weighted node must contain at least one branch."
  | MultipleFirst => "multiple branches annotated with [first]; " +:+
                     "exactly one is required when prefer_first is enabled"
  end.

(** ** Leaf plans *)

Definition execute_leaf (routing_input : CompositeRoutingInput) request (should_publish : bool)
    (root : CompositeLeafNode) : M BackendTarget :=
  let selector := in_selector routing_input in
  let surface := in_surface routing_input in
  if (_is_branch_eligible_for_max_context (in_request_context_tokens routing_input) request root ∅).1
  then
    resolved ← _resolve_leaf request root;
    _ ← when should_publish (modify
          (Diagnostics.publish_selected_target selector surface (node_text root) resolved None None));
    mret resolved
  else
    _ ← when should_publish (modify
          (Diagnostics.publish_exhaustion selector surface "max_context_exceeded"
             [("request_context_tokens", opt_int (in_request_context_tokens routing_input));
              ("max_context_tokens", opt_int (leaf_max_context_tokens (leaf_selector root)))]
             (Some [ineligible_entry root "max_context_exceeded"]) None));
    raise (unavailable "Leaf selector exceeded max_context constraint." "max_context_exceeded").

(** ** Weighted plans *)

(** The children left after thinker suppression. *)
Definition suppress_thinkers (context : option RequestContext) (has_thinker_branch : bool)
    (eligible : list CompositeLeafNode) : list CompositeLeafNode :=
  if has_thinker_branch && _should_suppress_thinker_selection context &&
     negb (existsb (λ child, negb (is_thinker child)) eligible)
  then []
  else if negb has_thinker_branch then _filter_thinker_children_if_needed context eligible
  else eligible.

Definition select_weighted_leaf (random_value : Q) (plan : CompositeRoutePlan)
    (routing_input : CompositeRoutingInput) (has_thinker_branch : bool)
    (eligible : list CompositeLeafNode) : M CompositeLeafNode :=
  if has_thinker_branch
  then _select_interleaved_thinking_weighted_cycle_leaf eligible (plan_normalized_selector plan)
         (in_weighted_cycle_state routing_input) (in_prefer_first_weighted_branch routing_input)
  else match eligible with
  | [only] => mret only
  | _ =>
      match select leaf_selector random_value eligible
              (in_prefer_first_weighted_branch routing_input) with
      | Ok (Some leaf) => mret leaf
      | Ok None => raise (py_exception "IndexError" "list index out of range")
      | Err e => raise (weight_value_error e)
      end
  end.

Definition winner_entry (has_thinker_branch : bool) (selected_leaf leaf : CompositeLeafNode) :
    history_entry :=
  if is_node leaf selected_leaf
  then _branch_history_entry (node_text leaf) (outcome_value SELECTED) None None None
  else _branch_history_entry (node_text leaf) (outcome_value NOT_SELECTED)
         (Some (if has_thinker_branch then "interleaved_thinking_weighted_cycle_non_winner"
                else "weighted_random_non_winner")) None None.

Definition execute_weighted (random_value : Q) (plan : CompositeRoutePlan)
    (routing_input : CompositeRoutingInput) request (should_publish : bool)
    (children : list CompositeLeafNode) : M BackendTarget :=
  let selector := in_selector routing_input in
  let surface := in_surface routing_input in
  let tokens := opt_int (in_request_context_tokens routing_input) in
  let branch_count := JInt (Z.of_nat (length children)) in
  let '(eligible, filtered_weighted_history) :=
    _filter_children_by_max_context (in_request_context_tokens routing_input) request children ∅ in
  if length eligible =? 0 then
    _ ← when should_publish (modify
          (Diagnostics.publish_exhaustion selector surface "max_context_exhausted"
             [("request_context_tokens", tokens); ("branch_count", branch_count)]
             (Some filtered_weighted_history) None));
    raise (unavailable "All weighted branches exceeded max_context constraints."
             "max_context_exhausted")
  else
  let has_thinker_branch := _has_thinker_branch children in
  eligible ← gets (λ context, suppress_thinkers context has_thinker_branch eligible);
  if length eligible =? 0 then
    _ ← when should_publish (modify
          (Diagnostics.publish_exhaustion selector surface "interleaved_thinking_suppressed"
             [("branch_count", branch_count); ("request_context_tokens", tokens)]
             (Some (filtered_weighted_history ++
                    ((λ leaf, ineligible_entry leaf "interleaved_thinking_suppressed")
                       <$> filter (λ leaf, is_thinker leaf = true) children))) None));
    raise (unavailable "All weighted branches were excluded by interleaved thinking suppression."
             "interleaved_thinking_suppressed")
  else
  selected_leaf ← select_weighted_leaf random_value plan routing_input has_thinker_branch eligible;
  resolved ← _resolve_leaf request selected_leaf;
  _ ← _persist_weighted_retry_state eligible selected_leaf (in_configured_max_hops routing_input);
  _ ← when should_publish (modify
        (Diagnostics.publish_selected_target selector surface (node_text selected_leaf) resolved
           (Some (filtered_weighted_history ++ (winner_entry has_thinker_branch selected_leaf <$> eligible)))
           None));
  mret resolved.

(** ** Failover chains *)

(** What the loop carries besides the context. *)
Record chain_state : Type := MkChain {
  ch_state : FailoverRuntimeState;
  ch_history : list history_entry;
  ch_omitted : Z;
  ch_cache : gmap string Z
}.

Definition set_next_index (state : FailoverRuntimeState) (n : nat) : FailoverRuntimeState :=
  MkFailoverState (fs_branches state) (Z.of_nat n) (fs_hop_count state) (fs_max_hops state).

Definition bump_hop (state : FailoverRuntimeState) (n : nat) : FailoverRuntimeState :=
  MkFailoverState (fs_branches state) (Z.of_nat n) (fs_hop_count state + 1) (fs_max_hops state).

Definition exhausted_details (state : FailoverRuntimeState) : list (str * json) :=
  [("next_index", JInt (fs_next_index state));
   ("branch_count", JInt (Z.of_nat (length (fs_branches state))))].

Section chain.
Context (routing_input : CompositeRoutingInput) (request : ChatRequest) (publish : bool).

(** [if should_publish_diagnostics: branch_history_omitted = self._append_branch_history(...)] *)
Definition log_branch (entry : history_entry) (ch : chain_state) : chain_state :=
  if publish then
    let '(history, omitted) := _append_branch_history (ch_history ch) entry
                                 (in_max_branch_history routing_input) (ch_omitted ch) in
    MkChain (ch_state ch) history omitted (ch_cache ch)
  else ch.

Definition with_state (state : FailoverRuntimeState) (ch : chain_state) : chain_state :=
  MkChain state (ch_history ch) (ch_omitted ch) (ch_cache ch).

(** Publishes the bounded history with a final entry, when a branch is given. *)
Definition publish_exhausted (reason : str) (details : list (str * json))
    (last : option CompositeLeafNode) (ch : chain_state) : M unit :=
  let '(history, omitted) :=
    match last with
    | Some branch => exhaustion_history_of (ch_history ch)
        (_branch_history_entry (node_text branch) (outcome_value EXHAUSTED) (Some reason) None None)
        (in_max_branch_history routing_input) (ch_omitted ch)
    | None => (ch_history ch, ch_omitted ch)
    end in
  when publish (modify
    (Diagnostics.publish_exhaustion (in_selector routing_input) (in_surface routing_input) reason
       details (Some history) (Some omitted))).

(** The [except] branch: raise, or the state to go on with. *)
Definition failed_branch (branch_index : nat) (current_branch : CompositeLeafNode) (is_last : bool)
    (branch_error : exn) (ch : chain_state) : M chain_state :=
  if negb (_is_failover_eligible_leaf_resolution_error branch_error) then raise branch_error
  else
  let '(outcome_category, reason_code) := _classify_branch_error branch_error in
  let ch := log_branch (_branch_history_entry (node_text current_branch) outcome_category
                          (Some reason_code) None None) ch in
  let state := ch_state ch in
  if (fs_max_hops state <=? fs_hop_count state)%Z then
    _ ← _persist_state state;
    _ ← publish_exhausted "attempt_budget_exhausted"
          [("hop_count", JInt (fs_hop_count state)); ("max_hops", JInt (fs_max_hops state))]
          (Some current_branch) ch;
    raise (build_budget_exhausted_error state)
  else if is_last then
    let state := set_next_index state (S branch_index) in
    _ ← _persist_state state;
    _ ← publish_exhausted "failover_exhausted" (exhausted_details state) (Some current_branch) ch;
    raise (build_failover_exhausted_error state)
  else
    let state := bump_hop state (S branch_index) in
    _ ← _persist_state state;
    mret (with_state state ch).

(** A skipped branch. *)
Definition skip_branch (branch_index : nat) (current_branch : CompositeLeafNode) (reason : str)
    (ch : chain_state) : M chain_state :=
  let ch := log_branch (ineligible_entry current_branch reason) ch in
  let state := set_next_index (ch_state ch) (S branch_index) in
  _ ← _persist_state state;
  mret (with_state state ch).

(** A resolved branch. *)
Definition selected_branch (branch_index : nat) (current_branch : CompositeLeafNode)
    (resolved : BackendTarget) (ch : chain_state) : M BackendTarget :=
  let ch := log_branch (_branch_history_entry (node_text current_branch) (outcome_value SELECTED) None
                          (Some (tgt_backend resolved)) (Some (tgt_model resolved))) ch in
  _ ← _persist_state (set_next_index (ch_state ch) (S branch_index));
  _ ← when publish (modify
        (Diagnostics.publish_selected_target (in_selector routing_input) (in_surface routing_input)
           (node_text current_branch) resolved (Some (ch_history ch)) (Some (ch_omitted ch))));
  mret resolved.

(** The [while] loop from [branch_index] on; [remaining] are the children from
    there. *)
Fixpoint failover_loop (branch_index : nat) (remaining : list CompositeLeafNode) (ch : chain_state)
    {struct remaining} : M BackendTarget :=
  match remaining with
  | [] =>
      _ ← publish_exhausted "failover_exhausted" (exhausted_details (ch_state ch)) None ch;
      raise (build_failover_exhausted_error (ch_state ch))
  | current_branch :: rest =>
      suppressed ← gets _should_suppress_thinker_selection;
      if suppressed && is_thinker current_branch then
        ch' ← skip_branch branch_index current_branch "interleaved_thinking_cooldown" ch;
        failover_loop (S branch_index) rest ch'
      else
      let '(ok, token_cache) := _is_branch_eligible_for_max_context
            (in_request_context_tokens routing_input) request current_branch (ch_cache ch) in
      let ch := MkChain (ch_state ch) (ch_history ch) (ch_omitted ch) token_cache in
      if negb ok then
        ch' ← skip_branch branch_index current_branch "max_context_exceeded" ch;
        failover_loop (S branch_index) rest ch'
      else λ context,
        match _resolve_leaf request current_branch context with
        | (Ok resolved, context') => selected_branch branch_index current_branch resolved ch context'
        | (Err branch_error, context') =>
            (ch' ← failed_branch branch_index current_branch (length rest =? 0) branch_error ch;
             failover_loop (S branch_index) rest ch') context'
        end
  end.

Definition _execute_failover_chain (children : list CompositeLeafNode) : M BackendTarget :=
  let branches := node_text <$> children in
  state ← _load_or_init_state branches (in_configured_max_hops routing_input);
  let branch_index := Nat.min (Z.to_nat (Z.max 0 (fs_next_index state))) (length children) in
  let ch := MkChain state [] 0 ∅ in
  let ch := foldl (λ ch skipped_selector,
              log_branch (_branch_history_entry skipped_selector (outcome_value INELIGIBLE)
                            (Some "already_attempted") None None) ch)
            ch (take branch_index branches) in
  failover_loop branch_index (drop branch_index children) ch.
End chain.

(** ** [execute] *)

Definition execute (random_value : Q) (plan : CompositeRoutePlan)
    (routing_input : CompositeRoutingInput) request : M BackendTarget :=
  let should_publish :=
    Diagnostics.should_publish (in_selector routing_input) (in_surface routing_input) in
  match plan_root_node plan with
  | LeafNode leaf => execute_leaf routing_input request should_publish (0, leaf)
  | WeightedGroup children =>
      execute_weighted random_value plan routing_input request should_publish (nodes children)
  | ParallelGroup _ =>
      raise (mk_ConfigurationError
               ("Parallel composite routing plans must be executed through " +:+
                "ParallelCompletionOrchestrator, not CompositeRoutingCoordinator.") [])
  | FailoverGroup children =>
      _execute_failover_chain routing_input request should_publish (nodes children)
  end.
End coordinator.

(** ** The persisted failover state *)

(** What a loaded or persisted state satisfies. *)
Definition state_ok (branches : list str) (st : FailoverRuntimeState) : Prop :=
  fs_branches st = branches ∧ (0 <= fs_next_index st <= Z.of_nat (length branches))%Z ∧
  (0 <= fs_hop_count st)%Z ∧ (0 < fs_max_hops st)%Z.

Lemma stored_state_json branches st :
  state_ok branches st → stored_failover_state (Some (failover_state_json st)) branches = Some st.
Proof.
  intros (<- & [H1 H2] & H3 & H4). unfold stored_failover_state, failover_state_json.
  cbn [od_get decide]. rewrite /= -/fmap.
  pose proof (as_str_list_strs (fs_branches st)) as Hl. simpl in Hl. rewrite Hl.
  rewrite bool_decide_eq_true_2 //.
  destruct (Z.leb_spec 0 (fs_next_index st)); [|lia].
  destruct (Z.leb_spec 0 (fs_hop_count st)); [|lia].
  destruct (Z.ltb_spec 0 (fs_max_hops st)); [|lia]. simpl.
  rewrite Z.min_l; [lia|]. by destruct st.
Qed.

Lemma stored_state_ok raw branches st : stored_failover_state raw branches = Some st → state_ok branches st.
Proof.
  unfold stored_failover_state. destruct raw as [[]|]; try done.
  repeat (case_step; try done). intros [= <-]. bool_hyps.
  repeat match goal with
  | H : bool_decide _ = true |- _ => apply bool_decide_eq_true in H
  | H : (_ <=? _)%Z = true |- _ => apply Z.leb_le in H
  | H : (_ <? _)%Z = true |- _ => apply Z.ltb_lt in H
  end. subst. split; simpl; [done|]. lia.
Qed.

Lemma init_state_ok branches configured :
  state_ok branches (init_failover_state branches (resolve_max_hops configured)).
Proof. pose proof (resolve_max_hops_pos configured). repeat split; simpl; try done; lia. Qed.

Lemma set_next_ok branches st n :
  state_ok branches st → n ≤ length branches → state_ok branches (set_next_index st n).
Proof. intros (? & ? & ? & ?) ?. repeat split; simpl; try done; lia. Qed.

Lemma bump_hop_ok branches st n :
  state_ok branches st → n ≤ length branches → state_ok branches (bump_hop st n).
Proof. intros (? & ? & ? & ?) ?. repeat split; simpl; try done; lia. Qed.

#[export] Hint Resolve init_state_ok set_next_ok bump_hop_ok stored_state_ok : proxy.

(** [holds_state c branches st]: the next call on [c] loads exactly [st]. *)
Definition holds_state (c : option RequestContext) (branches : list str)
    (st : FailoverRuntimeState) : Prop :=
  stored_failover_state (ctx_get COMPOSITE_ROUTING_STATE_KEY c) branches = Some st.

Lemma holds_state_set c branches st st' :
  holds_state c branches st → state_ok branches st' →
  holds_state (ctx_set COMPOSITE_ROUTING_STATE_KEY (failover_state_json st') c) branches st'.
Proof.
  unfold holds_state. destruct c as [c|]; [|done]. intros _ Hst.
  rewrite ctx_get_set_eq. by apply stored_state_json.
Qed.

Lemma holds_state_frame c c' branches st :
  ctx_get COMPOSITE_ROUTING_STATE_KEY c' = ctx_get COMPOSITE_ROUTING_STATE_KEY c →
  holds_state c branches st → holds_state c' branches st.
Proof. unfold holds_state. by intros ->. Qed.

Lemma session_set k v c : session_of (ctx_set k v c) = session_of c.
Proof. by destruct c. Qed.

(** ** Token counts are memoized, not changed *)

Section coordinator_facts.
Context {Resolver : LeafTargetResolver}.
Context (count_prompt_tokens : ChatRequest → str → option Z).
Implicit Types (request : ChatRequest).

(** The eligibility test without a cache. *)
Definition within_max_context (request_context_tokens : option Z) request
    (leaf : CompositeLeafNode) : bool :=
  match leaf_max_context_tokens (leaf_selector leaf) with
  | None => true
  | Some limit =>
      match (match request_context_tokens with
             | Some t => Some t
             | None => count_prompt_tokens request (model_hint_of leaf)
             end) with
      | None => true
      | Some t => (t <=? limit)%Z
      end
  end.

Definition cache_ok request (cache : gmap string Z) : Prop :=
  ∀ k v, cache !! k = Some v → count_prompt_tokens request k = Some v.

Lemma cache_ok_empty request : cache_ok request ∅.
Proof. intros k v. by rewrite lookup_empty. Qed.

Lemma eligible_uncached tokens request leaf cache :
  cache_ok request cache →
  (_is_branch_eligible_for_max_context count_prompt_tokens tokens request leaf cache).1 =
    within_max_context tokens request leaf ∧
  cache_ok request
    (_is_branch_eligible_for_max_context count_prompt_tokens tokens request leaf cache).2.
Proof.
  intros Hc. unfold _is_branch_eligible_for_max_context, within_max_context,
    _resolve_request_tokens_for_leaf.
  destruct (leaf_max_context_tokens _) as [m|]; [|done]. destruct tokens as [t|]; [done|].
  destruct (cache !! model_hint_of leaf) as [v|] eqn:E; simpl.
  - by rewrite (Hc _ _ E).
  - destruct (count_prompt_tokens request (model_hint_of leaf)) as [t|] eqn:Et; simpl; [|done].
    split; [done|]. intros k v. destruct (decide (k = model_hint_of leaf)) as [->|Hne].
    + rewrite lookup_insert_eq. congruence.
    + rewrite lookup_insert_ne //. apply Hc.
Qed.

Lemma filter_by_max_context_gen tokens request children cache :
  cache_ok request cache →
  _filter_children_by_max_context count_prompt_tokens tokens request children cache =
  (filter (λ c, within_max_context tokens request c = true) children,
   (λ c, ineligible_entry c "max_context_exceeded") <$>
     filter (λ c, within_max_context tokens request c = false) children).
Proof.
  revert cache; induction children as [|c cs IH]; intros cache Hc; [done|].
  cbn [_filter_children_by_max_context].
  destruct (eligible_uncached tokens request c cache Hc) as [He Hc'].
  destruct (_is_branch_eligible_for_max_context _ _ _ _ _) as [ok cache']; simpl in *. subst ok.
  rewrite IH // !filter_cons. destruct (within_max_context tokens request c); done.
Qed.

(** The token cache is transparent: filtering a group by max-context keeps
    exactly the branches whose own token count is within their own limit, in
    order, and reports exactly the others as ineligible, whatever is shared
    between branches with the same model. *)
Theorem filter_by_max_context_exact tokens request children :
  _filter_children_by_max_context count_prompt_tokens tokens request children ∅ =
  (filter (λ c, within_max_context tokens request c = true) children,
   (λ c, ineligible_entry c "max_context_exceeded") <$>
     filter (λ c, within_max_context tokens request c = false) children).
Proof. apply filter_by_max_context_gen, cache_ok_empty. Qed.

(** ** The failover contract *)

(** What one branch does to the chain. *)
Inductive verdict : Type :=
| VSkip
| VTake (target : BackendTarget)
| VRetry
| VStop (e : exn).

(** The chain without context, history, cache or diagnostics: its answer and
    the state it leaves. *)
Fixpoint spec_chain (i : nat) (st : FailoverRuntimeState) (vs : list verdict) :
    res exn BackendTarget * FailoverRuntimeState :=
  match vs with
  | [] => (Err (build_failover_exhausted_error st), st)
  | VSkip :: vs' => spec_chain (S i) (set_next_index st (S i)) vs'
  | VTake t :: _ => (Ok t, set_next_index st (S i))
  | VStop e :: _ => (Err e, st)
  | VRetry :: vs' =>
      if (fs_max_hops st <=? fs_hop_count st)%Z then (Err (build_budget_exhausted_error st), st)
      else match vs' with
      | [] => let st' := set_next_index st (S i) in (Err (build_failover_exhausted_error st'), st')
      | _ => spec_chain (S i) (bump_hop st (S i)) vs'
      end
  end.

Context {LR : LawfulResolver Resolver}.

(** What of the context a verdict depends on. *)
Record chain_view : Type := MkView { view_suppress : bool; view_session : option str }.
Definition view_of (c : option RequestContext) : chain_view :=
  MkView (_should_suppress_thinker_selection c) (session_of c).

Definition branch_verdict (view : chain_view) (tokens : option Z) request (leaf : CompositeLeafNode) :
    verdict :=
  if view_suppress view && is_thinker leaf then VSkip
  else if negb (within_max_context tokens request leaf) then VSkip
  else match leaf_answer (view_session view) request (leaf_selector leaf) with
  | Ok t => VTake t
  | Err e => if _is_failover_eligible_leaf_resolution_error e then VRetry else VStop e
  end.

Lemma resolve_leaf_spec request leaf c :
  fst (_resolve_leaf request leaf c) = leaf_answer (session_of c) request (leaf_selector leaf) ∧
  ctx_get COMPOSITE_ROUTING_STATE_KEY (snd (_resolve_leaf request leaf c)) =
    ctx_get COMPOSITE_ROUTING_STATE_KEY c ∧
  view_of (snd (_resolve_leaf request leaf c)) = view_of c.
Proof.
  unfold _resolve_leaf, view_of, _should_suppress_thinker_selection. unfold mbind, stm_bind.
  pose proof (resolve_session request (leaf_selector leaf) c) as Hs.
  pose proof (resolve_answer request (leaf_selector leaf) c) as Ha.
  pose proof (resolve_frame request (leaf_selector leaf) c COMPOSITE_ROUTING_STATE_KEY
    ltac:(constructor)) as H1.
  pose proof (resolve_frame request (leaf_selector leaf) c
    INTERLEAVED_THINKING_SUPPRESS_THINKER_SELECTION_KEY ltac:(by right; left)) as H2.
  destruct (resolve_leaf request (leaf_selector leaf) c) as [[t|e] c']; simpl in *.
  - split; [done|]. rewrite -H1 -H2 -Hs. rewrite !ctx_get_set_ne // !session_set //.
  - by rewrite H2 Hs.
Qed.

Section loop_facts.
Context (inp : CompositeRoutingInput) (request : ChatRequest) (publish : bool).
Implicit Types (ch : chain_state) (c : option RequestContext).

Lemma log_branch_state entry ch :
  ch_state (log_branch inp publish entry ch) = ch_state ch ∧
  ch_cache (log_branch inp publish entry ch) = ch_cache ch.
Proof. unfold log_branch. destruct publish; [|done]. by destruct (_append_branch_history _ _ _ _). Qed.

Lemma publish_exhausted_spec reason details last ch c :
  fst (publish_exhausted inp publish reason details last ch c) = Ok tt ∧
  ctx_get COMPOSITE_ROUTING_STATE_KEY (snd (publish_exhausted inp publish reason details last ch c)) =
    ctx_get COMPOSITE_ROUTING_STATE_KEY c.
Proof.
  unfold publish_exhausted. destruct (match last with Some _ => _ | None => _ end).
  destruct publish; simpl; [|done]. split; [done|].
  unfold Diagnostics.publish_exhaustion. by rewrite publish_frame.
Qed.

Lemma skip_branch_spec i b reason ch c :
  ∃ ch', skip_branch inp publish i b reason ch c =
    (Ok ch', ctx_set COMPOSITE_ROUTING_STATE_KEY
               (failover_state_json (set_next_index (ch_state ch) (S i))) c) ∧
    ch_state ch' = set_next_index (ch_state ch) (S i) ∧ ch_cache ch' = ch_cache ch.
Proof.
  unfold skip_branch. destruct (log_branch_state (ineligible_entry b reason) ch) as [-> E].
  eexists. split; [done|]. split; [done|]. by rewrite /= E.
Qed.

Lemma selected_branch_spec i b t ch c :
  fst (selected_branch inp publish i b t ch c) = Ok t ∧
  ctx_get COMPOSITE_ROUTING_STATE_KEY (snd (selected_branch inp publish i b t ch c)) =
  ctx_get COMPOSITE_ROUTING_STATE_KEY (ctx_set COMPOSITE_ROUTING_STATE_KEY
    (failover_state_json (set_next_index (ch_state ch) (S i))) c).
Proof.
  unfold selected_branch.
  set (e := _branch_history_entry _ _ _ _ _). destruct (log_branch_state e ch) as [-> _].
  destruct publish; [|done]. split; [done|].
  unfold mbind, stm_bind, _persist_state, modify; simpl.
  unfold Diagnostics.publish_selected_target. by rewrite publish_frame.
Qed.

(** The [except] branch, by the verdict on the error. *)
Lemma failed_branch_stop i b is_last e ch c :
  _is_failover_eligible_leaf_resolution_error e = false →
  failed_branch inp publish i b is_last e ch c = (Err e, c).
Proof. intros He. unfold failed_branch. by rewrite He. Qed.

Lemma failed_branch_retry i b is_last e ch c :
  _is_failover_eligible_leaf_resolution_error e = true →
  let st := ch_state ch in
  let step st' r :=
    fst (failed_branch inp publish i b is_last e ch c) = Err r ∧
    ctx_get COMPOSITE_ROUTING_STATE_KEY (snd (failed_branch inp publish i b is_last e ch c)) =
    ctx_get COMPOSITE_ROUTING_STATE_KEY
      (ctx_set COMPOSITE_ROUTING_STATE_KEY (failover_state_json st') c) in
  if (fs_max_hops st <=? fs_hop_count st)%Z then step st (build_budget_exhausted_error st)
  else if is_last
  then step (set_next_index st (S i)) (build_failover_exhausted_error (set_next_index st (S i)))
  else ∃ ch', failed_branch inp publish i b is_last e ch c =
         (Ok ch', ctx_set COMPOSITE_ROUTING_STATE_KEY (failover_state_json (bump_hop st (S i))) c) ∧
         ch_state ch' = bump_hop st (S i) ∧ ch_cache ch' = ch_cache ch.
Proof.
  intros He st step. subst step. unfold failed_branch. rewrite He /=.
  destruct (_classify_branch_error e) as [cat reason].
  set (entry := _branch_history_entry _ _ _ _ _).
  destruct (log_branch_state entry ch) as [Es Ec]. rewrite Es. fold st.
  unfold mbind, stm_bind, _persist_state, modify.
  destruct (fs_max_hops st <=? fs_hop_count st)%Z; [|destruct is_last].
  1,2: match goal with |- context [publish_exhausted inp publish ?r ?d ?l ?h ?x] =>
    pose proof (publish_exhausted_spec r d l h x) as [H1 H2];
    destruct (publish_exhausted inp publish r d l h x) as [[] c']; simpl in *; done end.
  eexists. split; [done|]. simpl. by rewrite Ec.
Qed.

Lemma view_set_state v c : view_of (ctx_set COMPOSITE_ROUTING_STATE_KEY v c) = view_of c.
Proof.
  unfold view_of, _should_suppress_thinker_selection. by rewrite ctx_get_set_ne // session_set.
Qed.

(** A run [r] from context [c] agrees with [spec]: the same answer, and the
    context holds the contract's state afterwards when it held [st] before. *)
Definition agrees (branches : list str) c (st : FailoverRuntimeState)
    (r : res exn BackendTarget * option RequestContext)
    (spec : res exn BackendTarget * FailoverRuntimeState) : Prop :=
  fst r = fst spec ∧ (holds_state c branches st → holds_state (snd r) branches (snd spec)).

Notation tokens := (in_request_context_tokens inp).
Notation loop := (failover_loop count_prompt_tokens inp request publish).

Definition loop_ok (branches : list str) (remaining : list CompositeLeafNode) : Prop :=
  ∀ i ch c, cache_ok request (ch_cache ch) → state_ok branches (ch_state ch) →
    i + length remaining = length branches →
    agrees branches c (ch_state ch) (loop i remaining ch c)
      (spec_chain i (ch_state ch) (branch_verdict (view_of c) tokens request <$> remaining)).

(** A branch that is left out. *)
Lemma skip_agrees branches i b rest reason ch c :
  loop_ok branches rest → cache_ok request (ch_cache ch) → state_ok branches (ch_state ch) →
  S i + length rest = length branches →
  agrees branches c (ch_state ch)
    (match skip_branch inp publish i b reason ch c with
     | (Ok ch', c') => loop (S i) rest ch' c'
     | (Err e, c') => (Err e, c')
     end)
    (spec_chain (S i) (set_next_index (ch_state ch) (S i))
       (branch_verdict (view_of c) tokens request <$> rest)).
Proof.
  intros IH Hc Hst Hi. destruct (skip_branch_spec i b reason ch c) as (ch' & -> & Es & Ec).
  assert (state_ok branches (set_next_index (ch_state ch) (S i))) as Hok
    by (apply set_next_ok; [done|lia]).
  destruct (IH (S i) ch' (ctx_set COMPOSITE_ROUTING_STATE_KEY
    (failover_state_json (set_next_index (ch_state ch) (S i))) c)) as [H1 H2].
  - by rewrite Ec.
  - by rewrite Es.
  - done.
  - rewrite view_set_state Es in H1 H2. split; [done|]. intros Hh. apply H2.
    by eapply holds_state_set.
Qed.

(** A branch whose resolution failed with an error that allows another. *)
Lemma retry_agrees branches i b rest e ch c c' :
  loop_ok branches rest → cache_ok request (ch_cache ch) → state_ok branches (ch_state ch) →
  S i + length rest = length branches → view_of c' = view_of c →
  ctx_get COMPOSITE_ROUTING_STATE_KEY c' = ctx_get COMPOSITE_ROUTING_STATE_KEY c →
  _is_failover_eligible_leaf_resolution_error e = true →
  agrees branches c (ch_state ch)
    (match failed_branch inp publish i b (length rest =? 0) e ch c' with
     | (Ok ch', c'') => loop (S i) rest ch' c''
     | (Err e, c'') => (Err e, c'')
     end)
    (spec_chain i (ch_state ch)
       (VRetry :: (branch_verdict (view_of c) tokens request <$> rest))).
Proof.
  intros IH Hc Hst Hi Hview Hs Ee. unfold agrees. cbn [spec_chain].
  assert (state_ok branches (set_next_index (ch_state ch) (S i))) as Hnext
    by (apply set_next_ok; [done|lia]).
  pose proof (failed_branch_retry i b (length rest =? 0) e ch c' Ee) as Hf. cbv zeta in Hf.
  destruct (fs_max_hops (ch_state ch) <=? fs_hop_count (ch_state ch))%Z;
    [|destruct rest as [|b' rest']; simpl in Hf |- *].
  1,2: destruct Hf as [H1 H2]; destruct (failed_branch _ _ _ _ _ _ _ _) as [[] c'']; simpl in *; [done|];
    simplify_eq; split; [done|]; intros Hh; eapply holds_state_frame; [exact H2|];
    eapply holds_state_set; [by eapply holds_state_frame|done].
  destruct Hf as (ch' & -> & Es & Ec).
  assert (state_ok branches (bump_hop (ch_state ch) (S i))) as Hbump
    by (apply bump_hop_ok; [done|simpl in Hi; lia]).
  destruct (IH (S i) ch' (ctx_set COMPOSITE_ROUTING_STATE_KEY
      (failover_state_json (bump_hop (ch_state ch) (S i))) c')) as [H1 H2].
  - by rewrite Ec.
  - by rewrite Es.
  - done.
  - rewrite view_set_state Hview Es in H1 H2. split; [done|].
    intros Hh. apply H2. eapply holds_state_set; [by eapply holds_state_frame|done].
Qed.

(** The loop implements the contract. *)
Lemma failover_loop_refines branches remaining : loop_ok branches remaining.
Proof.
  induction remaining as [|b rest IH]; intros i ch c Hcache Hst Hi;
    cbn [failover_loop fmap list_fmap spec_chain].
  { unfold mbind, stm_bind.
    match goal with |- context [publish_exhausted inp publish ?r ?d ?l ?h ?x] =>
      pose proof (publish_exhausted_spec r d l h x) as [H1 H2];
      destruct (publish_exhausted inp publish r d l h x) as [[] c']; simpl in *; [|done] end.
    split; [done|]. by apply holds_state_frame. }
  simpl in Hi. assert (S i + length rest = length branches) as Hi' by lia.
  unfold branch_verdict at 1, mbind, stm_bind, gets.
  change (_should_suppress_thinker_selection c) with (view_suppress (view_of c)).
  destruct (view_suppress (view_of c) && is_thinker b); [by apply skip_agrees|].
  destruct (eligible_uncached tokens request b (ch_cache ch) Hcache) as [He Hc'].
  destruct (_is_branch_eligible_for_max_context _ _ _ _ _) as [ok cache']; simpl in He, Hc'. rewrite He.
  set (ch0 := MkChain (ch_state ch) (ch_history ch) (ch_omitted ch) cache').
  destruct (negb (within_max_context _ _ b)); [by apply (skip_agrees _ _ _ _ _ ch0)|].
  destruct (resolve_leaf_spec request b c) as (Ha & Hs & Hsup). simpl. rewrite -Ha.
  destruct (_resolve_leaf request b c) as [[t|e] c']; simpl in Hs, Hsup |- *.
  { destruct (selected_branch_spec i b t ch0 c') as [H1 H2]. split; [done|]. intros Hh.
    eapply holds_state_frame; [exact H2|]. eapply holds_state_set; [by eapply holds_state_frame|].
    apply set_next_ok; [done|lia]. }
  destruct (_is_failover_eligible_leaf_resolution_error e) eqn:Ee.
  - by apply (retry_agrees branches i b rest e ch0).
  - rewrite failed_branch_stop //. split; [done|]. by apply holds_state_frame.
Qed.

(** The state a call starts from. *)
Definition start_state (branches : list str) (c : option RequestContext) : FailoverRuntimeState :=
  default (init_failover_state branches (resolve_max_hops (in_configured_max_hops inp)))
    (stored_failover_state (ctx_get COMPOSITE_ROUTING_STATE_KEY c) branches).

Lemma start_state_ok branches c : state_ok branches (start_state branches c).
Proof.
  unfold start_state. destruct (stored_failover_state _ _) eqn:E; simpl; eauto with proxy.
Qed.

Lemma load_state_spec branches c :
  ∃ c', _load_or_init_state branches (in_configured_max_hops inp) c = (Ok (start_state branches c), c') ∧
    view_of c' = view_of c ∧
    (is_Some c → holds_state c' branches (start_state branches c)).
Proof.
  unfold _load_or_init_state, start_state. unfold mbind, stm_bind, gets. cbv beta iota.
  destruct (stored_failover_state _ _) as [st|] eqn:E; simpl.
  - exists c. done.
  - eexists. split; [done|]. rewrite view_set_state. split; [done|]. intros [c0 ->].
    unfold holds_state. rewrite ctx_get_set_eq. apply stored_state_json. auto with proxy.
Qed.

Lemma fold_log_branch (f : str → history_entry) l ch :
  ch_state (foldl (λ ch s, log_branch inp publish (f s) ch) ch l) = ch_state ch ∧
  ch_cache (foldl (λ ch s, log_branch inp publish (f s) ch) ch l) = ch_cache ch.
Proof.
  revert ch; induction l as [|s l IH]; intros ch; [done|]. simpl.
  destruct (log_branch_state (f s) ch) as [H1 H2]. rewrite -H1 -H2. apply IH.
Qed.

(** The answer and the stored state the contract prescribes for a chain. *)
Definition chain_contract (children : list CompositeLeafNode) (c : option RequestContext) :
    res exn BackendTarget * FailoverRuntimeState :=
  let st := start_state (node_text <$> children) c in
  let start := Z.to_nat (fs_next_index st) in
  spec_chain start st
    (branch_verdict (view_of c) (in_request_context_tokens inp) request
       <$> drop start children).

Lemma chain_refines children c :
  let run := _execute_failover_chain count_prompt_tokens inp request publish children c in
  fst run = fst (chain_contract children c) ∧
  (is_Some c → holds_state (snd run) (node_text <$> children) (snd (chain_contract children c))).
Proof.
  intros run. subst run. unfold _execute_failover_chain, chain_contract.
  set (branches := node_text <$> children). set (st := start_state branches c).
  pose proof (start_state_ok branches c : state_ok branches st) as Hok.
  unfold mbind, stm_bind. destruct (load_state_spec branches c) as (c' & -> & Hs & Hh). fold st in Hh.
  fold st. assert (length branches = length children) as Hlen by apply length_fmap.
  destruct Hok as (Hb & Hn & Hrest).
  rewrite (_ : Nat.min _ _ = Z.to_nat (fs_next_index st)); [lia|].
  set (start := Z.to_nat (fs_next_index st)).
  pose proof (fold_log_branch (λ s, _branch_history_entry s (outcome_value INELIGIBLE)
    (Some "already_attempted") None None) (take start branches) (MkChain st [] 0 ∅)) as [E1 E2].
  set (ch := foldl _ _ _) in *.
  destruct (failover_loop_refines branches (drop start children) start ch c') as [H1 H2].
  - rewrite E2. apply cache_ok_empty.
  - rewrite E1. done.
  - rewrite length_drop. lia.
  - rewrite Hs E1 in H1 H2. split; [done|]. intros Hc. by apply H2, Hh.
Qed.
End loop_facts.

(** *** What the contract promises *)

Definition is_retry (v : verdict) : bool := match v with VRetry => true | _ => false end.
Definition passes (v : verdict) : Prop := v = VSkip ∨ v = VRetry.

(** The budget allows [n] more retries, or none is needed. *)
Definition budget_allows (st : FailoverRuntimeState) (n : nat) : Prop :=
  n = 0 ∨ (fs_hop_count st + Z.of_nat n <= fs_max_hops st)%Z.

Definition retries (vs : list verdict) : nat := length (filter (λ v, is_retry v = true) vs).

Lemma retries_retry vs : retries (VRetry :: vs) = S (retries vs).
Proof. done. Qed.

Lemma spec_chain_Ok i st vs t :
  fst (spec_chain i st vs) = Ok t ↔
  ∃ k, vs !! k = Some (VTake t) ∧ Forall passes (take k vs) ∧ budget_allows st (retries (take k vs)).
Proof.
  revert i st; induction vs as [|v vs IH]; intros i st; cbn [spec_chain].
  { split; [done|]. intros (k & Hk & _). done. }
  assert (∀ st', (∃ k, vs !! k = Some (VTake t) ∧ Forall passes (take k vs) ∧
    budget_allows st' (retries (v :: take k vs))) → passes v →
    ∃ k, (v :: vs) !! k = Some (VTake t) ∧ Forall passes (take k (v :: vs)) ∧
    budget_allows st' (retries (take k (v :: vs)))) as Hcons.
  { intros st' (k & ? & ? & ?) ?. exists (S k). simpl. by rewrite Forall_cons. }
  destruct v as [|t'| |e].
  - rewrite IH. split.
    + intros (k & ? & ? & ?). apply Hcons; [|by left]. exists k. done.
    + intros ([|k] & Hk & Hp & Hb); [done|]. exists k. simpl in *.
      apply Forall_cons in Hp as [_ Hp]. done.
  - split.
    + intros [= <-]. exists 0. split; [done|]. split; [done|by left].
    + intros ([|k] & Hk & Hp & Hb); [by simplify_eq/=|]. simpl in Hp.
      apply Forall_cons in Hp as [[?|?] _]; done.
  - destruct (Z.leb_spec (fs_max_hops st) (fs_hop_count st)) as [Hle|Hlt].
    + split; [done|]. intros ([|k] & Hk & Hp & [Hb|Hb]); [done..|].
      exfalso. cbn [take] in Hb. rewrite retries_retry in Hb. lia.
    + destruct vs as [|v' vs'].
      { split; [done|]. intros ([|k] & Hk & _); done. }
      rewrite IH. split.
      * intros (k & ? & ? & Hb). apply Hcons; [|by right]. exists k. split; [done|]. split; [done|].
        right. rewrite retries_retry. destruct Hb as [->|Hb]; simpl in *; lia.
      * intros ([|k] & Hk & Hp & Hb); [done|]. exists k. cbn [lookup list_lookup take] in Hk, Hp, Hb.
        apply Forall_cons in Hp as [_ Hp]. split; [done|]. split; [done|].
        rewrite retries_retry in Hb. destruct Hb as [Hb|Hb]; [lia|]. right. simpl. lia.
  - split; [done|]. intros ([|k] & Hk & Hp & _); [done|].
    simpl in Hp. apply Forall_cons in Hp as [[?|?] _]; done.
Qed.

(** C2: The failover chain implements its contract: with a lawful resolver its
    answer (target or exception) is the one [spec_chain] computes from the
    verdicts on the branches after the resume point, and the state stored in
    the context afterwards is the contract's state, so the next call resumes
    from it.  History, diagnostics and the token cache change neither. *)
Theorem failover_chain_refines inp request publish children c :
  let run := _execute_failover_chain count_prompt_tokens inp request publish children (Some c) in
  let contract := chain_contract inp request children (Some c) in
  fst run = fst contract ∧ holds_state (snd run) (node_text <$> children) (snd contract).
Proof.
  destruct (chain_refines inp request publish children (Some c)) as [H1 H2].
  split; [done|]. apply H2. by eexists.
Qed.

(** The chain answers with a target exactly when some branch at or after
    the resume point resolves to it, every branch between was skipped
    (suppressed thinker or over its max-context) or failed with an eligible
    error, and the failures fit the hop budget: the first usable branch in
    order wins, and no more than [max_hops] failures are spent. *)
Theorem failover_chain_picks_first inp request publish children c t :
  let st := start_state inp (node_text <$> children) c in
  let todo := drop (Z.to_nat (fs_next_index st)) children in
  let verdict_of :=
    branch_verdict (view_of c) (in_request_context_tokens inp) request in
  fst (_execute_failover_chain count_prompt_tokens inp request publish children c) = Ok t ↔
  ∃ k leaf, todo !! k = Some leaf ∧ verdict_of leaf = VTake t ∧
    Forall (λ b, passes (verdict_of b)) (take k todo) ∧
    budget_allows st (retries (verdict_of <$> take k todo)).
Proof.
  intros st todo verdict_of.
  destruct (chain_refines inp request publish children c) as [-> _].
  unfold chain_contract. rewrite spec_chain_Ok. fold st. fold todo. fold verdict_of.
  split.
  - intros (k & Hk & Hp & Hb). apply list_lookup_fmap_Some in Hk as (leaf & -> & Hv).
    rewrite -fmap_take Forall_fmap in Hp. rewrite -fmap_take in Hb. eauto 10.
  - intros (k & leaf & Hk & Hv & Hp & Hb). exists k. rewrite list_lookup_fmap Hk /= Hv.
    rewrite -fmap_take Forall_fmap. done.
Qed.
End coordinator_facts.

(** ** The thinking cycle is fair *)

Section cycle.
Context (children : list CompositeLeafNode) (selector : str) (prefer_first : bool).
Let sequence := _build_interleaved_thinking_sequence children.

Lemma cycle_index_lt cycle :
  sequence ≠ [] → cycle_next_index sequence selector cycle prefer_first < length sequence.
Proof.
  intros Hne. assert (0 < length sequence) by (destruct sequence; simpl; [done|lia]).
  assert ((if prefer_first then default 0 (_first_annotation_sequence_index sequence) else 0)
          < length sequence) as Hfresh.
  { destruct prefer_first; [|done]. unfold _first_annotation_sequence_index.
    destruct (list_find _ _) as [[i x]|] eqn:E; simpl; [|done].
    apply list_find_Some in E as (E & _). by eapply lookup_lt_Some. }
  unfold cycle_next_index. repeat (case_step; try done).
  all: pose proof (Z.mod_pos_bound z (Z.of_nat (length sequence)) ltac:(lia)); lia.
Qed.

Lemma cycle_index_json i :
  sequence ≠ [] →
  cycle_next_index sequence selector (Some (cycle_state_json selector sequence i)) prefer_first =
  S i mod length sequence.
Proof.
  intros Hne. assert (length sequence ≠ 0) by (by destruct sequence).
  unfold cycle_next_index, cycle_state_json. cbn [od_get].
  repeat (rewrite decide_False //; []). rewrite /= -/fmap.
  pose proof (as_str_list_strs (node_text <$> sequence)) as Hl. simpl in Hl. rewrite Hl.
  rewrite bool_decide_eq_true_2 // String.eqb_refl /=.
  destruct (Z.leb_spec 0 (Z.of_nat (S i mod length sequence))) as [_|]; [|lia].
  rewrite -Nat2Z.inj_mod Nat2Z.id Nat.Div0.mod_mod //.
Qed.

(** Turns of a session: each turn starts from the cycle state the previous one
    left in the context. *)
Fixpoint run_turns (n : nat) (cycle : option json) (c : RequestContext) : list CompositeLeafNode :=
  match n with
  | 0 => []
  | S n' =>
      match _select_interleaved_thinking_weighted_cycle_leaf children selector cycle prefer_first
              (Some c) with
      | (Ok leaf, Some c') =>
          leaf :: run_turns n'
            (ctx_get INTERLEAVED_THINKING_WEIGHTED_CYCLE_STATE_KEY (Some c')) c'
      | _ => []
      end
  end.

Lemma run_turns_step n cycle c leaf i :
  cycle_next_index sequence selector cycle prefer_first = i → sequence !! i = Some leaf →
  ∃ c', run_turns (S n) cycle c =
    leaf :: run_turns n (Some (cycle_state_json selector sequence i)) c'.
Proof.
  intros Hi Hl. cbn [run_turns]. unfold _select_interleaved_thinking_weighted_cycle_leaf.
  fold sequence. rewrite Hi Hl.
  destruct (Nat.eqb_spec (length sequence) 0) as [E|_].
  { apply nil_length_inv in E. by rewrite E in Hl. }
  unfold mbind, stm_bind, modify. cbn [ctx_set]. eexists. f_equal.
  by rewrite (ctx_get_set_eq _ _ c).
Qed.

Lemma run_turns_to_end m cycle c i n :
  cycle_next_index sequence selector cycle prefer_first = i → i + m = length sequence → 0 < m →
  ∃ c' j, run_turns (m + n) cycle c =
    drop i sequence ++ run_turns n (Some (cycle_state_json selector sequence j)) c' ∧
    S j = length sequence.
Proof.
  revert cycle c i; induction m as [|m IH]; intros cycle c i Hi Hlen Hm; [lia|].
  destruct (lookup_lt_is_Some_2 sequence i) as [leaf Hl]; [lia|].
  destruct (run_turns_step (m + n) cycle c leaf i Hi Hl) as [c' Hr]. simpl in Hr |- *. rewrite Hr.
  rewrite (drop_S _ _ _ Hl). assert (sequence ≠ []) by (intros E; by rewrite E in Hl).
  destruct m as [|m].
  - exists c', i. simpl. rewrite drop_ge; [lia|]. split; [done|lia].
  - destruct (IH (Some (cycle_state_json selector sequence i)) c' (S i)) as (c'' & j & Hr' & Hj);
      [|lia|lia|].
    + rewrite cycle_index_json // Nat.mod_small //. lia.
    + exists c'', j. simpl in Hr' |- *. rewrite Hr'. done.
Qed.

Lemma run_turns_prefix m cycle c i :
  cycle_next_index sequence selector cycle prefer_first = i → i + m < length sequence →
  run_turns m cycle c = take m (drop i sequence).
Proof.
  revert cycle c i; induction m as [|m IH]; intros cycle c i Hi Hlen; [done|].
  destruct (lookup_lt_is_Some_2 sequence i) as [leaf Hl]; [lia|].
  destruct (run_turns_step m cycle c leaf i Hi Hl) as [c' Hr]. rewrite Hr (drop_S _ _ _ Hl) /=.
  assert (sequence ≠ []) by (intros E; by rewrite E in Hl).
  f_equal. apply IH; [|lia]. rewrite cycle_index_json // Nat.mod_small //. lia.
Qed.

(** One full cycle is a rotation of the sequence. *)
Lemma run_turns_rotation cycle c :
  sequence ≠ [] →
  let i := cycle_next_index sequence selector cycle prefer_first in
  run_turns (length sequence) cycle c = drop i sequence ++ take i sequence.
Proof.
  intros Hne i. pose proof (cycle_index_lt cycle Hne) as Hi. fold i in Hi.
  destruct (run_turns_to_end (length sequence - i) cycle c i i) as (c' & j & Hr & Hj); [done|lia|lia|].
  rewrite (_ : length sequence - i + i = length sequence) in Hr; [lia|]. rewrite Hr. f_equal.
  rewrite (run_turns_prefix i _ c' 0) //.
  rewrite cycle_index_json // Hj Nat.Div0.mod_same //.
Qed.

(** What a full cycle owes to one child. *)
Definition cycle_share (child : CompositeLeafNode) : list CompositeLeafNode :=
  if is_thinker child then [child] else repeat_node child.
End cycle.

Lemma build_sequence_shares children :
  _build_interleaved_thinking_sequence children ≡ₚ concat (cycle_share <$> children).
Proof.
  unfold _build_interleaved_thinking_sequence.
  assert (∀ acc1 acc2,
    foldl (λ acc child, if is_thinker child then acc else acc ++ repeat_node child) acc1 children ++
    foldl (λ acc child, if is_thinker child then acc ++ [child] else acc) acc2 children ≡ₚ
    acc1 ++ acc2 ++ concat (cycle_share <$> children)) as H; [|by rewrite H].
  induction children as [|ch cs IH]; intros acc1 acc2; csimpl.
  - by rewrite app_nil_r.
  - rewrite IH. unfold cycle_share at 2. destruct (is_thinker ch).
    + by rewrite -!(assoc_L (++)).
    + rewrite -(assoc_L (++)). f_equiv.
      rewrite !(assoc_L (++)). f_equiv. by rewrite (comm (++) acc2).
Qed.

(** C27: The interleaved thinking cycle is fair: from any stored state, as many
    consecutive turns of a group as its sequence is long (each turn reading what the
    one before stored) choose every branch that is not a thinker exactly [weight]
    times, and every thinker branch exactly once, whatever its weight. *)
Theorem thinking_cycle_fair children selector prefer_first cycle c :
  let sequence := _build_interleaved_thinking_sequence children in
  sequence ≠ [] →
  run_turns children selector prefer_first (length sequence) cycle c ≡ₚ
  concat (cycle_share <$> children).
Proof.
  intros sequence Hne. subst sequence. rewrite run_turns_rotation //.
  rewrite (comm (++)) take_drop. apply build_sequence_shares.
Qed.

Definition sample_node (i : nat) (w : Z) (thinker : bool) : CompositeLeafNode :=
  (i, MkLeaf "a:b" ("m" +:+ str_of_Z (Z.of_nat i)) (Some w) false thinker None fzero fzero [] "a" "b" None).

Lemma thinking_cycle_fair_witness :
  run_turns [sample_node 0 1 true; sample_node 1 2 false] "s" false 3 None (MkContext None ∅) ≡ₚ
  concat (cycle_share <$> [sample_node 0 1 true; sample_node 1 2 false]).
Proof.
  exact (thinking_cycle_fair [sample_node 0 1 true; sample_node 1 2 false] "s" false None
           (MkContext None ∅) ltac:(vm_compute; done)).
Defined.

(** ** Weighted plans *)

Section weighted_facts.
Context {Resolver : LeafTargetResolver}.
Context (count_prompt_tokens : ChatRequest → str → option Z).

(** What a weighted group owes its selection: the parser establishes both. *)
Definition weights_ok (children : list CompositeLeafNode) : Prop :=
  Forall (λ n, 0 < resolved_weight (leaf_selector n))%Z children ∧
  length (filter (λ n, leaf_first_annotation (leaf_selector n) = true) children) ≤ 1.

Lemma weights_ok_sublist k l : sublist k l → weights_ok l → weights_ok k.
Proof.
  intros Hs [H1 H2]. split.
  { rewrite !Forall_forall in H1 |- *. intros x Hx. apply H1. by eapply elem_of_sublist. }
  etransitivity; [by apply filter_length_sublist|done].
Qed.

Lemma suppress_thinkers_sublist c has eligible : sublist (suppress_thinkers c has eligible) eligible.
Proof.
  unfold suppress_thinkers, _filter_thinker_children_if_needed.
  destruct (has && _ && _); [apply sublist_nil_l|]. destruct (negb has); [|done].
  destruct (negb _); [done|]. apply sublist_filter.
Qed.

Lemma select_weighted_any r children prefer_first :
  children ≠ [] → weights_ok children →
  ∃ node, select leaf_selector r children prefer_first = Ok (Some node) ∧ node ∈ children.
Proof.
  intros Hne [Hpos Hfirst].
  destruct (select_weighted_ok leaf_selector r children Hne Hpos) as (node & k & Hw & _ & Hl).
  unfold select. cbv zeta. rewrite Hw. destruct children as [|c0 cs] eqn:Ec; [done|]. rewrite -Ec in Hl Hfirst |- *.
  assert (node ∈ children) by (by eapply list_elem_of_lookup_2).
  destruct prefer_first; [|eauto].
  destruct (filter _ children) as [|f [|]] eqn:Ef; [eauto| |simpl in Hfirst; lia].
  exists f. split; [done|].
  assert (f ∈ filter (λ n, leaf_first_annotation (leaf_selector n) = true) children) as Hf
    by (rewrite Ef; constructor).
  by apply list_elem_of_filter in Hf as [_ ?].
Qed.

Lemma build_sequence_elem children n :
  n ∈ _build_interleaved_thinking_sequence children → n ∈ children.
Proof.
  rewrite build_sequence_shares. intros (l & Hl & Hn)%list_elem_of_In%in_concat.
  apply list_elem_of_In in Hn, Hl.
  apply list_elem_of_fmap in Hl as (m & -> & Hm). unfold cycle_share, repeat_node in Hn.
  destruct (is_thinker m); [set_solver|]. by apply elem_of_replicate in Hn as [-> _].
Qed.

Lemma build_sequence_nonempty children :
  children ≠ [] → weights_ok children → _build_interleaved_thinking_sequence children ≠ [].
Proof.
  intros Hne [Hpos _] E. pose proof (build_sequence_shares children) as H. rewrite E in H.
  apply Permutation_nil_l in H. destruct children as [|x l]; [done|].
  apply Forall_cons in Hpos as [Hx _]. csimpl in H. unfold cycle_share, repeat_node in H.
  destruct (is_thinker x); [done|].
  destruct (Z.to_nat (resolved_weight (leaf_selector x))) eqn:Ex; [lia|done].
Qed.

(** Selection always returns one of the eligible branches. *)
Lemma select_weighted_leaf_ok r plan inp has eligible c :
  eligible ≠ [] → weights_ok eligible →
  ∃ leaf, fst (select_weighted_leaf r plan inp has eligible c) = Ok leaf ∧ leaf ∈ eligible.
Proof.
  intros Hne Hw. unfold select_weighted_leaf. destruct has.
  - pose proof (build_sequence_nonempty _ Hne Hw) as Hs.
    unfold _select_interleaved_thinking_weighted_cycle_leaf.
    pose proof (cycle_index_lt eligible (plan_normalized_selector plan)
      (in_prefer_first_weighted_branch inp) (in_weighted_cycle_state inp) Hs) as Hlt.
    destruct (Nat.eqb_spec (length (_build_interleaved_thinking_sequence eligible)) 0); [lia|].
    apply lookup_lt_is_Some in Hlt as [leaf Hl]. rewrite Hl. exists leaf. split; [done|].
    by eapply build_sequence_elem, list_elem_of_lookup_2.
  - destruct (select_weighted_any r eligible (in_prefer_first_weighted_branch inp) Hne Hw)
      as (leaf & Hs & Hl).
    destruct eligible as [|x [|y l]]; [done|exists x; split; [done|constructor]|].
    exists leaf. by rewrite Hs.
Qed.

(** Executing a weighted group with positive weights and at most one
    [first] branch never fails in selection: the answer is that of the resolver
    on one branch that is within its max-context, and on success the context
    holds the weighted-retry snapshot of that branch; the only other outcomes
    are the two typed unavailability errors, the first exactly when no branch
    is within its max-context. *)
Theorem execute_weighted_outcome r plan inp request publish children c :
  weights_ok children →
  let eligible := filter (λ n, within_max_context count_prompt_tokens
                                 (in_request_context_tokens inp) request n = true) children in
  let run := execute_weighted count_prompt_tokens r plan inp request publish children (Some c) in
  (eligible = [] ∧ fst run = Err (unavailable
      "All weighted branches exceeded max_context constraints." "max_context_exhausted")) ∨
  (eligible ≠ [] ∧ fst run = Err (unavailable
      "All weighted branches were excluded by interleaved thinking suppression."
      "interleaved_thinking_suppressed")) ∨
  (∃ leaf c1, leaf ∈ eligible ∧ fst run = fst (resolve_leaf request (leaf_selector leaf) c1) ∧
    (∀ t, fst run = Ok t → is_Some (snd (resolve_leaf request (leaf_selector leaf) c1)) →
     ∃ left, sublist left eligible ∧
     ctx_get COMPOSITE_ROUTING_STATE_KEY (snd run) = Some (weighted_retry_json (MkRetryState
       ((λ n, MkRetryBranch (node_text n) (resolved_weight (leaf_selector n))) <$> left)
       [] (node_text leaf) 0 (resolve_max_hops (in_configured_max_hops inp)))))).
Proof.
  intros Hw eligible run. subst run. unfold execute_weighted.
  rewrite (filter_by_max_context_gen count_prompt_tokens _ _ children ∅
    (cache_ok_empty count_prompt_tokens request)).
  fold eligible. set (history := _ <$> filter _ children).
  destruct (Nat.eqb_spec (length eligible) 0) as [E%nil_length_inv|Hne].
  { left. split; [done|]. by destruct publish. }
  assert (eligible ≠ []) as Hne' by (by destruct eligible).
  right. set (has := _has_thinker_branch children). set (left := suppress_thinkers (Some c) has eligible).
  assert (sublist left eligible) as Hsub by apply suppress_thinkers_sublist.
  erewrite stm_run_Ok; [|done]. cbv beta. fold left.
  destruct (Nat.eqb_spec (length left) 0) as [E|Hnl].
  { left. split; [done|]. by destruct publish. }
  right. assert (left ≠ []) as Hnl' by (by destruct left).
  assert (weights_ok left) as Hwl.
  { eapply weights_ok_sublist; [done|]. eapply weights_ok_sublist; [apply sublist_filter|done]. }
  destruct (select_weighted_leaf_ok r plan inp has left (Some c) Hnl' Hwl) as (leaf & Hsel & Hin).
  destruct (select_weighted_leaf r plan inp has left (Some c)) as [? c1] eqn:Hrun. simpl in Hsel. subst.
  exists leaf, c1. split; [by eapply elem_of_sublist|]. erewrite stm_run_Ok; [|exact Hrun].
  destruct (resolve_leaf request (leaf_selector leaf) c1) as [[t|e] c2] eqn:Hres.
  2: { erewrite stm_run_Err; [done|]. unfold _resolve_leaf. by erewrite stm_run_Err. }
  erewrite stm_run_Ok; [|unfold _resolve_leaf; by erewrite stm_run_Ok].
  destruct publish; (split; [done|]); intros ? _ [c3 Hc3]; simpl in Hc3; subst c2; exists left; split; try done.
  - erewrite stm_run_Ok; [|done]. erewrite stm_run_Ok; [|done].
    unfold Diagnostics.publish_selected_target. cbn [snd mret stm_ret]. rewrite publish_frame //.
    apply ctx_get_set_eq.
  - apply ctx_get_set_eq.
Qed.
End weighted_facts.

Definition taking_resolver : LeafTargetResolver := λ req leaf c,
  (Ok (MkTarget (leaf_backend_type leaf) (leaf_model_name leaf) []), c).

Lemma execute_weighted_outcome_witness :
  fst (execute_weighted (Resolver := taking_resolver) (λ _ _, None) (1 # 2)
         (MkPlan "s" "s" (LeafNode (sample_node 0 1 false).2)) (sample_input "x^y") (MkRequest "" [] [])
         false [sample_node 0 1 false; sample_node 1 2 false] (Some (MkContext None ∅))) =
  Ok (MkTarget "a" "b" []).
Proof.
  destruct (execute_weighted_outcome (Resolver := taking_resolver) (λ _ _, None) (1 # 2)
    (MkPlan "s" "s" (LeafNode (sample_node 0 1 false).2)) (sample_input "x^y") (MkRequest "" [] [])
    false [sample_node 0 1 false; sample_node 1 2 false] (MkContext None ∅)) as [[_ H]|[[_ H]|H]].
  - split; [by repeat constructor|vm_compute; lia].
  - by vm_compute in H.
  - by vm_compute in H.
  - by vm_compute.
Defined.

(** *** Suppression and the cycle *)

(** Suppression does not reach the thinking cycle: with thinker selection
    suppressed, a group whose cycle points at the thinker still selects it. *)
Theorem suppressed_thinker_still_selected :
  let c := MkContext None
    {[ INTERLEAVED_THINKING_SUPPRESS_THINKER_SELECTION_KEY := JBool true ]} in
  let children := [sample_node 0 1 true; sample_node 1 1 false] in
  let inp := MkInput "x^y" MAIN true None 32 "openai" false None
    (Some (cycle_state_json "s" (_build_interleaved_thinking_sequence children) 0)) in
  ctx_get COMPOSITE_SELECTED_LEAF_IS_THINKER_KEY
    (snd (execute_weighted (Resolver := taking_resolver) (λ _ _, None) 0
      (MkPlan "s" "s" (LeafNode (sample_node 0 1 true).2)) inp (MkRequest "" [] []) false children (Some c)))
  = Some (JBool true).
Proof. vm_compute. reflexivity. Qed.

(** *** Witnesses for the failover theorems *)

(** A resolver that fails on the first model and answers on the others. *)
Definition second_resolver : LeafTargetResolver := λ req leaf c,
  (if String.eqb (leaf_normalized_selector leaf) "m0"
   then Err (mk_RoutingError "no" [])
   else Ok (MkTarget "a" (leaf_normalized_selector leaf) []), c).

#[export] Instance second_lawful : LawfulResolver second_resolver.
Proof.
  refine {| leaf_answer := λ _ req leaf, fst (second_resolver req leaf None) |}; done.
Defined.

Lemma failover_chain_refines_witness :
  fst (_execute_failover_chain (Resolver := second_resolver) (λ _ _, None) (sample_input "x|y")
    (MkRequest "" [] []) true [sample_node 0 1 false; sample_node 1 1 false]
    (Some (MkContext None ∅))) = Ok (MkTarget "a" "m1" []).
Proof.
  destruct (failover_chain_refines (Resolver := second_resolver) (λ _ _, None) (sample_input "x|y")
    (MkRequest "" [] []) true [sample_node 0 1 false; sample_node 1 1 false] (MkContext None ∅))
    as [-> _]. by vm_compute.
Defined.

Lemma failover_chain_picks_first_witness :
  fst (_execute_failover_chain (Resolver := second_resolver) (λ _ _, None) (sample_input "x|y")
    (MkRequest "" [] []) true [sample_node 0 1 false; sample_node 1 1 false]
    (Some (MkContext None ∅))) = Ok (MkTarget "a" "m1" []).
Proof.
  apply (failover_chain_picks_first (Resolver := second_resolver) (λ _ _, None) (sample_input "x|y")
    (MkRequest "" [] []) true [sample_node 0 1 false; sample_node 1 1 false]
    (Some (MkContext None ∅)) (MkTarget "a" "m1" [])).
  exists 1, (sample_node 1 1 false). split; [done|]. split; [by vm_compute|].
  split; [|right; by vm_compute]. constructor; [by right|constructor].
Defined.
