(* ===== verification/RoutingService.v ===== *)
(** * Leaf resolution adapter and routing service

    Models [src/core/services/composite_leaf_target_resolver_adapter.py], which
    turns one leaf into a request for the backend model resolver, and
    [src/core/services/composite_routing_service.py], which parses a selector
    and executes the plan.  The backend model resolver is an argument. *)

From Stdlib Require Import Ascii.
From S2P Require Import Prelude PyStr PyDict Exceptions CompositeDomain ModelUtils SelectorParser.
From S2P Require Import WeightedSelector RoutingState RoutingCoordinator.
From stdpp Require Import options.

Definition RESOLVED_URI_PARAMS_EXTRA_BODY_KEY : str := "_resolved_uri_params".

(** [IBackendModelResolver.resolve_target]: its answer, and the extensions of
    the context after the call.  The context object itself and its session
    stay. *)
Class BackendModelResolver : Type := {
  bmr_answer : ChatRequest → option RequestContext → res exn BackendTarget;
  bmr_extensions : ChatRequest → RequestContext → gmap string json
}.

Definition resolve_target `{BackendModelResolver} (request : ChatRequest) : M BackendTarget :=
  λ context, (bmr_answer request context,
              match context with
              | Some c => Some (MkContext (ctx_session_id c) (bmr_extensions request c))
              | None => None
              end).

(** ** The adapter *)

(** The [extra_body] of the request for one leaf. *)
Definition leaf_extra_body (request : ChatRequest) (session_id : option str)
    (leaf : CompositeLeafSelector) : list (str * json) :=
  let leaf_selector := leaf_normalized_selector leaf in
  let explicit := has_explicit_backend_selector leaf_selector in
  let body := od_set COMPOSITE_LEAF_SELECTOR_EXTRA_BODY_KEY (JStr leaf_selector)
                (od_set COMPOSITE_LEAF_RESOLUTION_EXTRA_BODY_KEY (JBool true)
                   (req_extra_body request)) in
  let body := od_set COMPOSITE_LEAF_PARSED_MODEL_EXTRA_BODY_KEY (JStr (leaf_model_name leaf))
                (od_set COMPOSITE_LEAF_PARSED_BACKEND_EXTRA_BODY_KEY
                   (JStr (if explicit then leaf_backend_type leaf else "")) body) in
  let body :=
    if explicit then od_pop "backend_type" (od_set RESOLVED_URI_PARAMS_EXTRA_BODY_KEY
                                              (JDict (leaf_uri_params leaf)) body)
    else match leaf_uri_params leaf with
         | [] => body
         | uri_params => od_set RESOLVED_URI_PARAMS_EXTRA_BODY_KEY (JDict uri_params) body
         end in
  match session_id with
  | Some s => if negb (is_empty s) && negb (od_mem "session_id" body)
              then od_set "session_id" (JStr s) body else body
  | None => body
  end.

Definition leaf_request (request : ChatRequest) (session_id : option str)
    (leaf : CompositeLeafSelector) : ChatRequest :=
  MkRequest (leaf_normalized_selector leaf) (req_messages request)
    (leaf_extra_body request session_id leaf).

(** [resolve_leaf]: the flag is set during the call and restored by [finally]. *)
Definition adapter `{BackendModelResolver} : LeafTargetResolver := λ request leaf context,
  let lreq := leaf_request request (session_of context) leaf in
  match context with
  | None => resolve_target lreq None
  | Some c =>
      let previous_flag := ctx_get COMPOSITE_LEAF_RESOLUTION_FLAG context in
      let '(r, context') :=
        resolve_target lreq (ctx_set COMPOSITE_LEAF_RESOLUTION_FLAG (JBool true) context) in
      (r, match previous_flag with
          | None | Some JNull => ctx_pop COMPOSITE_LEAF_RESOLUTION_FLAG context'
          | Some flag => ctx_set COMPOSITE_LEAF_RESOLUTION_FLAG flag context'
          end)
  end.

(** ** The service *)

Section service.
Context {Resolver : LeafTargetResolver}.
Context (count_prompt_tokens : ChatRequest → str → option Z).
Context (parse_qs : str → option (list (str * list str))).

Definition _publish_routing_error_diagnostics (routing_input : CompositeRoutingInput)
    (routing_error : exn) (context : option RequestContext) : option RequestContext :=
  match as_str (od_get "reason" (ex_details routing_error)) with
  | Some reason =>
      if negb (is_empty reason) && str_in reason ["attempt_budget_exhausted"; "failover_exhausted"]
      then Diagnostics.publish_exhaustion (in_selector routing_input) (in_surface routing_input)
             reason (ex_details routing_error) None None context
      else context
  | None => context
  end.

(** The parser's exceptions as the service raises them. *)
Definition parser_exn (e : composite_exn) : exn :=
  match e with
  | CompositeSelectorValidationError env =>
      mk_LLMProxyError CompositeValidationError (env_message env)
        [("composite_validation", Diagnostics.envelope_json env)] (Some 400%Z)
  | PydanticValidationError msg => py_exception "ValidationError" msg
  | PyValueError msg => py_exception "ValueError" msg
  | PyOverflowError => py_exception "OverflowError" "cannot convert float infinity to integer"
  | OutOfFuel => py_exception "RuntimeError" ""
  end.

Definition service_resolve_target (random_value : Q) (routing_input : CompositeRoutingInput)
    (request : ChatRequest) : M BackendTarget := λ context,
  let should_publish :=
    Diagnostics.should_publish (in_selector routing_input) (in_surface routing_input) in
  match parse parse_qs routing_input with
  | Err e =>
      (Err (parser_exn e),
       match e with
       | CompositeSelectorValidationError env =>
           Diagnostics.publish_validation_error (in_selector routing_input)
             (in_surface routing_input) env context
       | _ => context
       end)
  | Ok plan =>
      match execute count_prompt_tokens random_value plan routing_input request context with
      | (Ok target, context') => (Ok target, context')
      | (Err e, context') =>
          (Err e, if isinstance (ex_class e) [RoutingError] && should_publish
                  then _publish_routing_error_diagnostics routing_input e context' else context')
      end
  end.
End service.

(** ** The adapter keeps the resolver's law *)

(** What the coordinator needs of the backend model resolver: the answer does
    not depend on the extensions, and the coordinator's own extensions are left
    alone. *)
Class LawfulBackendResolver (B : BackendModelResolver) : Type := {
  bmr_stable : ∀ req c1 c2, session_of c1 = session_of c2 → bmr_answer req c1 = bmr_answer req c2;
  bmr_frame : ∀ req c k,
    k ∈ [COMPOSITE_ROUTING_STATE_KEY; INTERLEAVED_THINKING_SUPPRESS_THINKER_SELECTION_KEY] →
    bmr_extensions req c !! k = ctx_extensions c !! k
}.

Lemma adapter_frame `{B : BackendModelResolver} request leaf c k :
  k ≠ COMPOSITE_LEAF_RESOLUTION_FLAG →
  ctx_get k (snd (adapter request leaf (Some c))) =
  bmr_extensions (leaf_request request (ctx_session_id c) leaf)
    (MkContext (ctx_session_id c) (<[COMPOSITE_LEAF_RESOLUTION_FLAG := JBool true]> (ctx_extensions c))) !! k.
Proof.
  intros Hk. unfold adapter. cbn [session_of mbind option_bind ctx_get ctx_set].
  destruct (ctx_extensions c !! COMPOSITE_LEAF_RESOLUTION_FLAG) as [[]|];
    cbn [resolve_target snd]; rewrite ?ctx_get_set_ne ?ctx_get_pop_ne //.
Qed.

#[export] Instance adapter_lawful `{LB : !LawfulBackendResolver B} : LawfulResolver adapter.
Proof.
  refine {| leaf_answer := λ s req leaf,
    bmr_answer (leaf_request req s leaf) (Some (MkContext s ∅)) |}.
  - intros req leaf [c|]; unfold adapter; simpl; apply bmr_stable; done.
  - intros req leaf [c|]; [|done]. unfold adapter. simpl.
    by destruct (ctx_extensions c !! COMPOSITE_LEAF_RESOLUTION_FLAG) as [[]|].
  - intros req leaf [c|] k Hk; [|done].
    assert (k ≠ COMPOSITE_LEAF_RESOLUTION_FLAG) as Hne.
    { intros ->. apply elem_of_cons in Hk as [[=]|[[=]|[]%not_elem_of_nil]%elem_of_cons]. }
    rewrite adapter_frame // bmr_frame //=. by rewrite lookup_insert_ne.
Defined.

(** What reading the flag gives: a stored null is no flag. *)
Definition flag_value (v : option json) : option json :=
  match v with Some JNull => None | _ => v end.

(** Leaf resolution is bracketed: during the call the backend resolver sees
    the leaf-resolution flag set and the leaf as the model, and afterwards -
    whether it returned or raised, and whatever it did to the extensions - the
    flag reads as it did before. *)
Theorem leaf_flag_restored `{B : BackendModelResolver} request leaf c :
  fst (adapter request leaf (Some c)) =
    bmr_answer (leaf_request request (ctx_session_id c) leaf)
      (ctx_set COMPOSITE_LEAF_RESOLUTION_FLAG (JBool true) (Some c)) ∧
  flag_value (ctx_get COMPOSITE_LEAF_RESOLUTION_FLAG (snd (adapter request leaf (Some c)))) =
    flag_value (ctx_get COMPOSITE_LEAF_RESOLUTION_FLAG (Some c)).
Proof.
  unfold adapter. simpl. split; [done|].
  destruct (ctx_extensions c !! COMPOSITE_LEAF_RESOLUTION_FLAG) as [[]|]; simpl;
    rewrite ?lookup_insert_eq ?lookup_delete_eq //.
Qed.

(** The extra body handed to the resolver marks the leaf: whatever the
    caller's extra body held, the resolution marker is set and the selector,
    backend and model are the leaf's own (no backend for a model-only leaf), an
    explicit leaf drops the caller's [backend_type], and every key the adapter
    does not own keeps its value. *)
Theorem leaf_extra_body_spec request session_id leaf :
  od_ok (req_extra_body request) →
  let body := leaf_extra_body request session_id leaf in
  let explicit := has_explicit_backend_selector (leaf_normalized_selector leaf) in
  od_get COMPOSITE_LEAF_RESOLUTION_EXTRA_BODY_KEY body = Some (JBool true) ∧
  od_get COMPOSITE_LEAF_SELECTOR_EXTRA_BODY_KEY body = Some (JStr (leaf_normalized_selector leaf)) ∧
  od_get COMPOSITE_LEAF_PARSED_MODEL_EXTRA_BODY_KEY body = Some (JStr (leaf_model_name leaf)) ∧
  od_get COMPOSITE_LEAF_PARSED_BACKEND_EXTRA_BODY_KEY body =
    Some (JStr (if explicit then leaf_backend_type leaf else "")) ∧
  (explicit = true → od_get "backend_type" body = None) ∧
  (∀ k, k ∉ [COMPOSITE_LEAF_RESOLUTION_EXTRA_BODY_KEY; COMPOSITE_LEAF_SELECTOR_EXTRA_BODY_KEY;
             COMPOSITE_LEAF_PARSED_MODEL_EXTRA_BODY_KEY; COMPOSITE_LEAF_PARSED_BACKEND_EXTRA_BODY_KEY;
             RESOLVED_URI_PARAMS_EXTRA_BODY_KEY; "backend_type"; "session_id"] →
   od_get k body = od_get k (req_extra_body request)).
Proof.
  intros Hok body explicit.
  assert (∀ k, k ≠ "session_id" → od_get k body =
    od_get k (leaf_extra_body request None leaf)) as Hsid.
  { intros k Hk. subst body. unfold leaf_extra_body. cbv zeta.
    destruct session_id as [s|]; [|done]. destruct (negb (is_empty s) && _); [|done].
    by apply od_get_set_ne. }
  rewrite !Hsid //.
  split_and!; unfold leaf_extra_body; cbv zeta; fold explicit.
  all: try (destruct explicit; [rewrite od_get_pop_ne //|destruct (leaf_uri_params leaf)];
    repeat (rewrite od_get_set_eq // || rewrite od_get_set_ne //); done).
  - intros ->. apply od_get_pop_eq. auto 20 with proxy.
  - intros k Hk. rewrite Hsid; [set_solver|]. unfold leaf_extra_body. cbv zeta. fold explicit.
    rewrite !not_elem_of_cons in Hk. destruct_and! Hk.
    destruct explicit; [rewrite od_get_pop_ne //|destruct (leaf_uri_params leaf)];
      rewrite !od_get_set_ne //.
Qed.

Lemma leaf_extra_body_spec_witness :
  od_get "backend_type" (leaf_extra_body (MkRequest "m" [] [("backend_type", JStr "x")]) None
    (sample_leaf 1 false)) = None.
Proof.
  destruct (leaf_extra_body_spec (MkRequest "m" [] [("backend_type", JStr "x")]) None
    (sample_leaf 1 false)) as (_ & _ & _ & _ & H & _).
  - apply NoDup_singleton.
  - apply H. reflexivity.
Defined.

(** ** End to end *)

Lemma nodes_snd children : (nodes children).*2 = children.
Proof. unfold nodes. rewrite fmap_imap. apply list_eq. intros i. rewrite list_lookup_imap. by destruct (children !! i). Qed.

Lemma length_filter_fmap {A B} (f : A → B) (P : B → Prop) `{!∀ x, Decision (P x)} (l : list A) :
  length (filter P (f <$> l)) = length (filter (λ x, P (f x)) l).
Proof. induction l as [|x l IH]; csimpl; [done|]. rewrite !filter_cons. by case_decide; simpl; rewrite IH. Qed.

(** The parser's promise is the coordinator's precondition. *)
Lemma weights_ok_of_plan children :
  node_wf (WeightedGroup children) → weights_ok (nodes children).
Proof.
  intros (_ & Hwf & Hfirst & _). rewrite -(nodes_snd children) in Hwf Hfirst.
  rewrite length_filter_fmap in Hfirst. split; [|done].
  rewrite Forall_fmap in Hwf. eapply Forall_impl; [exact Hwf|].
  intros [i l] [_ _ (w & Hw & Hpos) _ _ _]. simpl in *. unfold resolved_weight. by rewrite Hw.
Qed.

Lemma spec_chain_Err i st vs e :
  fst (spec_chain i st vs) = Err e → VStop e ∈ vs ∨ ex_class e = RoutingError.
Proof.
  revert i st; induction vs as [|v vs IH]; intros i st; cbn [spec_chain].
  { intros [= <-]. by right. }
  destruct v as [|t| |e'].
  - intros [?|?]%IH; [left; by right|by right].
  - done.
  - destruct (fs_max_hops st <=? fs_hop_count st)%Z; [intros [= <-]; by right|].
    destruct vs as [|v' vs']; [intros [= <-]; by right|].
    intros [?|?]%IH; [left; by right|by right].
  - intros [= <-]. left. by left.
Qed.

Section service_facts.
Context {Resolver : LeafTargetResolver} {LR : LawfulResolver Resolver}.
Context (count_prompt_tokens : ChatRequest → str → option Z).
Context (parse_qs : str → option (list (str * list str))).

(** The exceptions the coordinator may raise. *)
Definition execute_error_ok (plan : CompositeRoutePlan) (request : ChatRequest) (e : exn) : Prop :=
  ex_class e = RoutingError ∨
  (∃ ls, plan_root_node plan = ParallelGroup ls ∧ ex_class e = ConfigurationError) ∨
  (∃ s leaf, leaf_answer s request leaf = Err e).

Lemma resolve_node_err request leaf c e :
  fst (_resolve_leaf request leaf c) = Err e →
  ∃ s, leaf_answer s request (leaf_selector leaf) = Err e.
Proof. destruct (resolve_leaf_spec request leaf c) as [-> _]. eauto. Qed.

Lemma execute_leaf_err inp request publish root c e :
  fst (execute_leaf count_prompt_tokens inp request publish root c) = Err e →
  ex_class e = RoutingError ∨ ∃ s leaf, leaf_answer s request leaf = Err e.
Proof.
  unfold execute_leaf. destruct (fst (_is_branch_eligible_for_max_context _ _ _ _ _)).
  - pose proof (resolve_node_err request root c) as H.
    destruct (_resolve_leaf request root c) as [[t|e'] c'] eqn:E.
    + erewrite stm_run_Ok; [|exact E]. by destruct publish.
    + erewrite stm_run_Err; [|exact E]. intros He. right. destruct (H e) as [s Hs]; eauto.
  - destruct publish; intros [= <-]; by left.
Qed.

Lemma failover_err inp request publish children c e :
  fst (_execute_failover_chain count_prompt_tokens inp request publish children c) = Err e →
  ex_class e = RoutingError ∨ ∃ s leaf, leaf_answer s request leaf = Err e.
Proof.
  destruct (chain_refines count_prompt_tokens inp request publish children c) as [-> _].
  unfold chain_contract. intros [Hv|?]%spec_chain_Err; [|by left]. right.
  apply list_elem_of_fmap in Hv as (leaf & Hv & _). unfold branch_verdict in Hv.
  destruct (_ && _); [done|]. destruct (negb _); [done|].
  destruct (leaf_answer _ _ _) as [t|e'] eqn:E; [done|].
  destruct (_is_failover_eligible_leaf_resolution_error e'); [done|]. simplify_eq. eauto.
Qed.

(** Weighted execution raises only the two unavailability errors and what the
    resolver raises. *)
Lemma weighted_err r plan inp request publish children c e :
  weights_ok children →
  fst (execute_weighted count_prompt_tokens r plan inp request publish children c) = Err e →
  ex_class e = RoutingError ∨ ∃ s leaf, leaf_answer s request leaf = Err e.
Proof.
  intros Hw. unfold execute_weighted.
  rewrite (filter_by_max_context_gen count_prompt_tokens _ _ children ∅
    (cache_ok_empty count_prompt_tokens request)).
  set (eligible := filter _ children). destruct (length eligible =? 0).
  { destruct publish; intros [= <-]; by left. }
  erewrite stm_run_Ok; [|done]. cbv beta.
  pose proof (suppress_thinkers_sublist c (_has_thinker_branch children) eligible) as Hsub.
  set (left := suppress_thinkers c (_has_thinker_branch children) eligible) in *.
  destruct (Nat.eqb_spec (length left) 0) as [E|Hnl].
  { destruct publish; intros [= <-]; by left. }
  assert (left ≠ []) as Hne by (by destruct left).
  assert (weights_ok left) as Hwl.
  { eapply weights_ok_sublist; [done|]. eapply weights_ok_sublist; [apply sublist_filter|done]. }
  destruct (select_weighted_leaf_ok r plan inp (_has_thinker_branch children) left c Hne Hwl)
    as (leaf & Hsel & _).
  destruct (select_weighted_leaf r plan inp _ left c) as [? c1] eqn:Hrun. simpl in Hsel. subst.
  erewrite stm_run_Ok; [|exact Hrun]. pose proof (resolve_node_err request leaf c1) as H.
  destruct (_resolve_leaf request leaf c1) as [[t|e'] c'] eqn:E.
  - erewrite stm_run_Ok; [|exact E]. by destruct publish.
  - erewrite stm_run_Err; [|exact E]. intros He. right. destruct (H e) as [s Hs]; eauto.
Qed.

Lemma execute_err r plan inp request c e :
  plan_wf plan →
  fst (execute count_prompt_tokens r plan inp request c) = Err e → execute_error_ok plan request e.
Proof.
  intros (_ & _ & Hwf) He. unfold execute in He. unfold execute_error_ok.
  destruct (plan_root_node plan) as [l|ls|ls|ls].
  - apply execute_leaf_err in He as [?|?]; auto.
  - apply failover_err in He as [?|?]; auto.
  - apply weighted_err in He as [?|?]; [auto..|]. by apply weights_ok_of_plan.
  - injection He as <-. right. left. eauto.
Qed.

(** Routing a selector raises only what its callers handle: a composite
    validation error (400) when the selector is rejected, a routing error when
    no branch is available, a configuration error exactly for parallel groups,
    or an exception of the leaf resolver - never a selection or indexing
    failure; the exceptions are a parallel selector with a non-finite timing and a
    number of more than 4300 digits. *)
Theorem service_errors_expected r inp request c e :
  fst (service_resolve_target count_prompt_tokens parse_qs r inp request c) = Err e →
  (ex_class e = CompositeValidationError ∧ ex_status_code e = 400%Z) ∨
  ex_class e = RoutingError ∨
  (ex_class e = ConfigurationError ∧
   ∃ p ls, parse parse_qs inp = Ok p ∧ plan_root_node p = ParallelGroup ls) ∨
  (∃ s leaf, leaf_answer s request leaf = Err e) ∨
  (_detect_primary_operator (strip (in_selector inp)) = Some "!"%char ∧
   ex_class e ∈ [PyException "OverflowError"; PyException "ValueError"]) ∨
  (ex_class e = PyException "ValueError" ∧
   ∃ d, substr d (in_selector inp) ∧ all_digits d = true ∧ MAX_STR_DIGITS < String.length d).
Proof.
  unfold service_resolve_target. pose proof (parse_outcome parse_qs inp) as Hp.
  destruct (parse parse_qs inp) as [p|pe] eqn:Ep.
  - destruct Hp as [Hwf _].
    destruct (execute count_prompt_tokens r p inp request c) as [[t|e'] c'] eqn:Ex; [done|].
    intros [= <-]. assert (fst (execute count_prompt_tokens r p inp request c) = Err e') as He by (by rewrite Ex).
    apply execute_err in He as [?|[(ls & ? & ?)|?]]; eauto 10.
  - intros [= <-]. destruct Hp as [(env & -> & _)|[(d & ? & ? & ? & ->)|(Hd & part & _ & a & rest & x & _ & _ & Hx)]].
    + by left.
    + do 5 right. split; [done|]. eauto.
    + do 4 right. left. split; [done|]. destruct Hx as [[_ ->]|[_ ->]]; simpl; set_solver.
Qed.
End service_facts.

Lemma service_errors_expected_witness :
  fst (service_resolve_target (Resolver := second_resolver) (λ _ _, None) no_query 0
         (sample_input "a:b!c:d") (MkRequest "" [] []) None) =
    Err (mk_ConfigurationError ("Parallel composite routing plans must be executed through " +:+
           "ParallelCompletionOrchestrator, not CompositeRoutingCoordinator.") []) ∧
  ∃ p ls, parse no_query (sample_input "a:b!c:d") = Ok p ∧ plan_root_node p = ParallelGroup ls.
Proof.
  split; [vm_compute; reflexivity|].
  destruct (service_errors_expected (Resolver := second_resolver) (λ _ _, None) no_query 0
    (sample_input "a:b!c:d") (MkRequest "" [] []) None
    (mk_ConfigurationError ("Parallel composite routing plans must be executed through " +:+
       "ParallelCompletionOrchestrator, not CompositeRoutingCoordinator.") [])
    ltac:(vm_compute; reflexivity)) as [[H _]|[H|[[_ H]|[(s & leaf & H)|[[_ H]|[H _]]]]]]; [done|done|exact H| | |done].
  - exfalso. cbn in H. destruct (String.eqb _ _); done.
  - exfalso. cbn in H. set_solver.
Defined.
