(* ===== verification/RecoveryBridge.v ===== *)
(** * Recovery after a backend failure

    Models [src/core/services/composite_failure_recovery_bridge.py]: from the
    runtime state the coordinator left in the request context, build the
    request for the next branch - the next failover branch, or a new weighted
    draw among the branches not yet tried - within the hop budget. *)

From S2P Require Import Prelude PyStr PyDict Exceptions CompositeDomain ModelUtils SelectorParser.
From S2P Require Import WeightedSelector RoutingState RoutingCoordinator RoutingService.
From stdpp Require Import options.

(** ** Which errors allow a new weighted draw *)

Definition _is_weighted_reroll_eligible (exc : exn) : bool :=
  if isinstance (ex_class exc) [CancelledError] then false
  else if isinstance (ex_class exc)
            [AuthenticationError; SessionCancelledError; ConfigurationError; ValidationError;
             InvalidRequestError; RoutingError; TranslationError; ParsingError] then false
  else if isinstance (ex_class exc) [BackendError] then
    if bool_decide (ex_status_code exc ∈ [401; 403; 499]%Z) then false
    else
      let error_code :=
        match ex_code exc with
        | Some code => if is_empty code then as_str (od_get "code" (ex_details exc)) else Some code
        | None => as_str (od_get "code" (ex_details exc))
        end in
      match error_code with
      | Some code => negb (str_in code ["invalid_api_key"; "authentication_failed"; "unauthorized";
                                        "forbidden"])
      | None => true
      end
  else false.

(** ** Loading the state *)

Definition _load_failover_state (context : option RequestContext) : option FailoverRuntimeState :=
  match ctx_get COMPOSITE_ROUTING_STATE_KEY context with
  | Some (JDict raw_state) =>
      match as_str (od_get "mode" raw_state), as_str_list (od_get "branches" raw_state),
            as_int (od_get "next_index" raw_state), as_int (od_get "hop_count" raw_state),
            as_int (od_get "max_hops" raw_state) with
      | Some mode, Some branches, Some next_index, Some hop_count, Some max_hops =>
          if String.eqb mode FAILOVER_MODE && (0 <=? next_index)%Z && (0 <=? hop_count)%Z &&
             (0 <? max_hops)%Z
          then Some (MkFailoverState branches next_index hop_count max_hops)
          else None
      | _, _, _, _, _ => None
      end
  | _ => None
  end.

(** One stored branch, stripped; [None] makes the whole state unusable. *)
Definition load_branch (branch : json) : option WeightedRetryBranch :=
  match branch with
  | JDict d =>
      match as_str (od_get "selector" d), as_int (od_get "weight" d) with
      | Some selector, Some weight =>
          if is_empty (strip selector) || (weight <=? 0)%Z then None
          else Some (MkRetryBranch (strip selector) weight)
      | _, _ => None
      end
  | _ => None
  end.

Definition _load_weighted_state (context : option RequestContext) : option WeightedRetryRuntimeState :=
  match ctx_get COMPOSITE_ROUTING_STATE_KEY context with
  | Some (JDict raw_state) =>
      match as_str (od_get "mode" raw_state) with
      | Some mode =>
          if negb (String.eqb mode WEIGHTED_RETRY_MODE) then None
          else
          match od_get "branches" raw_state, as_str_list (od_get "excluded_selectors" raw_state),
                as_str (od_get "selected_selector" raw_state), as_int (od_get "hop_count" raw_state),
                as_int (od_get "max_hops" raw_state) with
          | Some (JList branches), Some excluded, Some selected, Some hop_count, Some max_hops =>
              if is_empty (strip selected) || (hop_count <? 0)%Z || (max_hops <=? 0)%Z then None
              else if length branches =? 0 then None
              else
                normalized_branches ← mapM load_branch branches;
                if str_in selected (wb_selector <$> normalized_branches)
                then Some (MkRetryState normalized_branches excluded selected hop_count max_hops)
                else None
          | _, _, _, _, _ => None
          end
      | None => None
      end
  | _ => None
  end.

(** ** Building the next request *)

Section bridge.
Context (parse_qs : str → option (list (str * list str))).

(** The request for [selector], with its URI parameters and backend. *)
Definition retarget_request (request : ChatRequest) (selector : str) : ChatRequest :=
  let parsed := parse_model_with_params parse_qs selector "" in
  let extra_body := od_set RESOLVED_URI_PARAMS_EXTRA_BODY_KEY (JDict (pp_uri_params parsed))
                      (req_extra_body request) in
  let extra_body := if is_empty (pp_backend_type parsed) then od_pop "backend_type" extra_body
                    else od_set "backend_type" (JStr (pp_backend_type parsed)) extra_body in
  MkRequest selector (req_messages request) extra_body.

Definition _publish_exhaustion (request : ChatRequest) (reason : str) (details : list (str * json)) :
    M unit :=
  modify (λ context, Diagnostics.publish_exhaustion (req_model request)
            (resolve_composite_routing_surface context) reason details None None context).

Definition persist_weighted (weighted : WeightedRetryRuntimeState) : M unit :=
  modify (ctx_set COMPOSITE_ROUTING_STATE_KEY (weighted_retry_json weighted)).

Definition not_excluded (excluded : list str) (branches : list WeightedRetryBranch) :
    list WeightedRetryBranch :=
  filter (λ item, str_in (wb_selector item) excluded = false) branches.

(** The excluded selectors and the candidates of the next draw: when every
    branch has been tried, only the one that just failed stays excluded. *)
Definition next_round (weighted : WeightedRetryRuntimeState) : list str * list WeightedRetryBranch :=
  let selected := wr_selected_selector weighted in
  let excluded := if str_in selected (wr_excluded_selectors weighted)
                  then wr_excluded_selectors weighted
                  else wr_excluded_selectors weighted ++ [selected] in
  match not_excluded excluded (wr_branches weighted) with
  | [] => ([selected], not_excluded [selected] (wr_branches weighted))
  | remaining => (excluded, remaining)
  end.

(** The draw among the candidates. *)
Definition draw_branch (random_value : Q) (remaining : list WeightedRetryBranch) : res exn str :=
  match remaining with
  | [only] => Ok (wb_selector only)
  | _ =>
      match select_index_from_weights random_value (wb_weight <$> remaining) with
      | Ok i => match remaining !! i with
                | Some b => Ok (wb_selector b)
                | None => Err (py_exception "IndexError" "list index out of range")
                end
      | Err e => Err (weight_value_error e)
      end
  end.

Definition _build_weighted_retry_request (random_value : Q) (request : ChatRequest)
    (weighted : WeightedRetryRuntimeState) (error : option exn) : M (option ChatRequest) :=
  if negb (match error with Some e => _is_weighted_reroll_eligible e | None => false end)
  then mret None
  else
  let hop_count := wr_hop_count weighted in
  let max_hops := wr_max_hops weighted in
  if (max_hops <=? hop_count)%Z then
    _ ← _publish_exhaustion request "attempt_budget_exhausted"
          [("hop_count", JInt hop_count); ("max_hops", JInt max_hops)];
    raise (build_budget_exhausted_error (MkFailoverState [] 0 hop_count max_hops))
  else
  let '(excluded, remaining) := next_round weighted in
  match remaining with
  | [] =>
      _ ← persist_weighted (MkRetryState (wr_branches weighted) excluded
            (wr_selected_selector weighted) hop_count max_hops);
      mret None
  | _ =>
      next_selector ← lift (draw_branch random_value remaining);
      _ ← persist_weighted (MkRetryState (wr_branches weighted) excluded next_selector
            (hop_count + 1) max_hops);
      mret (Some (retarget_request request next_selector))
  end.

Definition next_failover_request (request : ChatRequest) (state : FailoverRuntimeState) :
    M (option ChatRequest) :=
  if (fs_max_hops state <=? fs_hop_count state)%Z then
    _ ← _publish_exhaustion request "attempt_budget_exhausted"
          [("hop_count", JInt (fs_hop_count state)); ("max_hops", JInt (fs_max_hops state))];
    raise (build_budget_exhausted_error state)
  else match fs_branches state !! Z.to_nat (fs_next_index state) with
  | None =>
      _ ← _publish_exhaustion request "failover_exhausted" (exhausted_details state);
      raise (build_failover_exhausted_error state)
  | Some selector =>
      _ ← _persist_state (MkFailoverState (fs_branches state) (fs_next_index state + 1)
            (fs_hop_count state + 1) (fs_max_hops state));
      mret (Some (retarget_request request selector))
  end.

Definition build_next_request (random_value : Q) (request : ChatRequest) (content_started : bool)
    (error : option exn) : M (option ChatRequest) := λ context,
  match context with
  | None => (Ok None, context)
  | Some _ =>
      if content_started || truthy (ctx_get "meaningful_output_emitted" context)
      then (Ok None, context)
      else match _load_weighted_state context with
      | Some weighted => _build_weighted_retry_request random_value request weighted error context
      | None =>
          match _load_failover_state context with
          | None => (Ok None, context)
          | Some state => next_failover_request request state context
          end
      end
  end.
End bridge.

(** ** The snapshot survives the context *)

Record retry_ok (st : WeightedRetryRuntimeState) : Prop := {
  rok_branches : Forall (λ b, stripped (wb_selector b) ∧ wb_selector b ≠ "" ∧ (0 < wb_weight b)%Z)
                   (wr_branches st);
  rok_selected : wr_selected_selector st ∈ wb_selector <$> wr_branches st;
  rok_hops : (0 <= wr_hop_count st)%Z;
  rok_max : (0 < wr_max_hops st)%Z
}.

Lemma load_branches_json branches :
  Forall (λ b, stripped (wb_selector b) ∧ wb_selector b ≠ "" ∧ (0 < wb_weight b)%Z) branches →
  mapM load_branch ((λ b, JDict [("selector", JStr (wb_selector b)); ("weight", JInt (wb_weight b))])
    <$> branches) = Some branches.
Proof.
  induction 1 as [|[s w] l (Hs & Hne & Hw) _ IH]; csimpl; [done|]. rewrite IH.
  simpl in *. rewrite Hs. destruct (Z.leb_spec w 0); [lia|]. by destruct s.
Qed.

Lemma str_in_spec s l : str_in s l = true ↔ s ∈ l.
Proof.
  unfold str_in. rewrite existsb_exists. split.
  - intros (x & Hx%list_elem_of_In & ->%String.eqb_eq). done.
  - intros H. exists s. split; [by apply list_elem_of_In|apply String.eqb_refl].
Qed.

Lemma load_weighted_json st c :
  retry_ok st →
  _load_weighted_state (ctx_set COMPOSITE_ROUTING_STATE_KEY (weighted_retry_json st) (Some c)) = Some st.
Proof.
  intros [Hb Hs Hh Hm]. unfold _load_weighted_state. rewrite ctx_get_set_eq.
  pose proof (as_str_list_strs (wr_excluded_selectors st)) as Hl.
  pose proof (load_branches_json _ Hb) as Hlb.
  unfold weighted_retry_json. cbn [od_get]. repeat (case_decide; [try done|try done]).
  cbn [as_str as_int negb]. rewrite String.eqb_refl Hl. cbn [negb].
  assert (is_empty (strip (wr_selected_selector st)) = false) as ->.
  { apply list_elem_of_fmap in Hs as (b & -> & Hin). rewrite Forall_forall in Hb.
    destruct (Hb b Hin) as (Hst & Hne & _). rewrite Hst. by destruct (wb_selector b). }
  destruct (Z.ltb_spec (wr_hop_count st) 0); [lia|]. destruct (Z.leb_spec (wr_max_hops st) 0); [lia|].
  cbn [orb]. rewrite length_fmap.
  destruct (Nat.eqb_spec (length (wr_branches st)) 0) as [E%nil_length_inv|_].
  { rewrite E in Hs. by apply not_elem_of_nil in Hs. }
  rewrite Hlb /=. apply str_in_spec in Hs. rewrite Hs. by destruct st.
Qed.

(** The snapshot the coordinator stores after a weighted choice is one the
    bridge accepts, unchanged: for branches as the parser makes them, loading
    what was stored gives back the same branches, weights, exclusions, choice
    and budget. *)
Theorem weighted_snapshot_roundtrip eligible selected configured c :
  Forall (λ n, leaf_wf KWeighted (leaf_selector n)) eligible → selected ∈ eligible →
  _load_weighted_state (snd (_persist_weighted_retry_state eligible selected configured (Some c))) =
  Some (MkRetryState
    ((λ n, MkRetryBranch (node_text n) (resolved_weight (leaf_selector n))) <$> eligible)
    [] (node_text selected) 0 (resolve_max_hops configured)).
Proof.
  intros Hwf Hsel. apply load_weighted_json. split; simpl.
  - rewrite Forall_fmap. eapply Forall_impl; [exact Hwf|]. intros n [_ [? ?] (w & Hw & Hpos) _ _ _].
    simpl. unfold resolved_weight. rewrite Hw. done.
  - rewrite -list_fmap_compose. apply list_elem_of_fmap. exists selected. done.
  - done.
  - apply resolve_max_hops_pos.
Qed.

Lemma weighted_snapshot_roundtrip_witness :
  _load_weighted_state (snd (_persist_weighted_retry_state [sample_node 0 2 false] (sample_node 0 2 false)
    None (Some (MkContext None ∅)))) =
  Some (MkRetryState [MkRetryBranch "m0" 2] [] "m0" 0 5).
Proof.
  apply (weighted_snapshot_roundtrip [sample_node 0 2 false] (sample_node 0 2 false) None
    (MkContext None ∅)).
  - constructor; [|constructor]. split; simpl; try done. by exists 2%Z.
  - constructor.
Defined.

(** ** A retry makes progress *)

Lemma next_round_spec st excluded remaining :
  next_round st = (excluded, remaining) →
  wr_selected_selector st ∈ excluded ∧
  remaining = not_excluded excluded (wr_branches st) ∧
  (excluded = [wr_selected_selector st] ∨
   remaining ≠ [] ∧
   ∀ s, s ∈ excluded ↔ s ∈ wr_excluded_selectors st ∨ s = wr_selected_selector st).
Proof.
  unfold next_round. cbv zeta.
  set (ex := if str_in _ _ then _ else _).
  assert (wr_selected_selector st ∈ ex ∧
    ∀ s, s ∈ ex ↔ s ∈ wr_excluded_selectors st ∨ s = wr_selected_selector st) as [Hin Hex].
  { subst ex. destruct (str_in _ _) eqn:E.
    - apply str_in_spec in E. split; [done|]. intros s. split; [by left|]. by intros [?| ->].
    - split; [set_solver|]. intros s. set_solver. }
  destruct (not_excluded ex _) eqn:E; intros [= <- <-]; split_and!; try done; [set_solver|by left|].
  by right.
Qed.

Lemma not_excluded_elem ex branches b :
  b ∈ not_excluded ex branches ↔ b ∈ branches ∧ wb_selector b ∉ ex.
Proof.
  unfold not_excluded. rewrite list_elem_of_filter. rewrite -(str_in_spec (wb_selector b) ex).
  destruct (str_in _ _); naive_solver.
Qed.

Lemma draw_branch_ok r remaining :
  remaining ≠ [] → Forall (λ b, 0 < wb_weight b)%Z remaining →
  ∃ b, draw_branch r remaining = Ok (wb_selector b) ∧ b ∈ remaining.
Proof.
  intros Hne Hpos. destruct remaining as [|b1 [|b2 l]]; [done|exists b1; split; [done|constructor]|].
  cbn [draw_branch].
  destruct (select_index_ok r (wb_weight <$> b1 :: b2 :: l)) as (k & -> & Hk);
    [by apply Forall_fmap|done|].
  assert (0 <= clamp_random r * inject_Z (sumZ (wb_weight <$> b1 :: b2 :: l)))%Q as H0.
  { pose proof (clamp_bounds r).
    assert (0 <= sumZ (wb_weight <$> b1 :: b2 :: l))%Z as Hn by (by apply sumZ_nonneg, Forall_fmap).
    rewrite Zle_Qle in Hn. change (inject_Z 0) with 0%Q in Hn. nra. }
  apply cumulative_search_spec in Hk as (k' & -> & Hlen & _); [|by apply Forall_fmap|done].
  rewrite length_fmap in Hlen.
  destruct (lookup_lt_is_Some_2 (b1 :: b2 :: l) (0 + k') Hlen) as [b Hb].
  exists b. rewrite Hb. split; [done|]. by eapply list_elem_of_lookup_2.
Qed.

Section bridge_facts.
Context (parse_qs : str → option (list (str * list str))).

(** The outcome of one weighted retry, from a usable snapshot. *)
Definition retry_step_ok (st : WeightedRetryRuntimeState) (run : res exn (option ChatRequest) * option RequestContext) : Prop :=
  match run with
  | (Ok (Some req), c') =>
      ∃ st', _load_weighted_state c' = Some st' ∧ retry_ok st' ∧
        (wr_hop_count st < wr_max_hops st)%Z ∧ wr_hop_count st' = (wr_hop_count st + 1)%Z ∧
        wr_max_hops st' = wr_max_hops st ∧ wr_branches st' = wr_branches st ∧
        wr_selected_selector st' = req_model req ∧
        req_model req ∉ wr_excluded_selectors st' ∧ req_model req ≠ wr_selected_selector st ∧
        wr_selected_selector st ∈ wr_excluded_selectors st'
  | (Ok None, _) => ∀ b, b ∈ wr_branches st → wb_selector b = wr_selected_selector st
  | (Err e, _) => (wr_max_hops st <= wr_hop_count st)%Z ∧ ex_class e = RoutingError
  end.

Lemma weighted_retry_step r request st error c :
  retry_ok st → _is_weighted_reroll_eligible error = true →
  retry_step_ok st (_build_weighted_retry_request parse_qs r request st (Some error) (Some c)).
Proof.
  intros Hok He. unfold _build_weighted_retry_request. rewrite He. cbn [negb].
  destruct (Z.leb_spec (wr_max_hops st) (wr_hop_count st)) as [Hle|Hlt]; [by split|].
  destruct (next_round st) as [excluded remaining] eqn:En.
  apply next_round_spec in En as (Hsel & Hrem & Hex).
  destruct remaining as [|b0 l] eqn:Er.
  { intros b Hb. destruct Hex as [->|[? _]]; [|done].
    destruct (decide (wb_selector b = wr_selected_selector st)) as [|Hne]; [done|].
    exfalso. assert (b ∈ not_excluded [wr_selected_selector st] (wr_branches st)) as H.
    { apply not_excluded_elem. set_solver. }
    rewrite -Hrem in H. by apply not_elem_of_nil in H. }
  rewrite -Er in Hrem Hex |- *. destruct Hok as [Hb Hs Hh Hm].
  assert (Forall (λ b, 0 < wb_weight b)%Z remaining) as Hpos.
  { apply Forall_forall. intros b Hin. rewrite Hrem in Hin. apply not_excluded_elem in Hin as [Hin _].
    rewrite Forall_forall in Hb. by destruct (Hb b Hin) as (_ & _ & ?). }
  destruct (draw_branch_ok r remaining) as (b & Hd & Hin); [by rewrite Er|done|].
  rewrite Er in Hd |- *. erewrite stm_run_Ok; [|unfold lift; by rewrite Hd]. cbn.
  rewrite Hrem in Hin. apply not_excluded_elem in Hin as [Hin Hnex].
  eexists. split.
  { apply load_weighted_json. split; simpl; [done|by apply list_elem_of_fmap_2|lia|done]. }
  simpl. split_and!; try done; [|by intros E; rewrite E in Hnex].
  split; simpl; [done|by apply list_elem_of_fmap_2|lia|done].
Qed.

(** A weighted retry makes progress: from a usable snapshot and an eligible
    error it either raises the budget error exactly when the budget is used up,
    or gives up because no branch has another selector, or moves to a branch of
    the group that is neither the one that failed nor excluded, leaves a usable
    snapshot with one more hop, and records the failed branch as excluded. *)
Theorem weighted_retry_progress r request error c st :
  _load_weighted_state (Some c) = Some st → retry_ok st →
  _is_weighted_reroll_eligible error = true →
  truthy (ctx_get "meaningful_output_emitted" (Some c)) = false →
  retry_step_ok st (build_next_request parse_qs r request false (Some error) (Some c)).
Proof.
  intros Hl Hok He Ho. unfold build_next_request. rewrite Ho Hl /=. by apply weighted_retry_step.
Qed.

(** Failures in a row: the selectors tried, one per failure, until the bridge
    stops answering. *)
Fixpoint retry_run (request : ChatRequest) (failures : list (Q * exn)) (c : option RequestContext) :
    list str :=
  match failures with
  | [] => []
  | (r, e) :: failures' =>
      match build_next_request parse_qs r request false (Some e) c with
      | (Ok (Some req), c') => req_model req :: retry_run req failures' c'
      | _ => []
      end
  end.

Lemma weighted_retry_emitted r request st error c c' o :
  _build_weighted_retry_request parse_qs r request st (Some error) (Some c) = (o, c') →
  ctx_get "meaningful_output_emitted" c' = ctx_get "meaningful_output_emitted" (Some c).
Proof.
  unfold _build_weighted_retry_request. destruct (negb _); [by intros [= _ <-]|].
  destruct (_ <=? _)%Z.
  { unfold _publish_exhaustion, mbind, stm_bind, modify. intros [= _ <-].
    unfold Diagnostics.publish_exhaustion. by rewrite publish_frame. }
  destruct (next_round st) as [ex [|b l]].
  { intros [= _ <-]. by rewrite (ctx_get_set_ne _ _ _ (Some c)). }
  unfold lift, mbind, stm_bind. destruct (draw_branch r (b :: l)); intros [= _ <-]; [|done].
  by rewrite (ctx_get_set_ne _ _ _ (Some c)).
Qed.

(** C39: Weighted recovery terminates: however many eligible failures follow
    each other and whatever is drawn, no more than the remaining hop budget of
    retries is ever issued, and every selector tried is one of the group's. *)
Theorem weighted_retries_bounded request failures c st :
  _load_weighted_state c = Some st → retry_ok st →
  truthy (ctx_get "meaningful_output_emitted" c) = false →
  Forall (λ f, _is_weighted_reroll_eligible f.2 = true) failures →
  (Z.of_nat (length (retry_run request failures c)) <= Z.max 0 (wr_max_hops st - wr_hop_count st))%Z ∧
  Forall (λ s, s ∈ wb_selector <$> wr_branches st) (retry_run request failures c).
Proof.
  intros Hl Hok Ho Hf. revert request c st Hl Hok Ho.
  induction Hf as [|[r e] failures He _ IH]; intros request c st Hl Hok Ho; cbn [retry_run]; [simpl; split; [lia|done]|].
  destruct c as [c|]; [|done].
  pose proof (weighted_retry_step r request st e c Hok He) as Hstep.
  pose proof (weighted_retry_emitted r request st e c) as Hem.
  assert (build_next_request parse_qs r request false (Some e) (Some c) =
          _build_weighted_retry_request parse_qs r request st (Some e) (Some c)) as ->.
  { unfold build_next_request. by rewrite Ho Hl. }
  destruct (_build_weighted_retry_request _ _ _ _ _ _) as [[[req|]|err] c']; try (simpl; split; [lia|done]).
  destruct Hstep as (st' & Hl' & Hok' & Hlt & Hh & Hm & Hb & Hsel & _).
  destruct (IH req c' st' Hl' Hok') as [H1 H2]; [by rewrite (Hem c' _ eq_refl)|].
  rewrite Hb Hm Hh in H1, H2. simpl length. split; [lia|].
  constructor; [|done]. rewrite -Hsel -Hb. apply (rok_selected _ Hok').
Qed.
Lemma load_failover_json st c :
  (0 <= fs_next_index st)%Z → (0 <= fs_hop_count st)%Z → (0 < fs_max_hops st)%Z →
  _load_failover_state (ctx_set COMPOSITE_ROUTING_STATE_KEY (failover_state_json st) (Some c)) = Some st.
Proof.
  intros H1 H2 H3. unfold _load_failover_state. rewrite ctx_get_set_eq.
  pose proof (as_str_list_strs (fs_branches st)) as Hl.
  unfold failover_state_json. cbn [od_get]. repeat (case_decide; [try done|try done]).
  cbn [as_str as_int]. rewrite String.eqb_refl Hl.
  destruct (Z.leb_spec 0 (fs_next_index st)); [|lia]. destruct (Z.leb_spec 0 (fs_hop_count st)); [|lia].
  destruct (Z.ltb_spec 0 (fs_max_hops st)); [|lia]. by destruct st.
Qed.

Lemma load_failover_sane c st :
  _load_failover_state c = Some st →
  (0 <= fs_next_index st)%Z ∧ (0 <= fs_hop_count st)%Z ∧ (0 < fs_max_hops st)%Z.
Proof.
  unfold _load_failover_state. destruct (ctx_get _ c) as [[]|]; try done.
  repeat (case_step; try done). intros [= <-]. bool_hyps. simpl. lia.
Qed.

(** Failover recovery takes the branches in order: with a failover state in
    the context the bridge issues exactly the branch at [next_index] and
    advances index and hops by one, or raises a routing error exactly when the
    budget is used up or no branch is left. *)
Theorem failover_recovery_in_order r request error c st :
  _load_weighted_state (Some c) = None → _load_failover_state (Some c) = Some st →
  truthy (ctx_get "meaningful_output_emitted" (Some c)) = false →
  match build_next_request parse_qs r request false error (Some c) with
  | (Ok (Some req), c') =>
      (fs_hop_count st < fs_max_hops st)%Z ∧
      fs_branches st !! Z.to_nat (fs_next_index st) = Some (req_model req) ∧
      _load_failover_state c' = Some (MkFailoverState (fs_branches st) (fs_next_index st + 1)
        (fs_hop_count st + 1) (fs_max_hops st))
  | (Ok None, _) => False
  | (Err e, _) => ex_class e = RoutingError ∧
      ((fs_max_hops st <= fs_hop_count st)%Z ∨
       (Z.of_nat (length (fs_branches st)) <= fs_next_index st)%Z)
  end.
Proof.
  intros Hw Hl Ho. unfold build_next_request. rewrite Ho Hw Hl /=.
  apply load_failover_sane in Hl as (H1 & H2 & H3). unfold next_failover_request.
  destruct (Z.leb_spec (fs_max_hops st) (fs_hop_count st)); [by split; [done|left]|].
  destruct (fs_branches st !! Z.to_nat (fs_next_index st)) as [sel|] eqn:E.
  - split; [done|]. split; [done|]. apply (load_failover_json _ c); simpl; lia.
  - split; [done|]. right. apply lookup_ge_None in E. lia.
Qed.
End bridge_facts.

(** *** Witnesses *)

Definition sample_retry : WeightedRetryRuntimeState :=
  MkRetryState [MkRetryBranch "a:x" 1; MkRetryBranch "b:y" 2] [] "a:x" 0 3.
Definition sample_retry_context : RequestContext :=
  MkContext None {[ COMPOSITE_ROUTING_STATE_KEY := weighted_retry_json sample_retry ]}.
Definition backend_down : exn := mk_BackendError BackendError "down" [] None None None.

Lemma sample_retry_ok : retry_ok sample_retry.
Proof. split; [by repeat constructor|left|vm_compute; done..]. Qed.

Lemma weighted_retry_progress_witness :
  retry_step_ok sample_retry
    (build_next_request no_query (1 # 2) (MkRequest "a:x" [] []) false (Some backend_down)
       (Some sample_retry_context)).
Proof.
  apply (weighted_retry_progress no_query (1 # 2) (MkRequest "a:x" [] []) backend_down
    sample_retry_context sample_retry); [vm_compute; reflexivity|apply sample_retry_ok| |];
    vm_compute; reflexivity.
Defined.

Lemma weighted_retries_bounded_witness :
  (Z.of_nat (length (retry_run no_query (MkRequest "a:x" [] [])
     (replicate 10 ((1 # 2)%Q, backend_down)) (Some sample_retry_context))) <= Z.max 0 (3 - 0))%Z ∧
  Forall (λ s, s ∈ ["a:x"; "b:y"]) (retry_run no_query (MkRequest "a:x" [] [])
     (replicate 10 ((1 # 2)%Q, backend_down)) (Some sample_retry_context)).
Proof.
  apply (weighted_retries_bounded no_query (MkRequest "a:x" [] []) (replicate 10 ((1 # 2)%Q, backend_down))
    (Some sample_retry_context) sample_retry);
    [vm_compute; reflexivity|apply sample_retry_ok|vm_compute; reflexivity|by repeat constructor].
Defined.

Definition sample_failover_context : RequestContext :=
  MkContext None {[ COMPOSITE_ROUTING_STATE_KEY :=
    failover_state_json (MkFailoverState ["a:x"; "b:y"] 1 0 3) ]}.

Lemma failover_recovery_in_order_witness :
  match build_next_request no_query 0 (MkRequest "a:x" [] []) false None (Some sample_failover_context) with
  | (Ok (Some req), _) => req_model req = "b:y"
  | _ => False
  end.
Proof.
  pose proof (failover_recovery_in_order no_query 0 (MkRequest "a:x" [] []) None sample_failover_context
    (MkFailoverState ["a:x"; "b:y"] 1 0 3)) as H.
  destruct (build_next_request _ _ _ _ _ _) as [[[req|]|e] c'].
  - destruct H as (_ & H & _); [vm_compute; reflexivity..|]. simpl in H. by injection H.
  - apply H; vm_compute; reflexivity.
  - destruct H as [_ [H|H]]; [vm_compute; reflexivity..| |]; simpl in H; lia.
Defined.
