(* ===== verification/CircuitBreaker.v ===== *)
(** * The circuit breaker

    Models [src/core/services/resilience/circuit_breaker_state.py] and its
    configuration in [src/core/config/models/misc.py].  Each method reads the
    monotonic clock once; the reading is an argument.  The lock makes every
    method one step, so a history is a sequence of operations.

    The contract is an abstract machine with one phase per instance; the
    manager's dictionary, with the entry it drops when a breaker is pristine
    again, implements it. *)

From S2P Require Import Prelude PyStr PyDict.
From stdpp Require Import options.

Record CircuitBreakerConfig : Type := MkCBConfig {
  cb_enabled : bool;
  failure_threshold : Z;
  open_cooldown_seconds : Q;
  half_open_success_threshold : Z;
  half_open_max_inflight : Z
}.

(** The field bounds pydantic enforces. *)
Definition cb_config_valid (cfg : CircuitBreakerConfig) : Prop :=
  (1 <= failure_threshold cfg <= 100)%Z ∧ (0 < open_cooldown_seconds cfg <= 3600)%Q ∧
  (1 <= half_open_success_threshold cfg <= 10)%Z ∧ (1 <= half_open_max_inflight cfg <= 10)%Z.

Definition default_cb_config : CircuitBreakerConfig := MkCBConfig true 3 30 1 1.

Inductive cb_phase : Type := CLOSED | OPEN | HALF_OPEN.

Record CircuitBreakerState : Type := MkCB {
  cb_state : cb_phase;
  consecutive_failures : Z;
  open_until : option Q;
  half_open_inflight : Z;
  half_open_successes : Z;
  last_failure_reason : str
}.

Definition fresh_state : CircuitBreakerState := MkCB CLOSED 0 None 0 0 "".

Record CircuitBreakerDecision : Type := MkCBDecision {
  dec_should_proceed : bool;
  dec_state : cb_phase;
  dec_cooldown_remaining : option Q;
  dec_reason : str
}.

(** ** Transitions *)

Section manager.
Context (cfg : CircuitBreakerConfig).
Implicit Types (states : gmap string CircuitBreakerState) (instance_id : string) (now : Q).

Definition _transition_to_open (state : CircuitBreakerState) now : CircuitBreakerState :=
  MkCB OPEN (consecutive_failures state) (Some (now + open_cooldown_seconds cfg)%Q) 0 0
    (last_failure_reason state).

Definition _transition_to_half_open (state : CircuitBreakerState) : CircuitBreakerState :=
  MkCB HALF_OPEN 0 None 0 0 (last_failure_reason state).

Definition _transition_to_closed (state : CircuitBreakerState) : CircuitBreakerState :=
  MkCB CLOSED 0 None 0 0 "".

Definition is_pristine (state : CircuitBreakerState) : bool :=
  match cb_state state, open_until state with
  | CLOSED, None => (consecutive_failures state =? 0)%Z && (half_open_inflight state =? 0)%Z &&
                    (half_open_successes state =? 0)%Z && is_empty (last_failure_reason state)
  | _, _ => false
  end.

(** The object is in the dictionary; eviction drops it. *)
Definition _evict_if_pristine instance_id (state : CircuitBreakerState) states :
    gmap string CircuitBreakerState :=
  if is_pristine state then delete instance_id states else <[instance_id := state]> states.

(** [now < open_until], false when there is no deadline. *)
Definition still_open (state : CircuitBreakerState) now : bool :=
  match cb_state state, open_until state with
  | OPEN, Some u => Qltb now u
  | _, _ => false
  end.

(** The lazy step from open to half-open once the cooldown is over. *)
Definition after_cooldown (state : CircuitBreakerState) : CircuitBreakerState :=
  match cb_state state with
  | OPEN => _transition_to_half_open state
  | _ => state
  end.

Definition check instance_id now states :
    CircuitBreakerDecision * gmap string CircuitBreakerState :=
  if negb (cb_enabled cfg)
  then (MkCBDecision true CLOSED None "circuit_breaker_disabled", states)
  else match states !! instance_id with
  | None => (MkCBDecision true CLOSED None "circuit_closed", states)
  | Some state =>
      if still_open state now
      then (MkCBDecision false OPEN
              (match open_until state with Some u => Some (Qpymax 0 (u - now)) | None => None end)
              "circuit_open", states)
      else
        let state := after_cooldown state in
        let states := <[instance_id := state]> states in
        match cb_state state with
        | HALF_OPEN =>
            if (half_open_max_inflight cfg <=? half_open_inflight state)%Z
            then (MkCBDecision false HALF_OPEN None "half_open_probe_inflight", states)
            else (MkCBDecision true HALF_OPEN None "half_open_probe_allowed", states)
        | _ => (MkCBDecision true CLOSED None "circuit_closed", states)
        end
  end.

Definition add_inflight (state : CircuitBreakerState) (n : Z) : CircuitBreakerState :=
  MkCB (cb_state state) (consecutive_failures state) (open_until state)
    (half_open_inflight state + n) (half_open_successes state) (last_failure_reason state).

Definition try_acquire_half_open_probe instance_id now states :
    bool * gmap string CircuitBreakerState :=
  if negb (cb_enabled cfg) then (true, states)
  else match states !! instance_id with
  | None => (true, states)
  | Some state =>
      if still_open state now then (false, states)
      else
        let state := after_cooldown state in
        match cb_state state with
        | HALF_OPEN =>
            if (half_open_max_inflight cfg <=? half_open_inflight state)%Z
            then (false, <[instance_id := state]> states)
            else (true, <[instance_id := add_inflight state 1]> states)
        | _ => (true, <[instance_id := state]> states)
        end
  end.

(** [if state.half_open_inflight > 0: state.half_open_inflight -= 1] *)
Definition drop_inflight (state : CircuitBreakerState) : CircuitBreakerState :=
  if (0 <? half_open_inflight state)%Z then add_inflight state (-1) else state.

Definition release_half_open_probe instance_id states : gmap string CircuitBreakerState :=
  if negb (cb_enabled cfg) then states
  else match states !! instance_id with
  | None => states
  | Some state =>
      match cb_state state with
      | HALF_OPEN => <[instance_id := drop_inflight state]> states
      | _ => states
      end
  end.

Definition with_reason (state : CircuitBreakerState) (reason : str) : CircuitBreakerState :=
  MkCB (cb_state state) (consecutive_failures state) (open_until state)
    (half_open_inflight state) (half_open_successes state) reason.

Definition record_failure instance_id (reason : str) now states :
    gmap string CircuitBreakerState :=
  if negb (cb_enabled cfg) then states
  else
    let state := with_reason (default fresh_state (states !! instance_id)) reason in
    <[instance_id :=
      match cb_state state with
      | HALF_OPEN => _transition_to_open (drop_inflight state) now
      | OPEN => _transition_to_open state now
      | CLOSED =>
          let state := MkCB CLOSED (consecutive_failures state + 1) (open_until state)
                         (half_open_inflight state) 0 (last_failure_reason state) in
          if (failure_threshold cfg <=? consecutive_failures state)%Z
          then _transition_to_open state now else state
      end]> states.

Definition record_success instance_id states : gmap string CircuitBreakerState :=
  if negb (cb_enabled cfg) then states
  else match states !! instance_id with
  | None => states
  | Some state =>
      match cb_state state with
      | HALF_OPEN =>
          let state := drop_inflight state in
          let state := MkCB HALF_OPEN (consecutive_failures state) (open_until state)
                         (half_open_inflight state) (half_open_successes state + 1)
                         (last_failure_reason state) in
          if (half_open_success_threshold cfg <=? half_open_successes state)%Z
          then _evict_if_pristine instance_id (_transition_to_closed state) states
          else <[instance_id := state]> states
      | CLOSED =>
          _evict_if_pristine instance_id
            (MkCB CLOSED 0 (open_until state) (half_open_inflight state)
               (half_open_successes state) "") states
      | OPEN => states
      end
  end.
End manager.

(** ** Histories *)

Inductive cb_op : Type :=
| OpCheck
| OpAcquire
| OpRelease
| OpFailure (reason : str)
| OpSuccess.

(** What a caller is told: whether it may go on. *)
Definition cb_step (cfg : CircuitBreakerConfig) (instance_id : string) (o : cb_op) (now : Q)
    (states : gmap string CircuitBreakerState) : bool * gmap string CircuitBreakerState :=
  match o with
  | OpCheck => let '(d, s) := check cfg instance_id now states in (dec_should_proceed d, s)
  | OpAcquire => try_acquire_half_open_probe cfg instance_id now states
  | OpRelease => (true, release_half_open_probe cfg instance_id states)
  | OpFailure reason => (true, record_failure cfg instance_id reason now states)
  | OpSuccess => (true, record_success cfg instance_id states)
  end.

Definition cb_run (cfg : CircuitBreakerConfig) (ops : list (string * cb_op * Q))
    (states : gmap string CircuitBreakerState) : gmap string CircuitBreakerState :=
  foldl (λ s '(i, o, now), snd (cb_step cfg i o now s)) states ops.

(** What an operation answers: the whole decision of a check, the grant of a probe. *)
Inductive cb_answer : Type :=
| Decision (d : CircuitBreakerDecision)
| Granted (granted : bool)
| Recorded.

Definition cb_answer_of (cfg : CircuitBreakerConfig) (instance_id : string) (o : cb_op) (now : Q)
    (states : gmap string CircuitBreakerState) : cb_answer :=
  match o with
  | OpCheck => Decision (fst (check cfg instance_id now states))
  | OpAcquire => Granted (fst (try_acquire_half_open_probe cfg instance_id now states))
  | _ => Recorded
  end.

(** Every answer of a history, with the instance that was asked about. *)
Fixpoint cb_answers (cfg : CircuitBreakerConfig) (ops : list (string * cb_op * Q))
    (states : gmap string CircuitBreakerState) : list (string * cb_answer) :=
  match ops with
  | [] => []
  | (i, o, now) :: ops =>
      (i, cb_answer_of cfg i o now states) :: cb_answers cfg ops (snd (cb_step cfg i o now states))
  end.

(** ** The contract *)

(** The phase of one breaker: how many failures in a row, until when it is open,
    or how many probes are out and how many have succeeded. *)
Inductive breaker : Type :=
| BClosed (failures : Z)
| BOpen (until : Q)
| BHalf (inflight successes : Z).

Section contract.
Context (cfg : CircuitBreakerConfig).

(** An open breaker whose deadline has passed is about to probe. *)
Definition settle (now : Q) (b : breaker) : breaker :=
  match b with
  | BOpen u => if Qltb now u then b else BHalf 0 0
  | _ => b
  end.

Definition admits (b : breaker) : bool :=
  match b with
  | BClosed _ => true
  | BOpen _ => false
  | BHalf inflight _ => (inflight <? half_open_max_inflight cfg)%Z
  end.

Definition trip (now : Q) : breaker := BOpen (now + open_cooldown_seconds cfg).

Definition spec_step (o : cb_op) (now : Q) (b : breaker) : bool * breaker :=
  match o with
  | OpCheck => let b := settle now b in (admits b, b)
  | OpAcquire =>
      let b := settle now b in
      (admits b, match b with
                 | BHalf i s => if admits b then BHalf (i + 1) s else b
                 | _ => b
                 end)
  | OpRelease => (true, match b with BHalf i s => BHalf (Z.max 0 (i - 1)) s | _ => b end)
  | OpFailure _ =>
      (true, match b with
             | BClosed n => if (failure_threshold cfg <=? n + 1)%Z then trip now else BClosed (n + 1)
             | _ => trip now
             end)
  | OpSuccess =>
      (true, match b with
             | BClosed _ => BClosed 0
             | BOpen _ => b
             | BHalf i s => if (half_open_success_threshold cfg <=? s + 1)%Z then BClosed 0
                            else BHalf (Z.max 0 (i - 1)) (s + 1)
             end)
  end.

(** What the contract answers: a closed breaker lets everything through, an open one
    nothing until its deadline, a probing one as long as there is room for a probe. *)
Definition spec_decision (now : Q) (b : breaker) : CircuitBreakerDecision :=
  match b with
  | BClosed _ => MkCBDecision true CLOSED None "circuit_closed"
  | BOpen u => MkCBDecision false OPEN (Some (Qpymax 0 (u - now))) "circuit_open"
  | BHalf inflight _ =>
      if (inflight <? half_open_max_inflight cfg)%Z
      then MkCBDecision true HALF_OPEN None "half_open_probe_allowed"
      else MkCBDecision false HALF_OPEN None "half_open_probe_inflight"
  end.

Definition spec_answer (o : cb_op) (now : Q) (b : breaker) : cb_answer :=
  match o with
  | OpCheck => Decision (spec_decision now (settle now b))
  | OpAcquire => Granted (admits (settle now b))
  | _ => Recorded
  end.
End contract.

(** The phase of a stored state. *)
Definition phase (st : CircuitBreakerState) : breaker :=
  match cb_state st with
  | CLOSED => BClosed (consecutive_failures st)
  | OPEN => BOpen (default 0%Q (open_until st))
  | HALF_OPEN => BHalf (half_open_inflight st) (half_open_successes st)
  end.

(** The contract's view of the dictionary: no entry is a pristine breaker. *)
Definition breaker_of (states : gmap string CircuitBreakerState) (i : string) : breaker :=
  default (BClosed 0) (phase <$> states !! i).

(** ** Well-formed states *)

Section invariant.
Context (cfg : CircuitBreakerConfig).

(** The fields a phase does not use are at rest, the ones it uses in bounds. *)
Definition cb_ok (st : CircuitBreakerState) : Prop :=
  match cb_state st with
  | CLOSED => open_until st = None ∧ half_open_inflight st = 0%Z ∧ half_open_successes st = 0%Z ∧
              (0 <= consecutive_failures st < failure_threshold cfg)%Z
  | OPEN => is_Some (open_until st) ∧ half_open_inflight st = 0%Z ∧ half_open_successes st = 0%Z
  | HALF_OPEN => open_until st = None ∧ consecutive_failures st = 0%Z ∧
                 (0 <= half_open_inflight st <= half_open_max_inflight cfg)%Z ∧
                 (0 <= half_open_successes st < half_open_success_threshold cfg)%Z
  end.

Definition manager_ok (states : gmap string CircuitBreakerState) : Prop :=
  map_Forall (λ _ st, cb_ok st) states.

Set Default Proof Using "Type*".
Context (Hcfg : cb_config_valid cfg).
Hypothesis Henabled : cb_enabled cfg = true.

Lemma fresh_ok : cb_ok fresh_state.
Proof. destruct Hcfg as (? & _). unfold cb_ok; simpl. split_and!; try done; lia. Qed.

Lemma open_ok st now : cb_ok (_transition_to_open cfg st now).
Proof. unfold cb_ok; simpl. split_and!; eauto. Qed.

Lemma half_open_ok st : cb_ok (_transition_to_half_open st).
Proof. destruct Hcfg as (_ & _ & ? & ?). unfold cb_ok; simpl. split_and!; try done; lia. Qed.

Lemma closed_ok st : cb_ok (_transition_to_closed st).
Proof. destruct Hcfg as (? & _). unfold cb_ok; simpl. split_and!; try done; lia. Qed.

Lemma drop_inflight_ok st : cb_ok st → cb_ok (drop_inflight st).
Proof.
  unfold drop_inflight. destruct (Z.ltb_spec 0 (half_open_inflight st)); [|done].
  unfold cb_ok, add_inflight; simpl. destruct (cb_state st); intros; destruct_and?; split_and!; try done; lia.
Qed.

Lemma after_cooldown_ok st : cb_ok st → cb_ok (after_cooldown st).
Proof. unfold after_cooldown. destruct (cb_state st) eqn:E; [done| |done]. intros _. apply half_open_ok. Qed.

#[local] Hint Resolve fresh_ok open_ok half_open_ok closed_ok drop_inflight_ok after_cooldown_ok : core.

Lemma manager_insert i st states : manager_ok states → cb_ok st → manager_ok (<[i := st]> states).
Proof. intros. by apply map_Forall_insert_2. Qed.

Lemma manager_evict i st states :
  manager_ok states → cb_ok st → manager_ok (_evict_if_pristine i st states).
Proof.
  intros. unfold _evict_if_pristine. destruct (is_pristine st); [by apply map_Forall_delete|].
  by apply manager_insert.
Qed.

Lemma manager_lookup i st states : manager_ok states → states !! i = Some st → cb_ok st.
Proof. intros H ?. by apply (H i). Qed.

#[local] Hint Resolve manager_insert manager_evict : core.

(** The view after a write and after an eviction. *)
Lemma breaker_insert i j st states :
  breaker_of (<[i := st]> states) j = if decide (j = i) then phase st else breaker_of states j.
Proof.
  unfold breaker_of. case_decide as E; subst.
  - by rewrite lookup_insert_eq.
  - by rewrite lookup_insert_ne.
Qed.

Lemma breaker_evict i j st states :
  breaker_of (_evict_if_pristine i st states) j =
  if decide (j = i) then phase st else breaker_of states j.
Proof.
  unfold _evict_if_pristine. destruct (is_pristine st) eqn:E; [|apply breaker_insert].
  unfold breaker_of. case_decide as Ej; subst; [|by rewrite lookup_delete_ne].
  rewrite lookup_delete_eq /=. unfold is_pristine in E. unfold phase.
  destruct (cb_state st), (open_until st); try done. bool_hyps.
  repeat match goal with H : (_ =? _)%Z = true |- _ => apply Z.eqb_eq in H end. congruence.
Qed.

Lemma breaker_lookup i st states : states !! i = Some st → breaker_of states i = phase st.
Proof. unfold breaker_of. by intros ->. Qed.

Lemma breaker_none i states : states !! i = None → breaker_of states i = BClosed 0.
Proof. unfold breaker_of. by intros ->. Qed.

Lemma settle_phase st now :
  cb_ok st → settle now (phase st) =
    if still_open st now then phase st else phase (after_cooldown st).
Proof.
  unfold cb_ok, phase, settle, still_open, after_cooldown. destruct (cb_state st) eqn:E; try by rewrite E.
  intros ([u ->] & _). simpl. by destruct (Qltb now u).
Qed.

(** One operation does what the contract says, to its own instance only, and
    keeps the invariant. *)
Definition step_refines (i : string) (states : gmap string CircuitBreakerState)
    (impl : bool * gmap string CircuitBreakerState) (spec : bool * breaker) : Prop :=
  fst impl = fst spec ∧ manager_ok (snd impl) ∧
  ∀ j, breaker_of (snd impl) j = if decide (j = i) then snd spec else breaker_of states j.

Lemma step_refines_same i states r b :
  manager_ok states → breaker_of states i = b → step_refines i states (r, states) (r, b).
Proof. intros ? <-. split; [done|]. split; [done|]. intros j. simpl. by case_decide; subst. Qed.

Lemma step_refines_insert i states st r b :
  manager_ok states → cb_ok st → phase st = b →
  step_refines i states (r, <[i := st]> states) (r, b).
Proof. intros ? ? <-. split; [done|]. split; [simpl; auto|]. intros j. apply breaker_insert. Qed.

Lemma step_refines_evict i states st r b :
  manager_ok states → cb_ok st → phase st = b →
  step_refines i states (r, _evict_if_pristine i st states) (r, b).
Proof. intros ? ? <-. split; [done|]. split; [simpl; auto|]. intros j. apply breaker_evict. Qed.

Lemma check_refines i now states :
  manager_ok states →
  step_refines i states (cb_step cfg i OpCheck now states)
    (spec_step cfg OpCheck now (breaker_of states i)).
Proof.
  intros Hok. simpl. unfold check. rewrite Henabled /=.
  destruct (states !! i) as [st|] eqn:E.
  2: { rewrite breaker_none //. apply step_refines_same; [done|by apply breaker_none]. }
  pose proof (manager_lookup _ _ _ Hok E) as Hst.
  rewrite (breaker_lookup _ _ _ E) settle_phase //.
  destruct (still_open st now) eqn:Eo.
  { unfold still_open in Eo. assert (cb_state st = OPEN) as Ec by (by destruct (cb_state st)).
    assert (admits cfg (phase st) = false) as -> by (unfold phase; by rewrite Ec).
    apply step_refines_same; [done|by apply breaker_lookup]. }
  assert (cb_ok (after_cooldown st)) as Ha by auto.
  destruct (cb_state (after_cooldown st)) eqn:Ea.
  - assert (admits cfg (phase (after_cooldown st)) = true) as -> by (unfold phase; by rewrite Ea).
    by apply step_refines_insert.
  - unfold after_cooldown in Ea. destruct (cb_state st) eqn:Ec; simpl in Ea; congruence.
  - assert (admits cfg (phase (after_cooldown st)) =
      (half_open_inflight (after_cooldown st) <? half_open_max_inflight cfg)%Z) as ->
      by (unfold phase; by rewrite Ea).
    rewrite Z.ltb_antisym. destruct (_ <=? _)%Z; by apply step_refines_insert.
Qed.

Lemma acquire_refines i now states :
  manager_ok states →
  step_refines i states (cb_step cfg i OpAcquire now states)
    (spec_step cfg OpAcquire now (breaker_of states i)).
Proof.
  intros Hok. simpl. unfold try_acquire_half_open_probe. rewrite Henabled /=.
  destruct (states !! i) as [st|] eqn:E.
  2: { rewrite breaker_none //. apply step_refines_same; [done|by apply breaker_none]. }
  pose proof (manager_lookup _ _ _ Hok E) as Hst.
  rewrite (breaker_lookup _ _ _ E) settle_phase //.
  destruct (still_open st now) eqn:Eo.
  { unfold still_open in Eo. assert (cb_state st = OPEN) as Ec by (by destruct (cb_state st)).
    assert (phase st = BOpen (default 0%Q (open_until st))) as Hp by (unfold phase; by rewrite Ec).
    rewrite Hp. apply step_refines_same; [done|]. by rewrite (breaker_lookup _ _ _ E). }
  assert (cb_ok (after_cooldown st)) as Ha by auto.
  destruct (cb_state (after_cooldown st)) eqn:Ea.
  - assert (phase (after_cooldown st) = BClosed (consecutive_failures (after_cooldown st))) as Hp
      by (unfold phase; by rewrite Ea).
    rewrite Hp. by apply step_refines_insert.
  - unfold after_cooldown in Ea. destruct (cb_state st) eqn:Ec; simpl in Ea; congruence.
  - assert (phase (after_cooldown st) = BHalf (half_open_inflight (after_cooldown st))
      (half_open_successes (after_cooldown st))) as Hp by (unfold phase; by rewrite Ea).
    rewrite Hp /= Z.ltb_antisym. destruct (Z.leb_spec (half_open_max_inflight cfg)
      (half_open_inflight (after_cooldown st))); simpl; [by apply step_refines_insert|].
    apply step_refines_insert; [done| |unfold phase; simpl; by rewrite Ea].
    unfold cb_ok in Ha |- *. simpl. rewrite Ea in Ha |- *. destruct_and! Ha. split_and!; try done; lia.
Qed.

Lemma phase_drop_inflight st :
  cb_state st = HALF_OPEN → cb_ok st →
  phase (drop_inflight st) = BHalf (Z.max 0 (half_open_inflight st - 1)) (half_open_successes st).
Proof.
  intros E Hok. unfold cb_ok in Hok. rewrite E in Hok. destruct_and! Hok.
  unfold drop_inflight, phase.
  destruct (Z.ltb_spec 0 (half_open_inflight st)); simpl; rewrite E; f_equal; lia.
Qed.

Lemma update_refines i o now states :
  manager_ok states → o ≠ OpCheck → o ≠ OpAcquire →
  step_refines i states (cb_step cfg i o now states) (spec_step cfg o now (breaker_of states i)).
Proof.
  intros Hok H1 H2. destruct o as [| | |reason|]; try done; clear H1 H2; simpl.
  - unfold release_half_open_probe. rewrite Henabled /=.
    destruct (states !! i) as [st|] eqn:E.
    2: { rewrite breaker_none //. apply step_refines_same; [done|by apply breaker_none]. }
    pose proof (manager_lookup _ _ _ Hok E) as Hst. rewrite (breaker_lookup _ _ _ E).
    destruct (cb_state st) eqn:Es.
    1,2: apply step_refines_same; [done|]; rewrite (breaker_lookup _ _ _ E); unfold phase; by rewrite Es.
    apply step_refines_insert; [done|auto|]. rewrite phase_drop_inflight //. unfold phase. by rewrite Es.
  - unfold record_failure. rewrite Henabled /=.
    assert (cb_ok (default fresh_state (states !! i))) as Hst.
    { destruct (states !! i) eqn:E; simpl; [by eapply manager_lookup|auto]. }
    assert (breaker_of states i = phase (default fresh_state (states !! i))) as ->.
    { unfold breaker_of. by destruct (states !! i). }
    set (st := default fresh_state (states !! i)) in *.
    apply step_refines_insert; [done| |].
    + destruct (cb_state st) eqn:Es; auto.
      destruct (Z.leb_spec (failure_threshold cfg) (consecutive_failures st + 1)); auto.
      unfold cb_ok in Hst |- *. rewrite Es in Hst. simpl. destruct_and! Hst. split_and!; try done; lia.
    + unfold phase at 2. destruct (cb_state st) eqn:Es; [|done|done].
      by destruct (_ <=? _)%Z.
  - unfold record_success. rewrite Henabled /=.
    destruct (states !! i) as [st|] eqn:E.
    2: { rewrite breaker_none //. apply step_refines_same; [done|by apply breaker_none]. }
    pose proof (manager_lookup _ _ _ Hok E) as Hst. rewrite (breaker_lookup _ _ _ E).
    assert (cb_ok (drop_inflight st)) as Hd by auto.
    unfold phase. unfold cb_ok in Hst. destruct (cb_state st) eqn:Es.
    + apply step_refines_evict; [done| |done]. unfold cb_ok; simpl. destruct_and! Hst.
      destruct Hcfg as (? & _). split_and!; try done; lia.
    + apply step_refines_same; [done|]. rewrite (breaker_lookup _ _ _ E). unfold phase. by rewrite Es.
    + assert (half_open_successes (drop_inflight st) = half_open_successes st ∧
        half_open_inflight (drop_inflight st) = Z.max 0 (half_open_inflight st - 1) ∧
        cb_state (drop_inflight st) = HALF_OPEN) as (-> & Hi & Hc).
      { unfold drop_inflight. destruct_and! Hst.
        destruct (Z.ltb_spec 0 (half_open_inflight st)); simpl; split_and!; try done; lia. }
      destruct (Z.leb_spec (half_open_success_threshold cfg) (half_open_successes st + 1)).
      * apply step_refines_evict; auto.
      * apply step_refines_insert; [done| |by unfold phase; simpl; rewrite Hi].
        unfold cb_ok in Hd |- *. rewrite Hc in Hd. simpl. destruct_and! Hd. destruct_and! Hst.
        split_and!; try done; lia.
Qed.

Lemma cb_step_refines i o now states :
  manager_ok states →
  step_refines i states (cb_step cfg i o now states) (spec_step cfg o now (breaker_of states i)).
Proof.
  intros Hok. destruct o; [by apply check_refines|by apply acquire_refines|by apply update_refines..].
Qed.

Lemma cb_answer_refines i o now states :
  manager_ok states → cb_answer_of cfg i o now states = spec_answer cfg o now (breaker_of states i).
Proof.
  intros Hok. destruct o; [|unfold cb_answer_of, spec_answer..]; [|f_equal|done..].
  2: { apply (acquire_refines i now states Hok). }
  unfold cb_answer_of, spec_answer, check. rewrite Henabled /=. f_equal.
  destruct (states !! i) as [st|] eqn:E; [|by rewrite breaker_none].
  pose proof (manager_lookup _ _ _ Hok E) as Hst.
  rewrite (breaker_lookup _ _ _ E) settle_phase //. destruct (still_open st now) eqn:Eo.
  - unfold still_open in Eo. unfold phase. destruct (cb_state st); [done| |done].
    by destruct (open_until st).
  - unfold phase. destruct (cb_state (after_cooldown st)) eqn:Ea; [done| |].
    + unfold after_cooldown in Ea. destruct (cb_state st) eqn:Ec; simpl in Ea; congruence.
    + simpl. rewrite Z.ltb_antisym. by destruct (_ <=? _)%Z.
Qed.
End invariant.

(** ** Histories against the contract *)

Definition ops_of (i : string) (ops : list (string * cb_op * Q)) : list (cb_op * Q) :=
  omap (λ '(j, o, now), if decide (j = i) then Some (o, now) else None) ops.

Definition answers_of (i : string) (answers : list (string * cb_answer)) : list cb_answer :=
  omap (λ '(j, x), if decide (j = i) then Some x else None) answers.

Definition spec_run (cfg : CircuitBreakerConfig) (ops : list (cb_op * Q)) (b : breaker) : breaker :=
  foldl (λ b '(o, now), snd (spec_step cfg o now b)) b ops.

Fixpoint spec_answers (cfg : CircuitBreakerConfig) (ops : list (cb_op * Q)) (b : breaker) : list cb_answer :=
  match ops with
  | [] => []
  | (o, now) :: ops => spec_answer cfg o now b :: spec_answers cfg ops (snd (spec_step cfg o now b))
  end.

(** An answer that stops nobody. *)
Definition lets_go (x : cb_answer) : Prop :=
  match x with
  | Decision d => dec_should_proceed d = true
  | Granted granted => granted = true
  | Recorded => True
  end.

Section histories.
Context (cfg : CircuitBreakerConfig) (Hcfg : cb_config_valid cfg).
Hypothesis Henabled : cb_enabled cfg = true.
Set Default Proof Using "Type*".

Lemma cb_run_refines ops states :
  manager_ok cfg states →
  manager_ok cfg (cb_run cfg ops states) ∧
  ∀ i, breaker_of (cb_run cfg ops states) i = spec_run cfg (ops_of i ops) (breaker_of states i).
Proof.
  revert states; induction ops as [|[[j o] now] ops IH]; intros states Hok; [done|].
  destruct (cb_step_refines cfg Hcfg Henabled j o now states Hok) as (_ & Hok' & Hb).
  destruct (IH (snd (cb_step cfg j o now states)) Hok') as [H1 H2]. simpl. split; [done|].
  intros i. rewrite H2 Hb. unfold ops_of. simpl.
  destruct (decide (i = j)) as [->|Hne]; [by rewrite decide_True|by rewrite decide_False].
Qed.

(** One instance after some history that leaves the others alone. *)
Lemma cb_run_one i ops states :
  manager_ok cfg states →
  breaker_of (cb_run cfg ((λ x, (i, x.1, x.2)) <$> ops) states) i =
  spec_run cfg ops (breaker_of states i).
Proof.
  intros Hok. destruct (cb_run_refines ((λ x, (i, x.1, x.2)) <$> ops) states Hok) as [_ ->].
  f_equal. unfold ops_of. induction ops as [|[o now] ops IH]; csimpl; [done|].
  by rewrite decide_True // IH.
Qed.

Lemma cb_answers_refine ops states i :
  manager_ok cfg states →
  answers_of i (cb_answers cfg ops states) = spec_answers cfg (ops_of i ops) (breaker_of states i).
Proof.
  revert states; induction ops as [|[[j o] now] ops IH]; intros states Hok; [done|].
  destruct (cb_step_refines cfg Hcfg Henabled j o now states Hok) as (_ & Hok' & Hb).
  unfold answers_of, ops_of in *. cbn [cb_answers omap list_omap]. rewrite IH // Hb.
  destruct (decide (j = i)) as [->|Hne]; [|by rewrite decide_False].
  rewrite decide_True // (cb_answer_refines cfg Hcfg Henabled) //.
Qed.

(** In a window of one cooldown after a trip the breaker stays open at least to
    its first deadline. *)
Lemma open_window t0 u b ops :
  (u == t0 + open_cooldown_seconds cfg)%Q → (∃ v, b = BOpen v ∧ (u <= v)%Q) →
  Forall (λ x, t0 <= x.2 ∧ x.2 < u)%Q ops →
  ∃ v, spec_run cfg ops b = BOpen v ∧ (u <= v)%Q.
Proof.
  intros Hu Hb Hops. revert b Hb. induction Hops as [|[o now] ops [H1 H2] _ IH]; intros b (v & -> & Hv); [eauto|].
  simpl in *. apply IH. destruct o; simpl.
  1,2: qcase; [eauto|lra].
  - eauto.
  - eexists. split; [done|]. lra.
  - eauto.
Qed.

(** An open circuit admits nothing before its deadline: from the moment it
    trips, whatever checks, probes, late successes and further failures happen
    within the cooldown, every check and every probe acquisition is refused. *)
Theorem open_circuit_refuses i t0 states ops now :
  manager_ok cfg states → breaker_of states i = trip cfg t0 →
  Forall (λ x, t0 <= x.2 ∧ x.2 < t0 + open_cooldown_seconds cfg)%Q ops →
  (now < t0 + open_cooldown_seconds cfg)%Q →
  let states' := cb_run cfg ((λ x, (i, x.1, x.2)) <$> ops) states in
  fst (cb_step cfg i OpCheck now states') = false ∧ fst (cb_step cfg i OpAcquire now states') = false.
Proof.
  intros Hok Hb Hops Hnow states'.
  destruct (cb_run_refines ((λ x, (i, x.1, x.2)) <$> ops) states Hok) as [Hok' _].
  pose proof (cb_run_one i ops states Hok) as Hrun. fold states' in Hok', Hrun. rewrite Hb in Hrun.
  destruct (open_window t0 (t0 + open_cooldown_seconds cfg) (trip cfg t0) ops) as (v & Hv & Hle);
    [done|exists (t0 + open_cooldown_seconds cfg)%Q; split; [done|lra]|done|]. rewrite Hv in Hrun.
  destruct (cb_step_refines cfg Hcfg Henabled i OpCheck now states' Hok') as [-> _].
  destruct (cb_step_refines cfg Hcfg Henabled i OpAcquire now states' Hok') as [-> _].
  rewrite Hrun /=. qcase; [done|]. exfalso. lra.
Qed.

Lemma spec_run_cons o t ops b :
  spec_run cfg ((o, t) :: ops) b = spec_run cfg ops (snd (spec_step cfg o t b)).
Proof. done. Qed.

Lemma spec_failures n k ts reason :
  (0 <= k)%Z → length ts = n → (k + Z.of_nat n < failure_threshold cfg)%Z →
  spec_run cfg ((λ t, (OpFailure reason, t)) <$> ts) (BClosed k) = BClosed (k + Z.of_nat n).
Proof.
  revert k ts; induction n as [|n IH]; intros k [|t ts] Hk Hl Hlt; try done.
  { simpl. f_equal. lia. }
  rewrite fmap_cons spec_run_cons. simpl in Hl |- *.
  destruct (Z.leb_spec (failure_threshold cfg) (k + 1)); [lia|].
  cbn [snd]. rewrite IH; [lia..|f_equal; lia].
Qed.

Lemma spec_run_app ops1 ops2 b : spec_run cfg (ops1 ++ ops2) b = spec_run cfg ops2 (spec_run cfg ops1 b).
Proof. apply foldl_app. Qed.

(** The circuit trips exactly at the threshold: from a closed circuit with
    no failures, fewer than [failure_threshold] consecutive failures leave it
    closed, and the failure that reaches the threshold opens it for one
    cooldown from that moment. *)
Theorem trips_at_threshold i states ts t reason :
  manager_ok cfg states → breaker_of states i = BClosed 0 →
  (Z.of_nat (length ts) < failure_threshold cfg)%Z →
  let fail l := cb_run cfg ((λ x, (i, OpFailure reason, x)) <$> l) states in
  breaker_of (fail ts) i = BClosed (Z.of_nat (length ts)) ∧
  (Z.of_nat (length ts) + 1 = failure_threshold cfg →
   breaker_of (fail (ts ++ [t])) i = trip cfg t)%Z.
Proof.
  intros Hok Hb Hlt fail.
  assert (∀ l, breaker_of (fail l) i = spec_run cfg ((λ t, (OpFailure reason, t)) <$> l) (BClosed 0)) as Hf.
  { intros l. subst fail. rewrite -Hb -(cb_run_one i _ states Hok) -list_fmap_compose //. }
  rewrite !Hf fmap_app spec_run_app. rewrite (spec_failures (length ts) 0 ts reason) // Z.add_0_l.
  split; [done|]. intros Heq. cbn [fmap list_fmap spec_run foldl spec_step snd].
  destruct (Z.leb_spec (failure_threshold cfg) (Z.of_nat (length ts) + 1)); [done|lia].
Qed.

Lemma spec_successes n i k ts :
  (0 <= k)%Z → length ts = n → (k + Z.of_nat n < half_open_success_threshold cfg)%Z →
  ∃ j, spec_run cfg ((λ t, (OpSuccess, t)) <$> ts) (BHalf i k) = BHalf j (k + Z.of_nat n).
Proof.
  revert i k ts; induction n as [|n IH]; intros i k [|t ts] Hk Hl Hlt; try done.
  - exists i. simpl. f_equal. lia.
  - rewrite fmap_cons spec_run_cons. simpl in Hl |- *.
    destruct (Z.leb_spec (half_open_success_threshold cfg) (k + 1)); [lia|]. cbn [snd].
    destruct (IH (Z.max 0 (i - 1)) (k + 1)%Z ts) as [j Hj]; [lia..|].
    exists j. rewrite Hj. f_equal. lia.
Qed.

(** An open circuit recovers: once its deadline has passed, the next probe is
    admitted, and the configured number of successes without a failure closes
    the circuit with a clean count. *)
Theorem circuit_recovers i u now states ts :
  manager_ok cfg states → breaker_of states i = BOpen u → (u <= now)%Q →
  Z.of_nat (length ts) = half_open_success_threshold cfg →
  fst (cb_step cfg i OpAcquire now states) = true ∧
  breaker_of (cb_run cfg ((i, OpAcquire, now) :: ((λ x, (i, OpSuccess, x)) <$> ts)) states) i = BClosed 0.
Proof.
  intros Hok Hb Hle Hts. pose proof Hcfg as (_ & _ & Hs & Hm).
  destruct (cb_step_refines cfg Hcfg Henabled i OpAcquire now states Hok) as [-> _].
  rewrite Hb. assert (settle now (BOpen u) = BHalf 0 0) as Hset by (simpl; qcase; [lra|done]).
  assert (0 <? half_open_max_inflight cfg = true)%Z as Hadm by (apply Z.ltb_lt; lia).
  split; [by cbn [spec_step]; rewrite Hset /= Hadm|].
  destruct (exists_last (l := ts)) as (ts' & t & ->); [intros ->; simpl in Hts; lia|].
  rewrite length_app /= in Hts.
  pose proof (cb_run_one i ((OpAcquire, now) :: ((λ t, (OpSuccess, t)) <$> (ts' ++ [t]))) states Hok) as Hrun.
  rewrite fmap_cons -list_fmap_compose in Hrun. rewrite Hrun Hb.
  rewrite spec_run_cons. cbn [spec_step]. rewrite Hset /= Hadm /= fmap_app spec_run_app.
  destruct (spec_successes (length ts') (0 + 1) 0 ts') as [j ->]; [lia|done|lia|].
  rewrite Z.add_0_l. cbn [fmap list_fmap spec_run foldl spec_step snd].
  destruct (Z.leb_spec (half_open_success_threshold cfg) (Z.of_nat (length ts') + 1)); [done|lia].
Qed.
End histories.

(** A disabled manager stores nothing and stops nobody. *)
Lemma disabled_run cfg ops states :
  cb_enabled cfg = false →
  cb_run cfg ops states = states ∧ Forall (λ x, lets_go x.2) (cb_answers cfg ops states).
Proof.
  intros Hoff. induction ops as [|[[j o] now] ops [IH1 IH2]]; [by split|].
  assert (snd (cb_step cfg j o now states) = states) as Hs.
  { destruct o; simpl; unfold check, try_acquire_half_open_probe, release_half_open_probe, record_failure,
      record_success; by rewrite ?Hoff. }
  simpl. rewrite Hs. split; [done|]. constructor; [|done].
  destruct o; simpl; unfold check, try_acquire_half_open_probe; by rewrite ?Hoff.
Qed.

(** C7: The breaker implements its contract.  Enabled, it answers any history of
    checks, probe acquisitions and releases, failures and successes over any
    instances as one abstract three-state machine per instance does: every decision
    of a check - the flag, the state, the remaining cooldown and the reason - and
    every grant of a probe is the one of the machine that sees that instance's
    operations alone; the phases agree as well, and never more probes are out than
    the configured maximum.  Disabled, it stores nothing and stops nobody. *)
Theorem breaker_refines_contract cfg ops i :
  cb_config_valid cfg →
  if cb_enabled cfg then
    answers_of i (cb_answers cfg ops ∅) = spec_answers cfg (ops_of i ops) (BClosed 0) ∧
    breaker_of (cb_run cfg ops ∅) i = spec_run cfg (ops_of i ops) (BClosed 0) ∧
    (∀ n s, breaker_of (cb_run cfg ops ∅) i = BHalf n s → (0 <= n <= half_open_max_inflight cfg)%Z)
  else cb_run cfg ops ∅ = ∅ ∧ Forall (λ x, lets_go x.2) (cb_answers cfg ops ∅).
Proof.
  intros Hcfg. destruct (cb_enabled cfg) eqn:Henabled; [|by apply disabled_run].
  destruct (cb_run_refines cfg Hcfg Henabled ops ∅) as [Hok Hb]; [apply map_Forall_empty|].
  split; [by rewrite (cb_answers_refine cfg Hcfg Henabled); [apply map_Forall_empty|]|].
  split; [by rewrite Hb|].
  intros n s. unfold breaker_of. destruct (cb_run cfg ops ∅ !! i) as [st|] eqn:E; [|done].
  specialize (Hok i st E). simpl in Hok |- *. unfold phase. unfold cb_ok in Hok.
  destruct (cb_state st); simpl; intros [=]; subst. by destruct_and! Hok.
Qed.

(** *** Witnesses, on the default configuration *)

Lemma default_cb_config_valid : cb_config_valid default_cb_config.
Proof. unfold cb_config_valid, default_cb_config; simpl. repeat split; try lia; done. Qed.

Definition trip_ops : list (string * cb_op * Q) :=
  [("a", OpFailure "x", 0%Q); ("a", OpFailure "x", 1%Q); ("a", OpFailure "x", 2%Q)].

Lemma breaker_refines_contract_witness :
  answers_of "a" (cb_answers default_cb_config (trip_ops ++ [("a", OpCheck, 3%Q)]) ∅) =
  spec_answers default_cb_config (ops_of "a" (trip_ops ++ [("a", OpCheck, 3%Q)])) (BClosed 0).
Proof.
  exact (proj1 (breaker_refines_contract default_cb_config (trip_ops ++ [("a", OpCheck, 3%Q)]) "a"
    default_cb_config_valid)).
Defined.

Lemma open_circuit_refuses_witness :
  fst (cb_step default_cb_config "a" OpCheck 10 (cb_run default_cb_config trip_ops ∅)) = false.
Proof.
  apply (open_circuit_refuses default_cb_config default_cb_config_valid eq_refl "a" 2
           (cb_run default_cb_config trip_ops ∅) [] 10).
  - apply (cb_run_refines default_cb_config default_cb_config_valid eq_refl trip_ops ∅).
    apply map_Forall_empty.
  - vm_compute. reflexivity.
  - constructor.
  - vm_compute. reflexivity.
Defined.

Lemma trips_at_threshold_witness :
  breaker_of (cb_run default_cb_config (((λ x, ("a", OpFailure "x", x)) <$> ([0; 1]%Q ++ [2%Q]))) ∅) "a" =
  trip default_cb_config 2.
Proof.
  apply (trips_at_threshold default_cb_config default_cb_config_valid eq_refl "a" ∅ [0; 1]%Q 2 "x");
    [apply map_Forall_empty|reflexivity|simpl; lia|reflexivity].
Defined.

Lemma circuit_recovers_witness :
  fst (cb_step default_cb_config "a" OpAcquire 40 (cb_run default_cb_config trip_ops ∅)) = true.
Proof.
  apply (circuit_recovers default_cb_config default_cb_config_valid eq_refl "a" (2 + 30) 40
           (cb_run default_cb_config trip_ops ∅) [41%Q]).
  - apply (cb_run_refines default_cb_config default_cb_config_valid eq_refl trip_ops ∅).
    apply map_Forall_empty.
  - vm_compute. reflexivity.
  - vm_compute. discriminate.
  - reflexivity.
Defined.
