(* ===== verification/TTLCache.v ===== *)
(** * The expiring cache interface

    [cachetools.TTLCache] is a library the sources only call: the state manager
    is written against this interface.  The laws are the documented behaviour -
    an item is visible until [ttl] seconds after it was last assigned, assigning
    another key may evict it when the cache is full, popping removes it, and
    mutating the stored object does not touch its age.  [list_cache] is a
    concrete cache that satisfies them. *)

From S2P Require Import Prelude PyStr PyDict.
From stdpp Require Import options.

Class TTLCache (K V C : Type) : Type := {
  ttl : Q;
  cget : Q → K → C → option V;
  cset : Q → K → V → C → C;
  cpop : Q → K → C → C;
  (** In-place mutation of the object stored under a key. *)
  cmutate : Q → (V → V) → K → C → C;
  citems : Q → C → list (K * V)
}.

Class TTLCacheLaws (K V C : Type) `{TTLCache K V C} : Prop := {
  ttl_pos : (0 < ttl)%Q;
  cget_set : ∀ t t' k v c, (t <= t')%Q → (t' < t + ttl)%Q → cget t' k (cset t k v c) = Some v;
  cget_set_expired : ∀ t t' k v c, (t + ttl <= t')%Q → cget t' k (cset t k v c) = None;
  cget_set_other : ∀ t t' k k' v c, k ≠ k' → (t <= t')%Q →
    cget t' k' (cset t k v c) = cget t' k' c ∨ cget t' k' (cset t k v c) = None;
  cget_pop : ∀ t t' k c, (t <= t')%Q → cget t' k (cpop t k c) = None;
  cget_pop_other : ∀ t t' k k' c, k ≠ k' → (t <= t')%Q → cget t' k' (cpop t k c) = cget t' k' c;
  cget_mutate : ∀ t t' f k c, (t <= t')%Q → cget t' k (cmutate t f k c) = f <$> cget t' k c;
  cget_mutate_other : ∀ t t' f k k' c, k ≠ k' → cget t' k' (cmutate t f k c) = cget t' k' c;
  cget_later : ∀ t t' k c, (t <= t')%Q → cget t' k c = cget t k c ∨ cget t' k c = None
}.

(** ** A concrete cache

    Entries from the newest assignment to the oldest, each with its deadline;
    assignment drops the oldest entries beyond [maxsize]. *)

Section list_cache.
Context {K V : Type} `{EqDecision K}.
Context (lifetime : Q) (maxsize : nat).

Record list_cache : Type := MkListCache { lc_entries : list (K * (V * Q)) }.

Definition lc_lookup (t : Q) (k : K) (l : list (K * (V * Q))) : option V :=
  match list_find (λ x, x.1 = k) l with
  | Some (_, (_, (v, deadline))) => if Qltb t deadline then Some v else None
  | None => None
  end.

Definition lc_without (k : K) (l : list (K * (V * Q))) : list (K * (V * Q)) :=
  filter (λ x, x.1 ≠ k) l.

Definition lc_set (t : Q) (k : K) (v : V) (l : list (K * (V * Q))) : list (K * (V * Q)) :=
  take maxsize ((k, (v, (t + lifetime)%Q)) :: lc_without k l).

Definition lc_mutate (f : V → V) (k : K) (l : list (K * (V * Q))) : list (K * (V * Q)) :=
  (λ x, if decide (x.1 = k) then (x.1, (f x.2.1, x.2.2)) else x) <$> l.

#[global] Instance list_cache_ops : TTLCache K V list_cache := {
  ttl := lifetime;
  cget t k c := lc_lookup t k (lc_entries c);
  cset t k v c := MkListCache (lc_set t k v (lc_entries c));
  cpop t k c := MkListCache (lc_without k (lc_entries c));
  cmutate t f k c := MkListCache (lc_mutate f k (lc_entries c));
  citems t c := omap (λ x, if Qltb t x.2.2 then Some (x.1, x.2.1) else None) (lc_entries c)
}.

Lemma lc_lookup_cons t k x l :
  lc_lookup t k (x :: l) =
  if decide (x.1 = k) then (if Qltb t x.2.2 then Some x.2.1 else None) else lc_lookup t k l.
Proof.
  unfold lc_lookup. simpl. case_decide; [by destruct x as [? [? ?]]|].
  by destruct (list_find _ l) as [[? [? [? ?]]]|].
Qed.

Lemma lc_lookup_without t k l : lc_lookup t k (lc_without k l) = None.
Proof.
  unfold lc_lookup, lc_without. destruct (list_find _ _) as [[i [k' [v d]]]|] eqn:E; [|done].
  apply list_find_Some in E as (E & Hk & _). simpl in Hk. subst k'.
  apply list_elem_of_lookup_2, list_elem_of_filter in E as [? _]. done.
Qed.

Lemma lc_lookup_without_ne t k k' l : k ≠ k' → lc_lookup t k' (lc_without k l) = lc_lookup t k' l.
Proof.
  intros Hne. unfold lc_without. induction l as [|x l IH]; [done|]. rewrite filter_cons.
  case_decide as Hx; rewrite !lc_lookup_cons; [by rewrite IH|].
  destruct (decide (x.1 = k)) as [E|]; [|done]. rewrite IH. by rewrite decide_False; [congruence|].
Qed.

Lemma lc_lookup_take t k n l :
  lc_lookup t k (take n l) = lc_lookup t k l ∨ lc_lookup t k (take n l) = None.
Proof.
  revert n; induction l as [|x l IH]; intros [|n]; try by (left + right).
  simpl. rewrite !lc_lookup_cons. case_decide; [by left|apply IH].
Qed.

Lemma lc_lookup_mutate t f k k' l :
  lc_lookup t k' (lc_mutate f k l) = if decide (k' = k) then f <$> lc_lookup t k' l else lc_lookup t k' l.
Proof.
  unfold lc_mutate. induction l as [|x l IH]; csimpl; [by case_decide|].
  rewrite !lc_lookup_cons IH. destruct (decide (x.1 = k)) as [E|E]; simpl.
  - destruct (decide (x.1 = k')) as [E'|E']; [|done].
    rewrite decide_True; [congruence|]. by destruct (Qltb t x.2.2).
  - destruct (decide (x.1 = k')) as [E'|E']; [|done]. by rewrite decide_False; [congruence|].
Qed.

Lemma list_cache_laws : (0 < lifetime)%Q → 0 < maxsize → TTLCacheLaws K V list_cache.
Proof.
  intros Hl Hm. split; simpl.
  - done.
  - intros t t' k v c H1 H2. unfold lc_set. destruct maxsize; [lia|]. simpl.
    rewrite lc_lookup_cons decide_True //. simpl. by qcase.
  - intros t t' k v c H. unfold lc_set. destruct maxsize; [lia|]. simpl.
    rewrite lc_lookup_cons decide_True //. simpl. qcase; [lra|done].
  - intros t t' k k' v c Hne _. unfold lc_set.
    destruct (lc_lookup_take t' k' maxsize ((k, (v, (t + lifetime)%Q)) :: lc_without k (lc_entries c)))
      as [->|?]; [left|by right].
    by rewrite lc_lookup_cons decide_False // lc_lookup_without_ne.
  - intros. apply lc_lookup_without.
  - intros. by apply lc_lookup_without_ne.
  - intros. by rewrite lc_lookup_mutate decide_True.
  - intros. by rewrite lc_lookup_mutate decide_False; [congruence|].
  - intros t t' k c Hle. unfold lc_lookup. destruct (list_find _ _) as [[? [? [? d]]]|]; [|by left].
    qcase; try by (left + right). exfalso. lra.
Qed.
End list_cache.
Arguments list_cache : clear implicits.
