(* ===== verification/RateLimitState.v ===== *)
(** * Rate-limit state

    Models [src/core/services/resilience/rate_limit_state.py]: the state of
    backend instances and of (instance, model) pairs, kept in two expiring
    caches.  A method reads the wall clock for its deadlines and the caches
    read a monotonic clock for their entries' age; both readings are the
    argument [now], one pair per method call. *)

From S2P Require Import Prelude PyStr PyDict TTLCache.
From stdpp Require Import options.

Record clock : Type := MkClock { mono : Q; wall : Q }.

Inductive InstanceStatus : Type := ACTIVE | RATE_LIMITED | DISABLED.

#[export] Instance InstanceStatus_eq_dec : EqDecision InstanceStatus.
Proof. solve_decision. Defined.

Record InstanceState : Type := MkInstanceState {
  is_status : InstanceStatus;
  is_cooldown_until : option Q;
  is_disabled_reason : option str;
  is_disabled_at : option Q
}.

Record ModelState : Type := MkModelState {
  ms_cooldown_until : option Q;
  ms_retry_count : Z;
  ms_unsupported_permanent : bool;
  ms_unsupported_reason : option str;
  ms_unsupported_at : option Q
}.

Record AvailabilityResult : Type := MkAvailability {
  available : bool;
  av_reason : str;
  av_cooldown_remaining : option Q
}.

Definition is_available : AvailabilityResult := MkAvailability true "" None.

Definition model_key : Type := str * str.

(** [x or default] on a string. *)
Definition or_default (x : option str) (d : str) : str :=
  match x with Some s => if is_empty s then d else s | None => d end.

(** A deadline that is set and not zero, the truth value of [cooldown_until]. *)
Definition deadline (d : option Q) : option Q :=
  match d with Some u => if Qeq_bool u 0 then None else Some u | None => None end.

Section manager.
Context {IC MC : Type} `{ICache : !TTLCache str InstanceState IC, MCache : !TTLCache model_key ModelState MC}.

Record RateLimitStateManager : Type := MkRateLimits {
  instance_state : IC;
  model_state : MC
}.
Implicit Types (m : RateLimitStateManager) (now : clock) (instance_id model : str).

Definition with_instances m (f : IC → IC) : RateLimitStateManager :=
  MkRateLimits (f (instance_state m)) (model_state m).
Definition with_models m (f : MC → MC) : RateLimitStateManager :=
  MkRateLimits (instance_state m) (f (model_state m)).
Definition get_instance now instance_id m : option InstanceState :=
  cget (mono now) instance_id (instance_state m).
Definition get_model now (key : model_key) m : option ModelState :=
  cget (mono now) key (model_state m).

(** ** Instances *)

Definition get_instance_status now instance_id m : InstanceStatus * RateLimitStateManager :=
  match get_instance now instance_id m with
  | None => (ACTIVE, m)
  | Some state =>
      match is_status state with
      | DISABLED => (DISABLED, m)
      | RATE_LIMITED =>
          if match deadline (is_cooldown_until state) with
             | Some u => Qltb (wall now) u
             | None => false
             end
          then (RATE_LIMITED, m)
          else (ACTIVE, with_instances m (cpop (mono now) instance_id))
      | ACTIVE => (ACTIVE, m)
      end
  end.

Definition is_instance_available now instance_id m : bool * RateLimitStateManager :=
  let '(status, m) := get_instance_status now instance_id m in
  (bool_decide (status = ACTIVE), m).

Definition check_instance_availability now instance_id m :
    AvailabilityResult * RateLimitStateManager :=
  let '(status, m) := get_instance_status now instance_id m in
  match status with
  | ACTIVE => (is_available, m)
  | _ =>
      match get_instance now instance_id m with
      | None => (is_available, m)
      | Some state =>
          match status with
          | DISABLED =>
              (MkAvailability false
                 ("Instance disabled: " +:+ or_default (is_disabled_reason state) "unknown") None, m)
          | RATE_LIMITED =>
              let remaining := match deadline (is_cooldown_until state) with
                               | Some u => (u - wall now)%Q
                               | None => 0%Q
                               end in
              (MkAvailability false "Instance rate limited" (Some (Qpymax 0 remaining)), m)
          | ACTIVE => (is_available, m)
          end
      end
  end.

Definition set_instance_cooldown now instance_id (retry_after_seconds : Q) m :
    RateLimitStateManager :=
  let cooldown_until := (wall now + retry_after_seconds)%Q in
  let store := with_instances m (cset (mono now) instance_id
                 (MkInstanceState RATE_LIMITED (Some cooldown_until) None None)) in
  match get_instance now instance_id m with
  | Some state => match is_status state with DISABLED => m | _ => store end
  | None => store
  end.

Definition disable_instance now instance_id (reason : str) m : RateLimitStateManager :=
  with_instances m (cset (mono now) instance_id
    (MkInstanceState DISABLED None (Some reason) (Some (wall now)))).

Definition reactivate_instance now instance_id m : bool * RateLimitStateManager :=
  match get_instance now instance_id m with
  | None => (false, m)
  | Some state =>
      match is_status state with
      | ACTIVE => (false, m)
      | _ => (true, with_instances m (cset (mono now) instance_id
                      (MkInstanceState ACTIVE None None None)))
      end
  end.

(** ** Models *)

Definition is_model_available now instance_id model m : bool * RateLimitStateManager :=
  let '(ok, m) := is_instance_available now instance_id m in
  if negb ok then (false, m)
  else
    let key := (instance_id, model) in
    match get_model now key m with
    | None => (true, m)
    | Some state =>
        if ms_unsupported_permanent state then (false, m)
        else match ms_cooldown_until state with
        | None => (true, m)
        | Some u =>
            if Qle_bool u (wall now) then (true, with_models m (cpop (mono now) key))
            else (false, m)
        end
    end.

Definition check_model_availability now instance_id model m :
    AvailabilityResult * RateLimitStateManager :=
  let '(instance_result, m) := check_instance_availability now instance_id m in
  if negb (available instance_result) then (instance_result, m)
  else
    let key := (instance_id, model) in
    match get_model now key m with
    | None => (is_available, m)
    | Some state =>
        if ms_unsupported_permanent state
        then (MkAvailability false
                ("Model " +:+ model +:+ " permanently unsupported on " +:+ instance_id +:+ ": " +:+
                 or_default (ms_unsupported_reason state) "unknown reason") None, m)
        else match ms_cooldown_until state with
        | None => (is_available, m)
        | Some u =>
            if Qle_bool u (wall now) then (is_available, with_models m (cpop (mono now) key))
            else (MkAvailability false
                    ("Model " +:+ model +:+ " rate limited on " +:+ instance_id)
                    (Some (Qpymax 0 (u - wall now))), m)
        end
    end.

Definition set_model_cooldown now instance_id model (retry_after_seconds : Q) m :
    RateLimitStateManager :=
  let cooldown_until := (wall now + retry_after_seconds)%Q in
  let key := (instance_id, model) in
  let store retry_count := with_models m (cset (mono now) key
        (MkModelState (Some cooldown_until) retry_count false None None)) in
  match get_model now key m with
  | Some existing =>
      if ms_unsupported_permanent existing then m else store (ms_retry_count existing + 1)%Z
  | None => store 1%Z
  end.

Definition mark_model_unsupported now instance_id model (reason : str) m : RateLimitStateManager :=
  let key := (instance_id, model) in
  let retry_count := match get_model now key m with
                     | Some existing => ms_retry_count existing
                     | None => 0%Z
                     end in
  with_models m (cset (mono now) key
    (MkModelState None retry_count true (Some reason) (Some (wall now)))).

Definition clear_model_unsupported now instance_id model m : bool * RateLimitStateManager :=
  let key := (instance_id, model) in
  match get_model now key m with
  | None => (false, m)
  | Some state =>
      if negb (ms_unsupported_permanent state) then (false, m)
      else
        (true,
         match ms_cooldown_until state with
         | None =>
             if (ms_retry_count state =? 0)%Z then with_models m (cpop (mono now) key)
             else with_models m (cset (mono now) key
                    (MkModelState None (ms_retry_count state) false None None))
         | Some u => with_models m (cset (mono now) key
                       (MkModelState (Some u) (ms_retry_count state) false None None))
         end)
  end.

Definition clear_unsupported_for_instance now instance_id m : Z * RateLimitStateManager :=
  foldl (λ '(cleared, m) '((candidate_instance, model), state),
           if negb (String.eqb candidate_instance instance_id) || negb (ms_unsupported_permanent state)
           then (cleared, m)
           else let '(ok, m) := clear_model_unsupported now instance_id model m in
                ((if ok then cleared + 1 else cleared)%Z, m))
    (0%Z, m) (citems (mono now) (model_state m)).

(** ** Cooldowns *)

(** The time left to a deadline that is set and in the future. *)
Definition remaining_of now (d : option Q) : option Q :=
  match deadline d with
  | Some u => if Qltb 0 (u - wall now) then Some (u - wall now)%Q else None
  | None => None
  end.

Definition get_cooldown_remaining now instance_id (model : option str) m : option Q :=
  match get_instance now instance_id m ≫= (λ s, remaining_of now (is_cooldown_until s)) with
  | Some remaining => Some remaining
  | None =>
      match model with
      | Some mdl =>
          if is_empty mdl then None
          else get_model now (instance_id, mdl) m ≫= (λ s, remaining_of now (ms_cooldown_until s))
      | None => None
      end
  end.

Definition clear_cooldown now instance_id (model : option str) m : RateLimitStateManager :=
  match or_default model "" with
  | "" =>
      match get_instance now instance_id m with
      | Some state =>
          match is_status state with
          | RATE_LIMITED => with_instances m (cmutate (mono now)
              (λ s, MkInstanceState ACTIVE None (is_disabled_reason s) (is_disabled_at s)) instance_id)
          | _ => m
          end
      | None => m
      end
  | mdl => with_models m (cmutate (mono now)
             (λ s, MkModelState None 0 (ms_unsupported_permanent s) (ms_unsupported_reason s)
                     (ms_unsupported_at s)) (instance_id, mdl))
  end.
End manager.
Arguments RateLimitStateManager : clear implicits.

(** ** Facts, for any lawful cache *)

Section facts.
Context {IC MC : Type} `{ICache : !TTLCache str InstanceState IC, MCache : !TTLCache model_key ModelState MC}.
Context `{ILaws : !TTLCacheLaws str InstanceState IC, MLaws : !TTLCacheLaws model_key ModelState MC}.
Implicit Types (m : RateLimitStateManager IC MC) (now : clock) (i model : str).

(** The status a state stands for at a given time. *)
Definition status_of now (s : option InstanceState) : InstanceStatus :=
  match s with
  | None => ACTIVE
  | Some state =>
      match is_status state with
      | RATE_LIMITED => match deadline (is_cooldown_until state) with
                        | Some u => if Qltb (wall now) u then RATE_LIMITED else ACTIVE
                        | None => ACTIVE
                        end
      | st => st
      end
  end.

Lemma instance_status_spec now i m :
  fst (get_instance_status now i m) = status_of now (get_instance now i m) ∧
  model_state (snd (get_instance_status now i m)) = model_state m ∧
  (fst (get_instance_status now i m) ≠ ACTIVE → snd (get_instance_status now i m) = m).
Proof.
  unfold get_instance_status, status_of. destruct (get_instance now i m) as [s|]; [|done].
  destruct (is_status s); try done. destruct (deadline _) as [u|]; [|done].
  by destruct (Qltb (wall now) u).
Qed.

Lemma check_instance_spec now i m :
  available (fst (check_instance_availability now i m)) =
    bool_decide (fst (get_instance_status now i m) = ACTIVE) ∧
  snd (check_instance_availability now i m) = snd (get_instance_status now i m).
Proof.
  unfold check_instance_availability, get_instance_status, get_instance.
  destruct (cget (mono now) i (instance_state m)) as [s|] eqn:E; [|done].
  destruct (is_status s) eqn:Es; [done| |by rewrite /get_instance E].
  destruct (deadline (is_cooldown_until s)) as [u|]; [|done].
  destruct (Qltb (wall now) u); [|done]. by rewrite /get_instance E.
Qed.

(** The two availability checks agree: the detailed check of a pair reports
    it available exactly when the boolean one does, both leave the same state,
    and neither reports a model available on an instance that is rate limited
    or disabled. *)
Theorem availability_checks_agree now i model m :
  available (fst (check_model_availability now i model m)) = fst (is_model_available now i model m) ∧
  snd (check_model_availability now i model m) = snd (is_model_available now i model m) ∧
  (fst (is_model_available now i model m) = true → fst (get_instance_status now i m) = ACTIVE).
Proof.
  unfold check_model_availability, is_model_available, is_instance_available.
  destruct (check_instance_spec now i m) as [H1 H2].
  destruct (check_instance_availability now i m) as [r m1]. simpl in H1, H2. subst m1.
  destruct (get_instance_status now i m) as [st m'] eqn:E. simpl in H1 |- *. rewrite H1.
  destruct (bool_decide_reflect (st = ACTIVE)) as [->|Hne]; simpl; [|by rewrite H1].
  destruct (get_model now (i, model) m') as [s|]; [|done].
  destruct (ms_unsupported_permanent s); [done|]. destruct (ms_cooldown_until s) as [u|]; [|done].
  by destruct (Qle_bool u (wall now)).
Qed.

(** A cooldown lasts exactly as asked, within the cache's lifetime: on an
    instance that is not disabled, the instance is rate limited at every later
    reading before the deadline and active from the deadline on; a disabled
    instance ignores the cooldown. *)
Theorem instance_cooldown_lifecycle now now' i retry_after m :
  (mono now <= mono now')%Q → (mono now' < mono now + ttl (C:=IC))%Q →
  ~ (wall now + retry_after == 0)%Q →
  let m' := set_instance_cooldown now i retry_after m in
  if bool_decide (status_of now (get_instance now i m) = DISABLED) then m' = m
  else fst (get_instance_status now' i m') =
       if Qltb (wall now') (wall now + retry_after) then RATE_LIMITED else ACTIVE.
Proof using IC ICache MC ILaws.
  intros H1 H2 H3 m'. subst m'.
  assert (∀ x, deadline (Some x) = if Qeq_bool x 0 then None else Some x) as Hd by done.
  assert (Qeq_bool (wall now + retry_after) 0 = false) as Hz.
  { apply not_true_iff_false. by intros ?%Qeq_bool_eq. }
  assert (fst (get_instance_status now' i (with_instances m (cset (mono now) i
    (MkInstanceState RATE_LIMITED (Some (wall now + retry_after)%Q) None None)))) =
    if Qltb (wall now') (wall now + retry_after) then RATE_LIMITED else ACTIVE) as Hstore.
  { destruct (instance_status_spec now' i (with_instances m (cset (mono now) i
      (MkInstanceState RATE_LIMITED (Some (wall now + retry_after)%Q) None None)))) as [-> _].
    unfold get_instance. simpl. rewrite cget_set //. unfold status_of, deadline; simpl. by rewrite Hz. }
  unfold set_instance_cooldown, status_of.
  destruct (get_instance now i m) as [s|] eqn:E; [|by rewrite bool_decide_eq_false_2].
  destruct (is_status s) eqn:Es; [by rewrite bool_decide_eq_false_2| |by rewrite bool_decide_eq_true_2].
  rewrite bool_decide_eq_false_2; [|done].
  destruct (deadline _) as [u|]; [|done]. by destruct (Qltb _ u).
Qed.

(** Disabling an instance is not permanent: it is refused while the cache
    keeps the entry, whatever cooldowns are requested for it meanwhile, but once
    the cache's lifetime has passed the instance is active again although
    nobody reactivated it. *)
Theorem disable_lasts_one_ttl now now' i reason retry_after m :
  (mono now <= mono now')%Q →
  let m' := set_instance_cooldown now i retry_after (disable_instance now i reason m) in
  fst (get_instance_status now' i m') =
  if Qltb (mono now') (mono now + ttl (C:=IC)) then DISABLED else ACTIVE.
Proof using IC ICache MC ILaws.
  intros H1 m'. subst m'.
  assert (set_instance_cooldown now i retry_after (disable_instance now i reason m) =
          disable_instance now i reason m) as ->.
  { unfold set_instance_cooldown, get_instance. simpl. pose proof (ttl_pos (C:=IC)).
    rewrite cget_set //; lra. }
  destruct (instance_status_spec now' i (disable_instance now i reason m)) as [-> _].
  unfold get_instance. simpl. destruct (Qltb_spec (mono now') (mono now + ttl (C:=IC))).
  - by rewrite cget_set.
  - rewrite cget_set_expired //. lra.
Qed.

(** Marking a pair unsupported wins over cooldowns and successes: within the
    cache's lifetime the pair stays unavailable through a rate-limit cooldown
    and through the clearing done on success, until it is cleared explicitly. *)
Theorem unsupported_survives_success now now' i model reason retry_after m :
  model ≠ "" → (mono now <= mono now')%Q → (mono now' < mono now + ttl (C:=MC))%Q →
  let m1 := mark_model_unsupported now i model reason m in
  let m2 := clear_cooldown now' i (Some model) (set_model_cooldown now' i model retry_after m1) in
  fst (is_model_available now' i model m2) = false ∧
  fst (clear_model_unsupported now' i model m2) = true.
Proof using IC ICache MC MCache MLaws.
  intros Hne H1 H2 m1 m2.
  assert (∃ rc, get_model now' (i, model) m1 = Some (MkModelState None rc true (Some reason) (Some (wall now)))) as [rc Hg].
  { eexists. unfold get_model, m1, mark_model_unsupported. simpl. by rewrite cget_set. }
  clearbody m1.
  assert (set_model_cooldown now' i model retry_after m1 = m1) as Hset.
  { unfold set_model_cooldown. by rewrite Hg. }
  assert (get_model now' (i, model) m2 = Some (MkModelState None 0 true (Some reason) (Some (wall now)))) as Hm2.
  { unfold m2. rewrite Hset. unfold clear_cooldown, or_default.
    destruct model as [|ch model']; [done|]. simpl. unfold get_model in Hg |- *. simpl.
    rewrite cget_mutate; [lra|]. by rewrite Hg. }
  split.
  - unfold is_model_available, is_instance_available.
    destruct (instance_status_spec now' i m2) as (_ & Hms & _).
    destruct (get_instance_status now' i m2) as [st m3]. simpl in Hms.
    destruct (bool_decide_reflect (st = ACTIVE)); simpl; [|done].
    unfold get_model in Hm2 |- *. by rewrite Hms Hm2.
  - unfold clear_model_unsupported. by rewrite Hm2.
Qed.
End facts.

(** *** Witnesses, on the list cache *)

Definition sample_limits : RateLimitStateManager (list_cache str InstanceState) (list_cache model_key ModelState) :=
  MkRateLimits (MkListCache []) (MkListCache []).

#[export] Instance sample_ic : TTLCache str InstanceState (list_cache str InstanceState) :=
  list_cache_ops 3600 1000.
#[export] Instance sample_mc : TTLCache model_key ModelState (list_cache model_key ModelState) :=
  list_cache_ops 3600 10000.
#[export] Instance sample_il : TTLCacheLaws str InstanceState (list_cache str InstanceState).
Proof. apply list_cache_laws; [done|by apply Nat.ltb_lt]. Qed.
#[export] Instance sample_ml : TTLCacheLaws model_key ModelState (list_cache model_key ModelState).
Proof. apply list_cache_laws; [done|by apply Nat.ltb_lt]. Qed.

Lemma instance_cooldown_lifecycle_witness :
  fst (get_instance_status (MkClock 5 105) "a" (set_instance_cooldown (MkClock 0 100) "a" 10 sample_limits))
  = RATE_LIMITED.
Proof.
  pose proof (instance_cooldown_lifecycle (MkClock 0 100) (MkClock 5 105) "a" 10 sample_limits
    ltac:(vm_compute; discriminate) ltac:(vm_compute; reflexivity) ltac:(vm_compute; discriminate)) as H.
  vm_compute in H |- *. exact H.
Defined.

Lemma disable_lasts_one_ttl_witness :
  fst (get_instance_status (MkClock 3600 3700) "a"
    (set_instance_cooldown (MkClock 0 100) "a" 10 (disable_instance (MkClock 0 100) "a" "bad key" sample_limits)))
  = ACTIVE.
Proof.
  pose proof (disable_lasts_one_ttl (MkClock 0 100) (MkClock 3600 3700) "a" "bad key" 10 sample_limits
    ltac:(vm_compute; discriminate)) as H.
  vm_compute in H |- *. exact H.
Defined.

Lemma unsupported_survives_success_witness :
  fst (is_model_available (MkClock 5 105) "a" "m"
    (clear_cooldown (MkClock 5 105) "a" (Some "m") (set_model_cooldown (MkClock 5 105) "a" "m" 10
       (mark_model_unsupported (MkClock 0 100) "a" "m" "no" sample_limits)))) = false.
Proof.
  exact (proj1 (unsupported_survives_success (MkClock 0 100) (MkClock 5 105) "a" "m" "no" 10 sample_limits
    ltac:(done) ltac:(vm_compute; discriminate) ltac:(vm_compute; reflexivity))).
Defined.
