(* ===== verification/ErrorHandlers.v ===== *)
(** * Error classification and the handler chain

    Models [src/core/services/provider_error_classifier.py] and the handlers
    under [src/core/services/resilience/handlers/]: the chain of responsibility
    (circuit breaker, then rate limit, then authentication) that turns a failed
    call into state updates and an action.  An error is the attributes the
    handlers read with [getattr]; [None] is a missing attribute. *)

From Stdlib Require Import Ascii.
From S2P Require Import Prelude PyStr PyDict Exceptions TTLCache CircuitBreaker RateLimitState.
From stdpp Require Import options.

Record error_attrs : Type := MkError {
  ea_class : exn_class;
  ea_str : str;                       (* str(error) *)
  ea_message : option str;
  ea_detail : option json;
  ea_details : option json;
  ea_code : option str;
  ea_status_code : option Z;
  ea_response_status : option Z;      (* error.response.status_code *)
  ea_reset_at : option json;
  ea_retry_after : option json
}.

(** The attributes of an exception of the proxy's own hierarchy. *)
Definition attrs_of (e : exn) : error_attrs :=
  MkError (ex_class e) (ex_message e) (Some (ex_message e)) None (Some (JDict (ex_details e)))
    (ex_code e) (Some (ex_status_code e)) None (JFloat <$> ex_reset_at e) None.

Definition error_name (e : error_attrs) : str := class_name (ea_class e).

(** ** JSON access *)

Definition as_dict (v : option json) : option (list (str * json)) :=
  match v with Some (JDict d) => Some d | _ => None end.

(** [d.get(k)] on a value that may not be a dictionary. *)
Definition dget (k : str) (v : option json) : option json := as_dict v ≫= od_get k.

Definition nonblank (v : option str) : option str :=
  match v with Some s => if is_empty (strip s) then None else Some s | None => None end.

(** The first alternative that answers. *)
Fixpoint first_some {A} (l : list (option A)) : option A :=
  match l with
  | [] => None
  | Some x :: _ => Some x
  | None :: l' => first_some l'
  end.

(** ** The provider error classifier *)

Module Classifier.

Record ProviderErrorClassification : Type := MkClassification {
  pc_code : str;
  pc_category : str;
  pc_retryable : bool;
  pc_reason : str
}.

Definition _PERMANENT_MODEL_CODES : list str :=
  ["model_not_found"; "model_not_supported"; "unsupported_model"; "unsupported_on_instance"].
Definition _TEMPORARY_CODES : list str :=
  ["rate_limit"; "rate_limited"; "rate_limit_exceeded"; "quota_exceeded"; "temporarily_unavailable"].

Definition _extract_status_code (error : error_attrs) : option Z :=
  first_some [ea_status_code error; as_int (dget "status_code" (ea_details error))].

Definition _extract_message (error : error_attrs) : str :=
  let from d := [nonblank (as_str (dget "message" d));
                 nonblank (as_str (dget "message" (dget "error" d)))] in
  default (ea_str error)
    (first_some (from (ea_detail error) ++ from (ea_details error) ++ [nonblank (ea_message error)])).

Definition _extract_code (error : error_attrs) : option str :=
  let from d := [as_str (dget "code" d); as_str (dget "code" (dget "error" d))] in
  first_some (from (ea_detail error) ++ from (ea_details error) ++ [ea_code error]).

Definition _is_permanent_model_not_found (status_code : option Z)
    (normalized_code normalized_message : str) : bool :=
  str_in normalized_code _PERMANENT_MODEL_CODES ||
  (bool_decide (status_code = Some 400%Z ∨ status_code = Some 404%Z) &&
   str_contains "model" normalized_message &&
   (str_contains "not found" normalized_message || str_contains "does not exist" normalized_message ||
    str_contains "unknown model" normalized_message || str_contains "unsupported" normalized_message)) ||
  str_contains "model_not_found" normalized_message.

Definition classify (error : error_attrs) : ProviderErrorClassification :=
  let status_code := _extract_status_code error in
  let message := _extract_message error in
  let normalized_code := match _extract_code error with Some c => strip (lower c) | None => "" end in
  let normalized_message := lower message in
  if _is_permanent_model_not_found status_code normalized_code normalized_message
  then MkClassification "unsupported_on_instance" "availability" false message
  else if bool_decide (status_code = Some 429%Z) || str_in normalized_code _TEMPORARY_CODES
  then MkClassification "temporarily_unavailable" "availability" true message
  else if bool_decide (status_code = Some 401%Z ∨ status_code = Some 403%Z)
  then MkClassification "policy_rejected" "policy" false message
  else MkClassification "unclassified_error" "execution" false message.
End Classifier.

(** ** Actions and contexts *)

Inductive ActionType : Type := PROCEED | REJECT | COOLDOWN | DISABLE_INSTANCE | FALLBACK | RETRY.

#[export] Instance ActionType_eq_dec : EqDecision ActionType.
Proof. solve_decision. Defined.

Record ResilienceAction : Type := MkAction {
  act_type : ActionType;
  act_duration : Q;
  act_reason : str;
  act_permanent : bool
}.

Definition proceed_action (reason : str) : ResilienceAction := MkAction PROCEED 0 reason false.

Record ErrorContext : Type := MkErrorContext {
  ec_instance_id : str;
  ec_model : str;
  ec_error : error_attrs;
  ec_extra : list (str * json)
}.

Definition no_handler (error : error_attrs) : ResilienceAction :=
  proceed_action ("No handler for " +:+ error_name error).

(** ** Durations *)

(** A duration the state can hold, or a non-finite one ([inf] or [nan] in a
    header), which the model does not follow further. *)
Inductive duration : Type := Seconds (s : Q) | NonFinite.

Definition dec_to_Q (m e : Z) : Q :=
  if (0 <=? e)%Z then inject_Z (m * 10 ^ e) else (inject_Z m / inject_Z (10 ^ (- e)))%Q.

Definition duration_of (x : pyfloat) : duration :=
  match x with FDec m e => Seconds (dec_to_Q m e) | _ => NonFinite end.

(** [float(v)]; [None] when it raises. *)
Definition float_of_json (v : json) : option pyfloat :=
  match v with
  | JInt z => Some (FDec z 0)
  | JBool b => Some (FDec (if b then 1 else 0)%Z 0)
  | JFloat x => Some x
  | JStr s => py_float s
  | _ => None
  end.

(** [str.isdigit] also holds of the three superscript digits of Latin-1. *)
Definition is_pydigit (c : ascii) : bool :=
  is_digit c || existsb (Nat.eqb (nat_of_ascii c)) [178; 179; 185].

Definition add_duration (total : duration) (x : pyfloat) (unit : Q) : duration :=
  match total, x with
  | Seconds t, FDec m e => Seconds (t + dec_to_Q m e * unit)
  | _, _ => NonFinite
  end.

(** The loop of the complex format; [None] is the [ValueError] of [float]. *)
Fixpoint duration_loop (total : duration) (current_val s : str) : option duration :=
  match s with
  | "" => Some total
  | String char s' =>
      let flush (unit : Q) :=
        match py_float current_val with
        | Some x => duration_loop (add_duration total x unit) "" s'
        | None => None
        end in
      if is_pydigit char || Ascii.eqb char "." then duration_loop total (current_val +:+ String char "") s'
      else if Ascii.eqb char "h" then flush 3600%Q
      else if Ascii.eqb char "m" then flush 60%Q
      else if Ascii.eqb char "s" then flush 1%Q
      else duration_loop total current_val s'
  end.

Definition _parse_duration_string (text : str) : option duration :=
  if endswith "s" text && negb (str_contains "m" text) && negb (str_contains "h" text)
  then duration_of <$> py_float (str_take (String.length text - 1) text)
  else match duration_loop (Seconds 0) "" text with
       | Some (Seconds total_seconds) =>
           if Qltb 0 total_seconds then Some (Seconds total_seconds) else None
       | Some NonFinite => Some NonFinite
       | None => None
       end.

Definition _parse_retry_after_header (value : json) : option duration :=
  match value with
  | JInt _ | JBool _ | JFloat _ | JStr _ => duration_of <$> float_of_json value
  | _ => None
  end.

(** ** The handlers *)

Definition INSTANCE_WIDE_INDICATORS : list str :=
  ["account"; "organization"; "org"; "api_key"; "api key"; "apikey"; "billing"; "quota"; "subscription"].
Definition DEFAULT_COOLDOWN_SECONDS : Q := 60.
Definition AUTH_STATUS_CODES : list Z := [401%Z].
Definition _TRANSIENT_STATUS_CODES : list Z := [500; 502; 503; 504]%Z.
Definition _NON_TRANSIENT_STATUS_CODES : list Z := [401; 403; 429]%Z.

Definition status_in (status : option Z) (codes : list Z) : bool :=
  match status with Some s => bool_decide (s ∈ codes) | None => false end.

(** How a handler fails to answer: it raises, or it has a non-finite duration,
    which the model does not follow further. *)
Inductive handler_failure : Type := RaisedTypeError | NonFiniteDuration.

Section handlers.
Context {IC MC : Type} `{ICache : !TTLCache str InstanceState IC, MCache : !TTLCache model_key ModelState MC}.
Context (cfg : CircuitBreakerConfig).
(** [str()] of a list or a dictionary, [format(x, ".1f")], and the exception
    types of the HTTP library that are timeouts or transport errors. *)
Context (repr_json : json → str) (format_1f : Q → str) (is_httpx_transport : str → bool).

Record resilience_state : Type := MkResilience {
  rs_limits : RateLimitStateManager IC MC;
  rs_breakers : gmap string CircuitBreakerState
}.

Definition str_of_json (v : json) : str :=
  match v with
  | JStr s => s
  | JNull => "None"
  | JBool b => if b then "True" else "False"
  | JInt z => str_of_Z z
  | JFloat x => str_of_float x
  | _ => repr_json v
  end.

(** A handler in a chain: the action it takes and the state it leaves. *)
Definition handler : Type :=
  ErrorContext → resilience_state → res handler_failure (ResilienceAction * resilience_state).

(** [BaseErrorHandler.handle] *)
Definition base_handle (can_handle : error_attrs → bool) (do_handle : handler) (next : option handler) :
    handler := λ context st,
  if can_handle (ec_error context) then do_handle context st
  else match next with
  | Some next_handler => next_handler context st
  | None => Ok (no_handler (ec_error context), st)
  end.

(** *** Rate limits *)

Definition rate_limit_can_handle (error : error_attrs) : bool :=
  isinstance (ea_class error) [RateLimitExceededError] ||
  status_in (ea_status_code error) [429%Z] || status_in (ea_response_status error) [429%Z].

(** The nested Google details: a retry delay or a quota reset delay. *)
Definition detail_duration (detail : json) : option duration :=
  match detail with
  | JDict _ =>
      first_some [as_str (dget "retryDelay" (Some detail)) ≫= _parse_duration_string;
                  as_str (dget "quotaResetDelay" (dget "metadata" (Some detail))) ≫= _parse_duration_string]
  | _ => None
  end.

(** [details] as the code reads it: [error.details or {}]. *)
Definition details_or_empty (error : error_attrs) : json :=
  if truthy (ea_details error) then default (JDict []) (ea_details error) else JDict [].

Definition error_details_list (details : json) : option (list json) :=
  match details with
  | JDict d =>
      let error_info := default details (od_get "error" d) in
      match dget "details" (Some error_info) with Some (JList l) => Some l | _ => None end
  | JList l => Some l
  | _ => None
  end.

Definition _extract_retry_after (default_cooldown : Q) (now : clock) (error : error_attrs) : duration :=
  let details := details_or_empty error in
  let from_reset_at :=
    match ea_reset_at error ≫= float_of_json with
    | Some (FDec m e) => let remaining := (dec_to_Q m e - wall now)%Q in
                         if Qltb 0 remaining then Some (Seconds remaining) else None
    | Some (FInf false) => Some NonFinite
    | _ => None
    end in
  let from_seconds :=
    match dget "retry_after_seconds" (Some details) with
    | None | Some JNull => None
    | Some v => duration_of <$> float_of_json v
    end in
  let from_headers :=
    let headers := dget "headers" (Some details) in
    let lower_case := dget "retry-after" headers in
    let value := if truthy lower_case then lower_case else dget "Retry-After" headers in
    value ≫= _parse_retry_after_header in
  let from_google := first_some (detail_duration <$> default [] (error_details_list details)) in
  let from_attribute :=
    match ea_retry_after error with
    | None | Some JNull => None
    | Some v => duration_of <$> float_of_json v
    end in
  default (Seconds default_cooldown)
    (first_some [from_reset_at; from_seconds; from_headers; from_google; from_attribute]).

Definition message_parts (error : error_attrs) : list str :=
  let dict_parts d := [match od_get "message" d with Some v => str_of_json v | None => "" end;
                       match od_get "error" d with Some v => str_of_json v | None => "" end] in
  match ea_message error with Some s => if is_empty s then [] else [s] | None => [] end ++
  (if truthy (ea_detail error) then
     match ea_detail error with
     | Some (JDict d) => dict_parts d
     | Some v => [str_of_json v]
     | None => []
     end
   else []) ++
  (if truthy (ea_details error) then
     match ea_details error with Some (JDict d) => dict_parts d | _ => [] end
   else []) ++
  [ea_str error].

Definition _is_instance_wide_limit (error : error_attrs) : bool :=
  let full_message := lower (join " " (message_parts error)) in
  existsb (λ indicator, str_contains indicator full_message) INSTANCE_WIDE_INDICATORS.

Definition rate_limit_do_handle (default_cooldown : Q) (now : clock) : handler := λ context st,
  match _extract_retry_after default_cooldown now (ec_error context) with
  | NonFinite => Err NonFiniteDuration
  | Seconds retry_after =>
      if _is_instance_wide_limit (ec_error context) then
        Ok (MkAction COOLDOWN retry_after
                ("Instance-wide rate limit for " +:+ format_1f retry_after +:+ "s") false,
              MkResilience (set_instance_cooldown now (ec_instance_id context) retry_after (rs_limits st))
                (rs_breakers st))
      else
        Ok (MkAction COOLDOWN retry_after
                ("Model rate limit for " +:+ format_1f retry_after +:+ "s") false,
              MkResilience (set_model_cooldown now (ec_instance_id context) (ec_model context) retry_after
                              (rs_limits st)) (rs_breakers st))
  end.

(** *** Authentication *)

Definition auth_can_handle (error : error_attrs) : bool :=
  isinstance (ea_class error) [AuthenticationError] ||
  str_contains "To continue, validate" (ea_str error) ||
  status_in (ea_status_code error) AUTH_STATUS_CODES ||
  status_in (ea_response_status error) AUTH_STATUS_CODES.

(** [context.extra.get("backend_type", "")] as lower-case text. *)
Definition extra_backend_type (context : ErrorContext) : str :=
  match od_get "backend_type" (ec_extra context) with
  | Some v => lower (str_of_json v)
  | None => ""
  end.

(** The text of [error.detail]: [message], [error] or the whole dictionary; a
    truthy entry that is not a string ends in the [TypeError] of [join]. *)
Definition detail_message (detail : json) : res handler_failure str :=
  match detail with
  | JDict d =>
      let value := if truthy (od_get "message" d) then od_get "message" d
                   else if truthy (od_get "error" d) then od_get "error" d
                   else Some (JStr (repr_json detail)) in
      match value with
      | Some (JStr s) => Ok s
      | _ => Err RaisedTypeError
      end
  | _ => Ok (str_of_json detail)
  end.

Definition _build_reason (error : error_attrs) : res handler_failure str :=
  let status_part := match ea_status_code error with
                     | Some s => if (s =? 0)%Z then [] else ["HTTP " +:+ str_of_Z s]
                     | None => []
                     end in
  let from_detail := if truthy (ea_detail error)
                     then detail_message (default JNull (ea_detail error)) else Ok "" in
  message ← match ea_message error with
            | Some s => if is_empty s then from_detail else Ok s
            | None => from_detail
            end;
  let message := if is_empty message then ea_str error else message in
  let message := if 200 <? String.length message then str_take 197 message +:+ "..." else message in
  Ok (join " - " (status_part ++ [message])).

Definition auth_do_handle (now : clock) : handler := λ context st,
  let backend_type := extra_backend_type context in
  let instance_id_lower := lower (ec_instance_id context) in
  if str_contains "oauth-auto" backend_type
  then Ok (proceed_action "OAuth auto backends manage auth failures per account", st)
  else if startswith "opencode-go" instance_id_lower
  then Ok (proceed_action "Auth errors for opencode-go do not permanently disable the instance", st)
  else if match od_get "is_personal_backend" (ec_extra context) with
          | Some (JBool true) => true | _ => false end ||
          str_contains "oauth" backend_type || str_contains "oauth" instance_id_lower ||
          str_contains "codex" instance_id_lower
  then Ok (proceed_action
             "Auth errors for personal/OAuth backends are not permanently disabled", st)
  else
    reason ← _build_reason (ec_error context);
    Ok (MkAction DISABLE_INSTANCE 0 reason true,
        MkResilience (disable_instance now (ec_instance_id context) reason (rs_limits st))
          (rs_breakers st)).

(** *** Circuit breaker *)

Definition cb_extract_status_code (error : error_attrs) : option Z :=
  first_some [ea_status_code error; ea_response_status error;
              as_int (dget "status_code" (ea_details error))].

(** [TimeoutError], [ConnectionError] and its subclasses. *)
Definition builtin_transport : list str :=
  ["TimeoutError"; "ConnectionError"; "BrokenPipeError"; "ConnectionAbortedError";
   "ConnectionRefusedError"; "ConnectionResetError"].

Definition _is_timeout_or_transport_error (error : error_attrs) : bool :=
  isinstance (ea_class error) [APITimeoutError; APIConnectionError] ||
  match ea_class error with
  | PyException name => str_in name builtin_transport || is_httpx_transport name
  | _ => false
  end.

Definition cb_can_handle (error : error_attrs) : bool :=
  let status_code := cb_extract_status_code error in
  if isinstance (ea_class error) [RateLimitExceededError; AuthenticationError] then false
  else if status_in status_code _NON_TRANSIENT_STATUS_CODES then false
  else if _is_timeout_or_transport_error error then true
  else status_in status_code _TRANSIENT_STATUS_CODES.

Definition _build_failure_reason (error : error_attrs) : str :=
  let status_code := cb_extract_status_code error in
  if status_in status_code _TRANSIENT_STATUS_CODES
  then "http_" +:+ str_of_Z (default 0%Z status_code)
  else if _is_timeout_or_transport_error error then
    if isinstance (ea_class error) [APITimeoutError; PyException "TimeoutError"] then "timeout"
    else "transport_error"
  else lower (error_name error).

Definition cb_handle (now : clock) (next : option handler) : handler := λ context st,
  let recorded := cb_can_handle (ec_error context) in
  let st := if recorded
            then MkResilience (rs_limits st)
                   (record_failure cfg (ec_instance_id context)
                      (_build_failure_reason (ec_error context)) (mono now) (rs_breakers st))
            else st in
  let own := if recorded then proceed_action "circuit_breaker_failure_recorded"
             else no_handler (ec_error context) in
  match next with
  | None => Ok (own, st)
  | Some next_handler =>
      match next_handler context st with
      | Err f => Err f
      | Ok (action, st') =>
          if negb (bool_decide (act_type action = PROCEED)) then Ok (action, st')
          else if negb (is_empty (act_reason action)) &&
                  negb (startswith "No handler for " (act_reason action))
          then Ok (action, st')
          else Ok (own, st')
      end
  end.

(** The chain the container builds. *)
Definition error_chain (now : clock) : handler :=
  cb_handle now (Some (base_handle rate_limit_can_handle
    (rate_limit_do_handle DEFAULT_COOLDOWN_SECONDS now)
    (Some (base_handle auth_can_handle (auth_do_handle now) None)))).
End handlers.

(** ** What the chain does *)

Section chain_facts.
Context {IC MC : Type} `{ICache : !TTLCache str InstanceState IC, MCache : !TTLCache model_key ModelState MC}.
Context (cfg : CircuitBreakerConfig).
Context (repr_json : json → str) (format_1f : Q → str) (is_httpx_transport : str → bool).
Notation chain := (error_chain cfg repr_json format_1f is_httpx_transport).
Notation cb_handles := (cb_can_handle is_httpx_transport).

(** The rate-limit and authentication part of the chain: what it does to the
    limits, by the action it reports. *)
Lemma tail_effects now context (st st' : resilience_state (IC := IC) (MC := MC)) action :
  base_handle rate_limit_can_handle
    (rate_limit_do_handle repr_json format_1f DEFAULT_COOLDOWN_SECONDS now)
    (Some (base_handle auth_can_handle (auth_do_handle repr_json now) None)) context st = Ok (action, st') →
  rs_breakers st' = rs_breakers st ∧
  match act_type action with
  | COOLDOWN => rate_limit_can_handle (ec_error context) = true
  | DISABLE_INSTANCE => rate_limit_can_handle (ec_error context) = false ∧
      auth_can_handle (ec_error context) = true ∧
      rs_limits st' = disable_instance now (ec_instance_id context) (act_reason action) (rs_limits st)
  | PROCEED => rate_limit_can_handle (ec_error context) = false ∧ st' = st
  | _ => False
  end.
Proof.
  unfold base_handle. destruct (rate_limit_can_handle (ec_error context)) eqn:Er.
  - unfold rate_limit_do_handle. destruct (_extract_retry_after _ _ _); [|done].
    destruct (_is_instance_wide_limit _ _); intros [= <- <-]; done.
  - destruct (auth_can_handle (ec_error context)) eqn:Ea; [|by intros [= <- <-]].
    unfold auth_do_handle. destruct (str_contains "oauth-auto" _); [by intros [= <- <-]|].
    destruct (startswith "opencode-go" _); [by intros [= <- <-]|].
    destruct (_ || _ || _ || _); [by intros [= <- <-]|].
    destruct (_build_reason _ _) as [reason|]; cbn [mbind res_bind]; [|done]. by intros [= <- <-].
Qed.

(** The handler chain separates its concerns: the breaker is touched exactly
    when the error is a transient one (never for a rate limit, an
    authentication error or a 401, 403 or 429 status), the action is a cooldown
    exactly for rate limits, an instance is disabled only for authentication
    errors that are not rate limits, and a plain "proceed" leaves the limits as
    they were. *)
Theorem error_chain_effects now context (st st' : resilience_state (IC := IC) (MC := MC)) action :
  chain now context st = Ok (action, st') →
  let e := ec_error context in
  rs_breakers st' =
    (if cb_handles e then record_failure cfg (ec_instance_id context)
       (_build_failure_reason is_httpx_transport e) (mono now) (rs_breakers st)
     else rs_breakers st) ∧
  (isinstance (ea_class e) [RateLimitExceededError; AuthenticationError] = true ∨
   status_in (ea_status_code e) _NON_TRANSIENT_STATUS_CODES = true → cb_handles e = false) ∧
  match act_type action with
  | COOLDOWN => rate_limit_can_handle e = true
  | DISABLE_INSTANCE => rate_limit_can_handle e = false ∧ auth_can_handle e = true ∧
      rs_limits st' = disable_instance now (ec_instance_id context) (act_reason action) (rs_limits st)
  | PROCEED => rate_limit_can_handle e = false ∧ rs_limits st' = rs_limits st
  | _ => False
  end.
Proof.
  intros H e. unfold error_chain, cb_handle in H. fold e in H.
  set (st1 := if cb_handles e then _ else st) in H.
  destruct (base_handle _ _ _ context st1) as [[a s1]|] eqn:E; [|done].
  apply tail_effects in E as [Hb Ht]. fold e in Ht.
  assert (rs_limits st1 = rs_limits st) as Hl by (subst st1; by destruct (cb_handles e)).
  assert (rs_breakers st1 = if cb_handles e then record_failure cfg (ec_instance_id context)
       (_build_failure_reason is_httpx_transport e) (mono now) (rs_breakers st) else rs_breakers st)
    as Hb1 by (subst st1; by destruct (cb_handles e)).
  assert (isinstance (ea_class e) [RateLimitExceededError; AuthenticationError] = true ∨
    status_in (ea_status_code e) _NON_TRANSIENT_STATUS_CODES = true → cb_handles e = false) as Hn.
  { unfold cb_can_handle, cb_extract_status_code. intros [->|Hs]; [done|].
    destruct (isinstance _ _); [done|]. destruct (ea_status_code e); [|done]. simpl in Hs |- *. by rewrite Hs. }
  rewrite -Hb1 -Hb -Hl.
  destruct (act_type a) eqn:Ea; simpl in H; try done.
  - destruct Ht as [Hr ->].
    destruct (negb (is_empty (act_reason a)) && _); injection H as <- <-.
    + by rewrite Ea.
    + by destruct (cb_handles e).
  - injection H as <- <-. by rewrite Ea.
  - injection H as <- <-. by rewrite Ea.
Qed.
End chain_facts.

(** Classification is total and precise: the code is one of four, the
    result is retryable exactly for a temporary unavailability, a permanent
    model signal wins over a 429, a 429 without one is temporary, and a 401 or
    403 without either is a policy rejection. *)
Theorem classify_precedence error :
  let c := Classifier.classify error in
  let status := Classifier._extract_status_code error in
  let code := match Classifier._extract_code error with Some s => strip (lower s) | None => "" end in
  let permanent := Classifier._is_permanent_model_not_found status code
                     (lower (Classifier._extract_message error)) in
  Classifier.pc_reason c = Classifier._extract_message error ∧
  Classifier.pc_retryable c = String.eqb (Classifier.pc_code c) "temporarily_unavailable" ∧
  (permanent = true ↔ Classifier.pc_code c = "unsupported_on_instance") ∧
  (permanent = false → status = Some 429%Z → Classifier.pc_code c = "temporarily_unavailable") ∧
  (permanent = false → str_in code Classifier._TEMPORARY_CODES = false →
   status = Some 401%Z ∨ status = Some 403%Z → Classifier.pc_code c = "policy_rejected").
Proof.
  intros c status code permanent. subst c. unfold Classifier.classify. cbv zeta.
  fold status. fold code. fold permanent.
  destruct permanent; [split_and!; done|].
  destruct (str_in code Classifier._TEMPORARY_CODES).
  { rewrite orb_true_r. split_and!; done. }
  rewrite orb_false_r. case_bool_decide; [split_and!; try done; intros _ _ [?|?]; congruence|].
  case_bool_decide; split_and!; done.
Qed.

(** Reporting a structured authentication failure can crash: for an error
    without a [message] whose [detail] nests the provider's error object, the
    reason builder raises [TypeError] instead of returning a reason. *)
Theorem nested_detail_breaks_reason repr_json inner status :
  let error := MkError (PyException "HTTPException") "" None
                 (Some (JDict [("error", JDict (("message", JStr "bad key") :: inner))]))
                 None None (Some status) None None None in
  _build_reason repr_json error = Err RaisedTypeError.
Proof. reflexivity. Qed.

(** ** Durations *)

Lemma duration_loop_digits total cur s rest :
  all_digits s = true → duration_loop total cur (s +:+ rest) = duration_loop total (cur +:+ s) rest.
Proof.
  revert cur; induction s as [|c s IH]; intros cur; [by rewrite sapp_nil_l sapp_nil_r|].
  simpl all_digits. intros [Hc Hs]%andb_true_iff. rewrite sapp_cons. cbn [duration_loop].
  unfold is_pydigit. rewrite Hc /= IH // sapp_assoc sapp_cons sapp_nil_l //.
Qed.

(** Naturals a double holds exactly read back as themselves. *)
Lemma mk_float_nat n : (n < 2 ^ 53)%N → ∃ m, mk_float (Z.of_N n) 0 = FDec m 0 ∧ m = Z.of_N n.
Proof.
  intros Hn. exists (Z.of_N n). split; [|done]. unfold mk_float, dec_leb.
  rewrite !Z.mul_1_r Z.abs_eq; [lia|].
  destruct (Z.leb_spec (2 ^ 1024 - 2 ^ 970) (Z.of_N n)) as [H|_].
  { exfalso. assert (2 ^ 53 < 2 ^ 1024 - 2 ^ 970)%Z by (vm_compute; reflexivity). lia. }
  destruct (Z.leb_spec (Z.of_N n * 2 ^ 1075) 1) as [H|_]; [|done].
  assert (2 <= 2 ^ 1075)%Z by (vm_compute; discriminate).
  destruct (decide (Z.of_N n = 0%Z)) as [->|]; [done|]. exfalso. nia.
Qed.

(** One [<number><unit>] group of the loop. *)
Lemma duration_loop_group t n unit c rest :
  (n < 2 ^ 53)%N →
  (c = "h"%char ∧ unit = 3600%Q ∨ c = "m"%char ∧ unit = 60%Q ∨ c = "s"%char ∧ unit = 1%Q) →
  duration_loop (Seconds t) "" (str_of_N n +:+ String c rest) =
  duration_loop (Seconds (t + dec_to_Q (Z.of_N n) 0 * unit)) "" rest.
Proof.
  intros Hn Hc. destruct (str_of_N_digits n) as [Hd _]. rewrite duration_loop_digits // sapp_nil_l.
  destruct (mk_float_nat n Hn) as (m & Hm & ->).
  destruct Hc as [[-> ->]|[[-> ->]|[-> ->]]]; cbn [duration_loop];
    rewrite py_float_str_of_N Hm; reflexivity.
Qed.

Lemma contains_char c s t : str_contains (String c "") (s +:+ String c t) = true.
Proof.
  induction s as [|d s IH]; [rewrite sapp_nil_l; cbn; by rewrite Ascii.eqb_refl|].
  rewrite sapp_cons. cbn [str_contains]. rewrite IH. apply orb_true_r.
Qed.

(** Provider retry delays are read as written: a delay printed as hours,
    minutes and seconds parses to [3600 h + 60 m + s] seconds, and to nothing
    when it is zero. *)
Theorem duration_hms h m s :
  (h < 2 ^ 53)%N → (m < 2 ^ 53)%N → (s < 2 ^ 53)%N →
  let text := str_of_N h +:+ "h" +:+ str_of_N m +:+ "m" +:+ str_of_N s +:+ "s" in
  let total := (3600 * Z.of_N h + 60 * Z.of_N m + Z.of_N s)%Z in
  if (total =? 0)%Z then _parse_duration_string text = None
  else ∃ q, _parse_duration_string text = Some (Seconds q) ∧ (q == inject_Z total)%Q.
Proof.
  intros Hh Hm Hs text total. unfold _parse_duration_string.
  assert (str_contains "m" text = true) as ->.
  { subst text. rewrite -!sapp_assoc. rewrite (sapp_assoc _ _ "s") (sapp_assoc _ "m"). apply contains_char. }
  rewrite andb_false_r. subst text.
  assert (duration_loop (Seconds 0) "" (str_of_N h +:+ "h" +:+ str_of_N m +:+ "m" +:+ str_of_N s +:+ "s") =
    Some (Seconds (0 + dec_to_Q (Z.of_N h) 0 * 3600 + dec_to_Q (Z.of_N m) 0 * 60 + dec_to_Q (Z.of_N s) 0 * 1)))
    as ->.
  { change ("h" +:+ ?x) with (String "h" x). change ("m" +:+ ?x) with (String "m" x).
    rewrite (duration_loop_group _ h 3600); [done|auto|]. rewrite (duration_loop_group _ m 60); [done|auto|].
    rewrite (duration_loop_group _ s 1); [done|auto|]. done. }
  assert (∀ z, dec_to_Q z 0 == inject_Z z)%Q as Hq.
  { intros z. unfold dec_to_Q. cbn. by rewrite Z.mul_1_r. }
  set (q := (_ + _ * 1)%Q).
  assert (q == inject_Z total)%Q as E.
  { subst q total. rewrite !Hq !inject_Z_plus !inject_Z_mult. ring. }
  clearbody q.
  destruct (Z.eqb_spec total 0) as [Hz|Hz].
  - rewrite Hz in E. change (inject_Z 0) with 0%Q in E. qcase; [lra|done].
  - assert (0 < total)%Z as Hpos by lia. rewrite Zlt_Qlt in Hpos. change (inject_Z 0) with 0%Q in Hpos.
    qcase; [by exists q|lra].
Qed.

Lemma duration_hms_witness :
  ∃ q, _parse_duration_string "4h51m33s" = Some (Seconds q) ∧ (q == 17493)%Q.
Proof. exact (duration_hms 4 51 33 ltac:(lia) ltac:(lia) ltac:(lia)). Defined.

Definition sample_resilience :
    resilience_state (IC := list_cache str InstanceState) (MC := list_cache model_key ModelState) :=
  MkResilience sample_limits ∅.

Lemma error_chain_effects_witness :
  let e := attrs_of (mk_AuthenticationError "bad key" []) in
  ∃ action st', error_chain default_cb_config (λ _, "") (λ _, "") (λ _, false) (MkClock 0 100)
      (MkErrorContext "openai" "m" e []) sample_resilience = Ok (action, st') ∧
    act_type action = DISABLE_INSTANCE ∧ rs_breakers st' = ∅.
Proof.
  intros e. eexists _, _. split; [vm_compute; reflexivity|].
  pose proof (error_chain_effects default_cb_config (λ _, "") (λ _, "") (λ _, false) (MkClock 0 100)
    (MkErrorContext "openai" "m" e []) sample_resilience _ _ ltac:(vm_compute; reflexivity)) as [H _].
  split; [reflexivity|exact H].
Defined.
