(* ===== verification/Resilience.v ===== *)
(** * The resilience coordinator

    Models [src/core/services/resilience/scope.py] (the instance id under which
    state is kept) and [src/core/services/resilience/coordinator.py], which asks
    endpoint health, the circuit breaker and the rate-limit state before a call
    and updates them after it. *)

From Stdlib Require Import Ascii.
From S2P Require Import Prelude PyStr PyDict Exceptions TTLCache CircuitBreaker RateLimitState.
From S2P Require Import ErrorHandlers.
From stdpp Require Import options.

(** ** Scope *)

Definition _PERSONAL_BACKEND_TYPES : list str :=
  ["antigravity-oauth"; "gemini-cli-cloud-project"; "gemini-oauth-free"; "gemini-oauth-plan";
   "openai-codex"; "openai-codex-v2"; "opencode-zen"; "qwen-oauth"].

(** The two lists of [ResilienceConfig]; [None] when no configuration is reachable
    from the context. *)
Record scope_config : Type := MkScopeConfig {
  sc_shared : option (list str);
  sc_personal : option (list str)
}.

Record scope_context : Type := MkScopeContext {
  sx_config : option scope_config;
  sx_session_id : option str;
  sx_client_host : option str
}.

Definition _normalize_backend_list (values : option (list str)) : list str :=
  (λ v, lower (strip v)) <$> filter (λ v, is_empty (strip v) = false) (default [] values).

Definition is_personal_backend_type (backend_type : str) (context : option scope_context) : bool :=
  let normalized := lower backend_type in
  let builtin := str_in normalized _PERSONAL_BACKEND_TYPES ||
                 str_contains "oauth" normalized || str_contains "codex" normalized in
  match context ≫= sx_config with
  | Some resilience =>
      if str_in normalized (_normalize_backend_list (sc_shared resilience)) then false
      else if str_in normalized (_normalize_backend_list (sc_personal resilience)) then true
      else builtin
  | None => builtin
  end.

(** The first candidate that is not blank. *)
Definition scope_suffix (context : option scope_context) : option str :=
  match context with
  | None => None
  | Some c =>
      first_some ((λ o, o ≫= λ s, if is_empty (strip s) then None else Some (strip s))
                    <$> [sx_session_id c; sx_client_host c])
  end.

Definition build_resilience_instance_id (backend_type : str) (context : option scope_context) : str :=
  if negb (is_personal_backend_type backend_type context) then backend_type
  else match scope_suffix context with
       | Some candidate => backend_type +:+ ":" +:+ candidate
       | None => backend_type
       end.

Definition opt_str (s : option str) : json := match s with Some v => JStr v | None => JNull end.

Definition build_resilience_error_context (backend_type : str) (context : option scope_context) :
    list (str * json) :=
  [("backend_type", JStr backend_type);
   ("is_personal_backend", JBool (is_personal_backend_type backend_type context));
   ("session_id", opt_str (context ≫= sx_session_id));
   ("client_host", opt_str (context ≫= sx_client_host))].

(** ** Decisions *)

Record ResilienceDecision : Type := MkDecision {
  rd_action : ActionType;
  rd_reason : str;
  rd_cooldown_remaining : option Q
}.

Definition should_proceed (d : ResilienceDecision) : bool := bool_decide (rd_action d = PROCEED).

Section coordinator.
Context {IC MC : Type} `{ICache : !TTLCache str InstanceState IC, MCache : !TTLCache model_key ModelState MC}.
Context (cfg : CircuitBreakerConfig).
Context (repr_json : json → str) (format_1f : Q → str) (is_httpx_transport : str → bool).
(** Endpoint health, when health gating is enabled and a registry is present. *)
Context (is_backend_healthy : option (str → bool)).
Implicit Types (st : resilience_state (IC := IC) (MC := MC)) (now : clock) (instance_id model : str).

Definition healthy instance_id : bool :=
  match is_backend_healthy with
  | Some f => f (fst (partition ":" instance_id))
  | None => true
  end.

(** The rate-limit part of the availability check. *)
Definition check_limits now instance_id model (m : RateLimitStateManager IC MC) :
    ResilienceDecision * RateLimitStateManager IC MC :=
  let '(instance_status, m) := get_instance_status now instance_id m in
  match instance_status with
  | DISABLED =>
      let '(instance_result, m) := check_instance_availability now instance_id m in
      (MkDecision REJECT (or_default (Some (av_reason instance_result)) "Instance disabled") None, m)
  | RATE_LIMITED =>
      let '(instance_result, m) := check_instance_availability now instance_id m in
      (MkDecision REJECT "Instance rate limited (all models)"
         (av_cooldown_remaining instance_result), m)
  | ACTIVE =>
      let '(model_result, m) := check_model_availability now instance_id model m in
      if negb (available model_result)
      then (MkDecision REJECT
              (or_default (Some (av_reason model_result)) ("Model " +:+ model +:+ " rate limited"))
              (av_cooldown_remaining model_result), m)
      else (MkDecision PROCEED "" None, m)
  end.

Definition check_availability now instance_id model st : ResilienceDecision * resilience_state :=
  if negb (healthy instance_id) then (MkDecision REJECT "endpoint_unhealthy" None, st)
  else
    let '(circuit_decision, breakers) := check cfg instance_id (mono now) (rs_breakers st) in
    if negb (dec_should_proceed circuit_decision)
    then (MkDecision REJECT (dec_reason circuit_decision) (dec_cooldown_remaining circuit_decision),
          MkResilience (rs_limits st) breakers)
    else
      let '(d, limits) := check_limits now instance_id model (rs_limits st) in
      (d, MkResilience limits breakers).

Definition try_acquire_circuit_breaker_probe now instance_id st : bool * resilience_state :=
  let '(ok, breakers) := try_acquire_half_open_probe cfg instance_id (mono now) (rs_breakers st) in
  (ok, MkResilience (rs_limits st) breakers).

Definition release_circuit_breaker_probe instance_id st : resilience_state :=
  MkResilience (rs_limits st) (release_half_open_probe cfg instance_id (rs_breakers st)).

Definition coordinator_record_success now instance_id model st : resilience_state :=
  MkResilience (clear_cooldown now instance_id (Some model) (rs_limits st))
    (record_success cfg instance_id (rs_breakers st)).

(** [extra] is the error's attached resilience context, empty when there is none. *)
Definition coordinator_record_failure now instance_id model (error : error_attrs)
    (extra : list (str * json)) st : res handler_failure (ResilienceAction * resilience_state) :=
  let classification := Classifier.classify error in
  if String.eqb (Classifier.pc_code classification) "unsupported_on_instance" then
    Ok (proceed_action "unsupported_on_instance",
        MkResilience (mark_model_unsupported now instance_id model
                        (Classifier.pc_reason classification) (rs_limits st)) (rs_breakers st))
  else
    '(action, st') ← error_chain cfg repr_json format_1f is_httpx_transport now
                       (MkErrorContext instance_id model error extra) st;
    if negb (bool_decide (act_type action = PROCEED)) || negb (is_empty (act_reason action))
    then Ok (action, st')
    else Ok (proceed_action ("Unhandled error: " +:+ error_name error), st').

(** ** Properties *)

Lemma check_limits_spec now instance_id model (m : RateLimitStateManager IC MC) :
  should_proceed (fst (check_limits now instance_id model m)) =
    bool_decide (fst (get_instance_status now instance_id m) = ACTIVE) &&
    available (fst (check_model_availability now instance_id model
                      (snd (get_instance_status now instance_id m)))).
Proof.
  unfold check_limits. destruct (get_instance_status now instance_id m) as [[] m']; simpl.
  - destruct (check_model_availability now instance_id model m') as [r m2]. simpl.
    by destruct (available r).
  - by destruct (check_instance_availability now instance_id m').
  - by destruct (check_instance_availability now instance_id m').
Qed.

(** A request proceeds exactly when every guard allows it: the endpoint is
    healthy (where gated), the circuit admits it, the instance is neither
    disabled nor rate limited and the model is available; any refusal carries a
    reject action. *)
Theorem check_availability_all_guards now instance_id model st :
  let d := fst (check_availability now instance_id model st) in
  (should_proceed d = true ↔
    healthy instance_id = true ∧
    dec_should_proceed (fst (check cfg instance_id (mono now) (rs_breakers st))) = true ∧
    fst (get_instance_status now instance_id (rs_limits st)) = ACTIVE ∧
    available (fst (check_model_availability now instance_id model
      (snd (get_instance_status now instance_id (rs_limits st))))) = true) ∧
  (rd_action d = PROCEED ∨ rd_action d = REJECT).
Proof.
  intros d. subst d. unfold check_availability.
  destruct (healthy instance_id); simpl; [|split; [by split; [|intros (? & _)]|by right]].
  destruct (check cfg instance_id (mono now) (rs_breakers st)) as [cd br]. simpl.
  destruct (dec_should_proceed cd); simpl; [|split; [by split; [|intros (_ & ? & _)]|by right]].
  pose proof (check_limits_spec now instance_id model (rs_limits st)) as Hs.
  assert (rd_action (fst (check_limits now instance_id model (rs_limits st))) = PROCEED ∨
          rd_action (fst (check_limits now instance_id model (rs_limits st))) = REJECT) as Ha.
  { unfold check_limits. destruct (get_instance_status _ _ _) as [[] m']; simpl.
    - destruct (check_model_availability _ _ _ _) as [r m2]. by destruct (negb _); [right|left].
    - destruct (check_instance_availability _ _ _). by right.
    - destruct (check_instance_availability _ _ _). by right. }
  destruct (check_limits now instance_id model (rs_limits st)) as [d m']. simpl in Hs, Ha |- *.
  split; [|done]. rewrite Hs andb_true_iff bool_decide_eq_true.
  split; [by intros [? ?]|by intros (_ & _ & ? & ?)].
Qed.

(** An availability check is not free of side effects: on an instance whose
    open circuit has passed its deadline, the check itself moves the breaker to
    half-open. *)
Theorem check_availability_changes_breaker now instance_id model st u :
  cb_enabled cfg = true → healthy instance_id = true →
  rs_breakers st !! instance_id = Some (MkCB OPEN 3 (Some u) 0 0 "x") → (u <= mono now)%Q →
  breaker_of (rs_breakers (snd (check_availability now instance_id model st))) instance_id = BHalf 0 0.
Proof.
  intros He Hh Hst Hu. unfold check_availability, check. rewrite Hh He Hst /=.
  unfold still_open. simpl. qcase; [lra|].
  destruct (half_open_max_inflight cfg <=? 0)%Z; simpl.
  - by rewrite breaker_insert decide_True.
  - destruct (check_limits _ _ _ _). simpl. by rewrite breaker_insert decide_True.
Qed.

(** A permanent model signal stays with its pair: recording such a failure
    marks only that pair unsupported, leaves every breaker alone, and the pair
    is refused at the next check. *)
Theorem unsupported_failure_isolated `{MLaws : !TTLCacheLaws model_key ModelState MC}
    now now' instance_id model error extra st :
  Classifier.pc_code (Classifier.classify error) = "unsupported_on_instance" →
  (mono now <= mono now')%Q → (mono now' < mono now + ttl (C:=MC))%Q →
  ∃ action st', coordinator_record_failure now instance_id model error extra st = Ok (action, st') ∧
    act_type action = PROCEED ∧ rs_breakers st' = rs_breakers st ∧
    instance_state (rs_limits st') = instance_state (rs_limits st) ∧
    should_proceed (fst (check_availability now' instance_id model st')) = false.
Proof.
  intros Hc H1 H2. unfold coordinator_record_failure. rewrite Hc String.eqb_refl.
  eexists _, _. split; [done|]. split; [done|]. split; [done|]. split; [done|].
  unfold check_availability. destruct (negb (healthy instance_id)); [done|]. simpl.
  destruct (check cfg instance_id (mono now') (rs_breakers st)) as [cd br].
  destruct (negb (dec_should_proceed cd)); [done|].
  set (m := mark_model_unsupported _ _ _ _ _).
  pose proof (check_limits_spec now' instance_id model m) as Hs.
  destruct (check_limits now' instance_id model m) as [d m']. simpl in Hs |- *. rewrite Hs.
  destruct (instance_status_spec now' instance_id m) as (_ & Hms & _).
  destruct (get_instance_status now' instance_id m) as [s m1]. simpl in Hms |- *.
  assert (get_model now' (instance_id, model) m1 = get_model now' (instance_id, model) m) as Hg
    by (unfold get_model; by rewrite Hms).
  apply andb_false_iff. right. unfold check_model_availability.
  destruct (check_instance_spec now' instance_id m1) as [_ Hi].
  destruct (instance_status_spec now' instance_id m1) as (_ & Hms1 & _).
  destruct (check_instance_availability now' instance_id m1) as [r m2]. simpl in Hi. subst m2.
  destruct (available r) eqn:Er; simpl; [|done].
  unfold get_model in Hg |- *. rewrite Hms1 Hg. unfold m, mark_model_unsupported. simpl.
  by rewrite cget_set.
Qed.
End coordinator.

Lemma check_availability_changes_breaker_witness :
  breaker_of (rs_breakers (snd (check_availability default_cb_config None (MkClock 50 50) "a" "m"
    (MkResilience sample_limits {[ "a" := MkCB OPEN 3 (Some 30%Q) 0 0 "x" ]})))) "a" = BHalf 0 0.
Proof.
  apply (check_availability_changes_breaker default_cb_config None (MkClock 50 50) "a" "m"
    (MkResilience sample_limits {[ "a" := MkCB OPEN 3 (Some 30%Q) 0 0 "x" ]}) 30);
    [reflexivity..|vm_compute; discriminate].
Defined.

Lemma unsupported_failure_isolated_witness :
  ∃ action st', coordinator_record_failure default_cb_config (λ _, "") (λ _, "") (λ _, false)
      (MkClock 0 100) "a" "m"
      (attrs_of (mk_BackendError BackendError "model_not_found" [] None None None)) [] sample_resilience =
      Ok (action, st') ∧
    should_proceed (fst (check_availability default_cb_config None (MkClock 5 105) "a" "m" st')) = false.
Proof.
  destruct (unsupported_failure_isolated default_cb_config (λ _, "") (λ _, "") (λ _, false) None
    (MkClock 0 100) (MkClock 5 105) "a" "m"
    (attrs_of (mk_BackendError BackendError "model_not_found" [] None None None)) [] sample_resilience
    ltac:(vm_compute; reflexivity) ltac:(vm_compute; discriminate) ltac:(vm_compute; reflexivity))
    as (a & st' & H1 & _ & _ & _ & H2).
  exists a, st'. split; [exact H1|exact H2].
Defined.
