(* ===== verification/ModelReplacement.v ===== *)
(** * Random model replacement

    [replacement_rule.py] and [replacement_config.py] (the rules and their
    validation), [replacement_state.py] (the state of one session),
    [model_replacement_service.py] (the sessions, kept in an [OrderedDict] used
    as an LRU), and the two places that drive the service: the replacement
    block of [RequestProcessor.process_request] and the [finally] block of
    [BackendExecutor].

    A session state is an object shared by the dictionary and the local variable
    of a method; [od_modify] updates it through the dictionary, and leaves the
    dictionary alone when the state was evicted meanwhile (the method then works
    on an orphan).  The random draw, the registered backends ([None]: the
    registry raised) and the iteration order of a Python [set] are arguments. *)

From Stdlib Require Import Ascii.
From S2P Require Import Prelude PyStr PyDict.
From stdpp Require Import options.

(** ** Rules and configuration *)

Record ReplacementRule := {
  from_pattern : str;
  to_backend : str;
  to_model : str;
}.

#[global] Instance ReplacementRule_eq_dec : EqDecision ReplacementRule.
Proof. solve_decision. Defined.

Definition rule_matches (rule : ReplacementRule) (backend model : str) : bool :=
  if decide (from_pattern rule = "*") then true
  else if str_contains ":" (from_pattern rule)
  then bool_decide (backend +:+ ":" +:+ model = from_pattern rule)
  else str_contains (from_pattern rule) model.

Record ReplacementConfig := {
  enabled : bool;
  probability : Q;
  replacement_rules : list ReplacementRule;
  backend_model : str;
  turn_count : Z;
  allow_oauth_auto_replacement : bool;
}.

(** The [ValueError]s of [validate_config], with the index of the rule. *)
Inductive config_error :=
| ProbabilityOutOfRange
| NoRules
| TurnCountTooSmall
| WildcardNotAlone (i : nat)
| TargetMissing (i : nat)
| TargetMalformed (i : nat)
| TargetWildcard (i : nat)
| TargetUnregistered (i : nat)
| RegistryFailed.

Definition migrate_legacy_config (c : ReplacementConfig) : ReplacementConfig :=
  if negb (is_empty (backend_model c)) && bool_decide (replacement_rules c = []) then
    if str_contains ":" (backend_model c) then
      let '(backend, model) := partition ":" (backend_model c) in
      {| enabled := enabled c; probability := probability c;
         replacement_rules := [Build_ReplacementRule "*" backend model];
         backend_model := backend_model c; turn_count := turn_count c;
         allow_oauth_auto_replacement := allow_oauth_auto_replacement c |}
    else c
  else c.

Definition validate_rule (i : nat) (rule : ReplacementRule) : res config_error unit :=
  ensure negb (is_empty (to_backend rule)) && negb (is_empty (to_model rule))
    else TargetMissing i;
  ensure str_contains ":" (to_backend rule +:+ ":" +:+ to_model rule)
    else TargetMalformed i;
  ensure negb (bool_decide (to_backend rule = "*" ∨ to_model rule = "*"))
    else TargetWildcard i;
  Ok tt.

Fixpoint validate_rules (i : nat) (rules : list ReplacementRule) : res config_error unit :=
  match rules with
  | [] => Ok tt
  | rule :: rest => _ ← validate_rule i rule; validate_rules (S i) rest
  end.

(** The index of the first wildcard rule. *)
Fixpoint first_wildcard (i : nat) (rules : list ReplacementRule) : option nat :=
  match rules with
  | [] => None
  | rule :: rest =>
      if decide (from_pattern rule = "*") then Some i else first_wildcard (S i) rest
  end.

Definition validate_config (c : ReplacementConfig) : res config_error unit :=
  if enabled c then
    ensure Qle_bool 0 (probability c) && Qle_bool (probability c) 1
      else ProbabilityOutOfRange;
    ensure negb (bool_decide (replacement_rules c = [])) else NoRules;
    ensure negb (turn_count c <? 1)%Z else TurnCountTooSmall;
    match first_wildcard 0 (replacement_rules c) with
    | Some i =>
        ensure negb (1 <? length (replacement_rules c)) else WildcardNotAlone i;
        validate_rules 0 (replacement_rules c)
    | None => validate_rules 0 (replacement_rules c)
    end
  else Ok tt.

(** [ReplacementConfig(...)]: migration, then validation. *)
Definition mk_config (c : ReplacementConfig) : res config_error ReplacementConfig :=
  let c' := migrate_legacy_config c in
  _ ← validate_config c'; Ok c'.

Definition find_matching_rule (c : ReplacementConfig) (backend model : str)
    : option ReplacementRule :=
  List.find (λ rule, rule_matches rule backend model) (replacement_rules c).

(** ** The state of one session *)

Record ReplacementState := {
  active : bool;
  turns_remaining : Z;
  cool_down_active : bool;
  first_turn_complete : bool;
  original_backend : str;
  original_model : str;
  replacement_backend : str;
  replacement_model : str;
}.

(** [ReplacementState()] *)
Definition new_state : ReplacementState :=
  {| active := false; turns_remaining := 0; cool_down_active := false;
     first_turn_complete := false; original_backend := ""; original_model := "";
     replacement_backend := ""; replacement_model := "" |}.

Definition activate (turns : Z) (ob om rb rm : str) (st : ReplacementState) : ReplacementState :=
  {| active := true; turns_remaining := turns; cool_down_active := false;
     first_turn_complete := first_turn_complete st;
     original_backend := ob; original_model := om;
     replacement_backend := rb; replacement_model := rm |}.

Definition deactivate (trigger_cool_down : bool) (st : ReplacementState) : ReplacementState :=
  {| active := false; turns_remaining := 0;
     cool_down_active := if trigger_cool_down then true else cool_down_active st;
     first_turn_complete := first_turn_complete st;
     original_backend := original_backend st; original_model := original_model st;
     replacement_backend := replacement_backend st;
     replacement_model := replacement_model st |}.

Definition set_turns (n : Z) (st : ReplacementState) : ReplacementState :=
  {| active := active st; turns_remaining := n;
     cool_down_active := cool_down_active st;
     first_turn_complete := first_turn_complete st;
     original_backend := original_backend st; original_model := original_model st;
     replacement_backend := replacement_backend st;
     replacement_model := replacement_model st |}.

Definition decrement_turn (st : ReplacementState) : ReplacementState :=
  if active st && (0 <? turns_remaining st)%Z then
    let st' := set_turns (turns_remaining st - 1) st in
    if (turns_remaining st' =? 0)%Z then deactivate true st' else st'
  else st.

(** The flag returned and the state left. *)
Definition consume_cool_down (st : ReplacementState) : bool * ReplacementState :=
  if cool_down_active st then
    (true, {| active := active st; turns_remaining := turns_remaining st;
              cool_down_active := false;
              first_turn_complete := first_turn_complete st;
              original_backend := original_backend st; original_model := original_model st;
              replacement_backend := replacement_backend st;
              replacement_model := replacement_model st |})
  else (false, st).

Definition mark_first_turn_complete (st : ReplacementState) : ReplacementState :=
  {| active := active st; turns_remaining := turns_remaining st;
     cool_down_active := cool_down_active st; first_turn_complete := true;
     original_backend := original_backend st; original_model := original_model st;
     replacement_backend := replacement_backend st;
     replacement_model := replacement_model st |}.

(** [_validate_state] *)
Definition validate_state (st : ReplacementState) : bool :=
  if active st then
    negb (turns_remaining st <=? 0)%Z
    && negb (is_empty (original_backend st)) && negb (is_empty (original_model st))
    && negb (is_empty (replacement_backend st)) && negb (is_empty (replacement_model st))
    && (0 <=? turns_remaining st)%Z
  else (turns_remaining st =? 0)%Z && (0 <=? turns_remaining st)%Z.

(** ** The service *)

(** The counters of [ReplacementMetrics]. *)
Record ReplacementMetrics := {
  total_activations : nat;
  turn_count_histogram : list (Z * nat);
  total_turns_completed : nat;
  total_opt_outs : nat;
  header_opt_outs : nat;
  session_opt_outs : nat;
  total_probability_checks : nat;
}.

Record service := {
  session_states : list (str * ReplacementState);
  disabled_sessions : gset str;
  metrics : ReplacementMetrics;
  probability_log_counter : nat;
}.

(** The [KeyError] of [move_to_end]. *)
Inductive svc_error := KeyError (session_id : str).

Abbreviation M := (stm service svc_error).

Definition set_states (d : list (str * ReplacementState)) (s : service) : service :=
  {| session_states := d; disabled_sessions := disabled_sessions s;
     metrics := metrics s; probability_log_counter := probability_log_counter s |}.
Definition set_disabled (x : gset str) (s : service) : service :=
  {| session_states := session_states s; disabled_sessions := x;
     metrics := metrics s; probability_log_counter := probability_log_counter s |}.
Definition set_metrics (m : ReplacementMetrics) (s : service) : service :=
  {| session_states := session_states s; disabled_sessions := disabled_sessions s;
     metrics := m; probability_log_counter := probability_log_counter s |}.
Definition bump_log_counter (s : service) : service :=
  {| session_states := session_states s; disabled_sessions := disabled_sessions s;
     metrics := metrics s; probability_log_counter := S (probability_log_counter s) |}.

Inductive opt_out := OptHeader | OptSession | OptBackend.

Fixpoint bump (n : Z) (h : list (Z * nat)) : list (Z * nat) :=
  match h with
  | [] => [(n, 1)]
  | (n', c) :: h' => if decide (n = n') then (n', S c) :: h' else (n', c) :: bump n h'
  end.

Definition record_activation (turns : Z) (m : ReplacementMetrics) : ReplacementMetrics :=
  {| total_activations := S (total_activations m);
     turn_count_histogram := bump turns (turn_count_histogram m);
     total_turns_completed := total_turns_completed m; total_opt_outs := total_opt_outs m;
     header_opt_outs := header_opt_outs m; session_opt_outs := session_opt_outs m;
     total_probability_checks := total_probability_checks m |}.

Definition record_turn_completion (m : ReplacementMetrics) : ReplacementMetrics :=
  {| total_activations := total_activations m;
     turn_count_histogram := turn_count_histogram m;
     total_turns_completed := S (total_turns_completed m); total_opt_outs := total_opt_outs m;
     header_opt_outs := header_opt_outs m; session_opt_outs := session_opt_outs m;
     total_probability_checks := total_probability_checks m |}.

Definition record_opt_out (o : opt_out) (m : ReplacementMetrics) : ReplacementMetrics :=
  {| total_activations := total_activations m;
     turn_count_histogram := turn_count_histogram m;
     total_turns_completed := total_turns_completed m;
     total_opt_outs := S (total_opt_outs m);
     header_opt_outs := if o is OptHeader then S (header_opt_outs m) else header_opt_outs m;
     session_opt_outs := if o is OptSession then S (session_opt_outs m) else session_opt_outs m;
     total_probability_checks := total_probability_checks m |}.

Definition record_probability_check (m : ReplacementMetrics) : ReplacementMetrics :=
  {| total_activations := total_activations m;
     turn_count_histogram := turn_count_histogram m;
     total_turns_completed := total_turns_completed m; total_opt_outs := total_opt_outs m;
     header_opt_outs := header_opt_outs m; session_opt_outs := session_opt_outs m;
     total_probability_checks := S (total_probability_checks m) |}.

Definition new_metrics : ReplacementMetrics :=
  {| total_activations := 0; turn_count_histogram := []; total_turns_completed := 0;
     total_opt_outs := 0; header_opt_outs := 0; session_opt_outs := 0;
     total_probability_checks := 0 |}.

Definition on_metrics (f : ReplacementMetrics → ReplacementMetrics) : M unit :=
  modify (λ s, set_metrics (f (metrics s)) s).

(** Mutation of the state object of a session. *)
Definition on_state (sid : str) (f : ReplacementState → ReplacementState) : M unit :=
  modify (λ s, set_states (od_modify f sid (session_states s)) s).

(** [self._session_states.move_to_end(session_id)] *)
Definition touch (sid : str) : M unit := λ s,
  match od_move_to_end sid (session_states s) with
  | Some d => (Ok tt, set_states d s)
  | None => (Err (KeyError sid), s)
  end.

(** The two size limits of the module.  The definitions take them as an argument
    and the theorems hold for every value; [module_limits] are the module's. *)
Record limits := { max_session_states : nat; max_disabled_sessions : nat }.
Definition module_limits : limits :=
  {| max_session_states := N.to_nat 10000; max_disabled_sessions := N.to_nat 1000 |}.

Section service.
Context (lim : limits) (cfg : ReplacementConfig).

(** The loop of [_evict_oldest_sessions_if_needed]; [fuel] is [max_iterations].
    The oldest entry goes to the end when it is active, and is removed
    otherwise, with its opt-out. *)
Fixpoint evict_loop (fuel : nat) (d : list (str * ReplacementState)) (dis : gset str)
    : list (str * ReplacementState) * gset str :=
  if length d <=? max_session_states lim then (d, dis)
  else
    match fuel, d with
    | S fuel, (sid, st) :: rest =>
        if active st then evict_loop fuel (rest ++ [(sid, st)]) dis
        else evict_loop fuel rest (dis ∖ {[sid]})
    | _, _ => (d, dis)
    end.

Definition evict_oldest_sessions_if_needed : M unit :=
  modify (λ s,
    let '(d, dis) := evict_loop (length (session_states s)) (session_states s)
                       (disabled_sessions s) in
    set_disabled dis (set_states d s)).

(** The creation of a state that the three methods below share. *)
Definition create_state (sid : str) : M unit :=
  _ ← modify (λ s, set_states (od_set sid new_state (session_states s)) s);
  _ ← touch sid;
  evict_oldest_sessions_if_needed.

(** [disable_header and disable_header.lower() == "true"] *)
Definition header_opts_out (header : option str) : bool :=
  match header with
  | Some h => negb (is_empty h) && bool_decide (lower h = "true")
  | None => false
  end.

Definition opt_truthy (s : option str) : bool :=
  match s with Some s => negb (is_empty s) | None => false end.

Definition oauth_guard (ob : option str) : bool :=
  negb (allow_oauth_auto_replacement cfg) && opt_truthy ob
  && str_contains "oauth-auto" (default "" ob).

(** The rule check of [should_replace]: [false] is an early [return False]. *)
Definition rule_allows (ob om : option str) : bool :=
  match ob, om with
  | Some b, Some m =>
      if negb (is_empty b) && negb (is_empty m) then
        match find_matching_rule cfg b m with
        | None => false
        | Some rule => negb (bool_decide (to_backend rule = b ∧ to_model rule = m))
        end
      else true
  | _, _ => true
  end.

(** The end of [should_replace]: the dice roll. *)
Definition roll (draw : Q) : M bool :=
  _ ← on_metrics record_probability_check;
  _ ← modify bump_log_counter;
  mret (Qltb draw (probability cfg)).

(** [should_replace] once the state is there, [st] being its value. *)
Definition decide_replacement (sid : str) (st : ReplacementState)
    (ob om : option str) (draw : Q) : M bool :=
  if negb (first_turn_complete st) then
    _ ← on_state sid mark_first_turn_complete; mret false
  else if (consume_cool_down st).1 then
    _ ← on_state sid (λ st, (consume_cool_down st).2); mret false
  else if active st then mret true
  else if negb (rule_allows ob om) then mret false
  else roll draw.

Definition should_replace (sid : str) (header : option str) (ob om : option str) (draw : Q)
    : M bool :=
  if negb (enabled cfg) then mret false
  else
    disabled ← gets (λ s, bool_decide (sid ∈ disabled_sessions s));
    if disabled : bool then _ ← on_metrics (record_opt_out OptSession); mret false
    else if header_opts_out header then _ ← on_metrics (record_opt_out OptHeader); mret false
    else if oauth_guard ob then _ ← on_metrics (record_opt_out OptBackend); mret false
    else
      found ← gets (λ s, od_get sid (session_states s));
      st ← match found with
           | Some st => mret st
           | None => _ ← create_state sid; mret new_state
           end;
      _ ← touch sid;
      decide_replacement sid st ob om draw.

Definition get_effective_backend_model (registered : option (list str))
    (sid ob om : str) : M (str * str) :=
  found ← gets (λ s, od_get sid (session_states s));
  match found with
  | None => mret (ob, om)
  | Some st =>
      if active st then
        _ ← touch sid;
        match registered with
        | Some backends =>
            if str_in (replacement_backend st) backends
            then mret (replacement_backend st, replacement_model st)
            else _ ← on_state sid (deactivate false); mret (ob, om)
        | None => _ ← on_state sid (deactivate false); mret (ob, om)
        end
      else mret (ob, om)
  end.

Definition activate_replacement (sid ob om : str) : M unit :=
  match find_matching_rule cfg ob om with
  | None => mret tt
  | Some rule =>
      if bool_decide (to_backend rule = ob ∧ to_model rule = om) then mret tt
      else
        found ← gets (λ s, od_get sid (session_states s));
        _ ← match found with None => create_state sid | Some _ => touch sid end;
        _ ← on_state sid (activate (turn_count cfg) ob om (to_backend rule) (to_model rule));
        on_metrics (record_activation (turn_count cfg))
  end.

Definition complete_turn (sid : str) : M unit :=
  found ← gets (λ s, od_get sid (session_states s));
  match found with
  | Some st =>
      if active st then
        _ ← touch sid;
        _ ← on_metrics record_turn_completion;
        on_state sid decrement_turn
      else mret tt
  | None => mret tt
  end.

Definition get_state (sid : str) : M ReplacementState :=
  found ← gets (λ s, od_get sid (session_states s));
  match found with
  | None => _ ← create_state sid; mret new_state
  | Some st =>
      _ ← touch sid;
      if validate_state st then mret st
      else
        _ ← modify (λ s, set_states (od_set sid new_state (session_states s)) s);
        _ ← touch sid;
        mret new_state
  end.

(** [iter_set] is the iteration order of the set of disabled sessions. *)
Definition disable_for_session (iter_set : gset str → list str) (sid : str) : M unit :=
  _ ← modify (λ s, set_disabled (disabled_sessions s ∪ {[sid]}) s);
  _ ← modify (λ s,
        if max_disabled_sessions lim <? size (disabled_sessions s) then
          let excess := size (disabled_sessions s) - max_disabled_sessions lim in
          let to_remove :=
            take excess (filter (λ x, od_mem x (session_states s) = false)
                           (iter_set (disabled_sessions s))) in
          set_disabled (disabled_sessions s ∖ list_to_set to_remove) s
        else s);
  on_state sid (λ st, if active st then deactivate false st else st).

(** The metrics per session and the pruning of old timestamps are not kept. *)
Definition cleanup_session (sid : str) : M unit :=
  modify (λ s, set_disabled (disabled_sessions s ∖ {[sid]})
                 (set_states (od_pop sid (session_states s)) s)).

End service.

(** [ModelReplacementService(config, registry)]: the configuration is validated
    again, and every target must be registered. *)
Fixpoint check_targets (i : nat) (backends : list str) (rules : list ReplacementRule)
    : res config_error unit :=
  match rules with
  | [] => Ok tt
  | rule :: rest =>
      ensure str_in (to_backend rule) backends else TargetUnregistered i;
      check_targets (S i) backends rest
  end.

Definition new_service (registered : option (list str)) (cfg : ReplacementConfig)
    : res config_error service :=
  let s := {| session_states := []; disabled_sessions := ∅; metrics := new_metrics;
              probability_log_counter := 0 |} in
  _ ← validate_config cfg;
  if enabled cfg then
    match registered with
    | None => Err RegistryFailed
    | Some backends => _ ← check_targets 0 backends (replacement_rules cfg); Ok s
    end
  else Ok s.

(** ** One request through the proxy

    The part of a request that the replacement block of
    [RequestProcessor.process_request] reads. *)
Record request := {
  rq_backend : str;               (** the resolved original backend *)
  rq_model : str;                 (** the resolved original model *)
  rq_auxiliary : bool;            (** [extensions.get("auxiliary_request")] *)
  rq_header : option str;         (** the [X-Disable-Replacement] header *)
  rq_tool_followup : bool;
  rq_qv_enabled : bool;
  rq_qv_frequency : Z;
  rq_qv_turns_scaled : Z;
  rq_draw : Q;                    (** what the random generator returns *)
  rq_registered : option (list str);
}.

Definition QV_ELIGIBLE_TURN_SCALE : Z := 1000.
Definition MIN_LOGICAL_TURN_FLOOR_FOR_QUALITY_VERIFIER : Z := 2.

Definition logical_floor_from_scaled (scaled : Z) : Z :=
  if (scaled <=? 0)%Z then 0%Z else (scaled / QV_ELIGIBLE_TURN_SCALE)%Z.

(** Is this turn scheduled for the quality verifier? *)
Definition qv_suppresses (rq : request) : bool :=
  if rq_qv_enabled rq && negb (rq_tool_followup rq) then
    let freq := Z.max 1 (rq_qv_frequency rq) in
    let next_scaled := (Z.max 0 (rq_qv_turns_scaled rq) + QV_ELIGIBLE_TURN_SCALE)%Z in
    let floor := logical_floor_from_scaled next_scaled in
    (0 <? freq)%Z && (MIN_LOGICAL_TURN_FLOOR_FOR_QUALITY_VERIFIER <=? floor)%Z
    && (floor mod freq =? 0)%Z
  else false.

(** What the block decides: the route of the request, whether it counts as a
    replacement turn, and [replacement_skip_complete_turn]. *)
Record routed := {
  rt_effective : str * str;
  rt_replacement : bool;
  rt_skip_complete : bool;
}.

Definition not_replaced (rq : request) (skip : bool) : routed :=
  {| rt_effective := (rq_backend rq, rq_model rq); rt_replacement := false;
     rt_skip_complete := skip |}.

Section request.
Context (lim : limits) (cfg : ReplacementConfig).

Definition apply_replacement (sid : str) (rq : request) : M routed :=
  if negb (is_empty (rq_backend rq)) && negb (is_empty (rq_model rq))
     && negb (rq_auxiliary rq) then
    state ← get_state lim sid;
    if qv_suppresses rq then mret (not_replaced rq (active state))
    else
      should ← should_replace lim cfg sid (rq_header rq) (Some (rq_backend rq))
                 (Some (rq_model rq)) (rq_draw rq);
      if (should : bool) || active state then
        _ ← when (should && negb (active state))
              (activate_replacement lim cfg sid (rq_backend rq) (rq_model rq));
        effective ← get_effective_backend_model (rq_registered rq) sid
                      (rq_backend rq) (rq_model rq);
        mret {| rt_effective := effective; rt_replacement := true; rt_skip_complete := false |}
      else mret (not_replaced rq false)
  else mret (not_replaced rq false).

(** The [finally] block of [BackendExecutor]: it runs whether the backend call
    succeeded or not. *)
Definition finish_turn (sid : str) (rq : request) (rt : routed) : M unit :=
  if negb (rq_auxiliary rq) && negb (rt_skip_complete rt) then complete_turn sid
  else mret tt.

Definition request_turn (sid : str) (rq : request) : M routed :=
  rt ← apply_replacement sid rq;
  _ ← finish_turn sid rq rt;
  mret rt.
End request.

(** ** Eviction *)

(** The number of sessions with an active replacement. *)
Definition count_active (d : list (str * ReplacementState)) : nat :=
  length (filter (λ p, active p.2 = true) d).

Section eviction.
Context (lim : limits).
Implicit Types (d acc : list (str * ReplacementState)) (dis : gset str).

Lemma count_active_cons p d :
  count_active (p :: d) = (if active p.2 then 1 else 0) + count_active d.
Proof.
  unfold count_active. rewrite filter_cons. destruct (active p.2) eqn:H; case_decide; done.
Qed.

(** What is lost is inactive, and loses its opt-out with its state. *)
Lemma evict_loop_perm fuel d dis :
  ∃ removed, d ≡ₚ (evict_loop lim fuel d dis).1 ++ removed ∧
    Forall (λ p, active p.2 = false) removed ∧
    (evict_loop lim fuel d dis).2 = dis ∖ list_to_set removed.*1.
Proof.
  revert d dis. induction fuel as [|fuel IH]; intros d dis; simpl.
  - exists []. csimpl. rewrite app_nil_r. split_and!; [by case_match|constructor|].
    case_match; set_solver.
  - case_match; [exists []; csimpl; rewrite app_nil_r; split_and!; [done|constructor|set_solver]|].
    destruct d as [|[sid st] rest]; [by exists []; split_and!; [|constructor|set_solver]|].
    destruct (active st) eqn:Ha.
    + destruct (IH (rest ++ [(sid, st)]) dis) as (rm & Hp & Hr & Hd).
      exists rm. split_and!; [|done|done]. rewrite -Hp. apply Permutation_cons_append.
    + destruct (IH rest (dis ∖ {[sid]})) as (rm & Hp & Hr & Hd).
      exists ((sid, st) :: rm). split_and!.
      * rewrite -Permutation_middle. by constructor.
      * by constructor.
      * rewrite Hd. csimpl. set_solver.
Qed.

(** An entry behind fewer active ones than the limit stays. *)
Lemma evict_loop_keeps fuel d p acc dis :
  count_active d + length acc < max_session_states lim →
  p ∈ (evict_loop lim fuel (d ++ p :: acc) dis).1.
Proof.
  revert d acc dis. induction fuel as [|fuel IH]; intros d acc dis Hc; simpl.
  - case_match; set_solver.
  - destruct (_ <=? _) eqn:Hl; [set_solver|]. apply Nat.leb_gt in Hl.
    destruct d as [|[sid st] rest]; simpl in *.
    + unfold count_active in Hc. simpl in Hc. lia.
    + rewrite count_active_cons in Hc. simpl in Hc.
      destruct (active st) eqn:Ha; [|apply IH; lia].
      rewrite -app_assoc /=. apply IH. rewrite length_app /=. lia.
Qed.

(** An inactive entry behind at least as many active ones as the limit goes. *)
Lemma evict_loop_drops fuel d p acc dis :
  active p.2 = false → p ∉ d → p ∉ acc →
  max_session_states lim ≤ count_active d + length acc →
  length d < fuel →
  p ∉ (evict_loop lim fuel (d ++ p :: acc) dis).1.
Proof.
  revert d acc dis. induction fuel as [|fuel IH]; intros d acc dis Hp Hd Ha Hc Hf; [lia|].
  assert (count_active d ≤ length d) by apply length_filter. simpl.
  destruct (_ <=? _) eqn:Hl; [apply Nat.leb_le in Hl; rewrite length_app /= in Hl; lia|].
  destruct d as [|[sid st] rest]; simpl in *.
  - destruct p as [k v]. simpl in Hp. rewrite Hp.
    destruct (evict_loop_perm fuel acc (dis ∖ {[k]})) as (rm & Hperm & _).
    rewrite Hperm in Ha. set_solver.
  - rewrite count_active_cons in Hc. simpl in Hc.
    destruct (active st) eqn:Hact; [|apply IH; set_solver by lia].
    rewrite -app_assoc /=. apply IH; try (set_solver by lia).
    rewrite length_app /=. lia.
Qed.
End eviction.

(** ** The phases of a session

    What a session promises, whatever the other sessions do: the first request
    is never replaced; a replacement lasts [turn_count] completed turns; the
    request after it is never replaced. *)
Inductive phase :=
| Fresh
| Idle
| CoolDown
| Active (n : Z) (target : str * str).

Definition is_active (ph : phase) : bool := if ph is Active _ _ then true else false.

(** A completed turn. *)
Definition tick (ph : phase) : phase :=
  match ph with
  | Active n t => if (n =? 1)%Z then CoolDown else Active (n - 1) t
  | _ => ph
  end.

Definition target_registered (rq : request) (target : str * str) : bool :=
  match rq_registered rq with Some bs => str_in target.1 bs | None => false end.

Definition use_target (rq : request) (target : str * str) (ph : phase) : routed * phase :=
  if target_registered rq target
  then ({| rt_effective := target; rt_replacement := true; rt_skip_complete := false |}, ph)
  else ({| rt_effective := (rq_backend rq, rq_model rq); rt_replacement := true;
           rt_skip_complete := false |}, Idle).

Section spec.
Context (cfg : ReplacementConfig).

(** The target the request would be replaced with, if the dice say so. *)
Definition chosen_target (rq : request) : option (str * str) :=
  rule ← find_matching_rule cfg (rq_backend rq) (rq_model rq);
  if bool_decide (to_backend rule = rq_backend rq ∧ to_model rule = rq_model rq) then None
  else if Qltb (rq_draw rq) (probability cfg) then Some (to_backend rule, to_model rule)
  else None.

(** [gate] says that replacement is enabled and nobody opted out. *)
Definition spec_route (gate : bool) (rq : request) (ph : phase) : routed * phase :=
  if negb (is_empty (rq_backend rq)) && negb (is_empty (rq_model rq))
     && negb (rq_auxiliary rq) then
    if qv_suppresses rq then (not_replaced rq (is_active ph), ph)
    else
      match ph with
      | Active n target => use_target rq target ph
      | Fresh => (not_replaced rq false, if gate then Idle else Fresh)
      | CoolDown => (not_replaced rq false, if gate then Idle else CoolDown)
      | Idle =>
          match (if gate then chosen_target rq else None) with
          | Some target => use_target rq target (Active (turn_count cfg) target)
          | None => (not_replaced rq false, Idle)
          end
      end
  else (not_replaced rq false, ph).

Definition spec_turn (gate : bool) (rq : request) (ph : phase) : routed * phase :=
  let '(rt, ph') := spec_route gate rq ph in
  (rt, if negb (rq_auxiliary rq) && negb (rt_skip_complete rt) then tick ph' else ph').

Definition phase_of_state (st : ReplacementState) : phase :=
  if active st then Active (turns_remaining st) (replacement_backend st, replacement_model st)
  else if cool_down_active st then CoolDown
  else if first_turn_complete st then Idle else Fresh.

Definition phase_of (s : service) (sid : str) : phase :=
  from_option phase_of_state Fresh (od_get sid (session_states s)).

Definition gate_open (s : service) (sid : str) (rq : request) : bool :=
  enabled cfg && negb (bool_decide (sid ∈ disabled_sessions s))
  && negb (header_opts_out (rq_header rq)) && negb (oauth_guard cfg (Some (rq_backend rq))).

(** The states the request flow builds. *)
Definition good_state (st : ReplacementState) : Prop :=
  validate_state st = true ∧ (turns_remaining st <= Z.max 0 (turn_count cfg))%Z ∧
  (active st = true → first_turn_complete st = true ∧ cool_down_active st = false) ∧
  (cool_down_active st = true → first_turn_complete st = true).

Definition good_service (s : service) : Prop :=
  od_ok (session_states s) ∧
  ∀ sid st, od_get sid (session_states s) = Some st → good_state st.

(** A new session finds a place: it is known, or not all places are taken by
    active sessions. *)
Definition has_room (lim : limits) (s : service) (sid : str) : Prop :=
  is_Some (od_get sid (session_states s)) ∨
  count_active (session_states s) < max_session_states lim.
End spec.

(** ** A small program logic for one session

    [frame sid s s']: from [s] to [s'], a session other than [sid] keeps its
    state or, when inactive, is evicted; the opt-out of [sid] is kept.
    [yields sid s m a st]: [m], run in [s], returns [a] and leaves [st] as the
    state of [sid], within the frame. *)
Definition frame (sid : str) (s s' : service) : Prop :=
  od_ok (session_states s') ∧
  (sid ∈ disabled_sessions s' ↔ sid ∈ disabled_sessions s) ∧
  ∀ k, k ≠ sid →
    od_get k (session_states s') = od_get k (session_states s) ∨
    (od_get k (session_states s') = None ∧
     ∃ st, od_get k (session_states s) = Some st ∧ active st = false).

Definition yields {A} (sid : str) (s : service) (m : M A) (a : A) (st : ReplacementState)
    : Prop :=
  ∃ s', m s = (Ok a, s') ∧ frame sid s s' ∧ od_get sid (session_states s') = Some st.

Section logic.
Context (sid : str).
Implicit Types (s : service) (st : ReplacementState).

Lemma frame_refl s : od_ok (session_states s) → frame sid s s.
Proof. intros. split_and!; auto. Qed.

Lemma frame_trans s1 s2 s3 : frame sid s1 s2 → frame sid s2 s3 → frame sid s1 s3.
Proof.
  intros (_ & Hd12 & H12) (Hok & Hd23 & H23). split_and!; [done|by rewrite Hd23|].
  intros k Hk. specialize (H12 k Hk). specialize (H23 k Hk).
  destruct H23 as [->|(-> & st & Hst & Ha)]; [done|].
  destruct H12 as [Heq|(? & st' & ? & ?)]; [|congruence].
  right. split; [done|]. exists st. by rewrite -Heq.
Qed.

Lemma yields_ret {A} s (a : A) st :
  od_ok (session_states s) → od_get sid (session_states s) = Some st →
  yields sid s (mret a) a st.
Proof. intros. exists s. split_and!; auto using frame_refl. Qed.

Lemma yields_bind {A B} s (m : M A) (f : A → M B) a b st st' :
  yields sid s m a st →
  (∀ s1, frame sid s s1 → od_ok (session_states s1) →
     od_get sid (session_states s1) = Some st → yields sid s1 (f a) b st') →
  yields sid s (m ≫= f) b st'.
Proof.
  intros (s1 & Hm & Hf & Hg) Hk.
  destruct (Hk s1 Hf (proj1 Hf) Hg) as (s2 & Hm2 & Hf2 & Hg2).
  exists s2. split_and!; [|by eapply frame_trans|done].
  by rewrite (stm_run_Ok _ _ _ _ _ Hm).
Qed.

Lemma yields_gets {A B} s (g : service → A) (f : A → M B) b st' :
  yields sid s (f (g s)) b st' → yields sid s (gets g ≫= f) b st'.
Proof. done. Qed.

Lemma yields_touch s st :
  od_ok (session_states s) → od_get sid (session_states s) = Some st →
  yields sid s (touch sid) tt st.
Proof.
  intros Hok Hst. unfold yields, touch.
  destruct (od_move_to_end sid (session_states s)) as [d|] eqn:Hd.
  - exists (set_states d s). split_and!; [done| |].
    + split_and!; simpl; [eauto using od_move_to_end_ok|done|].
      intros k _. left. eauto using od_move_to_end_get.
    + simpl. rewrite -Hst. eauto using od_move_to_end_get.
  - destruct (od_move_to_end_Some sid (session_states s)) as [? ?]; [by rewrite Hst|congruence].
Qed.

Lemma yields_on_state s f st :
  od_ok (session_states s) → od_get sid (session_states s) = Some st →
  yields sid s (on_state sid f) tt (f st).
Proof.
  intros Hok Hst. eexists. split; [done|]. split.
  - split_and!; simpl; [by apply od_modify_ok|done|].
    intros k Hk. left. by apply od_modify_get_ne.
  - simpl. by rewrite od_modify_get_eq Hst.
Qed.

Lemma yields_on_metrics s f st :
  od_ok (session_states s) → od_get sid (session_states s) = Some st →
  yields sid s (on_metrics f) tt st.
Proof. intros Hok Hst. eexists. split; [done|]. split; [|done]. by split_and!; auto. Qed.

Lemma yields_bump s st :
  od_ok (session_states s) → od_get sid (session_states s) = Some st →
  yields sid s (modify bump_log_counter) tt st.
Proof. intros Hok Hst. eexists. split; [done|]. split; [|done]. by split_and!; auto. Qed.
End logic.

#[export] Hint Resolve yields_ret yields_touch yields_on_state yields_on_metrics yields_bump : proxy.

(** One step of a method: the rule of its first call, then the rest. *)
Ltac ystep :=
  lazymatch goal with
  | |- yields _ _ (gets _ ≫= _) _ _ => apply yields_gets
  | |- yields _ _ (_ ≫= _) _ _ =>
      eapply yields_bind; [solve [eauto with proxy] | intros ? ? ? ?]
  | |- _ => solve [eauto with proxy]
  end.

Section creation.
Context (lim : limits) (sid : str).

Lemma od_ok_perm (d d' : list (str * ReplacementState)) : d ≡ₚ d' → od_ok d → od_ok d'.
Proof. unfold od_ok. by intros ->. Qed.

(** The eviction that follows a creation, seen through the dictionary. *)
Lemma yields_evict s d :
  od_ok (session_states s) → session_states s = d ++ [(sid, new_state)] →
  count_active d < max_session_states lim →
  yields sid s (evict_oldest_sessions_if_needed lim) tt new_state.
Proof.
  intros Hok Hd Hc. unfold yields, evict_oldest_sessions_if_needed, modify.
  pose proof (evict_loop_keeps lim (length (session_states s)) d (sid, new_state) []
                (disabled_sessions s)) as Hin.
  destruct (evict_loop_perm lim (length (session_states s)) (session_states s)
              (disabled_sessions s)) as (rm & Hp & Hr & Hdis).
  rewrite -Hd in Hin. destruct (evict_loop _ _ _) as [d' dis'] eqn:He. simpl in *.
  pose proof (od_ok_perm _ _ Hp Hok) as Hok'.
  assert (od_ok d') as Hokd'.
  { unfold od_ok in *. rewrite fmap_app in Hok'. by apply NoDup_app in Hok' as (? & ? & ?). }
  specialize (Hin ltac:(lia)).
  assert (∀ k, k ∈ rm.*1 → od_get k d' = None) as Hgone.
  { intros k Hk. apply od_get_None. unfold od_ok in Hok'. rewrite fmap_app in Hok'.
    apply NoDup_app in Hok' as (? & Hdisj & ?). intros Hk'. by apply (Hdisj k). }
  eexists. split; [done|]. split; [|simpl; by apply od_elem_get].
  split_and!; simpl; [done| |].
  - subst dis'. split; [set_solver|]. intros Hs. apply elem_of_difference. split; [done|].
    intros Hk%elem_of_list_to_set%Hgone. apply (od_elem_get _ _ _ Hokd') in Hin. congruence.
  - intros k Hk. destruct (decide (k ∈ rm.*1)) as [Hkr|Hkr].
    + right. split; [auto|]. apply list_elem_of_fmap in Hkr as ([k' st] & -> & Hst). simpl.
      exists st. split; [|rewrite Forall_forall in Hr; exact (Hr _ Hst)].
      apply od_elem_get; [done|]. rewrite Hp. set_solver.
    + left. destruct (od_get k (session_states s)) as [st|] eqn:Hg.
      * apply od_get_Some_elem in Hg. rewrite Hp in Hg.
        apply elem_of_app in Hg as [?|Hst]; [by apply od_elem_get|].
        exfalso. apply Hkr, list_elem_of_fmap. by exists (k, st).
      * apply od_get_None in Hg. apply od_get_None. rewrite Hp fmap_app in Hg. set_solver.
Qed.

Lemma create_state_run s :
  od_get sid (session_states s) = None →
  create_state lim sid s
  = evict_oldest_sessions_if_needed lim
      (set_states (session_states s ++ [(sid, new_state)]) s).
Proof.
  intros Hn. unfold create_state, mbind, stm_bind, modify. rewrite od_set_new //.
  unfold touch, od_move_to_end. cbn [session_states set_states].
  rewrite od_get_app Hn /= decide_True //=.
  assert (od_pop sid (session_states s ++ [(sid, new_state)]) = session_states s) as ->; [|done].
  induction (session_states s) as [|[k v] d IH]; simpl in *; [by rewrite decide_True|].
  case_decide; [done|]. by rewrite IH.
Qed.

Lemma new_session_ok s :
  od_ok (session_states s) → od_get sid (session_states s) = None →
  od_ok (session_states s ++ [(sid, new_state)]).
Proof. intros. rewrite -od_set_new //. by apply od_set_ok. Qed.

Lemma yields_create s :
  od_ok (session_states s) → od_get sid (session_states s) = None →
  count_active (session_states s) < max_session_states lim →
  yields sid s (create_state lim sid) tt new_state.
Proof.
  intros Hok Hn Hc. unfold yields. rewrite create_state_run //.
  destruct (yields_evict (set_states (session_states s ++ [(sid, new_state)]) s)
              (session_states s)) as (s' & Hrun & Hf & Hg); [by apply new_session_ok|done|done|].
  exists s'. split_and!; [done| |done]. eapply frame_trans; [|done].
  split_and!; simpl; [by apply new_session_ok|done|].
  intros k Hk. left. rewrite -od_set_new //. by apply od_get_set_ne.
Qed.

Lemma yields_get_state cfg s :
  good_service cfg s → has_room lim s sid →
  yields sid s (get_state lim sid) (default new_state (od_get sid (session_states s)))
    (default new_state (od_get sid (session_states s))).
Proof.
  intros (Hok & Hgood) Hroom. unfold get_state. ystep.
  destruct (od_get sid (session_states s)) as [st|] eqn:Hst; simpl.
  - ystep. destruct (Hgood _ _ Hst) as [-> _]. simpl. by ystep.
  - destruct Hroom as [[? ?]|Hroom]; [congruence|].
    eapply yields_bind; [by apply yields_create|]. intros. by ystep.
Qed.
End creation.

#[local] Arguments rule_allows : simpl never.

(** ** The methods, on a known session *)
Section methods.
Context (lim : limits) (cfg : ReplacementConfig) (sid : str).
Implicit Types (s : service) (st : ReplacementState) (rq : request).

(** What [should_replace] answers and leaves. *)
Definition should_spec (gate : bool) (rq : request) (st : ReplacementState)
    : bool * ReplacementState :=
  if gate then
    if negb (first_turn_complete st) then (false, mark_first_turn_complete st)
    else if cool_down_active st then (false, (consume_cool_down st).2)
    else if active st then (true, st)
    else (rule_allows cfg (Some (rq_backend rq)) (Some (rq_model rq))
          && Qltb (rq_draw rq) (probability cfg), st)
  else (false, st).

Lemma yields_should_replace s rq st :
  od_ok (session_states s) → od_get sid (session_states s) = Some st →
  yields sid s
    (should_replace lim cfg sid (rq_header rq) (Some (rq_backend rq)) (Some (rq_model rq))
       (rq_draw rq))
    (should_spec (gate_open cfg s sid rq) rq st).1
    (should_spec (gate_open cfg s sid rq) rq st).2.
Proof.
  intros Hok Hst. unfold should_replace, gate_open, should_spec.
  destruct (enabled cfg); simpl; [|by ystep]. ystep.
  destruct (bool_decide _); simpl; [by repeat ystep|].
  destruct (header_opts_out _); simpl; [by repeat ystep|].
  destruct (oauth_guard _ _); simpl; [by repeat ystep|].
  ystep. rewrite Hst. ystep. ystep. unfold decide_replacement, consume_cool_down.
  destruct (first_turn_complete st) eqn:Hf; simpl; [|by repeat ystep].
  destruct (cool_down_active st) eqn:Hc; simpl.
  - eapply yields_bind; [eapply yields_on_state; eauto|]. rewrite Hc Hf /=. intros. by ystep.
  - destruct (active st); simpl; [by ystep|].
    destruct (rule_allows _ _ _); simpl; [|by ystep]. unfold roll. by repeat ystep.
Qed.

Lemma yields_activate s ob om rule st :
  od_ok (session_states s) → od_get sid (session_states s) = Some st →
  find_matching_rule cfg ob om = Some rule →
  bool_decide (to_backend rule = ob ∧ to_model rule = om) = false →
  yields sid s (activate_replacement lim cfg sid ob om) tt
    (activate (turn_count cfg) ob om (to_backend rule) (to_model rule) st).
Proof.
  intros Hok Hst Hr Hne. unfold activate_replacement. rewrite Hr Hne.
  ystep. rewrite Hst. repeat ystep.
Qed.

(** What [get_effective_backend_model] answers and leaves. *)
Definition effective_spec (rq : request) (st : ReplacementState)
    : (str * str) * ReplacementState :=
  if active st then
    if target_registered rq (replacement_backend st, replacement_model st)
    then ((replacement_backend st, replacement_model st), st)
    else ((rq_backend rq, rq_model rq), deactivate false st)
  else ((rq_backend rq, rq_model rq), st).

Lemma yields_effective s rq st :
  od_ok (session_states s) → od_get sid (session_states s) = Some st →
  yields sid s
    (get_effective_backend_model (rq_registered rq) sid (rq_backend rq) (rq_model rq))
    (effective_spec rq st).1 (effective_spec rq st).2.
Proof.
  intros Hok Hst. unfold get_effective_backend_model, effective_spec, target_registered.
  ystep. rewrite Hst. destruct (active st); [|by ystep]. ystep.
  destruct (rq_registered rq) as [bs|]; simpl; [|by repeat ystep].
  destruct (str_in _ bs); by repeat ystep.
Qed.

Lemma yields_complete_turn s st :
  od_ok (session_states s) → od_get sid (session_states s) = Some st →
  yields sid s (complete_turn sid) tt (decrement_turn st).
Proof.
  intros Hok Hst. unfold complete_turn. ystep. rewrite Hst.
  destruct (active st) eqn:Ha; [by repeat ystep|].
  unfold decrement_turn. rewrite Ha. by ystep.
Qed.
End methods.

(** ** What validation gives *)

Lemma validate_rules_In i rules rule :
  validate_rules i rules = Ok tt → rule ∈ rules →
  is_empty (to_backend rule) = false ∧ is_empty (to_model rule) = false.
Proof.
  revert i. induction rules as [|r rules IH]; intros i; simpl; [set_solver|].
  intros ([] & Hr & Hrest)%bind_Ok_inv [->|?]%elem_of_cons; [|eauto].
  unfold validate_rule in Hr. destruct (is_empty (to_backend r)), (is_empty (to_model r)); done.
Qed.

Lemma validate_config_ok cfg :
  validate_config cfg = Ok tt → enabled cfg = true →
  (1 <= turn_count cfg)%Z ∧
  ∀ rule, rule ∈ replacement_rules cfg →
    is_empty (to_backend rule) = false ∧ is_empty (to_model rule) = false.
Proof.
  unfold validate_config. intros Hv He. rewrite He in Hv.
  destruct (Qle_bool 0 _ && _); [|done].
  destruct (negb (bool_decide _)); [|done].
  destruct (turn_count cfg <? 1)%Z eqn:Ht; simpl in Hv; [done|].
  split; [lia|]. intros rule. apply (validate_rules_In 0).
  destruct (first_wildcard _ _); [|done]. by destruct (negb (1 <? _)).
Qed.

Lemma find_matching_rule_In cfg b m rule :
  find_matching_rule cfg b m = Some rule → rule ∈ replacement_rules cfg.
Proof. intros [H _]%find_some. by apply list_elem_of_In. Qed.

(** ** The states of a session and its phases *)

Section turn.
Context (lim : limits) (cfg : ReplacementConfig) (sid : str).
Context (Hcfg : validate_config cfg = Ok tt).
Implicit Types (s : service) (st : ReplacementState) (rq : request).
Set Default Proof Using "Type*".

Lemma good_new_state : good_state cfg new_state.
Proof using. unfold good_state. simpl. split_and!; try done. lia. Qed.

Lemma good_deactivate st : good_state cfg st → good_state cfg (deactivate false st).
Proof using.
  intros (Hv & Ht & Ha & Hc). unfold good_state. simpl. split_and!; try done. lia.
Qed.

(** An inactive state is left inactive by a completed turn, an active one ticks. *)
Lemma decrement_turn_phase st :
  good_state cfg st →
  good_state cfg (decrement_turn st) ∧
  phase_of_state (decrement_turn st) = tick (phase_of_state st).
Proof using.
  intros Hg. destruct (id Hg) as (Hv & Ht & Ha & Hc). unfold decrement_turn, phase_of_state.
  destruct (active st) eqn:Hact; simpl.
  - unfold validate_state in Hv. rewrite Hact in Hv. bool_hyps.
    destruct (Ha eq_refl) as [Hf Hcd]. destruct (0 <? turns_remaining st)%Z eqn:Hp; [|lia].
    destruct (turns_remaining st - 1 =? 0)%Z eqn:Hz; simpl.
    + rewrite /good_state /= Hf. split; [split_and!; try done; lia|].
      by replace (turns_remaining st =? 1)%Z with true by lia.
    + rewrite Hact. replace (turns_remaining st =? 1)%Z with false by lia.
      split; [|done]. unfold good_state, validate_state. simpl. rewrite Hact.
      split_and!; [|lia|done|done]. repeat match goal with H : is_empty _ = false |- _ => rewrite H end.
      simpl. lia.
  - rewrite Hact. split; [done|]. by destruct (cool_down_active st), (first_turn_complete st).
Qed.

Lemma good_activate st rq rule :
  good_state cfg st → enabled cfg = true → first_turn_complete st = true →
  is_empty (rq_backend rq) = false → is_empty (rq_model rq) = false →
  find_matching_rule cfg (rq_backend rq) (rq_model rq) = Some rule →
  good_state cfg (activate (turn_count cfg) (rq_backend rq) (rq_model rq)
                    (to_backend rule) (to_model rule) st).
Proof.
  intros Hg He Hf Hb Hm Hr. destruct (validate_config_ok cfg Hcfg He) as [Ht Hrules].
  destruct (Hrules rule) as [H1 H2]; [by eapply find_matching_rule_In|].
  unfold good_state, validate_state. simpl. rewrite Hf Hb Hm H1 H2 /=.
  split_and!; try done; lia.
Qed.

(** The routing of a request that reaches an active session. *)
Lemma effective_active st rq :
  good_state cfg st → active st = true →
  good_state cfg (effective_spec rq st).2 ∧
  ({| rt_effective := (effective_spec rq st).1; rt_replacement := true;
      rt_skip_complete := false |}, phase_of_state (effective_spec rq st).2)
  = use_target rq (replacement_backend st, replacement_model st) (phase_of_state st).
Proof using.
  intros Hg Ha. unfold effective_spec, use_target. rewrite Ha.
  destruct (target_registered _ _); [done|].
  split; [by apply good_deactivate|]. destruct Hg as (_ & _ & H & _).
  destruct (H Ha) as [Hf Hc]. unfold phase_of_state. simpl. by rewrite Hc Hf.
Qed.

Lemma gate_frame s s' rq :
  frame sid s s' → gate_open cfg s' sid rq = gate_open cfg s sid rq.
Proof using.
  intros (_ & Hd & _). unfold gate_open.
  by rewrite (bool_decide_ext _ _ Hd).
Qed.

(** The replacement block on the state of the session. *)
Definition route_spec (gate : bool) (rq : request) (st : ReplacementState)
    : routed * ReplacementState :=
  if qv_suppresses rq then (not_replaced rq (active st), st)
  else
    let '(should, st1) := should_spec cfg gate rq st in
    if should || active st then
      let st2 :=
        match find_matching_rule cfg (rq_backend rq) (rq_model rq) with
        | Some rule =>
            if active st then st1
            else activate (turn_count cfg) (rq_backend rq) (rq_model rq)
                   (to_backend rule) (to_model rule) st1
        | None => st1
        end in
      ({| rt_effective := (effective_spec rq st2).1; rt_replacement := true;
          rt_skip_complete := false |}, (effective_spec rq st2).2)
    else (not_replaced rq false, st1).

Definition has_names (rq : request) : bool :=
  negb (is_empty (rq_backend rq)) && negb (is_empty (rq_model rq)).

(** A positive answer on an inactive session comes from a rule. *)
Lemma should_spec_rule gate rq st :
  has_names rq = true → active st = false → (should_spec cfg gate rq st).1 = true →
  gate = true ∧ (should_spec cfg gate rq st).2 = st ∧ first_turn_complete st = true ∧
  cool_down_active st = false ∧
  ∃ rule, find_matching_rule cfg (rq_backend rq) (rq_model rq) = Some rule ∧
    bool_decide (to_backend rule = rq_backend rq ∧ to_model rule = rq_model rq) = false ∧
    Qltb (rq_draw rq) (probability cfg) = true.
Proof using.
  intros Hn Ha. unfold should_spec, has_names in *. rewrite Ha.
  destruct gate; [|done]. destruct (first_turn_complete st); [|done]. simpl.
  destruct (cool_down_active st); [done|]. simpl. unfold rule_allows. rewrite Hn.
  destruct (find_matching_rule _ _ _) as [rule|]; [|done].
  intros [Hne Hd]%andb_true_iff. apply negb_true_iff in Hne. eauto 10.
Qed.

Lemma yields_apply s rq :
  good_service cfg s → has_room lim s sid → has_names rq = true → rq_auxiliary rq = false →
  let st := default new_state (od_get sid (session_states s)) in
  yields sid s (apply_replacement lim cfg sid rq)
    (route_spec (gate_open cfg s sid rq) rq st).1 (route_spec (gate_open cfg s sid rq) rq st).2.
Proof using.
  intros Hg Hroom Hn Haux st. unfold apply_replacement, route_spec. fold (has_names rq).
  rewrite Hn Haux /=. eapply yields_bind; [by eapply yields_get_state|]. fold st.
  intros s1 Hf1 Hok1 Hst1. destruct (qv_suppresses rq); simpl; [by ystep|].
  eapply yields_bind; [by eapply yields_should_replace|]. intros s2 Hf2 Hok2 Hst2.
  rewrite (gate_frame s s1) // in Hst2 |- *.
  pose proof (should_spec_rule (gate_open cfg s sid rq) rq st Hn) as Hrule.
  destruct (should_spec cfg _ rq st) as [should st1]. simpl in *.
  destruct (active st) eqn:Ha.
  - rewrite orb_true_r andb_false_r /=.
    replace (match find_matching_rule _ _ _ with Some _ => st1 | None => st1 end) with st1
      by by destruct (find_matching_rule _ _ _).
    ystep. eapply yields_bind; [by eapply yields_effective|]. intros. by ystep.
  - destruct should; simpl; [|by ystep].
    destruct Hrule as (_ & -> & _ & _ & rule & Hr & Hne & _); [done..|]. rewrite Hr.
    eapply yields_bind; [by eapply yields_activate|]. intros.
    eapply yields_bind; [by eapply yields_effective|]. intros. by ystep.
Qed.

(** The answer no, on an inactive session. *)
Lemma declined_phase gate rq st st1 :
  good_state cfg st → has_names rq = true → active st = false →
  should_spec cfg gate rq st = (false, st1) →
  good_state cfg st1 ∧
  (not_replaced rq false, phase_of_state st1) =
    match phase_of_state st with
    | Active n target => use_target rq target (phase_of_state st)
    | Fresh => (not_replaced rq false, if gate then Idle else Fresh)
    | CoolDown => (not_replaced rq false, if gate then Idle else CoolDown)
    | Idle =>
        match (if gate then chosen_target cfg rq else None) with
        | Some target => use_target rq target (Active (turn_count cfg) target)
        | None => (not_replaced rq false, Idle)
        end
    end.
Proof using.
  intros Hg Hn Ha. unfold should_spec. rewrite Ha. destruct (id Hg) as (_ & _ & _ & Hcool).
  unfold phase_of_state at 2. rewrite Ha.
  destruct gate; [|intros [= <-]; split; [done|]; unfold phase_of_state; rewrite Ha;
                    by destruct (cool_down_active st), (first_turn_complete st)].
  destruct Hg as (Hv & Ht & _ & _). unfold validate_state in Hv. rewrite Ha in Hv.
  destruct (first_turn_complete st) eqn:Hf; simpl; cycle 1.
  { destruct (cool_down_active st) eqn:Hc; [naive_solver|]. intros [= <-].
    unfold good_state, validate_state, phase_of_state. simpl. rewrite Ha Hc. by split_and!. }
  destruct (cool_down_active st) eqn:Hc.
  { intros [= <-]. unfold good_state, validate_state, phase_of_state, consume_cool_down.
    rewrite Hc /= Ha Hf. by split_and!. }
  intros [= Hr <-]. split.
  { unfold good_state, validate_state. rewrite Ha Hc Hf. by split_and!. }
  assert (phase_of_state st = Idle) as -> by (unfold phase_of_state; by rewrite Ha Hc Hf).
  unfold chosen_target. revert Hr. unfold rule_allows. fold (has_names rq). rewrite Hn.
  destruct (find_matching_rule _ _ _) as [rule|]; simpl; [|done].
  by destruct (bool_decide _); simpl; [|intros ->].
Qed.

Lemma route_spec_phase s rq st :
  good_state cfg st → has_names rq = true → rq_auxiliary rq = false →
  let gate := gate_open cfg s sid rq in
  good_state cfg (route_spec gate rq st).2 ∧
  ((route_spec gate rq st).1, phase_of_state (route_spec gate rq st).2)
  = spec_route cfg gate rq (phase_of_state st).
Proof.
  intros Hg Hn Haux gate. unfold route_spec, spec_route. fold (has_names rq).
  rewrite Hn Haux /=. destruct (qv_suppresses rq); simpl.
  { split; [done|]. unfold phase_of_state.
    by destruct (active st), (cool_down_active st), (first_turn_complete st). }
  destruct (id Hg) as (_ & _ & Hact & Hcool).
  destruct (active st) eqn:Ha.
  - destruct (Hact eq_refl) as [Hf Hc].
    assert (should_spec cfg gate rq st = (gate, st)) as ->.
    { unfold should_spec. rewrite Hf Hc Ha. by destruct gate. }
    rewrite orb_true_r. destruct (effective_active st rq Hg Ha) as [Hg' Heff].
    unfold phase_of_state at 2. rewrite Ha.
    by destruct (find_matching_rule _ _ _).
  - pose proof (should_spec_rule gate rq st Hn Ha) as Hrule.
    destruct (should_spec cfg gate rq st) as [should st1] eqn:Hs. simpl in *.
    destruct should; simpl.
    + destruct Hrule as (Hgate & -> & Hf & Hc & rule & Hr & Hne & Hd); [done|].
      rewrite Hr Hgate. unfold phase_of_state at 2. rewrite Ha Hc Hf.
      unfold chosen_target. rewrite Hr /= Hne Hd.
      destruct (andb_prop _ _ Hn) as [Hb%negb_true_iff Hm%negb_true_iff].
      eapply (effective_active (activate _ _ _ _ _ st) rq); [|done].
      apply good_activate; try done. unfold gate, gate_open in Hgate. by destruct (enabled cfg).
    + clear Hrule. by apply declined_phase.
Qed.

(** A run within the frame keeps the service good, and every other session in
    its phase unless it is evicted. *)
Lemma settle {A} s (m : M A) a st :
  good_service cfg s → yields sid s m a st → good_state cfg st →
  ∃ s', m s = (Ok a, s') ∧ good_service cfg s' ∧ phase_of s' sid = phase_of_state st ∧
    ∀ k, k ≠ sid → phase_of s' k = phase_of s k ∨
      (is_active (phase_of s k) = false ∧ phase_of s' k = Fresh).
Proof using.
  intros [Hok Hg] (s' & Hrun & (Hok' & _ & Hf) & Hst) Hgst. exists s'. split_and!; [done| | |].
  - split; [done|]. intros k st' Hk. destruct (decide (k = sid)) as [->|Hne]; [congruence|].
    destruct (Hf k Hne) as [Heq|[? _]]; [|congruence]. apply (Hg k). congruence.
  - unfold phase_of. by rewrite Hst.
  - intros k Hne. unfold phase_of. destruct (Hf k Hne) as [->|(-> & st' & -> & Ha)]; [by left|].
    right. split; [|done]. simpl. unfold phase_of_state. rewrite Ha.
    by destruct (cool_down_active st'), (first_turn_complete st').
Qed.

Lemma yields_finish s rq rt st :
  od_ok (session_states s) → od_get sid (session_states s) = Some st →
  yields sid s (finish_turn sid rq rt) tt
    (if negb (rq_auxiliary rq) && negb (rt_skip_complete rt) then decrement_turn st else st).
Proof using.
  intros. unfold finish_turn. destruct (_ && _); [by apply yields_complete_turn|by ystep].
Qed.
End turn.

(** One request, concretely and in the phases. *)
Section simulation.
Context (lim : limits) (cfg : ReplacementConfig) (s : service) (sid : str) (rq : request).
Context (Hcfg : validate_config cfg = Ok tt) (Hg : good_service cfg s).
Set Default Proof Using "Type*".

Definition simulated (spec : routed * phase) : Prop :=
  ∃ s', request_turn lim cfg sid rq s = (Ok spec.1, s') ∧ good_service cfg s' ∧
    phase_of s' sid = spec.2 ∧
    ∀ k, k ≠ sid → phase_of s' k = phase_of s k ∨
      (is_active (phase_of s k) = false ∧ phase_of s' k = Fresh).

Lemma named_turn_sim :
  has_room lim s sid → has_names rq = true → rq_auxiliary rq = false →
  simulated (spec_turn cfg (gate_open cfg s sid rq) rq (phase_of s sid)).
Proof.
  intros Hroom Hn Haux. unfold spec_turn.
  set (st := default new_state (od_get sid (session_states s))).
  assert (good_state cfg st) as Hgst.
  { unfold st. destruct (od_get _ _) eqn:Hst; [by apply (proj2 Hg sid)|by apply good_new_state]. }
  assert (phase_of s sid = phase_of_state st) as ->.
  { unfold st, phase_of. by destruct (od_get _ _). }
  destruct (route_spec_phase cfg sid Hcfg s rq st Hgst Hn Haux) as [Hgood <-].
  set (out := route_spec cfg (gate_open cfg s sid rq) rq st) in *.
  destruct (decrement_turn_phase cfg out.2 Hgood) as [Hgd <-].
  edestruct (settle cfg sid s (request_turn lim cfg sid rq) out.1) as (s' & ? & ? & ? & ?);
    [done| | |].
  - unfold request_turn. eapply yields_bind; [by apply yields_apply|]. intros.
    eapply yields_bind; [by apply yields_finish|]. intros. by ystep.
  - by destruct (negb (rq_auxiliary rq) && _).
  - exists s'. split_and!; try done. by destruct (negb (rq_auxiliary rq) && _).
Qed.

(** Without names, or for an auxiliary request, only a turn may complete. *)
Lemma unnamed_turn_sim :
  has_names rq && negb (rq_auxiliary rq) = false →
  simulated (spec_turn cfg (gate_open cfg s sid rq) rq (phase_of s sid)).
Proof.
  intros Hn. unfold spec_turn, simulated, request_turn.
  assert (apply_replacement lim cfg sid rq s = (Ok (not_replaced rq false), s)) as Hrun.
  { unfold apply_replacement. fold (has_names rq). by rewrite Hn. }
  rewrite (stm_run_Ok _ _ _ _ _ Hrun).
  assert (spec_route cfg (gate_open cfg s sid rq) rq (phase_of s sid)
          = (not_replaced rq false, phase_of s sid)) as ->.
  { unfold spec_route. fold (has_names rq). by rewrite Hn. }
  destruct (od_get sid (session_states s)) as [st|] eqn:Hst.
  - pose proof (proj2 Hg sid st Hst) as Hgst. destruct (id Hg) as [Hok _].
    destruct (decrement_turn_phase cfg st Hgst) as [Hgd Hph].
    assert (phase_of s sid = phase_of_state st) as -> by (unfold phase_of; by rewrite Hst).
    rewrite -Hph. edestruct (settle cfg sid s
      (finish_turn sid rq (not_replaced rq false) ≫= λ _, mret (not_replaced rq false)))
      as (s' & ? & ? & ? & ?); [done| | |].
    + eapply yields_bind; [by apply (yields_finish sid s rq (not_replaced rq false))|].
      intros. by ystep.
    + by destruct (negb (rq_auxiliary rq) && _).
    + exists s'. split_and!; try done. by destruct (negb (rq_auxiliary rq) && _).
  - exists s. assert (phase_of s sid = Fresh) as -> by (unfold phase_of; by rewrite Hst).
    split_and!; [|done|simpl; by destruct (rq_auxiliary rq)|by left].
    unfold mbind, stm_bind, finish_turn, complete_turn, gets. simpl.
    destruct (rq_auxiliary rq); simpl; [done|].
    unfold mbind, stm_bind. by rewrite Hst.
Qed.

Lemma request_turn_sim :
  has_room lim s sid →
  simulated (spec_turn cfg (gate_open cfg s sid rq) rq (phase_of s sid)).
Proof.
  intros Hroom. destruct (has_names rq && negb (rq_auxiliary rq)) eqn:Hn.
  - apply andb_true_iff in Hn as [Hn Haux%negb_true_iff]. by apply named_turn_sim.
  - by apply unnamed_turn_sim.
Qed.
End simulation.

(** ** Properties *)

(** The requests of a session, one after the other. *)
Fixpoint serve (lim : limits) (cfg : ReplacementConfig) (sid : str) (rqs : list request)
    : M (list routed) :=
  match rqs with
  | [] => mret []
  | rq :: rest =>
      rt ← request_turn lim cfg sid rq;
      rts ← serve lim cfg sid rest;
      mret (rt :: rts)
  end.

(** A request that the replacement can serve. *)
Definition replaceable (target : str * str) (rq : request) : Prop :=
  has_names rq = true ∧ rq_auxiliary rq = false ∧ qv_suppresses rq = false ∧
  target_registered rq target = true.

Definition replaced_by (target : str * str) (rt : routed) : Prop :=
  rt_effective rt = target ∧ rt_replacement rt = true.

Section window.
Context (lim : limits) (cfg : ReplacementConfig) (sid : str).
Context (Hcfg : validate_config cfg = Ok tt).
Set Default Proof Using "Type*".

Lemma known_room s : phase_of s sid ≠ Fresh → has_room lim s sid.
Proof using.
  unfold phase_of, has_room. destruct (od_get _ _); [by left; eexists|done].
Qed.

Lemma active_turn s rq n t :
  good_service cfg s → phase_of s sid = Active n t → replaceable t rq →
  ∃ s', request_turn lim cfg sid rq s
    = (Ok {| rt_effective := t; rt_replacement := true; rt_skip_complete := false |}, s') ∧
    good_service cfg s' ∧ phase_of s' sid = tick (Active n t).
Proof.
  intros Hg Hph (Hn & Haux & Hqv & Hreg).
  destruct (request_turn_sim lim cfg s sid rq Hcfg Hg) as (s' & Hrun & Hg' & Hph' & _).
  { apply known_room. by rewrite Hph. }
  exists s'. rewrite Hrun Hph' Hph. unfold spec_turn, spec_route. fold (has_names rq).
  by rewrite Hn Haux Hqv /= /use_target Hreg.
Qed.

Lemma active_window n t rqs s :
  good_service cfg s → phase_of s sid = Active (Z.of_nat n) t → (0 < n)%nat →
  Forall (replaceable t) rqs → length rqs = n →
  ∃ outs s', serve lim cfg sid rqs s = (Ok outs, s') ∧ good_service cfg s' ∧
    length outs = n ∧ Forall (replaced_by t) outs ∧ phase_of s' sid = CoolDown.
Proof.
  revert s n. induction rqs as [|rq rqs IH]; intros s n Hg Hph Hpos Hall Hlen; simpl in Hlen; [lia|].
  inversion Hall as [|?? Hrq Hrqs]; subst.
  destruct (active_turn s rq _ t Hg Hph Hrq) as (s1 & Hrun & Hg1 & Hph1).
  cbn [serve]. rewrite (stm_run_Ok _ _ _ _ _ Hrun). unfold tick in Hph1.
  destruct (decide (rqs = [])) as [->|Hne].
  - eexists [_], s1. split_and!; try done. by repeat constructor.
  - assert (0 < length rqs) by (destruct rqs; simpl; [done|lia]).
    rewrite (proj2 (Z.eqb_neq _ _)) in Hph1; [lia|].
    destruct (IH s1 (length rqs)) as (outs & s' & Hs & Hg' & Hl & Hf & Hc); try done.
    { rewrite Hph1. f_equal. lia. }
    eexists (_ :: outs), s'. rewrite (stm_run_Ok _ _ _ _ _ Hs).
    split_and!; try done; [simpl; by rewrite Hl|]. by constructor.
Qed.
End window.

(** a replacement lasts exactly [turn_count] turns and is followed by a turn
    of rest.  When an idle session rolls a replacement, that request and the
    following ones, [turn_count] in all, go to the target, and the next request
    of the session goes to the original model, whatever it is. *)
Theorem replacement_window lim cfg sid s rq rqs t :
  validate_config cfg = Ok tt → good_service cfg s → phase_of s sid = Idle →
  gate_open cfg s sid rq = true → chosen_target cfg rq = Some t →
  Forall (replaceable t) (rq :: rqs) → Z.of_nat (length (rq :: rqs)) = turn_count cfg →
  ∃ outs s', serve lim cfg sid (rq :: rqs) s = (Ok outs, s') ∧
    length outs = length (rq :: rqs) ∧ Forall (replaced_by t) outs ∧
    phase_of s' sid = CoolDown ∧
    ∀ next, ∃ rt s'', request_turn lim cfg sid next s' = (Ok rt, s'') ∧
      rt_effective rt = (rq_backend next, rq_model next) ∧ rt_replacement rt = false.
Proof.
  intros Hcfg Hg Hph Hgate Ht Hall Hlen.
  inversion Hall as [|?? (Hn & Haux & Hqv & Hreg) Hrqs]; subst.
  destruct (request_turn_sim lim cfg s sid rq Hcfg Hg) as (s1 & Hrun & Hg1 & Hph1 & _).
  { apply known_room. by rewrite Hph. }
  revert Hrun Hph1. rewrite Hph Hgate. unfold spec_turn, spec_route. fold (has_names rq).
  rewrite Hn Haux Hqv Ht /= /use_target Hreg /=. intros Hrun Hph1.
  cbn [serve]. rewrite (stm_run_Ok _ _ _ _ _ Hrun).
  assert (∃ outs s', serve lim cfg sid rqs s1 = (Ok outs, s') ∧ good_service cfg s' ∧
    length outs = length rqs ∧ Forall (replaced_by t) outs ∧ phase_of s' sid = CoolDown)
    as (outs & s' & Hs & Hg' & Hl & Hf & Hc).
  { destruct (decide (rqs = [])) as [->|Hne].
    - exists [], s1. rewrite Hph1 -Hlen /=. by split_and!.
    - assert (0 < length rqs) by (destruct rqs; simpl; [done|lia]). simpl in Hlen.
      destruct (turn_count cfg =? 1)%Z eqn:Hz; [lia|].
      apply active_window; try done. rewrite Hph1. f_equal. lia. }
  eexists _, s'. rewrite (stm_run_Ok _ _ _ _ _ Hs). split_and!; [done|simpl; by rewrite Hl| |done|].
  - by constructor.
  - intros next. destruct (request_turn_sim lim cfg s' sid next Hcfg Hg') as (s2 & Hr & _).
    { apply known_room. by rewrite Hc. }
    eexists _, s2. split; [exact Hr|]. rewrite Hc. unfold spec_turn, spec_route.
    by destruct (_ && negb (rq_auxiliary next)), (qv_suppresses next).
Qed.

(** an active replacement ignores the opt-out header.  The requirement is
    that a request with [X-Disable-Replacement: true] is never replaced; while a
    replacement is active the request still goes to the target. *)
Theorem opt_out_header_ignored lim cfg sid s rq n t :
  validate_config cfg = Ok tt → good_service cfg s → phase_of s sid = Active n t →
  replaceable t rq → header_opts_out (rq_header rq) = true →
  ∃ s', request_turn lim cfg sid rq s
    = (Ok {| rt_effective := t; rt_replacement := true; rt_skip_complete := false |}, s').
Proof.
  intros Hcfg Hg Hph Hrq _. destruct (active_turn lim cfg sid Hcfg s rq n t) as (s' & ? & _);
    eauto.
Qed.

(** ** Any sequence of calls *)

Inductive op :=
| OpShouldReplace (sid : str) (header ob om : option str) (draw : Q)
| OpEffective (registered : option (list str)) (sid ob om : str)
| OpActivate (sid ob om : str)
| OpCompleteTurn (sid : str)
| OpGetState (sid : str)
| OpDisable (sid : str)
| OpCleanup (sid : str).

(** The callers activate with the names of the original route. *)
Definition op_ok (o : op) : Prop :=
  match o with
  | OpActivate _ ob om => is_empty ob = false ∧ is_empty om = false
  | _ => True
  end.

Section sequences.
Context (lim : limits) (cfg : ReplacementConfig) (iter_set : gset str → list str).

(** The service after a call, whether it returned or raised. *)
Definition run_op (s : service) (o : op) : service :=
  match o with
  | OpShouldReplace sid h ob om draw => (should_replace lim cfg sid h ob om draw s).2
  | OpEffective reg sid ob om => (get_effective_backend_model reg sid ob om s).2
  | OpActivate sid ob om => (activate_replacement lim cfg sid ob om s).2
  | OpCompleteTurn sid => (complete_turn sid s).2
  | OpGetState sid => (get_state lim sid s).2
  | OpDisable sid => (disable_for_session lim iter_set sid s).2
  | OpCleanup sid => (cleanup_session sid s).2
  end.

Definition sound_state (st : ReplacementState) : Prop :=
  validate_state st = true ∧ (turns_remaining st <= Z.max 0 (turn_count cfg))%Z ∧
  ¬ (active st = true ∧ cool_down_active st = true).

Definition sound (s : service) : Prop :=
  od_ok (session_states s) ∧ Forall (λ p, sound_state p.2) (session_states s).

Definition keeps {A} (m : M A) : Prop := ∀ s, sound s → sound (m s).2.

Lemma keeps_ret {A} (a : A) : keeps (mret a).
Proof. by intros s. Qed.
Lemma keeps_bind {A B} (m : M A) (f : A → M B) :
  keeps m → (∀ a, keeps (f a)) → keeps (m ≫= f).
Proof.
  intros Hm Hf s Hs. unfold mbind, stm_bind. specialize (Hm s Hs).
  destruct (m s) as [[a|e] s']; [by apply Hf|done].
Qed.
Lemma keeps_gets {A} (f : service → A) : keeps (gets f).
Proof. by intros s. Qed.
Lemma keeps_on_metrics f : keeps (on_metrics f).
Proof. by intros s. Qed.
Lemma keeps_bump : keeps (modify bump_log_counter).
Proof. by intros s. Qed.

Lemma sound_get s sid st :
  sound s → od_get sid (session_states s) = Some st → sound_state st.
Proof.
  intros [_ Hall] Hst%od_get_Some_elem. rewrite Forall_forall in Hall. exact (Hall _ Hst).
Qed.

Lemma sound_perm s d removed dis :
  sound s → session_states s ≡ₚ d ++ removed → sound (set_disabled dis (set_states d s)).
Proof.
  intros [Hok Hall] Hp. unfold sound, od_ok in *. rewrite -> Hp in Hok, Hall.
  apply Forall_app in Hall as [Hd _]. rewrite fmap_app in Hok.
  by apply NoDup_app in Hok as [Hok _].
Qed.

Lemma keeps_touch sid : keeps (touch sid).
Proof.
  intros s Hs. unfold touch. destruct (od_move_to_end _ _) as [d|] eqn:Hd; [simpl|done].
  apply (sound_perm s d [] (disabled_sessions s) Hs). rewrite app_nil_r.
  by eapply od_move_to_end_perm.
Qed.

Lemma keeps_on_state sid f :
  (∀ st, sound_state st → sound_state (f st)) → keeps (on_state sid f).
Proof.
  intros Hf s Hs. split; [by apply od_modify_ok, Hs|]. simpl. unfold od_modify.
  destruct (od_get _ _) as [st|] eqn:Hst; [|apply Hs].
  apply od_set_Forall; [apply Hs|]. by eapply Hf, sound_get.
Qed.

Lemma sound_new_state : sound_state new_state.
Proof. split_and!; simpl; [done|lia|naive_solver]. Qed.

Lemma keeps_set_new sid :
  keeps (modify (λ s, set_states (od_set sid new_state (session_states s)) s)).
Proof.
  intros s Hs. split; [by apply od_set_ok, Hs|].
  apply od_set_Forall; [apply Hs|apply sound_new_state].
Qed.

Lemma keeps_evict : keeps (evict_oldest_sessions_if_needed lim).
Proof.
  intros s Hs. unfold evict_oldest_sessions_if_needed, modify. simpl.
  destruct (evict_loop_perm lim (length (session_states s)) (session_states s)
              (disabled_sessions s)) as (rm & Hp & _).
  destruct (evict_loop _ _ _) as [d dis]. by eapply sound_perm.
Qed.

Lemma sound_deactivate b st : sound_state (deactivate b st).
Proof. split_and!; simpl; [done|lia|naive_solver]. Qed.

Lemma sound_decrement st : sound_state st → sound_state (decrement_turn st).
Proof.
  intros Hs. unfold decrement_turn. destruct (active st && _) eqn:Ha; [|done].
  apply andb_true_iff in Ha as [Ha Hp]. simpl.
  destruct (_ =? 0)%Z eqn:Hz; [by apply sound_deactivate|].
  destruct Hs as (Hv & Ht & Hc). unfold validate_state in Hv. rewrite Ha in Hv. bool_hyps.
  unfold sound_state, validate_state. simpl. rewrite Ha. split_and!; [|lia|naive_solver].
  repeat match goal with H : is_empty _ = false |- _ => rewrite H end. simpl. lia.
Qed.

Lemma sound_same st st' :
  active st' = active st → turns_remaining st' = turns_remaining st →
  (cool_down_active st' = true → cool_down_active st = true) →
  original_backend st' = original_backend st → original_model st' = original_model st →
  replacement_backend st' = replacement_backend st →
  replacement_model st' = replacement_model st →
  sound_state st → sound_state st'.
Proof.
  intros Ha Ht Hc H1 H2 H3 H4. unfold sound_state, validate_state.
  rewrite Ha Ht H1 H2 H3 H4. naive_solver.
Qed.

Lemma keeps_create sid : keeps (create_state lim sid).
Proof.
  unfold create_state.
  repeat first [apply keeps_bind; [|intros ?] | apply keeps_set_new | apply keeps_touch
               | apply keeps_evict].
Qed.

Lemma sound_activate st ob om rule :
  validate_config cfg = Ok tt → enabled cfg = true →
  is_empty ob = false → is_empty om = false →
  find_matching_rule cfg ob om = Some rule →
  sound_state (activate (turn_count cfg) ob om (to_backend rule) (to_model rule) st).
Proof.
  intros Hcfg He Hb Hm Hr. destruct (validate_config_ok cfg Hcfg He) as [Ht Hrules].
  destruct (Hrules rule) as [H1 H2]; [by eapply find_matching_rule_In|].
  unfold sound_state, validate_state. simpl. rewrite Hb Hm H1 H2 /=.
  split_and!; [lia|lia|naive_solver].
Qed.

Lemma sound_consume st : sound_state st → sound_state (consume_cool_down st).2.
Proof.
  unfold consume_cool_down. destruct (cool_down_active st) eqn:Hc; [|done].
  apply sound_same; simpl; congruence.
Qed.

Lemma sound_mark st : sound_state st → sound_state (mark_first_turn_complete st).
Proof. by apply sound_same. Qed.
End sequences.

#[export] Hint Resolve keeps_ret keeps_gets keeps_on_metrics keeps_bump keeps_touch keeps_set_new
  keeps_evict keeps_create keeps_on_state sound_mark sound_consume sound_decrement
  sound_deactivate : proxy.

(** A method, call by call and branch by branch. *)
Ltac kstep :=
  repeat first
    [ solve [eauto with proxy]
    | apply keeps_bind; [|intros ?]
    | case_match ].

Section invariant.
Context (lim : limits) (cfg : ReplacementConfig) (iter_set : gset str → list str).
Context (Hcfg : validate_config cfg = Ok tt) (Hen : enabled cfg = true).
Set Default Proof Using "Type*".

Lemma keeps_should_replace sid h ob om draw :
  keeps cfg (should_replace lim cfg sid h ob om draw).
Proof using. unfold should_replace, decide_replacement, roll. kstep. Qed.

Lemma keeps_effective reg sid ob om : keeps cfg (get_effective_backend_model reg sid ob om).
Proof using. unfold get_effective_backend_model. kstep. Qed.

Lemma keeps_activate sid ob om :
  is_empty ob = false → is_empty om = false →
  keeps cfg (activate_replacement lim cfg sid ob om).
Proof.
  intros Hb Hm. unfold activate_replacement.
  destruct (find_matching_rule cfg ob om) as [rule|] eqn:Hr; [|kstep].
  kstep. apply keeps_on_state. intros. by apply sound_activate.
Qed.

Lemma keeps_complete_turn sid : keeps cfg (complete_turn sid).
Proof using. unfold complete_turn. kstep. Qed.

Lemma keeps_get_state sid : keeps cfg (get_state lim sid).
Proof using. unfold get_state. kstep. Qed.

Lemma keeps_disable sid : keeps cfg (disable_for_session lim iter_set sid).
Proof using.
  unfold disable_for_session. apply keeps_bind; [by intros s|]. intros _.
  apply keeps_bind; [intros s Hs; unfold modify; simpl; by case_match|]. intros _.
  apply keeps_on_state. intros st Hst. case_match; eauto with proxy.
Qed.

Lemma keeps_cleanup sid : keeps cfg (cleanup_session sid).
Proof using.
  intros s Hs. unfold cleanup_session, modify. simpl.
  destruct (od_get sid (session_states s)) as [st|] eqn:Hst.
  - apply (sound_perm cfg s _ [(sid, st)] _ Hs).
    rewrite Permutation_app_comm. by apply od_pop_perm.
  - rewrite od_pop_None //.
Qed.

Lemma run_op_sound s o : op_ok o → sound cfg s → sound cfg (run_op lim cfg iter_set s o).
Proof.
  intros Ho. destruct o; simpl;
    [ apply keeps_should_replace | apply keeps_effective | apply keeps_activate; apply Ho
    | apply keeps_complete_turn | apply keeps_get_state | apply keeps_disable
    | apply keeps_cleanup ].
Qed.
End invariant.

(** no sequence of calls corrupts a session.  From a new, enabled service,
    after any calls in any order (raising ones included), every session state
    passes [_validate_state], its counter is between 0 and [turn_count], and it
    is never both active and cooling down; so the repair branch of [get_state]
    never runs. *)
Theorem states_never_corrupt lim cfg iter_set registered s0 ops sid st :
  enabled cfg = true → new_service registered cfg = Ok s0 → Forall op_ok ops →
  od_get sid (session_states (foldl (run_op lim cfg iter_set) s0 ops)) = Some st →
  validate_state st = true ∧ (0 <= turns_remaining st <= turn_count cfg)%Z ∧
  ¬ (active st = true ∧ cool_down_active st = true).
Proof.
  intros He Hnew Hops Hst. unfold new_service in Hnew.
  apply bind_Ok_inv in Hnew as ([] & Hcfg & Hnew). rewrite He in Hnew.
  destruct (validate_config_ok cfg Hcfg He) as [Ht _].
  assert (sound cfg s0) as Hs0.
  { destruct registered as [bs|]; [|done].
    apply bind_Ok_inv in Hnew as (? & _ & [= <-]). split; constructor. }
  assert (sound cfg (foldl (run_op lim cfg iter_set) s0 ops)) as Hs.
  { clear Hst Hnew. revert s0 Hs0. induction Hops as [|o ops Ho Hops IH]; intros s0 Hs0; [done|].
    simpl. apply IH, run_op_sound; done. }
  destruct (sound_get cfg _ _ _ Hs Hst) as (Hv & Hle & Hc). split_and!; try done; [|lia].
  unfold validate_state in Hv. destruct (active st); bool_hyps; lia.
Qed.

(** When every place is taken by an active session, creating a state loses it. *)
Lemma create_full lim s sid :
  od_get sid (session_states s) = None →
  max_session_states lim ≤ count_active (session_states s) →
  ∃ s', create_state lim sid s = (Ok tt, s') ∧ od_get sid (session_states s') = None ∧
    count_active (session_states s') = count_active (session_states s) ∧ sid ∉ disabled_sessions s'.
Proof.
  intros Hn Hfull. rewrite create_state_run //.
  unfold evict_oldest_sessions_if_needed, modify. cbn [session_states set_states disabled_sessions].
  pose proof (evict_loop_drops lim (length (session_states s ++ [(sid, new_state)]))
                (session_states s) (sid, new_state) [] (disabled_sessions s)) as Hgone.
  destruct (evict_loop_perm lim (length (session_states s ++ [(sid, new_state)]))
    (session_states s ++ [(sid, new_state)]) (disabled_sessions s)) as (rm & Hp & Hrm & Hdis).
  destruct (evict_loop _ _ _) as [d dis]. eexists. split; [done|]. cbn in *.
  assert (od_get sid d = None) as Hnone.
  { destruct (od_get sid d) as [st|] eqn:Hst; [|done]. exfalso.
    apply od_get_Some_elem in Hst. assert ((sid, st) ∈ session_states s ++ [(sid, new_state)]) as Hin.
    { rewrite Hp. set_solver. }
    apply od_get_None in Hn. apply elem_of_app in Hin as [Hin|Hin%list_elem_of_singleton].
    - apply Hn, list_elem_of_fmap. by exists (sid, st).
    - injection Hin as ->. revert Hst. apply Hgone; [done| |set_solver|simpl; lia|].
      + intros Hin. apply Hn, list_elem_of_fmap. by exists (sid, new_state).
      + rewrite length_app /=. lia. }
  split_and!; [done| |].
  - assert (∀ l, Forall (λ p, active p.2 = false) l → count_active l = 0) as Hzero.
    { induction 1 as [|p l Hx _ IH]; [done|]. by rewrite count_active_cons Hx IH. }
    assert (∀ a b, count_active (a ++ b) = count_active a + count_active b) as Happ.
    { intros a b. unfold count_active. by rewrite filter_app length_app. }
    assert (count_active (session_states s ++ [(sid, new_state)]) = count_active (d ++ rm)) as Heq.
    { unfold count_active. by rewrite Hp. }
    rewrite !Happ (Hzero rm Hrm) (Hzero [_]) in Heq; [by constructor|]. rewrite !Nat.add_0_r in Heq. by rewrite Heq.
  - rewrite Hdis. assert ((sid, new_state) ∈ rm) as Hin.
    2: { apply not_elem_of_difference. right. apply elem_of_list_to_set, list_elem_of_fmap. by exists (sid, new_state). }
    assert ((sid, new_state) ∈ d ++ rm) as [Hd|?]%elem_of_app by (rewrite -Hp; set_solver); [|done].
    apply od_get_None in Hnone. destruct Hnone. apply list_elem_of_fmap. by exists (sid, new_state).
Qed.

(** with every place taken by an active session, the first request of a new
    session raises [KeyError].  The entry just created is the only inactive one:
    the eviction removes it, and [move_to_end] no longer finds it. *)
Theorem full_house_key_error lim cfg s sid header ob om draw :
  enabled cfg = true → sid ∉ disabled_sessions s → header_opts_out header = false →
  oauth_guard cfg ob = false → od_get sid (session_states s) = None →
  max_session_states lim ≤ count_active (session_states s) →
  (should_replace lim cfg sid header ob om draw s).1 = Err (KeyError sid).
Proof.
  intros He Hd Hh Ho Hn Hfull. unfold should_replace. rewrite He /=.
  destruct (create_full lim s sid Hn Hfull) as (s' & Hc & Hgone & _).
  unfold mbind at 1, stm_bind, gets. rewrite bool_decide_eq_false_2 // Hh Ho.
  unfold mbind, stm_bind. rewrite Hn Hc. unfold mret, stm_ret.
  unfold touch, od_move_to_end. by rewrite Hgone.
Qed.

(** A new session that finds every place taken: its requests go unreplaced, unless
    they get as far as the roll of the dice. *)
Lemma full_turn lim cfg s sid rq :
  ¬ has_room lim s sid →
  (request_turn lim cfg sid rq s).1 =
  if has_names rq && negb (rq_auxiliary rq) && negb (qv_suppresses rq) && enabled cfg &&
     negb (header_opts_out (rq_header rq)) && negb (oauth_guard cfg (Some (rq_backend rq)))
  then Err (KeyError sid) else Ok (not_replaced rq false).
Proof.
  intros Hroom. assert (od_get sid (session_states s) = None) as Hn.
  { destruct (od_get sid (session_states s)) eqn:E; [|done]. exfalso. apply Hroom. left. by rewrite E. }
  assert (max_session_states lim ≤ count_active (session_states s)) as Hfull.
  { apply Nat.nlt_ge. intros ?. apply Hroom. by right. }
  destruct (create_full lim s sid Hn Hfull) as (s1 & Hc & Hgone & Hcount & Hdis).
  assert (∀ s, od_get sid (session_states s) = None →
    (finish_turn sid rq (not_replaced rq false) s).1 = Ok tt) as Hfinish.
  { intros s0 H0. unfold finish_turn, complete_turn, gets, when. simpl.
    destruct (rq_auxiliary rq); simpl; [done|]. unfold mbind, stm_bind. by rewrite H0. }
  assert (∀ s', od_get sid (session_states s') = None →
    ((finish_turn sid rq (not_replaced rq false) ≫= λ _, mret (not_replaced rq false)) s').1 =
      Ok (not_replaced rq false)) as Hend.
  { intros s' H'. specialize (Hfinish s' H'). unfold mbind, stm_bind.
    destruct (finish_turn sid rq _ s') as [[[]|e] s2]; simpl in Hfinish; [done|discriminate]. }
  unfold request_turn, apply_replacement. fold (has_names rq).
  destruct (has_names rq && negb (rq_auxiliary rq)) eqn:Hnames; simpl; [|by apply Hend].
  assert (get_state lim sid s = (Ok new_state, s1)) as Hget.
  { unfold get_state, mbind, stm_bind, gets. by rewrite Hn Hc. }
  destruct (qv_suppresses rq) eqn:Hqv; simpl.
  { unfold mbind at 1, stm_bind at 1. unfold mbind at 1, stm_bind at 1. rewrite Hget. by apply Hend. }
  destruct (enabled cfg && negb (header_opts_out (rq_header rq)) &&
    negb (oauth_guard cfg (Some (rq_backend rq)))) eqn:Hgate.
  - apply andb_true_iff in Hgate as [[He Hh%negb_true_iff]%andb_true_iff Ho%negb_true_iff].
    pose proof (full_house_key_error lim cfg s1 sid (rq_header rq) (Some (rq_backend rq)) (Some (rq_model rq))
      (rq_draw rq) He Hdis Hh Ho Hgone ltac:(lia)) as Hkey.
    unfold mbind, stm_bind. rewrite Hget.
    destruct (should_replace lim cfg sid _ _ _ _ s1) as [[b|e] s2]; simpl in Hkey; [discriminate|by injection Hkey as ->].
  - assert (∃ s2, should_replace lim cfg sid (rq_header rq) (Some (rq_backend rq)) (Some (rq_model rq)) (rq_draw rq) s1
      = (Ok false, s2) ∧ session_states s2 = session_states s1) as (s2 & Hno & Hsame).
    { unfold should_replace. destruct (enabled cfg); simpl in *; [|by eexists].
      unfold mbind, stm_bind, gets. rewrite bool_decide_eq_false_2 //.
      destruct (header_opts_out _); [by eexists|]. simpl in Hgate. apply negb_false_iff in Hgate.
      rewrite Hgate. by eexists. }
    unfold mbind at 1, stm_bind at 1. unfold mbind at 1, stm_bind at 1. rewrite Hget.
    unfold mbind at 1, stm_bind at 1. rewrite Hno. apply Hend. by rewrite Hsame.
Qed.

(** C8: A request implements one step of the session's phases.  In a service built by
    requests, a request of a session that is known or finds a place not taken by an
    active session is routed as [spec_turn] says, the session moves to the phase
    [spec_turn] says, and any other session keeps its phase, or restarts when it was
    inactive and had to make room.  A session opts out before its replacement only: an
    active phase serves the request whatever the [X-Disable-Replacement] header says
    ([opt_out_header_ignored]).  A new session that finds all places taken by active ones
    gets the original model, or [KeyError] when the request comes to the dice. *)
Theorem request_turn_refines lim cfg s sid rq :
  validate_config cfg = Ok tt → good_service cfg s →
  (has_room lim s sid →
   let spec := spec_turn cfg (gate_open cfg s sid rq) rq (phase_of s sid) in
   ∃ s', request_turn lim cfg sid rq s = (Ok spec.1, s') ∧ good_service cfg s' ∧
     phase_of s' sid = spec.2 ∧
     ∀ k, k ≠ sid → phase_of s' k = phase_of s k ∨
       (is_active (phase_of s k) = false ∧ phase_of s' k = Fresh)) ∧
  (¬ has_room lim s sid →
   (request_turn lim cfg sid rq s).1 =
   if has_names rq && negb (rq_auxiliary rq) && negb (qv_suppresses rq) && enabled cfg &&
      negb (header_opts_out (rq_header rq)) && negb (oauth_guard cfg (Some (rq_backend rq)))
   then Err (KeyError sid) else Ok (not_replaced rq false)).
Proof. intros. split; [intros; by apply request_turn_sim|apply full_turn]. Qed.

(** ** Witnesses *)

Definition wit_config : ReplacementConfig :=
  {| enabled := true; probability := 1 # 2;
     replacement_rules := [Build_ReplacementRule "gpt" "anthropic" "claude"];
     backend_model := ""; turn_count := 2; allow_oauth_auto_replacement := false |}.

Definition wit_request (header : option str) : request :=
  {| rq_backend := "openai"; rq_model := "gpt-4"; rq_auxiliary := false; rq_header := header;
     rq_tool_followup := false; rq_qv_enabled := false; rq_qv_frequency := 10;
     rq_qv_turns_scaled := 0; rq_draw := 1 # 4;
     rq_registered := Some ["openai"; "anthropic"] |}.

Definition wit_service (d : list (str * ReplacementState)) : service :=
  {| session_states := d; disabled_sessions := ∅; metrics := new_metrics;
     probability_log_counter := 0 |}.

Definition wit_idle : ReplacementState := mark_first_turn_complete new_state.
Definition wit_active : ReplacementState :=
  activate 2 "openai" "gpt-4" "anthropic" "claude" wit_idle.

Lemma wit_good d :
  Forall (λ p, p.2 = wit_idle ∨ p.2 = wit_active) d → od_ok d →
  good_service wit_config (wit_service d).
Proof.
  intros Hd Hok. split; [done|]. intros sid st Hst%od_get_Some_elem.
  rewrite Forall_forall in Hd. destruct (Hd _ Hst) as [Heq|Heq]; simpl in Heq; subst st;
    unfold good_state; simpl; split_and!; try done; lia.
Qed.

Lemma request_turn_refines_witness :
  let s := wit_service [("s1", wit_idle)] in
  ∃ s', request_turn module_limits wit_config "s1" (wit_request None) s
    = (Ok {| rt_effective := ("anthropic", "claude"); rt_replacement := true;
             rt_skip_complete := false |}, s') ∧
    phase_of s' "s1" = Active 1 ("anthropic", "claude").
Proof.
  destruct (request_turn_refines module_limits wit_config (wit_service [("s1", wit_idle)]) "s1"
              (wit_request None)) as [H _].
  - reflexivity.
  - apply wit_good; [by repeat constructor; left|apply NoDup_singleton].
  - destruct H as (s' & Hrun & _ & Hph & _); [left; by eexists|]. exists s'. rewrite Hrun Hph. split; vm_compute; reflexivity.
Defined.

Lemma replacement_window_witness :
  let s := wit_service [("s1", wit_idle)] in
  ∃ outs s', serve module_limits wit_config "s1" [wit_request None; wit_request (Some "True")] s
    = (Ok outs, s') ∧ length outs = 2 ∧ phase_of s' "s1" = CoolDown.
Proof.
  destruct (replacement_window module_limits wit_config "s1" (wit_service [("s1", wit_idle)])
              (wit_request None) [wit_request (Some "True")] ("anthropic", "claude"))
    as (outs & s' & Hrun & Hlen & _ & Hph & _);
    [reflexivity|apply wit_good; [by repeat constructor; left|apply NoDup_singleton]
    |vm_compute; reflexivity..| | |].
  - repeat constructor; vm_compute; reflexivity.
  - reflexivity.
  - exists outs, s'. split; [exact Hrun|split; [exact Hlen|exact Hph]].
Defined.

Lemma opt_out_header_ignored_witness :
  let s := wit_service [("s1", wit_active)] in
  ∃ s', request_turn module_limits wit_config "s1" (wit_request (Some "true")) s
    = (Ok {| rt_effective := ("anthropic", "claude"); rt_replacement := true;
             rt_skip_complete := false |}, s').
Proof.
  apply (opt_out_header_ignored module_limits wit_config "s1" _ _ 2 ("anthropic", "claude"));
    [reflexivity|apply wit_good; [by repeat constructor; right|apply NoDup_singleton]
    |reflexivity| |vm_compute; reflexivity].
  repeat constructor; vm_compute; reflexivity.
Defined.

Lemma states_never_corrupt_witness :
  validate_state (decrement_turn (activate 2 "openai" "gpt-4" "anthropic" "claude" wit_idle))
    = true.
Proof.
  apply (states_never_corrupt module_limits wit_config elements (Some ["anthropic"])
    (wit_service [])
    [OpShouldReplace "s1" None (Some "openai") (Some "gpt-4") 0;
     OpActivate "s1" "openai" "gpt-4"; OpCompleteTurn "s1"] "s1").
  - reflexivity.
  - reflexivity.
  - by repeat constructor.
  - vm_compute. reflexivity.
Defined.

Lemma full_house_key_error_witness :
  (should_replace {| max_session_states := 1; max_disabled_sessions := 1 |} wit_config "s2" None
     (Some "openai") (Some "gpt-4") 0 (wit_service [("s1", wit_active)])).1
  = Err (KeyError "s2").
Proof.
  apply full_house_key_error; try reflexivity. apply not_elem_of_empty.
Defined.
