(* ===== verification/LoopText.v ===== *)
(** * Text of the loop detectors

    The detectors of [src/src/loop_detection/] work on response text character
    by character: they slice it, hash windows of it and look for markdown
    fences.  Here a [str] is the list of its code points, so positions and
    slices are those of lists and nothing depends on the range of the
    characters.  The file holds the slices, the string methods and the regular
    expression classes the detectors use. *)

From S2P Require Import Prelude.
From stdpp Require Import options.

Definition text : Type := list N.

(** A literal of the source as text. *)
Definition lit (s : string) : text := Ascii.N_of_ascii <$> String.list_ascii_of_string s.

(** [s[a:b]] for [0 <= a <= b]. *)
Definition slice (s : text) (a b : nat) : text := take (b - a) (drop a s).

(** [s[-n:]] for [n > 0]. *)
Definition suffix {A} (n : nat) (s : list A) : list A := drop (length s - n) s.

(** [w * k] *)
Fixpoint repeat_text (w : text) (k : nat) : text :=
  match k with
  | 0 => []
  | S k => w ++ repeat_text w k
  end.

(** [c.isspace()], which is also what the class [\s] matches. *)
Definition isspace (c : N) : bool :=
  ((9 <=? c) && (c <=? 13) || (28 <=? c) && (c <=? 32) || (c =? 133) || (c =? 160)
   || (c =? 5760) || (8192 <=? c) && (c <=? 8202) || (c =? 8232) || (c =? 8233)
   || (c =? 8239) || (c =? 8287) || (c =? 12288))%N.

Fixpoint lstrip (s : text) : text :=
  match s with
  | [] => []
  | c :: r => if isspace c then lstrip r else s
  end.

(** [s.strip()] *)
Definition strip_text (s : text) : text := reverse (lstrip (reverse (lstrip s))).

Definition backtick : N := 96.

(** [s.count("```")]: occurrences that do not overlap, from the left. *)
Fixpoint count_fences (s : text) : nat :=
  match s with
  | [] => 0
  | a :: r =>
      match r with
      | b :: c :: r' =>
          if bool_decide (a = backtick) && bool_decide (b = backtick)
             && bool_decide (c = backtick)
          then S (count_fences r')
          else count_fences r
      | _ => 0
      end
  end.

(** ** Slices *)

Lemma length_slice s a b : a ≤ b → b ≤ length s → length (slice s a b) = b - a.
Proof. intros. unfold slice. rewrite length_take length_drop. lia. Qed.

Lemma slice_app_l s s' a b : b ≤ length s → slice (s ++ s') a b = slice s a b.
Proof.
  intros. unfold slice. destruct (decide (a ≤ b)).
  - rewrite drop_app_le; [lia|]. rewrite take_app_le // length_drop. lia.
  - by replace (b - a) with 0 by lia.
Qed.

Lemma slice_app_r s s' a b :
  slice (s ++ s') (length s + a) (length s + b) = slice s' a b.
Proof.
  unfold slice. rewrite drop_app_ge; [lia|].
  replace (length s + b - (length s + a)) with (b - a) by lia.
  by replace (length s + a - length s) with a by lia.
Qed.

Lemma slice_drop s k a b : slice (drop k s) a b = slice s (k + a) (k + b).
Proof. unfold slice. rewrite drop_drop. by replace (k + b - (k + a)) with (b - a) by lia. Qed.

(** A window of one more character, from the left and from the right. *)
Lemma slice_cons s a b c :
  s !! a = Some c → a < b → slice s a b = c :: slice s (S a) b.
Proof.
  intros Hc Hab. unfold slice.
  rewrite (drop_S _ c) //. by replace (b - a) with (S (b - S a)) by lia.
Qed.

Lemma slice_snoc s a b c :
  s !! b = Some c → a ≤ b → slice s a (S b) = slice s a b ++ [c].
Proof.
  intros Hc Hab. unfold slice. replace (S b - a) with (S (b - a)) by lia.
  erewrite take_S_r; [done|]. rewrite lookup_drop -Hc. f_equal. lia.
Qed.

Lemma length_repeat_text w k : length (repeat_text w k) = k * length w.
Proof. induction k as [|k IH]; simpl; [done|]. rewrite length_app. lia. Qed.

Lemma repeat_text_add w k k' : repeat_text w (k + k') = repeat_text w k ++ repeat_text w k'.
Proof. induction k as [|k IH]; simpl; [done|]. by rewrite IH assoc_L. Qed.

(** Every aligned window of [w * k] is [w]. *)
Lemma slice_repeat_text w k i :
  i < k → slice (repeat_text w k) (i * length w) (i * length w + length w) = w.
Proof.
  intros Hi. replace k with (i + S (k - S i)) by lia. rewrite repeat_text_add.
  rewrite -(length_repeat_text w i).
  pose proof (slice_app_r (repeat_text w i) (repeat_text w (S (k - S i))) 0 (length w)) as H.
  rewrite Nat.add_0_r in H. rewrite H /= slice_app_l //.
  unfold slice. by rewrite Nat.sub_0_r take_ge.
Qed.

Lemma length_suffix {A} n (s : list A) : length (suffix n s) = Nat.min n (length s).
Proof. unfold suffix. rewrite length_drop. lia. Qed.

Lemma suffix_all {A} n (s : list A) : length s ≤ n → suffix n s = s.
Proof. intros. unfold suffix. by replace (length s - n) with 0 by lia. Qed.

(** Only the last [n] characters of what came before matter. *)
Lemma suffix_app_suffix {A} n (s s' : list A) : suffix n (suffix n s ++ s') = suffix n (s ++ s').
Proof.
  destruct (decide (length s ≤ n)); [by rewrite (suffix_all n s)|].
  rewrite -{2}(take_drop (length s - n) s) -/(suffix n s) -assoc_L.
  set (u := suffix n s ++ s'). unfold suffix at 2.
  rewrite drop_app_ge !length_app length_take; subst u.
  { rewrite length_suffix. lia. }
  unfold suffix at 1. f_equal. rewrite !length_app length_suffix. lia.
Qed.

Lemma suffix_idem {A} n (s : list A) : suffix n (suffix n s) = suffix n s.
Proof. apply suffix_all. rewrite length_suffix. lia. Qed.

Lemma suffix_app_r {A} n (s s' : list A) : n ≤ length s' → suffix n (s ++ s') = suffix n s'.
Proof.
  intros. unfold suffix. rewrite length_app drop_app_ge; [lia|]. f_equal. lia.
Qed.

Lemma last_suffix_snoc {A} n (l : list A) x : 1 ≤ n → last (suffix n (l ++ [x])) = Some x.
Proof.
  intros. unfold suffix. rewrite length_app drop_app_le /=; [lia|]. apply last_snoc.
Qed.

(** ** Events

    [LoopDetectionEvent] of [event.py] and [LoopDetectionResult] of
    [loop_detector_interface.py]; the entries of [details] are fields. *)

Record LoopDetectionEvent : Type := mk_LoopDetectionEvent {
  event_pattern : text;
  event_pattern_length : nat;
  repetition_count : nat;
  total_length : nat;
  confidence : Q;
  buffer_content : text;
  timestamp : Q
}.

Record LoopDetectionResult : Type := mk_LoopDetectionResult {
  has_loop : bool;
  result_pattern : option text;
  result_repetitions : option nat;
  detail_pattern_length : option nat;
  detail_total_repeated_chars : option nat;
  detail_detection_method : option string
}.

(** [LoopDetectionResult(has_loop=False)] *)
Definition no_loop : LoopDetectionResult := mk_LoopDetectionResult false None None None None None.
