(* ===== verification/RollingHash.v ===== *)
(** * The long pattern detector

    [RollingHashTracker] of [src/src/loop_detection/hybrid_detector.py]: it
    collects streamed content, and from time to time scans the last
    [max_history] characters for a substring of [min_pattern_length] to
    [max_pattern_length] characters that occurs [min_repetitions] times without
    overlap.  A scan groups all windows of one length by a Rabin-Karp hash and
    verifies each group on the text. *)

From S2P Require Import Prelude PyDict LoopText.
From stdpp Require Import options.

(** What the detectors can raise. *)
Inductive py_error : Type := ZeroDivisionError.

Definition HASH_BASE : Z := 31.
Definition HASH_MOD : Z := 2 ^ 32 - 1.
Definition MIN_LONG_PATTERN_LENGTH : nat := 60.
Definition MAX_LONG_PATTERN_LENGTH : nat := 500.
Definition LONG_PATTERN_MIN_REPETITIONS : nat := 3.
Definition MAX_ROLLING_HISTORY : nat := 2000.

Record LongPatternMatch : Type := mk_LongPatternMatch {
  pattern : text;
  repetitions : nat
}.

Record RollingHashTracker : Type := mk_RollingHashTracker {
  min_pattern_length : nat;
  max_pattern_length : nat;
  min_repetitions : nat;
  max_history : nat;
  _content_chunks : list text;
  _content_total_len : nat;
  content : text;
  pattern_candidates : list (Z * list (nat * list nat));
  _last_check_length : nat;
  _powers : list Z
}.

(** The loop of [__init__] that precomputes the powers of the base. *)
Definition powers_upto (n : nat) : list Z :=
  foldl (λ ps _, ps ++ [(default 0 (last ps) * HASH_BASE) `mod` HASH_MOD])%Z [1%Z] (seq 1 n).

Definition tracker_init (min_len max_len min_rep max_hist : nat) : RollingHashTracker :=
  mk_RollingHashTracker min_len max_len min_rep max_hist [] 0 [] [] 0 (powers_upto max_len).

(** [_powers[pattern_length - 1]]; index [-1] is the last power. *)
Definition power_at (t : RollingHashTracker) (pattern_length : nat) : Z :=
  default 0%Z
    (match pattern_length with
     | 0 => last (_powers t)
     | S l => _powers t !! l
     end).

(** ** The scan for one pattern length *)

(** Taking in one character, and rolling the window by one. *)
Definition hash_push (h : Z) (c : N) : Z := ((h * HASH_BASE + Z.of_N c) `mod` HASH_MOD)%Z.

Definition hash_roll (power h : Z) (old_char new_char : N) : Z :=
  hash_push ((h - Z.of_N old_char * power) `mod` HASH_MOD)%Z new_char.

(** [hash_positions[h].append(i)], with the list created when it is missing. *)
Definition add_position (h : Z) (i : nat) (d : list (Z * list nat)) : list (Z * list nat) :=
  od_set h (default [] (od_get h d) ++ [i]) d.

Definition hash_positions (t : RollingHashTracker) (pattern_length : nat)
    : list (Z * list nat) :=
  let s := content t in
  let h0 := foldl hash_push 0%Z (take pattern_length s) in
  (foldl (λ '(h, d) i,
      let h' := hash_roll (power_at t pattern_length) h
                  (s !!! (i - 1)) (s !!! (i + pattern_length - 1)) in
      (h', add_position h' i d))
    (h0, [(h0, [0])]) (seq 1 (length s - pattern_length))).2.

(** One turn of the filtering loop of [_verify_pattern_match]. *)
Definition verify_step (s reference_pattern : text) (pattern_length : nat)
    (distinct_positions : list nat) (pos : nat) : list nat :=
  if length s <? pos + pattern_length then distinct_positions
  else if negb (bool_decide (slice s pos (pos + pattern_length) = reference_pattern))
  then distinct_positions
  else if pos <? default 0 (last distinct_positions) + pattern_length
  then distinct_positions
  else distinct_positions ++ [pos].

Definition _verify_pattern_match (t : RollingHashTracker) (positions : list nat)
    (pattern_length : nat) : option (list nat) :=
  match positions with
  | [] => None
  | p0 :: rest =>
      if length positions <? min_repetitions t then None
      else
        let s := content t in
        let reference_pattern := slice s p0 (p0 + pattern_length) in
        let distinct_positions :=
          foldl (verify_step s reference_pattern pattern_length) [p0] rest in
        if length distinct_positions <? min_repetitions t then None
        else if p0 + pattern_length * length distinct_positions * 2
                <? default 0 (last distinct_positions)
        then None
        else Some distinct_positions
  end.

(** The first group of positions that verifies. *)
Fixpoint first_verified (t : RollingHashTracker) (pattern_length : nat)
    (groups : list (list nat)) : option LongPatternMatch :=
  match groups with
  | [] => None
  | positions :: groups' =>
      match _verify_pattern_match t positions pattern_length with
      | Some filtered_positions =>
          let p0 := default 0 (head filtered_positions) in
          Some (mk_LongPatternMatch (slice (content t) p0 (p0 + pattern_length))
                  (length filtered_positions))
      | None => first_verified t pattern_length groups'
      end
  end.

Definition _check_pattern_length (t : RollingHashTracker) (pattern_length : nat)
    : option LongPatternMatch :=
  if length (content t) <? pattern_length * min_repetitions t then None
  else first_verified t pattern_length (hash_positions t pattern_length).*2.

(** ** Adding content *)

Definition _compute_check_interval (t : RollingHashTracker) (content_length : nat) : nat :=
  let small_buffer_limit := min_pattern_length t * min_repetitions t * 2 in
  if content_length <=? small_buffer_limit then min_pattern_length t
  else
    let dynamic_interval := Nat.max (min_pattern_length t * 2) (content_length / 3) in
    let max_interval := Nat.max (min_pattern_length t * 2) (max_history t / 2) in
    Nat.min dynamic_interval max_interval.

Definition _should_run_long_detection (t : RollingHashTracker) (content_length : nat) : bool :=
  if _last_check_length t =? 0 then true
  else _compute_check_interval t content_length + _last_check_length t <=? content_length.

(** Assignments to the fields that change. *)
Definition set_stream (t : RollingHashTracker) (chunks : list text) (total : nat)
    (s : text) (last_check : nat) : RollingHashTracker :=
  mk_RollingHashTracker (min_pattern_length t) (max_pattern_length t) (min_repetitions t)
    (max_history t) chunks total s (pattern_candidates t) last_check (_powers t).

Definition _materialize_content (t : RollingHashTracker) : RollingHashTracker :=
  match _content_chunks t with
  | [] => t
  | chunks =>
      let s := content t ++ mjoin chunks in
      set_stream t [] (length s) s (_last_check_length t)
  end.

Definition _adjust_positions_after_truncation (t : RollingHashTracker) : RollingHashTracker :=
  mk_RollingHashTracker (min_pattern_length t) (max_pattern_length t) (min_repetitions t)
    (max_history t) (_content_chunks t) (_content_total_len t) (content t) []
    (_last_check_length t) (_powers t).

(** [if len(self.content) > self.max_history: ...] *)
Definition truncate_content (t : RollingHashTracker) : RollingHashTracker :=
  if length (content t) <=? max_history t then t
  else
    let truncate_amount := length (content t) - max_history t in
    let s := drop truncate_amount (content t) in
    let t := _adjust_positions_after_truncation
               (set_stream t (_content_chunks t) (length s) s (_last_check_length t)) in
    set_stream t (_content_chunks t) (_content_total_len t) (content t)
      (_last_check_length t - truncate_amount).

(** [range(hi, lo - 1, -1)] *)
Definition range_down (hi lo : nat) : list nat := reverse (seq lo (S hi - lo)).

Fixpoint first_pattern (t : RollingHashTracker) (lengths : list nat) : option LongPatternMatch :=
  match lengths with
  | [] => None
  | l :: lengths' =>
      match _check_pattern_length t l with
      | Some m => Some m
      | None => first_pattern t lengths'
      end
  end.

(** The loop over the pattern lengths; the division by [min_repetitions] is
    where a tracker configured with [0] raises. *)
Definition scan (t : RollingHashTracker) : res py_error (option LongPatternMatch) :=
  if min_repetitions t =? 0 then Err ZeroDivisionError
  else Ok (first_pattern t
        (range_down (Nat.min (max_pattern_length t) (length (content t) / min_repetitions t))
           (min_pattern_length t))).

Definition add_content (new_content : text)
    : stm RollingHashTracker py_error (option LongPatternMatch) := λ t,
  match new_content with
  | [] => (Ok None, t)
  | _ =>
      let t := set_stream t (_content_chunks t ++ [new_content])
                 (_content_total_len t + length new_content) (content t)
                 (_last_check_length t) in
      if _content_total_len t <? min_pattern_length t * min_repetitions t then (Ok None, t)
      else if negb (_should_run_long_detection t (_content_total_len t)) then (Ok None, t)
      else
        let t := truncate_content (_materialize_content t) in
        let t := set_stream t (_content_chunks t) (_content_total_len t) (content t)
                   (length (content t)) in
        (scan t, t)
  end.

Definition tracker_reset (t : RollingHashTracker) : RollingHashTracker :=
  mk_RollingHashTracker (min_pattern_length t) (max_pattern_length t) (min_repetitions t)
    (max_history t) [] 0 [] [] 0 (_powers t).

(** ** The rolling hash is the hash of the window

    [poly] is the polynomial a window stands for, without reduction. *)

Definition poly (w : text) : Z := foldl (λ h c, h * HASH_BASE + Z.of_N c)%Z 0%Z w.

Definition window (s : text) (pattern_length i : nat) : text := slice s i (i + pattern_length).

Definition window_hash (s : text) (pattern_length i : nat) : Z :=
  (poly (window s pattern_length i) `mod` HASH_MOD)%Z.

Lemma HASH_MOD_pos : (0 < HASH_MOD)%Z.
Proof. done. Qed.

Lemma foldl_hash_push w (h : Z) :
  foldl hash_push (h `mod` HASH_MOD)%Z w
  = (foldl (λ h c, h * HASH_BASE + Z.of_N c)%Z h w `mod` HASH_MOD)%Z.
Proof.
  revert h. induction w as [|c w IH]; intros h; simpl; [done|].
  rewrite -IH. f_equal. unfold hash_push.
  by rewrite -Z.add_mod_idemp_l // Z.mul_mod_idemp_l // Z.add_mod_idemp_l.
Qed.

Lemma poly_foldl w (h : Z) :
  foldl (λ h c, h * HASH_BASE + Z.of_N c)%Z h w
  = (h * HASH_BASE ^ Z.of_nat (length w) + poly w)%Z.
Proof.
  unfold poly. revert h. induction w as [|c w IH]; intros h; [simpl; lia|].
  cbn [foldl length]. rewrite IH (IH (0 * HASH_BASE + Z.of_N c)%Z).
  rewrite Nat2Z.inj_succ Z.pow_succ_r; [lia|]. nia.
Qed.

Lemma poly_snoc w c : poly (w ++ [c]) = (poly w * HASH_BASE + Z.of_N c)%Z.
Proof. unfold poly. by rewrite foldl_app. Qed.

Lemma poly_cons c w :
  poly (c :: w) = (Z.of_N c * HASH_BASE ^ Z.of_nat (length w) + poly w)%Z.
Proof. unfold poly at 1. cbn [foldl]. rewrite poly_foldl. lia. Qed.

(** The precomputed powers are the powers of the base. *)
Definition powers_ok (t : RollingHashTracker) : Prop :=
  ∀ l, l ≤ max_pattern_length t →
    _powers t !! l = Some (HASH_BASE ^ Z.of_nat l `mod` HASH_MOD)%Z.

Lemma powers_upto_spec n :
  powers_upto n = (λ l, HASH_BASE ^ Z.of_nat l `mod` HASH_MOD)%Z <$> seq 0 (S n).
Proof.
  unfold powers_upto. induction n as [|n IH]; [done|].
  rewrite seq_S foldl_app IH. cbn [foldl].
  rewrite (seq_S (S n) 0) fmap_app. f_equal. cbn [fmap list_fmap].
  f_equal. rewrite seq_S fmap_app last_snoc. cbn [default from_option].
  rewrite Z.mul_mod_idemp_l // Nat.add_0_l Nat2Z.inj_succ Z.pow_succ_r; [lia|].
  by rewrite Z.mul_comm.
Qed.

Lemma powers_ok_init a b c d : powers_ok (tracker_init a b c d).
Proof.
  intros l Hl. cbn in Hl. simpl. rewrite powers_upto_spec list_lookup_fmap.
  rewrite lookup_seq_lt; [lia|]. done.
Qed.

Lemma hash_roll_spec (p : Z) s L i old new :
  p = (HASH_BASE ^ Z.of_nat (L - 1) `mod` HASH_MOD)%Z → 1 ≤ L →
  s !! i = Some old → s !! (i + L) = Some new →
  hash_roll p (window_hash s L i) old new = window_hash s L (S i).
Proof.
  intros -> HL Hold Hnew. unfold hash_roll, hash_push, window_hash, window.
  rewrite (slice_cons _ _ _ old) //; [lia|].
  pose proof (lookup_lt_Some _ _ _ Hnew).
  replace (S i + L) with (S (i + L)) by lia.
  rewrite (slice_snoc _ (S i) (i + L) new) //; [lia|].
  rewrite poly_cons poly_snoc length_slice; [lia..|].
  replace (i + L - S i) with (L - 1) by lia.
  set (w := poly _). set (b := (HASH_BASE ^ _)%Z).
  rewrite -Z.add_mod_idemp_l // Z.mul_mod_idemp_l // Z.add_mod_idemp_l //.
  rewrite -Z.add_mod_idemp_l // -Z.mul_mod_idemp_l //.
  rewrite -(Zminus_mod_idemp_r _ (_ * _)) Z.mul_mod_idemp_r //.
  rewrite Zminus_mod_idemp_l Zminus_mod_idemp_r.
  replace (Z.of_N old * b + w - Z.of_N old * b)%Z with w by lia.
  by rewrite Z.mul_mod_idemp_l // Z.add_mod_idemp_l.
Qed.

(** ** Groups of positions *)

(** [i] is the first position whose key is [f i]. *)
Definition first_occurrence {K} `{EqDecision K} (f : nat → K) (i : nat) : Prop :=
  Forall (λ j, f j ≠ f i) (seq 0 i).

#[global] Instance first_occurrence_dec {K} `{EqDecision K} (f : nat → K) i :
  Decision (first_occurrence f i).
Proof. unfold first_occurrence. apply _. Defined.

(** The positions below [k] grouped by key, groups in order of first
    occurrence. *)
Definition same_key {K} `{EqDecision K} (f : nat → K) (k i : nat) : list nat :=
  filter (λ j, f j = f i) (seq 0 k).

Definition leaders {K} `{EqDecision K} (f : nat → K) (k : nat) : list nat :=
  filter (first_occurrence f) (seq 0 k).

Definition occurrence_groups {K} `{EqDecision K} (f : nat → K) (k : nat) : list (list nat) :=
  same_key f k <$> leaders f k.

Section groups.
Context {K : Type} `{!EqDecision K} (f : nat → K).

Lemma leaders_S k :
  leaders f (S k) = leaders f k ++ (if decide (first_occurrence f k) then [k] else []).
Proof.
  unfold leaders. by rewrite seq_S filter_app.
Qed.

Lemma same_key_S k i :
  same_key f (S k) i = same_key f k i ++ (if decide (f k = f i) then [k] else []).
Proof.
  unfold same_key. by rewrite seq_S filter_app.
Qed.

Lemma elem_of_leaders k i : i ∈ leaders f k ↔ i < k ∧ first_occurrence f i.
Proof. unfold leaders. rewrite list_elem_of_filter elem_of_seq. naive_solver lia. Qed.

Lemma elem_of_same_key k i j : j ∈ same_key f k i ↔ j < k ∧ f j = f i.
Proof. unfold same_key. rewrite list_elem_of_filter elem_of_seq. naive_solver lia. Qed.

Lemma leaders_NoDup k : NoDup (f <$> leaders f k).
Proof.
  induction k as [|k IH]; [constructor|]. rewrite leaders_S.
  case_decide as Hk; [|by rewrite app_nil_r]. rewrite fmap_app.
  apply NoDup_app. split; [done|]. split; [|apply NoDup_singleton].
  intros x (i & -> & [Hi _]%elem_of_leaders)%list_elem_of_fmap Hx%list_elem_of_singleton.
  unfold first_occurrence in Hk. rewrite Forall_forall in Hk.
  by apply (Hk i); [apply elem_of_seq; lia|].
Qed.

(** A key that is not new has a leader. *)
Lemma leaders_cover k : f k ∈ f <$> leaders f (S k).
Proof.
  induction (lt_wf k) as [k _ IH]. destruct (decide (first_occurrence f k)) as [Hk|Hk].
  - apply list_elem_of_fmap. exists k. rewrite elem_of_leaders. auto with lia.
  - unfold first_occurrence in Hk. apply not_Forall_Exists in Hk; [|apply _].
    apply Exists_exists in Hk as (j & Hj%elem_of_seq & Heq%dec_stable).
    rewrite -Heq. destruct (list_elem_of_fmap_1 _ _ _ (IH j ltac:(lia))) as (i & Hi & Hl).
    apply list_elem_of_fmap. exists i. split; [done|].
    apply elem_of_leaders in Hl as [??]. apply elem_of_leaders. split; [lia|done].
Qed.

Lemma leaders_mem k : ¬ first_occurrence f k → f k ∈ f <$> leaders f k.
Proof.
  intros Hk. pose proof (leaders_cover k) as H. rewrite leaders_S in H.
  by rewrite decide_False // app_nil_r in H.
Qed.

Lemma od_set_fmap {A} (g : nat → A) (l : list nat) h v :
  NoDup (f <$> l) → h ∈ f <$> l →
  od_set h v ((λ i, (f i, g i)) <$> l)
  = (λ i, (f i, if decide (f i = h) then v else g i)) <$> l.
Proof.
  induction l as [|i l IH]; csimpl; [set_solver|].
  intros [Hn Hd]%NoDup_cons Hin. case_decide as Hi.
  - subst h. rewrite decide_True //. f_equal. apply list_fmap_ext.
    intros j x Hx%list_elem_of_lookup_2. rewrite decide_False //.
    intros Hf. apply Hn, list_elem_of_fmap. eauto.
  - rewrite decide_False; [done|]. f_equal. apply IH; [done|].
    by apply elem_of_cons in Hin as [->|].
Qed.

Lemma od_get_fmap {A} (g : nat → A) (l : list nat) i :
  NoDup (f <$> l) → i ∈ l → od_get (f i) ((λ i, (f i, g i)) <$> l) = Some (g i).
Proof.
  intros Hn Hi. apply od_elem_get.
  - unfold od_ok. by rewrite -list_fmap_compose.
  - apply list_elem_of_fmap. eauto.
Qed.
End groups.

(** A new key opens a group, a known key extends its group. *)
Lemma add_position_new (f : nat → Z) k :
  first_occurrence f k →
  add_position (f k) k ((λ i, (f i, same_key f k i)) <$> leaders f k)
  = (λ i, (f i, same_key f (S k) i)) <$> (leaders f k ++ [k]).
Proof.
  unfold first_occurrence. rewrite Forall_forall. intros Hk.
  assert (∀ i, i < k → f i ≠ f k) as Hne by (intros; apply Hk, elem_of_seq; lia).
  assert (od_get (f k) ((λ i, (f i, same_key f k i)) <$> leaders f k) = None) as Hnone.
  { apply od_get_None. rewrite -list_fmap_compose.
    intros (i & Hi & [? _]%elem_of_leaders)%list_elem_of_fmap. by apply (Hne i). }
  unfold add_position. rewrite od_set_new // Hnone fmap_app. f_equal.
  - apply list_fmap_ext. intros j i [? _]%list_elem_of_lookup_2%elem_of_leaders.
    rewrite same_key_S decide_False ?app_nil_r //. intros ?. by apply (Hne i).
  - csimpl. do 2 f_equal. rewrite same_key_S decide_True //. cbn.
    unfold same_key. induction (seq 0 k) as [|j l IH]; [done|].
    rewrite filter_cons decide_False; [apply Hk; by left|].
    apply IH. intros. apply Hk. by right.
Qed.

Lemma add_position_old (f : nat → Z) k :
  ¬ first_occurrence f k →
  add_position (f k) k ((λ i, (f i, same_key f k i)) <$> leaders f k)
  = (λ i, (f i, same_key f (S k) i)) <$> leaders f k.
Proof.
  intros Hk. apply leaders_mem in Hk as (i0 & Hi0 & Hin)%list_elem_of_fmap.
  unfold add_position. rewrite Hi0 od_get_fmap //; [apply leaders_NoDup|].
  rewrite od_set_fmap; [apply leaders_NoDup|apply list_elem_of_fmap; eauto|].
  apply list_fmap_ext. intros j i _. rewrite same_key_S Hi0. f_equal.
  case_decide as Hc; case_decide; try congruence; [|by rewrite app_nil_r].
  cbn. f_equal. unfold same_key. by rewrite Hc.
Qed.

(** Grouping position by position yields the groups. *)
Lemma group_spec (f : nat → Z) k :
  foldl (λ d i, add_position (f i) i d) [] (seq 0 k)
  = (λ i, (f i, same_key f k i)) <$> leaders f k.
Proof.
  induction k as [|k IH]; [done|].
  rewrite seq_S foldl_app IH leaders_S. cbn [foldl]. rewrite Nat.add_0_l.
  case_decide; [by apply add_position_new|]. rewrite app_nil_r. by apply add_position_old.
Qed.

(** ** The scan of one length *)

(** The configuration and the powers are what [__init__] makes them. *)
Definition tracker_config_ok (t : RollingHashTracker) : Prop :=
  powers_ok t ∧ 1 ≤ min_pattern_length t ∧ 1 ≤ min_repetitions t.

(** The same scan on the text itself: windows grouped by their content. *)
Definition check_pattern_reference (t : RollingHashTracker) (pattern_length : nat)
    : option LongPatternMatch :=
  let s := content t in
  if length s <? pattern_length * min_repetitions t then None
  else first_verified t pattern_length
         (occurrence_groups (window s pattern_length) (S (length s - pattern_length))).

(** No two different windows of this length have the same hash. *)
Definition collision_free (s : text) (pattern_length : nat) : Prop :=
  ∀ i j, i ≤ length s - pattern_length → j ≤ length s - pattern_length →
    window_hash s pattern_length i = window_hash s pattern_length j →
    window s pattern_length i = window s pattern_length j.

#[global] Instance collision_free_dec s L : Decision (collision_free s L).
Proof.
  destruct (decide (Forall (λ i, Forall (λ j,
    window_hash s L i = window_hash s L j → window s L i = window s L j)
    (seq 0 (S (length s - L)))) (seq 0 (S (length s - L))))) as [Hall|Hall].
  - left. intros i j Hi Hj. rewrite Forall_forall in Hall. specialize (Hall i).
    rewrite Forall_forall in Hall. apply Hall; apply elem_of_seq; lia.
  - right. intros Hcf. apply Hall. apply Forall_forall. intros i Hi%elem_of_seq.
    apply Forall_forall. intros j Hj%elem_of_seq. apply Hcf; lia.
Defined.

Lemma power_at_ok t L :
  powers_ok t → 1 ≤ L ≤ max_pattern_length t →
  power_at t L = (HASH_BASE ^ Z.of_nat (L - 1) `mod` HASH_MOD)%Z.
Proof.
  intros Hp HL. unfold power_at. destruct L as [|l]; [lia|].
  rewrite (Hp l); [lia|]. cbn. by rewrite Nat.sub_0_r.
Qed.

Lemma hash_positions_prefix t L k :
  powers_ok t → 1 ≤ L ≤ max_pattern_length t → k + L ≤ length (content t) →
  let s := content t in
  let h0 := foldl hash_push 0%Z (take L s) in
  foldl (λ '(h, d) i,
      let h' := hash_roll (power_at t L) h (s !!! (i - 1)) (s !!! (i + L - 1)) in
      (h', add_position h' i d)) (h0, [(h0, [0])]) (seq 1 k)
  = (window_hash s L k,
     foldl (λ d i, add_position (window_hash s L i) i d) [] (seq 0 (S k))).
Proof.
  intros Hp HL Hk. cbn zeta. induction k as [|k IH].
  - assert (foldl hash_push 0%Z (take L (content t)) = window_hash (content t) L 0) as ->;
      [|done].
    unfold window_hash, window, slice, poly. rewrite -foldl_hash_push drop_0.
    by rewrite Nat.add_0_l Nat.sub_0_r.
  - rewrite seq_S foldl_app IH; [lia|]. rewrite (seq_S (S k)) foldl_app. cbn [foldl].
    destruct (lookup_lt_is_Some_2 (content t) k) as [old Hold]; [lia|].
    destruct (lookup_lt_is_Some_2 (content t) (k + L)) as [new Hnew]; [lia|].
    rewrite Nat.add_0_l.
    replace (1 + k - 1) with k by lia. replace (1 + k + L - 1) with (k + L) by lia.
    rewrite (list_lookup_total_correct _ _ _ Hold) (list_lookup_total_correct _ _ _ Hnew).
    by rewrite (hash_roll_spec _ _ L k old new) // ?power_at_ok //; [lia|..].
Qed.

(** The dictionary a scan builds groups every window position by the hash of
    its window. *)
Lemma hash_positions_spec t L :
  powers_ok t → 1 ≤ L ≤ max_pattern_length t → L ≤ length (content t) →
  (hash_positions t L).*2
  = occurrence_groups (window_hash (content t) L) (S (length (content t) - L)).
Proof.
  intros. unfold hash_positions. rewrite hash_positions_prefix //; [lia|].
  cbn [snd]. by rewrite group_spec -list_fmap_compose.
Qed.

Lemma occurrence_groups_ext {K K'} `{EqDecision K, EqDecision K'} (f : nat → K) (g : nat → K') k :
  (∀ i j, i < k → j < k → f i = f j ↔ g i = g j) →
  occurrence_groups f k = occurrence_groups g k.
Proof.
  intros Hfg. unfold occurrence_groups.
  assert (leaders f k = leaders g k) as ->.
  { unfold leaders. apply list_filter_ext. intros i Hi%elem_of_seq.
    unfold first_occurrence. rewrite !Forall_forall.
    split; intros Hf j Hj Heq; apply (Hf j Hj); apply elem_of_seq in Hj; apply Hfg; lia || done. }
  apply list_fmap_ext. intros _ i [Hi _]%list_elem_of_lookup_2%elem_of_leaders.
  unfold same_key. apply list_filter_ext. intros j Hj%elem_of_seq. apply Hfg; lia.
Qed.

(** Finding one group: where it came from. *)
Lemma first_verified_Some t L gs m :
  first_verified t L gs = Some m →
  ∃ g ps, g ∈ gs ∧ _verify_pattern_match t g L = Some ps ∧
    m = mk_LongPatternMatch (window (content t) L (default 0 (head ps))) (length ps).
Proof.
  induction gs as [|g gs IH]; simpl; [done|].
  destruct (_verify_pattern_match t g L) as [ps|] eqn:Hv.
  - intros [= <-]. exists g, ps. split; [by left|]. done.
  - intros (g' & ps & Hg & ?)%IH. exists g', ps. split; [by right|done].
Qed.

(** ** Verified positions *)

(** Consecutive positions are a pattern length apart: the occurrences do not
    overlap. *)
Definition apart (L : nat) (ps : list nat) : Prop :=
  ∀ i p q, ps !! i = Some p → ps !! S i = Some q → p + L ≤ q.

(** [w] stands at every position, inside the text. *)
Definition occurs_at (s w : text) (ps : list nat) : Prop :=
  Forall (λ p, p + length w ≤ length s ∧ window s (length w) p = w) ps.

Lemma apart_snoc L ps x y :
  apart L ps → last ps = Some x → x + L ≤ y → apart L (ps ++ [y]).
Proof.
  intros Ha Hl Hxy i p q Hp Hq. rewrite last_lookup in Hl.
  apply lookup_lt_Some in Hq as Hlt. rewrite length_app /= in Hlt.
  rewrite lookup_app_l in Hp; [lia|].
  destruct (decide (S i < length ps)).
  - rewrite lookup_app_l in Hq; [lia|]. by eapply Ha.
  - replace (pred (length ps)) with i in Hl by lia.
    rewrite lookup_app_r in Hq; [lia|]. replace (S i - length ps) with 0 in Hq by lia.
    simplify_eq/=. by simplify_eq.
Qed.

(** What the filtering loop keeps. *)
Definition verified (s w : text) (p0 : nat) (ds : list nat) : Prop :=
  head ds = Some p0 ∧ apart (length w) ds ∧ occurs_at s w ds.

Lemma verify_step_verified s w p0 ds pos :
  verified s w p0 ds → verified s w p0 (verify_step s w (length w) ds pos).
Proof.
  intros (Hh & Ha & Ho). unfold verify_step.
  destruct (Nat.ltb_spec (length s) (pos + length w)); [done|].
  case_bool_decide as Hw; simpl; [|done].
  destruct (last ds) as [x|] eqn:Hl.
  - change (default 0 (Some x)) with x.
    destruct (Nat.ltb_spec pos (x + length w)); [done|]. repeat split.
    + destruct ds; [done|]. done.
    + by eapply apart_snoc.
    + apply Forall_app. split; [done|]. constructor; [|constructor]. split; [lia|done].
  - apply last_None in Hl. by subst.
Qed.

Lemma verify_steps_verified s w p0 ds rest :
  verified s w p0 ds → verified s w p0 (foldl (verify_step s w (length w)) ds rest).
Proof. revert ds. induction rest; simpl; auto using verify_step_verified. Qed.

Lemma verify_pattern_match_sound t g L ps :
  _verify_pattern_match t g L = Some ps →
  (∀ p, p ∈ g → p + L ≤ length (content t)) →
  ∃ w, length w = L ∧ w = window (content t) L (default 0 (head ps)) ∧
    apart L ps ∧ occurs_at (content t) w ps ∧ min_repetitions t ≤ length ps ∧
    default 0 (last ps) ≤ default 0 (head ps) + 2 * L * length ps.
Proof.
  unfold _verify_pattern_match. destruct g as [|p0 rest]; [done|]. intros Hv Hb.
  destruct (Nat.ltb_spec (length (p0 :: rest)) (min_repetitions t)); [done|].
  set (w := slice (content t) p0 (p0 + L)) in *.
  assert (length w = L) as Hw.
  { unfold w. rewrite length_slice; [lia| |lia]. apply Hb. by left. }
  assert (verified (content t) w p0 [p0]) as Hv0.
  { repeat split; [intros i p q Hp Hq; by destruct i|].
    constructor; [|constructor]. unfold window. rewrite Hw. split; [|done].
    apply Hb. by left. }
  apply (verify_steps_verified _ _ _ _ rest) in Hv0. rewrite Hw in Hv0.
  destruct (foldl _ _ _) as [|d ds]; [by destruct Hv0|].
  destruct (Nat.ltb_spec (length (d :: ds)) (min_repetitions t)); [done|].
  destruct (Nat.ltb_spec (p0 + L * length (d :: ds) * 2) (default 0 (last (d :: ds)))); [done|].
  injection Hv as <-. destruct Hv0 as (Hh & Ha & Ho). injection Hh as ->.
  rewrite Hw in Ha. exists w. repeat split; try done. simpl in *. lia.
Qed.

(** A text of period [L]. *)
Definition periodic (L : nat) (s : text) : Prop :=
  ∀ i, i + L < length s → s !! i = s !! (i + L).

Lemma periodic_drop L s k : periodic L s → periodic L (drop k s).
Proof.
  intros Hs i. rewrite length_drop !lookup_drop. intros Hi.
  rewrite (Hs (k + i)); [lia|]. f_equal. lia.
Qed.

Lemma periodic_lookup L s i q :
  periodic L s → i + q * L < length s → s !! i = s !! (i + q * L).
Proof.
  intros Hs. induction q as [|q IH]; intros Hq; [f_equal; lia|].
  rewrite IH; [lia|]. rewrite (Hs (i + q * L)); [lia|]. f_equal. lia.
Qed.

Lemma lookup_window s L i j : j < L → window s L i !! j = s !! (i + j).
Proof. intros. unfold window, slice. rewrite lookup_take_lt; [lia|]. by rewrite lookup_drop. Qed.

Lemma length_window s L i : i + L ≤ length s → length (window s L i) = L.
Proof. intros. unfold window. rewrite length_slice; lia. Qed.

(** Every window that starts at a multiple of the period is the first one. *)
Lemma periodic_windows L s cs q :
  periodic L s → q * L + cs ≤ length s → window s cs (q * L) = window s cs 0.
Proof.
  intros Hs Hq. apply list_eq_same_length with cs; rewrite ?length_window //; [lia..|].
  intros i x y Hi. rewrite !lookup_window //.
  rewrite Nat.add_0_l (periodic_lookup L s i q) //; [lia|].
  rewrite Nat.add_comm. congruence.
Qed.

Lemma periodic_window L s q :
  periodic L s → q * L + L ≤ length s → window s L (q * L) = window s L 0.
Proof. apply periodic_windows. Qed.

Lemma last_multiples L k : last ((λ q, q * L) <$> seq 0 (S k)) = Some (k * L).
Proof. by rewrite seq_S fmap_app last_snoc. Qed.

(** On a periodic text the filtering loop keeps exactly the multiples of the
    period. *)
Lemma verify_periodic (P : nat → Prop) `{∀ x, Decision (P x)} L s m :
  1 ≤ L → periodic L s → m + L ≤ length s → (∀ q, q * L ≤ m → P (q * L)) →
  foldl (verify_step s (window s L 0) L) [0] (filter P (seq 1 m))
  = (λ q, q * L) <$> seq 0 (S (m / L)).
Proof.
  intros HL Hs. induction m as [|m IH]; intros Hm HP; [by rewrite Nat.div_0_l; [lia|]|].
  rewrite seq_S filter_app foldl_app IH; [lia|intros; apply HP; lia|].
  pose proof (Nat.div_mod m L ltac:(lia)) as Hdm.
  pose proof (Nat.mod_upper_bound m L ltac:(lia)) as Hub.
  destruct (decide (S (m `mod` L) = L)) as [Hmul|Hmul].
  - assert (S m = S (m / L) * L) as Hsm by nia.
    assert (S m / L = S (m / L)) as Hdiv by (rewrite Hsm Nat.div_mul; lia).
    rewrite filter_cons decide_True; [rewrite /= Hsm; apply HP; lia|].
    rewrite filter_nil. cbn [foldl]. unfold verify_step. rewrite last_multiples.
    change (default 0 (Some (m / L * L))) with (m / L * L).
    rewrite (proj2 (Nat.ltb_ge _ _)); [lia|].
    rewrite bool_decide_true; [rewrite (Nat.add_1_l m) Hsm; apply periodic_window; lia || done|].
    rewrite (proj2 (Nat.ltb_ge _ _)); [nia|].
    rewrite Hdiv (seq_S (S (m / L))) fmap_app. f_equal. simpl. f_equal. lia.
  - assert (S m / L = m / L) as ->.
    { symmetry. apply (Nat.div_unique _ _ _ (S (m `mod` L))); lia. }
    rewrite filter_cons filter_nil. case_decide; [|done]. cbn [foldl].
    unfold verify_step. rewrite last_multiples.
    change (default 0 (Some (m / L * L))) with (m / L * L).
    destruct (length s <? _); [done|]. case_bool_decide; [|done]. cbn [negb].
    rewrite (proj2 (Nat.ltb_lt _ _)) //. nia.
Qed.

(** The loop keeps at most the positions it was given. *)
Lemma verify_steps_length s w L ds rest :
  length (foldl (verify_step s w L) ds rest) ≤ length ds + length rest.
Proof.
  revert ds. induction rest as [|p rest IH]; intros ds; simpl; [lia|].
  etrans; [apply IH|]. unfold verify_step. repeat case_step; rewrite ?length_app /=; lia.
Qed.

(** A periodic text is recognised at its period, whatever the hashes of the
    other windows are. *)
Lemma periodic_found t L :
  tracker_config_ok t → 1 ≤ L ≤ max_pattern_length t → periodic L (content t) →
  L * min_repetitions t ≤ length (content t) →
  _check_pattern_length t L
  = Some (mk_LongPatternMatch (window (content t) L 0) (length (content t) / L)).
Proof.
  intros (Hp & _ & Hr) HL Hs Hn. set (s := content t) in *.
  assert (L ≤ length s) by nia.
  unfold _check_pattern_length. fold s. rewrite (proj2 (Nat.ltb_ge _ _)) //.
  rewrite hash_positions_spec // -/s. unfold occurrence_groups.
  set (f := window_hash s L). set (m := length s - L).
  assert (leaders f (S m) = 0 :: filter (first_occurrence f) (seq 1 m)) as ->.
  { unfold leaders. cbn [seq]. rewrite filter_cons.
    case_decide as Hc; [done|]. destruct Hc. constructor. }
  cbn [fmap list_fmap first_verified]. unfold same_key. cbn [seq].
  rewrite filter_cons. case_decide; [|done].
  assert (length s / L = S (m / L)) as Hdiv.
  { replace (length s) with (m + 1 * L) by lia. rewrite Nat.div_add; lia. }
  assert (min_repetitions t ≤ S (m / L)) as Hmin.
  { rewrite -Hdiv. apply Nat.div_le_lower_bound; lia. }
  set (P := λ j, f j = f 0).
  assert (∀ q, q * L ≤ m → P (q * L)) as HP.
  { intros q Hq. unfold P, f, window_hash. rewrite periodic_window //. lia. }
  pose proof (verify_periodic P L s m ltac:(lia) Hs ltac:(lia) HP) as Hf.
  pose proof (verify_steps_length s (window s L 0) L [0] (filter P (seq 1 m))) as Hlen.
  rewrite Hf length_fmap length_seq in Hlen.
  unfold _verify_pattern_match. fold s. fold P.
  rewrite (proj2 (Nat.ltb_ge _ _)); [simpl in *; lia|].
  change (slice s 0 (0 + L)) with (window s L 0). rewrite Hf length_fmap length_seq.
  rewrite (proj2 (Nat.ltb_ge _ _)) //.
  rewrite last_multiples. change (default 0 (Some (m / L * L))) with (m / L * L).
  rewrite (proj2 (Nat.ltb_ge _ _)); [nia|]. rewrite Hdiv.
  cbn [fmap list_fmap seq head length]. by rewrite length_fmap length_seq.
Qed.

(** ** The stream *)

(** What the tracker holds of the stream. *)
Definition held (t : RollingHashTracker) : text := content t ++ mjoin (_content_chunks t).

Definition pending (t : RollingHashTracker) : nat := length (mjoin (_content_chunks t)).

(** The state of a tracker between two calls. *)
Definition tracker_ok (t : RollingHashTracker) : Prop :=
  tracker_config_ok t ∧
  _content_total_len t = length (held t) ∧
  _last_check_length t = length (content t) ∧
  length (content t) ≤ max_history t.

(** The longest time a scan can be put off. *)
Definition max_delay (t : RollingHashTracker) : nat :=
  Nat.max (min_pattern_length t * min_repetitions t)
    (Nat.max (min_pattern_length t * 2) (max_history t / 2)).

(** The fields no call assigns. *)
Definition same_config (t t' : RollingHashTracker) : Prop :=
  min_pattern_length t' = min_pattern_length t ∧
  max_pattern_length t' = max_pattern_length t ∧
  min_repetitions t' = min_repetitions t ∧ max_history t' = max_history t ∧
  _powers t' = _powers t.

(** The two outcomes of a call: the text is put aside, or everything held is
    materialized, cut to the last [max_history] characters and scanned. *)
Inductive added (c : text) (t : RollingHashTracker) :
    res py_error (option LongPatternMatch) → RollingHashTracker → Prop :=
| added_later t' :
    held t' = held t ++ c → content t' = content t →
    pending t' = pending t + length c → pending t' < max_delay t →
    added c t (Ok None) t'
| added_scanned t' r :
    held t' = suffix (max_history t) (held t ++ c) → content t' = held t' →
    _content_chunks t' = [] → scan t' = r →
    added c t r t'.

Lemma interval_bound t n : _compute_check_interval t n ≤ max_delay t.
Proof. unfold _compute_check_interval, max_delay. case_step; lia. Qed.

Lemma mjoin_snoc {A} (l : list (list A)) x : mjoin (l ++ [x]) = mjoin l ++ x.
Proof. induction l as [|y l IH]; simpl; [by rewrite app_nil_r|]. by rewrite IH assoc_L. Qed.

Lemma suffix_drop {A} n (s : list A) : suffix n s = drop (length s - n) s.
Proof. done. Qed.

(** Materializing and cutting leaves the last [max_history] characters. *)
Lemma truncate_materialize t :
  let t' := truncate_content (_materialize_content t) in
  _content_chunks t ≠ [] →
  content t' = suffix (max_history t) (held t) ∧ _content_chunks t' = [] ∧
  _content_total_len t' = length (content t') ∧ same_config t t'.
Proof.
  intros t' Hc. unfold t', _materialize_content, held.
  destruct (_content_chunks t) as [|c cs] eqn:Heq; [done|].
  unfold truncate_content. cbn [set_stream content max_history].
  destruct (Nat.leb_spec (length (content t ++ mjoin (c :: cs))) (max_history t)).
  - cbn. by rewrite suffix_all.
  - by repeat split.
Qed.

Lemma add_content_cases c t :
  tracker_ok t → c ≠ [] →
  ∃ r t', add_content c t = (r, t') ∧ tracker_ok t' ∧ same_config t t' ∧ added c t r t'.
Proof.
  intros ((Hp & Hm & Hr) & Htot & Hlast & Hmax) Hc. unfold add_content.
  destruct c as [|x c]; [done|]. cbn zeta.
  set (t1 := set_stream t _ _ _ _).
  assert (held t1 = held t ++ x :: c) as Hheld.
  { unfold held, t1. cbn. by rewrite mjoin_snoc assoc_L. }
  assert (_content_total_len t1 = length (held t1)) as Htot1.
  { rewrite Hheld length_app. unfold t1. cbn. lia. }
  assert (length (held t1) = length (content t) + pending t1) as Hpend.
  { unfold held, pending. by rewrite length_app. }
  destruct (Nat.ltb_spec (_content_total_len t1) (min_pattern_length t1 * min_repetitions t1))
    as [Hlt|Hge];
    [|destruct (_should_run_long_detection t1 (_content_total_len t1)) eqn:Hrun; cbn [negb]].
  - exists (Ok None), t1. split; [done|]. split; [done|]. split; [done|].
    apply added_later; [done..| |rewrite Htot1 Hpend in Hlt; unfold max_delay;
      change (min_pattern_length t1 * min_repetitions t1)
        with (min_pattern_length t * min_repetitions t) in Hlt; lia].
    unfold pending. rewrite -length_app -mjoin_snoc. done.
  - destruct (truncate_materialize t1) as (Hs & Hch & Htl & Hsame).
    { unfold t1. cbn. by destruct (_content_chunks t). }
    set (t2 := truncate_content _) in *. set (t3 := set_stream t2 _ _ _ _).
    exists (scan t3), t3. split; [done|].
    assert (held t3 = content t3) as Hh3 by (unfold held, t3; cbn; by rewrite Hch app_nil_r).
    destruct Hsame as (H1 & H2 & H3 & H4 & H5).
    assert (same_config t t3) as Hsame by (repeat split; done).
    split; [|split; [done|]].
    + split; [split; [unfold powers_ok, t3; cbn; rewrite H2 H5; exact Hp|]|].
      { split; [by rewrite /t3 /= H1|by rewrite /t3 /= H3]. }
      rewrite Hh3. split; [done|]. split; [done|]. cbn. rewrite Hs length_suffix H4. cbn. lia.
    + apply added_scanned; [|by rewrite Hh3|done|done].
      rewrite Hh3. unfold t3. cbn. by rewrite Hs -Hheld.
  - exists (Ok None), t1. split; [done|]. split; [done|]. split; [done|].
    apply added_later; [done..| |].
    + unfold pending. rewrite -length_app -mjoin_snoc. done.
    + unfold _should_run_long_detection in Hrun. destruct (_ =? 0); [done|].
      apply Nat.leb_gt in Hrun. pose proof (interval_bound t1 (_content_total_len t1)) as Hi.
      change (max_delay t1) with (max_delay t) in Hi.
      change (_last_check_length t1) with (_last_check_length t) in Hrun. lia.
Qed.

Lemma tracker_ok_init a b c d : 1 ≤ a → 1 ≤ c → tracker_ok (tracker_init a b c d).
Proof.
  intros. split; [split; [apply powers_ok_init|done]|].
  repeat split; cbn; lia.
Qed.

(** ** Scans: which result *)

Lemma first_pattern_Some t ls m :
  first_pattern t ls = Some m → ∃ l, l ∈ ls ∧ _check_pattern_length t l = Some m.
Proof.
  induction ls as [|l ls IH]; simpl; [done|].
  destruct (_check_pattern_length t l) eqn:Hl.
  - intros [= ->]. exists l. split; [by left|done].
  - intros (l' & ? & ?)%IH. exists l'. split; [by right|done].
Qed.

Lemma first_pattern_found t ls l :
  l ∈ ls → is_Some (_check_pattern_length t l) → is_Some (first_pattern t ls).
Proof.
  intros Hl [m Hm]. induction Hl as [ls|l l' ls Hl IH]; simpl; [by rewrite Hm|].
  destruct (_check_pattern_length t l'); eauto.
Qed.

Lemma elem_of_range_down hi lo l : l ∈ range_down hi lo ↔ lo ≤ l ≤ hi.
Proof. unfold range_down. rewrite elem_of_reverse elem_of_seq. lia. Qed.

(** What a reported match says about a text. *)
Definition repeats_in (s : text) (m : LongPatternMatch) (ps : list nat) : Prop :=
  let L := length (pattern m) in
  length ps = repetitions m ∧ apart L ps ∧ occurs_at s (pattern m) ps ∧
  default 0 (last ps) ≤ default 0 (head ps) + 2 * L * repetitions m.

Lemma check_pattern_sound t L m :
  tracker_config_ok t → 1 ≤ L ≤ max_pattern_length t →
  _check_pattern_length t L = Some m →
  length (pattern m) = L ∧ min_repetitions t ≤ repetitions m ∧
  ∃ ps, repeats_in (content t) m ps.
Proof.
  intros (Hp & _ & Hr) HL. unfold _check_pattern_length.
  destruct (Nat.ltb_spec (length (content t)) (L * min_repetitions t)) as [|Hn]; [done|].
  rewrite hash_positions_spec //; [nia|].
  intros (g & ps & Hg & Hv & ->)%first_verified_Some.
  assert (∀ p, p ∈ g → p + L ≤ length (content t)) as Hb.
  { apply list_elem_of_fmap in Hg as (i & -> & _). intros p [? _]%elem_of_same_key. nia. }
  destruct (verify_pattern_match_sound _ _ _ _ Hv Hb) as (w & Hw & Heq & Ha & Ho & Hm & Hs).
  unfold repeats_in. cbn [pattern repetitions]. rewrite -Heq Hw.
  split; [done|]. split; [done|]. exists ps. repeat split; done.
Qed.

Lemma scan_ok t :
  tracker_config_ok t →
  ∃ o, scan t = Ok o ∧ match o with
    | None => True
    | Some m => min_pattern_length t ≤ length (pattern m) ≤ max_pattern_length t ∧
                min_repetitions t ≤ repetitions m ∧ ∃ ps, repeats_in (content t) m ps
    end.
Proof.
  intros Hc. pose proof Hc as (_ & Hm & Hr). unfold scan.
  destruct (Nat.eqb_spec (min_repetitions t) 0); [lia|]. eexists. split; [done|].
  destruct (first_pattern _ _) as [m|] eqn:Hf; [|done].
  apply first_pattern_Some in Hf as (l & Hl%elem_of_range_down & Hf).
  apply check_pattern_sound in Hf as (Hlen & Hrep & Hps); [|done|lia].
  split; [lia|done].
Qed.

(** A scan of a periodic text finds something. *)
Lemma scan_periodic t L :
  tracker_config_ok t → min_pattern_length t ≤ L ≤ max_pattern_length t →
  periodic L (content t) → L * min_repetitions t ≤ length (content t) →
  ∃ m, scan t = Ok (Some m).
Proof.
  intros Hc HL Hs Hn. pose proof Hc as (_ & Hm & Hr). unfold scan.
  destruct (Nat.eqb_spec (min_repetitions t) 0); [lia|].
  edestruct (first_pattern_found t
    (range_down (Nat.min (max_pattern_length t) (length (content t) / min_repetitions t))
       (min_pattern_length t)) L) as [m ->]; [| |by eexists].
  - apply elem_of_range_down. split; [lia|]. apply Nat.min_glb; [lia|].
    apply Nat.div_le_lower_bound; lia.
  - rewrite periodic_found //. lia.
Qed.

(** ** Feeding a stream *)

(** A consumer hands over the chunks until a match is reported. *)
Fixpoint feed (cs : list text) : stm RollingHashTracker py_error (option LongPatternMatch) :=
  match cs with
  | [] => mret None
  | c :: cs => m ← add_content c; match m with None => feed cs | Some _ => mret m end
  end.

(** Occurrences in a part of a text are occurrences in the text. *)
Lemma occurs_at_infix s1 s s2 w ps :
  occurs_at s w ps → occurs_at (s1 ++ s ++ s2) w (Nat.add (length s1) <$> ps).
Proof.
  intros Ho. apply Forall_fmap. eapply Forall_impl; [exact Ho|]. intros p [Hp Hw].
  rewrite /= !length_app. split; [lia|]. rewrite -{2}Hw. unfold window.
  rewrite -Nat.add_assoc slice_app_r slice_app_l //.
Qed.

Lemma repeats_in_infix s1 s s2 m ps :
  repeats_in s m ps → repeats_in (s1 ++ s ++ s2) m (Nat.add (length s1) <$> ps).
Proof.
  intros (Hl & Ha & Ho & Hs). repeat split.
  - by rewrite length_fmap.
  - intros i p q. rewrite !list_lookup_fmap.
    intros (p' & Hp & ->)%fmap_Some (q' & Hq & ->)%fmap_Some.
    pose proof (Ha i p' q' Hp Hq). lia.
  - by apply occurs_at_infix.
  - rewrite fmap_last. destruct ps as [|p0 ps]; [simpl; lia|].
    destruct (last (p0 :: ps)) as [x|] eqn:Hx; [simpl in *; lia|]. by apply last_None in Hx.
Qed.

(** The invariant of a stream: what is held is the end of what was fed. *)
Definition streamed (t0 t : RollingHashTracker) (s : text) : Prop :=
  tracker_ok t ∧ same_config t0 t ∧ (pending t = 0 ∨ pending t < max_delay t) ∧
  suffix (max_history t) (held t) = suffix (max_history t) s ∧
  ∃ k, held t = drop k s.

Lemma same_config_trans t1 t2 t3 : same_config t1 t2 → same_config t2 t3 → same_config t1 t3.
Proof. unfold same_config. intros (?&?&?&?&?) (?&?&?&?&?). repeat split; congruence. Qed.

Lemma same_config_delay t1 t2 : same_config t1 t2 → max_delay t2 = max_delay t1.
Proof. intros (H1 & H2 & H3 & H4 & _). unfold max_delay. by rewrite H1 H3 H4. Qed.

Lemma suffix_is_drop {A} n (s : list A) k : ∃ k', suffix n (drop k s) = drop k' s.
Proof. unfold suffix. rewrite drop_drop. eauto. Qed.

Lemma drop_app_infix {A} k (s c : list A) : ∃ k', drop k s ++ c = drop k' (s ++ c).
Proof.
  destruct (decide (k ≤ length s)).
  - exists k. by rewrite drop_app_le.
  - exists (length s). rewrite drop_ge; [lia|]. rewrite drop_app_ge // Nat.sub_diag.
    by rewrite drop_0.
Qed.

Lemma added_streamed t0 t s c r t' :
  streamed t0 t s → tracker_ok t' → same_config t t' → added c t r t' →
  streamed t0 t' (s ++ c).
Proof.
  intros (_ & Hcfg & _ & Hsuf & k & Hk) Hok' Hcfg' Hadd.
  split; [done|]. split; [by eapply same_config_trans|]. rewrite (same_config_delay t t') //.
  destruct Hcfg' as (_ & _ & _ & -> & _).
  assert (suffix (max_history t) (held t ++ c) = suffix (max_history t) (s ++ c)) as Hsuf'.
  { by rewrite -suffix_app_suffix Hsuf suffix_app_suffix. }
  destruct (drop_app_infix k s c) as [k' Hk'].
  destruct Hadd as [t' Hh Hc Hp Hd|t' r Hh Hc Hch Hs].
  - split; [by right|]. rewrite Hh. split; [done|]. exists k'. by rewrite Hk.
  - split; [left; unfold pending; by rewrite Hch|]. rewrite Hh suffix_idem.
    split; [done|]. rewrite Hk Hk'. apply suffix_is_drop.
Qed.

Lemma add_content_streamed t0 t s c :
  streamed t0 t s →
  ∃ r t', add_content c t = (r, t') ∧ streamed t0 t' (s ++ c) ∧ (c = [] ∧ r = Ok None ∧ t' = t
    ∨ added c t r t').
Proof.
  intros Hst. destruct (decide (c = [])) as [->|Hc].
  { exists (Ok None), t. rewrite app_nil_r. auto 10. }
  destruct (add_content_cases c t) as (r & t' & Ha & Hok & Hcfg & Hadd); [apply Hst|done|].
  exists r, t'. split; [done|]. split; [by eapply added_streamed|by right].
Qed.

Lemma streamed_init a b c d :
  1 ≤ a → 1 ≤ c → streamed (tracker_init a b c d) (tracker_init a b c d) [].
Proof.
  intros. split; [by apply tracker_ok_init|]. split; [done|]. split; [by left|].
  split; [done|]. by exists 0.
Qed.

Lemma feed_sound t0 cs t s m t' :
  streamed t0 t s → feed cs t = (Ok (Some m), t') →
  min_pattern_length t0 ≤ length (pattern m) ≤ max_pattern_length t0 ∧
  min_repetitions t0 ≤ repetitions m ∧ ∃ ps, repeats_in (s ++ mjoin cs) m ps.
Proof.
  revert t s. induction cs as [|c cs IH]; intros t s Hst; [done|].
  destruct (add_content_streamed t0 t s c Hst) as (r & t1 & Ha & Hst' & Hadd).
  simpl. unfold mbind, stm_bind. rewrite Ha.
  destruct r as [[m'|]|e]; [| |done].
  - intros [= -> ->]. destruct Hadd as [(?&?&?)|Hadd]; [done|].
    inversion Hadd as [|? ? Hh Hc Hch Hs]; subst.
    destruct Hst' as ((Hok & _) & (H1 & H2 & H3 & _) & _ & _ & k & Hk).
    destruct (scan_ok t' Hok) as (o & Ho & Hm). rewrite Hs in Ho. injection Ho as <-.
    destruct Hm as (Hlen & Hrep & ps & Hps). rewrite H1 H2 in Hlen. rewrite H3 in Hrep.
    split; [done|]. split; [done|]. rewrite Hc Hk in Hps.
    eexists. rewrite assoc_L -(take_drop k (s ++ c)) -assoc_L. by apply repeats_in_infix.
  - intros Hf. rewrite assoc_L. by eapply IH.
Qed.

Lemma add_content_no_raise t0 t s c e t' :
  streamed t0 t s → add_content c t ≠ (Err e, t').
Proof.
  intros Hst Ha. destruct (add_content_streamed t0 t s c Hst) as (r & t1 & Ha' & Hst' & Hadd).
  rewrite Ha in Ha'. injection Ha' as <- <-.
  destruct Hadd as [(?&?&?)|Hadd]; [done|].
  destruct Hst' as ((Hok & _) & _). destruct (scan_ok _ Hok) as (o & Ho & _).
  inversion Hadd; simplify_eq. congruence.
Qed.

Lemma periodic_app_l L s s' : periodic L (s ++ s') → periodic L s.
Proof.
  intros Hs i Hi. specialize (Hs i). rewrite length_app !lookup_app_l in Hs; lia || apply Hs; lia.
Qed.

(** A scan at a moment when the last [max_history] characters are periodic
    reports a match. *)
Lemma scanned_periodic t0 t s p c r t' L :
  streamed t0 t (s ++ p) → tracker_ok t' → same_config t t' → added c t r t' →
  pending t' = 0 ∨ r ≠ Ok None →
  min_pattern_length t0 ≤ L ≤ max_pattern_length t0 →
  L * min_repetitions t0 ≤ max_history t0 → max_history t0 ≤ length (p ++ c) →
  periodic L (p ++ c) → c ≠ [] → ∃ m, r = Ok (Some m).
Proof.
  intros (_ & (H1 & H2 & H3 & H4 & _) & _ & Hsuf & _) (Hok & _) (G1 & G2 & G3 & G4 & _)
    Hadd Hr HL HLh Hlen Hper Hne.
  destruct Hadd as [t' Hh Hc Hp Hd|t' r Hh Hc Hch Hs].
  { destruct Hr as [Hr|]; [|done]. destruct c; [done|]. simpl in *. lia. }
  assert (content t' = suffix (max_history t) (p ++ c)) as Hcont.
  { rewrite Hc Hh -suffix_app_suffix Hsuf suffix_app_suffix -assoc_L suffix_app_r //. lia. }
  destruct (scan_periodic t' L) as [m Hm].
  - done.
  - lia.
  - rewrite Hcont suffix_drop. by apply periodic_drop.
  - rewrite Hcont length_suffix G3 H3. lia.
  - exists m. congruence.
Qed.

Lemma feed_periodic t0 L cs t s p :
  streamed t0 t (s ++ p) → length p < max_history t0 + pending t →
  min_pattern_length t0 ≤ L ≤ max_pattern_length t0 →
  L * min_repetitions t0 ≤ max_history t0 → periodic L (p ++ mjoin cs) →
  (∃ m t', feed cs t = (Ok (Some m), t'))
  ∨ length (p ++ mjoin cs) < max_history t0 + max_delay t0.
Proof.
  revert t p. induction cs as [|c cs IH]; intros t p Hst Hlen HL HLh Hper.
  { right. rewrite app_nil_r. destruct Hst as ((Hok & _) & Hc & Hp & _).
    rewrite (same_config_delay _ _ Hc) in Hp.
    enough (0 < max_delay t0) by (destruct Hp; lia).
    destruct Hok as (_ & ? & ?), Hc as (? & _ & ? & _). unfold max_delay. lia. }
  simpl in Hper |- *. unfold mbind, stm_bind. rewrite assoc_L in Hper |- *.
  destruct (decide (c = [])) as [->|Hne].
  { rewrite app_nil_r in Hper |- *. cbn [add_content]. by apply IH. }
  destruct (add_content_cases c t) as (r & t1 & Ha & Hok & Hcfg & Hadd); [apply Hst|done|].
  assert (streamed t0 t1 (s ++ (p ++ c))) as Hst'.
  { rewrite assoc_L. by eapply added_streamed. }
  rewrite Ha. destruct r as [[m|]|e].
  - left. by exists m, t1.
  - apply IH; [done| |done..].
    destruct (decide (length (p ++ c) < max_history t0 + pending t1)) as [|Hge]; [done|].
    exfalso. assert (pending t1 = 0 ∨ pending t1 = pending t + length c) as [Hz|Hz].
    { inversion Hadd as [|? ? ? ? Hch]; [by right|]. left. unfold pending. by rewrite Hch. }
    + edestruct (scanned_periodic t0 t s p c (Ok None) t1 L) as [m Hm];
        [done..|by left|done|done|lia|by eapply periodic_app_l|done|done].
    + rewrite length_app in Hge. lia.
  - exfalso. destruct (scan_ok t1 (proj1 Hok)) as (o & Ho & _).
    inversion Hadd; simplify_eq. congruence.
Qed.

Lemma feed_none_streamed t0 cs t s t' :
  streamed t0 t s → feed cs t = (Ok None, t') → streamed t0 t' (s ++ mjoin cs).
Proof.
  revert t s. induction cs as [|c cs IH]; intros t s Hst; simpl.
  - intros [= <-]. by rewrite app_nil_r.
  - destruct (add_content_streamed t0 t s c Hst) as (r & t1 & Ha & Hst' & _).
    unfold mbind, stm_bind. rewrite Ha assoc_L. destruct r as [[m'|]|e]; [done| |done]. by apply IH.
Qed.

(** ** Properties *)

(** C10: The scan for one pattern length agrees with the scan on the text.  With
    no hash collision among the windows of that length, the optimised routine,
    which rolls one hash through the content and verifies groups of equal
    hashes, returns exactly what grouping the windows by their text returns:
    the same pattern and the same number of repetitions, or nothing. *)
Theorem rolling_scan_exact (t : RollingHashTracker) (L : nat) :
  tracker_config_ok t → 1 ≤ L ≤ max_pattern_length t →
  collision_free (content t) L →
  _check_pattern_length t L = check_pattern_reference t L.
Proof.
  intros (Hp & _ & Hr) HL Hcf. unfold _check_pattern_length, check_pattern_reference.
  destruct (Nat.ltb_spec (length (content t)) (L * min_repetitions t)); [done|].
  rewrite hash_positions_spec //; [nia|]. f_equal. apply occurrence_groups_ext.
  intros i j Hi Hj. split; [apply Hcf; lia|]. unfold window_hash. by intros ->.
Qed.

(** A tracker that holds [abcabcabcab]. *)
Definition sample_tracker : RollingHashTracker :=
  (add_content (lit "abcabcabcab") (tracker_init 3 5 3 30)).2.

Lemma rolling_scan_exact_witness :
  _check_pattern_length sample_tracker 3 = check_pattern_reference sample_tracker 3 ∧
  check_pattern_reference sample_tracker 3 = Some (mk_LongPatternMatch (lit "abc") 3).
Proof.
  split; [|reflexivity]. apply rolling_scan_exact.
  - split; [apply (powers_ok_init 3 5 3 30)|]. cbn. lia.
  - cbn. lia.
  - apply (bool_decide_unpack _). vm_compute. exact I.
Defined.

(** Every long loop that is reported is there.  Whatever text is streamed
    into a new tracker, in whatever chunks, a reported pattern has an admissible
    length and stands in the streamed text at as many positions as reported, at
    least [min_repetitions]; the occurrences do not overlap and span at most
    twice their total length.  Hash collisions cannot cause a false report. *)
Theorem long_match_sound (min_len max_len min_rep max_hist : nat) (cs : list text)
    (m : LongPatternMatch) (t' : RollingHashTracker) :
  1 ≤ min_len → 1 ≤ min_rep →
  feed cs (tracker_init min_len max_len min_rep max_hist) = (Ok (Some m), t') →
  min_len ≤ length (pattern m) ≤ max_len ∧ min_rep ≤ repetitions m ∧
  ∃ ps, repeats_in (mjoin cs) m ps.
Proof.
  intros Hm Hr Hf.
  by apply (feed_sound _ _ _ [] _ _ (streamed_init min_len max_len min_rep max_hist Hm Hr)) in Hf.
Qed.

Lemma long_match_sound_witness :
  ∃ ps, repeats_in (lit "xabcabcabcay") (mk_LongPatternMatch (lit "abc") 3) ps.
Proof.
  apply (long_match_sound 3 5 3 30 [lit "xabc"; lit "abcab"; lit "cay"] _
    (feed [lit "xabc"; lit "abcab"; lit "cay"] (tracker_init 3 5 3 30)).2); [lia|lia|].
  reflexivity.
Defined.

(** A stream that falls into a long loop is caught.  After any stream [cs]
    without a report, once the chunks [ps] that follow spell a text of period
    [L] that is [max_history] and the longest scan delay long, one of the calls
    reports a match: truncation, throttling, chunk boundaries and hash
    collisions cannot hide the loop, provided [min_repetitions] periods fit the
    history. *)
Theorem periodic_stream_caught (min_len max_len min_rep max_hist L : nat)
    (cs ps : list text) (t : RollingHashTracker) :
  1 ≤ min_len ≤ L → L ≤ max_len → 1 ≤ min_rep → L * min_rep ≤ max_hist →
  feed cs (tracker_init min_len max_len min_rep max_hist) = (Ok None, t) →
  periodic L (mjoin ps) →
  max_hist + Nat.max (min_len * min_rep) (Nat.max (min_len * 2) (max_hist / 2))
    ≤ length (mjoin ps) →
  ∃ m t', feed ps t = (Ok (Some m), t').
Proof.
  intros HL HL' Hr HLh Hcs Hper Hlen.
  set (t0 := tracker_init min_len max_len min_rep max_hist) in *.
  assert (streamed t0 t (mjoin cs ++ [])) as Hst.
  { rewrite app_nil_r. apply (feed_none_streamed t0 cs t0 []) in Hcs; [done|].
    apply streamed_init; lia. }
  destruct (feed_periodic t0 L ps t (mjoin cs) [] Hst) as [|Hlt];
    [cbn; nia|cbn; lia|done|done|done|].
  unfold max_delay in Hlt. cbn [app] in Hlt.
  cbn [t0 tracker_init max_history min_pattern_length min_repetitions] in Hlt. lia.
Qed.

Lemma periodic_stream_caught_witness :
  ∃ m t', feed [lit "abcdabcdabcdabcd"; lit "abcdabcdabcdabcdab"]
            (feed [lit "hello"] (tracker_init 3 5 3 20)).2 = (Ok (Some m), t').
Proof.
  apply (periodic_stream_caught 3 5 3 20 4 [lit "hello"]); [lia|lia|lia|lia|reflexivity| |].
  - intros i Hi. cbn in Hi. do 34 (destruct i as [|i]; [try reflexivity; lia|]). lia.
  - vm_compute. lia.
Defined.

(** The memory of the tracker is bounded by its configuration.  However
    much is streamed into it, and whatever it reports on the way, it holds at
    most [max_history] characters of content and fewer waiting characters than
    the longest scan delay; its length counter is exact. *)
Theorem tracker_memory_bounded (min_len max_len min_rep max_hist : nat) (cs : list text) :
  1 ≤ min_len → 1 ≤ min_rep →
  let t := foldl (λ t c, (add_content c t).2)
             (tracker_init min_len max_len min_rep max_hist) cs in
  length (content t) ≤ max_hist ∧
  pending t ≤ Nat.max (min_len * min_rep) (Nat.max (min_len * 2) (max_hist / 2)) ∧
  _content_total_len t = length (content t) + pending t.
Proof.
  intros Hm Hr t. set (t0 := tracker_init _ _ _ _) in t.
  assert (∃ s, streamed t0 t s) as [s ((_ & Htot & _ & Hmax) & Hc & Hp & _)].
  { subst t. assert (∃ s, streamed t0 t0 s) as Hst by (eexists; by apply streamed_init).
    revert Hst. generalize t0 at 2 4. induction cs as [|c cs IH]; intros t Hst; [done|].
    apply IH. destruct Hst as [s Hst].
    destruct (add_content_streamed _ _ _ c Hst) as (r & t' & Ha & Hst' & _).
    rewrite Ha. eauto. }
  rewrite Htot /held length_app. rewrite (same_config_delay _ _ Hc) in Hp.
  destruct Hc as (_ & _ & _ & Hh & _). rewrite Hh in Hmax.
  split; [done|]. split; [|done]. change (pending t ≤ max_delay t0). lia.
Qed.

Lemma tracker_memory_bounded_witness :
  length (content (foldl (λ t c, (add_content c t).2) (tracker_init 3 5 3 20)
    [lit "abcdabcdabcdabcd"; lit "abcdabcdabcdabcdab"])) ≤ 20.
Proof. apply (tracker_memory_bounded 3 5 3 20); lia. Defined.
