(* ===== verification/TokenWindow.v ===== *)
(** * The short pattern detector

    [TokenWindowLoopDetector] of
    [src/src/loop_detection/token_window_loop_detector.py].  It keeps the last
    [max_history_length] characters of the stream and moves a window of
    [content_chunk_size] characters over them, one character at a time; for
    every hash it records the positions of the window.  A loop is a window met
    [content_loop_threshold] times at a small average distance.  Code fences and
    divider lines reset the tracking, code blocks are not analysed.

    The built-in [hash] of strings and the letters of the Unicode database
    ([str.isalpha]) are parameters.  The distances are compared as exact
    rationals. *)

From S2P Require Import Prelude LoopText RollingHash.
From Stdlib Require Import Sorted.
From stdpp Require Import options.

Definition CONTENT_LOOP_THRESHOLD : nat := 10.
Definition CONTENT_CHUNK_SIZE : nat := 50.
Definition MAX_HISTORY_LENGTH : nat := 1000.

Record TokenWindowLoopDetector : Type := mk_TokenWindowLoopDetector {
  content_loop_threshold : nat;
  content_chunk_size : nat;
  max_history_length : nat;
  stream_content_history : text;
  content_stats : gmap Z (list nat);
  last_content_index : nat;
  loop_detected : bool;
  in_code_block : bool;
  _is_enabled : bool;
  _loop_events : list LoopDetectionEvent
}.

Definition token_window_init (threshold chunk_size max_len : nat) : TokenWindowLoopDetector :=
  mk_TokenWindowLoopDetector threshold chunk_size max_len [] ∅ 0 false false true [].

(** [x or default] *)
Definition or_default (x d : nat) : nat := if x =? 0 then d else x.

Definition threshold_of (d : TokenWindowLoopDetector) : nat :=
  or_default (content_loop_threshold d) CONTENT_LOOP_THRESHOLD.

Definition max_len_of (d : TokenWindowLoopDetector) : nat :=
  or_default (max_history_length d) MAX_HISTORY_LENGTH.

(** Assignments. *)
Definition set_tracking (d : TokenWindowLoopDetector) (h : text) (st : gmap Z (list nat))
    (i : nat) : TokenWindowLoopDetector :=
  mk_TokenWindowLoopDetector (content_loop_threshold d) (content_chunk_size d)
    (max_history_length d) h st i (loop_detected d) (in_code_block d) (_is_enabled d)
    (_loop_events d).

Definition set_flags (d : TokenWindowLoopDetector) (detected code enabled : bool)
    (events : list LoopDetectionEvent) : TokenWindowLoopDetector :=
  mk_TokenWindowLoopDetector (content_loop_threshold d) (content_chunk_size d)
    (max_history_length d) (stream_content_history d) (content_stats d)
    (last_content_index d) detected code enabled events.

(** [_DIVIDER_PATTERN.match(content.strip())] *)
Definition divider_char (c : N) : bool :=
  ((c =? 43) || (c =? 45) || (c =? 95) || (c =? 61) || (c =? 42)
   || (9472 <=? c) && (c <=? 9599))%N.

Definition is_divider (s : text) : bool :=
  match strip_text s with
  | [] => false
  | s' => forallb divider_char s'
  end.

Definition _reset_content_tracking (d : TokenWindowLoopDetector) (reset_history : bool)
    : TokenWindowLoopDetector :=
  set_tracking d (if reset_history then [] else stream_content_history d) ∅ 0.

(** The indices that survive the removal of [n] leading characters. *)
Definition adjust_indices (n : nat) (indices : list nat) : option (list nat) :=
  match (λ i, i - n) <$> filter (λ i, n ≤ i) indices with
  | [] => None
  | adjusted => Some adjusted
  end.

Definition _truncate_and_update (d : TokenWindowLoopDetector) : TokenWindowLoopDetector :=
  let h := stream_content_history d in
  if length h <=? max_len_of d then d
  else
    let truncation_amount := length h - max_len_of d in
    set_tracking d (drop truncation_amount h)
      (omap (adjust_indices truncation_amount) (content_stats d))
      (last_content_index d - truncation_amount).

Definition _has_more_chunks_to_process (d : TokenWindowLoopDetector) : bool :=
  last_content_index d + content_chunk_size d <=? length (stream_content_history d).

Definition _is_actual_content_match (d : TokenWindowLoopDetector) (current_chunk : text)
    (original_index : nat) : bool :=
  bool_decide (window (stream_content_history d) (content_chunk_size d) original_index
               = current_chunk).

Section detector.
(** [str.isalpha] of one character and the built-in [hash] of a string. *)
Context (isalpha : N → bool) (hash : text → Z).

(** The counting loop, with its early exit. *)
Fixpoint count_letters (threshold n : nat) (chunk : text) : nat :=
  match chunk with
  | [] => n
  | c :: chunk' =>
      if isalpha c
      then if threshold <=? S n then S n else count_letters threshold (S n) chunk'
      else count_letters threshold n chunk'
  end.

Definition _is_loop_detected_for_chunk (chunk : text) (hash_val : Z)
    : stm TokenWindowLoopDetector py_error bool := λ d,
  let half := length chunk / 2 in
  if count_letters half 0 chunk <? half then (Ok false, d)
  else
    match content_stats d !! hash_val with
    | None =>
        (Ok false, set_tracking d (stream_content_history d)
                     (<[hash_val := [last_content_index d]]> (content_stats d))
                     (last_content_index d))
    | Some existing_indices =>
        if negb (_is_actual_content_match d chunk (default 0 (head existing_indices)))
        then (Ok false, d)
        else
          let existing_indices := existing_indices ++ [last_content_index d] in
          let d := set_tracking d (stream_content_history d)
                     (<[hash_val := existing_indices]> (content_stats d))
                     (last_content_index d) in
          let threshold := threshold_of d in
          if length existing_indices <? threshold then (Ok false, d)
          else
            let recent_indices := suffix threshold existing_indices in
            if threshold =? 1 then (Err ZeroDivisionError, d)
            else
              (Ok (2 * default 0 (last recent_indices)
                   <=? 3 * content_chunk_size d * (threshold - 1)
                       + 2 * default 0 (head recent_indices)), d)
    end.

(** The [while] loop; [fuel] bounds its turns. *)
Fixpoint analyze_loop (fuel : nat) : stm TokenWindowLoopDetector py_error bool := λ d,
  match fuel with
  | 0 => (Ok false, d)
  | S fuel =>
      if _has_more_chunks_to_process d then
        let current_chunk :=
          window (stream_content_history d) (content_chunk_size d) (last_content_index d) in
        match _is_loop_detected_for_chunk current_chunk (hash current_chunk) d with
        | (Ok true, d) => (Ok true, d)
        | (Ok false, d) =>
            analyze_loop fuel (set_tracking d (stream_content_history d) (content_stats d)
                                 (S (last_content_index d)))
        | (Err e, d) => (Err e, d)
        end
      else (Ok false, d)
  end.

(** Each turn moves the index by one, and it stays below the end. *)
Definition _analyze_content_chunks_for_loop : stm TokenWindowLoopDetector py_error bool := λ d,
  analyze_loop (S (length (stream_content_history d)) - last_content_index d) d.

Definition _check_content_loop (content : text) : stm TokenWindowLoopDetector py_error bool := λ d,
  let num_fences := count_fences content in
  let divider := is_divider content in
  let d :=
    if (0 <? num_fences) || divider
    then let d := _reset_content_tracking d true in
         set_flags d false (in_code_block d) (_is_enabled d) (_loop_events d)
    else d in
  let was_in_code_block := in_code_block d in
  let d :=
    if 0 <? num_fences
    then set_flags d (loop_detected d)
           (if Nat.odd num_fences then negb (in_code_block d) else in_code_block d)
           (_is_enabled d) (_loop_events d)
    else d in
  if was_in_code_block || in_code_block d || divider then (Ok false, d)
  else
    let d := set_tracking d (stream_content_history d ++ content) (content_stats d)
               (last_content_index d) in
    _analyze_content_chunks_for_loop (_truncate_and_update d).

(** [now] is the clock reading of the event. *)
Definition process_chunk (now : Q) (chunk : text)
    : stm TokenWindowLoopDetector py_error (option LoopDetectionEvent) := λ d,
  if loop_detected d || negb (_is_enabled d) || bool_decide (chunk = []) then (Ok None, d)
  else
    match _check_content_loop chunk d with
    | (Err e, d) => (Err e, d)
    | (Ok detected, d) =>
        let d := set_flags d detected (in_code_block d) (_is_enabled d) (_loop_events d) in
        if detected then
          let threshold := threshold_of d in
          let event := mk_LoopDetectionEvent (lit "Repetitive content pattern detected")
            (content_chunk_size d) threshold (content_chunk_size d * threshold) 1
            (suffix 200 (stream_content_history d)) now in
          (Ok (Some event),
           set_flags d detected (in_code_block d) (_is_enabled d) (_loop_events d ++ [event]))
        else (Ok None, d)
    end.

Definition reset (d : TokenWindowLoopDetector) : TokenWindowLoopDetector :=
  set_flags (_reset_content_tracking d true) false false (_is_enabled d) [].

Definition enable (d : TokenWindowLoopDetector) : TokenWindowLoopDetector :=
  set_flags d (loop_detected d) (in_code_block d) true (_loop_events d).

Definition disable (d : TokenWindowLoopDetector) : TokenWindowLoopDetector :=
  set_flags d (loop_detected d) (in_code_block d) false (_loop_events d).

(** The entries of a new configuration: a missing entry is [None], an entry
    that is [None] or, in a dictionary, not an integer is [Some None]. *)
Record config_update : Type := mk_config_update {
  new_chunk_size : option nat;
  new_threshold : option (option nat);
  new_max_length : option (option nat)
}.

Definition update_config (u : config_update) (d : TokenWindowLoopDetector)
    : TokenWindowLoopDetector :=
  let entry (e : option (option nat)) (old fallback : nat) :=
    match e with
    | None => old
    | Some None => fallback
    | Some (Some n) => n
    end in
  reset (mk_TokenWindowLoopDetector
    (entry (new_threshold u) (content_loop_threshold d) CONTENT_LOOP_THRESHOLD)
    (default (content_chunk_size d) (new_chunk_size u))
    (entry (new_max_length u) (max_history_length d) MAX_HISTORY_LENGTH)
    (stream_content_history d) (content_stats d) (last_content_index d) (loop_detected d)
    (in_code_block d) (_is_enabled d) (_loop_events d)).

(** [LoopDetectorInternalState] *)
Record LoopDetectorInternalState : Type := mk_LoopDetectorInternalState {
  saved_history : text;
  saved_stats : gmap Z (list nat);
  saved_index : nat;
  saved_detected : bool;
  saved_code_block : bool
}.

Definition _save_state (d : TokenWindowLoopDetector) : LoopDetectorInternalState :=
  mk_LoopDetectorInternalState (stream_content_history d) (content_stats d)
    (last_content_index d) (loop_detected d) (in_code_block d).

Definition _restore_state (s : LoopDetectorInternalState) (d : TokenWindowLoopDetector)
    : TokenWindowLoopDetector :=
  set_flags (set_tracking d (saved_history s) (saved_stats s) (saved_index s))
    (saved_detected s) (saved_code_block s) (_is_enabled d) (_loop_events d).

(** There is no [try]: a raise leaves the detector as the check left it. *)
Definition check_for_loops (now : Q) (content : text)
    : stm TokenWindowLoopDetector py_error LoopDetectionResult := λ d,
  if bool_decide (content = []) then (Ok no_loop, d)
  else
    let original_state := _save_state d in
    match process_chunk now content (reset d) with
    | (Err e, d) => (Err e, d)
    | (Ok event, d) =>
        let d := _restore_state original_state d in
        match event with
        | None => (Ok no_loop, d)
        | Some ev =>
            (Ok (mk_LoopDetectionResult true (Some (event_pattern ev))
                   (Some (repetition_count ev)) (Some (content_chunk_size d))
                   (Some (total_length ev)) None), d)
        end
    end.

(** ** The letter filter *)

Definition letters (w : text) : nat := length (filter (λ c, isalpha c = true) w).

(** At least half of the characters, rounded down, are letters. *)
Definition rich (w : text) : Prop := length w / 2 ≤ letters w.

Lemma count_letters_spec threshold n w :
  n < threshold →
  (count_letters threshold n w <? threshold) = (n + letters w <? threshold).
Proof.
  unfold letters. revert n. induction w as [|c w IH]; intros n Hn; simpl; [by rewrite Nat.add_0_r|].
  rewrite filter_cons. destruct (isalpha c) eqn:Hc; simpl.
  - destruct (Nat.leb_spec threshold (S n)).
    + rewrite (proj2 (Nat.ltb_ge _ _)) // (proj2 (Nat.ltb_ge _ _)) //. lia.
    + rewrite IH; [lia|]. by rewrite -Nat.add_succ_comm.
  - by apply IH.
Qed.

(** Stopping early does not change the verdict. *)
Lemma letter_filter w :
  (count_letters (length w / 2) 0 w <? length w / 2) = negb (bool_decide (rich w)).
Proof.
  unfold rich. destruct (length w / 2) as [|n] eqn:Hn.
  - rewrite bool_decide_true; [lia|done].
  - rewrite count_letters_spec; [lia|]. rewrite Nat.add_0_l.
    case_bool_decide; simpl; [apply Nat.ltb_ge|apply Nat.ltb_lt]; lia.
Qed.

(** ** What the recorded positions mean *)

Definition increasing (l : list nat) : Prop := StronglySorted lt l.

(** The positions of one hash, below [n]: one rich window in increasing
    positions of the text. *)
Definition bucket_ok (s : text) (cs n : nat) (l : list nat) : Prop :=
  increasing l ∧
  ∃ w, rich w ∧ l ≠ [] ∧ Forall (λ i, i < n ∧ i + cs ≤ length s ∧ window s cs i = w) l.

Definition stats_ok (d : TokenWindowLoopDetector) : Prop :=
  ∀ hv l, content_stats d !! hv = Some l →
    bucket_ok (stream_content_history d) (content_chunk_size d) (last_content_index d) l.

(** A loop in a text: [threshold] positions of one window, close together. *)
Definition loop_in (s : text) (cs threshold : nat) : Prop :=
  ∃ w ps, length w = cs ∧ rich w ∧ length ps = threshold ∧ increasing ps ∧ occurs_at s w ps ∧
    2 * default 0 (last ps) ≤ 3 * cs * (threshold - 1) + 2 * default 0 (head ps).

Lemma increasing_snoc l n : increasing l → Forall (λ i, i < n) l → increasing (l ++ [n]).
Proof.
  unfold increasing. induction 1 as [|x l Hl IH Hx]; simpl; [repeat constructor|].
  intros [Hn Hf]%Forall_cons. constructor; [auto|]. apply Forall_app. split; [done|].
  repeat constructor. done.
Qed.

Lemma increasing_suffix l n : increasing l → increasing (suffix n l).
Proof.
  intros Hl. unfold suffix. generalize (length l - n). intros k. revert k.
  induction Hl as [|x l Hl IH Hx]; intros [|k]; simpl; try (by constructor). apply IH.
Qed.

Lemma bucket_ok_weaken s cs n n' l : n ≤ n' → bucket_ok s cs n l → bucket_ok s cs n' l.
Proof.
  intros Hn (Hi & w & Hw & Hne & Hl). split; [done|]. exists w. split; [done|]. split; [done|].
  eapply Forall_impl; [exact Hl|]. simpl. intros i (?&?&?). auto with lia.
Qed.

(** ** One window *)

(** The text and the window size of a detector. *)
Notation hist := stream_content_history.
Notation csize := content_chunk_size.

Lemma set_tracking_id d : set_tracking d (hist d) (content_stats d) (last_content_index d) = d.
Proof. by destruct d. Qed.

Lemma bucket_snoc s cs n l w :
  bucket_ok s cs n l → n + cs ≤ length s → window s cs (default 0 (head l)) = w →
  window s cs n = w → bucket_ok s cs (S n) (l ++ [n]).
Proof.
  intros (Hi & w' & Hr & Hne & Hl) Hn Hh Hw.
  assert (w' = w) as ->.
  { destruct l as [|x l]; [done|]. apply Forall_cons in Hl as ((?&?&?)&_). simpl in Hh. congruence. }
  split; [apply increasing_snoc; [done|]|].
  { eapply Forall_impl; [exact Hl|]. by intros i (?&?&?). }
  exists w. split; [done|]. split; [by destruct l|]. apply Forall_app. split.
  - eapply Forall_impl; [exact Hl|]. simpl. intros i (?&?&?). auto with lia.
  - repeat constructor; auto with lia.
Qed.

Lemma bucket_loop s cs n l threshold :
  bucket_ok s cs n l → 1 ≤ threshold ≤ length l →
  2 * default 0 (last (suffix threshold l))
    ≤ 3 * cs * (threshold - 1) + 2 * default 0 (head (suffix threshold l)) →
  loop_in s cs threshold.
Proof.
  intros (Hi & w & Hr & Hne & Hl) Ht Hd.
  assert (length w = cs) as Hw.
  { destruct l as [|x l]; [done|]. apply Forall_cons in Hl as ((?&?&<-)&_).
    by apply length_window. }
  exists w, (suffix threshold l). repeat split; try done.
  - rewrite length_suffix. lia.
  - by apply increasing_suffix.
  - apply Forall_drop. eapply Forall_impl; [exact Hl|]. simpl. rewrite Hw. by intros i (?&?&?).
Qed.

Lemma or_default_pos x n : 1 ≤ n → 1 ≤ or_default x n.
Proof. unfold or_default. destruct (Nat.eqb_spec x 0); lia. Qed.

Lemma threshold_pos d : 1 ≤ threshold_of d.
Proof. apply or_default_pos. unfold CONTENT_LOOP_THRESHOLD. lia. Qed.

Lemma stats_ok_insert d st n hv l :
  stats_ok (set_tracking d (hist d) st n) → bucket_ok (hist d) (csize d) n l →
  stats_ok (set_tracking d (hist d) (<[hv:=l]> st) n).
Proof.
  intros Hst Hb hv' l'. simpl. destruct (decide (hv' = hv)) as [->|].
  - rewrite lookup_insert_eq. by intros [= <-].
  - rewrite lookup_insert_ne //. apply Hst.
Qed.

Lemma detect_step hv d (w := window (hist d) (csize d) (last_content_index d)) :
  stats_ok d → last_content_index d + csize d ≤ length (hist d) →
  ∃ r st, _is_loop_detected_for_chunk w hv d
          = (r, set_tracking d (hist d) st (last_content_index d)) ∧
    stats_ok (set_tracking d (hist d) st (S (last_content_index d))) ∧
    (r = Ok true → loop_in (hist d) (csize d) (threshold_of d)) ∧
    (∀ e, r = Err e → threshold_of d = 1).
Proof.
  intros Hst Hn. unfold _is_loop_detected_for_chunk. rewrite letter_filter.
  assert (stats_ok (set_tracking d (hist d) (content_stats d) (S (last_content_index d)))) as Hst'.
  { intros hv' l Hl. eapply bucket_ok_weaken; [|by eapply Hst]. simpl. lia. }
  case_bool_decide as Hrich; simpl; cycle 1.
  { exists (Ok false), (content_stats d). rewrite set_tracking_id. done. }
  destruct (content_stats d !! hv) as [l|] eqn:Hl; cycle 1.
  { eexists _, _. split; [done|]. split; [|done]. apply stats_ok_insert; [done|].
    split; [repeat constructor|]. exists w. repeat split; try done.
    repeat constructor; simpl; auto with lia. }
  unfold _is_actual_content_match. case_bool_decide as Hm; simpl; cycle 1.
  { exists (Ok false), (content_stats d). rewrite set_tracking_id. done. }
  pose proof (bucket_snoc _ _ _ _ w (Hst _ _ Hl) Hn Hm eq_refl) as Hb.
  pose proof (stats_ok_insert d _ _ hv _ Hst' Hb) as Hst2.
  change (threshold_of (set_tracking _ _ _ _)) with (threshold_of d).
  destruct (Nat.ltb_spec (length (l ++ [last_content_index d])) (threshold_of d));
    [by eexists _, _|].
  destruct (Nat.eqb_spec (threshold_of d) 1); [by eexists _, _|].
  eexists _, _. split; [done|]. split; [done|]. split; [|done].
  intros [= Hd%Nat.leb_le]. eapply bucket_loop; [done| |done].
  split; [apply threshold_pos|done].
Qed.

(** ** The sliding window *)

Lemma analyze_loop_more fuel d st r :
  let i := last_content_index d in
  let w := window (hist d) (csize d) i in
  i + csize d ≤ length (hist d) →
  _is_loop_detected_for_chunk w (hash w) d = (r, set_tracking d (hist d) st i) →
  analyze_loop (S fuel) d
  = match r with
    | Ok true => (Ok true, set_tracking d (hist d) st i)
    | Ok false => analyze_loop fuel (set_tracking d (hist d) st (S i))
    | Err e => (Err e, set_tracking d (hist d) st i)
    end.
Proof.
  intros i w Hi Hw. simpl. unfold _has_more_chunks_to_process.
  rewrite (proj2 (Nat.leb_le _ _)) // Hw. by destruct r as [[]|].
Qed.

Lemma analyze_loop_done fuel d :
  length (hist d) < last_content_index d + csize d → analyze_loop fuel d = (Ok false, d).
Proof.
  intros Hi. destruct fuel; [done|]. simpl. unfold _has_more_chunks_to_process.
  by rewrite (proj2 (Nat.leb_gt _ _)).
Qed.

(** Enough fuel to reach the end of the text: the result is that of the loop. *)
Definition enough (fuel : nat) (d : TokenWindowLoopDetector) : Prop :=
  S (length (hist d)) ≤ fuel + last_content_index d.

Lemma analyze_loop_spec fuel d :
  stats_ok d → enough fuel d →
  ∃ r st n, analyze_loop fuel d = (r, set_tracking d (hist d) st n) ∧
    last_content_index d ≤ n ∧
    (r = Ok false → length (hist d) < n + csize d ∧ stats_ok (set_tracking d (hist d) st n)) ∧
    (r = Ok true → loop_in (hist d) (csize d) (threshold_of d)) ∧
    (∀ e, r = Err e → threshold_of d = 1).
Proof.
  revert d. induction fuel as [|fuel IH]; intros d Hst Hf.
  { unfold enough in Hf. rewrite analyze_loop_done; [lia|].
    exists (Ok false), (content_stats d), (last_content_index d).
    rewrite set_tracking_id. split_and!; try done. intros _. split; [lia|done]. }
  destruct (decide (last_content_index d + csize d ≤ length (hist d))) as [Hn|Hn]; cycle 1.
  { rewrite analyze_loop_done; [lia|].
    exists (Ok false), (content_stats d), (last_content_index d).
    rewrite set_tracking_id. split_and!; try done. intros _. split; [lia|done]. }
  destruct (detect_step (hash (window (hist d) (csize d) (last_content_index d))) d Hst Hn)
    as (r & st & Hd & Hst' & Ht & He).
  rewrite (analyze_loop_more _ _ st r) //. destruct r as [[]|e].
  - eexists _, _, _. split; [done|]. by split_and!.
  - edestruct IH as (r & st2 & n & Ha & Hle & Hf' & Ht' & He'); [exact Hst'| |].
    { unfold enough in *. simpl. lia. }
    rewrite Ha. eexists _, _, _. split; [done|]. simpl in *. split; [lia|]. done.
  - eexists _, _, _. split; [done|]. split; [done|]. split; [done|]. split; [done|].
    intros e' _. by apply (He e).
Qed.

(** ** Truncation *)

Lemma window_drop s k cs i : k ≤ i → window (drop k s) cs (i - k) = window s cs i.
Proof.
  intros. unfold window. rewrite slice_drop. f_equal; lia.
Qed.

Lemma increasing_adjust n l :
  increasing l → increasing ((λ i, i - n) <$> filter (λ i, n ≤ i) l).
Proof.
  unfold increasing. induction 1 as [|x l Hl IH Hx]; [constructor|].
  rewrite filter_cons. case_decide; [|done]. csimpl. constructor; [done|].
  apply Forall_fmap, Forall_forall. intros y [Hy Hin]%list_elem_of_filter.
  rewrite Forall_forall in Hx. specialize (Hx y Hin). simpl. lia.
Qed.

Lemma adjust_bucket s cs m n l l' :
  bucket_ok s cs m l → adjust_indices n l = Some l' → bucket_ok (drop n s) cs (m - n) l'.
Proof.
  intros (Hi & w & Hw & Hne & Hl) Ha. unfold adjust_indices in Ha.
  apply (increasing_adjust n) in Hi.
  assert (Forall (λ i, i < m - n ∧ i + cs ≤ length (drop n s) ∧ window (drop n s) cs i = w)
            ((λ i, i - n) <$> filter (λ i, n ≤ i) l)) as Hf.
  { apply Forall_fmap, Forall_forall. intros i [Hn Hin]%list_elem_of_filter.
    rewrite Forall_forall in Hl. destruct (Hl i Hin) as (?&?&?). simpl.
    rewrite length_drop window_drop //. auto with lia. }
  destruct (_ <$> _) as [|x l2]; [done|]. injection Ha as <-. split; [done|]. by exists w.
Qed.

Lemma truncate_spec d :
  stats_ok d →
  ∃ st n, _truncate_and_update d = set_tracking d (suffix (max_len_of d) (hist d)) st n ∧
    n ≤ last_content_index d ∧
    stats_ok (set_tracking d (suffix (max_len_of d) (hist d)) st n).
Proof.
  intros Hst. unfold _truncate_and_update.
  destruct (Nat.leb_spec (length (hist d)) (max_len_of d)).
  - exists (content_stats d), (last_content_index d).
    by rewrite suffix_all // set_tracking_id.
  - eexists _, _. split; [done|]. split; [lia|].
    intros hv l'. simpl. rewrite lookup_omap.
    intros (l & Hl & Ha)%bind_Some. by eapply adjust_bucket; [apply (Hst hv)|].
Qed.

(** ** Chunks *)

(** A chunk that neither resets nor suspends the analysis. *)
Definition plain (c : text) : bool := (count_fences c =? 0) && negb (is_divider c).

(** The state of a detector in a stream whose text so far is [s]. *)
Definition in_stream (d : TokenWindowLoopDetector) (s : text) : Prop :=
  stats_ok d ∧ loop_detected d = false ∧ _is_enabled d = true ∧
  length (hist d) ≤ max_len_of d ∧ (in_code_block d = true → hist d = []) ∧
  ∃ k, hist d = drop k s.

Definition same_settings (d d' : TokenWindowLoopDetector) : Prop :=
  content_loop_threshold d' = content_loop_threshold d ∧ csize d' = csize d ∧
  max_history_length d' = max_history_length d ∧ _is_enabled d' = _is_enabled d.

Lemma stats_ok_empty d h b c e evs n :
  stats_ok (set_flags (set_tracking d h ∅ n) b c e evs).
Proof. intros hv l. simpl. by rewrite lookup_empty. Qed.

Lemma max_len_same d d' : same_settings d d' → max_len_of d' = max_len_of d.
Proof. intros (_ & _ & H & _). unfold max_len_of. by rewrite H. Qed.

Lemma threshold_same d d' : same_settings d d' → threshold_of d' = threshold_of d.
Proof. intros (H & _). unfold threshold_of. by rewrite H. Qed.

(** The analysis of a chunk that is taken in. *)
Definition ingest (c : text) : stm TokenWindowLoopDetector py_error bool := λ d,
  _analyze_content_chunks_for_loop
    (_truncate_and_update (set_tracking d (hist d ++ c) (content_stats d) (last_content_index d))).

Lemma bucket_ok_app s s' cs n l : bucket_ok s cs n l → bucket_ok (s ++ s') cs n l.
Proof.
  intros (Hi & w & Hw & Hne & Hl). split; [done|]. exists w. split; [done|]. split; [done|].
  eapply Forall_impl; [exact Hl|]. intros i (?&?&?). rewrite length_app. unfold window in *.
  rewrite slice_app_l //. auto with lia.
Qed.

Lemma ingest_spec c d :
  stats_ok d →
  ∃ r d', ingest c d = (r, d') ∧ same_settings d d' ∧ in_code_block d' = in_code_block d ∧
    loop_detected d' = loop_detected d ∧
    hist d' = suffix (max_len_of d) (hist d ++ c) ∧
    (r = Ok false → stats_ok d') ∧
    (r = Ok true → loop_in (hist d') (csize d) (threshold_of d)) ∧
    (∀ e, r = Err e → threshold_of d = 1).
Proof.
  intros Hst. unfold ingest.
  set (d1 := set_tracking d _ _ _).
  destruct (truncate_spec d1) as (st & n & -> & Hn & Hst').
  { intros hv l Hl. apply bucket_ok_app, (Hst hv l Hl). }
  unfold _analyze_content_chunks_for_loop.
  destruct (analyze_loop_spec (S (length (suffix (max_len_of d1) (hist d1))) - n) _ Hst')
    as (r & st2 & n2 & Ha & _ & Hf & Ht & He); [unfold enough; simpl; lia|].
  rewrite Ha. eexists _, _. split; [done|]. split_and!; try done. by intros [_ ?]%Hf.
Qed.

Definition cleared (d : TokenWindowLoopDetector) (code : bool) : TokenWindowLoopDetector :=
  set_flags (_reset_content_tracking d true) false code (_is_enabled d) (_loop_events d).

(** The ways a chunk is treated: plain chunks are taken in outside a code block
    and ignored inside; fences and dividers clear the tracking; a chunk with
    complete code blocks is taken in after that. *)
Lemma check_content_cases c d :
  loop_detected d = false →
  _check_content_loop c d =
    if plain c then if in_code_block d then (Ok false, d) else ingest c d
    else
      let code := xorb (in_code_block d) (Nat.odd (count_fences c)) in
      if in_code_block d || code || is_divider c then (Ok false, cleared d code)
      else ingest c (cleared d code).
Proof.
  intros Hld. unfold _check_content_loop, plain, ingest, cleared. destruct d. simpl in *. subst.
  destruct (count_fences c) as [|n] eqn:Hn; destruct (is_divider c) eqn:Hd; simpl.
  - by rewrite xorb_false_r orb_true_r.
  - by destruct in_code_block0.
  - destruct (Nat.odd _), in_code_block0; done.
  - rewrite !orb_false_r.
    destruct (Nat.odd _), in_code_block0; done.
Qed.

(** What a chunk may do to a detector in a stream. *)
Definition chunk_outcome (d : TokenWindowLoopDetector) (s : text) (r : res py_error bool)
    (d' : TokenWindowLoopDetector) : Prop :=
  same_settings d d' ∧
  match r with
  | Ok false => in_stream d' s
  | Ok true => loop_in (hist d') (csize d) (threshold_of d) ∧ in_code_block d' = false ∧
               ∃ k, hist d' = drop k s
  | Err _ => threshold_of d = 1
  end.

Lemma same_settings_trans d1 d2 d3 :
  same_settings d1 d2 → same_settings d2 d3 → same_settings d1 d3.
Proof. intros (?&?&?&?) (?&?&?&?). split_and!; congruence. Qed.

Lemma ingest_outcome c d d0 s k :
  stats_ok d0 → loop_detected d0 = false → in_code_block d0 = false → _is_enabled d = true →
  same_settings d d0 → hist d0 = drop k s →
  ∃ r d', ingest c d0 = (r, d') ∧ chunk_outcome d (s ++ c) r d'.
Proof.
  intros Hst0 Hld0 Hcb0 Hen Hs0 Hk.
  destruct (ingest_spec c d0 Hst0) as (r & d' & Hi & Hs & Hcb & Hl & Hh & Hf & Ht & He).
  assert (same_settings d d') as Hsd by (by eapply same_settings_trans).
  assert (∃ k, hist d' = drop k (s ++ c)) as Hk'.
  { rewrite Hh Hk. destruct (drop_app_infix k s c) as [k1 ->]. apply suffix_is_drop. }
  exists r, d'. split; [done|]. split; [done|]. destruct r as [[]|e].
  - rewrite -(threshold_same d d0) //. destruct Hs0 as (_&<-&_).
    split_and!; [by apply Ht|congruence|done].
  - split_and!; [by apply Hf|congruence|destruct Hsd as (_&_&_&?); congruence| |congruence|done].
    rewrite Hh length_suffix (max_len_same d d') // (max_len_same d d0) //. lia.
  - rewrite -(threshold_same d d0) //. by eapply He.
Qed.

Lemma check_content_spec c d s :
  in_stream d s →
  ∃ r d', _check_content_loop c d = (r, d') ∧ chunk_outcome d (s ++ c) r d'.
Proof.
  intros (Hst & Hld & Hen & Hmax & Hcode & k & Hk). rewrite check_content_cases //.
  destruct (plain c).
  - destruct (in_code_block d) eqn:Hcb; [|by eapply ingest_outcome].
    eexists _, _. split; [done|]. split; [done|].
    split_and!; [done..|by intros; apply Hcode|].
    exists (length (s ++ c)). rewrite drop_ge //. by apply Hcode.
  - cbv zeta. set (code := xorb _ _).
    destruct (in_code_block d || code || is_divider c) eqn:Hskip.
    + eexists _, _. split; [done|]. split; [done|].
      split_and!; [apply stats_ok_empty|done|done|simpl; lia|done|].
      exists (length (s ++ c)). by rewrite drop_ge.
    + apply orb_false_iff in Hskip as [[_ Hcb]%orb_false_iff _].
      eapply (ingest_outcome _ _ _ _ (length s));
        [apply stats_ok_empty|done|done|done|done|]. by rewrite drop_ge.
Qed.

(** A consumer hands over the chunks, with the clock readings, until a loop is
    reported. *)
Fixpoint process_chunks (cs : list (Q * text))
    : stm TokenWindowLoopDetector py_error (option LoopDetectionEvent) :=
  match cs with
  | [] => mret None
  | (now, c) :: cs =>
      ev ← process_chunk now c; match ev with None => process_chunks cs | Some _ => mret ev end
  end.

Definition stream_text (cs : list (Q * text)) : text := mjoin cs.*2.

(** The event a detector builds. *)
Definition event_of (d : TokenWindowLoopDetector) (now : Q) : LoopDetectionEvent :=
  mk_LoopDetectionEvent (lit "Repetitive content pattern detected") (csize d)
    (threshold_of d) (csize d * threshold_of d) 1 (suffix 200 (hist d)) now.

Lemma process_chunk_spec now c d s :
  in_stream d s →
  ∃ r d', process_chunk now c d = (r, d') ∧ same_settings d d' ∧
    match r with
    | Ok None => in_stream d' (s ++ c)
    | Ok (Some ev) => ev = event_of d' now ∧ loop_in (hist d') (csize d) (threshold_of d) ∧
                      ∃ k, hist d' = drop k (s ++ c)
    | Err _ => threshold_of d = 1
    end.
Proof.
  intros Hin. pose proof Hin as (_ & Hld & Hen & _). unfold process_chunk. rewrite Hld Hen. simpl.
  case_bool_decide as Hc.
  { eexists _, _. split; [done|]. split; [done|]. by rewrite Hc app_nil_r. }
  destruct (check_content_spec c d s Hin) as (r & d' & -> & Hs & Ho).
  destruct r as [[]|e]; eexists _, _; (split; [done|]); (split; [done|]); [| |done].
  - destruct Ho as (Hl & _ & Hk). by split_and!.
  - destruct Ho as (Hst & _ & Ho). split; [exact Hst|]. split; [done|]. exact Ho.
Qed.

Lemma process_chunks_sound cs d s ev d' :
  in_stream d s → process_chunks cs d = (Ok (Some ev), d') →
  same_settings d d' ∧ loop_in (hist d') (csize d) (threshold_of d) ∧
  (∃ s1 s2, s ++ stream_text cs = s1 ++ hist d' ++ s2) ∧ ∃ now, ev = event_of d' now.
Proof.
  revert d s. induction cs as [|[now c] cs IH]; intros d s Hin; [done|].
  destruct (process_chunk_spec now c d s Hin) as (r & d1 & Hp & Hs & Ho).
  simpl. unfold mbind, stm_bind. rewrite Hp. unfold stream_text. csimpl. rewrite assoc_L.
  destruct r as [[ev'|]|e]; [| |done].
  - intros [= -> ->]. destruct Ho as (-> & Hl & k & Hk).
    split; [done|]. split; [done|]. split; [|by exists now].
    exists (take k (s ++ c)), (mjoin cs.*2). by rewrite Hk assoc_L take_drop.
  - intros Hf. destruct (IH _ _ Ho Hf) as (Hs' & Hl & Hk & Hev).
    split; [by eapply same_settings_trans|]. rewrite -(threshold_same d d1) //.
    destruct Hs as (_ & <- & _). done.
Qed.

Lemma in_stream_init thr cs max_len : in_stream (token_window_init thr cs max_len) [].
Proof.
  split; [|split_and!; simpl; done || lia || by exists 0].
  intros hv l. simpl. by rewrite lookup_empty.
Qed.

(** A loop in a part of a text is a loop in the text. *)
Lemma loop_in_infix s1 s s2 cs thr : loop_in s cs thr → loop_in (s1 ++ s ++ s2) cs thr.
Proof.
  intros (w & ps & Hw & Hr & Hl & Hi & Ho & Hd).
  exists w, (Nat.add (length s1) <$> ps). split_and!; try done.
  - by rewrite length_fmap.
  - unfold increasing. clear -Hi. induction Hi as [|x l Hl IH Hx]; csimpl; constructor; [done|].
    apply Forall_fmap. eapply Forall_impl; [exact Hx|]. simpl. lia.
  - by apply occurs_at_infix.
  - rewrite fmap_last. destruct ps as [|p0 ps]; [exact Hd|].
    destruct (last (p0 :: ps)) as [x|] eqn:Hx; [simpl in *; lia|]. by apply last_None in Hx.
Qed.

(** ** Appending text does not change what was analysed *)

Definition extend (s : text) (d : TokenWindowLoopDetector) : TokenWindowLoopDetector :=
  set_tracking d (hist d ++ s) (content_stats d) (last_content_index d).

Lemma detect_frame w hv d :
  ∃ r st, _is_loop_detected_for_chunk w hv d
    = (r, set_tracking d (hist d) st (last_content_index d)).
Proof.
  unfold _is_loop_detected_for_chunk.
  repeat case_match; try (by eexists _, _);
    by exists (Ok false), (content_stats d); rewrite set_tracking_id.
Qed.

Lemma window_app_l s s' cs i : i + cs ≤ length s → window (s ++ s') cs i = window s cs i.
Proof. apply slice_app_l. Qed.

Lemma detect_extend w hv d s :
  stats_ok d →
  _is_loop_detected_for_chunk w hv (extend s d)
  = ((_is_loop_detected_for_chunk w hv d).1, extend s (_is_loop_detected_for_chunk w hv d).2).
Proof.
  intros Hst. unfold _is_loop_detected_for_chunk.
  change (content_stats (extend s d)) with (content_stats d).
  change (last_content_index (extend s d)) with (last_content_index d).
  destruct (_ <? _); [done|]. destruct (content_stats d !! hv) as [l|] eqn:Hl; [|done].
  assert (_is_actual_content_match (extend s d) w (default 0 (head l))
          = _is_actual_content_match d w (default 0 (head l))) as ->.
  { destruct (Hst _ _ Hl) as (_ & w' & _ & Hne & Hf). destruct l as [|x l]; [done|].
    apply Forall_cons in Hf as ((_&?&_)&_). unfold _is_actual_content_match. simpl.
    by rewrite window_app_l. }
  destruct (negb _); [done|]. cbv zeta.
  change (threshold_of (set_tracking (extend s d) _ _ _)) with (threshold_of d).
  change (threshold_of (set_tracking d _ _ _)) with (threshold_of d).
  destruct (_ <? _); [done|]. destruct (_ =? _); done.
Qed.

Lemma analyze_fuel k g d : enough g d → analyze_loop (k + g) d = analyze_loop g d.
Proof.
  revert d. induction g as [|g IH]; intros d Hg.
  { unfold enough in Hg. rewrite !analyze_loop_done //; lia. }
  destruct (decide (last_content_index d + csize d ≤ length (hist d))) as [Hn|Hn].
  - destruct (detect_frame (window (hist d) (csize d) (last_content_index d))
      (hash (window (hist d) (csize d) (last_content_index d))) d) as (r & st & Hd).
    rewrite -plus_n_Sm !(analyze_loop_more _ _ st r) //.
    destruct r as [[]|]; [done| |done]. apply IH. unfold enough in *. simpl. lia.
  - rewrite !analyze_loop_done //; lia.
Qed.

(** Analysing a text and then what is appended is analysing the whole. *)
Lemma analyze_extend fuel g d s r d1 :
  stats_ok d → enough fuel d → analyze_loop fuel d = (r, d1) → enough g (extend s d1) →
  analyze_loop (fuel + g) (extend s d)
  = match r with Ok false => analyze_loop g (extend s d1) | _ => (r, extend s d1) end.
Proof.
  revert d. induction fuel as [|fuel IH]; intros d Hst Hf Ha Hg.
  { injection Ha as <- <-. done. }
  destruct (decide (last_content_index d + csize d ≤ length (hist d))) as [Hn|Hn]; cycle 1.
  { rewrite analyze_loop_done in Ha; [lia|]. injection Ha as <- <-. by apply analyze_fuel. }
  set (w := window (hist d) (csize d) (last_content_index d)).
  destruct (detect_step (hash w) d Hst Hn) as (r1 & st & Hd & Hst' & _).
  rewrite (analyze_loop_more _ _ st r1) // in Ha.
  assert (window (hist (extend s d)) (csize (extend s d)) (last_content_index (extend s d)) = w)
    as Hw by (simpl; by rewrite window_app_l).
  rewrite (analyze_loop_more _ (extend s d) st r1); [simpl; rewrite length_app; lia|
    by rewrite Hw detect_extend // Hd|].
  destruct r1 as [[]|]; [by injection Ha as <- <-| |by injection Ha as <- <-].
  apply IH in Ha; [done|done| |done]. unfold enough in *. simpl. lia.
Qed.

(** ** A stream and its text *)

(** The analysis of a text that is given at once. *)
Definition analyze_text (d : TokenWindowLoopDetector) (s : text)
    : res py_error bool * TokenWindowLoopDetector :=
  analyze_loop (S (length s)) (set_tracking d s ∅ 0).

Lemma stats_ok_start d s : stats_ok (set_tracking d s ∅ 0).
Proof. intros hv l. simpl. by rewrite lookup_empty. Qed.

Lemma enough_start d s : enough (S (length s)) (set_tracking d s ∅ 0).
Proof. unfold enough. simpl. lia. Qed.

Lemma analyze_text_frame d s :
  ∃ st n, (analyze_text d s).2 = set_tracking d s st n.
Proof.
  destruct (analyze_loop_spec (S (length s)) (set_tracking d s ∅ 0)) as (r & st & n & Ha & _);
    [apply stats_ok_start|apply enough_start|]. unfold analyze_text. rewrite Ha. eauto.
Qed.

Lemma analyze_text_app d s c :
  let '(r, d1) := analyze_text d s in
  analyze_text d (s ++ c)
  = match r with
    | Ok false => analyze_loop (S (length (s ++ c)) - last_content_index d1) (extend c d1)
    | _ => (r, extend c d1)
    end.
Proof.
  destruct (analyze_text d s) as [r d1] eqn:Ha. unfold analyze_text in *.
  destruct (analyze_text_frame d s) as (st & n & Hf). unfold analyze_text in Hf.
  rewrite Ha in Hf. simpl in Hf. subst d1.
  set (g := S (length (s ++ c)) - n). set (g' := S (length (s ++ c))).
  assert (enough g (extend c (set_tracking d s st n))) as Hg by (unfold enough; simpl; lia).
  assert (enough g' (extend c (set_tracking d s st n))) as Hg' by (unfold enough; simpl; lia).
  pose proof (analyze_extend _ g' _ c _ _ (stats_ok_start d s) (enough_start d s) Ha Hg') as He.
  rewrite (analyze_fuel (S (length s)) g') in He; [apply enough_start|].
  change (extend c (set_tracking d s ∅ 0)) with (set_tracking d (s ++ c) ∅ 0) in He.
  rewrite He. destruct r as [[]|]; [done| |done].
  etrans; [|exact (analyze_fuel (g' - g) g _ Hg)]. by replace (g' - g + g) with g' by lia.
Qed.

(** ** Periodic text *)

(** The positions of the first window among the first [i], once the window was
    recorded. *)
Definition first_window_positions (s : text) (cs i : nat) : list nat :=
  filter (λ q, window s cs q = window s cs 0) (seq 0 i).

(** On a periodic text, the multiples of the period are among them. *)
Lemma multiples_count s cs L k :
  periodic L s → 1 ≤ L → k * L + cs ≤ length s →
  S k ≤ length (first_window_positions s cs (S (k * L))).
Proof.
  intros Hs HL. induction k as [|k IH]; intros Hk.
  - unfold first_window_positions. rewrite /= filter_cons. case_decide; [simpl; lia|done].
  - unfold first_window_positions in *.
    replace (S (S k * L)) with (S (k * L) + L) by lia. rewrite seq_app filter_app length_app.
    specialize (IH ltac:(lia)).
    assert (S k * L ∈ filter (λ q, window s cs q = window s cs 0) (seq (0 + S (k * L)) L)) as Hin.
    { apply list_elem_of_filter. split; [|apply elem_of_seq; lia].
      by apply periodic_windows. }
    destruct (filter _ (seq (0 + _) _)) as [|x l]; [by apply not_elem_of_nil in Hin|]. cbn [length]. lia.
Qed.

Lemma first_window_positions_S s cs i :
  first_window_positions s cs (S i)
  = first_window_positions s cs i
    ++ (if decide (window s cs i = window s cs 0) then [i] else []).
Proof. unfold first_window_positions. by rewrite seq_S filter_app. Qed.

Lemma first_window_positions_head s cs i :
  1 ≤ i → ∃ l, first_window_positions s cs i = 0 :: l.
Proof.
  intros Hi. unfold first_window_positions. destruct i as [|i]; [lia|].
  cbn [seq]. rewrite filter_cons. case_decide; [eauto|done].
Qed.

(** What is recorded for the first window after the positions below [i]. *)
Definition first_bucket (d : TokenWindowLoopDetector) (i : nat) : Prop :=
  content_stats d !! hash (window (hist d) (csize d) 0)
  = if i =? 0 then None else Some (first_window_positions (hist d) (csize d) i).

(** A turn leaves the bucket of another window alone, even under the same
    hash. *)
Lemma detect_other w hv d h0 :
  (hv = h0 → ∃ l, content_stats d !! h0 = Some l ∧
     window (hist d) (csize d) (default 0 (head l)) ≠ w) →
  ∃ r st, _is_loop_detected_for_chunk w hv d
    = (r, set_tracking d (hist d) st (last_content_index d)) ∧
    st !! h0 = content_stats d !! h0.
Proof.
  intros Hne. destruct (decide (hv = h0)) as [->|Hh].
  - destruct (Hne eq_refl) as (l & Hl & Hw). exists (Ok false), (content_stats d).
    split; [|done]. unfold _is_loop_detected_for_chunk, _is_actual_content_match.
    destruct (_ <? _); [by rewrite set_tracking_id|]. rewrite Hl bool_decide_false //=.
    by rewrite set_tracking_id.
  - unfold _is_loop_detected_for_chunk.
    destruct (_ <? _); [exists (Ok false), (content_stats d); by rewrite set_tracking_id|].
    destruct (content_stats d !! hv).
    + destruct (negb _); [exists (Ok false), (content_stats d); by rewrite set_tracking_id|].
      cbv zeta. destruct (_ <? _); [|destruct (_ =? _)];
        (eexists _, _; split; [done|]; by rewrite lookup_insert_ne).
    + eexists _, _. split; [done|]. by rewrite lookup_insert_ne.
Qed.

(** A turn on the first window extends its bucket. *)
Lemma detect_first d l (i := last_content_index d) (w := window (hist d) (csize d) 0) :
  rich w → content_stats d !! hash w = Some (0 :: l) → threshold_of d ≠ 1 →
  ∃ r, _is_loop_detected_for_chunk w (hash w) d
    = (r, set_tracking d (hist d) (<[hash w := (0 :: l) ++ [i]]> (content_stats d)) i) ∧
    (threshold_of d ≤ length ((0 :: l) ++ [i]) →
     2 * i ≤ 3 * csize d * (threshold_of d - 1) → r = Ok true).
Proof.
  intros Hrich Hb Ht. unfold _is_loop_detected_for_chunk.
  rewrite letter_filter bool_decide_true //. cbn [negb]. rewrite Hb.
  unfold _is_actual_content_match. cbn [head default from_option].
  rewrite bool_decide_true //. cbn [negb]. cbv zeta.
  change (threshold_of (set_tracking d _ _ _)) with (threshold_of d).
  change (csize (set_tracking d _ _ _)) with (csize d). fold i.
  destruct (Nat.ltb_spec (length ((0 :: l) ++ [i])) (threshold_of d));
    [eexists; split; [done|]; lia|].
  destruct (Nat.eqb_spec (threshold_of d) 1); [done|]. eexists. split; [done|].
  intros _ Hi. f_equal. apply Nat.leb_le. rewrite last_suffix_snoc; [apply threshold_pos|].
  change (default 0 (Some i)) with i. lia.
Qed.

(** One turn keeps the bucket of the first window exact, and reports a loop once
    it is full and dense enough; collisions do not matter, since the bucket
    starts with the window at position 0. *)
Lemma first_window_step d (i := last_content_index d) (s := hist d) (cs := csize d) :
  rich (window s cs 0) → first_bucket d i → threshold_of d ≠ 1 →
  ∃ r st, _is_loop_detected_for_chunk (window s cs i) (hash (window s cs i)) d
          = (r, set_tracking d s st i) ∧
    first_bucket (set_tracking d s st (S i)) (S i) ∧
    (window s cs i = window s cs 0 → 1 ≤ i →
     threshold_of d ≤ length (first_window_positions s cs (S i)) →
     2 * i ≤ 3 * cs * (threshold_of d - 1) → r = Ok true).
Proof.
  intros Hrich Hb Ht. unfold first_bucket in *. cbn [set_tracking content_stats csize hist].
  fold s cs in Hb |- *. rewrite first_window_positions_S.
  destruct (decide (window s cs i = window s cs 0)) as [Hw|Hw]; cycle 1.
  - destruct (Nat.eqb_spec i 0) as [Hi|Hi]; [by rewrite Hi in Hw|].
    destruct (detect_other (window s cs i) (hash (window s cs i)) d (hash (window s cs 0)))
      as (r & st & Hd & Hst).
    { intros _. eexists. split; [exact Hb|].
      destruct (first_window_positions_head s cs i) as [l ->]; [lia|]. by apply not_eq_sym. }
    exists r, st. rewrite app_nil_r Hst. by split_and!.
  - rewrite Hw. destruct (Nat.eqb_spec i 0) as [Hi|Hi].
    + eexists (Ok false), _. unfold _is_loop_detected_for_chunk.
      rewrite letter_filter bool_decide_true //. cbn [negb]. rewrite Hb.
      split; [done|]. split; [by rewrite lookup_insert_eq -/i Hi|lia].
    + destruct (first_window_positions_head s cs i) as [l Hl]; [lia|]. rewrite Hl in Hb |- *.
      destruct (detect_first d l Hrich Hb Ht) as (r & Hd & Hr).
      exists r, (<[hash (window s cs 0) := (0 :: l) ++ [i]]> (content_stats d)).
      split; [done|]. split; [by rewrite lookup_insert_eq|]. auto.
Qed.

Lemma detect_raises w hv d e d' :
  _is_loop_detected_for_chunk w hv d = (Err e, d') → threshold_of d = 1.
Proof.
  unfold _is_loop_detected_for_chunk. destruct (_ <? _); [done|].
  destruct (content_stats d !! hv); [|done]. destruct (negb _); [done|]. cbv zeta.
  destruct (_ <? _); [done|].
  change (threshold_of (set_tracking _ _ _ _)) with (threshold_of d).
  by destruct (Nat.eqb_spec (threshold_of d) 1).
Qed.

Lemma analyze_periodic fuel d L k :
  threshold_of d = S k → 1 ≤ k → rich (window (hist d) (csize d) 0) → first_bucket d (last_content_index d) →
  periodic L (hist d) → 1 ≤ L → 2 * L ≤ 3 * csize d →
  k * L + csize d ≤ length (hist d) → last_content_index d ≤ k * L → enough fuel d →
  (analyze_loop fuel d).1 = Ok true.
Proof.
  revert d. induction fuel as [|fuel IH]; intros d Ht Hk Hr Hb Hp HL HLc Hlen Hi Hf.
  { unfold enough in Hf. lia. }
  destruct (first_window_step d Hr Hb) as (r & st & Hd & Hb' & Hhit); [lia|].
  rewrite (analyze_loop_more _ _ st r) //; [lia|].
  destruct r as [[]|e]; [done| |by apply detect_raises in Hd; lia].
  destruct (decide (last_content_index d = k * L)) as [Heq|Hne].
  - exfalso. enough (@Ok py_error bool false = Ok true) by done.
    apply Hhit; rewrite ?Heq; [by apply periodic_windows|nia| |].
    + pose proof (multiples_count _ _ L k Hp HL Hlen). lia.
    + rewrite Ht. replace (S k - 1) with k by lia. nia.
  - apply IH; [done..|simpl; lia|]. unfold enough in *. simpl. lia.
Qed.

(** ** Streams and their texts *)

(** What a call tells its caller. *)
Definition verdict (r : res py_error (option LoopDetectionEvent)) : res py_error bool :=
  (λ ev, bool_decide (is_Some ev)) <$> r.

Lemma process_chunk_plain now c d :
  loop_detected d = false → _is_enabled d = true → in_code_block d = false →
  plain c = true → c ≠ [] →
  length (hist d ++ c) ≤ max_len_of d →
  let '(r, d1) := analyze_loop (S (length (hist d ++ c)) - last_content_index d) (extend c d) in
  verdict (process_chunk now c d).1 = r ∧
  (r = Ok false → loop_detected d1 = false → (process_chunk now c d).2 = d1).
Proof.
  intros Hld Hen Hcb Hpl Hc Hmax. unfold process_chunk. rewrite Hld Hen bool_decide_false //=.
  rewrite check_content_cases // Hpl Hcb. unfold ingest.
  change (set_tracking d (hist d ++ c) (content_stats d) (last_content_index d)) with (extend c d).
  unfold _truncate_and_update. rewrite (proj2 (Nat.leb_le _ _)) //.
  unfold _analyze_content_chunks_for_loop.
  change (last_content_index (extend c d)) with (last_content_index d).
  change (hist (extend c d)) with (hist d ++ c).
  destruct (analyze_loop _ _) as [[[]|] d1]; try done. split; [done|].
  intros _ Hd. by destruct d1; simpl in *; subst.
Qed.

(** Handing a text over in plain chunks is analysing it at once, as long as
    nothing has to be forgotten. *)
Lemma stream_is_text d0 cs d s :
  loop_detected d0 = false → _is_enabled d0 = true → in_code_block d0 = false →
  analyze_text d0 s = (Ok false, d) → Forall (λ c, plain c.2 = true) cs →
  length (s ++ stream_text cs) ≤ max_len_of d0 →
  verdict (process_chunks cs d).1 = (analyze_text d0 (s ++ stream_text cs)).1.
Proof.
  intros Hld Hen Hcb. revert d s. induction cs as [|[now c] cs IH]; intros d s Ha Hpl Hmax.
  { unfold stream_text. csimpl. by rewrite app_nil_r Ha. }
  apply Forall_cons in Hpl as [Hc Hpl]. simpl in Hc. unfold stream_text in *. csimpl.
  csimpl in Hmax. rewrite assoc_L in Hmax |- *.
  unfold mbind, stm_bind. destruct (decide (c = [])) as [->|Hne].
  { rewrite app_nil_r in Hmax |- *. unfold process_chunk at 1.
    rewrite bool_decide_true // orb_true_r. by apply IH. }
  destruct (analyze_text_frame d0 s) as (st & n & Hfr). rewrite Ha in Hfr. simpl in Hfr.
  pose proof (process_chunk_plain now c d) as Hpc. subst d. simpl in Hpc.
  specialize (Hpc Hld Hen Hcb Hc Hne).
  change (max_len_of (set_tracking d0 s st n)) with (max_len_of d0) in Hpc.
  rewrite [length ((s ++ c) ++ _)]length_app in Hmax. specialize (Hpc ltac:(lia)).
  pose proof (analyze_text_app d0 s c) as Happ. rewrite Ha in Happ. simpl in Happ.
  rewrite -Happ in Hpc. clear Happ Ha.
  pose proof (analyze_text_app d0 (s ++ c) (mjoin cs.*2)) as Hrest.
  destruct (analyze_text_frame d0 (s ++ c)) as (st' & n' & Hfr').
  destruct (analyze_text d0 (s ++ c)) as [r d1] eqn:Ha1. simpl in Hfr'.
  destruct Hpc as [Hv Hd]. destruct (process_chunk now c _) as [r1 d2]. simpl in Hv, Hd.
  destruct r1 as [[ev|]|e]; simpl in Hv; subst r; rewrite ?Hrest //.
  rewrite Hd //; [by rewrite Hfr'|]. rewrite -Hrest. apply IH; [done|done|].
  rewrite length_app. lia.
Qed.

(** A threshold of one divides by zero as soon as the first window recurs. *)
Lemma detect_first_one d l (i := last_content_index d) (w := window (hist d) (csize d) 0) :
  rich w → content_stats d !! hash w = Some (0 :: l) → threshold_of d = 1 →
  (_is_loop_detected_for_chunk w (hash w) d).1 = Err ZeroDivisionError.
Proof.
  intros Hrich Hb Ht. unfold _is_loop_detected_for_chunk.
  rewrite letter_filter bool_decide_true //. cbn [negb]. rewrite Hb.
  unfold _is_actual_content_match. cbn [head default from_option].
  rewrite bool_decide_true //. cbn [negb]. cbv zeta.
  change (threshold_of (set_tracking d _ _ _)) with (threshold_of d). rewrite Ht.
  rewrite (proj2 (Nat.ltb_ge _ _)) //. rewrite length_app /=. lia.
Qed.

Lemma detect_never_true w hv d :
  threshold_of d = 1 → (_is_loop_detected_for_chunk w hv d).1 ≠ Ok true.
Proof.
  intros Ht. unfold _is_loop_detected_for_chunk. destruct (_ <? _); [done|].
  destruct (content_stats d !! hv); [|done]. destruct (negb _); [done|]. cbv zeta.
  change (threshold_of (set_tracking _ _ _ _)) with (threshold_of d).
  destruct (_ <? _); [done|]. by rewrite Ht.
Qed.

Lemma analyze_raises fuel d p :
  threshold_of d = 1 → rich (window (hist d) (csize d) 0) →
  content_stats d !! hash (window (hist d) (csize d) 0) = Some [0] →
  window (hist d) (csize d) p = window (hist d) (csize d) 0 →
  1 ≤ last_content_index d ≤ p → p + csize d ≤ length (hist d) → enough fuel d →
  (analyze_loop fuel d).1 = Err ZeroDivisionError.
Proof.
  revert d. induction fuel as [|fuel IH]; intros d Ht Hr Hb Hp Hi Hlen Hf.
  { unfold enough in Hf. lia. }
  set (i := last_content_index d) in *. set (w := window (hist d) (csize d) i).
  destruct (decide (w = window (hist d) (csize d) 0)) as [Hw|Hw].
  - destruct (detect_frame w (hash w) d) as (r & st & Hd).
    rewrite (analyze_loop_more _ _ st r) //; [fold i; lia|].
    pose proof (detect_first_one d [] Hr Hb Ht) as Hone. rewrite -Hw Hd in Hone.
    simpl in Hone. by subst r.
  - destruct (detect_other w (hash w) d (hash (window (hist d) (csize d) 0)))
      as (r & st & Hd & Hst).
    { intros _. exists [0]. split; [done|]. by apply not_eq_sym. }
    rewrite (analyze_loop_more _ _ st r) //; [fold i; lia|].
    pose proof (detect_never_true w (hash w) d Ht) as Hn. rewrite Hd in Hn.
    destruct r as [[]|[]]; [done| |done].
    apply IH; [done|done|by rewrite /= Hst|done| |done|].
    + simpl. fold i. destruct (decide (i = p)) as [->|]; [done|lia].
    + unfold enough in *. simpl. fold i in Hf. lia.
Qed.

(** The first turn on a text records the first window. *)
Lemma analyze_text_first d s :
  rich (window s (csize d) 0) → csize d ≤ length s →
  analyze_text d s
  = analyze_loop (length s)
      (set_tracking d s {[ hash (window s (csize d) 0) := [0] ]} 1).
Proof.
  intros Hr Hl. unfold analyze_text.
  rewrite (analyze_loop_more _ _ {[ hash (window s (csize d) 0) := [0] ]} (Ok false)) //.
  unfold _is_loop_detected_for_chunk. cbn [set_tracking hist csize last_content_index content_stats].
  by rewrite letter_filter bool_decide_true // lookup_empty.
Qed.

Lemma analyze_frame f d :
  ∃ st n, (analyze_loop f d).2 = set_tracking d (hist d) st n.
Proof.
  revert d. induction f as [|f IH]; intros d.
  - exists (content_stats d), (last_content_index d). by rewrite set_tracking_id.
  - simpl. destruct (_has_more_chunks_to_process d);
      [|exists (content_stats d), (last_content_index d); by rewrite set_tracking_id].
    edestruct detect_frame as (r & st & ->). destruct r as [[]|]; [by eauto| |by eauto].
    edestruct IH as (st' & n & ->). by eauto.
Qed.

Lemma ingest_frame c d :
  ∃ st n, (ingest c d).2 = set_tracking d (suffix (max_len_of d) (hist d ++ c)) st n.
Proof.
  unfold ingest, _analyze_content_chunks_for_loop.
  edestruct analyze_frame as (st & n & ->). unfold _truncate_and_update.
  set (d1 := set_tracking d _ _ _). change (max_len_of d1) with (max_len_of d).
  destruct (Nat.leb_spec (length (hist d1)) (max_len_of d)); exists st, n; [|done].
  by rewrite suffix_all.
Qed.

(** A call leaves the settings alone and appends the event it returns. *)
Lemma process_chunk_events now c d ev d' :
  process_chunk now c d = (Ok ev, d') →
  same_settings d d' ∧ _loop_events d' = _loop_events d ++ option_list ev.
Proof.
  unfold process_chunk. destruct (loop_detected d) eqn:Hld; simpl.
  { intros [= <- <-]. simpl. by rewrite app_nil_r. }
  destruct (_ || _); [intros [= <- <-]; simpl; by rewrite app_nil_r|].
  rewrite check_content_cases //.
  assert (∀ d1, same_settings d d1 → _loop_events d1 = _loop_events d →
    same_settings d (ingest c d1).2 ∧ _loop_events (ingest c d1).2 = _loop_events d) as Hi.
  { intros d1 Hs He. destruct (ingest_frame c d1) as (st & n & ->). done. }
  set (x := if plain c then _ else _).
  assert (same_settings d x.2 ∧ _loop_events x.2 = _loop_events d) as [Hs He].
  { unfold x. destruct (plain c); [destruct (in_code_block d)|cbv zeta; destruct (_ || _ || _)];
      try done; by apply Hi. }
  destruct x as [[[]|e] d1]; intros; simplify_eq/=; (split; [done|]); rewrite He ?app_nil_r //.
Qed.

(** ** Properties *)

(** Every short loop that is reported is there.  Whatever is streamed into a
    new detector, a report means that the streamed text has a window of
    [content_chunk_size] characters, half of them letters, that stands at
    [content_loop_threshold] increasing positions whose average distance is at
    most one and a half windows; the event carries these two numbers.
    Truncation, resets, code blocks and hash collisions cause no false
    report. *)
Theorem short_loop_sound (thr csz max_len : nat) (cs : list (Q * text))
    (ev : LoopDetectionEvent) (d' : TokenWindowLoopDetector) :
  process_chunks cs (token_window_init thr csz max_len) = (Ok (Some ev), d') →
  loop_in (stream_text cs) csz (or_default thr CONTENT_LOOP_THRESHOLD) ∧
  repetition_count ev = or_default thr CONTENT_LOOP_THRESHOLD ∧ event_pattern_length ev = csz.
Proof.
  intros Hp.
  destruct (process_chunks_sound _ _ [] _ _ (in_stream_init thr csz max_len) Hp)
    as (Hs & Hl & (s1 & s2 & Heq) & now & ->).
  rewrite app_nil_l in Heq. rewrite Heq. split; [by apply loop_in_infix|].
  cbn [repetition_count event_pattern_length event_of]. rewrite (threshold_same _ _ Hs).
  split; [done|]. by destruct Hs as (_ & -> & _).
Qed.

(** How a text is cut into chunks does not matter.  Two streams of chunks
    that spell the same text, of at most [max_history_length] characters and
    without a chunk that holds a fence or is a divider, get the same verdict from
    a new detector: a loop, none, or an exception. *)
Theorem chunking_irrelevant (thr csz max_len : nat) (cs cs' : list (Q * text)) :
  1 ≤ csz → stream_text cs = stream_text cs' →
  Forall (λ c, plain c.2 = true) cs → Forall (λ c, plain c.2 = true) cs' →
  length (stream_text cs) ≤ or_default max_len MAX_HISTORY_LENGTH →
  verdict (process_chunks cs (token_window_init thr csz max_len)).1
  = verdict (process_chunks cs' (token_window_init thr csz max_len)).1.
Proof.
  intros Hcsz Heq Hcs Hcs' Hlen. set (d := token_window_init thr csz max_len).
  assert (analyze_text d [] = (Ok false, d)) as Hnil.
  { unfold analyze_text. by rewrite analyze_loop_done. }
  rewrite !(stream_is_text d _ _ []) // ?app_nil_l ?Heq //. by rewrite -Heq.
Qed.

(** C11: A text that is a loop from its start is detected.  A new detector that
    is handed, in any plain chunks, a text of period [L] reports a loop when the
    threshold is at least two, the period is at most one and a half windows, the
    first window has enough letters, and the text fits the history and is
    [threshold - 1] periods and a window long.  No assumption on the hash is
    needed. *)
Theorem periodic_text_detected (thr csz max_len L : nat) (cs : list (Q * text)) :
  1 ≤ csz → 2 ≤ or_default thr CONTENT_LOOP_THRESHOLD → 1 ≤ L → 2 * L ≤ 3 * csz →
  Forall (λ c, plain c.2 = true) cs →
  periodic L (stream_text cs) → rich (window (stream_text cs) csz 0) →
  (or_default thr CONTENT_LOOP_THRESHOLD - 1) * L + csz ≤ length (stream_text cs) →
  length (stream_text cs) ≤ or_default max_len MAX_HISTORY_LENGTH →
  ∃ ev d', process_chunks cs (token_window_init thr csz max_len) = (Ok (Some ev), d').
Proof.
  intros Hcsz Ht HL HLc Hpl Hper Hr Hlen Hmax. set (d := token_window_init thr csz max_len).
  assert (analyze_text d [] = (Ok false, d)) as Hnil.
  { unfold analyze_text. by rewrite analyze_loop_done. }
  pose proof (stream_is_text d cs d [] eq_refl eq_refl eq_refl Hnil Hpl Hmax) as Hv.
  rewrite app_nil_l (analyze_periodic _ _ L (or_default thr CONTENT_LOOP_THRESHOLD - 1)) in Hv;
    [change (or_default thr CONTENT_LOOP_THRESHOLD
       = S (or_default thr CONTENT_LOOP_THRESHOLD - 1)); lia
     |lia|done|by rewrite /first_bucket /= lookup_empty|done|done|done|done|apply Nat.le_0_l|apply enough_start|].
  destruct (process_chunks cs d) as [[[ev|]|] d']; try done. by exists ev, d'.
Qed.

(** A threshold of one breaks the detector.  With
    [content_loop_threshold = 1], which the configuration check accepts, a text
    whose first window recurs makes the detector divide by zero instead of
    reporting the loop. *)
Theorem threshold_one_raises (csz max_len p : nat) (cs : list (Q * text)) :
  1 ≤ csz → Forall (λ c, plain c.2 = true) cs → 1 ≤ p →
  rich (window (stream_text cs) csz 0) →
  window (stream_text cs) csz p = window (stream_text cs) csz 0 →
  p + csz ≤ length (stream_text cs) →
  length (stream_text cs) ≤ or_default max_len MAX_HISTORY_LENGTH →
  (process_chunks cs (token_window_init 1 csz max_len)).1 = Err ZeroDivisionError.
Proof.
  intros Hcsz Hpl Hp Hr Hw Hlen Hmax. set (d := token_window_init 1 csz max_len).
  assert (analyze_text d [] = (Ok false, d)) as Hnil.
  { unfold analyze_text. by rewrite analyze_loop_done. }
  pose proof (stream_is_text d cs d [] eq_refl eq_refl eq_refl Hnil Hpl Hmax) as Hv.
  rewrite app_nil_l analyze_text_first // in Hv; [simpl; lia|].
  rewrite (analyze_raises _ _ p) // in Hv;
    [by rewrite /= lookup_singleton_eq|unfold enough; simpl; lia|].
  destruct (process_chunks cs d) as [[[ev|]|[]] d']; done.
Qed.

(** The non-streaming check looks at the end of the content only.  For
    content without fences that is not a divider, [check_for_loops] on the whole
    content and on its last [max_history_length] characters do exactly the same,
    result and state: a loop in the rest of a long response is not seen. *)
Theorem check_sees_only_tail (now : Q) (content : text) (d : TokenWindowLoopDetector) :
  plain content = true → plain (suffix (max_len_of d) content) = true →
  check_for_loops now content d = check_for_loops now (suffix (max_len_of d) content) d.
Proof.
  intros Hp Hp'. unfold check_for_loops, process_chunk.
  assert (1 ≤ max_len_of d) as Hm by (apply or_default_pos; by apply Nat.leb_le).
  assert (suffix (max_len_of d) content = [] ↔ content = []) as Hnil.
  { rewrite -!length_zero_iff_nil length_suffix. lia. }
  rewrite -(bool_decide_ext _ _ Hnil). destruct (bool_decide _) eqn:Hb; [done|].
  rewrite !check_content_cases // Hp Hp'.
  change (in_code_block (reset d)) with false. cbv iota.
  assert (ingest content (reset d) = ingest (suffix (max_len_of d) content) (reset d)) as ->;
    [|done].
  unfold ingest, _truncate_and_update.
  cbn [set_tracking hist reset set_flags _reset_content_tracking content_stats
       last_content_index app].
  change (max_len_of (set_tracking _ _ _ _)) with (max_len_of d).
  rewrite length_suffix (proj2 (Nat.leb_le (Nat.min _ _) _)); [lia|].
  destruct (Nat.leb_spec (length content) (max_len_of d)); [by rewrite suffix_all|].
  by rewrite omap_empty.
Qed.

(** The non-streaming check does not disturb the stream, but forgets the
    reported loops.  When [check_for_loops] returns, the streaming state is what
    it was (history, positions, index, flags), and the event list holds nothing
    but the event of the check. *)
Theorem check_restores_stream (now : Q) (content : text) (d d' : TokenWindowLoopDetector)
    (r : LoopDetectionResult) :
  content ≠ [] → check_for_loops now content d = (Ok r, d') →
  _save_state d' = _save_state d ∧ same_settings d d' ∧
  length (_loop_events d') = (if has_loop r then 1 else 0).
Proof.
  intros Hne. unfold check_for_loops. rewrite bool_decide_false //.
  destruct (process_chunk now content (reset d)) as [[ev|] d1] eqn:Hp; [|done].
  destruct (process_chunk_events _ _ _ _ _ Hp) as (Hs & Hev).
  destruct ev; intros [= <- <-]; (split; [done|]; split; [exact Hs|]); simpl; rewrite Hev //.
Qed.
End detector.

(** ** Samples

    A Latin letter test and a polynomial hash, to run the detector. *)

Definition latin_letter (c : N) : bool :=
  ((65 <=? c) && (c <=? 90) || (97 <=? c) && (c <=? 122))%N.

Definition sample_chunks : list (Q * text) :=
  [(1, lit "abcab"); (2, lit "ca"); (3, lit "bcabcabc")]%Q.

Lemma short_loop_sound_witness :
  loop_in latin_letter (lit "abcabcabcabcabc") 4 3.
Proof.
  apply (short_loop_sound latin_letter poly 3 4 30 sample_chunks
    (event_of (process_chunks latin_letter poly sample_chunks (token_window_init 3 4 30)).2 3)
    (process_chunks latin_letter poly sample_chunks (token_window_init 3 4 30)).2).
  vm_compute. reflexivity.
Defined.

Lemma chunking_irrelevant_witness :
  verdict (process_chunks latin_letter poly sample_chunks (token_window_init 3 4 30)).1
  = verdict (process_chunks latin_letter poly [(7%Q, lit "abcabcabcabcabc")]
               (token_window_init 3 4 30)).1.
Proof.
  apply chunking_irrelevant; [lia|reflexivity|repeat constructor|repeat constructor|vm_compute; lia].
Defined.

Lemma periodic_text_detected_witness :
  ∃ ev d', process_chunks latin_letter poly sample_chunks (token_window_init 3 4 30)
           = (Ok (Some ev), d').
Proof.
  apply (periodic_text_detected latin_letter poly 3 4 30 3);
    [lia|vm_compute; lia|lia|lia|repeat constructor| | | |]; try (vm_compute; lia).
  intros i Hi. vm_compute in Hi. do 15 (destruct i as [|i]; [try reflexivity; lia|]). lia.
Defined.

Lemma threshold_one_raises_witness :
  (process_chunks latin_letter poly sample_chunks (token_window_init 1 4 30)).1
  = Err ZeroDivisionError.
Proof.
  apply (threshold_one_raises latin_letter poly 4 30 3);
    [lia|repeat constructor|lia| |reflexivity| |]; vm_compute; lia.
Defined.

Lemma check_sees_only_tail_witness :
  check_for_loops latin_letter poly 0 (lit "abcabcabcabcabc, then other text.")
    (token_window_init 3 4 20)
  = check_for_loops latin_letter poly 0 (lit "bc, then other text.") (token_window_init 3 4 20) ∧
  has_loop (match (check_for_loops latin_letter poly 0 (lit "abcabcabcabcabc")
     (token_window_init 3 4 20)).1 with Ok r => r | Err _ => no_loop end) = true ∧
  (check_for_loops latin_letter poly 0 (lit "abcabcabcabcabc, then other text.")
    (token_window_init 3 4 20)).1 = Ok no_loop.
Proof.
  split; [|split; vm_compute; reflexivity].
  apply (check_sees_only_tail latin_letter poly 0 (lit "abcabcabcabcabc, then other text."));
    reflexivity.
Defined.

Lemma check_restores_stream_witness :
  ∃ d' r, check_for_loops latin_letter poly 0 (lit "hello") (token_window_init 3 4 20) = (Ok r, d')
    ∧ _save_state d' = _save_state (token_window_init 3 4 20).
Proof.
  eexists _, _. split; [vm_compute; reflexivity|].
  eapply (check_restores_stream latin_letter poly 0 (lit "hello")); [done|].
  vm_compute. reflexivity.
Defined.
