(* ===== verification/HybridDetector.v ===== *)
(** * The hybrid loop detector

    [HybridLoopDetector] of [src/src/loop_detection/hybrid_detector.py]: every
    chunk goes to the short pattern detector and, when that reports nothing, to
    the long pattern tracker.  [check_for_loops] runs both over a complete
    response, one character at a time, with a fallback for text that is one
    pattern repeated. *)

From S2P Require Import Prelude LoopText RollingHash TokenWindow.
From stdpp Require Import options.

Module Hybrid.

Record HybridLoopDetector : Type := mk_HybridLoopDetector {
  short_detector : TokenWindowLoopDetector;
  long_detector : RollingHashTracker;
  _is_enabled : bool;
  _loop_events : list LoopDetectionEvent;
  _max_event_history : nat
}.

(** The entries of the configuration dictionaries; a missing entry is [None]. *)
Record short_config : Type := mk_short_config {
  sc_threshold : option nat; sc_chunk_size : option nat; sc_max_length : option nat
}.
Record long_config : Type := mk_long_config {
  lc_min_pattern_length : option nat; lc_max_pattern_length : option nat;
  lc_min_repetitions : option nat; lc_max_history : option nat
}.

Definition long_of_config (c : long_config) : RollingHashTracker :=
  tracker_init (default MIN_LONG_PATTERN_LENGTH (lc_min_pattern_length c))
    (default MAX_LONG_PATTERN_LENGTH (lc_max_pattern_length c))
    (default LONG_PATTERN_MIN_REPETITIONS (lc_min_repetitions c))
    (default MAX_ROLLING_HISTORY (lc_max_history c)).

Definition hybrid_init (sc : short_config) (lc : long_config) : HybridLoopDetector :=
  mk_HybridLoopDetector
    (token_window_init (default 10 (sc_threshold sc)) (default 50 (sc_chunk_size sc))
       (default 1000 (sc_max_length sc)))
    (long_of_config lc) true [] 100.

Definition set_detectors (d : HybridLoopDetector) (s : TokenWindowLoopDetector)
    (l : RollingHashTracker) : HybridLoopDetector :=
  mk_HybridLoopDetector s l (_is_enabled d) (_loop_events d) (_max_event_history d).

Definition set_events (d : HybridLoopDetector) (evs : list LoopDetectionEvent)
    : HybridLoopDetector :=
  mk_HybridLoopDetector (short_detector d) (long_detector d) (_is_enabled d) evs
    (_max_event_history d).

Definition _truncate_event_history_if_needed (d : HybridLoopDetector) : HybridLoopDetector :=
  let n := length (_loop_events d) in
  if n <=? _max_event_history d then d
  else set_events d (drop (n - _max_event_history d) (_loop_events d)).

(** [self._loop_events.append(event)] and the truncation that follows it. *)
Definition record_event (ev : LoopDetectionEvent) (d : HybridLoopDetector)
    : HybridLoopDetector :=
  _truncate_event_history_if_needed (set_events d (_loop_events d ++ [ev])).

(** The event for a match of the long pattern tracker. *)
Definition long_event (now : Q) (m : LongPatternMatch) (t : RollingHashTracker)
    : LoopDetectionEvent :=
  let pattern_length := length (pattern m) in
  let display_pattern :=
    if pattern_length <=? 100 then pattern m
    else lit "Long pattern detected: " ++ take 100 (pattern m) ++ lit "..." in
  mk_LoopDetectionEvent display_pattern pattern_length (repetitions m)
    (pattern_length * repetitions m) 1 (suffix 200 (content t)) now.

Section detector.
Context (isalpha : N → bool) (hash : text → Z).

Definition process_chunk (now : Q) (chunk : text)
    : stm HybridLoopDetector py_error (option LoopDetectionEvent) := λ d,
  if negb (_is_enabled d) || bool_decide (chunk = []) then (Ok None, d)
  else
    match TokenWindow.process_chunk isalpha hash now chunk (short_detector d) with
    | (Err e, s) => (Err e, set_detectors d s (long_detector d))
    | (Ok (Some short_event), s) =>
        (Ok (Some short_event),
         record_event short_event (set_detectors d s (long_detector d)))
    | (Ok None, s) =>
        let d := set_detectors d s (long_detector d) in
        match add_content chunk (long_detector d) with
        | (Err e, l) => (Err e, set_detectors d (short_detector d) l)
        | (Ok None, l) => (Ok None, set_detectors d (short_detector d) l)
        | (Ok (Some long_match), l) =>
            let event := long_event now long_match l in
            (Ok (Some event), record_event event (set_detectors d (short_detector d) l))
        end
    end.

(** The first length whose prefix, repeated, is the whole text. *)
Fixpoint simple_repeat (s : text) (lengths : list nat) : option (nat * nat) :=
  match lengths with
  | [] => None
  | pattern_length :: lengths' =>
      let repetitions := length s / pattern_length in
      if negb (length s mod pattern_length =? 0) then simple_repeat s lengths'
      else if repetitions <? 3 then simple_repeat s lengths'
      else if bool_decide (repeat_text (take pattern_length s) repetitions = s)
      then Some (pattern_length, repetitions)
      else simple_repeat s lengths'
  end.

Definition _detect_simple_repeat_loop (now : Q) (content : text) (d : HybridLoopDetector)
    : option LoopDetectionEvent * HybridLoopDetector :=
  let max_pattern_length := Nat.min (length content / 2) 200 in
  match simple_repeat content (seq 5 (S max_pattern_length - 5)) with
  | Some (pattern_length, repetitions) =>
      let event := mk_LoopDetectionEvent (take pattern_length content) pattern_length
        repetitions (pattern_length * repetitions) (3 # 4) (suffix 200 content) now in
      (Some event, record_event event d)
  | None => (None, d)
  end.

Definition enable (d : HybridLoopDetector) : HybridLoopDetector :=
  mk_HybridLoopDetector (TokenWindow.enable (short_detector d)) (long_detector d) true
    (_loop_events d) (_max_event_history d).

Definition disable (d : HybridLoopDetector) : HybridLoopDetector :=
  mk_HybridLoopDetector (TokenWindow.disable (short_detector d)) (long_detector d) false
    (_loop_events d) (_max_event_history d).

Definition reset (d : HybridLoopDetector) : HybridLoopDetector :=
  mk_HybridLoopDetector (TokenWindow.reset (short_detector d))
    (tracker_reset (long_detector d)) (_is_enabled d) [] (_max_event_history d).

(** A dictionary with the entries that are present. *)
Definition update_config (short : option config_update) (long : option long_config)
    (d : HybridLoopDetector) : HybridLoopDetector :=
  let s := match short with
           | Some u => TokenWindow.update_config u (short_detector d)
           | None => short_detector d
           end in
  let l := match long with Some c => long_of_config c | None => long_detector d end in
  reset (set_detectors d s l).

(** [HybridDetectorInternalState] *)
Record HybridDetectorInternalState : Type := mk_HybridDetectorInternalState {
  short_detector_state : LoopDetectorInternalState;
  long_detector_content : text;
  saved_loop_events : list LoopDetectionEvent;
  long_detector_last_check_length : nat
}.

Definition _save_state (d : HybridLoopDetector) : HybridDetectorInternalState :=
  mk_HybridDetectorInternalState (TokenWindow._save_state (short_detector d))
    (content (long_detector d)) (_loop_events d) (_last_check_length (long_detector d)).

(** Only [content] and [_last_check_length] of the tracker are restored. *)
Definition _restore_state (st : HybridDetectorInternalState) (d : HybridLoopDetector)
    : HybridLoopDetector :=
  let l := long_detector d in
  let c := long_detector_content st in
  set_events
    (set_detectors d (TokenWindow._restore_state (short_detector_state st) (short_detector d))
       (set_stream l (_content_chunks l) (_content_total_len l) c
          (Nat.min (long_detector_last_check_length st) (length c))))
    (saved_loop_events st).

(** The slices [content[index : index + 1]], until an event. *)
Fixpoint process_characters (now : Q) (content : text)
    : stm HybridLoopDetector py_error (option LoopDetectionEvent) :=
  match content with
  | [] => mret None
  | c :: content =>
      ev ← process_chunk now [c];
      match ev with None => process_characters now content | Some _ => mret ev end
  end.

Definition result_of (d : HybridLoopDetector) (ev : LoopDetectionEvent) : LoopDetectionResult :=
  let pattern_length :=
    if (0 <? repetition_count ev) && (total_length ev mod repetition_count ev =? 0)
    then total_length ev / repetition_count ev
    else length (event_pattern ev) in
  let detection_method :=
    if pattern_length <=? content_chunk_size (short_detector d)
    then "short_pattern" else "long_pattern" in
  mk_LoopDetectionResult true (Some (event_pattern ev)) (Some (repetition_count ev))
    (Some pattern_length) (Some (total_length ev)) (Some detection_method).

(** The [finally] clause restores the state on every way out. *)
Definition check_for_loops (now : Q) (content : text)
    : stm HybridLoopDetector py_error LoopDetectionResult := λ d,
  if bool_decide (content = []) then (Ok no_loop, d)
  else
    let original_state := _save_state d in
    match process_characters now content (reset d) with
    | (Err e, d) => (Err e, _restore_state original_state d)
    | (Ok (Some ev), d) => (Ok (result_of d ev), _restore_state original_state d)
    | (Ok None, d) =>
        match _detect_simple_repeat_loop now content d with
        | (Some ev, d) => (Ok (result_of d ev), _restore_state original_state d)
        | (None, d) => (Ok no_loop, _restore_state original_state d)
        end
    end.

(** ** Streaming *)

(** A consumer hands over the chunks until a loop is reported. *)
Fixpoint process_chunks (cs : list (Q * text))
    : stm HybridLoopDetector py_error (option LoopDetectionEvent) :=
  match cs with
  | [] => mret None
  | (now, c) :: cs =>
      ev ← process_chunk now c; match ev with None => process_chunks cs | Some _ => mret ev end
  end.

(** Both detectors have seen the text [s], and nothing was reported. *)
Definition hybrid_stream (d0 d : HybridLoopDetector) (s : text) : Prop :=
  _is_enabled d = true ∧ in_stream isalpha (short_detector d) s ∧
  same_settings (short_detector d0) (short_detector d) ∧
  streamed (long_detector d0) (long_detector d) s.

(** What an event says about the text: the window of the short detector, or the
    repeated substring of the tracker. *)
Definition event_justified (d0 : HybridLoopDetector) (s : text) (ev : LoopDetectionEvent)
    : Prop :=
  (loop_in isalpha s (content_chunk_size (short_detector d0)) (threshold_of (short_detector d0)) ∧
   event_pattern_length ev = content_chunk_size (short_detector d0) ∧
   repetition_count ev = threshold_of (short_detector d0)) ∨
  (∃ m ps, repeats_in s m ps ∧
     min_pattern_length (long_detector d0) ≤ length (pattern m)
       ≤ max_pattern_length (long_detector d0) ∧
     min_repetitions (long_detector d0) ≤ repetitions m ∧
     event_pattern_length ev = length (pattern m) ∧ repetition_count ev = repetitions m).

(** One chunk given to the tracker, seen as a stream of one chunk. *)
Lemma add_content_sound t0 t s c m t' :
  streamed t0 t s → add_content c t = (Ok (Some m), t') →
  min_pattern_length t0 ≤ length (pattern m) ≤ max_pattern_length t0 ∧
  min_repetitions t0 ≤ repetitions m ∧ ∃ ps, repeats_in (s ++ c) m ps.
Proof.
  intros Hst Ha. pose proof (feed_sound t0 [c] t s m t' Hst) as Hf. simpl in Hf.
  rewrite app_nil_r in Hf. apply Hf. unfold mbind, stm_bind. by rewrite Ha.
Qed.

Lemma process_chunk_stream d0 d s now c :
  hybrid_stream d0 d s → threshold_of (short_detector d0) ≠ 1 →
  ∃ o d', process_chunk now c d = (Ok o, d') ∧
    match o with
    | None => hybrid_stream d0 d' (s ++ c)
    | Some ev => event_justified d0 (s ++ c) ev
    end.
Proof.
  intros (Hen & Hin & Hset & Hstr) Hthr. unfold process_chunk. rewrite Hen. cbn [negb orb].
  case_bool_decide as Hc.
  { subst c. eexists _, _. split; [done|]. by rewrite app_nil_r. }
  pose proof (threshold_same _ _ Hset) as Hth.
  destruct (process_chunk_spec isalpha hash now c _ _ Hin) as (r & s' & -> & Hs & Ho).
  destruct r as [[ev|]|e]; [| |congruence].
  - destruct Ho as (-> & Hl & k & Hk). eexists _, _. split; [done|]. left.
    rewrite Hth in Hl. destruct Hset as (_ & Hcs & _). rewrite Hcs in Hl.
    cbn [event_of event_pattern_length repetition_count].
    split_and!; [|by destruct Hs as (_ & -> & _)|by rewrite -Hth -(threshold_same _ _ Hs)].
    rewrite -(take_drop k (s ++ c)) -Hk -(app_nil_r (stream_content_history s')). by apply loop_in_infix.
  - destruct (add_content_streamed (long_detector d0) (long_detector d) s c Hstr)
      as (r & l' & Ha & Hst' & _). simpl. rewrite Ha.
    destruct r as [[m|]|e].
    + eexists _, _. split; [done|]. right.
      destruct (add_content_sound _ _ _ _ _ _ Hstr Ha) as (Hlen & Hrep & ps & Hps).
      by exists m, ps.
    + eexists _, _. split; [done|]. split_and!; [done|done|by eapply same_settings_trans|done].
    + exfalso. by eapply add_content_no_raise in Ha.
Qed.

Lemma process_chunks_stream d0 cs d s :
  hybrid_stream d0 d s → threshold_of (short_detector d0) ≠ 1 →
  ∃ o d', process_chunks cs d = (Ok o, d') ∧
    match o with
    | None => hybrid_stream d0 d' (s ++ stream_text cs)
    | Some ev => ∃ cs1 cs2, cs = cs1 ++ cs2 ∧ event_justified d0 (s ++ stream_text cs1) ev
    end.
Proof.
  intros Hst Hthr. revert d s Hst. induction cs as [|[now c] cs IH]; intros d s Hst.
  { eexists _, _. split; [done|]. by rewrite /stream_text /= app_nil_r. }
  destruct (process_chunk_stream d0 d s now c Hst Hthr) as (o & d1 & Hp & Ho).
  simpl. unfold mbind, stm_bind. rewrite Hp. destruct o as [ev|].
  - eexists _, _. split; [done|]. exists [(now, c)], cs. split; [done|].
    by rewrite /stream_text /= app_nil_r.
  - destruct (IH d1 (s ++ c) Ho) as (o & d2 & Hd2 & Ho2). exists o, d2. split; [done|].
    unfold stream_text in *. destruct o as [ev|].
    + destruct Ho2 as (cs1 & cs2 & -> & Hj). exists ((now, c) :: cs1), cs2.
      split; [done|]. csimpl. by rewrite assoc_L.
    + csimpl. by rewrite assoc_L.
Qed.

Lemma hybrid_stream_init sc lc :
  1 ≤ default MIN_LONG_PATTERN_LENGTH (lc_min_pattern_length lc) →
  1 ≤ default LONG_PATTERN_MIN_REPETITIONS (lc_min_repetitions lc) →
  hybrid_stream (hybrid_init sc lc) (hybrid_init sc lc) [].
Proof.
  intros. split; [done|]. split; [apply in_stream_init|]. split; [done|]. by apply streamed_init.
Qed.

(** ** The fallback *)

Lemma simple_repeat_Some s ls l k :
  simple_repeat s ls = Some (l, k) →
  l ∈ ls ∧ 3 ≤ k ∧ length s = k * l ∧ s = repeat_text (take l s) k.
Proof.
  induction ls as [|l' ls IH]; simpl; [done|].
  destruct (Nat.eqb_spec (length s mod l') 0) as [Hm|]; simpl;
    [|intros (?&?&?&?)%IH; split_and!; by [right|]].
  destruct (Nat.ltb_spec (length s / l') 3);
    [intros (?&?&?&?)%IH; split_and!; by [right|]|].
  case_bool_decide as Hr; [|intros (?&?&?&?)%IH; split_and!; by [right|]].
  intros [= <- <-]. split; [by left|]. split; [done|]. split; [|done].
  destruct l' as [|l']; [simpl in *; lia|].
  pose proof (Nat.div_mod (length s) (S l') ltac:(lia)). lia.
Qed.

(** Text that is a pattern repeated has a length that works. *)
Lemma simple_repeat_found w k ls :
  3 ≤ k → 1 ≤ length w → length w ∈ ls → is_Some (simple_repeat (repeat_text w k) ls).
Proof.
  intros Hk Hw. induction ls as [|l' ls IH]; [by intros ?%not_elem_of_nil|].
  intros [<-|Hin]%elem_of_cons; cbn [simple_repeat].
  - rewrite length_repeat_text Nat.Div0.mod_mul /= Nat.div_mul; [lia|].
    rewrite (proj2 (Nat.ltb_ge _ _)) // bool_decide_true; [|by eexists].
    f_equal. destruct k as [|k]; [lia|]. simpl. by rewrite take_app_length.
  - repeat case_step; eauto.
Qed.

Lemma detect_simple_repeat_found now w k d :
  3 ≤ k → 5 ≤ length w ≤ 200 →
  is_Some (_detect_simple_repeat_loop now (repeat_text w k) d).1.
Proof.
  intros Hk Hw. unfold _detect_simple_repeat_loop.
  edestruct (simple_repeat_found w k) as [[l r] ->]; [done|lia| |by eexists].
  apply elem_of_seq. rewrite length_repeat_text.
  assert (length w ≤ k * length w / 2) by (apply Nat.div_le_lower_bound; nia). lia.
Qed.

Lemma process_characters_chunks now s d :
  process_characters now s d = process_chunks ((λ c, (now, [c])) <$> s) d.
Proof.
  revert d. induction s as [|c s IH]; intros d; [done|]. csimpl.
  unfold mbind, stm_bind. destruct (process_chunk now [c] d) as [[[ev|]|] d1]; [done| |done].
  apply IH.
Qed.

Lemma hybrid_stream_reset d :
  _is_enabled d = true → TokenWindow._is_enabled (short_detector d) = true →
  tracker_config_ok (long_detector d) → hybrid_stream (reset d) (reset d) [].
Proof.
  intros Hen Hens Hc. split; [done|].
  split; [|split; [done|]].
  - split; [intros hv l; simpl; by rewrite lookup_empty|].
    split_and!; simpl; done || lia || by exists 0.
  - split; [split; [exact Hc|]; split_and!; simpl; done || lia|].
    split; [done|]. split; [by left|]. split; [done|]. by exists 0.
Qed.

Lemma stream_text_characters now (s : text) : stream_text ((λ c, (now, [c])) <$> s) = s.
Proof.
  unfold stream_text. rewrite -list_fmap_compose. induction s as [|c s IH]; csimpl; [done|].
  by rewrite -{2}IH.
Qed.

(** ** Memory *)

(** What the tracker holds, whatever was restored into it. *)
Definition long_bounded (t : RollingHashTracker) : Prop :=
  length (content t) ≤ max_history t ∧ _last_check_length t ≤ max_history t ∧
  pending t ≤ _content_total_len t ≤ max_history t + max_delay t.

Definition short_bounded (d : TokenWindowLoopDetector) : Prop :=
  length (stream_content_history d) ≤ max_len_of d.

Definition hybrid_bounded (d : HybridLoopDetector) : Prop :=
  long_bounded (long_detector d) ∧ short_bounded (short_detector d) ∧
  length (_loop_events d) ≤ _max_event_history d.

Lemma add_content_bounded c t :
  long_bounded t → long_bounded (add_content c t).2 ∧ same_config t (add_content c t).2.
Proof.
  intros (Hc & Hl & Hp & Ht). destruct c as [|x c]; [done|]. unfold add_content. cbv zeta.
  set (t1 := set_stream t _ _ _ _).
  assert (pending t1 = pending t + length (x :: c)) as Hp1.
  { unfold pending, t1. cbn [set_stream _content_chunks]. by rewrite mjoin_snoc length_app. }
  assert (_content_total_len t1 = _content_total_len t + length (x :: c)) as Ht1 by done.
  destruct (Nat.ltb_spec (_content_total_len t1) (min_pattern_length t1 * min_repetitions t1))
    as [Hlt|_]; [split; [|done]|].
  { cbn [snd]. split_and!; [exact Hc|exact Hl|lia|]. change (max_delay t1) with (max_delay t).
    change (max_history t1) with (max_history t). unfold max_delay.
    change (min_pattern_length t1 * min_repetitions t1)
      with (min_pattern_length t * min_repetitions t) in Hlt. lia. }
  destruct (_should_run_long_detection t1 (_content_total_len t1)) eqn:Hrun; cbn [negb snd];
    [|split; [|done]].
  - destruct (truncate_materialize t1) as (Hs & Hch & Htl & Hsame).
    { unfold t1. cbn. by destruct (_content_chunks t). }
    set (t2 := truncate_content _) in *.
    assert (length (content t2) ≤ max_history t2) as Hlen.
    { destruct Hsame as (_ & _ & _ & -> & _). rewrite Hs length_suffix. lia. }
    split; [|exact Hsame]. split_and!; [exact Hlen|exact Hlen| |].
    + unfold pending. cbn [set_stream _content_chunks]. rewrite Hch. cbn. lia.
    + cbn [set_stream _content_total_len max_history]. rewrite Htl.
      change (max_delay (set_stream _ _ _ _ _)) with (max_delay t2). lia.
  - unfold _should_run_long_detection in Hrun. destruct (_ =? 0); [done|].
    apply Nat.leb_gt in Hrun. pose proof (interval_bound t1 (_content_total_len t1)) as Hi.
    change (_last_check_length t1) with (_last_check_length t) in Hrun.
    split_and!; [exact Hc|exact Hl|lia|]. change (max_history t1) with (max_history t). lia.
Qed.

Lemma ingest_bounded c d0 d :
  same_settings d0 d →
  short_bounded (ingest isalpha hash c d).2 ∧ same_settings d0 (ingest isalpha hash c d).2.
Proof.
  intros Hs. destruct (ingest_frame isalpha hash c d) as (st & n & ->). split; [|done].
  unfold short_bounded. cbn. rewrite length_suffix.
  change (max_len_of (set_tracking _ _ _ _)) with (max_len_of d). lia.
Qed.

Lemma short_process_bounded now c d :
  short_bounded d →
  short_bounded (TokenWindow.process_chunk isalpha hash now c d).2 ∧
  same_settings d (TokenWindow.process_chunk isalpha hash now c d).2.
Proof.
  intros Hb. unfold TokenWindow.process_chunk.
  destruct (loop_detected d) eqn:Hld; [done|]. destruct (_ || _ || _); [done|].
  rewrite check_content_cases //. set (x := if plain c then _ else _).
  assert (short_bounded x.2 ∧ same_settings d x.2) as Hx.
  { unfold x. destruct (plain c); [destruct (in_code_block d)|cbv zeta; destruct (_ || _ || _)].
    - done.
    - by apply ingest_bounded.
    - split; [|done]. unfold short_bounded. cbn. lia.
    - by apply ingest_bounded. }
  by destruct x as [[[]|e] d1].
Qed.

Lemma record_event_bounded ev d :
  length (_loop_events (record_event ev d)) ≤ _max_event_history d ∧
  short_detector (record_event ev d) = short_detector d ∧
  long_detector (record_event ev d) = long_detector d ∧
  _max_event_history (record_event ev d) = _max_event_history d.
Proof.
  unfold record_event, _truncate_event_history_if_needed. cbv zeta.
  set (d1 := set_events d _). change (_max_event_history d1) with (_max_event_history d).
  destruct (Nat.leb_spec (length (_loop_events d1)) (_max_event_history d)); [done|].
  split; [|done]. cbn [set_events _loop_events]. rewrite length_drop. lia.
Qed.

(** Only the streaming state differs. *)
Definition hybrid_frame (d d' : HybridLoopDetector) : Prop :=
  same_config (long_detector d) (long_detector d') ∧
  same_settings (short_detector d) (short_detector d') ∧
  _max_event_history d' = _max_event_history d.

Lemma hybrid_frame_trans d1 d2 d3 :
  hybrid_frame d1 d2 → hybrid_frame d2 d3 → hybrid_frame d1 d3.
Proof.
  intros (?&?&?) (?&?&?). split_and!;
    [by eapply same_config_trans|by eapply same_settings_trans|congruence].
Qed.

Definition bounded_from (d d' : HybridLoopDetector) : Prop :=
  hybrid_bounded d' ∧ hybrid_frame d d'.

Lemma bounded_record d ev d1 :
  bounded_from d d1 → bounded_from d (record_event ev d1).
Proof.
  intros [(Hl & Hs & He) (Hf1 & Hf2 & Hf3)].
  destruct (record_event_bounded ev d1) as (Hev & Hsd & Hld & Hm).
  split; [split_and!|split_and!]; by rewrite ?Hsd ?Hld ?Hm.
Qed.

Lemma process_chunk_bounded now c d :
  hybrid_bounded d → bounded_from d (process_chunk now c d).2.
Proof.
  intros (Hl & Hs & He). unfold process_chunk. destruct (_ || _); [done|].
  destruct (short_process_bounded now c _ Hs) as [Hs' Hs2].
  destruct (add_content_bounded c _ Hl) as [Hl' Hl2].
  destruct (TokenWindow.process_chunk _ _ _ _ _) as [[[ev|]|e] s]; cbn [snd] in *; [| |done].
  - by apply bounded_record.
  - cbv zeta. cbn [set_detectors long_detector short_detector].
    destruct (add_content c (long_detector d)) as [[[m|]|e] l]; cbn [snd] in *; [|done..].
    by apply bounded_record.
Qed.

Lemma process_characters_bounded now s d :
  hybrid_bounded d → bounded_from d (process_characters now s d).2.
Proof.
  revert d. induction s as [|c s IH]; intros d Hb; [done|]. simpl. unfold mbind, stm_bind.
  pose proof (process_chunk_bounded now [c] d Hb) as [Hb1 Hf1].
  destruct (process_chunk now [c] d) as [[[ev|]|e] d1]; cbn [snd] in *; [done| |done].
  destruct (IH d1 Hb1) as [Hb2 Hf2]. split; [done|]. by eapply hybrid_frame_trans.
Qed.

Lemma restore_bounded d d1 :
  hybrid_bounded d → bounded_from d d1 → hybrid_bounded (_restore_state (_save_state d) d1).
Proof.
  intros ((Hc & Hl & _) & Hs & He) [((Hc1 & Hl1 & Hp1) & _ & _) (Hf1 & Hf2 & Hf3)].
  destruct Hf1 as (G1 & G2 & G3 & G4 & G5). unfold hybrid_bounded, long_bounded, short_bounded.
  cbn [_restore_state _save_state set_events set_detectors set_stream long_detector short_detector
       content max_history _last_check_length _content_total_len _loop_events
       _max_event_history long_detector_content long_detector_last_check_length saved_loop_events].
  split; [split_and!; [lia|lia|exact (proj1 Hp1)|exact (proj2 Hp1)]|].
  split; [|lia]. change (length (stream_content_history (short_detector d))
    ≤ max_len_of (short_detector d1)). by rewrite (max_len_same _ _ Hf2).
Qed.

Lemma reset_bounded d : hybrid_bounded (reset d).
Proof.
  split; [split_and!; cbn; lia|]. split; [unfold short_bounded; cbn; lia|cbn; lia].
Qed.

Lemma check_bounded now s d : hybrid_bounded d → hybrid_bounded (check_for_loops now s d).2.
Proof.
  intros Hb. unfold check_for_loops. case_bool_decide; [done|].
  assert (hybrid_frame d (reset d)) as Hr by done.
  destruct (process_characters_bounded now s (reset d) (reset_bounded d)) as [Hb1 Hf1].
  destruct (process_characters now s (reset d)) as [[[ev|]|e] d1]; cbn [snd] in *;
    [by apply restore_bounded; [|split; [|by eapply hybrid_frame_trans]]| |
     by apply restore_bounded; [|split; [|by eapply hybrid_frame_trans]]].
  assert (bounded_from d d1) as Hd1 by (split; [done|]; by eapply hybrid_frame_trans).
  unfold _detect_simple_repeat_loop. cbv zeta.
  destruct (simple_repeat _ _) as [[l k]|]; cbn [snd]; apply restore_bounded; try done.
  by apply bounded_record.
Qed.

(** The calls a detector can receive. *)
Inductive operation : Type :=
| OpChunk (now : Q) (chunk : text)
| OpCheck (now : Q) (content : text)
| OpEnable
| OpDisable
| OpReset
| OpUpdate (short : option config_update) (long : option long_config).

(** The detector after a call, whether it returns or raises. *)
Definition step (d : HybridLoopDetector) (o : operation) : HybridLoopDetector :=
  match o with
  | OpChunk now c => (process_chunk now c d).2
  | OpCheck now s => (check_for_loops now s d).2
  | OpEnable => enable d
  | OpDisable => disable d
  | OpReset => reset d
  | OpUpdate short long => update_config short long d
  end.

Lemma step_bounded d o : hybrid_bounded d → hybrid_bounded (step d o).
Proof.
  intros Hb. destruct o; simpl.
  - by apply process_chunk_bounded.
  - by apply check_bounded.
  - exact Hb.
  - exact Hb.
  - apply reset_bounded.
  - apply reset_bounded.
Qed.

(** Below the least analysed length, the tracker only collects. *)
Lemma add_content_collects c t :
  c ≠ [] → _content_total_len t + length c < min_pattern_length t * min_repetitions t →
  add_content c t
  = (Ok None, set_stream t (_content_chunks t ++ [c]) (_content_total_len t + length c)
       (content t) (_last_check_length t)).
Proof.
  intros Hc Hlt. destruct c as [|x c]; [done|]. unfold add_content.
  cbn [set_stream _content_total_len min_pattern_length min_repetitions].
  by rewrite (proj2 (Nat.ltb_lt _ _)).
Qed.

Lemma process_characters_collects now s d d' :
  _is_enabled d = true →
  _content_total_len (long_detector d) + length s
    < min_pattern_length (long_detector d) * min_repetitions (long_detector d) →
  process_characters now s d = (Ok None, d') →
  mjoin (_content_chunks (long_detector d')) = mjoin (_content_chunks (long_detector d)) ++ s.
Proof.
  revert d. induction s as [|c s IH]; intros d Hen Hlt; simpl.
  { intros [= <-]. by rewrite app_nil_r. }
  unfold mbind, stm_bind, process_chunk. rewrite Hen bool_decide_false //. cbn [negb orb].
  destruct (TokenWindow.process_chunk _ _ _ _ _) as [[[ev|]|e] sd]; [done| |done].
  cbn [set_detectors long_detector short_detector] in *.
  rewrite add_content_collects //; [simpl in *; lia|]. cbn [set_detectors] in *.
  intros Hf. apply IH in Hf; [|done|cbn in *; lia]. rewrite Hf. cbn.
  by rewrite mjoin_snoc -assoc_L.
Qed.

(** ** Properties *)

(** C12: The first report of the hybrid detector is of a real loop.  With positive
    long pattern settings and a threshold other than one (with one the short
    detector can divide by zero, [threshold_one_raises]), streaming any chunks into
    a new detector up to its first event returns, and the event is backed by the
    text seen so far: either a window that recurs [content_loop_threshold] times
    close together, or a substring of admissible length that recurs without
    overlap; the event carries that length and count. *)
Theorem hybrid_reports_justified (sc : short_config) (lc : long_config) (cs : list (Q * text)) :
  1 ≤ default MIN_LONG_PATTERN_LENGTH (lc_min_pattern_length lc) →
  1 ≤ default LONG_PATTERN_MIN_REPETITIONS (lc_min_repetitions lc) →
  default 10 (sc_threshold sc) ≠ 1 →
  ∃ o d', process_chunks cs (hybrid_init sc lc) = (Ok o, d') ∧
    ∀ ev, o = Some ev → ∃ cs1 cs2, cs = cs1 ++ cs2 ∧
      event_justified (hybrid_init sc lc) (stream_text cs1) ev.
Proof.
  intros Hm Hr Ht.
  destruct (process_chunks_stream (hybrid_init sc lc) cs _ [] (hybrid_stream_init sc lc Hm Hr))
    as (o & d' & Hp & Ho).
  - unfold threshold_of, or_default. cbn. by destruct (default 10 (sc_threshold sc)) as [|[|]].
  - exists o, d'. split; [done|]. intros ev ->. exact Ho.
Qed.

(** Checking a complete response.  On an enabled detector, [check_for_loops]
    returns; a positive answer is backed by the content (a recurring window, a
    recurring substring, or the content being one pattern repeated), and content
    that is a pattern of 5 to 200 characters repeated three times or more is
    always answered positively. *)
Theorem check_for_loops_correct (now : Q) (s : text) (d : HybridLoopDetector) :
  _is_enabled d = true → TokenWindow._is_enabled (short_detector d) = true →
  tracker_config_ok (long_detector d) → threshold_of (short_detector d) ≠ 1 →
  ∃ r d', check_for_loops now s d = (Ok r, d') ∧
    (has_loop r = true →
       (∃ s1 s2 ev, s = s1 ++ s2 ∧ event_justified (reset d) s1 ev)
       ∨ ∃ l k, 5 ≤ l ≤ 200 ∧ 3 ≤ k ∧ s = repeat_text (take l s) k) ∧
    (∀ w k, 3 ≤ k → 5 ≤ length w ≤ 200 → s = repeat_text w k → has_loop r = true).
Proof.
  intros Hen Hens Hcfg Hthr. unfold check_for_loops. case_bool_decide as Hs.
  { eexists _, _. split; [done|]. split; [done|]. intros w k Hk Hw ->.
    apply (f_equal length) in Hs. rewrite length_repeat_text /= in Hs. nia. }
  rewrite process_characters_chunks.
  destruct (process_chunks_stream (reset d) ((λ c, (now, [c])) <$> s) _ []
    (hybrid_stream_reset d Hen Hens Hcfg) Hthr) as (o & d1 & -> & Ho).
  destruct o as [ev|].
  - eexists _, _. split; [done|]. split; [|done]. intros _. left.
    destruct Ho as (cs1 & cs2 & Heq & Hj). exists (stream_text cs1), (stream_text cs2), ev.
    split; [|done]. rewrite -(stream_text_characters now s) Heq /stream_text fmap_app.
    apply join_app.
  - destruct (_detect_simple_repeat_loop now s d1) as [[ev|] d2] eqn:Hd.
    + eexists _, _. split; [done|]. split; [|done]. intros _. right.
      unfold _detect_simple_repeat_loop in Hd.
      destruct (simple_repeat _ _) as [[l k]|] eqn:Hsr; [|done].
      apply simple_repeat_Some in Hsr as (Hl%elem_of_seq & Hk & _ & Heq).
      exists l, k. split; [lia|done].
    + eexists _, _. split; [done|]. split; [done|]. intros w k Hk Hw ->.
      destruct (detect_simple_repeat_found now w k d1 Hk Hw) as [ev Hev].
      rewrite Hd in Hev. done.
Qed.

(** A check leaks into the stream.  [check_for_loops] saves and restores the
    content of the long pattern tracker but not its waiting chunks: after a check
    of content that is short for the tracker and has no loop, the text that was
    streamed but not yet scanned is gone, and the checked content stands in its
    place. *)
Theorem check_leaks_into_stream (now : Q) (s : text) (d d' : HybridLoopDetector) :
  _is_enabled d = true → s ≠ [] →
  length s < min_pattern_length (long_detector d) * min_repetitions (long_detector d) →
  check_for_loops now s d = (Ok no_loop, d') →
  held (long_detector d') = content (long_detector d) ++ s.
Proof.
  intros Hen Hs Hlt. unfold check_for_loops. rewrite bool_decide_false //.
  destruct (process_characters now s (reset d)) as [[[ev|]|e] d1] eqn:Hp; [done| |done].
  apply process_characters_collects in Hp; [|done|done]. cbn in Hp.
  destruct (_detect_simple_repeat_loop now s d1) as [[ev|] d2] eqn:Hd; [done|].
  unfold _detect_simple_repeat_loop in Hd. destruct (simple_repeat _ _) as [[]|]; [done|].
  injection Hd as <-. intros [= <-]. unfold held. cbn. by rewrite Hp.
Qed.

(** A detector never grows beyond its configuration.  After any calls, in
    any order and whatever they raise (chunks, checks, enabling, disabling,
    resets and new configurations), the short history, the content and waiting
    chunks of the tracker and the list of events are within the bounds of the
    current configuration. *)
Theorem hybrid_memory_bounded (sc : short_config) (lc : long_config) (ops : list operation) :
  hybrid_bounded (foldl step (hybrid_init sc lc) ops).
Proof.
  assert (hybrid_bounded (hybrid_init sc lc)) as Hb.
  { split; [split_and!; cbn; lia|]. split; [unfold short_bounded; cbn; lia|cbn; lia]. }
  revert Hb. generalize (hybrid_init sc lc). induction ops as [|o ops IH]; intros d Hb; [done|].
  apply IH. by apply step_bounded.
Qed.
End detector.

(** ** Samples *)

Definition sample_config : HybridLoopDetector :=
  hybrid_init (mk_short_config (Some 3) (Some 4) (Some 30))
    (mk_long_config (Some 6) (Some 8) (Some 3) (Some 40)).

Lemma hybrid_reports_justified_witness :
  ∃ o d', process_chunks latin_letter poly [(1%Q, lit "abcabc"); (2%Q, lit "abcabcabc")] sample_config
          = (Ok o, d') ∧
    ∀ ev, o = Some ev → ∃ cs1 cs2,
      [(1%Q, lit "abcabc"); (2%Q, lit "abcabcabc")] = cs1 ++ cs2 ∧
      event_justified latin_letter sample_config (stream_text cs1) ev.
Proof. apply hybrid_reports_justified; [cbn; lia|cbn; lia|done]. Defined.

Lemma check_for_loops_correct_witness :
  ∃ r d', check_for_loops latin_letter poly 0 (repeat_text (lit "1;2:3.") 4) sample_config
          = (Ok r, d') ∧ has_loop r = true.
Proof.
  destruct (check_for_loops_correct latin_letter poly 0 (repeat_text (lit "1;2:3.") 4) sample_config)
    as (r & d' & Hc & _ & Hf); [done|done|split; [apply powers_ok_init|cbn; lia]|done|].
  exists r, d'. split; [done|]. apply (Hf (lit "1;2:3.") 4); [lia|vm_compute; lia|done].
Defined.

(** A stream of which [xyz] waits in the tracker. *)
Lemma check_leaks_into_stream_witness :
  let d := (process_chunk latin_letter poly 0 (lit "xyz") sample_config).2 in
  held (long_detector d) = lit "xyz" ∧
  held (long_detector (check_for_loops latin_letter poly 0 (lit "checked text") d).2)
  = lit "checked text".
Proof.
  intros d. split; [reflexivity|].
  apply (check_leaks_into_stream latin_letter poly 0 (lit "checked text") d);
    [reflexivity|done|vm_compute; lia|vm_compute; reflexivity].
Defined.
End Hybrid.
