(* ===== verification/RequestDedup.v ===== *)
(** * Request deduplication

    [RequestDeduplicationService] of
    [src/src/core/services/request_deduplication_service.py]: a cache from
    session and content hash to the status of the last such request.  While a
    request is in flight, and for a window after it ended, the same request is a
    duplicate; after a retriable error it is a retry and let through.

    The async lock makes every method atomic, so a service is used by a sequence
    of calls; each call carries the clock reading it makes (the hash of a request
    that cannot be written as JSON reads the clock once more; it is given the same
    reading).  Parameters: the JSON text of a value ([json.dumps] with sorted keys,
    which may raise), SHA-256 and the text of a clock reading. *)

From S2P Require Import Prelude PyStr PySort PyDict.
From stdpp Require Import options.

Inductive RequestStatus : Type := IN_FLIGHT | SUCCESS | RETRIABLE_ERROR | CLIENT_DISCONNECT.

#[global] Instance RequestStatus_eq_dec : EqDecision RequestStatus.
Proof. solve_decision. Defined.

Record TrackedRequest : Type := mk_TrackedRequest {
  tracked_timestamp : Q;
  tracked_status : RequestStatus;
  tracked_status_code : option Z;
  duplicate_count : nat;
  is_streaming : bool;
  expires_at : Q
}.

Record RequestDeduplicationService : Type := mk_RequestDeduplicationService {
  _window_seconds : Q;
  _streaming_window_seconds : option Q;
  _streaming_in_flight_window_seconds : Q;
  _enabled : bool;
  _max_cache_size : nat;
  _cache : list (str * TrackedRequest);
  _duplicates_blocked : nat;
  _requests_processed : nat;
  _retries_after_error_allowed : nat;
  _last_cleanup_time : Q
}.

Definition _CLEANUP_INTERVAL_SECONDS : Q := 30.

Definition dedup_init (window : Q) (streaming : option Q) (in_flight : Q) (enabled : bool)
    (max_size : nat) (now : Q) : RequestDeduplicationService :=
  mk_RequestDeduplicationService window streaming in_flight enabled max_size [] 0 0 0 now.

Definition set_cache (s : RequestDeduplicationService) (c : list (str * TrackedRequest))
    : RequestDeduplicationService :=
  mk_RequestDeduplicationService (_window_seconds s) (_streaming_window_seconds s)
    (_streaming_in_flight_window_seconds s) (_enabled s) (_max_cache_size s) c
    (_duplicates_blocked s) (_requests_processed s) (_retries_after_error_allowed s)
    (_last_cleanup_time s).

Definition set_counters (s : RequestDeduplicationService) (blocked processed retries : nat)
    (last_cleanup : Q) : RequestDeduplicationService :=
  mk_RequestDeduplicationService (_window_seconds s) (_streaming_window_seconds s)
    (_streaming_in_flight_window_seconds s) (_enabled s) (_max_cache_size s) (_cache s)
    blocked processed retries last_cleanup.

Definition _completed_ttl_seconds (s : RequestDeduplicationService) (streaming : bool) : Q :=
  let ttl := _window_seconds s in
  let ttl := match _streaming_window_seconds s with
             | Some w => if streaming then Qpymax ttl w else ttl
             | None => ttl
             end in
  Qpymax 0 ttl.

Definition _in_flight_ttl_seconds (s : RequestDeduplicationService) (streaming : bool) : Q :=
  let ttl := _window_seconds s in
  Qpymax 0 (if streaming then Qpymax ttl (_streaming_in_flight_window_seconds s) else ttl).

(** [tracked.expires_at and current_time >= tracked.expires_at]: zero is no
    deadline. *)
Definition is_expired (now : Q) (t : TrackedRequest) : bool :=
  negb (Qeq_bool (expires_at t) 0) && Qle_bool (expires_at t) now.

(** The test of the cleanups is strict. *)
Definition is_stale (now : Q) (t : TrackedRequest) : bool :=
  negb (Qeq_bool (expires_at t) 0) && Qltb (expires_at t) now.

Definition _compute_retry_after_seconds (age effective_window : Q) (dups : nat) : option Q :=
  if Qle_bool effective_window 0 then None
  else
    let remaining := Qpymax 0 (effective_window - age) in
    let capped_duplicates := Nat.min dups 6 in
    let backoff_seconds := inject_Z (2 ^ Z.of_nat capped_duplicates) in
    let backoff_seconds := Qpymax 1 (Qpymin effective_window backoff_seconds) in
    Some (Qpymax remaining backoff_seconds).

(** [sorted(entries, key=timestamp)] *)
Definition sorted_entries (l : list (str * TrackedRequest)) : list (str * TrackedRequest) :=
  py_sorted (λ e e', Qle_bool (tracked_timestamp e.2) (tracked_timestamp e'.2)) l.

Definition stale_keys (now : Q) (c : list (str * TrackedRequest)) : list str :=
  (filter (λ e, is_stale now e.2 = true) c).*1.

Definition _maybe_cleanup_locked (now : Q) (s : RequestDeduplicationService)
    : RequestDeduplicationService :=
  if Qltb _CLEANUP_INTERVAL_SECONDS (now - _last_cleanup_time s)
     || (11 * _max_cache_size s <? 10 * length (_cache s))
  then
    let s := set_counters s (_duplicates_blocked s) (_requests_processed s)
               (_retries_after_error_allowed s) now in
    let c := od_del (stale_keys now (_cache s)) (_cache s) in
    let c :=
      if _max_cache_size s <? length c
      then od_del (take (length c - _max_cache_size s) (sorted_entries c)).*1 c
      else c in
    set_cache s c
  else s.

Definition register (now : Q) (streaming : bool) (key : str) (s : RequestDeduplicationService)
    : RequestDeduplicationService :=
  let ttl := _in_flight_ttl_seconds s streaming in
  set_cache s (od_set key (mk_TrackedRequest now IN_FLIGHT None 0 streaming (now + ttl))
                 (_cache s)).

Definition cache_key (session_id content_hash : str) : str :=
  (session_id +:+ ":" +:+ content_hash)%string.

(** ** The content hash *)

(** A message dumps itself to JSON (which may raise), is a dictionary, or is
    written as a string. *)
Inductive message : Type :=
| ModelMessage (model_dump : option json)
| DictMessage (d : list (str * json))
| OtherMessage (text : str).

(** Values that are not JSON stand as the strings [default=str] makes of them. *)
Record ChatRequest : Type := mk_ChatRequest {
  request_model : str;
  request_messages : list message;
  request_tools : list json;
  request_stream : bool
}.

Definition message_data (m : message) : option json :=
  match m with
  | ModelMessage dump => dump
  | DictMessage d => Some (JDict d)
  | OtherMessage text => Some (JDict [("content"%string, JStr text)])
  end.

Definition request_content (r : ChatRequest) (session_id : str) : option json :=
  messages_data ← mapM message_data (request_messages r);
  Some (JDict ([("session_id"%string, JStr session_id); ("model"%string, JStr (request_model r));
                ("messages"%string, JList messages_data)]
               ++ match request_tools r with [] => [] | tools => [("tools"%string, JList tools)] end)).

Section service.
Context (dumps : json → option str) (sha256 : str → str) (time_text : Q → str).

Definition _compute_content_hash (now : Q) (r : ChatRequest) (session_id : str) : str :=
  match request_content r session_id ≫= dumps with
  | Some serialized => str_take 32 (sha256 serialized)
  | None => str_take 32 (sha256 (time_text now))
  end.

Definition check_and_register (now : Q) (r : ChatRequest) (session_id : str)
    (s : RequestDeduplicationService)
    : (bool * str * option Q) * RequestDeduplicationService :=
  if negb (_enabled s) || Qle_bool (_window_seconds s) 0 then ((false, ""%string, None), s)
  else
    let content_hash := _compute_content_hash now r session_id in
    let key := cache_key session_id content_hash in
    let streaming := request_stream r in
    let s := _maybe_cleanup_locked now s in
    let s := set_counters s (_duplicates_blocked s) (S (_requests_processed s))
               (_retries_after_error_allowed s) (_last_cleanup_time s) in
    match od_get key (_cache s) with
    | None => ((false, content_hash, None), register now streaming key s)
    | Some tracked =>
        let age := (now - tracked_timestamp tracked)%Q in
        if is_expired now tracked
        then ((false, content_hash, None), register now streaming key s)
        else
          match tracked_status tracked with
          | RETRIABLE_ERROR =>
              let s := set_counters s (_duplicates_blocked s) (_requests_processed s)
                         (S (_retries_after_error_allowed s)) (_last_cleanup_time s) in
              ((false, content_hash, None), register now streaming key s)
          | _ =>
              let s := set_counters s (S (_duplicates_blocked s)) (_requests_processed s)
                         (_retries_after_error_allowed s) (_last_cleanup_time s) in
              let tracked := mk_TrackedRequest (tracked_timestamp tracked)
                (tracked_status tracked) (tracked_status_code tracked)
                (S (duplicate_count tracked)) (is_streaming tracked) (expires_at tracked) in
              let effective_window :=
                Qpymax 0 (expires_at tracked - tracked_timestamp tracked) in
              let retry_after_seconds :=
                _compute_retry_after_seconds age effective_window (duplicate_count tracked) in
              ((true, content_hash, retry_after_seconds),
               set_cache s (od_set key tracked (_cache s)))
          end
    end.
End service.

Definition final_status (status_code : option Z) (client_disconnected : bool) : RequestStatus :=
  if client_disconnected then CLIENT_DISCONNECT
  else
    match status_code with
    | Some c =>
        if bool_decide (c ∈ [200; 201; 202; 204]%Z) then SUCCESS
        else if bool_decide (c ∈ [429; 500; 502; 503; 504; 408]%Z) then RETRIABLE_ERROR
        else SUCCESS
    | None => SUCCESS
    end.

Definition mark_request_complete (now : Q) (content_hash session_id : str)
    (status_code : option Z) (client_disconnected : bool) (s : RequestDeduplicationService)
    : RequestDeduplicationService :=
  if negb (_enabled s) then s
  else
    let key := cache_key session_id content_hash in
    match od_get key (_cache s) with
    | None => s
    | Some tracked =>
        set_cache s (od_set key
          (mk_TrackedRequest now (final_status status_code client_disconnected) status_code
             (duplicate_count tracked) (is_streaming tracked)
             (now + _completed_ttl_seconds s (is_streaming tracked))) (_cache s))
    end.

Definition cleanup (now : Q) (s : RequestDeduplicationService)
    : nat * RequestDeduplicationService :=
  let c := od_del (stale_keys now (_cache s)) (_cache s) in
  (length (_cache s) - length c, set_cache s c).

Definition get_request_outcome (content_hash session_id : str) (s : RequestDeduplicationService)
    : option (RequestStatus * option Z) :=
  if negb (_enabled s) then None
  else
    t ← od_get (cache_key session_id content_hash) (_cache s);
    Some (tracked_status t, tracked_status_code t).

(** ** The cache *)

Lemma stale_expired now t e : is_stale now e = true → (now <= t)%Q → is_expired t e = true.
Proof.
  unfold is_stale, is_expired. intros [Hz Hs]%andb_true_iff Hle. rewrite Hz.
  revert Hs. qcase; simpl; intros; [done|lra|done|lra].
Qed.

Definition cache_ok (s : RequestDeduplicationService) : Prop := od_ok (_cache s).



Lemma cleanup_frame now s :
  let s' := _maybe_cleanup_locked now s in
  _window_seconds s' = _window_seconds s ∧
  _streaming_window_seconds s' = _streaming_window_seconds s ∧
  _streaming_in_flight_window_seconds s' = _streaming_in_flight_window_seconds s ∧
  _enabled s' = _enabled s ∧ _max_cache_size s' = _max_cache_size s ∧
  sublist (_cache s') (_cache s).
Proof.
  unfold _maybe_cleanup_locked. destruct (_ || _); [|done]. cbv zeta. simpl.
  repeat split. case_match; [etrans; [apply od_del_sublist|]|]; apply od_del_sublist.
Qed.

Lemma cleanup_ok now s : cache_ok s → cache_ok (_maybe_cleanup_locked now s).
Proof.
  unfold cache_ok, od_ok. intros Hok. eapply sublist_NoDup; [exact Hok|].
  apply fmap_sublist. apply (cleanup_frame now s).
Qed.

(** A cleanup leaves at most a tenth more than the capacity. *)
Lemma cleanup_size now s :
  cache_ok s → 10 * length (_cache (_maybe_cleanup_locked now s)) ≤ 11 * _max_cache_size s.
Proof.
  intros Hok. unfold _maybe_cleanup_locked.
  destruct (Qltb _ _ || _) eqn:Hc; cycle 1.
  { apply orb_false_iff in Hc as [_ Hc%Nat.ltb_ge]. done. }
  cbv zeta. cbn [set_counters set_cache _cache _max_cache_size]. set (c := od_del _ _).
  destruct (Nat.ltb_spec (_max_cache_size s) (length c)); [|lia].
  assert (od_ok c) as Hc' by by apply od_del_ok.
  pose proof (py_sorted_perm _ c : sorted_entries c ≡ₚ c) as Hp.
  rewrite od_del_length //.
  - eapply sublist_NoDup; [|apply fmap_sublist, sublist_take].
    unfold od_ok in Hc'. by rewrite Hp.
  - intros k (e & -> & He)%list_elem_of_fmap. apply list_elem_of_fmap. exists e. split; [done|].
    rewrite -Hp -(take_drop (length c - _max_cache_size s) (sorted_entries c)).
    apply elem_of_app. by left.
  - rewrite length_fmap length_take Hp. lia.
Qed.

(** ** Sequences of calls *)

Section runs.
Context (dumps : json → option str) (sha256 : str → str) (time_text : Q → str).
#[local] Notation _compute_content_hash := (_compute_content_hash dumps sha256 time_text).
#[local] Notation check := (check_and_register dumps sha256 time_text).

Definition request_key (now : Q) (r : ChatRequest) (session_id : str) : str :=
  cache_key session_id (_compute_content_hash now r session_id).

Inductive dedup_op : Type :=
| OpCheck (now : Q) (r : ChatRequest) (session_id : str)
| OpComplete (now : Q) (content_hash session_id : str) (status_code : option Z)
    (client_disconnected : bool)
| OpCleanup (now : Q).



Definition dedup_step (s : RequestDeduplicationService) (o : dedup_op)
    : RequestDeduplicationService :=
  match o with
  | OpCheck now r sid => (check now r sid s).2
  | OpComplete now h sid code dis => mark_request_complete now h sid code dis s
  | OpCleanup now => (cleanup now s).2
  end.

(** The settings are never assigned. *)
Definition same_dedup (s s' : RequestDeduplicationService) : Prop :=
  _enabled s' = _enabled s ∧ _window_seconds s' = _window_seconds s ∧
  _max_cache_size s' = _max_cache_size s.

(** The entry a check finds decides, whatever the cleanup removes. *)
Definition blocks (now : Q) (e : TrackedRequest) : bool :=
  negb (is_expired now e) && bool_decide (tracked_status e ≠ RETRIABLE_ERROR).

(** Which entry a check leaves for its key. *)
Definition next_entry (now : Q) (streaming : bool) (s : RequestDeduplicationService)
    (o : option TrackedRequest) (e' : TrackedRequest) : Prop :=
  match o with
  | Some e =>
      if blocks now e
      then tracked_timestamp e' = tracked_timestamp e ∧ tracked_status e' = tracked_status e ∧
           expires_at e' = expires_at e
      else e' = mk_TrackedRequest now IN_FLIGHT None 0 streaming
                  (now + _in_flight_ttl_seconds s streaming)
  | None => e' = mk_TrackedRequest now IN_FLIGHT None 0 streaming
                  (now + _in_flight_ttl_seconds s streaming)
  end.

Lemma stale_not_blocks now e : is_stale now e = true → blocks now e = false.
Proof.
  intros Hs. unfold blocks. rewrite (stale_expired now now) //. apply Qle_refl.
Qed.

Lemma ttl_frame now s streaming :
  _in_flight_ttl_seconds (_maybe_cleanup_locked now s) streaming
  = _in_flight_ttl_seconds s streaming.
Proof.
  unfold _in_flight_ttl_seconds. destruct (cleanup_frame now s) as (-> & _ & -> & _). done.
Qed.

(** A check on an active service. *)
Lemma check_spec now r sid s :
  cache_ok s → _enabled s = true → (0 < _window_seconds s)%Q →
  let k := request_key now r sid in
  let c := _cache (_maybe_cleanup_locked now s) in
  ∃ ra e' s', check now r sid s
    = ((match od_get k c with Some e => blocks now e | None => false end,
        _compute_content_hash now r sid, ra), s') ∧
    same_dedup s s' ∧ _cache s' = od_set k e' c ∧
    next_entry now (request_stream r) s (od_get k c) e'.
Proof.
  intros Hok Hen Hw k c. unfold check_and_register. rewrite Hen.
  assert (Qle_bool (_window_seconds s) 0 = false) as ->.
  { destruct (Qle_bool_spec (_window_seconds s) 0); [lra|done]. }
  cbn [negb orb]. cbv zeta. cbn [set_counters _cache]. fold (request_key now r sid). fold k c.
  destruct (cleanup_frame now s) as (Hf1 & _ & _ & Hf2 & Hf3 & _).
  assert (∀ b p q x t, same_dedup s (set_cache (set_counters (_maybe_cleanup_locked now s) b p q t)
    x)) as Hsame by (by intros).
  assert (∀ b p q t, _in_flight_ttl_seconds
      (set_counters (_maybe_cleanup_locked now s) b p q t) (request_stream r)
    = _in_flight_ttl_seconds s (request_stream r)) as Httl by (intros; apply ttl_frame).
  set (e0 := mk_TrackedRequest now IN_FLIGHT None 0 (request_stream r)
               (now + _in_flight_ttl_seconds s (request_stream r))).
  destruct (od_get k c) as [e|] eqn:Hg; cycle 1.
  { eexists _, e0, _. unfold register. rewrite Httl. split; [done|]. split; [apply Hsame|]. done. }
  unfold blocks, next_entry. unfold blocks.
  destruct (is_expired now e) eqn:Hx; cbn [negb andb].
  { eexists _, e0, _. unfold register. rewrite Httl. split; [done|]. split; [apply Hsame|]. done. }
  destruct (tracked_status e) eqn:Hst;
    try (rewrite bool_decide_true //; eexists _, _, _; split; [done|]; split; [apply Hsame|];
         split; [done|]; done).
  rewrite bool_decide_false; [by intros H|].
  eexists _, e0, _. unfold register. cbn [set_counters _duplicates_blocked _requests_processed
    _retries_after_error_allowed _last_cleanup_time].
  split; [|split; [apply Hsame|done]].
  unfold e0. rewrite -(Httl (_duplicates_blocked (_maybe_cleanup_locked now s)) 0 0 now).
  done.
Qed.

Lemma cache_ok_set s k e c : od_ok c → _cache s = od_set k e c → cache_ok s.
Proof. unfold cache_ok. intros Hc ->. auto with proxy. Qed.

Lemma od_set_length_le (k : str) (e : TrackedRequest) c : length (od_set k e c) ≤ S (length c).
Proof.
  destruct (od_get k c) eqn:Hg.
  - rewrite -(length_fmap fst) od_set_keys; [by eexists|]. rewrite length_fmap. lia.
  - by rewrite od_set_length_new.
Qed.

(** A check is either skipped, or the service is active. *)
Lemma check_active now r sid s :
  check now r sid s = ((false, ""%string, None), s) ∨
  _enabled s = true ∧ (0 < _window_seconds s)%Q.
Proof.
  unfold check_and_register. destruct (_enabled s); [|by left].
  destruct (Qle_bool_spec (_window_seconds s) 0) as [Hw|Hw%Qnot_le_lt]; [by left|by right].
Qed.

(** A call keeps the settings and adds at most one entry. *)
Lemma dedup_step_frame s o :
  cache_ok s → cache_ok (dedup_step s o) ∧ same_dedup s (dedup_step s o) ∧
  length (_cache (dedup_step s o)) ≤ S (length (_cache s)).
Proof.
  intros Hok.
  assert (cache_ok s ∧ same_dedup s s ∧ length (_cache s) ≤ S (length (_cache s))) as Hid
    by (split_and!; done || lia).
  destruct o as [now r sid|now h sid code dis|now]; cbn [dedup_step].
  - destruct (check_active now r sid s) as [->|[Hen Hw]]; [exact Hid|].
    destruct (check_spec now r sid s Hok Hen Hw) as (ra & e' & s' & -> & Hs & Hc & _). simpl.
    split; [eapply cache_ok_set; [|exact Hc]; by apply cleanup_ok|]. split; [done|].
    rewrite Hc. etrans; [apply od_set_length_le|]. apply le_n_S, sublist_length.
    apply (cleanup_frame now s).
  - unfold mark_request_complete. destruct (negb _); [exact Hid|].
    destruct (od_get _ _) eqn:Hg; [|exact Hid]. simpl. split; [by apply od_set_ok|].
    split; [done|]. apply od_set_length_le.
  - split; [by apply od_del_ok|]. split; [done|].
    etrans; [apply sublist_length, od_del_sublist|]. lia.
Qed.




Lemma blocks_same now e e' :
  tracked_status e' = tracked_status e → expires_at e' = expires_at e →
  blocks now e' = blocks now e.
Proof. intros H1 H2. unfold blocks, is_expired. by rewrite H1 H2. Qed.




(** A blocked check, with the entry it found. *)
Lemma check_blocked t r sid s h ra s1 :
  _enabled s = true → (0 < _window_seconds s)%Q → cache_ok s →
  check t r sid s = ((true, h, Some ra), s1) →
  let c := _cache (_maybe_cleanup_locked t s) in
  ∃ e e', od_get (request_key t r sid) c = Some e ∧ expires_at e' = expires_at e ∧
    _compute_retry_after_seconds (t - tracked_timestamp e)
      (Qpymax 0 (expires_at e - tracked_timestamp e)) (S (duplicate_count e)) = Some ra ∧
    _cache s1 = od_set (request_key t r sid) e' c ∧ same_dedup s s1.
Proof.
  intros Hen Hw Hok. destruct (cleanup_frame t s) as (Hf1 & _ & _ & Hf2 & Hf3 & _).
  unfold check_and_register. rewrite Hen.
  assert (Qle_bool (_window_seconds s) 0 = false) as ->.
  { destruct (Qle_bool_spec (_window_seconds s) 0); [lra|done]. }
  cbn [negb orb]. cbv zeta. cbn [set_counters _cache]. fold (request_key t r sid).
  destruct (od_get (request_key t r sid) _) as [e|] eqn:Hg; [|done].
  destruct (is_expired t e); [done|].
  destruct (tracked_status e); try done; intros [= _ Hra <-]; eexists e, _;
    (split; [done|]); (split; [|split; [exact Hra|split; [reflexivity|done]]]); done.
Qed.

Lemma dedup_step_size s o :
  cache_ok s → 10 * length (_cache s) ≤ 11 * _max_cache_size s + 10 →
  10 * length (_cache (dedup_step s o)) ≤ 11 * _max_cache_size s + 10.
Proof.
  intros Hok Hl. destruct o as [now r sid|now h sid code dis|now]; cbn [dedup_step].
  - destruct (check_active now r sid s) as [->|[Hen Hw]]; [exact Hl|].
    destruct (check_spec now r sid s Hok Hen Hw) as (ra & e' & s' & -> & Hs & Hc & _).
    cbn [snd]. rewrite Hc. pose proof (cleanup_size now s Hok).
    pose proof (od_set_length_le (request_key now r sid) e' (_cache (_maybe_cleanup_locked now s))). lia.
  - unfold mark_request_complete. destruct (negb _); [done|].
    destruct (od_get _ _) eqn:Hg; [|done]. cbn [set_cache _cache].
    rewrite -(length_fmap fst) od_set_keys; [by eexists|]. by rewrite length_fmap.
  - cbn [cleanup snd set_cache _cache].
    pose proof (sublist_length _ _ (od_del_sublist (stale_keys now (_cache s)) (_cache s))). lia.
Qed.

(** ** Properties *)



(** Two requests of a session with the same content, that can be written as
    JSON, have the same key whenever they are checked. *)
Lemma request_key_stable t t' r r' sid :
  request_content r' sid = request_content r sid → is_Some (request_content r sid ≫= dumps) →
  request_key t' r' sid = request_key t r sid.
Proof.
  intros Hr [text Ht]. unfold request_key, RequestDedup._compute_content_hash. by rewrite Hr Ht.
Qed.




(** A blocked client that waits as told gets through.  When a check at [t]
    answers that the request is a duplicate with a retry-after, that delay is at
    least a second and reaches the end of the window: the same check made after
    the delay, with nothing in between, is not a duplicate. *)
Theorem retry_after_suffices (t t' ra : Q) (r : ChatRequest) (sid h : str)
    (s s1 : RequestDeduplicationService) :
  is_Some (request_content r sid ≫= dumps) →
  cache_ok s → Forall (λ e, ~ (expires_at e.2 == 0)%Q) (_cache s) →
  check t r sid s = ((true, h, Some ra), s1) → (t + ra <= t')%Q →
  (1 <= ra)%Q ∧ (check t' r sid s1).1.1.1 = false.
Proof.
  intros Hj Hok Hnz Hc Ht'.
  destruct (check_active t r sid s) as [Hc'|[Hen Hw]]; [congruence|].
  destruct (check_blocked t r sid s h ra s1) as (e & e' & Hge & Hx & Hra & Hcache & Hs); [done..|].
  assert (1 <= ra ∧ expires_at e <= t + ra)%Q as [H1 H2].
  { clear - Hra. unfold _compute_retry_after_seconds in Hra.
    destruct (Qle_bool _ _) eqn:Hz; [done|]. injection Hra as <-. split.
    - eapply Qle_trans; [|apply Qpymax_ge_r]. apply Qpymax_ge_l.
    - pose proof (Qpymax_ge_r 0 (expires_at e - tracked_timestamp e)) as Ha.
      set (w := Qpymax 0 (expires_at e - tracked_timestamp e)) in *.
      pose proof (Qpymax_ge_r 0 (w - (t - tracked_timestamp e))) as Hb.
      set (rem := Qpymax 0 (w - (t - tracked_timestamp e))) in *.
      set (b := Qpymax 1 _). pose proof (Qpymax_ge_l rem b). lra. }
  split; [done|].
  assert (cache_ok s1) as Hok1 by (eapply cache_ok_set; [by apply (cleanup_ok t s)|exact Hcache]).
  destruct (check_spec t' r sid s1 Hok1) as (ra2 & e2 & s2 & -> & _);
    [by destruct Hs as (-> & _)|by destruct Hs as (_ & -> & _)|]. cbn [fst].
  rewrite (request_key_stable t t' r r sid) //.
  destruct (od_get (request_key t r sid) (_cache (_maybe_cleanup_locked t' s1))) as [e3|] eqn:Hg3;
    [|done].
  apply od_get_Some_elem in Hg3.
  eapply elem_of_submseteq in Hg3; [|apply sublist_submseteq, (cleanup_frame t' s1)].
  apply od_elem_get in Hg3; [|done]. rewrite Hcache od_get_set_eq in Hg3. injection Hg3 as ->.
  unfold blocks, is_expired. rewrite Hx.
  apply od_get_Some_elem in Hge. eapply elem_of_submseteq in Hge;
    [|apply sublist_submseteq, (cleanup_frame t s)].
  rewrite Forall_forall in Hnz. specialize (Hnz _ Hge). simpl in Hnz.
  destruct (Qeq_bool (expires_at e) 0) eqn:Hq; [by apply Qeq_bool_iff in Hq|]. simpl.
  qcase; [done|lra].
Qed.

(** The cache is bounded.  After any calls on a new service, the cache holds
    at most a tenth more than [max_cache_size] entries, and one. *)
Theorem dedup_cache_bounded (window in_flight now : Q) (streaming : option Q) (enabled : bool)
    (max_size : nat) (ops : list dedup_op) :
  let s := foldl dedup_step (dedup_init window streaming in_flight enabled max_size now) ops in
  10 * length (_cache s) ≤ 11 * max_size + 10.
Proof.
  set (s0 := dedup_init _ _ _ _ _ _). intros s.
  assert (cache_ok s ∧ _max_cache_size s = max_size ∧
    10 * length (_cache s) ≤ 11 * max_size + 10) as (_ & _ & H); [|done].
  subst s. assert (cache_ok s0 ∧ _max_cache_size s0 = max_size ∧
    10 * length (_cache s0) ≤ 11 * max_size + 10) as H0.
  { split; [constructor|]. split; [done|]. simpl. lia. }
  revert H0. generalize s0. induction ops as [|o ops IH]; intros s Hs; [done|].
  apply IH. destruct Hs as (Hok & Hm & Hl).
  destruct (dedup_step_frame s o Hok) as (Hok' & (_ & _ & Hmax) & _).
  split; [done|]. split; [congruence|]. by rewrite -Hm in Hl |- *; apply dedup_step_size.
Qed.
End runs.

(** ** Samples

    The JSON text is the one message's content, the hash the text itself. *)

Definition sample_dumps (j : json) : option str :=
  match j with
  | JDict d =>
      match od_get "messages"%string d with
      | Some (JList [JDict [(_, JStr content)]]) => Some content
      | _ => None
      end
  | _ => None
  end.

Definition sample_request (content : str) : ChatRequest :=
  mk_ChatRequest "m" [OtherMessage content] [] false.
Definition sample_check := check_and_register sample_dumps (λ x, x) (λ _, "now"%string).
Definition sample_service : RequestDeduplicationService := dedup_init 6 None 600 true 100 0.


Lemma retry_after_suffices_witness :
  (sample_check 7 (sample_request "hello") "s1" (sample_check 2 (sample_request "hello") "s1"
     (sample_check 1 (sample_request "hello") "s1" sample_service).2).2).1.1.1 = false.
Proof.
  apply (retry_after_suffices sample_dumps (λ x, x) (λ _, "now"%string) 2 7 5 (sample_request "hello") "s1" "hello"
    (sample_check 1 (sample_request "hello") "s1" sample_service).2).
  - by eexists.
  - vm_compute. apply NoDup_singleton.
  - constructor; [|constructor]. vm_compute. discriminate.
  - reflexivity.
  - vm_compute. discriminate.
Defined.
