(* ===== verification/ToolFingerprint.v ===== *)
(** * The fingerprints of tool calls and tool results

    [fingerprint_tool_call] and [fingerprint_tool_output] of
    [src/src/core/domain/tool_progress_loop.py], the two hashes of them that the
    tool progress loop guard reads.  A call is hashed with its arguments parsed
    and normalized (slashes, and the case of paths with a drive letter), a result
    with its terminal colours, times and runs of blanks normalized; the regular
    expressions are matchers with their word boundaries.

    An object with a [function] attribute is a dictionary here.  Parameters: the
    JSON parser, the JSON text of a value ([json.dumps] with sorted keys), [str] of
    a value that is no string, and SHA-256. *)

From Stdlib Require Import Ascii.
From S2P Require Import Prelude PyStr PySort PyDict.
From stdpp Require Import options.

(** ** Regular expressions *)

Definition is_letter (c : ascii) : bool :=
  let n := nat_of_ascii (lower_char c) in (97 <=? n) && (n <=? 122).

Definition is_word (c : ascii) : bool := is_letter c || is_digit c || Ascii.eqb c "_".

Definition word_at (s : str) : bool :=
  match s with EmptyString => false | String c _ => is_word c end.

(** One character of each class in turn; the rest of the text. *)
Fixpoint match_classes (classes : list (ascii → bool)) (s : str) : option str :=
  match classes, s with
  | [], _ => Some s
  | f :: classes, String c s => if f c then match_classes classes s else None
  | _ :: _, EmptyString => None
  end.

(** How many of the first characters are in a class. *)
Fixpoint span (f : ascii → bool) (s : str) : nat :=
  match s with
  | EmptyString => 0
  | String c s => if f c then S (span f s) else 0
  end.

(** [re.sub]: a matcher is given the character before the position and the text
    from it, and answers how many characters it matches. *)
Fixpoint re_sub_go (matcher : option ascii → str → option nat) (repl : str) (prev : option ascii)
    (skip : nat) (s : str) : str :=
  match s with
  | EmptyString => ""
  | String c s' =>
      match skip with
      | S skip => re_sub_go matcher repl (Some c) skip s'
      | 0 =>
          match matcher prev s with
          | Some (S n) => repl +:+ re_sub_go matcher repl (Some c) n s'
          | _ => String c (re_sub_go matcher repl (Some c) 0 s')
          end
      end
  end%string.

Definition re_sub (matcher : option ascii → str → option nat) (repl s : str) : str :=
  re_sub_go matcher repl None 0 s.

(** A word boundary before a word character. *)
Definition at_word_start (prev : option ascii) : bool :=
  match prev with Some c => negb (is_word c) | None => true end.

Definition ESC : ascii := ascii_of_nat 27.

(** [\x1b\[[0-9;]*[A-Za-z]] *)
Definition ansi_code (_ : option ascii) (s : str) : option nat :=
  rest ← match_classes [Ascii.eqb ESC; Ascii.eqb "["] s;
  let n := span (λ c, is_digit c || Ascii.eqb c ";") rest in
  match str_drop n rest with
  | String c _ => if is_letter c then Some (3 + n) else None
  | EmptyString => None
  end.

Definition time_classes : list (ascii → bool) :=
  let d := is_digit in [d; d; Ascii.eqb ":"; d; d; Ascii.eqb ":"; d; d].

Definition date_classes : list (ascii → bool) :=
  let d := is_digit in
  [d; d; d; d; Ascii.eqb "-"; d; d; Ascii.eqb "-"; d; d; λ c, Ascii.eqb c " " || Ascii.eqb c "T"].

(** [\b\d{4}-\d{2}-\d{2}[ T]\d{2}:\d{2}:\d{2}(?:,\d+)?\b]; the fraction is left out when
    no word boundary follows it. *)
Definition timestamp (prev : option ascii) (s : str) : option nat :=
  if at_word_start prev then
    rest ← match_classes (date_classes ++ time_classes) s;
    let short := if word_at rest then None else Some 19 in
    match rest with
    | String c fraction =>
        let n := span is_digit fraction in
        if Ascii.eqb c "," && (0 <? n) && negb (word_at (str_drop n fraction)) then Some (20 + n) else short
    | EmptyString => short
    end
  else None.

(** [\b\d{2}:\d{2}:\d{2}\b] *)
Definition clock_time (prev : option ascii) (s : str) : option nat :=
  if at_word_start prev then
    rest ← match_classes time_classes s;
    if word_at rest then None else Some 8
  else None.

(** [\s+] *)
Definition blanks (_ : option ascii) (s : str) : option nat := Some (span is_space s).

Definition _normalize_output_text (text : str) : str :=
  let without_ansi := re_sub ansi_code "" text in
  let without_timestamps := re_sub timestamp "<timestamp>" without_ansi in
  let without_times := re_sub clock_time "<time>" without_timestamps in
  strip (re_sub blanks " " without_times).

(** ** Arguments *)

(** [PureWindowsPath(p).as_posix()] of a path with a drive and a root: empty
    components and dots go. *)
Definition windows_path_posix (p : str) : str :=
  (str_take 3 p +:+ join "/" (filter (λ x, x ≠ "" ∧ x ≠ ".") (split_char "/" (str_drop 3 p))))%string.

(** The two string normalizations are with [normalize_volatile=False]. *)
Definition _normalize_string_argument (value : str) : str :=
  let normalized := replace_char "\" "/" value in
  if match_classes [is_letter; Ascii.eqb ":"; Ascii.eqb "/"] normalized
  then lower (windows_path_posix normalized) else normalized.

Definition lower_key_le (e e' : str * json) : bool := bool_decide (String.le (lower e.1) (lower e'.1)).

Fixpoint _normalize_argument_value (value : json) : json :=
  match value with
  | JDict d => JDict (py_sorted lower_key_le (map (λ e, (e.1, _normalize_argument_value e.2)) d))
  | JList l => JList (map _normalize_argument_value l)
  | JStr s => JStr (_normalize_string_argument s)
  | _ => value
  end.

Section fingerprint.
Context (loads : str → option json) (dumps : json → str) (str_of : json → str) (sha256 : str → str).

(** The two [get]s find the keys missing or [None] alike. *)
Definition _extract_tool_call_parts (tool_call : json) : str * json :=
  let function := match tool_call with JDict d => od_get "function" d | _ => None end in
  let attribute key := match function with Some (JDict f) => od_get key f | _ => None end in
  let name := attribute "name" in
  (if truthy name then match name with Some (JStr s) => s | Some v => str_of v | None => "unknown" end
   else "unknown",
   match attribute "arguments" with None | Some JNull => JStr "{}" | Some v => v end)%string.

Definition _parse_arguments (arguments : json) : json :=
  match arguments with JStr s => default arguments (loads s) | _ => arguments end.

(** The text [_hash_json] hashes. *)
Definition call_text (tool_call : json) : str :=
  let '(tool_name, arguments) := _extract_tool_call_parts tool_call in
  dumps (JList [JStr tool_name; _normalize_argument_value (_parse_arguments arguments)]).

(** [fingerprint_tool_call(tc).arguments_hash] *)
Definition arguments_hash (tool_call : json) : str := sha256 (call_text tool_call).

Definition _stringify (value : json) : str :=
  match value with JNull => ""%string | JStr s => s | _ => dumps value end.

(** [fingerprint_tool_output(o).output_hash] *)
Definition output_hash (output : json) : str := sha256 (_normalize_output_text (_stringify output)).
End fingerprint.

(** ** Lists of hashes *)

(** Items without the separator can be read back from their joined text. *)
Lemma join_inj c (l l' : list str) :
  l ≠ [] → l' ≠ [] → Forall (λ x, str_find c x = None) l → Forall (λ x, str_find c x = None) l' →
  join (String c "") l = join (String c "") l' → l = l'.
Proof.
  intros Hl Hl' Hc Hc'. revert l' Hl' Hc'.
  induction Hc as [|x l Hx Hc IH]; intros l' Hl' Hc' Hj; [done|].
  destruct l' as [|x' l']; [done|]. inversion Hc' as [|? ? Hx' Hc'']; subst.
  destruct l as [|y l], l' as [|y' l']; simpl in Hj.
  - by subst.
  - exfalso. rewrite Hj in Hx. rewrite sapp_cons sapp_nil_l find_app // in Hx.
  - exfalso. rewrite -Hj in Hx'. rewrite sapp_cons sapp_nil_l find_app // in Hx'.
  - rewrite !sapp_cons !sapp_nil_l in Hj.
    assert (String.length x = String.length x') as Hlen.
    { pose proof (find_app c x (join (String c "") (y :: l)) Hx) as H1. simpl in H1, Hj.
      rewrite Hj in H1. rewrite find_app // in H1. by injection H1. }
    assert (x = x') as ->.
    { apply (f_equal (str_take (String.length x))) in Hj.
      rewrite str_take_app Hlen str_take_app in Hj. done. }
    f_equal. apply (f_equal (str_drop (String.length x'))) in Hj. rewrite !str_drop_app in Hj.
    injection Hj as Hj. apply IH; done.
Qed.

(** ** Samples *)

Example normalize_output_text_sample :
  _normalize_output_text
    (" 2024-01-02T10:00:00,123 " +:+ String ESC "[31mred" +:+ String ESC "[0m at 11:22:33" +:+ String LF "done 11:22:33x ")
  = "<timestamp> red at <time> done 11:22:33x"%string.
Proof. reflexivity. Qed.

Example normalize_string_argument_sample :
  _normalize_string_argument "C:\Work\.\\Src" = "c:/work/src"%string ∧
  _normalize_string_argument "A\B" = "A/B"%string.
Proof. split; reflexivity. Qed.
