(* ===== verification/ToolProgress.v ===== *)
(** * The tool progress loop guard

    [ToolProgressLoopGuard] of
    [src/src/core/services/tool_progress_loop_guard.py], with the decision type
    of [src/src/core/domain/tool_progress_loop.py] and the part of
    [src/src/core/services/request_processor_service.py] that acts on the
    decision.  Per session the guard counts tool calls and tool results seen in
    follow-up requests; a repeated one is first answered with a steering message
    and, when the same call comes again, with an error.

    The fingerprints of calls and results are those of [ToolFingerprint], with its
    parameters. *)

From Stdlib Require Import Ascii.
From S2P Require Import Prelude PyStr PySort PyDict ToolFingerprint.
From stdpp Require Import options.

Inductive ToolProgressLoopAction : Type := ALLOW | BLOCK | STEER.
Inductive ActionMode : Type := mode_error | mode_steer_then_error.

#[global] Instance ToolProgressLoopAction_eq_dec : EqDecision ToolProgressLoopAction.
Proof. solve_decision. Defined.
#[global] Instance ActionMode_eq_dec : EqDecision ActionMode.
Proof. solve_decision. Defined.

Record ToolProgressLoopDecision : Type := mk_ToolProgressLoopDecision {
  action : ToolProgressLoopAction;
  reason : option str;
  score : nat;
  repeated_call_count : nat;
  repeated_output_count : nat;
  steering_message : option str
}.

Definition allow_decision : ToolProgressLoopDecision :=
  mk_ToolProgressLoopDecision ALLOW None 0 0 0 None.

(** The fields of a [ChatMessage] the guard reads. *)
Record ChatMessage : Type := mk_ChatMessage {
  role : str;
  message_content : option json;
  tool_calls : list json
}.

Record SessionLoopState : Type := mk_SessionLoopState {
  consecutive_tool_followups : nat;
  call_counts : list (str * nat);
  output_counts : list (str * nat);
  pending_steer_call_fingerprint : option str;
  pending_steer_reason : option str;
  pending_steer_score : nat;
  pending_steer_repeated_call_count : nat;
  pending_steer_repeated_output_count : nat
}.

Definition new_state : SessionLoopState := mk_SessionLoopState 0 [] [] None None 0 0 0.

Record ToolProgressLoopGuard : Type := mk_ToolProgressLoopGuard {
  _max_consecutive_tool_followups : nat;
  _max_repeated_tool_call_signature : nat;
  _max_repeated_tool_output : nat;
  _max_counts_per_session : nat;
  _max_cached_sessions : nat;
  _guard_enabled : bool;
  _action_mode : ActionMode;
  _steering_message : str;
  _sessions : list (str * SessionLoopState)
}.

Definition DEFAULT_TOOL_PROGRESS_LOOP_STEERING_MESSAGE : str :=
  "You appear to be repeating the same tool call without making progress. Try a different approach, summarize what you've learned, or ask for guidance. If you repeat the exact same tool call with the same arguments again, this session will be stopped."%string.

(** [__init__], with its clamps. *)
Definition guard_init (followups calls outputs counts cached : Z) (enabled : bool)
    (mode : ActionMode) (message : option str) : ToolProgressLoopGuard :=
  let at_least_one z := Z.to_nat (Z.max 1 z) in
  mk_ToolProgressLoopGuard (at_least_one followups) (at_least_one calls) (at_least_one outputs)
    (at_least_one counts) (at_least_one cached) enabled mode
    (match message with
     | Some m => if is_empty m then DEFAULT_TOOL_PROGRESS_LOOP_STEERING_MESSAGE else m
     | None => DEFAULT_TOOL_PROGRESS_LOOP_STEERING_MESSAGE
     end) [].

Definition set_sessions (g : ToolProgressLoopGuard) (ss : list (str * SessionLoopState))
    : ToolProgressLoopGuard :=
  mk_ToolProgressLoopGuard (_max_consecutive_tool_followups g)
    (_max_repeated_tool_call_signature g) (_max_repeated_tool_output g)
    (_max_counts_per_session g) (_max_cached_sessions g) (_guard_enabled g) (_action_mode g)
    (_steering_message g) ss.

(** ** Reading the messages *)

(** The two last indices of the loop over the messages; [-1] is none. *)
Definition last_indices (ms : list ChatMessage) : Z * Z :=
  foldl (λ '(tool, user) '(idx, m),
      if bool_decide (role m = "tool"%string) then (Z.of_nat idx, user)
      else if bool_decide (role m = "user"%string) then (tool, Z.of_nat idx)
      else (tool, user))
    (-1, -1)%Z (imap pair ms).

Definition _has_new_user_message_after_last_tool (ms : list ChatMessage) : bool :=
  let '(tool, user) := last_indices ms in (0 <=? tool)%Z && (tool <? user)%Z.

(** The loop over [reversed(messages)]: the last run of tool messages, newest
    first, until it is interrupted. *)
Fixpoint tool_outputs_rev (outputs : list json) (ms_rev : list ChatMessage) : list json :=
  match ms_rev with
  | [] => outputs
  | m :: ms_rev' =>
      if bool_decide (role m = "tool"%string)
      then
        let content := message_content m in
        let output := if truthy content then default JNull content else JStr ""%string in
        tool_outputs_rev (outputs ++ [output]) ms_rev'
      else match outputs with [] => tool_outputs_rev outputs ms_rev' | _ => outputs end
  end.

Definition _extract_tool_outputs (ms : list ChatMessage) : list json :=
  reverse (tool_outputs_rev [] (reverse ms)).

Fixpoint recent_tool_calls (ms_rev : list ChatMessage) : list json :=
  match ms_rev with
  | [] => []
  | m :: ms_rev' =>
      if bool_decide (role m = "assistant"%string)
      then match tool_calls m with [] => recent_tool_calls ms_rev' | calls => calls end
      else recent_tool_calls ms_rev'
  end.

Definition _extract_recent_assistant_tool_calls (ms : list ChatMessage) : list json :=
  recent_tool_calls (reverse ms).

(** ** The session table *)

(** [while len(d) > n: d.popitem(last=False)]: the oldest entries go. *)
Definition evict_to {A} (n : nat) (d : list (str * A)) : list (str * A) :=
  drop (length d - n) d.

(** [_state_for]; the eviction loop leaves room for the new session. *)
Definition _state_for (session_id : str) (g : ToolProgressLoopGuard)
    : SessionLoopState * ToolProgressLoopGuard :=
  match od_get session_id (_sessions g) with
  | Some state =>
      (state, set_sessions g (default (_sessions g) (od_move_to_end session_id (_sessions g))))
  | None =>
      let ss := evict_to (_max_cached_sessions g - 1) (_sessions g) in
      (new_state, set_sessions g (od_set session_id new_state ss))
  end.

(** [counts[key] = counts.get(key, 0) + 1], the running maximum, and the
    eviction. *)
Definition count_key (limit : nat) (acc : nat * list (str * nat)) (key : str)
    : nat * list (str * nat) :=
  let '(mx, counts) := acc in
  let n := S (default 0 (od_get key counts)) in
  (Nat.max mx n, evict_to limit (od_set key n counts)).

Definition count_keys (limit : nat) (keys : list str) (counts : list (str * nat))
    : nat * list (str * nat) :=
  foldl (count_key limit) (0, counts) keys.

Section guard.
Context (loads : str → option json) (dumps : json → str) (str_of : json → str) (sha256 : str → str).
#[local] Notation call_hash := (arguments_hash loads dumps str_of sha256).
#[local] Notation output_hash := (ToolFingerprint.output_hash dumps sha256).

Definition _fingerprint_tool_calls (calls : list json) : str :=
  match calls with
  | [] => ""%string
  | _ => join "|" (sorted_strs (call_hash <$> calls))
  end.

(** The keys of the outputs: paired with the calls when there are as many. *)
Definition output_keys (calls outputs : list json) : list str :=
  let hashes := call_hash <$> calls in
  if bool_decide (length hashes = length outputs) && (0 <? length outputs)
  then zip_with (λ h o, h +:+ "::" +:+ output_hash o)%string hashes outputs
  else output_hash <$> outputs.

Definition set_pending (st : SessionLoopState) (followups : nat) (fp why : option str)
    (sc calls outputs : nat) : SessionLoopState :=
  mk_SessionLoopState followups (call_counts st) (output_counts st) fp why sc calls outputs.

Definition _clear_pending_steer (st : SessionLoopState) : SessionLoopState :=
  set_pending st (consecutive_tool_followups st) None None 0 0 0.

Definition _resolve_loop_detection (g : ToolProgressLoopGuard) (st : SessionLoopState)
    (why : str) (sc max_call_count max_output_count : nat) (fingerprint : str)
    : ToolProgressLoopDecision * SessionLoopState :=
  match _action_mode g with
  | mode_error =>
      (mk_ToolProgressLoopDecision BLOCK (Some why) sc max_call_count max_output_count None, st)
  | mode_steer_then_error =>
      (mk_ToolProgressLoopDecision STEER (Some why) sc max_call_count max_output_count
         (Some (_steering_message g)),
       set_pending st 0 (if is_empty fingerprint then None else Some fingerprint) (Some why) sc
         max_call_count max_output_count)
  end.

(** The part of [evaluate_request] after the pending steer was dealt with. *)
Definition count_followup (g : ToolProgressLoopGuard) (calls outputs : list json)
    (st : SessionLoopState) : ToolProgressLoopDecision * SessionLoopState :=
  match outputs with
  | [] => (allow_decision,
           mk_SessionLoopState 0 (call_counts st) (output_counts st)
             (pending_steer_call_fingerprint st) (pending_steer_reason st)
             (pending_steer_score st) (pending_steer_repeated_call_count st)
             (pending_steer_repeated_output_count st))
  | _ =>
      let followups := S (consecutive_tool_followups st) in
      let '(max_call_count, cc) :=
        count_keys (_max_counts_per_session g) (call_hash <$> calls) (call_counts st) in
      let '(max_output_count, oc) :=
        count_keys (_max_counts_per_session g) (output_keys calls outputs) (output_counts st) in
      let st := mk_SessionLoopState followups cc oc (pending_steer_call_fingerprint st)
        (pending_steer_reason st) (pending_steer_score st)
        (pending_steer_repeated_call_count st) (pending_steer_repeated_output_count st) in
      let fingerprint := _fingerprint_tool_calls calls in
      if _max_repeated_tool_output g <=? max_output_count then
        _resolve_loop_detection g st "repeated_tool_output" max_output_count max_call_count
          max_output_count fingerprint
      else if _max_repeated_tool_call_signature g <=? max_call_count then
        _resolve_loop_detection g st "repeated_tool_call" max_call_count max_call_count
          max_output_count fingerprint
      else if _max_consecutive_tool_followups g <=? followups then
        _resolve_loop_detection g st "consecutive_tool_followups" followups max_call_count
          max_output_count fingerprint
      else
        (mk_ToolProgressLoopDecision ALLOW None followups max_call_count max_output_count None, st)
  end.

(** What the request does to the state of its session. *)
Definition evaluate_state (g : ToolProgressLoopGuard) (ms : list ChatMessage)
    (st : SessionLoopState) : ToolProgressLoopDecision * SessionLoopState :=
  if _has_new_user_message_after_last_tool ms then (allow_decision, new_state)
  else
    let outputs := _extract_tool_outputs ms in
    let calls := _extract_recent_assistant_tool_calls ms in
    let fingerprint := _fingerprint_tool_calls calls in
    match pending_steer_call_fingerprint st with
    | Some fp =>
        if negb (is_empty fingerprint) && bool_decide (fingerprint = fp)
        then (mk_ToolProgressLoopDecision BLOCK (Some "repeated_tool_call_after_steer"%string)
                (pending_steer_score st) (pending_steer_repeated_call_count st)
                (pending_steer_repeated_output_count st) None, new_state)
        else count_followup g calls outputs (_clear_pending_steer st)
    | None => count_followup g calls outputs st
    end.

(** The state object is the one in the table, so its updates are the table's. *)
Definition evaluate_request (session_id : str) (ms : list ChatMessage)
    (g : ToolProgressLoopGuard) : ToolProgressLoopDecision * ToolProgressLoopGuard :=
  if negb (_guard_enabled g) then (allow_decision, g)
  else
    let '(st, g) := _state_for session_id g in
    let '(d, st) := evaluate_state g ms st in
    (d, set_sessions g (od_set session_id st (_sessions g))).

(** What the request processor makes of the decision: an error response, the
    request with the steering message, or the request. *)
Definition apply_decision (d : ToolProgressLoopDecision) (ms : list ChatMessage)
    : res ToolProgressLoopDecision (list ChatMessage) :=
  match action d with
  | BLOCK => Err d
  | STEER =>
      let message := match steering_message d with
                     | Some m => if is_empty m then DEFAULT_TOOL_PROGRESS_LOOP_STEERING_MESSAGE else m
                     | None => DEFAULT_TOOL_PROGRESS_LOOP_STEERING_MESSAGE
                     end in
      Ok (ms ++ [mk_ChatMessage "user" (Some (JStr message)) []])
  | ALLOW => Ok ms
  end.

(** ** Sessions *)

(** The state a session has, known or not. *)
Definition state_of (sid : str) (g : ToolProgressLoopGuard) : SessionLoopState :=
  default new_state (od_get sid (_sessions g)).

Lemma state_for_spec sid g :
  od_ok (_sessions g) →
  let '(st, g') := _state_for sid g in
  st = state_of sid g ∧ od_ok (_sessions g') ∧ g' = set_sessions g (_sessions g') ∧
  od_get sid (_sessions g') = Some st ∧
  (∀ sid', sid' ≠ sid → od_get sid' (_sessions g') = od_get sid' (_sessions g) ∨
                        od_get sid' (_sessions g') = None) ∧
  (length (_sessions g) ≤ _max_cached_sessions g → 1 ≤ _max_cached_sessions g →
   length (_sessions g') ≤ _max_cached_sessions g).
Proof.
  intros Hok. unfold _state_for, state_of. destruct (od_get sid (_sessions g)) as [st|] eqn:Hg.
  - destruct (od_move_to_end_Some sid (_sessions g)) as [ss Hss]; [by eexists|].
    rewrite Hss. cbn [default from_option set_sessions _sessions].
    change (default (_sessions g) (Some ss)) with ss.
    split_and!; [done|by eapply od_move_to_end_ok|done|..].
    + by rewrite (od_move_to_end_get sid sid _ _ Hok Hss).
    + intros sid' _. left. by rewrite (od_move_to_end_get sid sid' _ _ Hok Hss).
    + intros ? _. by rewrite (od_move_to_end_length _ _ _ Hss).
  - cbn [set_sessions _sessions]. set (ss := evict_to _ _).
    assert (sublist ss (_sessions g)) as Hsub by apply sublist_drop.
    assert (od_ok ss) as Hss.
    { unfold od_ok. eapply sublist_NoDup; [exact Hok|]. by apply fmap_sublist. }
    assert (∀ k v, od_get k ss = Some v → od_get k (_sessions g) = Some v) as Hget.
    { intros k v Hk%od_get_Some_elem. apply od_elem_get; [done|].
      eapply elem_of_submseteq; [|by apply sublist_submseteq]. done. }
    assert (od_get sid ss = None) as Hnone.
    { destruct (od_get sid ss) eqn:H; [|done]. apply Hget in H. congruence. }
    split_and!; [done|by apply od_set_ok|done|by rewrite od_get_set_eq|..].
    + intros sid' Hne. rewrite od_get_set_ne //.
      destruct (od_get sid' ss) eqn:H; [|by right]. left. symmetry. by apply Hget.
    + intros Hl H1. rewrite od_set_length_new //. unfold ss, evict_to. rewrite length_drop. lia.
Qed.

(** A request is a step of the state of its session; other sessions keep their
    state or are evicted. *)
Lemma evaluate_request_spec sid ms g :
  od_ok (_sessions g) → _guard_enabled g = true →
  let '(d, g') := evaluate_request sid ms g in
  od_ok (_sessions g') ∧ g' = set_sessions g (_sessions g') ∧
  od_get sid (_sessions g') = Some (evaluate_state g ms (state_of sid g)).2 ∧
  d = (evaluate_state g ms (state_of sid g)).1 ∧
  (∀ sid', sid' ≠ sid → od_get sid' (_sessions g') = od_get sid' (_sessions g) ∨
                        od_get sid' (_sessions g') = None) ∧
  (length (_sessions g) ≤ _max_cached_sessions g → 1 ≤ _max_cached_sessions g →
   length (_sessions g') ≤ _max_cached_sessions g).
Proof.
  intros Hok Hen. unfold evaluate_request. rewrite Hen. cbn [negb].
  pose proof (state_for_spec sid g Hok) as Hs.
  destruct (_state_for sid g) as [st g1]. destruct Hs as (-> & Hok1 & Hg1 & Hget & Hoth & Hlen).
  assert (evaluate_state g1 ms (state_of sid g) = evaluate_state g ms (state_of sid g)) as Heq.
  { rewrite Hg1. done. }
  rewrite Heq. destruct (evaluate_state g ms (state_of sid g)) as [d st'].
  cbn [set_sessions _sessions fst snd].
  split_and!; [by apply od_set_ok|by rewrite {1}Hg1|by rewrite od_get_set_eq|done|..].
  - intros sid' Hne. rewrite od_get_set_ne //. by apply Hoth.
  - intros Hl H1. rewrite -(length_fmap fst) od_set_keys; [by eexists|].
    rewrite length_fmap. by apply Hlen.
Qed.

(** ** What a step can do to the pending steer *)

(** In the steering mode, a loop is answered with a steer that is remembered. *)
Lemma resolve_steers g st why sc mc mo fp d st' :
  _action_mode g = mode_steer_then_error →
  _resolve_loop_detection g st why sc mc mo fp = (d, st') →
  action d = STEER ∧ (∀ f, pending_steer_call_fingerprint st' = Some f → f = fp ∧ f ≠ ""%string).
Proof.
  intros Hm. unfold _resolve_loop_detection. rewrite Hm. intros [= <- <-]. split; [done|].
  simpl. destruct fp; [done|]. simpl. by intros f [= <-].
Qed.

Lemma count_followup_pending g calls outputs st d st' :
  _action_mode g = mode_steer_then_error → pending_steer_call_fingerprint st = None →
  count_followup g calls outputs st = (d, st') →
  action d ≠ BLOCK ∧ (∀ f, pending_steer_call_fingerprint st' = Some f →
    action d = STEER ∧ f = _fingerprint_tool_calls calls).
Proof.
  intros Hm Hp. unfold count_followup. destruct outputs as [|o outputs].
  { intros [= <- <-]. simpl. split; [done|]. by rewrite Hp. }
  destruct (count_keys _ (call_hash <$> calls) _) as [mc cc].
  destruct (count_keys _ (output_keys _ _) _) as [mo oc]. cbv zeta.
  repeat (destruct (_ <=? _);
    [intros [Hs Hf]%resolve_steers; [|done]; rewrite Hs; split; [done|];
     intros f [-> _]%Hf; done|]).
  intros [= <- <-]. simpl. split; [done|]. by rewrite Hp.
Qed.

(** A block answers the very call that was steered; only a steer leaves
    something pending. *)
Lemma evaluate_state_pending g ms st d st' :
  _action_mode g = mode_steer_then_error → evaluate_state g ms st = (d, st') →
  let fp := _fingerprint_tool_calls (_extract_recent_assistant_tool_calls ms) in
  (action d = BLOCK → fp ≠ ""%string ∧ pending_steer_call_fingerprint st = Some fp) ∧
  (∀ f, pending_steer_call_fingerprint st' = Some f → action d = STEER ∧ f = fp).
Proof.
  intros Hm. unfold evaluate_state. destruct (_has_new_user_message_after_last_tool ms).
  { by intros [= <- <-]. }
  cbv zeta. set (calls := _extract_recent_assistant_tool_calls ms).
  destruct (pending_steer_call_fingerprint st) as [f0|] eqn:Hp.
  - destruct (negb _ && bool_decide _) eqn:Hc.
    + intros [= <- <-]. apply andb_true_iff in Hc as [Hne Hc%bool_decide_eq_true]. simpl.
      rewrite Hc. split; [|done]. intros _. split; [|done]. intros E. by rewrite Hc E in Hne.
    + intros [Hnb Hf]%count_followup_pending; [|done..]. split; [done|]. done.
  - intros [Hnb Hf]%count_followup_pending; [|done..]. split; [done|]. done.
Qed.

(** ** Runs *)

(** The requests evaluated so far, oldest first, with their decisions. *)
Record entry : Type := mk_entry {
  entry_session : str; entry_messages : list ChatMessage;
  entry_decision : ToolProgressLoopDecision
}.

Definition guard_step (acc : list entry * ToolProgressLoopGuard) (req : str * list ChatMessage)
    : list entry * ToolProgressLoopGuard :=
  let '(tr, g) := acc in
  let '(d, g) := evaluate_request req.1 req.2 g in
  (tr ++ [mk_entry req.1 req.2 d], g).

Definition run (g : ToolProgressLoopGuard) (reqs : list (str * list ChatMessage))
    : list entry * ToolProgressLoopGuard := foldl guard_step ([], g) reqs.

Definition fingerprint_of (ms : list ChatMessage) : str :=
  _fingerprint_tool_calls (_extract_recent_assistant_tool_calls ms).

(** Without collisions, equal fingerprints are of the same calls, up to their
    order and the normalization of their arguments. *)
Lemma fingerprint_same_calls ms ms' :
  Inj (=) (=) sha256 → (∀ t, str_find "|"%char (sha256 t) = None) →
  fingerprint_of ms ≠ ""%string → fingerprint_of ms = fingerprint_of ms' →
  call_text loads dumps str_of <$> _extract_recent_assistant_tool_calls ms
  ≡ₚ call_text loads dumps str_of <$> _extract_recent_assistant_tool_calls ms'.
Proof.
  unfold fingerprint_of, _fingerprint_tool_calls. intros Hinj Hbar.
  destruct (_extract_recent_assistant_tool_calls ms) as [|c l]; [done|].
  destruct (_extract_recent_assistant_tool_calls ms') as [|c' l']; [done|].
  intros _ Hj.
  assert (∀ x k, sorted_strs (call_hash <$> x :: k) ≠ [] ∧
    Forall (λ h, str_find "|"%char h = None) (sorted_strs (call_hash <$> x :: k))) as Hs.
  { intros x k. split.
    - intros E. pose proof (sorted_strs_perm (call_hash <$> x :: k)) as Hp. rewrite E in Hp.
      by apply Permutation_nil_l in Hp.
    - rewrite sorted_strs_perm. apply Forall_fmap, Forall_true. intros y. apply Hbar. }
  apply join_inj in Hj; [|apply Hs..].
  assert (call_hash <$> c :: l ≡ₚ call_hash <$> c' :: l') as Hp.
  { rewrite -(sorted_strs_perm (call_hash <$> c :: l)) Hj. apply sorted_strs_perm. }
  assert (∀ k, call_hash <$> k = sha256 <$> (call_text loads dumps str_of <$> k)) as Hh
    by (intros k; exact (list_fmap_compose (call_text loads dumps str_of) sha256 k)).
  rewrite !Hh in Hp. apply Permutation_map_inv in Hp as (k & Hk & ->).
  by apply (inj (fmap sha256)) in Hk as ->.
Qed.

(** The last evaluation of a session. *)
Definition last_of (sid : str) (tr : list entry) : option entry :=
  last (filter (λ e, entry_session e = sid) tr).

Lemma last_of_snoc sid tr e :
  last_of sid (tr ++ [e]) = if decide (entry_session e = sid) then Some e else last_of sid tr.
Proof.
  unfold last_of. rewrite filter_app filter_cons filter_nil. case_decide.
  - by rewrite last_snoc.
  - by rewrite app_nil_r.
Qed.

(** Something is pending only for a session whose last answer was a steer. *)
Definition steer_invariant (acc : list entry * ToolProgressLoopGuard) : Prop :=
  od_ok (_sessions acc.2) ∧ _guard_enabled acc.2 = true ∧
  _action_mode acc.2 = mode_steer_then_error ∧
  ∀ sid fp, pending_steer_call_fingerprint (state_of sid acc.2) = Some fp →
    ∃ e, last_of sid acc.1 = Some e ∧ action (entry_decision e) = STEER ∧
         fp = fingerprint_of (entry_messages e).

Lemma guard_step_spec acc req :
  steer_invariant acc →
  steer_invariant (guard_step acc req) ∧
  ∃ d, (guard_step acc req).1 = acc.1 ++ [mk_entry req.1 req.2 d] ∧
    (action d = BLOCK → ∃ e, last_of req.1 acc.1 = Some e ∧ action (entry_decision e) = STEER ∧
       fingerprint_of req.2 ≠ ""%string ∧
       fingerprint_of req.2 = fingerprint_of (entry_messages e)).
Proof.
  destruct acc as [tr g], req as [sid ms]. intros (Hok & Hen & Hm & Hinv). simpl in *.
  pose proof (evaluate_request_spec sid ms g Hok Hen) as Hs.
  destruct (evaluate_request sid ms g) as [d g'].
  destruct Hs as (Hok' & Hg' & Hget & Hd & Hoth & _).
  destruct (evaluate_state g ms (state_of sid g)) as [d1 st1] eqn:Hev. simpl in Hget, Hd. subst d1.
  destruct (evaluate_state_pending _ _ _ _ _ Hm Hev) as [Hb Hp].
  split; [split_and!|].
  - exact Hok'.
  - by rewrite Hg'.
  - by rewrite Hg'.
  - intros sid' fp Hf. simpl in *. rewrite last_of_snoc. cbn [entry_session]. case_decide as Hsid.
    + subst sid'. unfold state_of in Hf. rewrite Hget in Hf. simpl in Hf.
      apply Hp in Hf as [? ->]. eexists. by split_and!.
    + apply Hinv. unfold state_of in *. destruct (Hoth sid') as [Hr|Hr]; [congruence|by rewrite -Hr|].
      rewrite Hr in Hf. done.
  - exists d. split; [done|]. intros Hblock. destruct (Hb Hblock) as [Hne Hpend].
    destruct (Hinv sid _ Hpend) as (e & ?&?&?). eauto 6.
Qed.

Lemma run_snoc g reqs req : run g (reqs ++ [req]) = guard_step (run g reqs) req.
Proof. unfold run. by rewrite foldl_app. Qed.

Lemma run_steer g reqs : steer_invariant ([], g) → steer_invariant (run g reqs).
Proof.
  intros Hg. induction reqs as [|req reqs IH] using rev_ind; [done|].
  rewrite run_snoc. by apply guard_step_spec.
Qed.

(** ** Sizes *)

Definition counts_ok (limit : nat) (c : list (str * nat)) : Prop := od_ok c ∧ length c ≤ limit.

Definition session_ok (g : ToolProgressLoopGuard) (st : SessionLoopState) : Prop :=
  counts_ok (_max_counts_per_session g) (call_counts st) ∧
  counts_ok (_max_counts_per_session g) (output_counts st).

Definition guard_ok (g : ToolProgressLoopGuard) : Prop :=
  od_ok (_sessions g) ∧ 1 ≤ _max_cached_sessions g ∧ 1 ≤ _max_counts_per_session g ∧
  length (_sessions g) ≤ _max_cached_sessions g ∧
  Forall (λ e, session_ok g e.2) (_sessions g).

Lemma count_keys_ok limit keys c : counts_ok limit c → counts_ok limit (count_keys limit keys c).2.
Proof.
  unfold count_keys. generalize 0. revert c. induction keys as [|k keys IH]; intros c n Hc; [done|].
  simpl. apply IH. destruct Hc as [Hok Hl]. unfold evict_to.
  split; [|rewrite length_drop; lia]. unfold od_ok.
  eapply sublist_NoDup; [by apply (od_set_ok k (S (default 0 (od_get k c))) c)|].
  apply fmap_sublist, sublist_drop.
Qed.

Lemma resolve_keeps_counts g st why sc mc mo fp :
  session_ok g st → session_ok g (_resolve_loop_detection g st why sc mc mo fp).2.
Proof. unfold _resolve_loop_detection. by destruct (_action_mode g). Qed.

Lemma count_followup_ok g calls outputs st :
  session_ok g st → session_ok g (count_followup g calls outputs st).2.
Proof.
  intros [Hc Ho]. unfold count_followup. destruct outputs as [|o outputs]; [done|].
  pose proof (count_keys_ok _ (call_hash <$> calls) _ Hc) as Hc'.
  pose proof (count_keys_ok _ (output_keys calls (o :: outputs)) _ Ho) as Ho'.
  destruct (count_keys _ (call_hash <$> calls) _) as [mc cc].
  destruct (count_keys _ (output_keys _ _) _) as [mo oc]. cbv zeta. cbn [snd] in *.
  repeat (destruct (_ <=? _); [by apply resolve_keeps_counts|]). done.
Qed.

Lemma new_state_ok g : session_ok g new_state.
Proof. split; (split; [constructor|simpl; lia]). Qed.

Lemma evaluate_state_ok g ms st : session_ok g st → session_ok g (evaluate_state g ms st).2.
Proof.
  intros Hst. unfold evaluate_state.
  destruct (_has_new_user_message_after_last_tool ms); [apply new_state_ok|]. cbv zeta.
  destruct (pending_steer_call_fingerprint st); [|by apply count_followup_ok].
  destruct (_ && _); [apply new_state_ok|by apply count_followup_ok].
Qed.

Lemma evaluate_request_ok sid ms g : guard_ok g → guard_ok (evaluate_request sid ms g).2.
Proof.
  intros Hg. destruct (_guard_enabled g) eqn:Hen;
    [|unfold evaluate_request; by rewrite Hen].
  pose proof Hg as (Hok & H1 & H2 & Hl & Hf).
  pose proof (evaluate_request_spec sid ms g Hok Hen) as Hs.
  destruct (evaluate_request sid ms g) as [d g']. cbn [snd].
  destruct Hs as (Hok' & Hg' & Hget & _ & Hoth & Hlen).
  assert (_max_cached_sessions g' = _max_cached_sessions g ∧
    _max_counts_per_session g' = _max_counts_per_session g) as [E1 E2] by (by rewrite Hg').
  unfold guard_ok, session_ok. rewrite E1 E2. split_and!; [done..|by apply Hlen|].
  apply Forall_forall. intros [sid' st] Hin%od_elem_get; [|done]. simpl.
  rewrite Forall_forall in Hf.
  destruct (decide (sid' = sid)) as [->|Hne].
  - rewrite Hget in Hin. injection Hin as <-. apply evaluate_state_ok. unfold state_of.
    destruct (od_get sid (_sessions g)) eqn:E; [|apply new_state_ok].
    apply od_get_Some_elem in E. by apply (Hf _ E).
  - destruct (Hoth sid' Hne) as [Hr|Hr]; rewrite Hr in Hin; [|done].
    apply od_get_Some_elem in Hin. by apply (Hf _ Hin).
Qed.

(** ** The same request again and again *)

(** A follow-up with one call [c] and its result [o]. *)
Definition single_followup (ms : list ChatMessage) (c o : json) : Prop :=
  _has_new_user_message_after_last_tool ms = false ∧
  _extract_recent_assistant_tool_calls ms = [c] ∧ _extract_tool_outputs ms = [o].

Definition output_key (c o : json) : str := (call_hash c +:+ "::" +:+ output_hash o)%string.

(** The state of a session after [n] such requests. *)
Definition repeated_state (n : nat) (h k : str) : SessionLoopState :=
  mk_SessionLoopState n (match n with 0 => [] | _ => [(h, n)] end)
    (match n with 0 => [] | _ => [(k, n)] end) None None 0 0 0.

Lemma count_repeated limit h n :
  1 ≤ limit →
  count_keys limit [h] (match n with 0 => [] | _ => [(h, n)] end) = (S n, [(h, S n)]).
Proof.
  intros Hl. unfold count_keys, count_key, evict_to. destruct n as [|n]; simpl;
    rewrite ?decide_True //=; by replace (1 - limit) with 0 by lia.
Qed.

Section escalation.
Context (g : ToolProgressLoopGuard) (ms : list ChatMessage) (c o : json).
Hypothesis Hrep : single_followup ms c o.
Hypothesis Hlimit : 1 ≤ _max_counts_per_session g.
Hypothesis Hmode : _action_mode g = mode_steer_then_error.
Hypothesis Hhash : call_hash c ≠ ""%string.
Let m := Nat.min (_max_repeated_tool_output g) (_max_repeated_tool_call_signature g).
Hypothesis Hm : 1 ≤ m ≤ _max_consecutive_tool_followups g.
Let h := call_hash c.
Let k := output_key c o.
Set Default Proof Using "Type*".

Lemma evaluate_repeated n :
  S n ≤ m →
  ∃ d st, evaluate_state g ms (repeated_state n h k) = (d, st) ∧
    (S n < m → action d = ALLOW ∧ st = repeated_state (S n) h k) ∧
    (S n = m → action d = STEER ∧ pending_steer_call_fingerprint st = Some h).
Proof.
  intros Hn. destruct Hrep as (Hnew & Hcalls & Houts).
  unfold evaluate_state. rewrite Hnew Hcalls Houts. cbv zeta.
  cbn [repeated_state pending_steer_call_fingerprint]. unfold count_followup.
  cbn [repeated_state call_counts output_counts consecutive_tool_followups].
  assert (output_keys [c] [o] = [k]) as -> by done.
  change (call_hash <$> [c]) with [h]. rewrite !count_repeated //.
  assert (_fingerprint_tool_calls [c] = h) as -> by done.
  assert (is_empty h = false) as Hemp.
  { unfold h. by destruct (call_hash c). }
  unfold _resolve_loop_detection. rewrite Hmode Hemp.
  destruct (Nat.leb_spec (_max_repeated_tool_output g) (S n)).
  { eexists _, _. split; [done|]. split; [lia|]. done. }
  destruct (Nat.leb_spec (_max_repeated_tool_call_signature g) (S n)).
  { eexists _, _. split; [done|]. split; [lia|]. done. }
  destruct (Nat.leb_spec (_max_consecutive_tool_followups g) (S n)); [lia|].
  eexists _, _. split; [done|]. split; [done|lia].
Qed.

Lemma evaluate_steered st :
  pending_steer_call_fingerprint st = Some h →
  ∃ d, evaluate_state g ms st = (d, new_state) ∧ action d = BLOCK.
Proof.
  intros Hp. destruct Hrep as (Hnew & Hcalls & Houts).
  unfold evaluate_state. rewrite Hnew Hcalls Hp. cbv zeta.
  assert (_fingerprint_tool_calls [c] = h) as -> by done.
  rewrite bool_decide_true //. assert (is_empty h = false) as ->.
  { unfold h. by destruct (call_hash c). }
  by eexists.
Qed.
End escalation.

(** Evaluating [n] copies of a request. *)
Lemma run_replicate_S g n req : run g (replicate (S n) req) = guard_step (run g (replicate n req)) req.
Proof. by rewrite replicate_S_end run_snoc. Qed.

(** One step of the run, on the state of its session. *)
Lemma guard_step_state g tr g1 sid ms d st :
  od_ok (_sessions g1) → g1 = set_sessions g (_sessions g1) → _guard_enabled g = true →
  evaluate_state g ms (state_of sid g1) = (d, st) →
  ∃ g2, guard_step (tr, g1) (sid, ms) = (tr ++ [mk_entry sid ms d], g2) ∧
    od_ok (_sessions g2) ∧ g2 = set_sessions g (_sessions g2) ∧ state_of sid g2 = st.
Proof.
  intros Hok Hg1 Hen Hev. simpl.
  pose proof (evaluate_request_spec sid ms g1 Hok) as Hs. rewrite {1}Hg1 in Hs.
  specialize (Hs Hen). destruct (evaluate_request sid ms g1) as [d1 g2].
  destruct Hs as (Hok2 & Hg2 & Hget & Hd & _).
  assert (evaluate_state g1 ms (state_of sid g1) = (d, st)) as Hev1 by (rewrite {1}Hg1; exact Hev).
  rewrite Hev1 in Hget, Hd. simpl in *. subst d1. exists g2. split; [done|]. split; [done|].
  split; [rewrite Hg2 {1}Hg1; done|]. unfold state_of. by rewrite Hget.
Qed.

Lemma run_repeated g sid ms c o n :
  let m := Nat.min (_max_repeated_tool_output g) (_max_repeated_tool_call_signature g) in
  single_followup ms c o → 1 ≤ _max_counts_per_session g →
  _action_mode g = mode_steer_then_error → call_hash c ≠ ""%string →
  m ≤ _max_consecutive_tool_followups g → _guard_enabled g = true → od_ok (_sessions g) →
  state_of sid g = new_state → n < m →
  ∃ tr g1, run g (replicate n (sid, ms)) = (tr, g1) ∧
    (action ∘ entry_decision) <$> tr = replicate n ALLOW ∧
    od_ok (_sessions g1) ∧ g1 = set_sessions g (_sessions g1) ∧
    state_of sid g1 = repeated_state n (call_hash c) (output_key c o).
Proof.
  intros m Hrep Hlim Hmode Hh Hm Hen Hok Hst Hn. induction n as [|n IH].
  { eexists _, _. split; [done|]. split; [done|]. split; [done|].
    split; [by destruct g|done]. }
  destruct IH as (tr & g1 & Hr & Htr & Hok1 & Hg1 & Hst1); [lia|].
  destruct (evaluate_repeated g ms c o Hrep Hlim Hmode Hh) with (n := n) as (d & st & Hev & Hal & _);
    [lia|lia|].
  destruct (Hal Hn) as [Hd ->]. rewrite -Hst1 in Hev.
  destruct (guard_step_state g tr g1 sid ms _ _ Hok1 Hg1 Hen Hev) as (g2 & Hstep & Hok2 & Hg2 & Hst2).
  rewrite run_replicate_S Hr. eexists _, _. split; [exact Hstep|].
  split; [|done]. by rewrite fmap_app Htr replicate_S_end /= Hd.
Qed.

(** ** Properties *)

(** A repeated tool call escalates and then recovers.  Let a session send the
    same follow-up (one call, one result) again and again, and let [m] be the
    smaller of the two repetition limits.  The first [m - 1] requests are
    allowed, the next is steered, the one after that is blocked; the session then
    starts over with a clean state, so it is not blocked for ever. *)
Theorem repeated_call_escalates (g : ToolProgressLoopGuard) (sid : str)
    (ms : list ChatMessage) (c o : json) :
  let m := Nat.min (_max_repeated_tool_output g) (_max_repeated_tool_call_signature g) in
  single_followup ms c o → call_hash c ≠ ""%string →
  guard_ok g → _guard_enabled g = true → _action_mode g = mode_steer_then_error →
  1 ≤ m ≤ _max_consecutive_tool_followups g → state_of sid g = new_state →
  let '(tr, g') := run g (replicate (S m) (sid, ms)) in
  (action ∘ entry_decision) <$> tr = replicate (m - 1) ALLOW ++ [STEER; BLOCK] ∧
  state_of sid g' = new_state.
Proof.
  intros m Hrep Hh (Hok & _ & Hlim & _) Hen Hmode Hm Hst.
  destruct (run_repeated g sid ms c o (m - 1)) as (tr & g1 & Hr & Htr & Hok1 & Hg1 & Hst1);
    [done..|lia|done|done|done|lia|].
  destruct (evaluate_repeated g ms c o Hrep Hlim Hmode Hh) with (n := m - 1)
    as (d & st & Hev & _ & Hsteer); [lia|lia|].
  destruct Hsteer as [Hd Hpend]; [lia|]. rewrite -Hst1 in Hev.
  destruct (guard_step_state g tr g1 sid ms _ _ Hok1 Hg1 Hen Hev) as (g2 & Hs2 & Hok2 & Hg2 & Hst2).
  destruct (evaluate_steered g ms c o Hrep Hlim Hmode Hh) with (st := st) as (d2 & Hev2 & Hb);
    [lia|done|]. rewrite -Hst2 in Hev2.
  destruct (guard_step_state g (tr ++ [mk_entry sid ms d]) g2 sid ms _ _ Hok2 Hg2 Hen Hev2)
    as (g3 & Hs3 & _ & _ & Hst3).
  replace (S m) with (S (S (m - 1))) by lia. rewrite !run_replicate_S Hr Hs2 Hs3.
  split; [|done]. by rewrite !fmap_app Htr /= Hd Hb -assoc_L.
Qed.

(** C14: A block is always preceded by a warning.  In the steering mode, in any
    run over any sessions, a blocked request has tool calls and belongs to a
    session whose previous request was steered, with the same fingerprint of its
    latest tool calls.  When SHA-256 (its hexadecimal digests have no bar) has no
    collision, this means: the same calls, in some order, each with the same tool
    name and the same arguments, once those are parsed and normalized (slashes,
    and the case of paths with a drive letter). *)
Theorem block_only_after_steer (g : ToolProgressLoopGuard) (reqs : list (str * list ChatMessage))
    (tr1 tr2 : list entry) (e : entry) :
  let calls e := _extract_recent_assistant_tool_calls (entry_messages e) in
  _guard_enabled g = true → _action_mode g = mode_steer_then_error → _sessions g = [] →
  (run g reqs).1 = tr1 ++ e :: tr2 → action (entry_decision e) = BLOCK →
  ∃ e', last_of (entry_session e) tr1 = Some e' ∧ action (entry_decision e') = STEER ∧
    calls e ≠ [] ∧ fingerprint_of (entry_messages e) = fingerprint_of (entry_messages e') ∧
    (Inj (=) (=) sha256 → (∀ t, str_find "|"%char (sha256 t) = None) →
     call_text loads dumps str_of <$> calls e ≡ₚ call_text loads dumps str_of <$> calls e').
Proof.
  intros calls Hen Hm Hss Hr Hb.
  assert (steer_invariant ([], g)) as Hinv.
  { split_and!; [rewrite Hss; constructor|done|done|].
    intros sid fp. unfold state_of. by rewrite Hss. }
  revert tr2 Hr. induction reqs as [|req reqs IH] using rev_ind; intros tr2.
  { intros Hr. destruct tr1; done. }
  rewrite run_snoc. destruct (guard_step_spec (run g reqs) req (run_steer g reqs Hinv))
    as [_ (d & -> & Hd)].
  destruct tr2 as [|e2 tr2 _] using rev_ind; intros Hr.
  - apply app_inj_tail in Hr as [<- <-]. destruct (Hd Hb) as (e' & He' & Hs' & Hne & Hfp).
    exists e'. split_and!; [done..| |done|].
    + intros E. apply Hne. unfold fingerprint_of. unfold calls in E. simpl in E. by rewrite E.
    + intros Hinj Hbar. by apply fingerprint_same_calls.
  - rewrite app_comm_cons assoc_L in Hr. apply app_inj_tail in Hr as [Hr _]. by eapply IH.
Qed.

(** The guard is bounded and never corrupt.  After any requests of any
    sessions, the session table has no duplicates and at most
    [max_cached_sessions] entries, and every counter table of every session has
    no duplicates and at most [max_counts_per_session] entries. *)
Theorem guard_always_ok (followups calls outputs counts cached : Z) (enabled : bool)
    (mode : ActionMode) (message : option str) (reqs : list (str * list ChatMessage)) :
  guard_ok (run (guard_init followups calls outputs counts cached enabled mode message) reqs).2.
Proof.
  set (g := guard_init _ _ _ _ _ _ _ _).
  assert (guard_ok g) as Hg.
  { split_and!; [constructor|cbn; lia|cbn; lia|cbn; lia|constructor]. }
  induction reqs as [|[sid ms] reqs IH] using rev_ind; [done|].
  rewrite run_snoc. destruct (run g reqs) as [tr g1]. simpl in *.
  pose proof (evaluate_request_ok sid ms g1 IH) as Hok.
  by destruct (evaluate_request sid ms g1).
Qed.
End guard.

(** ** Samples *)

Definition sample_dumps (j : json) : str :=
  match j with JList (JStr name :: JStr a :: _) => name +:+ a | _ => "?" end%string.
Definition sample_fingerprint (ms : list ChatMessage) : str :=
  fingerprint_of (λ _, None) sample_dumps sample_dumps (λ t, t) ms.
Definition sample_run : ToolProgressLoopGuard → list (str * list ChatMessage) →
    list entry * ToolProgressLoopGuard := run (λ _, None) sample_dumps sample_dumps (λ t, t).

(** The second call writes the same path another way. *)
Definition sample_call (path : str) : json :=
  JDict [("function", JDict [("name", JStr "read"); ("arguments", JStr path)])]%string.
Definition sample_messages (path : str) : list ChatMessage :=
  [mk_ChatMessage "user" (Some (JStr "go")) []; mk_ChatMessage "assistant" None [sample_call path];
   mk_ChatMessage "tool" (Some (JStr "no match")) []].
Definition sample_guard : ToolProgressLoopGuard :=
  guard_init 50 3 7 256 1000 true mode_steer_then_error None.

Lemma repeated_call_escalates_witness :
  (action ∘ entry_decision) <$> (sample_run sample_guard
     (replicate 4 ("s"%string, sample_messages "C:\A"))).1 = [ALLOW; ALLOW; STEER; BLOCK].
Proof.
  pose proof (repeated_call_escalates (λ _, None) sample_dumps sample_dumps (λ t, t) sample_guard "s"
    (sample_messages "C:\A") (sample_call "C:\A") (JStr "no match")) as H. cbv zeta in H.
  change (Nat.min (_max_repeated_tool_output sample_guard)
    (_max_repeated_tool_call_signature sample_guard)) with 3 in H. unfold sample_run.
  destruct (run (λ _, None) _ _ _ sample_guard (replicate 4 ("s"%string, sample_messages "C:\A")))
    as [tr g']. apply H; try done; [|vm_compute; lia].
  split_and!; [constructor|vm_compute; lia|vm_compute; lia|vm_compute; lia|constructor].
Defined.

Lemma block_only_after_steer_witness :
  let reqs := replicate 3 ("s"%string, sample_messages "C:\A") ++ [("s"%string, sample_messages "c:/A")] in
  ∃ e', last_of "s" (take 3 (sample_run sample_guard reqs).1) = Some e' ∧
    action (entry_decision e') = STEER ∧
    sample_fingerprint (sample_messages "c:/A") = sample_fingerprint (entry_messages e').
Proof.
  destruct (block_only_after_steer (λ _, None) sample_dumps sample_dumps (λ t, t) sample_guard
    (replicate 3 ("s"%string, sample_messages "C:\A") ++ [("s"%string, sample_messages "c:/A")])
    (sample_run sample_guard (replicate 3 ("s"%string, sample_messages "C:\A"))).1 []
    (mk_entry "s" (sample_messages "c:/A")
       (evaluate_request (λ _, None) sample_dumps sample_dumps (λ t, t) "s" (sample_messages "c:/A")
          (sample_run sample_guard (replicate 3 ("s"%string, sample_messages "C:\A"))).2).1))
    as (e' & H1 & H2 & _ & H3 & _); [reflexivity..|].
  exists e'. split; [exact H1|]. split; [exact H2|exact H3].
Defined.
