(* ===== verification/RetryAfter.v ===== *)
(** * Retry-after extraction

    [src/src/core/services/resilience/retry_after.py]: from the shapes an error
    can have, the seconds to wait before a retry.  The sources are tried in
    order: [reset_at], [retry_after], the details (keys, headers, Google error
    details), the response headers, and the text of the messages.

    The regular expressions are matchers on the text: for these patterns the
    backtracking of the engine leaves one candidate per position, spelled out at
    each matcher.  HTTP dates ([email.utils]) are a parameter; [time.time()] is
    the argument [now]. *)

From Stdlib Require Import Ascii.
From S2P Require Import Prelude PyStr PyDict Exceptions ErrorHandlers.
From stdpp Require Import options.

(** An error: its attributes, and the headers of its [response]. *)
Record failing_error : Type := mk_failing_error {
  fe_attrs : error_attrs;
  fe_response_headers : option json
}.

(** [_normalize_seconds]: finite and not negative. *)
Definition seconds_of_float (x : pyfloat) : option Q :=
  match x with
  | FDec m e => if (m <? 0)%Z then None else Some (dec_to_Q m e)
  | _ => None
  end.

Definition _normalize_seconds (value : option json) : option Q :=
  match value with
  | None | Some (JBool _) => None
  | Some v => float_of_json v ≫= seconds_of_float
  end.

(** ** Text scanning *)

(** The class [\w] on the code points 0 to 255. *)
Definition is_word (c : ascii) : bool :=
  let n := nat_of_ascii c in
  is_digit c || ((65 <=? n) && (n <=? 90)) || ((97 <=? n) && (n <=? 122)) || (n =? 95)
  || existsb (Nat.eqb n) [170; 178; 179; 181; 185; 186; 188; 189; 190]
  || ((192 <=? n) && negb (n =? 215) && negb (n =? 247)).

Definition starts_word (s : str) : bool :=
  match s with String c _ => is_word c | "" => false end.

(** The longest prefix of word characters, and the rest. *)
Fixpoint take_word (s : str) : str * str :=
  match s with
  | String c s' => if is_word c then let '(w, r) := take_word s' in (String c w, r) else ("", s)
  | "" => ("", "")
  end.

(** The longest [\d+(?:\.\d+)?]; the flag says that there is a fraction. *)
Definition scan_number (s : str) : option (str * bool * str) :=
  let '(ip, r) := take_digits s in
  if is_empty ip then None
  else
    match r with
    | String "." r0 =>
        let '(fp, r1) := take_digits r0 in
        if is_empty fp then Some (ip, false, r) else Some (ip +:+ "." +:+ fp, true, r1)
    | _ => Some (ip, false, r)
    end.

(** The value of a scanned number. *)
Definition number_value (text : str) : Q := default 0%Q (py_float text ≫= seconds_of_float).

(** A literal, letters of either case. *)
Fixpoint strip_prefix_ci (p s : str) : option str :=
  match p, s with
  | "", _ => Some s
  | String a p', String b s' =>
      if Ascii.eqb a (lower_char b) then strip_prefix_ci p' s' else None
  | _, _ => None
  end.

(** [re.search]: the first position, with the character before it. *)
Fixpoint search {A} (f : option ascii → str → option A) (prev : option ascii) (s : str) : option A :=
  match f prev s with
  | Some x => Some x
  | None => match s with "" => None | String c s' => search f (Some c) s' end
  end.

(** ** Durations *)

(** [(?:(\d+(?:\.\d+)?)u)?]: a group that is there or not. *)
Definition scan_group (u : ascii) (s : str) : option str * str :=
  match scan_number s with
  | Some (t, _, String c r) => if Ascii.eqb u (lower_char c) then (Some t, r) else (None, s)
  | _ => (None, s)
  end.

Definition group_seconds (g : option str) (unit : Q) : Q :=
  match g with Some t => (number_value t * unit)%Q | None => 0%Q end.

(** [_DURATION_RE] on stripped text. *)
Definition match_duration (s : str) : option Q :=
  let '(h, s) := scan_group "h" s in
  let '(m, s) := scan_group "m" s in
  let '(sec, s) := scan_group "s" s in
  if is_empty s then
    match h, m, sec with
    | None, None, None => None
    | _, _, _ => Some (group_seconds h 3600 + group_seconds m 60 + group_seconds sec 1)%Q
    end
  else None.

Definition parse_duration_string (duration : option json) : option Q :=
  match duration with
  | Some (JStr text) =>
      let stripped := strip text in
      if is_empty stripped then None
      else match _normalize_seconds (Some (JStr stripped)) with
           | Some x => Some x
           | None => match_duration stripped
           end
  | _ => None
  end.

(** ** Headers and details *)

Section extraction.
Context (parse_http_date : str → option Q) (now : Q).

Definition parse_retry_after_header (value : option json) : option Q :=
  match _normalize_seconds value with
  | Some x => Some x
  | None =>
      match value with
      | Some (JStr s) => (λ t, Qpymax 0 (t - now)) <$> parse_http_date s
      | _ => None
      end
  end.
End extraction.

(** [str.upper] and [str.title] of the ASCII literals that are looked up. *)
Definition upper_char (c : ascii) : ascii :=
  let n := nat_of_ascii c in
  if (97 <=? n) && (n <=? 122) then ascii_of_nat (n - 32) else c.

Definition is_letter (c : ascii) : bool :=
  let n := nat_of_ascii (lower_char c) in (97 <=? n) && (n <=? 122).

Fixpoint upper (s : str) : str :=
  match s with "" => "" | String c s' => String (upper_char c) (upper s') end.

Fixpoint title (after_letter : bool) (s : str) : str :=
  match s with
  | "" => ""
  | String c s' =>
      String (if after_letter then lower_char c else upper_char c) (title (is_letter c) s')
  end.

Definition _headers_get (headers : list (str * json)) (key : str) : option json :=
  match first_some [od_get key headers; od_get (lower key) headers; od_get (upper key) headers;
                    od_get (title false key) headers] with
  | Some v => Some v
  | None =>
      match list_find (λ e, lower e.1 = lower key) headers with
      | Some (_, e) => Some e.2
      | None => None
      end
  end.

(** [for key in keys: parsed = f(...); if parsed is not None: return parsed] *)
Definition first_parsed {A} (f : A → option Q) (l : list A) : option Q := first_some (f <$> l).

(** [isinstance(candidate, Mapping)] over the detail objects of the payload and
    of its [error]. *)
Definition detail_objects (payload : list (str * json)) : list (list (str * json)) :=
  let listed (v : option json) := match v with Some (JList l) => l | _ => [] end in
  omap (λ j, as_dict (Some j))
    (listed (od_get "details" payload) ++ listed (dget "details" (od_get "error" payload))).

Definition google_detail (detail : list (str * json)) : option Q :=
  match parse_duration_string (od_get "retryDelay" detail) with
  | Some x => Some x
  | None =>
      match od_get "metadata" detail with
      | Some (JDict metadata) =>
          first_parsed (λ k, parse_duration_string (_headers_get metadata k))
            ["quotaResetDelay"; "retryDelay"; "retry_after_seconds"; "retry_after"; "retryAfter"]
      | _ => None
      end
  end.

Definition _extract_google_retry_after (details : list (str * json)) : option Q :=
  first_parsed google_detail (detail_objects details).

(** ** Messages *)

Definition second_units : list str := ["s"; "sec"; "secs"; "second"; "seconds"].
Definition minute_units : list str := ["m"; "min"; "mins"; "minute"; "minutes"].
Definition hour_units : list str := ["h"; "hr"; "hrs"; "hour"; "hours"].

Definition _duration_multiplier (unit : str) : Q :=
  let unit_l := lower unit in
  (if str_in unit_l second_units then 1
   else if str_in unit_l minute_units then 60
   else if str_in unit_l hour_units then 3600
   else 1)%Q.

Definition is_unit (w : str) : bool :=
  str_in (lower w) (second_units ++ minute_units ++ hour_units).

(** The keyword and the spaces after it. *)
Definition after_keyword (keywords : list str) (s : str) : option str :=
  r ← first_some ((λ k, strip_prefix_ci k s) <$> keywords);
  match r with String c _ => if is_space c then Some (lstrip r) else None | "" => None end.

(** [_MESSAGE_AFTER_OR_IN_RE]: the unit ends at a word boundary, so it is the
    whole word after the number. *)
Definition match_after_or_in (_ : option ascii) (s : str) : option Q :=
  r ← after_keyword ["after"; "in"] s;
  match scan_number r with
  | Some (t, _, r) =>
      let '(w, _) := take_word (lstrip r) in
      if is_unit w then Some (number_value t * _duration_multiplier w)%Q else None
  | None => None
  end.

(** [_MESSAGE_WAIT_RE]: the unit is optional.  Spaces after the number give a
    word boundary; without them the number must end one, and a fraction that
    does not is given back, which leaves its integer part before the point. *)
Definition match_wait (_ : option ascii) (s : str) : option Q :=
  r ← after_keyword ["wait"] s;
  match scan_number r with
  | Some (t, fraction, r) =>
      let '(w, _) := take_word (lstrip r) in
      if is_unit w then Some (number_value t * _duration_multiplier w)%Q
      else if match r with String c _ => is_space c || negb (is_word c) | "" => true end
      then Some (number_value t * _duration_multiplier "s")%Q
      else if fraction then Some (number_value (take_digits t).1 * _duration_multiplier "s")%Q
      else None
  | None => None
  end.

(** [\d+u] *)
Definition scan_integer_unit (u : ascii) (s : str) : option (str * str) :=
  let '(ip, r) := take_digits s in
  if is_empty ip then None
  else match r with
       | String c r' => if Ascii.eqb u (lower_char c) then Some (ip +:+ String c "", r') else None
       | "" => None
       end.

(** [(?:\d+(?:\.\d+)?s)?] *)
Definition scan_seconds (s : str) : option (str * str) :=
  match scan_number s with
  | Some (t, _, String c r) =>
      if Ascii.eqb "s" (lower_char c) then Some (t +:+ String c "", r) else None
  | _ => None
  end.

Definition optional (f : str → option (str * str)) (s : str) : str * str :=
  default ("", s) (f s).

(** [_MESSAGE_DURATION_RE]: hours, minutes or seconds first; each part ends in a
    letter, so a later part that is present cannot be given back at a word
    boundary. *)
Definition match_message_duration (prev : option ascii) (s : str) : option Q :=
  if match prev with Some c => is_word c | None => false end then None
  else
    let from_hours :=
      '(h, r) ← scan_integer_unit "h" s;
      let '(m, r) := optional (scan_integer_unit "m") r in
      let '(sec, r) := optional scan_seconds r in
      if starts_word r then None else Some (h +:+ m +:+ sec) in
    let from_minutes :=
      '(m, r) ← scan_integer_unit "m" s;
      let '(sec, r) := optional scan_seconds r in
      if starts_word r then None else Some (m +:+ sec) in
    let from_seconds :=
      '(sec, r) ← scan_seconds s;
      if starts_word r then None else Some sec in
    text ← first_some [from_hours; from_minutes; from_seconds];
    parse_duration_string (Some (JStr text)).

Definition _extract_from_message (message : str) : option Q :=
  if is_empty message then None
  else first_some [search match_after_or_in None message; search match_wait None message;
                   search match_message_duration None message].

(** [list(dict.fromkeys(l))] *)
Definition distinct (l : list str) : list str :=
  foldl (λ acc x, if bool_decide (x ∈ acc) then acc else acc ++ [x]) [] l.

Definition _collect_message_candidates (error : failing_error) : list str :=
  let attrs := fe_attrs error in
  let usable (s : option str) := option_list (nonblank s) in
  let details := as_dict (ea_details attrs) in
  let from_details :=
    match details with
    | Some d =>
        usable (as_str (_headers_get d "message")) ++
        match od_get "error" d with
        | Some (JDict e) => usable (as_str (_headers_get e "message"))
        | _ => []
        end
    | None => []
    end in
  distinct (usable (ea_message attrs) ++ from_details ++ usable (Some (ea_str attrs))).

(** ** The extraction *)

Section extract.
Context (parse_http_date : str → option Q) (now : Q).

Definition _extract_from_headers (headers : list (str * json)) : option Q :=
  first_parsed (λ k, parse_retry_after_header parse_http_date now (_headers_get headers k))
    ["retry-after"; "retry_after"; "retryAfter"].

Definition _extract_from_details (details : list (str * json)) : option Q :=
  first_some
    [first_parsed (λ k, _normalize_seconds (_headers_get details k))
       ["retry_after_seconds"; "retry_after"; "retryAfter"];
     as_dict (od_get "headers" details) ≫= _extract_from_headers;
     _extract_google_retry_after details].

Definition _extract_from_reset_at (error : failing_error) : option Q :=
  reset_at ← _normalize_seconds (ea_reset_at (fe_attrs error));
  Some (if Qle_bool now reset_at || Qltb 1000000000 reset_at
        then Qpymax 0 (reset_at - now) else reset_at).

Definition extract_retry_after_seconds (error : failing_error) : option Q :=
  first_some
    ([_extract_from_reset_at error;
      _normalize_seconds (ea_retry_after (fe_attrs error));
      as_dict (ea_details (fe_attrs error)) ≫= _extract_from_details;
      as_dict (fe_response_headers error) ≫= _extract_from_headers]
     ++ (_extract_from_message <$> _collect_message_candidates error)).
End extract.

(** ** The extracted hint is a wait *)

Definition nonneg (o : option Q) : Prop := ∀ x, o = Some x → (0 <= x)%Q.

Create HintDb seconds.

Lemma nonneg_None : nonneg None.
Proof. done. Qed.

Lemma nonneg_Some x : (0 <= x)%Q → nonneg (Some x).
Proof. by intros H y [= <-]. Qed.

Lemma nonneg_first_some l : Forall nonneg l → nonneg (first_some l).
Proof. induction 1 as [|[y|] l Hy _ IH]; cbn; [done|exact Hy|exact IH]. Qed.

Lemma nonneg_first_parsed {A} (f : A → option Q) l : (∀ a, nonneg (f a)) → nonneg (first_parsed f l).
Proof. intros H. apply nonneg_first_some, Forall_fmap, Forall_forall. intros a _. apply H. Qed.

Lemma nonneg_bind {A} (o : option A) (f : A → option Q) : (∀ a, nonneg (f a)) → nonneg (o ≫= f).
Proof. destruct o; cbn; [auto|done]. Qed.

Lemma nonneg_search f prev s : (∀ p t, nonneg (f p t)) → nonneg (search f prev s).
Proof.
  intros H. revert prev; induction s as [|c s IH]; intros prev; cbn;
    specialize (H prev); [specialize (H "")|specialize (H (String c s))]; destruct (f _ _); auto; done.
Qed.

Lemma dec_to_Q_nonneg m e : (0 <= m)%Z → (0 <= dec_to_Q m e)%Q.
Proof.
  intros Hm. unfold dec_to_Q. destruct (Z.leb_spec 0 e).
  - change 0%Q with (inject_Z 0). rewrite -Zle_Qle. apply Z.mul_nonneg_nonneg; [done|]. by apply Z.pow_nonneg.
  - apply Qle_shift_div_l.
    + change 0%Q with (inject_Z 0). rewrite -Zlt_Qlt. apply Z.pow_pos_nonneg; lia.
    + rewrite Qmult_0_l. change 0%Q with (inject_Z 0). by rewrite -Zle_Qle.
Qed.

Lemma seconds_of_float_nonneg x : nonneg (seconds_of_float x).
Proof.
  destruct x as [m e| |]; cbn; try apply nonneg_None.
  destruct (Z.ltb_spec m 0); [apply nonneg_None|]. by apply nonneg_Some, dec_to_Q_nonneg.
Qed.

#[export] Hint Resolve nonneg_None nonneg_Some nonneg_first_parsed nonneg_bind nonneg_search
  seconds_of_float_nonneg Qpymax_ge_l : seconds.

Lemma normalize_seconds_nonneg v : nonneg (_normalize_seconds v).
Proof. destruct v as [[]|]; cbn [_normalize_seconds]; eauto with seconds. Qed.

Lemma number_value_nonneg t : (0 <= number_value t)%Q.
Proof.
  unfold number_value. destruct (_ ≫= _) as [q|] eqn:E; cbn; [|lra].
  revert q E. apply nonneg_bind, seconds_of_float_nonneg.
Qed.

Lemma duration_multiplier_pos u : (0 <= _duration_multiplier u)%Q.
Proof. unfold _duration_multiplier. repeat case_match; lra. Qed.

#[export] Hint Resolve normalize_seconds_nonneg number_value_nonneg duration_multiplier_pos
  Qmult_le_0_compat : seconds.

Lemma group_seconds_nonneg g u : (0 <= u)%Q → (0 <= group_seconds g u)%Q.
Proof. destruct g; cbn; [auto with seconds|lra]. Qed.

Lemma match_duration_nonneg s : nonneg (match_duration s).
Proof.
  unfold match_duration. destruct (scan_group "h" s) as [h s1], (scan_group "m" s1) as [m s2],
    (scan_group "s" s2) as [sec s3].
  pose proof (group_seconds_nonneg h 3600 ltac:(lra)). pose proof (group_seconds_nonneg m 60 ltac:(lra)).
  pose proof (group_seconds_nonneg sec 1 ltac:(lra)).
  destruct (is_empty s3); [|done].
  destruct h, m, sec; try done; apply nonneg_Some; lra.
Qed.

Lemma parse_duration_nonneg d : nonneg (parse_duration_string d).
Proof.
  destruct d as [[]|]; cbn [parse_duration_string]; try done. destruct (is_empty _); [done|].
  pose proof (normalize_seconds_nonneg (Some (JStr (strip s)))).
  destruct (_normalize_seconds _); [done|apply match_duration_nonneg].
Qed.

#[export] Hint Resolve parse_duration_nonneg : seconds.

Lemma header_nonneg parse now v : nonneg (parse_retry_after_header parse now v).
Proof.
  unfold parse_retry_after_header. pose proof (normalize_seconds_nonneg v).
  destruct (_normalize_seconds v); [done|]. destruct v as [[]|]; try done.
  destruct (parse _); cbn; auto with seconds.
Qed.

#[export] Hint Resolve header_nonneg : seconds.

Lemma google_detail_nonneg d : nonneg (google_detail d).
Proof.
  unfold google_detail. pose proof (parse_duration_nonneg (od_get "retryDelay" d)).
  destruct (parse_duration_string _); [done|]. destruct (od_get "metadata" d) as [[]|]; auto with seconds.
Qed.

Lemma match_after_or_in_nonneg p s : nonneg (match_after_or_in p s).
Proof.
  apply nonneg_bind. intros r. destruct (scan_number r) as [[[t fr] r1]|]; [|done].
  destruct (take_word _). destruct (is_unit _); auto 6 with seconds.
Qed.

Lemma match_wait_nonneg p s : nonneg (match_wait p s).
Proof.
  apply nonneg_bind. intros r. destruct (scan_number r) as [[[t fr] r1]|]; [|done].
  destruct (take_word _). destruct (is_unit _); [auto 6 with seconds|].
  destruct (match r1 with "" => _ | _ => _ end); [auto 6 with seconds|].
  destruct fr; auto 6 with seconds.
Qed.

Lemma match_message_duration_nonneg p s : nonneg (match_message_duration p s).
Proof.
  unfold match_message_duration. destruct (match p with Some _ => _ | None => _ end); [done|].
  apply nonneg_bind. auto with seconds.
Qed.

#[export] Hint Resolve google_detail_nonneg match_after_or_in_nonneg match_wait_nonneg
  match_message_duration_nonneg : seconds.

Lemma extract_from_message_nonneg m : nonneg (_extract_from_message m).
Proof.
  unfold _extract_from_message. destruct (is_empty m); [done|].
  apply nonneg_first_some. repeat constructor; auto with seconds.
Qed.

Section extract_props.
Context (parse_http_date : str → option Q) (now : Q).

Lemma extract_from_reset_at_nonneg e : nonneg (_extract_from_reset_at now e).
Proof.
  intros x. unfold _extract_from_reset_at.
  pose proof (normalize_seconds_nonneg (ea_reset_at (fe_attrs e))) as H.
  destruct (_normalize_seconds _) as [r|]; cbn; [|done]. specialize (H r eq_refl).
  intros [= <-]. destruct (_ || _); auto with seconds.
Qed.

Lemma extract_from_details_nonneg d : nonneg (_extract_from_details parse_http_date now d).
Proof.
  apply nonneg_first_some. repeat constructor; unfold _extract_from_headers, _extract_google_retry_after;
    auto with seconds.
Qed.

(** Whatever an error carries (a reset time in the past, negative numbers,
    strings such as [nan] or [-5], an HTTP date, a sentence), the extracted hint is
    a wait: it is never negative. *)
Theorem retry_after_nonneg error seconds :
  extract_retry_after_seconds parse_http_date now error = Some seconds → (0 <= seconds)%Q.
Proof.
  revert seconds. apply nonneg_first_some, Forall_app. split.
  - repeat constructor; unfold _extract_from_headers;
      auto using extract_from_reset_at_nonneg, extract_from_details_nonneg with seconds.
  - apply Forall_fmap, Forall_forall. intros m _. apply extract_from_message_nonneg.
Qed.
End extract_props.

(** ** Printed durations *)

Definition unit_letter (c : ascii) : Prop := c = "h"%char ∨ c = "m"%char ∨ c = "s"%char.

Lemma drop_underscores_stop prev d c rest :
  all_digits d = true → prev ≠ "_"%char → c ≠ "_"%char →
  drop_underscores prev (d +:+ String c rest) = (λ r, d +:+ String c r) <$> drop_underscores c rest.
Proof.
  revert prev; induction d as [|x d IH]; intros prev; cbn [all_digits].
  - intros _ Hp Hc. rewrite sapp_nil_l. cbn [drop_underscores].
    destruct (Ascii.eqb_spec c "_"), (Ascii.eqb_spec prev "_"); try done.
  - intros [Hx Hd]%andb_true_iff Hp Hc. rewrite sapp_cons. cbn [drop_underscores].
    destruct (digit_plain x Hx) as (_ & Hu & _).
    destruct (Ascii.eqb_spec x "_"), (Ascii.eqb_spec prev "_"); try done. cbn [andb].
    rewrite IH //. by destruct (drop_underscores c rest).
Qed.

(** A number followed by a unit letter is not a float literal. *)
Lemma py_float_unit d c rest :
  all_digits d = true → d ≠ "" → unit_letter c →
  strip (d +:+ String c rest) = d +:+ String c rest → py_float (d +:+ String c rest) = None.
Proof.
  intros Hd Hne Hc Hs. unfold py_float. rewrite Hs drop_underscores_stop //; [by destruct Hc as [->|[->| ->]]|].
  destruct (drop_underscores c rest) as [r|]; [|done]. cbn [fmap option_fmap option_map mbind option_bind].
  assert (parse_decimal (d +:+ String c r) = None) as Hdec.
  { unfold parse_decimal. rewrite take_digits_all //.
    { intros c' r' [= <- _]. by destruct Hc as [->|[->| ->]]. }
    assert (is_empty d = false) as -> by by destruct d.
    by destruct Hc as [->|[->| ->]]. }
  destruct d as [|x d]; [done|]. cbn [all_digits] in Hd. apply andb_true_iff in Hd as [Hx _].
  rewrite sapp_cons in Hdec |- *. destruct (digit_plain x Hx) as (Hl & _ & H1 & H2 & Hi & Hn).
  assert (str_in (lower (String x (d +:+ String c r))) ["inf"; "infinity"] = false ∧
          String.eqb (lower (String x (d +:+ String c r))) "nan" = false) as [Hin Hnan].
  { cbn [lower]. rewrite Hl. unfold str_in. cbn [existsb]. unfold String.eqb. fold String.eqb.
    destruct (Ascii.eqb_spec x "i"); [done|]. destruct (Ascii.eqb_spec x "n"); [done|]. done. }
  clear Hl Hn Hi H1 H2 Hs Hc Hne.
  destruct x as [[] [] [] [] [] [] [] []]; try done; rewrite Hin Hnan Hdec; done.
Qed.

Lemma scan_group_printed u n rest :
  unit_letter u → scan_group u (str_of_N n +:+ String u rest) = (Some (str_of_N n), rest).
Proof.
  intros Hu. destruct (str_of_N_digits n) as [Hd Hne]. unfold scan_group, scan_number.
  rewrite take_digits_all //.
  { intros c' r' [= <- _]. by destruct Hu as [->|[->| ->]]. }
  assert (is_empty (str_of_N n) = false) as -> by by destruct (str_of_N n).
  by destruct Hu as [->|[->| ->]].
Qed.

Lemma number_value_printed n : (n < 2 ^ 53)%N → number_value (str_of_N n) = dec_to_Q (Z.of_N n) 0.
Proof.
  intros Hn. unfold number_value. rewrite py_float_str_of_N. destruct (mk_float_nat n Hn) as (m & -> & ->).
  cbn [mbind option_bind seconds_of_float]. destruct (Z.ltb_spec (Z.of_N n) 0); [lia|done].
Qed.

(** The two parsers of provider delays agree with the printed form: a delay
    written as hours, minutes and seconds is read by the canonical extraction as
    [3600 h + 60 m + s] seconds, and by the parser of the rate limit handler as the
    same number, except that the handler reads a zero delay as no hint at all. *)
Theorem duration_parsers_agree h m s :
  (h < 2 ^ 53)%N → (m < 2 ^ 53)%N → (s < 2 ^ 53)%N →
  let text := str_of_N h +:+ "h" +:+ str_of_N m +:+ "m" +:+ str_of_N s +:+ "s" in
  let total := (3600 * Z.of_N h + 60 * Z.of_N m + Z.of_N s)%Z in
  (∃ q, parse_duration_string (Some (JStr text)) = Some q ∧ (q == inject_Z total)%Q) ∧
  if (total =? 0)%Z then _parse_duration_string text = None
  else ∃ q, _parse_duration_string text = Some (Seconds q) ∧ (q == inject_Z total)%Q.
Proof.
  intros Hh Hm Hs text total. split; [|by apply duration_hms].
  destruct (str_of_N_digits h) as [Hd Hne].
  assert (strip text = text) as Hstrip.
  { subst text. destruct (str_of_N h) as [|c t] eqn:E; [done|]. cbn [all_digits] in Hd.
    apply andb_true_iff in Hd as [Hc _]. rewrite sapp_cons strip_head_nonspace; [by apply digit_not_space|].
    rewrite -sapp_cons -!sapp_assoc. by rewrite rstrip_app. }
  exists (dec_to_Q (Z.of_N h) 0 * 3600 + dec_to_Q (Z.of_N m) 0 * 60 + dec_to_Q (Z.of_N s) 0 * 1)%Q. split.
  - cbn [parse_duration_string]. rewrite Hstrip.
    assert (is_empty text = false) as -> by (subst text; by destruct (str_of_N h)).
    cbn [_normalize_seconds float_of_json]. subst text.
    change ("h" +:+ ?x) with (String "h" x) in *. change ("m" +:+ ?x) with (String "m" x) in *.
    rewrite py_float_unit //; [by left|]. cbn [mbind option_bind]. unfold match_duration.
    rewrite !scan_group_printed; [unfold unit_letter; tauto..|]. cbn [is_empty].
    unfold group_seconds. by rewrite !number_value_printed.
  - assert (∀ z, dec_to_Q z 0 == inject_Z z)%Q as Hq by (intros z; unfold dec_to_Q; cbn; by rewrite Z.mul_1_r).
    subst total. rewrite !Hq !inject_Z_plus !inject_Z_mult. ring.
Qed.

Lemma duration_parsers_agree_witness :
  ∃ q, parse_duration_string (Some (JStr "4h51m33s")) = Some q ∧ (q == 17493)%Q.
Proof. exact (proj1 (duration_parsers_agree 4 51 33 ltac:(lia) ltac:(lia) ltac:(lia))). Defined.

Definition sample_error : failing_error :=
  mk_failing_error
    (MkError (PyException "ProviderError") "rate limited" None None
       (Some (JDict [("headers", JDict [("RETRY-AFTER", JStr " 30 ")])])) None None None (Some (JInt (-5))) None)
    None.

Lemma retry_after_nonneg_witness :
  extract_retry_after_seconds (λ _, None) 0 sample_error = Some 30%Q ∧ (0 <= 30)%Q.
Proof.
  assert (extract_retry_after_seconds (λ _, None) 0 sample_error = Some 30%Q) as H by (vm_compute; reflexivity).
  exact (conj H (retry_after_nonneg (λ _, None) 0 sample_error 30 H)).
Defined.
