(* ===== verification/FailureStrategy.v ===== *)
(** * Failure handling strategy and recovery budget

    [src/src/core/services/failure_handling_strategy.py] decides what happens
    after a backend failure: wait and retry, fail over, or surface the error
    ([decide]).  [src/src/core/services/streaming/stream_recovery_budget.py] keeps
    in the request context what the decision needs across attempts: when recovery
    began and which backends were tried.

    Discovery of other backend instances is an interface ([BackendDiscovery]) with
    the law its documentation states: an excluded instance is never returned. *)

From Stdlib Require Import Ascii.
From S2P Require Import Prelude PyStr PyDict Exceptions ErrorHandlers RetryAfter.
From S2P Require Import CompositeDomain RoutingState.
From stdpp Require Import options.

(** ** Decisions *)

Inductive FailureDecision : Type := WAIT_AND_RETRY | FAILOVER_IMMEDIATE | SURFACE_ERROR.

#[export] Instance FailureDecision_eq_dec : EqDecision FailureDecision.
Proof. solve_decision. Defined.

Record FailureHandlingResult : Type := MkResult {
  fr_decision : FailureDecision;
  fr_wait_seconds : option Q;
  fr_next_backend : option str;
  fr_error_to_surface : option exn
}.

Definition surface (e : exn) : FailureHandlingResult := MkResult SURFACE_ERROR None None (Some e).

Record FailureHandlingConfig : Type := MkFailureConfig {
  max_silent_wait : Q;
  total_timeout_budget : Q;
  keepalive_interval : Q;
  max_failover_hops : Z;
  min_retry_wait : Q
}.

Definition default_failure_config : FailureHandlingConfig := MkFailureConfig 60 90 8 5 1.

(** What [Field(ge=..., le=...)] of the settings guarantees. *)
Record config_valid (c : FailureHandlingConfig) : Prop := {
  cv_silent : (0 <= max_silent_wait c)%Q;
  cv_budget : (0 <= total_timeout_budget c)%Q;
  cv_interval : (1 <= keepalive_interval c)%Q;
  cv_hops : (1 <= max_failover_hops c)%Z;
  cv_min : (1 # 10 <= min_retry_wait c)%Q
}.

(** A number as a float value; exact when its denominator divides a power of ten,
    which holds of every double. *)
Definition float_of_Q (q : Q) : pyfloat :=
  let j := Z.log2 (Zpos (Qden q)) in FDec (Qnum q * 10 ^ j / Zpos (Qden q)) (- j).

(** ** The interface to instance discovery *)

Class BackendDiscovery : Type := {
  find_alternative_instances : str → gset string → list str;
  find_alternative_excludes model exclude b :
    b ∈ find_alternative_instances model exclude → b ∉ exclude
}.

(** A fixed list of instances per model. *)
Definition catalogue_alternatives (catalogue : list (str * list str)) (model : str)
    (exclude : gset string) : list str :=
  filter (λ b, b ∉ exclude) (default [] (od_get model catalogue)).

#[refine] Instance catalogue_discovery (catalogue : list (str * list str)) : BackendDiscovery :=
  {| find_alternative_instances := catalogue_alternatives catalogue |}.
Proof. intros model exclude b. unfold catalogue_alternatives. rewrite list_elem_of_filter. tauto. Defined.

(** ** The strategy *)

Section strategy.
Context (parse_http_date : str → option Q) (now : Q).

(** [extract_retry_after_seconds] on an exception of the proxy. *)
Definition _extract_retry_after (error : exn) : option Q :=
  extract_retry_after_seconds parse_http_date now (mk_failing_error (attrs_of error) None).

Definition _is_recoverable_error (error : exn) : bool :=
  let attrs := attrs_of error in
  let status := ea_status_code attrs in
  if isinstance (ex_class error) [AuthenticationError; ValidationError; InvalidRequestError] then false
  else if isinstance (ex_class error) [RateLimitExceededError] then true
  else if status_in status [429%Z] then true
  else if status_in status [503%Z]
  then match _extract_retry_after error with Some _ => true | None => false end
  else if status_in status [400; 401; 403; 500]%Z then false
  else if match ea_code attrs with
          | Some c => str_in c ["invalid_api_key"; "model_not_found"; "invalid_request"] | None => false
          end then false
  else if match ea_code attrs with
          | Some c => str_in c ["rate_limit"; "rate_limit_exceeded"; "quota_exceeded"] | None => false
          end then true
  else existsb (λ term, str_contains term (lower (ea_str attrs)))
         ["timeout"; "connection"; "network"; "temporarily"].

Definition not_none (v : option json) : bool :=
  match v with None | Some JNull => false | _ => true end.

Definition _has_provider_retry_after_header (error : exn) : bool :=
  let details := ex_details error in
  if od_mem "retry_after_seconds" details then true
  else match od_get "headers" details with
       | Some (JDict headers) =>
           not_none (od_get "retry-after" headers) || not_none (od_get "Retry-After" headers)
       | _ => false
       end.

Definition attempt_budget_error (message model : str) (extra : list (str * json))
    (attempted_backends : list str) : exn :=
  mk_RoutingError message
    ([("code", JStr "temporarily_unavailable"); ("category", JStr "availability"); ("retryable", JBool true);
      ("reason", JStr "attempt_budget_exhausted"); ("model", JStr model)] ++ extra ++
     [("attempted_backends", JList (JStr <$> attempted_backends))]).

Definition _find_alternatives (discovery : option BackendDiscovery) (model current_backend : str)
    (attempted_backends : list str) (available_backends : option (list str)) : list str :=
  let exclude : gset string := {[ current_backend ]} ∪ list_to_set attempted_backends in
  match available_backends with
  | Some available => filter (λ b, b ∉ exclude) available
  | None =>
      match discovery with
      | Some d => find_alternative_instances (BackendDiscovery := d) model exclude
      | None => []
      end
  end.

(** The buffer past the provider's own hint, and the least wait. *)
Definition wait_time_for (config : FailureHandlingConfig) (error : exn) (retry_after : Q) : Q :=
  Qpymax (retry_after + (if _has_provider_retry_after_header error then 1 else 0))%Q (min_retry_wait config).

Definition decide_failure (config : FailureHandlingConfig) (discovery : option BackendDiscovery)
    (error : exn) (model current_backend : str) (attempted_backends : list str) (elapsed_time : Q)
    (is_streaming content_started : bool) (available_backends : option (list str)) :
    FailureHandlingResult :=
  if content_started then surface error
  else if (max_failover_hops config <=? Z.of_nat (length attempted_backends))%Z then
    surface (attempt_budget_error
      ("Attempt budget exhausted. Max failover hops (" +:+ str_of_Z (max_failover_hops config) +:+
       ") exceeded for model " +:+ model +:+ ".") model [] attempted_backends)
  else if Qle_bool (total_timeout_budget config) elapsed_time then
    surface (attempt_budget_error
      ("Attempt budget exhausted. Total timeout budget (" +:+
       str_of_float (float_of_Q (total_timeout_budget config)) +:+ "s) exceeded for model " +:+ model +:+ ".")
      model [("elapsed_time", JFloat (float_of_Q elapsed_time))] attempted_backends)
  else
    let is_recoverable := _is_recoverable_error error in
    let retry_after := _extract_retry_after error in
    let silent_wait :=
      match is_recoverable, retry_after with
      | true, Some seconds =>
          let wait_time := wait_time_for config error seconds in
          let remaining_budget := (total_timeout_budget config - elapsed_time)%Q in
          if Qle_bool seconds (max_silent_wait config) && Qle_bool wait_time remaining_budget
          then Some wait_time else None
      | _, _ => None
      end in
    match silent_wait with
    | Some wait_time => MkResult WAIT_AND_RETRY (Some wait_time) None None
    | None =>
        match _find_alternatives discovery model current_backend attempted_backends available_backends with
        | next_backend :: _ => MkResult FAILOVER_IMMEDIATE None (Some next_backend) None
        | [] => surface error
        end
    end.
End strategy.

(** ** The persisted budget *)

Definition _BUDGET_START_TIME_KEY : string := "recovery_budget_start_time".
Definition _ATTEMPTED_BACKENDS_KEY : string := "attempted_backends".
Definition _RETRY_ATTEMPT_KEY : string := "retry_attempt".
Definition _MEANINGFUL_OUTPUT_EMITTED_KEY : string := "meaningful_output_emitted".

Record StreamRecoveryBudget : Type := MkBudget {
  budget_start_time : pyfloat;
  attempted_backends : list str;
  retry_attempt : Z;
  meaningful_output_emitted : bool
}.

(** [x.is_integer()] and then [int(x)]. *)
Definition whole_float (x : pyfloat) : option Z :=
  match int_of_float x with
  | Ok z => if float_eq_Z x z then Some z else None
  | Err _ => None
  end.

(** A [True] counts as the 1 it equals. *)
Definition _coerce_retry_attempt (value : option json) : Z :=
  match value with
  | Some (JInt _ | JBool _) => Z.max 0 (default 0%Z (as_int value))
  | Some (JFloat x) => Z.max 0 (default 0%Z (whole_float x))
  | Some (JStr s) => if is_empty (strip s) then 0%Z else Z.max 0 (default 0%Z (py_int (strip s)))
  | _ => 0%Z
  end.

Definition setdefault (key : string) (value : json) (context : option RequestContext) :
    option RequestContext :=
  match ctx_get key context with Some _ => context | None => ctx_set key value context end.

Definition is_number (v : option json) : bool :=
  match v with Some (JInt _ | JBool _ | JFloat _) => true | _ => false end.

(** The budget of a context, which is created or repaired on the way; the list
    of attempted backends is the object the context holds. *)
Definition get_or_init_stream_recovery_budget (now : Q) (context : option RequestContext) :
    option StreamRecoveryBudget * option RequestContext :=
  match context with
  | None => (None, None)
  | Some _ =>
      let ext := setdefault _MEANINGFUL_OUTPUT_EMITTED_KEY (JBool false)
                   (setdefault _RETRY_ATTEMPT_KEY (JInt 0)
                      (setdefault _ATTEMPTED_BACKENDS_KEY (JList [])
                         (setdefault _BUDGET_START_TIME_KEY (JFloat (float_of_Q now)) context))) in
      let start_raw := ctx_get _BUDGET_START_TIME_KEY ext in
      let start := if is_number start_raw then default FNan (start_raw ≫= float_of_json)
                   else float_of_Q now in
      let ext := if is_number start_raw then ext else ctx_set _BUDGET_START_TIME_KEY (JFloat start) ext in
      let attempted_raw := ctx_get _ATTEMPTED_BACKENDS_KEY ext in
      let attempted := match attempted_raw with
                       | Some (JList l) => omap (λ j, as_str (Some j)) l
                       | _ => []
                       end in
      let ext := match as_str_list attempted_raw with
                 | Some _ => ext
                 | None => ctx_set _ATTEMPTED_BACKENDS_KEY (JList (JStr <$> attempted)) ext
                 end in
      let retry := _coerce_retry_attempt (ctx_get _RETRY_ATTEMPT_KEY ext) in
      let ext := ctx_set _RETRY_ATTEMPT_KEY (JInt retry) ext in
      let emitted := match ctx_get _MEANINGFUL_OUTPUT_EMITTED_KEY ext with
                     | Some (JBool b) => b | _ => false end in
      let ext := ctx_set _MEANINGFUL_OUTPUT_EMITTED_KEY (JBool emitted) ext in
      (Some (MkBudget start attempted retry emitted), ext)
  end.

Definition mark_stream_meaningful_output (now : Q) (context : option RequestContext) :
    option RequestContext :=
  match context with
  | None => None
  | Some _ =>
      ctx_set _MEANINGFUL_OUTPUT_EMITTED_KEY (JBool true)
        (snd (get_or_init_stream_recovery_budget now context))
  end.

(** ** What a decision promises *)

Section strategy_facts.
Context (parse_http_date : str → option Q) (now : Q).
Context (config : FailureHandlingConfig) (discovery : option BackendDiscovery).

Lemma wait_time_bounds error hint :
  (hint <= wait_time_for config error hint)%Q ∧ (min_retry_wait config <= wait_time_for config error hint)%Q.
Proof.
  unfold wait_time_for. split; [|apply Qpymax_ge_r]. eapply Qle_trans; [|apply Qpymax_ge_l].
  destruct (_has_provider_retry_after_header error); lra.
Qed.

Lemma find_alternatives_spec model current attempted available b :
  b ∈ _find_alternatives discovery model current attempted available →
  b ≠ current ∧ b ∉ attempted ∧ ∀ l, available = Some l → b ∈ l.
Proof.
  unfold _find_alternatives. destruct available as [l|].
  - rewrite list_elem_of_filter not_elem_of_union elem_of_list_to_set not_elem_of_singleton.
    intros [[? ?] ?]. split_and!; [done..|]. by intros ? [= <-].
  - destruct discovery as [d|]; [|by intros ?%not_elem_of_nil].
    intros [Hc Ha]%(find_alternative_excludes (BackendDiscovery := d))%not_elem_of_union.
    rewrite elem_of_list_to_set in Ha. rewrite not_elem_of_singleton in Hc. by split_and!.
Qed.

(** When recovery is out of the question. *)
Definition budget_exhausted (attempted : list str) (elapsed : Q) : Prop :=
  (max_failover_hops config <= Z.of_nat (length attempted))%Z ∨ (total_timeout_budget config <= elapsed)%Q.

(** What each decision promises; [result] is for this error, at this point. *)
Definition decision_justified (error : exn) (model current : str) (attempted : list str) (elapsed : Q)
    (content_started : bool) (available : option (list str)) (result : FailureHandlingResult) : Prop :=
  match fr_decision result with
  | WAIT_AND_RETRY =>
      content_started = false ∧ ¬ budget_exhausted attempted elapsed ∧
      ∃ hint wait, _extract_retry_after parse_http_date now error = Some hint ∧
        fr_wait_seconds result = Some wait ∧ _is_recoverable_error parse_http_date now error = true ∧
        (hint <= max_silent_wait config)%Q ∧ (hint <= wait)%Q ∧ (min_retry_wait config <= wait)%Q ∧
        (elapsed + wait <= total_timeout_budget config)%Q
  | FAILOVER_IMMEDIATE =>
      content_started = false ∧ ¬ budget_exhausted attempted elapsed ∧
      ∃ next, fr_next_backend result = Some next ∧ next ≠ current ∧ next ∉ attempted ∧
        ∀ l, available = Some l → next ∈ l
  | SURFACE_ERROR =>
      ∃ e, fr_error_to_surface result = Some e ∧
        (e = error ∧
           (content_started = true ∨ _find_alternatives discovery model current attempted available = []) ∨
         ex_class e = RoutingError ∧ ex_status_code e = 503%Z ∧ budget_exhausted attempted elapsed)
  end.

(** By the order of the rules. *)
Lemma decision_is_justified error model current attempted elapsed is_streaming content_started available :
  decision_justified error model current attempted elapsed content_started available
    (decide_failure parse_http_date now config discovery error model current attempted elapsed
       is_streaming content_started available).
Proof.
  unfold decide_failure. destruct content_started; [exists error; tauto|].
  destruct (Z.leb_spec (max_failover_hops config) (Z.of_nat (length attempted))) as [Hh|Hh];
    [eexists; split; [done|]; right; split_and!; [done|done|by left]|].
  destruct (Qle_bool_spec (total_timeout_budget config) elapsed) as [Hb|Hb];
    [eexists; split; [done|]; right; split_and!; [done|done|by right]|].
  assert (¬ budget_exhausted attempted elapsed) as Hbud by (intros [?|?]; [lia|done]).
  set (silent := match _is_recoverable_error _ _ _ with true => _ | false => _ end).
  destruct silent as [wait|] eqn:Es; subst silent.
  - destruct (_is_recoverable_error _ _ _) eqn:Er; [|done].
    destruct (_extract_retry_after _ _ _) as [hint|] eqn:Eh; [|done].
    destruct (andb _ _) eqn:Ec; simplify_eq. apply andb_true_iff in Ec as [H1%Qle_bool_iff H2%Qle_bool_iff].
    split_and!; [done..|]. exists hint, (wait_time_for config error hint).
    destruct (wait_time_bounds error hint). split_and!; try done. lra.
  - destruct (_find_alternatives _ _ _ _ _) as [|next l] eqn:Ea; [exists error; tauto|].
    split_and!; [done..|]. exists next. split; [done|].
    apply (find_alternatives_spec model). rewrite Ea. by left.
Qed.

(** C6: Every decision of the failure strategy is justified.  A silent wait is
    chosen only for a recoverable error, before any output and within the hop and
    time budgets; it is at least the provider's hint and the least wait, and it
    ends within the budget.  A failover goes to an available backend that is
    neither the failing one nor one already tried.  A surfaced error is the
    original one, when output has started or nothing is left to try, or a 503
    when a budget is exhausted. *)
Theorem decide_justified error model current attempted elapsed is_streaming content_started available :
  decision_justified error model current attempted elapsed content_started available
    (decide_failure parse_http_date now config discovery error model current attempted elapsed
       is_streaming content_started available).
Proof. apply decision_is_justified. Qed.
End strategy_facts.

(** ** The budget persists *)

(** The context holds this budget. *)
Record holds_budget (context : option RequestContext) (b : StreamRecoveryBudget) : Prop := {
  hb_start : ∃ v, ctx_get _BUDGET_START_TIME_KEY context = Some v ∧ is_number (Some v) = true ∧
               float_of_json v = Some (budget_start_time b);
  hb_attempted : ctx_get _ATTEMPTED_BACKENDS_KEY context = Some (JList (JStr <$> attempted_backends b));
  hb_retry : ctx_get _RETRY_ATTEMPT_KEY context = Some (JInt (retry_attempt b)) ∧ (0 <= retry_attempt b)%Z;
  hb_emitted : ctx_get _MEANINGFUL_OUTPUT_EMITTED_KEY context = Some (JBool (meaningful_output_emitted b))
}.

Lemma setdefault_present k v c x : ctx_get k c = Some x → setdefault k v c = c.
Proof. unfold setdefault. by intros ->. Qed.

Lemma setdefault_get_ne k k' v c : k ≠ k' → ctx_get k (setdefault k' v c) = ctx_get k c.
Proof. intros Hne. unfold setdefault. destruct (ctx_get k' c); [done|by apply ctx_get_set_ne]. Qed.

Lemma setdefault_get k v c :
  ctx_get k (setdefault k v (Some c)) = Some (default v (ctx_get k (Some c))).
Proof. unfold setdefault. destruct (ctx_get k (Some c)) eqn:E; [done|apply ctx_get_set_eq]. Qed.

Lemma setdefault_Some k v c : ∃ c', setdefault k v (Some c) = Some c'.
Proof. unfold setdefault. destruct (ctx_get k (Some c)); eauto. Qed.

Lemma ctx_set_same k v c : ctx_get k c = Some v → ctx_set k v c = c.
Proof. destruct c as [[sid ext]|]; cbn; [|done]. intros H. by rewrite insert_id. Qed.

Lemma omap_strs (l : list str) : omap (λ j, as_str (Some j)) (JStr <$> l) = l.
Proof. induction l as [|x l IH]; csimpl; [done|]. by rewrite IH. Qed.

(** Once the context holds a budget, a later call returns it unchanged. *)
Lemma get_budget_stable now c b :
  holds_budget (Some c) b → get_or_init_stream_recovery_budget now (Some c) = (Some b, Some c).
Proof.
  intros [(v & Hv & Hn & Hf) Ha [Hr Hr0] He]. unfold get_or_init_stream_recovery_budget.
  do 4 (erewrite (setdefault_present _ _ (Some c)); [|eassumption]).
  cbv zeta. rewrite Hv Hn Ha. rewrite as_str_list_strs omap_strs Hr. cbn [_coerce_retry_attempt as_int default].
  rewrite (ctx_set_same _RETRY_ATTEMPT_KEY); [by rewrite Hr Z.max_r|].
  rewrite He. rewrite (ctx_set_same _MEANINGFUL_OUTPUT_EMITTED_KEY) //.
  cbn [mbind option_bind]. rewrite Hf. cbn [default]. rewrite Z.max_r //. by destruct b.
Qed.

Lemma coerce_nonneg v : (0 <= _coerce_retry_attempt v)%Z.
Proof. destruct v as [[]|]; cbn [_coerce_retry_attempt]; try lia. destruct (is_empty _); lia. Qed.

Lemma as_str_list_omap l l' :
  as_str_list (Some (JList l)) = Some l' → l = JStr <$> l'.
Proof.
  cbn. revert l'; induction l as [|x l IH]; intros l'; csimpl; [by intros [= <-]|].
  destruct x; cbn; try done. destruct (mapM _ l) eqn:E; cbn; [|done].
  intros [= <-]. csimpl. f_equal. by apply IH.
Qed.

(** Asking for the budget of a context leaves the context holding it. *)
Lemma get_budget_holds now c :
  ∃ b e, get_or_init_stream_recovery_budget now (Some c) = (Some b, e) ∧ holds_budget e b ∧ is_Some e.
Proof.
  unfold get_or_init_stream_recovery_budget.
  set (e0 := setdefault _MEANINGFUL_OUTPUT_EMITTED_KEY _ _).
  assert (∃ c0, e0 = Some c0) as [c0 Hc0].
  { subst e0. destruct (setdefault_Some _BUDGET_START_TIME_KEY (JFloat (float_of_Q now)) c) as [c1 ->].
    destruct (setdefault_Some _ATTEMPTED_BACKENDS_KEY (JList []) c1) as [c2 ->].
    destruct (setdefault_Some _RETRY_ATTEMPT_KEY (JInt 0) c2) as [c3 ->]. apply setdefault_Some. }
  clearbody e0. subst e0. cbv zeta.
  set (start := if is_number _ then _ else _). set (e1 := if is_number _ then Some c0 else _).
  assert (∃ c1, e1 = Some c1) as [c1 Hc1] by (subst e1; destruct (is_number _); cbn; eauto).
  assert (∃ v, ctx_get _BUDGET_START_TIME_KEY e1 = Some v ∧ is_number (Some v) = true ∧
    float_of_json v = Some start) as Hstart.
  { subst e1 start. destruct (ctx_get _BUDGET_START_TIME_KEY (Some c0)) as [v|] eqn:Ev;
      [|exists (JFloat (float_of_Q now)); cbn [is_number]; by rewrite ctx_get_set_eq].
    destruct (is_number (Some v)) eqn:En; [|exists (JFloat (float_of_Q now)); by rewrite ctx_get_set_eq].
    exists v. rewrite Ev. split_and!; [done..|]. by destruct v. }
  clearbody start e1. subst e1. clear c0.
  set (attempted := match ctx_get _ATTEMPTED_BACKENDS_KEY (Some c1) with Some (JList l) => _ | _ => _ end).
  set (e2 := match as_str_list _ with Some _ => Some c1 | None => _ end).
  assert (∃ c2, e2 = Some c2) as [c2 Hc2] by (subst e2; destruct (as_str_list _); cbn; eauto).
  assert (ctx_get _ATTEMPTED_BACKENDS_KEY e2 = Some (JList (JStr <$> attempted))) as Hatt.
  { subst e2. destruct (as_str_list _) as [l'|] eqn:E; [|apply ctx_get_set_eq].
    subst attempted. destruct (ctx_get _ATTEMPTED_BACKENDS_KEY (Some c1)) as [[]|]; try done.
    apply as_str_list_omap in E as ->. by rewrite omap_strs. }
  assert (ctx_get _BUDGET_START_TIME_KEY e2 = ctx_get _BUDGET_START_TIME_KEY (Some c1)) as Hst2.
  { subst e2. destruct (as_str_list _); [done|]. by rewrite ctx_get_set_ne. }
  clearbody e2 attempted. subst e2. eexists _, _. split; [reflexivity|]. split; [|cbn; eauto].
  split; cbn [budget_start_time attempted_backends retry_attempt meaningful_output_emitted].
  - rewrite !ctx_get_set_ne // Hst2. exact Hstart.
  - by rewrite !ctx_get_set_ne.
  - rewrite ctx_get_set_ne // ctx_get_set_eq. split; [done|apply coerce_nonneg].
  - rewrite ctx_get_set_eq. done.
Qed.
