(* ===== verification/FailureRecovery.v ===== *)
(** * Failure recovery: retry, failover and the recovery loop

    [src/src/core/services/backend_completion_flow/failure_recovery_executor.py]
    carries out the decision of the failure strategy; the parts of
    [backend_completion_flow/service.py] that start an attempt, hand a failure to
    the executor and turn what it raises into an answer close the loop
    ([call_completion]).  [services/streaming_keepalive.py] is what a client sees
    during a wait.

    A run has a [world]: the request context, the list of attempted backends (the
    object the context holds, when there is one), a clock that sleeping advances,
    the sleeps, and the number of backend calls so far.  What the backends do at
    the n-th call, what discovery knows then, and when the session is cancelled
    are arguments.  Wire capture, usage accounting and end-of-session signals only
    observe the flow and are left out. *)

From Stdlib Require Import Ascii Qround.
From S2P Require Import Prelude PyStr PyDict Exceptions ErrorHandlers RetryAfter.
From S2P Require Import CompositeDomain ModelUtils WeightedSelector RoutingState RoutingCoordinator.
From S2P Require Import RoutingService RecoveryBridge FailureStrategy.
From stdpp Require Import options.

(** ** Responses *)

(** A [ProcessedResponse], or the raw content of a non-streaming answer. *)
Inductive chunk : Type :=
| Processed (content : json) (metadata : list (str * json))
| Raw (content : json).

(** A stream is what it yields, and what it raises after that, if it does. *)
Inductive response : Type :=
| ResponseEnvelope (content : json)
| StreamingResponseEnvelope (content : list chunk) (failure : option exn).

(** ** The world of a run *)

Record world : Type := MkWorld {
  w_context : option RequestContext;
  w_attempted : list str;
  w_clock : Q;
  w_sleeps : list Q;
  w_calls : nat
}.

Notation W := (stm world exn).

Definition set_context (c : option RequestContext) (w : world) : world :=
  MkWorld c (w_attempted w) (w_clock w) (w_sleeps w) (w_calls w).

Definition on_context (f : option RequestContext → option RequestContext) : W unit :=
  modify (λ w, set_context (f (w_context w)) w).

(** A call of a component that works on the context. *)
Definition with_context {A} (m : M A) : W A := λ w,
  let '(r, c) := m (w_context w) in (r, set_context c w).

(** A mutation of the attempted list, seen through the context that holds it. *)
Definition set_attempted (l : list str) : W unit := modify (λ w,
  MkWorld (ctx_set _ATTEMPTED_BACKENDS_KEY (JList (JStr <$> l)) (w_context w)) l
    (w_clock w) (w_sleeps w) (w_calls w)).

(** [await asyncio.sleep(seconds)] *)
Definition sleep (seconds : Q) : W unit := modify (λ w,
  MkWorld (w_context w) (w_attempted w) (w_clock w + seconds)%Q (w_sleeps w ++ [seconds]) (w_calls w)).

(** [try: m except Exception as e: h e]; a cancelled task is not an [Exception]. *)
Definition catch_exception {A} (m : W A) (h : exn → W A) : W A := λ w,
  match m w with
  | (Err e, w') => if isinstance (ex_class e) [CancelledError] then (Err e, w') else h e w'
  | r => r
  end.

(** [except ... as e: raise f e] *)
Definition reraise_as {A} (f : exn → exn) (m : W A) : W A := λ w,
  match m w with (Err e, w') => (Err (f e), w') | r => r end.

(** ** Waiting *)

Definition session_cancelled_error : exn :=
  mk_LLMProxyError SessionCancelledError "Session cancelled" [] (Some 499%Z).

(** [ensure_not_cancelled]; [cancelled] tells from when on the session is. *)
Definition ensure_not_cancelled (cancelled : Q → bool) : W unit := λ w,
  if cancelled (w_clock w) then (Err session_cancelled_error, w) else (Ok tt, w).

(** The loop of [_wait_with_cancellation_boundaries]; a slice per unit of fuel. *)
Fixpoint wait_slices (cancelled : Q → bool) (fuel : nat) (remaining : Q) : W unit :=
  match fuel with
  | 0 => mret tt
  | S fuel' =>
      if Qltb 0 remaining then
        _ ← ensure_not_cancelled cancelled;
        let sleep_slice := Qpymin 1 remaining in
        _ ← sleep sleep_slice;
        _ ← ensure_not_cancelled cancelled;
        wait_slices cancelled fuel' (Qpymax 0 (remaining - sleep_slice))
      else mret tt
  end.

Definition slices_of (wait_seconds unit : Q) : nat := Z.to_nat (Qceiling (wait_seconds / unit)).

Definition _wait_with_cancellation_boundaries (cancelled : Q → bool) (wait_seconds : Q) : W unit :=
  wait_slices cancelled (slices_of wait_seconds 1) (Qpymax 0 wait_seconds).

(** ** Keep-alives *)

Definition optional_id (key : str) (id : option str) : list (str * json) :=
  match id with Some s => if is_empty s then [] else [(key, JStr s)] | None => [] end.

Definition _keepalive_processed_response (completion_id model : str) (session_id stream_id : option str) :
    W chunk := λ w,
  (Ok (Processed (JStr "")
     ([("_keepalive", JBool true); ("id", JStr completion_id); ("model", JStr model);
       ("created", JInt (Qfloor (w_clock w)))]
      ++ optional_id "session_id" session_id ++ optional_id "stream_id" stream_id)), w).

Fixpoint keepalive_loop (ka : W chunk) (fuel : nat) (elapsed wait_seconds interval_seconds : Q) :
    W (list chunk) :=
  match fuel with
  | 0 => mret []
  | S fuel' =>
      if Qltb elapsed wait_seconds then
        _ ← sleep (Qpymin interval_seconds (wait_seconds - elapsed));
        c ← ka;
        rest ← keepalive_loop ka fuel' (elapsed + interval_seconds) wait_seconds interval_seconds;
        mret (c :: rest)
      else mret []
  end.

Definition generate_keepalive_with_status (wait_seconds interval_seconds : Q)
    (completion_id model : str) (session_id stream_id : option str) : W (list chunk) :=
  let ka := _keepalive_processed_response completion_id model session_id stream_id in
  first ← (if Qltb 0 wait_seconds then c ← ka; mret [c] else mret []);
  rest ← keepalive_loop ka (slices_of wait_seconds interval_seconds) 0 wait_seconds interval_seconds;
  mret (first ++ rest).

(** ** Retry metadata and request copies *)

Definition _increment_retry_metadata (reason : str) : W unit :=
  on_context (λ c,
    ctx_set "b2bua_attempt_reason" (JStr reason)
      (ctx_set "is_retry" (JBool true)
         (ctx_set _RETRY_ATTEMPT_KEY (JInt (_coerce_retry_attempt (ctx_get _RETRY_ATTEMPT_KEY c) + 1)) c))).

(** [model_copy(update={"extra_body": {**extra_body, "backend_type": backend}})] *)
Definition with_backend (backend : str) (request : ChatRequest) : ChatRequest :=
  MkRequest (req_model request) (req_messages request)
    (od_set "backend_type" (JStr backend) (req_extra_body request)).

Definition backend_error (message : str) (status_code : option Z) : exn :=
  mk_BackendError BackendError message [] None status_code None.

Definition _resolve_keepalive_session_id (a_session_id : option str) (context : option RequestContext) :
    option str :=
  match context with
  | None => None
  | Some c =>
      let usable s := let t := strip s in if is_empty t then None else Some t in
      first_some [a_session_id ≫= usable; ctx_session_id c ≫= usable]
  end.

(** The last chunk of a stream whose retry failed. *)
Definition retry_error_chunk (model : str) (e : exn) : chunk :=
  let error_details := JDict [("type", JStr (ex_type e)); ("message", JStr (ex_message e));
                              ("retryable", JBool false)] in
  Processed
    (JDict [("choices", JList [JDict [("delta", JDict []); ("finish_reason", JStr "error"); ("index", JInt 0)]]);
            ("error", error_details)])
    [("finish_reason", JStr "error"); ("error", error_details); ("is_done", JBool true); ("model", JStr model)].

(** ** The executor *)

Section executor.
Context (parse_http_date : str → option Q) (parse_qs : str → option (list (str * list str))).
(** The strategy with its own discovery, and the routing service at the n-th call. *)
Context (strategy : option (FailureHandlingConfig * option BackendDiscovery)).
Context (routing : nat → option BackendDiscovery).
(** When the session is cancelled, as the backend work guard and as the
    coordinator of the executor see it. *)
Context (gate_cancelled wait_cancelled : Q → bool).
(** The interval of the settings, and the fields of a request and a context the
    model of them leaves out. *)
Context (config_keepalive_interval : option Q) (completion_id : str).
Context (request_stream : ChatRequest → bool) (a_session_id : option str) (random_value : Q).
(** [call_completion_callback]: request, stream, allow_failover. *)
Context (callback : ChatRequest → bool → bool → W response).

Definition gate : W unit := ensure_not_cancelled gate_cancelled.

Definition apply_failure_strategy (error : exn) (model backend_type : str) (start_time : Q)
    (is_streaming content_started : bool) : W FailureHandlingResult := λ w,
  (Ok match strategy with
      | None => MkResult SURFACE_ERROR None None None
      | Some (config, discovery) =>
          let elapsed_time := (w_clock w - start_time)%Q in
          let available_backends :=
            (λ d, find_alternative_instances (BackendDiscovery := d) model
                    (list_to_set (w_attempted w ++ [backend_type]))) <$> routing (w_calls w) in
          decide_failure parse_http_date (w_clock w) config discovery error model backend_type
            (w_attempted w) elapsed_time is_streaming content_started available_backends
      end, w).

(** [if attempted_backends and attempted_backends[-1] == backend_type: pop()] *)
Definition allow_again (backend_type : str) : W unit := λ w,
  match last (w_attempted w) with
  | Some b => if decide (b = backend_type) then set_attempted (removelast (w_attempted w)) w else (Ok tt, w)
  | None => (Ok tt, w)
  end.

(** The retry inside the stream: what the client receives after the keep-alives. *)
Definition stream_retry (retry_request : ChatRequest) (model : str) : W (list chunk) :=
  catch_exception
    (result ← callback retry_request true true;
     match result with
     | StreamingResponseEnvelope chunks None => mret chunks
     | StreamingResponseEnvelope chunks (Some e) =>
         if isinstance (ex_class e) [CancelledError] then raise e
         else mret (chunks ++ [retry_error_chunk model e])
     | ResponseEnvelope content => mret [Raw content]
     end)
    (λ e, mret [retry_error_chunk model e]).

Definition execute_retry (request : ChatRequest) (backend_type : str) (wait_seconds : option Q)
    (is_streaming : bool) (model : str) : W response :=
  let streaming := is_streaming || request_stream request in
  let wait := match wait_seconds with Some s => Qpymax 0 s | None => 0%Q end in
  _ ← gate;
  _ ← _increment_retry_metadata "retry";
  _ ← when (Qltb 0 wait && negb streaming) (_wait_with_cancellation_boundaries wait_cancelled wait);
  _ ← allow_again backend_type;
  let retry_request := with_backend backend_type request in
  if streaming then
    capture_session_id ← gets (λ w, _resolve_keepalive_session_id a_session_id (w_context w));
    keepalives ←
      (if Qltb 0 wait
       then generate_keepalive_with_status wait (default 8%Q config_keepalive_interval) completion_id model
              capture_session_id capture_session_id
       else mret []);
    chunks ← stream_retry retry_request model;
    mret (StreamingResponseEnvelope (keepalives ++ chunks) None)
  else callback retry_request is_streaming true.

Definition execute_failover (request : ChatRequest) (next_backend : str) (is_streaming : bool) :
    W response :=
  _ ← gate;
  _ ← _increment_retry_metadata "failover";
  callback (with_backend next_backend request) is_streaming true.

(** What is raised when nothing recovers and the strategy gave no error. *)
Definition surfaced (error : exn) (status_code : option Z) : exn :=
  if isinstance (ex_class error) [BackendError; RateLimitExceededError; LLMProxyError] then error
  else backend_error ("Backend call failed: " +:+ ex_message error) status_code.

Definition apply_failure_recovery (error : exn) (model backend_type : str) (start_time : Q)
    (is_streaming content_started : bool) (request : ChatRequest) : W response :=
  attempted ← gets w_attempted;
  _ ← when (negb (str_in backend_type attempted)) (set_attempted (attempted ++ [backend_type]));
  composite_retry_request ←
    with_context (build_next_request parse_qs random_value request content_started (Some error));
  match composite_retry_request with
  | Some retry_request =>
      _ ← _increment_retry_metadata "composite_failover";
      _ ← on_context (ctx_set "last_retry_reason" (JStr "composite_failover"));
      callback retry_request is_streaming true
  | None =>
      match strategy with
      | None => raise (surfaced error None)
      | Some _ =>
          let normalized_error :=
            if isinstance (ex_class error) [BackendError] then error
            else backend_error (ex_message error) None in
          result ← apply_failure_strategy normalized_error model backend_type start_time is_streaming
                     content_started;
          match fr_decision result, fr_next_backend result, fr_error_to_surface result with
          | WAIT_AND_RETRY, _, _ =>
              execute_retry request backend_type (fr_wait_seconds result) is_streaming model
          | FAILOVER_IMMEDIATE, Some next_backend, _ => execute_failover request next_backend is_streaming
          | _, _, Some e => raise e
          | _, _, None => raise (surfaced error (Some (ex_status_code error)))
          end
      end
  end.

(** ** Configured failover routes *)

(** [effective_model in routes]; a route table of another type raises. *)
Definition in_routes (effective_model : str) (routes : json) : res exn bool :=
  match routes with
  | JDict d => Ok (od_mem effective_model d)
  | JList l => Ok (existsb (λ j, match j with JStr s => String.eqb effective_model s | _ => false end) l)
  | JStr s => Ok (str_contains effective_model s)
  | _ => Err (py_exception "TypeError" "argument is not iterable")
  end.

Definition check_complex_failover (failover_routes : list (str * json)) (request : ChatRequest)
    (effective_model : str) : res exn bool :=
  let request_failover_routes := od_get "failover_routes" (req_extra_body request) in
  in_routes effective_model
    (if truthy request_failover_routes then default JNull request_failover_routes
     else JDict failover_routes).

Definition plan_request (request : ChatRequest) (backend model : str) : ChatRequest :=
  MkRequest model (req_messages request) (od_set "backend_type" (JStr backend) (req_extra_body request)).

Fixpoint attempt_plan (request : ChatRequest) (plan : list (str * str)) (stream : bool)
    (last_error : option exn) : W response :=
  match plan with
  | [] =>
      raise (backend_error
        (match last_error with
         | Some e => "All failover attempts failed. Last error: " +:+ ex_message e
         | None => "All failover attempts failed. No error details available."
         end) None)
  | (backend, model) :: plan' =>
      _ ← gate;
      catch_exception
        (_ ← _increment_retry_metadata "failover";
         callback (plan_request request backend model) stream false)
        (λ e, attempt_plan request plan' stream (Some e))
  end.

Definition attempt_failover_plan (request : ChatRequest) (plan : list (str * str)) (stream : bool) :
    W response :=
  _ ← gate;
  match plan with
  | [] => raise (backend_error "all backends failed" None)
  | _ => attempt_plan request plan stream None
  end.

(** [get_failover_plan] is the planner's answer. *)
Definition execute_complex_failover (get_failover_plan : str → str → res exn (list (str * str)))
    (request : ChatRequest) (effective_model backend_type : str) (stream : bool) : W response :=
  _ ← gate;
  reraise_as
    (λ e, if isinstance (ex_class e) [BackendError] then e
          else if str_in (ex_type e) ["TypeError"; "ValueError"; "AttributeError"; "KeyError"]
          then backend_error "all backends failed" None else e)
    (plan ← lift (get_failover_plan effective_model backend_type);
     attempt_failover_plan request plan stream).
End executor.

(** ** The completion flow around the executor *)

(** An empty extra body stands for none, the default of a request; entries that
    already have the value they are given are set again. *)
Definition synchronize_request_with_target (request : ChatRequest) (resolved : BackendTarget) :
    ChatRequest :=
  let backend_type := tgt_backend resolved in
  let effective_model := tgt_model resolved in
  let should_update_model :=
    if String.eqb (req_model request) effective_model then false
    else if has_explicit_backend_selector (req_model request)
    then negb (String.eqb (partition ":" (req_model request)).1 backend_type)
    else true in
  let extra_body := req_extra_body request in
  let body := match tgt_uri_params resolved with
              | [] => od_pop RESOLVED_URI_PARAMS_EXTRA_BODY_KEY extra_body
              | params => od_set RESOLVED_URI_PARAMS_EXTRA_BODY_KEY (JDict params) extra_body
              end in
  let body := match extra_body with
              | [] => body
              | _ =>
                  let body := od_set "model" (JStr effective_model) body in
                  if is_empty backend_type then od_pop "backend_type" body
                  else od_set "backend_type" (JStr backend_type) body
              end in
  MkRequest (if should_update_model then effective_model else req_model request) (req_messages request) body.

(** What the n-th backend call does: the availability check rejects it, or it
    fails or answers after some time. *)
Inductive backend_call : Type :=
| Unavailable (e : exn)
| Fails (duration : Q) (e : exn)
| Answers (duration : Q) (r : response).

(** A stored start time; no writer stores a non-finite one. *)
Definition start_seconds (x : pyfloat) : Q := match x with FDec m e => dec_to_Q m e | _ => 0%Q end.

(** Step 4 of [call_completion]: the start time and whether output has begun. *)
Definition start_attempt : W (Q * bool) := λ w,
  let '(recovery_budget, c) := get_or_init_stream_recovery_budget (w_clock w) (w_context w) in
  let '(budget_start_time, attempted) :=
    match recovery_budget with
    | Some b => (start_seconds (budget_start_time b), attempted_backends b)
    | None => (w_clock w, [])
    end in
  (Ok (budget_start_time, truthy (ctx_get _MEANINGFUL_OUTPUT_EMITTED_KEY c)),
   MkWorld c attempted (w_clock w) (w_sleeps w) (w_calls w)).

Definition pass_time (duration : Q) : W unit := modify (λ w,
  MkWorld (w_context w) (w_attempted w) (w_clock w + duration)%Q (w_sleeps w) (w_calls w)).

Definition is_auth_failure (e : exn) : bool :=
  isinstance (ex_class e) [AuthenticationError] || (ex_status_code e =? 401)%Z.

Definition is_cancellation (e : exn) : bool :=
  isinstance (ex_class e) [CancelledError; SessionCancelledError].

Section flow.
Context (parse_http_date : str → option Q) (parse_qs : str → option (list (str * list str))).
Context (strategy : option (FailureHandlingConfig * option BackendDiscovery)).
Context (routing : nat → option BackendDiscovery) (gate_cancelled wait_cancelled : Q → bool).
Context (config_keepalive_interval : option Q) (completion_id : str).
Context (request_stream : ChatRequest → bool) (a_session_id : option str) (random_value : Q).
(** The resolver of targets, the exception normalizer, the error chunk of a
    stream, the configured routes and their planner. *)
Context `{BackendModelResolver} (normalize : exn → str → exn) (terminal_chunk : exn → str → chunk).
Context (failover_routes : list (str * json)) (get_failover_plan : str → str → res exn (list (str * str))).
Context (env : nat → backend_call).

Definition next_call : W backend_call := λ w,
  (Ok (env (w_calls w)), MkWorld (w_context w) (w_attempted w) (w_clock w) (w_sleeps w) (S (w_calls w))).

Definition answer_error (stream : bool) (e : exn) (provider : str) : W response :=
  if stream then mret (StreamingResponseEnvelope [terminal_chunk e provider] None) else raise e.

(** The handler around the backend call. *)
Definition on_call_failure (callback : ChatRequest → bool → bool → W response) (allow_failover stream : bool)
    (target : BackendTarget) (start_time : Q) (content_started : bool)
    (recovery_canonical_request : ChatRequest) (call_exc : exn) : W response :=
  let backend_type := tgt_backend target in
  if is_cancellation call_exc then raise call_exc
  else
    let normalized_exc := normalize call_exc backend_type in
    if is_auth_failure normalized_exc then raise normalized_exc
    else if allow_failover then
      apply_failure_recovery parse_http_date parse_qs strategy routing gate_cancelled wait_cancelled
        config_keepalive_interval completion_id request_stream a_session_id random_value callback
        normalized_exc (tgt_model target) backend_type start_time stream content_started
        recovery_canonical_request
    else answer_error stream normalized_exc backend_type.

(** The outer handlers: cancellations pass, a streaming client gets an error
    chunk, other errors leave as errors of the proxy. *)
Definition outer_handlers (stream : bool) (backend_type : str) (m : W response) : W response := λ w,
  match m w with
  | (Err e, w') =>
      if is_cancellation e then (Err e, w')
      else if isinstance (ex_class e) [LLMProxyError] then answer_error stream e backend_type w'
      else
        let normalized_exc := normalize e backend_type in
        answer_error stream
          (if stream || isinstance (ex_class normalized_exc) [LLMProxyError] then normalized_exc
           else backend_error ("Backend call failed: " +:+ ex_message e) None) backend_type w'
  | r => r
  end.

(** One pass of [call_completion]; recovery goes on through [callback]. *)
Definition complete_once (callback : ChatRequest → bool → bool → W response) (request : ChatRequest)
    (stream allow_failover : bool) : W response :=
  target ← with_context (resolve_target request);
  let canonical_request := synchronize_request_with_target request target in
  complex ← (if allow_failover
             then lift (check_complex_failover failover_routes canonical_request (tgt_model target))
             else mret false);
  if complex : bool then
    execute_complex_failover gate_cancelled callback get_failover_plan canonical_request
      (tgt_model target) (tgt_backend target) stream
  else
    outcome ← next_call;
    match outcome with
    | Unavailable e => answer_error stream e (tgt_backend target)
    | Answers duration r =>
        _ ← start_attempt; _ ← pass_time duration; mret r
    | Fails duration e =>
        tracking ← start_attempt;
        outer_handlers stream (tgt_backend target)
          (_ ← pass_time duration;
           on_call_failure callback allow_failover stream target tracking.1 tracking.2 canonical_request e)
    end.

Definition out_of_fuel : exn := py_exception "RecursionError" "maximum recursion depth exceeded".

(** The recursion; fuel bounds its depth. *)
Fixpoint call_completion (fuel : nat) : ChatRequest → bool → bool → W response :=
  match fuel with
  | 0 => λ _ _ _, raise out_of_fuel
  | S fuel' => complete_once (call_completion fuel')
  end.
End flow.

(** ** Waiting: exact, and cut short by a cancellation *)

Lemma ceiling_step (x : Q) (n : nat) : (x <= inject_Z (Z.of_nat (S n)))%Q → (x - 1 <= inject_Z (Z.of_nat n))%Q.
Proof. rewrite Nat2Z.inj_succ -Z.add_1_r inject_Z_plus. change (inject_Z 1) with 1%Q. intros. lra. Qed.

Lemma slices_enough (x unit : Q) : (0 < unit)%Q → (x / unit <= inject_Z (Z.of_nat (slices_of x unit)))%Q.
Proof.
  intros Hu. unfold slices_of. eapply Qle_trans; [apply Qle_ceiling|]. rewrite -Zle_Qle. lia.
Qed.

Lemma Qpymax_nonneg x : (0 <= x)%Q → (Qpymax 0 x == x)%Q.
Proof. unfold Qpymax. intros. qcase; lra. Qed.

(** What waiting leaves of a world: only the clock and the sleeps move. *)
Record waited (limit : Q) (w w' : world) : Prop := {
  wd_context : w_context w' = w_context w;
  wd_attempted : w_attempted w' = w_attempted w;
  wd_calls : w_calls w' = w_calls w;
  wd_clock : (w_clock w <= w_clock w')%Q;
  wd_sleeps : ∃ slices, w_sleeps w' = w_sleeps w ++ slices ∧ Forall (λ s, 0 < s ∧ s <= limit)%Q slices
}.

Lemma waited_refl limit w : waited limit w w.
Proof. split; try done; [lra|]. exists []. by rewrite app_nil_r. Qed.

Lemma waited_trans limit w w' w'' : waited limit w w' → waited limit w' w'' → waited limit w w''.
Proof.
  intros [? ? ? ? (s1 & E1 & F1)] [? ? ? ? (s2 & E2 & F2)]. split; try congruence; [lra|].
  exists (s1 ++ s2). rewrite E2 E1 app_assoc. split; [done|by apply Forall_app].
Qed.

Lemma waited_sleep limit s w : (0 < s)%Q → (s <= limit)%Q → waited limit w (snd (sleep s w)).
Proof.
  intros. split; try done; cbn; [lra|]. exists [s]. split; [done|]. by repeat constructor.
Qed.

(** The loop sleeps [remaining] seconds, or stops at a check that finds the
    session cancelled, a second at most after one that did not. *)
Lemma wait_slices_spec cancelled fuel remaining w :
  (0 <= remaining)%Q → (remaining <= inject_Z (Z.of_nat fuel))%Q →
  let run := wait_slices cancelled fuel remaining w in
  waited 1 w (snd run) ∧ (w_clock (snd run) <= w_clock w + remaining)%Q ∧
  match run with
  | (Ok _, w') => (w_clock w' == w_clock w + remaining)%Q ∧ (w' = w ∨ cancelled (w_clock w') = false)
  | (Err e, w') => e = session_cancelled_error ∧ cancelled (w_clock w') = true ∧
                   (w' = w ∨ ∃ t, cancelled t = false ∧ (w_clock w' <= t + 1)%Q)
  end.
Proof.
  revert remaining w; induction fuel as [|fuel IH]; intros remaining w Hr Hf; cbv zeta.
  { change (inject_Z (Z.of_nat 0)) with 0%Q in Hf.
    split; [apply waited_refl|]. cbn. split_and!; [lra|lra|by left]. }
  cbn [wait_slices]. qcase; [|split; [apply waited_refl|]; cbn; split_and!; [lra|lra|by left]].
  set (slice := Qpymin 1 remaining). destruct (Qpymin_spec 1 remaining) as (Hs1 & Hs2 & Hs).
  fold slice in Hs1, Hs2, Hs.
  assert (0 < slice)%Q as Hpos by (destruct Hs as [-> | ->]; lra).
  assert (Qpymax 0 (remaining - slice) == remaining - slice)%Q as Hmax by (apply Qpymax_nonneg; lra).
  unfold mbind, stm_bind, ensure_not_cancelled.
  destruct (cancelled (w_clock w)) eqn:Ht.
  { cbn. split; [apply waited_refl|]. split; [lra|]. split_and!; [done|done|by left]. }
  set (w1 := snd (sleep slice w)). change (sleep slice w) with (Ok (E := exn) tt, w1).
  assert (waited 1 w w1) as Hw1 by (by apply waited_sleep).
  assert (w_clock w1 == w_clock w + slice)%Q as Hc1 by done. clearbody w1. cbv iota beta.
  destruct (cancelled (w_clock w1)) eqn:Ht1.
  { cbn. split; [done|]. split; [lra|]. split_and!; [done|done|]. right. exists (w_clock w). split; [done|lra]. }
  destruct (IH (Qpymax 0 (remaining - slice)) w1) as (Hw2 & Hle & Hout); [apply Qpymax_ge_l| |].
  { rewrite Hmax. destruct Hs as [-> | ->]; [by apply ceiling_step|].
    assert (0 <= inject_Z (Z.of_nat fuel))%Q by (change 0%Q with (inject_Z 0); rewrite -Zle_Qle; lia). lra. }
  split; [by eapply waited_trans|]. split; [lra|].
  destruct (wait_slices _ _ _ _) as [[[]|e] w2]; cbn [snd] in *.
  - destruct Hout as [He [->|Hb]]; (split; [lra|by right]).
  - destruct Hout as (-> & Hb & [->|Hlt]); split_and!; try done; [congruence|by right].
Qed.

(** The outcome of waiting [remaining] seconds while the session is cancelled
    from [tau] on. *)
Definition wait_outcome (tau remaining : Q) (w : world) (run : res exn unit * world) : Prop :=
  waited 1 w (snd run) ∧ (w_clock (snd run) <= w_clock w + remaining)%Q ∧
  match run with
  | (Ok _, w') => (w_clock w' == w_clock w + remaining)%Q ∧ ((0 < remaining)%Q → (w_clock w' < tau)%Q)
  | (Err e, w') => e = session_cancelled_error ∧ (tau <= w_clock w')%Q ∧
                   (w_clock w' = w_clock w ∨ (w_clock w' < tau + 1)%Q)
  end.

Lemma wait_fuel wait_seconds :
  (0 <= wait_seconds)%Q →
  (wait_seconds <= inject_Z (Z.of_nat (slices_of wait_seconds 1)))%Q ∧ (Qpymax 0 wait_seconds == wait_seconds)%Q.
Proof.
  intros Hw. split; [|by apply Qpymax_nonneg]. pose proof (slices_enough wait_seconds 1 ltac:(lra)) as Hf.
  assert (wait_seconds / 1 == wait_seconds)%Q as Hd by field. by rewrite Hd in Hf.
Qed.

Definition empty_world : world := MkWorld None [] 100 [] 0.

(** ** Keep-alives *)

(** A computation that returns and leaves the world as it is. *)
Definition silent {A} (m : W A) : Prop := ∀ w, ∃ a, m w = (Ok a, w).

Lemma keepalive_loop_spec (ka : W chunk) fuel elapsed wait_seconds interval w :
  silent ka → (0 < interval)%Q → ((wait_seconds - elapsed) / interval <= inject_Z (Z.of_nat fuel))%Q →
  ∃ chunks w', keepalive_loop ka fuel elapsed wait_seconds interval w = (Ok chunks, w') ∧
    waited interval w w' ∧ (w_clock w' == w_clock w + Qpymax 0 (wait_seconds - elapsed))%Q.
Proof.
  intros Hka Hi. revert elapsed w; induction fuel as [|fuel IH]; intros elapsed w Hf.
  - exists [], w. split; [done|]. split; [apply waited_refl|].
    change (inject_Z (Z.of_nat 0)) with 0%Q in Hf. unfold Qpymax. qcase; [|lra].
    exfalso. apply (Qlt_not_le 0 ((wait_seconds - elapsed) / interval)); [|done].
    apply Qlt_shift_div_l; lra.
  - cbn [keepalive_loop]. qcase; [|exists [], w; split; [done|]; split; [apply waited_refl|];
      unfold Qpymax; qcase; lra].
    set (s := Qpymin interval (wait_seconds - elapsed)).
    destruct (Qpymin_spec interval (wait_seconds - elapsed)) as (Hs1 & Hs2 & Hs). fold s in Hs1, Hs2, Hs.
    assert (0 < s)%Q as Hpos by (destruct Hs as [-> | ->]; lra).
    pose proof (waited_sleep interval s w Hpos Hs1) as Hw1. unfold mbind, stm_bind.
    set (w1 := snd (sleep s w)) in *. change (sleep s w) with (Ok (E := exn) tt, w1).
    assert (w_clock w1 == w_clock w + s)%Q as Hc1 by done. clearbody w1. cbv iota beta.
    destruct (Hka w1) as [c ->]. destruct (IH (elapsed + interval)%Q w1) as (cs & w2 & -> & Hw2 & Hc2).
    { rewrite Nat2Z.inj_succ -Z.add_1_r inject_Z_plus in Hf. change (inject_Z 1) with 1%Q in Hf.
      assert ((wait_seconds - (elapsed + interval)) / interval == (wait_seconds - elapsed) / interval - 1)%Q
        as -> by (field; lra). lra. }
    exists (c :: cs), w2. split; [done|]. split; [by eapply waited_trans|].
    rewrite Hc2 Hc1. unfold Qpymax. destruct Hs as [-> | ->]; qcase; lra.
Qed.

Lemma keepalive_silent completion_id model session_id stream_id :
  silent (_keepalive_processed_response completion_id model session_id stream_id).
Proof. intros w. eexists. reflexivity. Qed.

(** The keep-alives of a streaming wait take exactly the wait. *)
Lemma keepalives_exact wait_seconds interval completion_id model session_id stream_id w :
  (0 <= wait_seconds)%Q → (0 < interval)%Q →
  ∃ chunks w',
    generate_keepalive_with_status wait_seconds interval completion_id model session_id stream_id w =
      (Ok chunks, w') ∧
    waited interval w w' ∧ (w_clock w' == w_clock w + wait_seconds)%Q.
Proof.
  intros Hw Hi. unfold generate_keepalive_with_status. set (ka := _keepalive_processed_response _ _ _ _).
  destruct (keepalive_loop_spec ka (slices_of wait_seconds interval) 0 wait_seconds interval w)
    as (cs & w' & Hl & Hw' & Hc); [apply keepalive_silent|done| |].
  { eapply Qle_trans; [|by apply slices_enough]. apply Qle_lteq. right. field. lra. }
  assert (Qpymax 0 (wait_seconds - 0) == wait_seconds)%Q as Hm by (rewrite Qpymax_nonneg; lra).
  unfold mbind, stm_bind. destruct (Qltb 0 wait_seconds).
  - destruct (keepalive_silent completion_id model session_id stream_id w) as [c Hka]. fold ka in Hka.
    rewrite Hka. cbn. rewrite Hl. exists (c :: cs), w'. split; [done|]. split; [done|]. lra.
  - cbn. rewrite Hl. exists cs, w'. split; [done|]. split; [done|]. lra.
Qed.

(** C40: Waiting before a retry is exact, and outside streams it can be cut short.
    The wait of a retry that is not streamed, without a cancellation, sleeps the
    decided time, no more and no less, in slices of at most a second, and changes
    nothing else; when the session is cancelled at a time [tau] it ends with the
    cancellation error less than a second after [tau] (at once when it was cancelled
    before the wait).  The wait of a streamed retry sleeps the decided time in
    slices of at most the keep-alive interval, with a keep-alive after each; it does
    not look for a cancellation. *)
Theorem wait_exact_and_cancellable tau wait_seconds interval completion_id model session_id stream_id w :
  (0 <= wait_seconds)%Q → (0 < interval)%Q →
  wait_outcome tau wait_seconds w (_wait_with_cancellation_boundaries (Qle_bool tau) wait_seconds w) ∧
  ∃ chunks w',
    generate_keepalive_with_status wait_seconds interval completion_id model session_id stream_id w =
      (Ok chunks, w') ∧
    waited interval w w' ∧ (w_clock w' == w_clock w + wait_seconds)%Q.
Proof.
  intros Hw Hi. split; [|by apply keepalives_exact].
  destruct (wait_fuel wait_seconds Hw) as [Hf Hm].
  destruct (wait_slices_spec (Qle_bool tau) (slices_of wait_seconds 1) (Qpymax 0 wait_seconds) w)
    as (H1 & H2 & H3); [apply Qpymax_ge_l|lra|].
  split; [done|]. split; [fold (_wait_with_cancellation_boundaries (Qle_bool tau) wait_seconds) in H2; lra|].
  unfold _wait_with_cancellation_boundaries.
  destruct (wait_slices _ _ _ _) as [[[]|e] w']; cbn [snd] in *.
  - destruct H3 as [H3 H4]. split; [lra|]. intros Hpos. destruct H4 as [->|H4]; [lra|].
    destruct (Qle_bool_spec tau (w_clock w')); [done|lra].
  - destruct H3 as (-> & H3 & H4). destruct (Qle_bool_spec tau (w_clock w')); [|done].
    split_and!; [done..|]. destruct H4 as [->|(t & Ht & Hlt)]; [by left|right].
    destruct (Qle_bool_spec tau t); [done|lra].
Qed.

Lemma wait_exact_and_cancellable_witness :
  wait_outcome 102 (5 # 2) empty_world
    (_wait_with_cancellation_boundaries (Qle_bool 102) (5 # 2) empty_world).
Proof. apply (wait_exact_and_cancellable 102 (5 # 2) 8 "c" "m" None None empty_world); lra. Defined.

(** ** Configured failover plans *)

Section plan_facts.
Context (gate_cancelled : Q → bool) (cb : ChatRequest → bool → bool → W response).
Context (request : ChatRequest) (stream : bool).

(** One attempt of a plan, after its cancellation gate. *)
Definition plan_attempt (attempt : str * str) : W response :=
  _ ← _increment_retry_metadata "failover"; cb (plan_request request attempt.1 attempt.2) stream false.

(** The attempts of [plan] fail one after the other, from one world to the next;
    the last error is kept. *)
Inductive all_fail : list (str * str) → option exn → world → option exn → world → Prop :=
| all_fail_nil last w : all_fail [] last w last w
| all_fail_cons attempt plan last e w w1 final w2 :
    gate_cancelled (w_clock w) = false → plan_attempt attempt w = (Err e, w1) →
    isinstance (ex_class e) [CancelledError] = false →
    all_fail plan (Some e) w1 final w2 → all_fail (attempt :: plan) last w final w2.

Lemma attempt_plan_skip plan rest last w final w' :
  all_fail plan last w final w' →
  attempt_plan gate_cancelled cb request (plan ++ rest) stream last w =
  attempt_plan gate_cancelled cb request rest stream final w'.
Proof.
  induction 1 as [|[backend model] plan last e w w1 final w2 Hg Ha Hc _ IH]; [done|].
  cbn [app attempt_plan]. unfold mbind at 1, stm_bind at 1, gate, ensure_not_cancelled. rewrite Hg.
  unfold catch_exception. unfold plan_attempt in Ha. cbn [fst snd] in Ha. rewrite Ha Hc. exact IH.
Qed.

(** A failover plan is tried in order.  When the first attempts fail and the
    next one answers, that answer is returned, from the world those attempts left
    and without trying the rest; when all fail, a backend error with status 502
    carries the last error; an empty plan fails at once. *)
Theorem failover_plan_in_order failing rest w final w' :
  gate_cancelled (w_clock w) = false → all_fail failing None w final w' →
  match rest with
  | [] => attempt_failover_plan gate_cancelled cb request failing stream w =
            (Err (backend_error (match final with
                                 | Some e => "All failover attempts failed. Last error: " +:+ ex_message e
                                 | None => "all backends failed"
                                 end) None), w')
  | attempt :: _ =>
      gate_cancelled (w_clock w') = false →
      ∀ r w'', plan_attempt attempt w' = (Ok r, w'') →
        attempt_failover_plan gate_cancelled cb request (failing ++ rest) stream w = (Ok r, w'')
  end.
Proof.
  intros Hg Hf. unfold attempt_failover_plan, mbind, stm_bind, gate, ensure_not_cancelled.
  destruct rest as [|[backend model] rest].
  - rewrite Hg. destruct failing as [|a l]; [inversion Hf; by subst|].
    rewrite -{1}(app_nil_r (a :: l)) (attempt_plan_skip _ _ _ _ _ _ Hf). cbn [attempt_plan].
    inversion Hf as [|? ? ? e ? w1 ? ? ? ? ? Hrest]; subst.
    assert (∃ e', final = Some e') as [e' ->]; [|done].
    clear -Hrest. remember (Some e) as o eqn:Eo. revert e Eo.
    induction Hrest as [|? ? ? e1 ? ? ? ? ? ? ? ? IH]; intros e0 Eo; [eauto|by eapply IH].
  - intros Hg' r w'' Ha. rewrite Hg.
    assert (∀ l, match failing ++ (backend, model) :: rest with [] => raise (backend_error "all backends failed" None)
      | _ :: _ => attempt_plan gate_cancelled cb request l stream None end w =
      attempt_plan gate_cancelled cb request l stream None w) as -> by (intros; by destruct failing).
    rewrite (attempt_plan_skip _ _ _ _ _ _ Hf). cbn [attempt_plan].
    unfold mbind at 1, stm_bind at 1, gate, ensure_not_cancelled. rewrite Hg'.
    unfold catch_exception. unfold plan_attempt in Ha. cbn [fst snd] in Ha. by rewrite Ha.
Qed.
End plan_facts.

(** Two attempts: the first fails, the second answers. *)
Definition sample_callback (request : ChatRequest) (stream allow_failover : bool) : W response :=
  if String.eqb (req_model request) "bad" then raise (backend_error "down" None)
  else mret (ResponseEnvelope (JStr (req_model request))).

Lemma failover_plan_in_order_witness :
  attempt_failover_plan (λ _, false) sample_callback (MkRequest "m" [] []) [("x", "bad"); ("y", "good")] false
    empty_world = (Ok (ResponseEnvelope (JStr "good")), empty_world).
Proof.
  refine (failover_plan_in_order (λ _, false) sample_callback (MkRequest "m" [] []) false [("x", "bad")]
    [("y", "good")] empty_world (Some (backend_error "down" None)) empty_world eq_refl _ eq_refl _ _ _); [|done].
  eapply all_fail_cons; try reflexivity. apply all_fail_nil.
Defined.

(** ** What the strategy hides *)

(** A client error changes its status when a failure strategy is configured:
    an error of the proxy that is not a backend error (an invalid request, say) is
    raised as it is without a strategy, and as a 502 backend error with the same
    message with one, when there is nothing to fail over to. *)
Theorem client_error_masked parse_http_date parse_qs config callback error model backend start_time w :
  isinstance (ex_class error) [LLMProxyError] = true → isinstance (ex_class error) [BackendError] = false →
  w_context w = None → w_attempted w = [] → (1 < max_failover_hops config)%Z →
  (w_clock w - start_time < total_timeout_budget config)%Q →
  FailureStrategy._extract_retry_after parse_http_date (w_clock w) (backend_error (ex_message error) None) = None →
  let recover strategy :=
    fst (apply_failure_recovery parse_http_date parse_qs strategy (λ _, None) (λ _, false) (λ _, false) None ""
           (λ _, false) None 0 callback error model backend start_time false false (MkRequest model [] []) w) in
  recover None = Err error ∧
  recover (Some (config, None)) = Err (backend_error (ex_message error) None) ∧
  ex_status_code (backend_error (ex_message error) None) = 502%Z.
Proof.
  intros Hp Hb Hc Ha Hh Hbud Hno recover. subst recover. cbv beta.
  assert (∀ strategy, apply_failure_recovery parse_http_date parse_qs strategy (λ _, None) (λ _, false) (λ _, false)
    None "" (λ _, false) None 0 callback error model backend start_time false false (MkRequest model [] []) w =
    let w1 := MkWorld None [backend] (w_clock w) (w_sleeps w) (w_calls w) in
    match strategy with
    | None => (Err (surfaced error None), w1)
    | Some _ => (result ← apply_failure_strategy parse_http_date strategy (λ _, None)
                   (backend_error (ex_message error) None) model backend start_time false false;
                 match fr_decision result, fr_next_backend result, fr_error_to_surface result with
                 | WAIT_AND_RETRY, _, _ =>
                     execute_retry (λ _, false) (λ _, false) None "" (λ _, false) None callback
                       (MkRequest model [] []) backend (fr_wait_seconds result) false model
                 | FAILOVER_IMMEDIATE, Some next_backend, _ =>
                     execute_failover (λ _, false) callback (MkRequest model [] []) next_backend false
                 | _, _, Some e => raise e
                 | _, _, None => raise (surfaced error (Some (ex_status_code error)))
                 end) w1
    end) as Hrec.
  { intros strategy. unfold apply_failure_recovery, mbind, stm_bind, gets. rewrite Ha. cbn [str_in existsb negb when app].
    unfold set_attempted, modify, with_context, set_context. cbn [w_context w_attempted w_clock w_sleeps w_calls].
    rewrite Hc. cbn [ctx_set build_next_request]. rewrite Hb. by destruct strategy. }
  rewrite !Hrec. cbv zeta. split_and!; [|unfold mbind, stm_bind, apply_failure_strategy|done].
  - cbn [fst]. unfold surfaced. assert (isinstance (ex_class error) [BackendError; RateLimitExceededError; LLMProxyError] = true)
      as ->; [|done].
    unfold isinstance in *. apply existsb_exists in Hp as (x & Hx & Hin%bool_decide_eq_true). apply existsb_exists.
    exists x. split; [done|]. apply bool_decide_eq_true. set_solver.
  - cbn [w_clock w_attempted fmap option_fmap option_map w_calls]. unfold decide_failure.
    cbn [length]. destruct (Z.leb_spec (max_failover_hops config) (Z.of_nat 1)); [lia|].
    destruct (Qle_bool_spec (total_timeout_budget config) (w_clock w - start_time)); [lra|].
    rewrite Hno. by destruct (_is_recoverable_error _ _ _).
Qed.

Lemma client_error_masked_witness :
  let bad_request := mk_LLMProxyError InvalidRequestError "unknown field" [] (Some 400%Z) in
  ex_status_code bad_request = 400%Z ∧
  fst (apply_failure_recovery (λ _, None) (λ _, None) (Some (default_failure_config, None)) (λ _, None) (λ _, false)
         (λ _, false) None "" (λ _, false) None 0 sample_callback bad_request "m" "x" 100 false false
         (MkRequest "m" [] []) empty_world) = Err (backend_error "unknown field" None).
Proof.
  intros bad_request. split; [reflexivity|].
  apply (client_error_masked (λ _, None) (λ _, None) default_failure_config sample_callback bad_request "m" "x" 100
    empty_world); try reflexivity; vm_compute; reflexivity.
Defined.

(** Dictionaries that differ at one key only. *)
Definition same_but (k0 : str) (d d' : list (str * json)) : Prop := ∀ k, k ≠ k0 → od_get k d = od_get k d'.

Lemma same_but_set k0 k v d d' : same_but k0 d d' → same_but k0 (od_set k v d) (od_set k v d').
Proof.
  intros Hd k' Hk'. destruct (decide (k' = k)) as [->|]; [by rewrite !od_get_set_eq|].
  rewrite !od_get_set_ne //. by apply Hd.
Qed.

Lemma same_but_pop k0 d d' : same_but k0 d d' → same_but k0 (od_pop k0 d) (od_pop k0 d').
Proof. intros Hd k Hk. rewrite !od_get_pop_ne //. by apply Hd. Qed.

(** A failover is not carried out for a request that names its backend in the
    model selector: the leaf request that reaches the backend resolver drops the
    backend the failover chose, so it reads the same as the request that failed. *)
Theorem explicit_selector_defeats_failover request next session_id leaf :
  od_ok (req_extra_body request) → has_explicit_backend_selector (leaf_normalized_selector leaf) = true →
  let seen r := leaf_extra_body r session_id leaf in
  od_get "backend_type" (seen (with_backend next request)) = None ∧
  ∀ key, od_get key (seen (with_backend next request)) = od_get key (seen request).
Proof.
  intros Hok Hex seen.
  assert (od_ok (req_extra_body (with_backend next request))) as Hok' by (cbn; auto with proxy).
  assert (∀ r, od_ok (req_extra_body r) → od_get "backend_type" (seen r) = None) as Hnone.
  { intros r Hr. destruct (leaf_extra_body_spec r session_id leaf Hr) as (_ & _ & _ & _ & H & _). by apply H. }
  split; [by apply Hnone|]. intros key. destruct (decide (key = "backend_type")) as [->|Hne]; [by rewrite !Hnone|].
  revert key Hne. unfold seen, leaf_extra_body. rewrite Hex.
  set (d1 := od_pop "backend_type" _). set (d2 := od_pop "backend_type" (od_set _ _ _)).
  assert (same_but "backend_type" d1 d2) as Hd.
  { subst d1 d2. apply same_but_pop. repeat apply same_but_set. intros k Hk. by apply od_get_set_ne. }
  clearbody d1 d2. destruct session_id as [s|]; [|exact Hd]. unfold od_mem. rewrite Hd //.
  destruct (_ && _); [by apply same_but_set|exact Hd].
Qed.

Lemma explicit_selector_defeats_failover_witness :
  od_get "backend_type" (leaf_extra_body (with_backend "azure" (MkRequest "openai:gpt-4o" [] [])) None
    (sample_leaf 1 false)) = None.
Proof.
  refine (proj1 (explicit_selector_defeats_failover (MkRequest "openai:gpt-4o" [] []) "azure" None
    (sample_leaf 1 false) _ _)); [constructor|reflexivity].
Defined.
