(* ===== verification/RecoveryLoop.v ===== *)
(** * The recovery loop ends

    Recovery is a recursion through [call_completion]: the executor calls it
    again for every retry and every failover.  With a request context, which
    carries the start time and the attempted backends from one attempt to the
    next, the number of backend calls is bounded by the configuration; without
    one, each attempt starts from a fresh budget and two backends can hand a
    request back and forth for ever. *)

From Stdlib Require Import Ascii Qround.
From S2P Require Import Prelude PyStr PyDict Exceptions ErrorHandlers RetryAfter.
From S2P Require Import CompositeDomain ModelUtils WeightedSelector RoutingState RoutingCoordinator.
From S2P Require Import RoutingService RecoveryBridge FailureStrategy FailureRecovery.
From stdpp Require Import options.

(** ** The budget a context carries *)

(** The attempted backends and the start time stored in a context without
    composite routing state. *)
Record carries (c : RequestContext) (attempted : list str) (start : Q) : Prop := {
  ca_start : ∃ v x, ctx_get _BUDGET_START_TIME_KEY (Some c) = Some v ∧ is_number (Some v) = true ∧
               float_of_json v = Some x ∧ start_seconds x = start;
  ca_attempted : ctx_get _ATTEMPTED_BACKENDS_KEY (Some c) = Some (JList (JStr <$> attempted));
  ca_plain : ctx_get COMPOSITE_ROUTING_STATE_KEY (Some c) = None
}.

(** No recovery has begun: the start time will be the clock. *)
Record unstarted (c : RequestContext) : Prop := {
  un_start : ctx_get _BUDGET_START_TIME_KEY (Some c) = None;
  un_attempted : ctx_get _ATTEMPTED_BACKENDS_KEY (Some c) = None;
  un_plain : ctx_get COMPOSITE_ROUTING_STATE_KEY (Some c) = None
}.

Definition budget_keys : list string := [_BUDGET_START_TIME_KEY; _ATTEMPTED_BACKENDS_KEY; COMPOSITE_ROUTING_STATE_KEY].

Lemma carries_set c attempted start k v :
  k ∉ budget_keys → carries c attempted start →
  ∃ c', ctx_set k v (Some c) = Some c' ∧ carries c' attempted start.
Proof.
  intros Hk [Hs Ha Hp]. eexists. split; [reflexivity|]. unfold budget_keys in Hk.
  rewrite !not_elem_of_cons in Hk. destruct Hk as (H1 & H2 & H3 & _).
  split; cbn in *; by rewrite lookup_insert_ne.
Qed.

Lemma carries_set_attempted c attempted start l :
  carries c attempted start →
  ∃ c', ctx_set _ATTEMPTED_BACKENDS_KEY (JList (JStr <$> l)) (Some c) = Some c' ∧ carries c' l start.
Proof.
  intros [Hs Ha Hp]. eexists. split; [reflexivity|].
  split; cbn in *; [by rewrite lookup_insert_ne|by rewrite lookup_insert_eq|by rewrite lookup_insert_ne].
Qed.

Lemma carries_setdefault c attempted start k v :
  k ∉ budget_keys → carries c attempted start →
  ∃ c', setdefault k v (Some c) = Some c' ∧ carries c' attempted start.
Proof.
  intros Hk Hc. unfold setdefault. destruct (ctx_get k (Some c)); [by exists c|by eapply carries_set].
Qed.

(** Reading the budget of a context that carries one. *)
Lemma get_budget_carried clock c attempted start :
  carries c attempted start →
  ∃ b c', get_or_init_stream_recovery_budget clock (Some c) = (Some b, Some c') ∧
    attempted_backends b = attempted ∧ start_seconds (budget_start_time b) = start ∧
    carries c' attempted start.
Proof.
  intros Hc. pose proof Hc as [(v & x & Hv & Hn & Hx & Hs) Ha _].
  unfold get_or_init_stream_recovery_budget.
  rewrite (setdefault_present _BUDGET_START_TIME_KEY _ (Some c) v) //.
  erewrite (setdefault_present _ATTEMPTED_BACKENDS_KEY _ (Some c)); [|eassumption].
  destruct (carries_setdefault c attempted start _RETRY_ATTEMPT_KEY (JInt 0)) as (c1 & -> & Hc1);
    [unfold budget_keys; set_solver|done|].
  destruct (carries_setdefault c1 attempted start _MEANINGFUL_OUTPUT_EMITTED_KEY (JBool false))
    as (c2 & -> & Hc2); [unfold budget_keys; set_solver|done|].
  clear c Hc Hv Hn Hx Hs Ha v x Hc1 c1. cbv zeta.
  pose proof Hc2 as [(v & x & Hv & Hn & Hx & Hs) Ha _].
  rewrite Hv Hn Ha as_str_list_strs omap_strs. cbn [mbind option_bind]. rewrite Hx.
  set (r := _coerce_retry_attempt _). clearbody r.
  destruct (carries_set c2 attempted start _RETRY_ATTEMPT_KEY (JInt r)) as (c3 & -> & Hc3);
    [unfold budget_keys; set_solver|done|].
  set (em := match ctx_get _MEANINGFUL_OUTPUT_EMITTED_KEY (Some c3) with Some (JBool b) => b | _ => _ end).
  clearbody em.
  destruct (carries_set c3 attempted start _MEANINGFUL_OUTPUT_EMITTED_KEY (JBool em)) as (c4 & -> & Hc4);
    [unfold budget_keys; set_solver|done|].
  eexists _, c4. split; [reflexivity|]. done.
Qed.

(** The first reading starts the budget at the clock. *)
Lemma get_budget_unstarted clock c :
  unstarted c →
  ∃ b c', get_or_init_stream_recovery_budget clock (Some c) = (Some b, Some c') ∧
    attempted_backends b = [] ∧ start_seconds (budget_start_time b) = start_seconds (float_of_Q clock) ∧
    carries c' [] (start_seconds (float_of_Q clock)).
Proof.
  intros [Hs Ha Hp].
  set (c0 := MkContext (ctx_session_id c)
    (<[_ATTEMPTED_BACKENDS_KEY := JList []]>
       (<[_BUDGET_START_TIME_KEY := JFloat (float_of_Q clock)]> (ctx_extensions c)))).
  assert (carries c0 [] (start_seconds (float_of_Q clock))) as Hc0.
  { subst c0. split; cbn in *.
    - exists (JFloat (float_of_Q clock)), (float_of_Q clock).
      rewrite lookup_insert_ne // lookup_insert_eq. done.
    - by rewrite lookup_insert_eq.
    - by rewrite !lookup_insert_ne. }
  destruct (get_budget_carried clock c0 _ _ Hc0) as (b & c' & E & Hrest).
  exists b, c'. split; [|done]. rewrite -E. unfold get_or_init_stream_recovery_budget.
  assert (setdefault _ATTEMPTED_BACKENDS_KEY (JList [])
    (setdefault _BUDGET_START_TIME_KEY (JFloat (float_of_Q clock)) (Some c)) = Some c0) as ->.
  { unfold setdefault at 2. rewrite Hs. unfold setdefault. rewrite ctx_get_set_ne // Ha. done. }
  destruct Hc0 as [(v & x & Hv & _) Hl _].
  rewrite (setdefault_present _BUDGET_START_TIME_KEY _ (Some c0) v) //.
  by rewrite (setdefault_present _ATTEMPTED_BACKENDS_KEY _ (Some c0) _ Hl).
Qed.

(** ** Runs that agree

    Two computations that do the same in a world, with at most [n] more backend
    calls: how the loop with one amount of fuel is compared to the loop with
    more. *)

Definition agrees {A} (n : nat) (m1 m2 : W A) (w : world) : Prop :=
  m1 w = m2 w ∧ w_calls (snd (m1 w)) ≤ w_calls w + n.

Lemma agrees_refl {A} n (m : W A) w : w_calls (snd (m w)) ≤ w_calls w + n → agrees n m m w.
Proof. done. Qed.

Lemma agrees_bind {A B} n (m : W A) (f1 f2 : A → W B) w :
  (w_calls (snd (m w)) = w_calls w) →
  (∀ a w', m w = (Ok a, w') → agrees n (f1 a) (f2 a) w') →
  agrees n (m ≫= f1) (m ≫= f2) w.
Proof.
  intros Hq Hf. unfold agrees, mbind, stm_bind. destruct (m w) as [[a|e] w'] eqn:E; cbn in *.
  - destruct (Hf a w' eq_refl) as [? ?]. split; [done|]. by rewrite Hq in H0.
  - split; [done|]. lia.
Qed.

Lemma agrees_then {A B} n (m1 m2 : W A) (f : A → W B) w :
  agrees n m1 m2 w → (∀ a w', w_calls (snd (f a w')) = w_calls w') → agrees n (m1 ≫= f) (m2 ≫= f) w.
Proof.
  intros [He Hc] Hf. unfold agrees, mbind, stm_bind. rewrite -He. split; [done|].
  destruct (m1 w) as [[a|e] w']; cbn in *; [by rewrite Hf|done].
Qed.

Lemma agrees_catch {A} n (m1 m2 : W A) (h : exn → W A) w :
  agrees n m1 m2 w → (∀ e w', w_calls (snd (h e w')) = w_calls w') →
  agrees n (catch_exception m1 h) (catch_exception m2 h) w.
Proof.
  intros [He Hc] Hh. unfold agrees, catch_exception. rewrite -He. split; [done|].
  destruct (m1 w) as [[a|e] w']; cbn [snd] in *; [done|]. by case_match; [|rewrite Hh].
Qed.

(** A context that carries this budget, at or after this time. *)
Definition ready (attempted : list str) (start clock : Q) (w : world) : Prop :=
  ∃ c, w_context w = Some c ∧ carries c attempted start ∧ (clock <= w_clock w)%Q.

Lemma ready_increment reason attempted start clock w :
  ready attempted start clock w → ready attempted start clock (snd (_increment_retry_metadata reason w)).
Proof.
  intros (c & Hc & Hcar & Hle). unfold _increment_retry_metadata, on_context, modify. cbn [snd]. rewrite Hc.
  set (r := (_coerce_retry_attempt _ + 1)%Z). clearbody r.
  destruct (carries_set c attempted start _RETRY_ATTEMPT_KEY (JInt r)) as (c1 & -> & H1);
    [unfold budget_keys; set_solver|done|].
  destruct (carries_set c1 attempted start "is_retry" (JBool true)) as (c2 & -> & H2);
    [unfold budget_keys; set_solver|done|].
  destruct (carries_set c2 attempted start "b2bua_attempt_reason" (JStr reason)) as (c3 & -> & H3);
    [unfold budget_keys; set_solver|done|].
  exists c3. done.
Qed.

Lemma ready_waited limit attempted start clock w w' :
  waited limit w w' → ready attempted start clock w → ready attempted start (w_clock w') w'.
Proof.
  intros [Hc _ _ _ _] (c & Hw & Hcar & _). exists c. rewrite Hc. split_and!; [done..|lra].
Qed.

Lemma ready_attempted attempted start clock w l :
  ready attempted start clock w → ready l start clock (snd (set_attempted l w)).
Proof.
  intros (c & Hc & Hcar & Hle). unfold set_attempted, modify. cbn [snd]. rewrite Hc.
  destruct (carries_set_attempted c attempted start l Hcar) as (c' & E & Hc'). exists c'.
  cbn [w_context w_clock]. by rewrite E.
Qed.

Lemma gate_quiet cancelled w : w_calls (snd (ensure_not_cancelled cancelled w)) = w_calls w.
Proof. unfold ensure_not_cancelled. by destruct (cancelled _). Qed.

Lemma gate_Ok cancelled w w' : ensure_not_cancelled cancelled w = (Ok tt, w') → w' = w.
Proof. unfold ensure_not_cancelled. destruct (cancelled _); by intros [= <-]. Qed.


Lemma carries_frame c c' attempted start :
  (∀ k, k ∈ budget_keys → ctx_get k (Some c') = ctx_get k (Some c)) →
  carries c attempted start → carries c' attempted start.
Proof.
  intros Hf [Hs Ha Hp]. split; rewrite Hf; try done; unfold budget_keys; set_solver.
Qed.

(** A stored time is not later than the clock it was read from. *)
Lemma float_of_Q_le q : (start_seconds (float_of_Q q) <= q)%Q.
Proof.
  destruct q as [num den]. unfold float_of_Q, start_seconds, dec_to_Q. cbn [Qnum Qden].
  set (j := Z.log2 (Zpos den)). assert (0 <= j)%Z as Hj by apply Z.log2_nonneg.
  assert (0 < 10 ^ j)%Z as Hp by (apply Z.pow_pos_nonneg; lia).
  pose proof (Z.mul_div_le (num * 10 ^ j) (Zpos den) ltac:(lia)) as Hd.
  destruct (Z.leb_spec 0 (- j)) as [Hle|Hlt].
  - assert (j = 0)%Z as E by lia. rewrite E in Hd |- *. cbn [Z.opp Z.pow]. rewrite !Z.mul_1_r in Hd |- *.
    unfold Qle. cbn. lia.
  - rewrite Z.opp_involutive. apply Qle_shift_div_r; [change 0%Q with (inject_Z 0); by rewrite -Zlt_Qlt|].
    unfold Qle, Qmult, inject_Z. cbn [Qnum Qden]. rewrite Pos.mul_1_r. lia.
Qed.

(** The outer handlers call no backend. *)
Lemma outer_calls normalize terminal_chunk stream backend m w :
  w_calls (snd (outer_handlers normalize terminal_chunk stream backend m w)) = w_calls (snd (m w)).
Proof.
  unfold outer_handlers, answer_error. destruct (m w) as [[a|e] w']; [done|].
  destruct (is_cancellation e); [done|]. by destruct (isinstance (ex_class e) [LLMProxyError]), stream.
Qed.

(** ** The loop *)

Section loop.
Set Default Proof Using "Type*".
Context (parse_http_date : str → option Q) (parse_qs : str → option (list (str * list str))).
Context (config : FailureHandlingConfig) (discovery : option BackendDiscovery).
Context (routing : nat → option BackendDiscovery) (gate_cancelled wait_cancelled : Q → bool).
Context (config_keepalive_interval : option Q) (completion_id : str).
Context (request_stream : ChatRequest → bool) (a_session_id : option str) (random_value : Q).
Context `{R : BackendModelResolver} (normalize : exn → str → exn) (terminal_chunk : exn → str → chunk).
Context (failover_routes : list (str * json)) (get_failover_plan : str → str → res exn (list (str * str))).
Context (env : nat → backend_call) (model : str).

(** The resolver sends a request for this model to the backend it names, and
    leaves the budget in the context alone. *)
Record resolver_honours : Prop := {
  rh_answer : ∀ req c t, req_model req = model → bmr_answer req c = Ok t →
    tgt_model t = model ∧
    ∀ b, od_get "backend_type" (req_extra_body req) = Some (JStr b) → tgt_backend t = b;
  rh_frame : ∀ req c k, k ∈ budget_keys → bmr_extensions req c !! k = ctx_extensions c !! k
}.

Context (Hvalid : config_valid config) (Hhonours : resolver_honours).
Context (Hroutes : od_mem model failover_routes = false).
Context (Hinterval : (0 < default 8%Q config_keepalive_interval)%Q).
Context (Hdurations : ∀ n d e, env n = Fails d e → (0 <= d)%Q).

(** How many calls are left: the hops, and the waits that fit in the time. *)
Definition rank (attempted : list str) (elapsed : Q) : nat :=
  S (Z.to_nat (max_failover_hops config - 1 - Z.of_nat (length attempted)) +
     Z.to_nat (Qfloor ((total_timeout_budget config - elapsed) / min_retry_wait config))).

Lemma min_wait_pos : (0 < min_retry_wait config)%Q.
Proof. destruct Hvalid. lra. Qed.

Lemma floor_div_mono x y : (x <= y)%Q →
  (Qfloor (x / min_retry_wait config) <= Qfloor (y / min_retry_wait config))%Z.
Proof.
  intros Hxy. apply Qfloor_resp_le. pose proof min_wait_pos. unfold Qdiv.
  apply Qmult_le_compat_r; [done|]. apply Qinv_le_0_compat. lra.
Qed.

Lemma rank_mono attempted e e' : (e <= e')%Q → rank attempted e' ≤ rank attempted e.
Proof.
  intros He. unfold rank.
  pose proof (floor_div_mono (total_timeout_budget config - e') (total_timeout_budget config - e) ltac:(lra)).
  lia.
Qed.

(** A wait uses up one of the waits left. *)
Lemma rank_wait attempted e e' wait :
  (min_retry_wait config <= wait)%Q → (e + wait <= total_timeout_budget config)%Q → (e + wait <= e')%Q →
  S (rank attempted e') ≤ rank attempted e.
Proof.
  intros Hmin Hfit He'. unfold rank. pose proof min_wait_pos as Hpos.
  set (X := ((total_timeout_budget config - e) / min_retry_wait config)%Q).
  set (Y := ((total_timeout_budget config - e') / min_retry_wait config)%Q).
  assert (1 <= X)%Q as HX by (apply Qle_shift_div_l; lra).
  assert (Y <= X - 1)%Q as HY.
  { apply Qle_shift_div_r; [done|]. unfold X.
    assert (((total_timeout_budget config - e) / min_retry_wait config - 1) * min_retry_wait config ==
      total_timeout_budget config - e - min_retry_wait config)%Q as -> by (field; lra). lra. }
  pose proof (Qfloor_le Y) as H1. pose proof (Qlt_floor X) as H2. rewrite inject_Z_plus in H2.
  change (inject_Z 1) with 1%Q in H2.
  assert (inject_Z (Qfloor Y) < inject_Z (Qfloor X))%Q as H3 by lra. rewrite -Zlt_Qlt in H3.
  assert (inject_Z 0 < inject_Z (Qfloor X))%Q as H4 by (change (inject_Z 0) with 0%Q; lra).
  rewrite -Zlt_Qlt in H4. lia.
Qed.

(** A new backend uses up one of the hops left. *)
Lemma rank_hop attempted b e :
  ¬ (max_failover_hops config <= Z.of_nat (length (attempted ++ [b])))%Z →
  S (rank (attempted ++ [b]) e) ≤ rank attempted e.
Proof. unfold rank. rewrite length_app. cbn. lia. Qed.
(** An attempt of the recovery: the request names a backend that has not been
    tried, and [n] calls are enough from here. *)
Record entry (n : nat) (request : ChatRequest) (w : world) : Prop := {
  en_model : req_model request = model;
  en_routes : truthy (od_get "failover_routes" (req_extra_body request)) = false;
  en_budget : ∃ attempted start, ready attempted start (w_clock w) w ∧
    (∃ b, od_get "backend_type" (req_extra_body request) = Some (JStr b) ∧ b ∉ attempted) ∧
    rank attempted (w_clock w - start) ≤ n
}.

Lemma entry_with_backend n request b attempted start w :
  req_model request = model → truthy (od_get "failover_routes" (req_extra_body request)) = false →
  ready attempted start (w_clock w) w → b ∉ attempted → rank attempted (w_clock w - start) ≤ n →
  entry n (with_backend b request) w.
Proof.
  intros Hm Hr Hready Hb Hrank. split; cbn; [done|by rewrite od_get_set_ne|].
  exists attempted, start. split_and!; [done| |done]. exists b. by rewrite od_get_set_eq.
Qed.

(** Two ways to go on that agree wherever [n] calls are enough. *)
Definition callbacks_agree (n : nat) (cb1 cb2 : ChatRequest → bool → bool → W response) : Prop :=
  ∀ request stream w, entry n request w → agrees n (cb1 request stream true) (cb2 request stream true) w.

Section step.
Context (n : nat) (cb1 cb2 : ChatRequest → bool → bool → W response) (Hcb : callbacks_agree n cb1 cb2).
Context (request : ChatRequest) (Hmodel : req_model request = model).
Context (Hreq : truthy (od_get "failover_routes" (req_extra_body request)) = false).
Context (attempted : list str) (start : Q) (b : str) (Hb : b ∉ attempted).

Lemma failover_step next stream w :
  ready (attempted ++ [b]) start (w_clock w) w → next ∉ attempted ++ [b] →
  rank (attempted ++ [b]) (w_clock w - start) ≤ n →
  agrees n (execute_failover gate_cancelled cb1 request next stream)
    (execute_failover gate_cancelled cb2 request next stream) w.
Proof.
  intros Hready Hnext Hrank. unfold execute_failover, gate.
  apply agrees_bind; [apply gate_quiet|]. intros [] w0 ->%gate_Ok.
  apply agrees_bind; [done|]. intros [] w1 Hw1.
  apply (ready_increment "failover") in Hready. rewrite Hw1 in Hready. cbn [snd] in Hready.
  assert (w_clock w1 = w_clock w) as Hc by (injection Hw1 as <-; done).
  apply Hcb. eapply entry_with_backend; rewrite ?Hc; done.
Qed.

Lemma allow_again_ready clock w :
  ready (attempted ++ [b]) start clock w → w_attempted w = attempted ++ [b] →
  ∃ w', allow_again b w = (Ok tt, w') ∧ ready attempted start clock w' ∧ w_clock w' = w_clock w ∧
    w_calls w' = w_calls w.
Proof.
  intros Hready Hatt. unfold allow_again. rewrite Hatt last_snoc decide_True // removelast_last.
  eexists. split; [reflexivity|]. split; [|done]. by eapply (ready_attempted _ _ _ _ attempted) in Hready.
Qed.

Lemma stream_retry_step w :
  entry n (with_backend b request) w →
  agrees n (stream_retry cb1 (with_backend b request) model) (stream_retry cb2 (with_backend b request) model) w.
Proof.
  intros He. apply agrees_catch; [|done]. apply agrees_then; [by apply Hcb|].
  intros [content|chunks [e|]] w'; [done| |done]. by case_match.
Qed.

(** The wait of a retry, whichever way it is spent. *)
Lemma retry_step wait stream w :
  ready (attempted ++ [b]) start (w_clock w) w → w_attempted w = attempted ++ [b] → (0 < wait)%Q →
  (∀ clock, (w_clock w + wait <= clock)%Q → rank attempted (clock - start) ≤ n) →
  agrees n
    (execute_retry gate_cancelled wait_cancelled config_keepalive_interval completion_id request_stream
       a_session_id cb1 request b (Some wait) stream model)
    (execute_retry gate_cancelled wait_cancelled config_keepalive_interval completion_id request_stream
       a_session_id cb2 request b (Some wait) stream model) w.
Proof.
  intros Hready Hatt Hpos Hrank. unfold execute_retry, gate.
  assert (Qpymax 0 wait = wait) as -> by (unfold Qpymax; by destruct (Qltb_spec 0 wait)).
  destruct (Qltb_spec 0 wait) as [_|]; [|done].
  apply agrees_bind; [apply gate_quiet|]. intros [] w0 ->%gate_Ok.
  apply agrees_bind; [done|]. intros [] w1 Hw1.
  apply (ready_increment "retry") in Hready. rewrite Hw1 in Hready. cbn [snd] in Hready.
  assert (w_clock w1 = w_clock w ∧ w_attempted w1 = w_attempted w) as [Hc1 Ha1] by (injection Hw1 as <-; done).
  rewrite -Hc1 in Hready, Hrank. rewrite -Ha1 in Hatt. clear w Hw1 Hc1 Ha1. cbn [andb].
  destruct (wait_fuel wait) as [Hf Hm]; [lra|].
  destruct (stream || request_stream request); cbn [negb when].
  - apply agrees_bind; [done|]. intros [] w2 [= <-].
    destruct (allow_again_ready _ _ Hready Hatt) as (w3 & E3 & Hr3 & Hc3 & Hn3).
    apply agrees_bind; rewrite E3 //. intros [] w4 [= <-].
    apply agrees_bind; [done|]. intros sid w4 [= <- <-].
    destruct (keepalives_exact wait (default 8%Q config_keepalive_interval) completion_id model
      (_resolve_keepalive_session_id a_session_id (w_context w3))
      (_resolve_keepalive_session_id a_session_id (w_context w3)) w3) as (cs & w4 & E4 & Hw4 & Hc4);
      [lra|done|].
    apply agrees_bind; rewrite E4; [apply Hw4|]. intros ? ? [= <- <-].
    apply agrees_then; [|done]. apply stream_retry_step. eapply entry_with_backend; try done.
    { by eapply ready_waited. } { apply Hrank. rewrite Hc4 Hc3. lra. }
  - destruct (wait_slices_spec wait_cancelled (slices_of wait 1) (Qpymax 0 wait) w1) as (Hw & _ & Hout);
      [apply Qpymax_ge_l|lra|].
    apply agrees_bind; [apply Hw|]. intros [] w2 E2. unfold _wait_with_cancellation_boundaries in E2.
    rewrite E2 in Hw, Hout. cbn [snd] in Hw. destruct Hout as [Hclock _].
    assert (w_attempted w2 = attempted ++ [b]) as Hatt2 by (by rewrite (wd_attempted _ _ _ Hw)).
    apply (ready_waited _ _ _ _ _ _ Hw) in Hready.
    destruct (allow_again_ready _ _ Hready Hatt2) as (w3 & E3 & Hr3 & Hc3 & Hn3).
    apply agrees_bind; rewrite E3 //. intros [] w4 [= <-].
    apply Hcb. rewrite -Hc3 in Hr3. eapply entry_with_backend; try done. apply Hrank. rewrite Hc3. lra.
Qed.

Let strategy := Some (config, discovery).

Lemma strategy_step error stream started w :
  ready (attempted ++ [b]) start (w_clock w) w → w_attempted w = attempted ++ [b] →
  rank attempted (w_clock w - start) ≤ S n →
  ∃ result, apply_failure_strategy parse_http_date strategy routing error model b start stream started w =
      (Ok result, w) ∧
    match fr_decision result with
    | WAIT_AND_RETRY => ∃ wait, fr_wait_seconds result = Some wait ∧ (0 < wait)%Q ∧
        ∀ clock, (w_clock w + wait <= clock)%Q → rank attempted (clock - start) ≤ n
    | FAILOVER_IMMEDIATE => ∃ next, fr_next_backend result = Some next ∧ next ∉ attempted ++ [b] ∧
        rank (attempted ++ [b]) (w_clock w - start) ≤ n
    | SURFACE_ERROR => is_Some (fr_error_to_surface result)
    end.
Proof.
  intros Hready Hatt Hrank. unfold apply_failure_strategy, strategy. eexists. split; [reflexivity|].
  rewrite Hatt. set (av := _ <$> routing _). clearbody av.
  pose proof (decision_is_justified parse_http_date (w_clock w) config discovery error model b
    (attempted ++ [b]) (w_clock w - start) stream started av) as Hj.
  set (result := decide_failure _ _ _ _ _ _ _ _ _ _ _ _) in *. clearbody result.
  unfold decision_justified in Hj. destruct (fr_decision result).
  - destruct Hj as (_ & _ & hint & wait & _ & Hw & _ & _ & _ & Hmin & Hfit). pose proof min_wait_pos.
    exists wait. split_and!; [done|lra|]. intros clock Hclock.
    pose proof (rank_wait attempted (w_clock w - start) (clock - start) wait Hmin Hfit ltac:(lra)). lia.
  - destruct Hj as (_ & Hbud & next & Hn & _ & Hni & _). exists next. split_and!; [done..|].
    pose proof (rank_hop attempted b (w_clock w - start)). unfold budget_exhausted in Hbud. lia.
  - destruct Hj as (e & He & _). by exists e.
Qed.

(** A failure of an attempt: both ways to go on agree, within [n] calls. *)
Lemma recovery_step error stream started w :
  ready attempted start (w_clock w) w → w_attempted w = attempted →
  rank attempted (w_clock w - start) ≤ S n →
  agrees n
    (apply_failure_recovery parse_http_date parse_qs strategy routing gate_cancelled wait_cancelled
       config_keepalive_interval completion_id request_stream a_session_id random_value cb1
       error model b start stream started request)
    (apply_failure_recovery parse_http_date parse_qs strategy routing gate_cancelled wait_cancelled
       config_keepalive_interval completion_id request_stream a_session_id random_value cb2
       error model b start stream started request) w.
Proof.
  intros Hready Hatt Hrank. unfold apply_failure_recovery.
  apply agrees_bind; [done|]. intros a w0 [= <- <-]. rewrite Hatt.
  assert (str_in b attempted = false) as ->.
  { destruct (str_in b attempted) eqn:E; [|done]. by apply str_in_spec in E. }
  apply agrees_bind; [done|]. intros [] w1 [= E1]. cbn [when negb] in E1.
  assert (ready (attempted ++ [b]) start (w_clock w) w1) as Hr1.
  { rewrite -E1. by eapply (ready_attempted _ _ _ _ (attempted ++ [b])) in Hready. }
  assert (w_attempted w1 = attempted ++ [b] ∧ w_clock w1 = w_clock w) as [Ha1 Hc1] by by rewrite -E1.
  clear E1. rewrite -Hc1 in Hrank, Hr1. pose proof Hr1 as (c & Hc & Hcar & _).
  assert (build_next_request parse_qs random_value request started (Some error) (w_context w1) =
    (Ok None, w_context w1)) as Hbridge.
  { rewrite Hc. unfold build_next_request. destruct (_ || _); [done|].
    unfold _load_weighted_state, _load_failover_state. by rewrite (ca_plain _ _ _ Hcar). }
  apply agrees_bind; [unfold with_context; by rewrite Hbridge|]. intros o w2. unfold with_context.
  rewrite Hbridge. intros [= <- <-]. assert (set_context (w_context w1) w1 = w1) as -> by by destruct w1.
  unfold strategy at 1 3. set (err := if isinstance _ _ then _ else _). clearbody err.
  destruct (strategy_step err stream started w1 Hr1 Ha1 Hrank) as (result & E & Hres).
  apply agrees_bind; rewrite E //. intros ? ? [= <- <-]. destruct (fr_decision result).
  - destruct Hres as (wait & -> & Hpos & Hw). by apply retry_step.
  - destruct Hres as (next & -> & Hni & Hr). by apply failover_step.
  - destruct Hres as [e ->]. destruct (fr_next_backend result); apply agrees_refl; cbn; lia.
Qed.
End step.

Let strategy := Some (config, discovery).
Let call := call_completion parse_http_date parse_qs strategy routing gate_cancelled wait_cancelled
  config_keepalive_interval completion_id request_stream a_session_id random_value normalize terminal_chunk
  failover_routes get_failover_plan env.

(** A call whose tracking starts from a budget with [n] calls left, and whose
    target, when there is one, has not been tried. *)
Record opening (n : nat) (request : ChatRequest) (w : world) : Prop := {
  op_model : req_model request = model;
  op_routes : truthy (od_get "failover_routes" (req_extra_body request)) = false;
  op_context : is_Some (w_context w);
  op_tracking : ∀ w', w_clock w' = w_clock w →
    (∀ k, k ∈ budget_keys → ctx_get k (w_context w') = ctx_get k (w_context w)) → is_Some (w_context w') →
    ∃ attempted start started w1, start_attempt w' = (Ok (start, started), w1) ∧
      ready attempted start (w_clock w1) w1 ∧ w_attempted w1 = attempted ∧ w_calls w1 = w_calls w' ∧
      w_clock w1 = w_clock w' ∧ rank attempted (w_clock w1 - start) ≤ n ∧
      ∀ c t, bmr_answer request c = Ok t → tgt_backend t ∉ attempted
}.

Lemma start_attempt_budget w c b c' :
  w_context w = Some c → get_or_init_stream_recovery_budget (w_clock w) (Some c) = (Some b, Some c') →
  carries c' (attempted_backends b) (start_seconds (budget_start_time b)) →
  ∃ started w1, start_attempt w = (Ok (start_seconds (budget_start_time b), started), w1) ∧
    ready (attempted_backends b) (start_seconds (budget_start_time b)) (w_clock w1) w1 ∧
    w_attempted w1 = attempted_backends b ∧ w_calls w1 = w_calls w ∧ w_clock w1 = w_clock w.
Proof.
  intros Hw Hg Hc. unfold start_attempt. rewrite Hw Hg. eexists _, _. split; [reflexivity|].
  split_and!; [|done..]. exists c'. split_and!; [done..|]. cbn. lra.
Qed.

Lemma entry_opening n request w : entry n request w → opening n request w.
Proof.
  intros [Hm Hr (attempted & start & (c & Hc & Hcar & _) & (b & Hb & Hni) & Hrank)].
  split; [done..|by rewrite Hc|]. intros w' Hclk Hf [c' Hc']. rewrite Hc Hc' in Hf.
  apply (carries_frame c c') in Hcar; [|done].
  destruct (get_budget_carried (w_clock w') c' _ _ Hcar) as (bud & c1 & Hg & Ha & Hs & Hcar1). subst.
  destruct (start_attempt_budget w' c' bud c1) as (st & w1 & E & Hready & Ha1 & Hn1 & Hclk1); [done..|].
  eexists _, _, st, w1. split_and!; try done; [by rewrite Hclk1 Hclk|].
  intros c2 t Ht. destruct (rh_answer Hhonours request c2 t Hm Ht) as [_ Hback]. by rewrite (Hback b).
Qed.

(** The calls a configuration allows. *)
Definition call_bound : nat :=
  Z.to_nat (max_failover_hops config) +
  Z.to_nat (Qfloor (total_timeout_budget config / min_retry_wait config)).

Lemma unstarted_opening request w c :
  req_model request = model → truthy (od_get "failover_routes" (req_extra_body request)) = false →
  w_context w = Some c → unstarted c → opening call_bound request w.
Proof.
  intros Hm Hr Hc Hun. split; [done..|by rewrite Hc|]. intros w' Hclk Hf [c' Hc']. rewrite Hc Hc' in Hf.
  assert (unstarted c') as Hun'.
  { destruct Hun. split; rewrite Hf //; unfold budget_keys; set_solver. }
  destruct (get_budget_unstarted (w_clock w') c' Hun') as (bud & c1 & Hg & Ha & Hs & Hcar1).
  rewrite -Ha -Hs in Hcar1.
  destruct (start_attempt_budget w' c' bud c1) as (st & w1 & E & Hready & Ha1 & Hn1 & Hclk1); [done..|].
  eexists _, _, st, w1. split_and!; try done.
  - rewrite Ha Hs Hclk1. pose proof (float_of_Q_le (w_clock w')).
    pose proof (rank_mono [] 0 (w_clock w' - start_seconds (float_of_Q (w_clock w'))) ltac:(lra)).
    assert (rank [] 0 ≤ call_bound); [|lia]. unfold rank, call_bound. cbn [length].
    assert ((total_timeout_budget config - 0) / min_retry_wait config ==
      total_timeout_budget config / min_retry_wait config)%Q as Hq
      by (field; pose proof min_wait_pos; lra).
    rewrite Hq. destruct Hvalid. lia.
  - intros c2 t _. rewrite Ha. apply not_elem_of_nil.
Qed.

Lemma sync_plain request t :
  req_model request = model → tgt_model t = model →
  truthy (od_get "failover_routes" (req_extra_body request)) = false →
  let r := synchronize_request_with_target request t in
  req_model r = model ∧ truthy (od_get "failover_routes" (req_extra_body r)) = false.
Proof.
  intros Hm Ht Hr. unfold synchronize_request_with_target. rewrite Hm Ht String.eqb_refl. cbn [req_model req_extra_body].
  split; [done|]. set (body := match tgt_uri_params t with [] => _ | _ => _ end).
  assert (od_get "failover_routes" body = od_get "failover_routes" (req_extra_body request)) as Hb.
  { subst body. destruct (tgt_uri_params t); [by rewrite od_get_pop_ne|by rewrite od_get_set_ne]. }
  clearbody body. destruct (req_extra_body request) as [|p l]; [by rewrite Hb|].
  destruct (is_empty _); [rewrite od_get_pop_ne //|rewrite od_get_set_ne //]; rewrite od_get_set_ne // Hb //.
Qed.

Lemma outer_agrees n stream backend m1 m2 w :
  agrees n m1 m2 w →
  agrees n (outer_handlers normalize terminal_chunk stream backend m1)
    (outer_handlers normalize terminal_chunk stream backend m2) w.
Proof.
  intros [He Hc]. split; [unfold outer_handlers; by rewrite He|]. by rewrite outer_calls.
Qed.

Lemma resolve_frame w request r w1 :
  with_context (resolve_target request) w = (r, w1) → is_Some (w_context w) →
  fst (resolve_target request (w_context w)) = r ∧ w_clock w1 = w_clock w ∧ w_calls w1 = w_calls w ∧
  is_Some (w_context w1) ∧ ∀ k, k ∈ budget_keys → ctx_get k (w_context w1) = ctx_get k (w_context w).
Proof.
  unfold with_context, resolve_target. intros [= <- <-] [c Hc]. rewrite Hc. cbn. split_and!; [done..|by eexists|].
  intros k Hk. by apply (rh_frame Hhonours).
Qed.

Lemma check_complex_plain request :
  truthy (od_get "failover_routes" (req_extra_body request)) = false →
  check_complex_failover failover_routes request model = Ok false.
Proof. intros Hr. unfold check_complex_failover. rewrite Hr. cbn. by rewrite Hroutes. Qed.

Lemma agrees_next_call {A} n (f1 f2 : backend_call → W A) w :
  agrees n (f1 (env (w_calls w))) (f2 (env (w_calls w)))
    (MkWorld (w_context w) (w_attempted w) (w_clock w) (w_sleeps w) (S (w_calls w))) →
  agrees (S n) (next_call env ≫= f1) (next_call env ≫= f2) w.
Proof.
  intros [He Hc]. split; [exact He|]. cbn [w_calls] in Hc.
  unfold mbind, stm_bind, next_call. by rewrite -Nat.add_succ_comm.
Qed.

(** One pass: both ways to go on agree, with one call more. *)
Lemma complete_once_step n cb1 cb2 request stream w :
  callbacks_agree n cb1 cb2 → opening (S n) request w →
  let once := complete_once parse_http_date parse_qs strategy routing gate_cancelled wait_cancelled
    config_keepalive_interval completion_id request_stream a_session_id random_value normalize terminal_chunk
    failover_routes get_failover_plan env in
  agrees (S n) (once cb1 request stream true) (once cb2 request stream true) w.
Proof.
  intros Hcb [Hm Hr Hctx Htrack] once. unfold once, complete_once.
  destruct (with_context (resolve_target request) w) as [ans w1] eqn:E1.
  destruct (resolve_frame w request ans w1 E1 Hctx) as (Hans & Hclk1 & Hn1 & Hctx1 & Hf).
  apply agrees_bind; rewrite E1 //. intros t ? [= -> <-].
  destruct (rh_answer Hhonours request (w_context w) t Hm Hans) as [Htm _]. rewrite Htm.
  destruct (sync_plain request t Hm Htm Hr) as [Hm' Hr']. set (req := synchronize_request_with_target request t) in *.
  apply agrees_bind; [done|]. intros cx w2. rewrite check_complex_plain //. intros [= <- <-].
  apply agrees_next_call.
  set (w2 := MkWorld (w_context w1) (w_attempted w1) (w_clock w1) (w_sleeps w1) (S (w_calls w1))).
  destruct (Htrack w2) as (attempted & start & started & w3 & E3 & Hready & Ha3 & Hn3 & Hclk3 & Hrank & Hfresh);
    [done..|]. clearbody w2.
  destruct (env (w_calls w1)) as [e|d e|d r] eqn:Eenv.
  - apply agrees_refl. unfold answer_error. destruct stream; cbn; lia.
  - apply agrees_bind; rewrite E3 //. intros tr ? [= <- <-]. apply outer_agrees. cbn [fst snd].
    apply agrees_bind; [done|]. intros [] w4 [= <-]. unfold on_call_failure.
    destruct (is_cancellation e); [apply agrees_refl; cbn; lia|].
    destruct (is_auth_failure _); [apply agrees_refl; cbn; lia|]. rewrite Htm.
    assert (w_clock w3 <= w_clock w3 + d)%Q as Hle by (pose proof (Hdurations _ _ _ Eenv); lra).
    apply recovery_step with (attempted := attempted); try done.
    + exact (Hfresh (w_context w) t Hans).
    + destruct Hready as (c & ? & ? & ?). exists c. split_and!; [done..|]. cbn. lra.
    + cbn [w_clock]. etrans; [|exact Hrank]. apply rank_mono. lra.
  - apply agrees_refl. unfold mbind, stm_bind. rewrite E3. cbn. lia.
Qed.

Lemma opening_rank n request w : opening n request w → n ≠ 0.
Proof.
  intros [_ _ Hc Ht]. destruct (Ht w) as (a & s & ? & w1 & _ & _ & _ & _ & _ & Hr & _); [done..|].
  unfold rank in Hr. lia.
Qed.

Lemma call_agrees n fuel request stream w :
  opening n request w → n ≤ fuel →
  agrees n (call fuel request stream true) (call (S fuel) request stream true) w.
Proof.
  revert fuel request stream w; induction n as [|n IH]; intros fuel request stream w Hop Hle.
  { by apply opening_rank in Hop. }
  destruct fuel as [|fuel]; [lia|]. apply (complete_once_step n); [|done].
  intros request' stream' w' He. apply IH; [by apply entry_opening|lia].
Qed.

Lemma recovery_bounded fuel request stream w c :
  req_model request = model → truthy (od_get "failover_routes" (req_extra_body request)) = false →
  w_context w = Some c → unstarted c → call_bound ≤ fuel →
  call fuel request stream true w = call call_bound request stream true w ∧
  w_calls (snd (call fuel request stream true w)) ≤ w_calls w + call_bound.
Proof.
  intros Hm Hr Hc Hun Hle. pose proof (unstarted_opening request w c Hm Hr Hc Hun) as Hop.
  destruct (call_agrees call_bound fuel request stream w Hop Hle) as [_ Hcalls]. split; [|done].
  clear Hcalls. induction Hle as [|fuel Hle IH]; [done|].
  destruct (call_agrees call_bound fuel request stream w Hop Hle) as [He _]. by rewrite -He.
Qed.
End loop.

(** C3: Recovery ends, as long as failing over moves on.  Assume a configuration that
    its validation accepts, a positive keep-alive interval, failures that take no
    negative time, a model without configured failover routes, and a resolver that for requests of this model answers the model and the backend which the
    request's extra body names and leaves the recovery's entries in the context alone
    (a session with a backend of its own, a static route and an explicit selector make
    the resolver of the proxy answer otherwise; without the assumption failover can go
    back and forth for ever).  Then, for a request whose context has not begun a
    recovery, whatever the backends answer, whatever discovery returns at each point
    and whenever the session is cancelled, a completion makes at most
    [max_failover_hops + floor(total_timeout_budget / min_retry_wait)] backend calls
    through all its retries and failovers, and that much recursion is enough: more
    fuel changes nothing. *)
Theorem recovery_terminates `{R : BackendModelResolver} parse_http_date parse_qs config discovery routing
    gate_cancelled wait_cancelled config_keepalive_interval completion_id request_stream a_session_id random_value
    normalize terminal_chunk failover_routes get_failover_plan env fuel request stream w c :
  let call := call_completion parse_http_date parse_qs (Some (config, discovery)) routing gate_cancelled
    wait_cancelled config_keepalive_interval completion_id request_stream a_session_id random_value normalize
    terminal_chunk failover_routes get_failover_plan env in
  config_valid config →
  (0 < default 8 config_keepalive_interval)%Q →
  (∀ n d e, env n = Fails d e → (0 <= d)%Q) →
  resolver_honours (req_model request) →
  od_mem (req_model request) failover_routes = false →
  truthy (od_get "failover_routes" (req_extra_body request)) = false →
  w_context w = Some c → unstarted c → call_bound config ≤ fuel →
  call fuel request stream true w = call (call_bound config) request stream true w ∧
  w_calls (snd (call fuel request stream true w)) ≤ w_calls w + call_bound config.
Proof.
  intros call Hvalid Hinterval Hdurations Hhonours Hroutes Hr Hc Hun Hle.
  by apply (recovery_bounded parse_http_date parse_qs config discovery routing gate_cancelled wait_cancelled
    config_keepalive_interval completion_id request_stream a_session_id random_value normalize terminal_chunk
    failover_routes get_failover_plan env (req_model request) Hvalid Hhonours Hroutes Hinterval Hdurations
    fuel request stream w c).
Qed.

(** ** A concrete system *)

(** A resolver that sends a request where its extra body says. *)
Definition plain_resolver (default_backend : str) : BackendModelResolver := {|
  bmr_answer req _ :=
    Ok (MkTarget (default default_backend (as_str (od_get "backend_type" (req_extra_body req)))) (req_model req) []);
  bmr_extensions _ c := ctx_extensions c
|}.

Lemma plain_resolver_honours default_backend model :
  resolver_honours (R := plain_resolver default_backend) model.
Proof. split; [|done]. intros req c t <- [= <-]. split; [done|]. by intros b ->. Qed.

Definition two_backends : BackendDiscovery := catalogue_discovery [("gpt-4o", ["a"; "b"])].
Definition server_error : exn := backend_error "internal error" (Some 500%Z).
Definition rate_limited : exn := mk_BackendError RateLimitExceededError "slow down" [("retry_after", JInt 20)] None None None.

(** The flow over two backends that both fail each time in the same way. *)
Definition failing_flow (e : exn) (duration : Q) (fuel : nat) : ChatRequest → bool → bool → W response :=
  call_completion (H := plain_resolver "a") (λ _, None) (λ _, None) (Some (default_failure_config, None))
    (λ _, Some two_backends) (λ _, false) (λ _, false) None "keepalive" (λ _, false) None 0 (λ e _, e)
    (λ e p, Raw (JStr p)) [] (λ _ _, Ok []) (λ _, Fails duration e) fuel.

Definition fresh_world : world := MkWorld (Some (MkContext None ∅)) [] 1000 [] 0.

Lemma default_config_valid : config_valid default_failure_config.
Proof. split; vm_compute; discriminate. Qed.

Lemma recovery_terminates_witness :
  w_calls (snd (failing_flow rate_limited 1 95 (MkRequest "gpt-4o" [] []) false true fresh_world)) ≤ 0 + 95.
Proof.
  assert (95 = call_bound default_failure_config) as Hb by (vm_compute; reflexivity).
  rewrite {2}Hb. unfold failing_flow.
  refine (proj2 (recovery_terminates (R := plain_resolver "a") (λ _, None) (λ _, None) default_failure_config None
    (λ _, Some two_backends) (λ _, false) (λ _, false) None "keepalive" (λ _, false) None 0 (λ e _, e)
    (λ e p, Raw (JStr p)) [] (λ _ _, Ok []) (λ _, Fails 1 rate_limited) 95 (MkRequest "gpt-4o" [] []) false
    fresh_world (MkContext None ∅) default_config_valid _ _ (plain_resolver_honours "a" "gpt-4o") _ _ _ _ _));
    try reflexivity.
  - by intros n d e [= <- _].
  - by split.
Defined.

(** ** Without a context *)

Definition request_for (backend : str) : ChatRequest :=
  MkRequest "gpt-4o" [] [("backend_type", JStr backend); ("model", JStr "gpt-4o")].

Lemma ping_pong_step cb x y attempted k :
  (x = "a" ∧ y = "b" ∨ x = "b" ∧ y = "a") →
  w_calls (snd (complete_once (H := plain_resolver "a") (λ _, None) (λ _, None) (Some (default_failure_config, None))
    (λ _, Some two_backends) (λ _, false) (λ _, false) None "keepalive" (λ _, false) None 0 (λ e _, e)
    (λ e p, Raw (JStr p)) [] (λ _ _, Ok []) (λ _, Fails 0 server_error) cb (request_for x) false true
    (MkWorld None attempted 0 [] k))) =
  w_calls (snd (cb (request_for y) false true (MkWorld None [x] 0 [] (S k)))).
Proof.
  intros Hxy. set (w1 := MkWorld None [x] 0 [] (S k)).
  rewrite -(outer_calls (λ e _, e) (λ e p, Raw (JStr p)) false x (cb (request_for y) false true) w1).
  destruct Hxy as [[-> ->]|[-> ->]]; vm_compute; reflexivity.
Qed.

(** Without a request context the recovery has no budget: two backends that
    fail at once are called as often as the recursion allows, each failing over
    to the other. *)
Theorem no_context_ping_pong n :
  w_calls (snd (failing_flow server_error 0 n (request_for "a") false true (MkWorld None [] 0 [] 0))) = n.
Proof.
  cut (∀ k attempted x y, (x = "a" ∧ y = "b" ∨ x = "b" ∧ y = "a") →
    w_calls (snd (failing_flow server_error 0 n (request_for x) false true (MkWorld None attempted 0 [] k))) =
    k + n).
  { intros H. rewrite (H 0 [] "a" "b"); [by left|done]. }
  induction n as [|n IH]; intros k attempted x y Hxy; [cbn; lia|].
  unfold failing_flow in *. cbn [call_completion]. rewrite (ping_pong_step _ x y) //.
  rewrite (IH _ _ y x); [tauto|lia].
Qed.
