(* ===== verification/RoutedFailover.v ===== *)
(** * Routing, resilience and failover together

    The composition the application wires: the routing service consults the
    resilience coordinator of [Resilience], and the failure strategy of
    [FailureStrategy] finds its alternatives through the routing service, which
    discharges the discovery interface the strategy is proved against. *)

From Stdlib Require Import Ascii.
From stdpp Require Import sorting.
From S2P Require Import Prelude PyStr PySort PyDict Exceptions ModelUtils ConstrainedBackends.
From S2P Require Import CapabilityIndex BackendRouting.
From S2P Require Import TTLCache CircuitBreaker RateLimitState ErrorHandlers Resilience.
From S2P Require Import RetryAfter CompositeDomain RoutingState FailureStrategy.
From stdpp Require Import options.

Set Default Proof Using "All".

(** ** The coordinator as the routing service's oracle *)

Section oracle.
Context {IC MC : Type} `{ICache : !TTLCache str InstanceState IC, MCache : !TTLCache model_key ModelState MC}.
Context (cfg : CircuitBreakerConfig).

(** [check_availability(candidate, model).should_proceed()] at one moment.  With
    health gating the endpoint registry is asked first, and may raise. *)
Definition coordinator_oracle (registry : option (str → res exn bool)) (now : clock) (candidate model : str)
    (st : resilience_state (IC := IC) (MC := MC)) : res exn bool * resilience_state :=
  let backend_name := (partition ":" candidate).1 in
  match registry with
  | Some is_backend_healthy =>
      match is_backend_healthy backend_name with
      | Err e => (Err e, st)
      | Ok healthy =>
          let '(decision, st') := check_availability cfg (Some (λ _, healthy)) now candidate model st in
          (Ok (should_proceed decision), st')
      end
  | None =>
      let '(decision, st') := check_availability cfg None now candidate model st in
      (Ok (should_proceed decision), st')
  end.
End oracle.

(** ** The routing service as the strategy's discovery *)

Section discovery.
Context `{ConfigProvider} {Σ : Type}.
Context (routing_config : RoutingConfig) (capability_index : ModelCapabilitySnapshot).
Context (resilience_coordinator : option (str → str → Σ → res exn bool * Σ)).
Context (disabled_backends : option (gset string)).

Definition alternatives_at (st : routing_state Σ) (model : str) (exclude : gset string) : list str :=
  match alternatives_for routing_config capability_index resilience_coordinator disabled_backends
          model exclude st with
  | (Ok l, _) => l
  | (Err _, _) => []
  end.

(** [find_alternative_instances] in the state the failure finds; when it raises,
    so does the strategy, which has no answer then. *)
#[refine] Instance routing_discovery (st : routing_state Σ) :
    BackendDiscovery := {| find_alternative_instances := alternatives_at st |}.
Proof.
  intros model exclude b. unfold alternatives_at.
  destruct (alternatives_run routing_config capability_index resilience_coordinator disabled_backends
    model exclude st) as ([l|e] & σ & -> & Hl); [|intros Hb; by apply elem_of_nil in Hb].
  destruct Hl as (_ & Hl & _). intros Hb. by destruct (Hl b Hb) as (_ & [? _] & _).
Defined.

(** C19: For a failure that is not worth waiting for, before any output and within the
    budgets, the strategy asks routing for the other instances.  When routing
    answers, the strategy fails over exactly when an eligible instance is left; the
    target serves the model, has not been tried, is not disabled and is let
    through by the resilience coordinator.  Routing raises instead, and the
    strategy with it, only what an availability check raised or the overflow of an
    integer cost or priority of a candidate beyond the range of floats. *)
Theorem failover_iff_eligible parse_http_date now config error model current attempted elapsed
    is_streaming st :
  let exclude := {[ current ]} ∪ list_to_set attempted in
  let candidates := _discover_model_candidates capability_index model in
  _is_recoverable_error parse_http_date now error = false →
  ¬ budget_exhausted config attempted elapsed →
  match fst (alternatives_for routing_config capability_index resilience_coordinator disabled_backends
          model exclude st) with
  | Ok _ =>
      let result := decide_failure parse_http_date now config (Some (routing_discovery st)) error model
                      current attempted elapsed is_streaming false None in
      ∃ eligible,
        fst (_filter_eligible_candidates resilience_coordinator disabled_backends model candidates exclude st)
          = Ok eligible ∧
        (eligible = [] ∧ result = surface error ∨
         ∃ next, result = MkResult FAILOVER_IMMEDIATE None (Some next) None ∧ next ∈ eligible ∧
           next ≠ current ∧ next ∉ attempted ∧ next ∈ candidates ∧
           next ∉ default ∅ disabled_backends ∧
           ∃ σ, proceeds resilience_coordinator next model σ)
  | Err e => coordinator_raises resilience_coordinator e ∨
      e = overflow_error ∧ score_overflows routing_config candidates
  end.
Proof.
  intros exclude candidates Hrec Hbud.
  destruct (alternatives_run routing_config capability_index resilience_coordinator disabled_backends
    model exclude st) as ([l|e] & σ & Hrun & Hl); rewrite Hrun; [|exact Hl]. cbn beta iota delta [fst]. intros result.
  assert (result = match l with
    | next :: _ => MkResult FAILOVER_IMMEDIATE None (Some next) None
    | [] => surface error end) as ->.
  { subst result. unfold decide_failure. rewrite Hrec. simpl.
    destruct (Z.leb_spec (max_failover_hops config) (Z.of_nat (length attempted))); [by destruct Hbud; left|].
    destruct (Qle_bool_spec (total_timeout_budget config) elapsed); [by destruct Hbud; right|].
    unfold alternatives_at. unfold exclude in Hrun. by rewrite Hrun. }
  destruct Hl as (_ & Hl & eligible & He & Hperm). exists eligible. split; [exact He|].
  destruct l as [|next l].
  - left. split; [by apply Permutation_nil_l in Hperm|done].
  - right. exists next. split; [done|]. destruct (Hl next) as (Hd & [Hex Hdis] & Hp); [by left|].
    unfold exclude in Hex. rewrite not_elem_of_union not_elem_of_singleton elem_of_list_to_set in Hex.
    destruct Hex. split; [rewrite -Hperm; by left|]. done.
Qed.
End discovery.

(** ** Witness *)

(** The sample service over the real coordinator: the circuit of [openai.2] is
    open, so the failover goes to [openai.3]. *)
Definition sample_routed_state : routing_state resilience_state :=
  MkRouting ∅ (MkResilience sample_limits {[ "openai.2" := MkCB OPEN 3 (Some 300%Q) 0 0 "x" ]}).

Definition sample_oracle := coordinator_oracle default_cb_config None (MkClock 50 50).

Lemma failover_iff_eligible_witness :
  decide_failure (λ _, None) 0 default_failure_config
    (Some (routing_discovery (H := sample_routing_provider) by_cost sample_index (Some sample_oracle) None
       sample_routed_state))
    (mk_ValidationError "bad" []) "gpt-4" "openai.1" [] 0 false false None =
  MkResult FAILOVER_IMMEDIATE None (Some "openai.3") None.
Proof.
  pose proof (failover_iff_eligible (H := sample_routing_provider) by_cost sample_index (Some sample_oracle) None
    (λ _, None) 0 default_failure_config (mk_ValidationError "bad" []) "gpt-4" "openai.1" [] 0 false
    sample_routed_state) as Ho.
  assert (fst (alternatives_for (H := sample_routing_provider) by_cost sample_index (Some sample_oracle) None
    "gpt-4" ({[ "openai.1" ]} ∪ list_to_set []) sample_routed_state) = Ok ["openai.3"]) as Ha
    by (vm_compute; reflexivity).
  cbv zeta in Ho. rewrite Ha in Ho.
  destruct Ho as (eligible & He & Hcases).
  - vm_compute. reflexivity.
  - intros [Hb|Hb]; vm_compute in Hb; by apply Hb.
  - assert (eligible = ["openai.3"]) as ->.
    { apply (f_equal (λ r, match r with Ok l => l | Err _ => [] end)) in He. rewrite <-He. vm_compute. reflexivity. }
    destruct Hcases as [[? _]|(next & Hres & Hin & _)]; [discriminate|].
    rewrite Hres. apply list_elem_of_singleton in Hin as ->. reflexivity.
Defined.

(** A registry that cannot read the URL of a backend makes the strategy's question
    raise. *)
Example registry_error_escapes :
  fst (alternatives_for (H := sample_routing_provider) by_cost sample_index
    (Some (coordinator_oracle default_cb_config (Some (λ _, Err (py_exception "ValueError" "Invalid IPv6 URL")))
             (MkClock 50 50))) None "gpt-4" ∅ sample_routed_state)
  = Err (py_exception "ValueError" "Invalid IPv6 URL").
Proof. vm_compute. reflexivity. Qed.
