(* ===== verification/FailoverPlanner.v ===== *)
(** * Configured failover routes

    [src/core/services/failover_service.py], [failover_coordinator.py],
    [failover_strategy.py] and [failover_planner.py]: how the routes of the
    configuration become the ordered plan that the failure recovery executor
    tries, and what happens when the executor, the check in front of it and the
    planner are put together. *)

From S2P Require Import Prelude PyStr PyDict Exceptions ModelUtils RoutingState FailureRecovery.
From stdpp Require Import options.

(** ** Routes *)

Record FailoverRouteConfig : Type := MkRoute { route_policy : str; route_elements : list str }.

(** A route as configuration data or as a typed object. *)
Inductive route_data : Type := RawRoute (j : json) | TypedRoute (route : FailoverRouteConfig).

(** [FailoverRouteConfig.model_validate]; [None] is its [ValidationError]. *)
Definition model_validate (d : route_data) : option FailoverRouteConfig :=
  match d with
  | TypedRoute route => Some route
  | RawRoute (JStr s) => Some (MkRoute "k" [s])
  | RawRoute (JDict d) =>
      policy ← match od_get "policy" d with
               | None => Some "k"
               | Some (JStr p) => Some p
               | Some _ => None
               end;
      elements ← match od_get "elements" d with None => Some [] | Some _ => as_str_list (od_get "elements" d) end;
      Some (MkRoute policy elements)
  | RawRoute _ => None
  end.

Definition FailoverAttempt : Type := str * str.

(** ** The failover service *)

(** The typed routes by model, in insertion order. *)
Definition failover_service : Type := list (str * FailoverRouteConfig).

(** The constructor, which raises on a dictionary that is not a route and skips
    everything that is neither a dictionary nor a route. *)
Definition new_failover_service (routes : list (str * route_data)) : option failover_service :=
  foldl (λ (svc : option failover_service) '(backend, route),
    svc ← svc;
    match route with
    | RawRoute (JDict _) | TypedRoute _ => typed ← model_validate route; Some (od_set backend typed svc)
    | RawRoute _ => Some svc
    end) (Some []) routes.

Definition get_failover_route (svc : failover_service) (backend_type : str) : option FailoverRouteConfig :=
  od_get backend_type svc.

Definition add_failover_route (backend_type : str) (route : route_data) (svc : failover_service) :
    option failover_service :=
  typed ← model_validate route; Some (od_set backend_type typed svc).

Definition remove_failover_route (backend_type : str) (svc : failover_service) : bool * failover_service :=
  if od_mem backend_type svc then (true, od_pop backend_type svc) else (false, svc).

Definition clear_failover_routes (_ : failover_service) : failover_service := [].

(** [not route_data] *)
Definition route_truthy (d : route_data) : bool :=
  match d with RawRoute j => truthy (Some j) | TypedRoute _ => true end.

Definition is_fallback_key (key : str) : bool := str_in (lower (strip key)) ["default"; "*"].

(** The first entry under a conventional fallback key. *)
Definition fallback_route (routes : list (str * route_data)) : option route_data :=
  snd <$> (list_find (λ e, is_fallback_key e.1 = true) routes ≫= λ x, Some x.2).

(** The route a model is given, before validation. *)
Definition select_route (routes : list (str * route_data)) (model : str) : option route_data :=
  let fallback := match fallback_route routes with
                  | Some d => if route_truthy d then Some d else None
                  | None => None
                  end in
  match od_get model routes with
  | Some d => if route_truthy d then Some d else fallback
  | None => fallback
  end.

Definition parse_element (backend_type element : str) : option FailoverAttempt :=
  let parsed := parse_model_backend element backend_type in
  if is_empty (pm_backend_type parsed) || is_empty (pm_model_name parsed) then None
  else Some (pm_backend_type parsed, pm_model_name parsed).

Definition get_failover_attempts (routes : list (str * route_data)) (model backend_type : str) :
    list FailoverAttempt :=
  match select_route routes model with
  | None => []
  | Some d =>
      match model_validate d with
      | None => []
      | Some route_config => omap (parse_element backend_type) (route_elements route_config)
      end
  end.

(** ** The coordinator and the default strategy *)

Definition coordinator_get_failover_attempts (svc : failover_service) (model backend_type : str) :
    list FailoverAttempt :=
  get_failover_attempts ((λ e, (e.1, TypedRoute e.2)) <$> svc) model backend_type.

Definition register_route (model : str) (route : route_data) (svc : failover_service) : option failover_service :=
  typed ← model_validate route; Some (od_set model typed svc).

(** [DefaultFailoverStrategy.get_failover_plan] *)
Definition default_strategy (svc : failover_service) (model backend_type : str) : res exn (list FailoverAttempt) :=
  Ok (coordinator_get_failover_attempts svc model backend_type).

(** ** The planner *)

(** What the planner reads: the health check switch, absent in some
    configurations, the disabled backends, and whether each active backend is
    functional. *)
Record planner_env : Type := MkPlannerEnv {
  circuit_breaker_enabled : option bool;
  disabled_backends : gset string;
  active_backends : gmap string bool
}.

Definition backend_usable (env : planner_env) (backend_name : str) : bool :=
  if bool_decide (backend_name ∈ disabled_backends env) then false
  else
    let backend := match active_backends env !! backend_name with
                   | Some b => Some b
                   | None => active_backends env !! (backend_name +:+ ":default")
                   end in
    match backend with Some functional => functional | None => true end.

Definition filter_unhealthy_backends (env : planner_env) (plan : list FailoverAttempt) : list FailoverAttempt :=
  match circuit_breaker_enabled env with
  | Some true =>
      let filtered := filter (λ attempt, backend_usable env attempt.1 = true) plan in
      match filtered with [] => plan | _ => filtered end
  | _ => plan
  end.

(** [use_strategy] is the flag of the application state, false when reading it
    fails. *)
Definition get_failover_plan (env : planner_env) (svc : failover_service) (use_strategy : bool)
    (failover_strategy : option (str → str → res exn (list FailoverAttempt))) (model : str)
    (backend : option str) : res exn (list FailoverAttempt) :=
  let backend_for := default "" backend in
  let from_coordinator :=
    filter_unhealthy_backends env (coordinator_get_failover_attempts svc model backend_for) in
  match failover_strategy with
  | Some strategy =>
      if use_strategy then
        match strategy model backend_for with
        | Ok plan => Ok (filter_unhealthy_backends env plan)
        | Err e =>
            if isinstance (ex_class e) [BackendError; RateLimitExceededError] then Ok from_coordinator else Err e
        end
      else Ok from_coordinator
  | None => Ok from_coordinator
  end.

(** ** Facts *)

(** The route of a typed service for a model. *)
Definition route_for (svc : failover_service) (model : str) : option FailoverRouteConfig :=
  match od_get model svc with
  | Some route => Some route
  | None => snd <$> (list_find (λ e, is_fallback_key e.1 = true) svc ≫= λ x, Some x.2)
  end.

(** Its elements that name a backend and a model, in order. *)
Definition configured_attempts (svc : failover_service) (model backend_type : str) : list FailoverAttempt :=
  match route_for svc model with
  | Some route => omap (parse_element backend_type) (route_elements route)
  | None => []
  end.

Lemma od_get_typed model (svc : failover_service) :
  od_get model ((λ e, (e.1, TypedRoute e.2)) <$> svc) = TypedRoute <$> od_get model svc.
Proof. induction svc as [|[k r] svc IH]; [done|]. simpl. case_decide; [done|apply IH]. Qed.

Lemma fallback_typed (svc : failover_service) :
  fallback_route ((λ e, (e.1, TypedRoute e.2)) <$> svc) =
  TypedRoute <$> (snd <$> (list_find (λ e, is_fallback_key e.1 = true) svc ≫= λ x, Some x.2)).
Proof.
  unfold fallback_route. induction svc as [|[k r] svc IH]; [done|]. simpl.
  destruct (is_fallback_key k); simpl; [done|]. change (list_fmap _ _ ?f svc) with (f <$> svc).
  destruct (list_find _ (_ <$> svc)) as [[]|], (list_find _ svc) as [[]|]; simpl in *; congruence.
Qed.

Lemma coordinator_attempts svc model backend_type :
  coordinator_get_failover_attempts svc model backend_type = configured_attempts svc model backend_type.
Proof.
  unfold coordinator_get_failover_attempts, get_failover_attempts, select_route, configured_attempts, route_for.
  rewrite od_get_typed fallback_typed. destruct (od_get model svc); [done|]. simpl.
  by destruct (snd <$> _).
Qed.

Lemma filter_unhealthy_spec env plan :
  let usable := filter (λ attempt : FailoverAttempt, backend_usable env attempt.1 = true) plan in
  filter_unhealthy_backends env plan =
  if bool_decide (circuit_breaker_enabled env = Some true ∧ usable ≠ []) then usable else plan.
Proof.
  simpl. unfold filter_unhealthy_backends. destruct (circuit_breaker_enabled env) as [[]|].
  - destruct (filter _ plan); [by rewrite bool_decide_eq_false_2; [naive_solver|]|].
    by rewrite bool_decide_eq_true_2.
  - rewrite bool_decide_eq_false_2 //. naive_solver.
  - rewrite bool_decide_eq_false_2 //. naive_solver.
Qed.

(** With the default strategy the planner answers the same whether or not the
    strategy is switched on, and never raises. *)
Lemma planner_strategy_irrelevant env svc use_strategy strategy model backend :
  strategy = None ∨ strategy = Some (default_strategy svc) →
  get_failover_plan env svc use_strategy strategy model backend =
  Ok (filter_unhealthy_backends env (configured_attempts svc model (default "" backend))).
Proof.
  intros [->| ->]; unfold get_failover_plan, default_strategy; [|destruct use_strategy];
    by rewrite coordinator_attempts.
Qed.

(** The plan keeps the configured order, is empty only when the route is, and,
    with health checks on, holds exactly the usable backends as long as there is
    one. *)
Theorem failover_plan_healthy env svc use_strategy model backend :
  let configured := configured_attempts svc model (default "" backend) in
  ∃ plan, get_failover_plan env svc use_strategy (Some (default_strategy svc)) model backend = Ok plan ∧
    plan `sublist_of` configured ∧ (plan = [] ↔ configured = []) ∧
    (circuit_breaker_enabled env = Some true → ∀ good, good ∈ configured → backend_usable env good.1 = true →
      ∀ attempt, attempt ∈ plan ↔ attempt ∈ configured ∧ backend_usable env attempt.1 = true).
Proof.
  intros configured. rewrite planner_strategy_irrelevant; [by right|]. fold configured. eexists. split; [done|].
  rewrite filter_unhealthy_spec. case_bool_decide as Hb.
  - destruct Hb as [He Hne]. split; [apply sublist_filter|]. split.
    + split; [done|]. intros Hc. by rewrite Hc in Hne.
    + intros _ good _ _ attempt. rewrite list_elem_of_filter. tauto.
  - split; [done|]. split; [done|]. intros He good Hg Hu. exfalso. apply Hb. split; [done|].
    intros Hnil. assert (good ∈ filter (λ attempt : FailoverAttempt, backend_usable env attempt.1 = true) configured)
      as Hin by by apply list_elem_of_filter.
    rewrite Hnil in Hin. by apply elem_of_nil in Hin.
Qed.

(** The policy of a route changes nothing. *)
Theorem policy_ignored model policy policy' elements backend_type rest :
  get_failover_attempts ((model, TypedRoute (MkRoute policy elements)) :: rest) model backend_type =
  get_failover_attempts ((model, TypedRoute (MkRoute policy' elements)) :: rest) model backend_type.
Proof. unfold get_failover_attempts, select_route. simpl. by rewrite !decide_True. Qed.

(** A route written as a list of pairs is dropped when the service is built. *)
Theorem list_route_dropped :
  let route := JList [JList [JStr "openai.primary"; JStr "gpt-4"]; JList [JStr "openai.backup"; JStr "gpt-4"]] in
  new_failover_service [("gpt-4", RawRoute route)] = Some [] ∧
  coordinator_get_failover_attempts [] "gpt-4" "openai" = [].
Proof. done. Qed.

(** ** The planner behind the executor *)

Section served.
Context (env : planner_env) (svc : failover_service) (use_strategy : bool).
Context (gate_cancelled : Q → bool) (cb : ChatRequest → bool → bool → W response).
Context (request : ChatRequest) (stream : bool).

Definition planner (model backend : str) : res exn (list (str * str)) :=
  get_failover_plan env svc use_strategy (Some (default_strategy svc)) model (Some backend).

(** A request whose model has a route is answered by the first backend of the
    route that answers, the unusable ones left out and in the configured order;
    when all of them fail it is a backend error that carries the last error. *)
Theorem configured_route_served model backend failing rest w final w' :
  let plan := filter_unhealthy_backends env (configured_attempts svc model backend) in
  plan = failing ++ rest → gate_cancelled (w_clock w) = false →
  all_fail gate_cancelled cb request stream failing None w final w' →
  match rest with
  | [] => ∃ message, execute_complex_failover gate_cancelled cb planner request model backend stream w =
            (Err (backend_error message None), w')
  | attempt :: _ =>
      gate_cancelled (w_clock w') = false →
      ∀ r w'', plan_attempt cb request stream attempt w' = (Ok r, w'') →
        execute_complex_failover gate_cancelled cb planner request model backend stream w = (Ok r, w'')
  end.
Proof.
  intros plan Hplan Hg Hf.
  pose proof (failover_plan_in_order gate_cancelled cb request stream failing rest w final w' Hg Hf) as Hin.
  assert (∀ x w'', attempt_failover_plan gate_cancelled cb request plan stream w = (x, w'') →
    (∀ e, x = Err e → isinstance (ex_class e) [BackendError] = true) →
    execute_complex_failover gate_cancelled cb planner request model backend stream w = (x, w'')) as Hexec.
  { intros x w'' Hx Hb. unfold execute_complex_failover, planner.
    rewrite planner_strategy_irrelevant; [by right|]. cbn [default]. fold plan.
    unfold mbind at 1, stm_bind at 1, gate at 1, ensure_not_cancelled. rewrite Hg.
    unfold reraise_as, mbind, stm_bind, lift. rewrite Hx. destruct x as [r|e]; [done|]. by rewrite (Hb e eq_refl). }
  destruct rest as [|attempt rest].
  - rewrite app_nil_r in Hplan. eexists. apply Hexec; [rewrite Hplan; exact Hin|]. by intros e [= <-].
  - intros Hg' r w'' Ha. apply Hexec; [rewrite Hplan; by apply Hin|done].
Qed.
End served.

(** Two healthy backends, of which the first fails, and a disabled one. *)
Definition sample_env : planner_env := MkPlannerEnv (Some true) {[ "x"%string ]} {[ "y"%string := true ]}.
Definition sample_service : failover_service := [("m", MkRoute "k" ["x:a"; "y:bad"; "z:good"])].

Lemma configured_route_served_witness :
  execute_complex_failover (λ _, false) sample_callback (planner sample_env sample_service true)
    (MkRequest "m" [] []) "m" "x" false empty_world = (Ok (ResponseEnvelope (JStr "good")), empty_world).
Proof.
  apply (configured_route_served sample_env sample_service true (λ _, false) sample_callback (MkRequest "m" [] []) false
    "m" "x" [("y", "bad")] [("z", "good")] empty_world (Some (backend_error "down" None)) empty_world).
  - vm_compute. reflexivity.
  - reflexivity.
  - eapply all_fail_cons; [reflexivity|reflexivity|reflexivity|]. apply all_fail_nil.
  - reflexivity.
  - reflexivity.
Defined.

(** ** Observations on the composition *)

(** The check in front of the executor looks for the model itself, so a route
    under [default] is not used for the models it is meant for, although the
    planner would use it. *)
Theorem default_route_not_reached :
  let routes := [("default"%string, JDict [("elements", JList [JStr "openai:gpt-4"])])] in
  ∃ svc, new_failover_service ((λ e, (e.1, RawRoute e.2)) <$> routes) = Some svc ∧
    coordinator_get_failover_attempts svc "claude" "anthropic" = [("openai", "gpt-4")]%string ∧
    check_complex_failover routes (MkRequest "claude" [] []) "claude" = Ok false.
Proof. by eexists. Qed.

(** Routes that a request brings along pass the check but are not those the
    planner looks at: without a configured route for the model, such a request
    fails before any backend is called. *)
Theorem request_routes_not_planned env svc use_strategy gate_cancelled cb failover_routes request stream model backend routes w :
  od_get "failover_routes" (req_extra_body request) = Some (JDict routes) → od_mem model routes = true →
  route_for svc model = None → gate_cancelled (w_clock w) = false →
  check_complex_failover failover_routes request model = Ok true ∧
  execute_complex_failover gate_cancelled cb (planner env svc use_strategy) request model backend stream w =
    (Err (backend_error "all backends failed" None), w).
Proof.
  intros Hr Hm Hnone Hg. split.
  - unfold check_complex_failover. rewrite Hr. destruct routes as [|e routes]; [done|]. simpl. by rewrite Hm.
  - unfold execute_complex_failover, planner. rewrite planner_strategy_irrelevant; [by right|].
    unfold configured_attempts. rewrite Hnone.
    assert (filter_unhealthy_backends env [] = []) as ->
      by (unfold filter_unhealthy_backends; by destruct (circuit_breaker_enabled env) as [[]|]).
    unfold mbind, stm_bind, gate, ensure_not_cancelled. rewrite Hg. unfold reraise_as, lift, attempt_failover_plan.
    unfold mbind, stm_bind, gate, ensure_not_cancelled. by rewrite Hg.
Qed.

Lemma request_routes_not_planned_witness :
  let request := MkRequest "m" [] [("failover_routes", JDict [("m", JStr "y:n")])] in
  check_complex_failover [] request "m" = Ok true ∧
  execute_complex_failover (λ _, false) sample_callback (planner sample_env [] true) request "m" "x" false empty_world =
    (Err (backend_error "all backends failed" None), empty_world).
Proof. intros request. by apply (request_routes_not_planned sample_env [] true (λ _, false) sample_callback [] request false "m" "x" [("m", JStr "y:n")] empty_world). Defined.
