(* ===== verification/StreamChunks.v ===== *)
(** * Stream chunks

    How the parallel completion code reads the chunks of a stream:
    [src/core/services/parallel_completion_racer.py] (is a chunk a meaningful
    token, a terminal error), [src/core/common/openai_stream_reasoning.py], and
    the aggregation of a stream into one response by
    [src/core/services/parallel_completion_orchestrator.py].

    [json.loads] and the UTF-8 decoding of bytes are parameters. *)

From Stdlib Require Import Ascii.
From stdpp Require Import sorting.
From S2P Require Import Prelude PyStr PySort PyDict.
From stdpp Require Import options.

(** A chunk is a value of the stream; [ChProcessed] is a [ProcessedResponse],
    [ChOther] any other object with its truth value. *)
Inductive chunk : Type :=
| ChNone
| ChBytes (data : str)
| ChStr (text : str)
| ChDict (d : list (str * json))
| ChProcessed (content : chunk) (metadata : list (str * json))
| ChOther (truth : bool).

(** ** Lines *)

Definition newline : str := String (ascii_of_nat 10) "".

(** The payloads of the [data:] lines, and whether there was such a line. *)
Definition sse_data (text : str) : bool * list str :=
  foldl (λ '(has_data_line, payload_lines) line,
    let stripped := strip line in
    if is_empty stripped then (has_data_line, payload_lines)
    else if startswith "data:" stripped then
      let data := lstrip (str_drop 5 stripped) in
      (true, if negb (is_empty data) && negb (String.eqb data "[DONE]")
             then payload_lines ++ [data] else payload_lines)
    else (has_data_line, payload_lines)) (false, []) (splitlines text).

(** ** OpenAI-shaped payloads *)

(** [a or b] on optional values. *)
Definition py_or (a b : option json) : option json := if truthy a then a else b.

Definition dict_of (v : option json) : option (list (str * json)) :=
  match v with Some (JDict d) => Some d | _ => None end.

Definition nonblank_str (v : option json) : bool :=
  match v with Some (JStr s) => negb (is_empty (strip s)) | _ => false end.

Definition choice_has_reasoning (choice : json) : bool :=
  match choice with
  | JDict c =>
      match dict_of (py_or (od_get "delta" c) (od_get "message" c)) with
      | Some delta =>
          nonblank_str (py_or (py_or (py_or (py_or (od_get "reasoning_content" delta)
            (od_get "reasoning" delta)) (od_get "thinking" delta)) (od_get "thought" delta))
            (od_get "reasoning_summary" delta))
      | None => false
      end
  | _ => false
  end.

Definition openai_dict_has_reasoning_output (payload : list (str * json)) : bool :=
  match od_get "choices" payload with
  | Some (JList choices) => existsb choice_has_reasoning choices
  | _ => false
  end.

Definition _delta_field_has_content (delta : list (str * json)) (field : str) : bool :=
  nonblank_str (od_get field delta).

Definition _delta_has_tool_calls (delta : list (str * json)) : bool :=
  match od_get "tool_calls" delta with Some (JList (_ :: _)) => true | _ => false end.

Definition choice_has_content (choice : json) : bool :=
  match choice with
  | JDict c =>
      match dict_of (od_get "delta" c) with
      | Some delta => _delta_field_has_content delta "content" || _delta_has_tool_calls delta
      | None => false
      end
  | _ => false
  end.

Definition _dict_has_meaningful_delta_content (payload : list (str * json)) : bool :=
  if openai_dict_has_reasoning_output payload then true
  else match od_get "choices" payload with
       | Some (JList choices) => existsb choice_has_content choices
       | _ => false
       end.

(** ** Chunks *)

Definition _is_terminal_error_chunk (content : chunk) (metadata : list (str * json)) : bool :=
  if truthy (od_get "error" metadata) then true
  else if bool_decide (as_str (od_get "finish_reason" metadata) = Some "error"%string) then true
  else match content with ChDict d => truthy (od_get "error" d) | _ => false end.

(** The whitespace [bytes.strip] removes. *)
Definition is_ascii_space (c : ascii) : bool :=
  let n := nat_of_ascii c in (n =? 32) || ((9 <=? n) && (n <=? 13)).

Fixpoint blank_bytes (data : str) : bool :=
  match data with "" => true | String c s => is_ascii_space c && blank_bytes s end.

Definition _KEEPALIVE_MARKERS : list str :=
  [": keep-alive" +:+ newline +:+ newline; ": keepalive" +:+ newline +:+ newline].

Section with_codecs.
Context (json_loads : str → option json) (utf8_decode : str → str).

(** [None] when the text has no [data:] line. *)
Definition _parse_sse_payload (text : str) : option bool :=
  let '(has_data_line, payload_lines) := sse_data text in
  if negb has_data_line then None
  else match payload_lines with
       | [] => Some false
       | _ => match json_loads (join newline payload_lines) with
              | Some (JDict parsed) => Some (_dict_has_meaningful_delta_content parsed)
              | _ => Some false
              end
       end.

Definition text_is_meaningful (text : str) : bool :=
  match _parse_sse_payload text with Some verdict => verdict | None => true end.

Fixpoint _is_meaningful_token (c : chunk) : bool :=
  match c with
  | ChNone => false
  | ChProcessed content metadata =>
      if truthy (od_get "_keepalive" metadata) then false
      else if _is_terminal_error_chunk content metadata then false
      else _is_meaningful_token content
  | ChBytes data =>
      if blank_bytes data then false
      else if str_in data _KEEPALIVE_MARKERS then false
      else text_is_meaningful (utf8_decode data)
  | ChStr text =>
      if is_empty (strip text) then false
      else if str_in text _KEEPALIVE_MARKERS then false
      else text_is_meaningful text
  | ChDict d =>
      if truthy (od_get "_keepalive" d) then false
      else _dict_has_meaningful_delta_content d
  | ChOther truth => truth
  end.

(** [isinstance(chunk, ProcessedResponse) and _is_terminal_error_chunk(chunk)] *)
Definition is_terminal_error (c : chunk) : bool :=
  match c with
  | ChProcessed content metadata => _is_terminal_error_chunk content metadata
  | _ => false
  end.

Lemma terminal_error_not_meaningful c : is_terminal_error c = true → _is_meaningful_token c = false.
Proof. destruct c; simpl; try done. intros ->. by destruct (truthy _). Qed.

Definition _coerce_stream_chunk_to_dict (raw : chunk) : option (list (str * json)) :=
  match raw with
  | ChDict d => Some d
  | ChBytes _ | ChStr _ =>
      let text := match raw with ChBytes b => utf8_decode b | ChStr s => s | _ => "" end in
      match sse_data text with
      | (_, []) => None
      | (_, payload_lines) =>
          match json_loads (join newline payload_lines) with Some (JDict parsed) => Some parsed | _ => None end
      end
  | _ => None
  end.
End with_codecs.

(** ** Aggregating a stream *)

(** One accumulated tool call: [id], [type] and [function] with its name and
    arguments. *)
Record tool_call : Type := MkToolCall {
  tc_id : str;
  tc_type : str;
  tc_name : str;
  tc_arguments : str
}.

Definition new_tool_call : tool_call := MkToolCall "" "function" "" "".

Record aggregate : Type := MkAggregate {
  ag_content : list str;
  ag_reasoning : list str;
  ag_tool_calls : list (Z * tool_call);
  ag_id : option str;
  ag_model : option str;
  ag_created : option Z;
  ag_finish_reason : option str;
  ag_usage : option (list (str * json))
}.

Definition empty_aggregate : aggregate := MkAggregate [] [] [] None None None None None.

Definition _append_text_delta (delta : list (str * json)) (key : str) (parts : list str) : list str :=
  match od_get key delta with
  | Some (JStr value) => if is_empty value then parts else parts ++ [value]
  | _ => parts
  end.

(** The fields of a raw call that are strings replace those of the entry; the
    arguments are appended. *)
Definition merge_call (raw_call : list (str * json)) (current : tool_call) : tool_call :=
  let id := default (tc_id current) (as_str (od_get "id" raw_call)) in
  let type := default (tc_type current) (as_str (od_get "type" raw_call)) in
  match dict_of (od_get "function" raw_call) with
  | Some f =>
      MkToolCall id type (default (tc_name current) (as_str (od_get "name" f)))
        (tc_arguments current +:+ default "" (as_str (od_get "arguments" f)))
  | None => MkToolCall id type (tc_name current) (tc_arguments current)
  end.

Definition merge_raw_call (tool_calls : list (Z * tool_call)) (raw_call : json) : list (Z * tool_call) :=
  match raw_call with
  | JDict c =>
      let index := default (Z.of_nat (length tool_calls)) (as_int (od_get "index" c)) in
      od_set index (merge_call c (default new_tool_call (od_get index tool_calls))) tool_calls
  | _ => tool_calls
  end.

Definition _merge_tool_call_deltas (tool_calls : list (Z * tool_call)) (raw_tool_calls : option json) :
    list (Z * tool_call) :=
  match raw_tool_calls with
  | Some (JList raw_calls) => foldl merge_raw_call tool_calls raw_calls
  | _ => tool_calls
  end.

(** One coerced chunk. *)
Definition collect_chunk (a : aggregate) (raw : list (str * json)) : aggregate :=
  let id := match ag_id a with None => as_str (od_get "id" raw) | some => some end in
  let model := match ag_model a with None => as_str (od_get "model" raw) | some => some end in
  let created := match ag_created a with None => as_int (od_get "created" raw) | some => some end in
  let usage := match od_get "usage" raw with Some (JDict u) => Some u | _ => ag_usage a end in
  let a := MkAggregate (ag_content a) (ag_reasoning a) (ag_tool_calls a) id model created
             (ag_finish_reason a) usage in
  match od_get "choices" raw with
  | Some (JList (JDict first_choice :: _)) =>
      let finish_reason := match od_get "finish_reason" first_choice with
                           | Some (JStr s) => Some s
                           | _ => ag_finish_reason a
                           end in
      match od_get "delta" first_choice with
      | Some (JDict delta) =>
          let reasoning := _append_text_delta delta "thinking"
            (_append_text_delta delta "reasoning"
              (_append_text_delta delta "reasoning_content" (ag_reasoning a))) in
          MkAggregate (_append_text_delta delta "content" (ag_content a)) reasoning
            (_merge_tool_call_deltas (ag_tool_calls a) (od_get "tool_calls" delta))
            id model created finish_reason usage
      | _ => MkAggregate (ag_content a) (ag_reasoning a) (ag_tool_calls a) id model created finish_reason usage
      end
  | _ => a
  end.

Definition collect_chunks (raws : list (list (str * json))) : aggregate := foldl collect_chunk empty_aggregate raws.

Definition call_le (a b : Z * tool_call) : Prop := (a.1 <= b.1)%Z.

#[export] Instance call_le_dec : RelDecision call_le.
Proof. intros a b. unfold call_le. apply _. Defined.

(** The tool calls in the order of their keys. *)
Definition ordered_calls (tool_calls : list (Z * tool_call)) : list tool_call :=
  (merge_sort call_le tool_calls).*2.

Definition call_json (c : tool_call) : json :=
  JDict [("id", JStr (tc_id c)); ("type", JStr (tc_type c));
         ("function", JDict [("name", JStr (tc_name c)); ("arguments", JStr (tc_arguments c))])].

(** The response built from an aggregate at time [now_ms] in milliseconds. *)
Definition response_of (now_ms : Z) (a : aggregate) : list (str * json) :=
  let reasoning := join "" (ag_reasoning a) in
  let message := [("role", JStr "assistant"); ("content", JStr (join "" (ag_content a)))] ++
    (if is_empty reasoning then []
     else [("reasoning_content", JStr reasoning); ("reasoning", JStr reasoning); ("thinking", JStr reasoning)]) ++
    (match ag_tool_calls a with
     | [] => []
     | calls => [("tool_calls", JList (call_json <$> ordered_calls calls))]
     end) in
  let or_text (v : option str) (d : str) := match v with Some s => if is_empty s then d else s | None => d end in
  [("id", JStr (or_text (ag_id a) ("chatcmpl-parallel-" +:+ str_of_Z now_ms)));
   ("object", JStr "chat.completion");
   ("created", JInt match ag_created a with Some c => if (c =? 0)%Z then now_ms / 1000 else c | None => now_ms / 1000 end%Z);
   ("model", JStr (or_text (ag_model a) "parallel"));
   ("choices", JList [JDict [("index", JInt 0); ("message", JDict message);
      ("finish_reason", JStr (or_text (ag_finish_reason a) "stop"))]])] ++
  match ag_usage a with Some u => [("usage", JDict u)] | None => [] end.

(** [_collect_streaming_envelope_to_response] on the contents of the stream's
    items. *)
Definition _collect_streaming_envelope_to_response (json_loads : str → option json)
    (utf8_decode : str → str) (now_ms : Z) (items : list chunk) : list (str * json) :=
  response_of now_ms (collect_chunks (omap (_coerce_stream_chunk_to_dict json_loads utf8_decode) items)).

(** ** What the aggregate holds *)

(** The delta of the first choice of a chunk. *)
Definition first_delta (raw : list (str * json)) : option (list (str * json)) :=
  match od_get "choices" raw with
  | Some (JList (JDict first_choice :: _)) => dict_of (od_get "delta" first_choice)
  | _ => None
  end.

Definition delta_text (key : str) (delta : list (str * json)) : str :=
  match od_get key delta with Some (JStr s) => s | _ => "" end.

Lemma join_nil_app (l k : list str) : join "" (l ++ k) = join "" l +:+ join "" k.
Proof.
  induction l as [|s l IH]; simpl; [done|]. destruct l as [|t l]; simpl in *.
  - destruct k; by rewrite ?sapp_nil_r.
  - rewrite IH. by rewrite !sapp_assoc.
Qed.

Lemma append_text_delta_join delta key parts :
  join "" (_append_text_delta delta key parts) = join "" parts +:+ delta_text key delta.
Proof.
  unfold _append_text_delta, delta_text.
  destruct (od_get key delta) as [[]|]; rewrite ?sapp_nil_r //.
  case_match eqn:He.
  - apply is_empty_spec in He as ->. by rewrite sapp_nil_r.
  - by rewrite join_nil_app.
Qed.

Lemma collect_chunk_content a raw :
  join "" (ag_content (collect_chunk a raw)) =
  join "" (ag_content a) +:+ match first_delta raw with Some d => delta_text "content" d | None => "" end.
Proof.
  unfold collect_chunk, first_delta, dict_of.
  destruct (od_get "choices" raw) as [[| | | | |[|[| | | | | |c] l]|]|]; simpl; rewrite ?sapp_nil_r //.
  destruct (od_get "delta" c) as [[]|]; simpl; rewrite ?append_text_delta_join ?sapp_nil_r //.
Qed.

Lemma collect_chunk_calls a raw :
  ag_tool_calls (collect_chunk a raw) =
  match first_delta raw with
  | Some d => _merge_tool_call_deltas (ag_tool_calls a) (od_get "tool_calls" d)
  | None => ag_tool_calls a
  end.
Proof.
  unfold collect_chunk, first_delta, dict_of.
  destruct (od_get "choices" raw) as [[| | | | |[|[| | | | | |c] l]|]|]; try done.
  by destruct (od_get "delta" c) as [[]|].
Qed.

(** The raw calls of a chunk with an explicit index, in order, as their index and
    dictionary. *)
Definition indexed_calls (raw : list (str * json)) : list json :=
  match first_delta raw with
  | Some d => match od_get "tool_calls" d with Some (JList l) => l | _ => [] end
  | None => []
  end.

Definition has_index (j : json) : Prop :=
  match j with JDict c => is_Some (as_int (od_get "index" c)) | _ => False end.

(** The arguments a raw call adds to the call [index]. *)
Definition arguments_for (index : Z) (j : json) : str :=
  match j with
  | JDict c =>
      if bool_decide (as_int (od_get "index" c) = Some index)
      then match dict_of (od_get "function" c) with
           | Some f => default "" (as_str (od_get "arguments" f))
           | None => ""
           end
      else ""
  | _ => ""
  end.

Definition arguments_of (calls : list (Z * tool_call)) (index : Z) : str :=
  tc_arguments (default new_tool_call (od_get index calls)).

Lemma merge_raw_call_arguments calls j index : has_index j →
  arguments_of (merge_raw_call calls j) index = arguments_of calls index +:+ arguments_for index j.
Proof.
  destruct j as [| | | | | |c]; simpl; try done. intros [i Hi]. rewrite Hi. simpl. unfold arguments_of.
  case_bool_decide as Hd; simplify_eq.
  - rewrite od_get_set_eq. simpl. unfold merge_call.
    destruct (dict_of (od_get "function" c)); simpl; by rewrite ?sapp_nil_r.
  - rewrite od_get_set_ne; [congruence|]. by rewrite sapp_nil_r.
Qed.

Lemma merge_deltas_arguments calls l index : Forall has_index l →
  arguments_of (foldl merge_raw_call calls l) index =
  arguments_of calls index +:+ join "" (arguments_for index <$> l).
Proof.
  intros Hl. revert calls. induction Hl as [|j l Hj _ IH]; intros calls; [by rewrite sapp_nil_r|].
  cbn [foldl]. rewrite IH merge_raw_call_arguments //.
  change (arguments_for index <$> j :: l) with ([arguments_for index j] ++ (arguments_for index <$> l)).
  by rewrite join_nil_app sapp_assoc.
Qed.

(** Aggregation loses and reorders nothing: the content of the response is the
    concatenation of the content deltas in stream order, and the arguments of
    every tool call are the concatenation of the deltas that carry its index. *)
Theorem collect_is_concatenation raws :
  Forall (λ raw, Forall has_index (indexed_calls raw)) raws →
  let a := collect_chunks raws in
  join "" (ag_content a) =
    join "" ((λ raw, match first_delta raw with Some d => delta_text "content" d | None => "" end) <$> raws) ∧
  ∀ index, arguments_of (ag_tool_calls a) index =
    join "" (arguments_for index <$> concat (indexed_calls <$> raws)).
Proof.
  unfold collect_chunks. induction raws as [|raw raws IH] using rev_ind; intros Hall; [done|].
  apply Forall_app in Hall as [Hall Hraw]. apply Forall_cons in Hraw as [Hraw _].
  destruct (IH Hall) as [Hc Ha]. rewrite foldl_app. cbn [foldl]. split.
  - rewrite collect_chunk_content Hc fmap_app join_nil_app. done.
  - intros index. rewrite collect_chunk_calls fmap_app concat_app fmap_app join_nil_app -Ha.
    unfold indexed_calls in Hraw |- *. cbn. rewrite app_nil_r.
    destruct (first_delta raw) as [d|]; [|by rewrite sapp_nil_r]. unfold _merge_tool_call_deltas.
    destruct (od_get "tool_calls" d) as [[]|]; simpl; rewrite ?sapp_nil_r //.
    by apply merge_deltas_arguments.
Qed.

Lemma collect_is_concatenation_witness :
  let raw s := [("choices", JList [JDict [("delta", JDict [("content", JStr s);
    ("tool_calls", JList [JDict [("index", JInt 0); ("function", JDict [("arguments", JStr s)])]])])]])] in
  join "" (ag_content (collect_chunks [raw "ab"; raw "cd"])) = "abcd" ∧
  arguments_of (ag_tool_calls (collect_chunks [raw "ab"; raw "cd"])) 0 = "abcd".
Proof.
  intros raw. destruct (collect_is_concatenation [raw "ab"; raw "cd"]) as [Hc Ha].
  { repeat constructor; by eexists. }
  split; [rewrite Hc; reflexivity|rewrite Ha; reflexivity].
Defined.
