(* ===== verification/ParallelRace.v ===== *)
(** * The race of parallel branches

    [ParallelCompletionRacer.race] of
    [src/core/services/parallel_completion_racer.py] as a transition system.
    Every leg is a task that waits for its handicap, reads its stream and may
    claim the win with its first meaningful token; next to the legs run one
    first-token watchdog per leg, the keep-alive loop, the watcher of the client's
    cancellation and the orchestrating task.  All of them write to one queue,
    which the client reads up to the first end mark.

    A step is what one task does between two points where it can be suspended; the
    schedule is the list of steps, so a statement about all schedules is one about
    all interleavings.  The watchdog acts in one step, as it holds the lock
    throughout; where a leg takes the lock it can be overtaken, also where the
    lock is free.  That a step is always possible takes for granted that streams
    yield, fail or end, that cancel callbacks return and that the lock, which is held
    at most across a cancel callback, is released.  What a leg's stream yields, and how it ends, is part of the
    leg; a cancel callback may fail.  The stream of a leg whose cancel callback was
    called, or any stream once the client has cancelled, may end early in any way,
    also with [CancelledError]. *)

From S2P Require Import Prelude PyStr PyDict StreamChunks.
From stdpp Require Import options.

(** ** Legs, items and state *)

(** How a stream ends after its last chunk. *)
Inductive stream_end : Type := EndNormal | EndRoutingError | EndException.

Record race_leg : Type := MkLeg {
  leg_id : str;
  handicap_seconds : Q;
  ttft_timeout_seconds : Q;
  leg_script : list chunk;
  leg_end : stream_end
}.

(** What is put on the queue: a chunk with the winner's name, if it is its first,
    a keep-alive, or the end mark. *)
Inductive item : Type :=
| QChunk (c : chunk) (winner : option str)
| QKeepalive
| QEnd.

(** Where a leg's task stands. *)
Inductive leg_pc : Type :=
| PDelay                                      (* waiting for its handicap *)
| PStream                                     (* awaiting the next chunk *)
| PChunk (c : chunk)                          (* before the winner check *)
| PClaim (c : chunk)                          (* before the claim *)
| PLosers (c : chunk) (todo : gset string)    (* cancelling the losers *)
| PFailing                                    (* about to clean up a failure *)
| PDone.

Record leg_state : Type := MkLegState {
  l_pc : leg_pc;
  l_seen : list chunk;
  l_left : list chunk;
  streaming_winner : bool;
  l_watchdog : option Q
}.

Inductive watcher_pc : Type := WIdle | WWaiting | WDone.

(** The variables the tasks share, apart from the legs' own states and the
    acceleration event. *)
Record shared : Type := MkShared {
  r_now : Q;
  winner_leg_id : option str;
  first_token_event : bool;
  race_stopped : bool;
  client_cancelled : bool;
  winner_first_chunk_emitted : bool;
  cancel_requested : gset string;
  cancelled_legs : gset string;
  leg_streaming_started : gset string;
  r_queue : list item;
  r_watcher : watcher_pc;
  r_orchestrated : bool;
  r_aborted : bool
}.

Record race_state : Type := MkRace {
  vars :> shared;
  handicap_accelerate : bool;
  r_legs : gmap string leg_state
}.

(** Assignments to the shared variables. *)
Definition advance (d : Q) (v : shared) : shared :=
  MkShared (r_now v + d)%Q (winner_leg_id v) (first_token_event v) (race_stopped v) (client_cancelled v)
    (winner_first_chunk_emitted v) (cancel_requested v) (cancelled_legs v) (leg_streaming_started v)
    (r_queue v) (r_watcher v) (r_orchestrated v) (r_aborted v).
Definition set_winner (id : str) (v : shared) : shared :=
  MkShared (r_now v) (Some id) true (race_stopped v) (client_cancelled v) (winner_first_chunk_emitted v)
    (cancel_requested v) (cancelled_legs v) (leg_streaming_started v) (r_queue v) (r_watcher v)
    (r_orchestrated v) (r_aborted v).
Definition set_stopped (v : shared) : shared :=
  MkShared (r_now v) (winner_leg_id v) true true (client_cancelled v) (winner_first_chunk_emitted v)
    (cancel_requested v) (cancelled_legs v) (leg_streaming_started v) (r_queue v) (r_watcher v)
    (r_orchestrated v) (r_aborted v).
Definition set_client_cancelled (v : shared) : shared :=
  MkShared (r_now v) (winner_leg_id v) (first_token_event v) (race_stopped v) true
    (winner_first_chunk_emitted v) (cancel_requested v) (cancelled_legs v) (leg_streaming_started v)
    (r_queue v) (r_watcher v) (r_orchestrated v) (r_aborted v).
Definition set_emitted (v : shared) : shared :=
  MkShared (r_now v) (winner_leg_id v) (first_token_event v) (race_stopped v) (client_cancelled v) true
    (cancel_requested v) (cancelled_legs v) (leg_streaming_started v) (r_queue v) (r_watcher v)
    (r_orchestrated v) (r_aborted v).
Definition add_cancelled (id : str) (ok : bool) (v : shared) : shared :=
  MkShared (r_now v) (winner_leg_id v) (first_token_event v) (race_stopped v) (client_cancelled v)
    (winner_first_chunk_emitted v) ({[ id ]} ∪ cancel_requested v)
    (if ok then {[ id ]} ∪ cancelled_legs v else cancelled_legs v) (leg_streaming_started v) (r_queue v)
    (r_watcher v) (r_orchestrated v) (r_aborted v).
Definition add_started (id : str) (v : shared) : shared :=
  MkShared (r_now v) (winner_leg_id v) (first_token_event v) (race_stopped v) (client_cancelled v)
    (winner_first_chunk_emitted v) (cancel_requested v) (cancelled_legs v)
    ({[ id ]} ∪ leg_streaming_started v) (r_queue v) (r_watcher v) (r_orchestrated v) (r_aborted v).
Definition enqueue (i : item) (v : shared) : shared :=
  MkShared (r_now v) (winner_leg_id v) (first_token_event v) (race_stopped v) (client_cancelled v)
    (winner_first_chunk_emitted v) (cancel_requested v) (cancelled_legs v) (leg_streaming_started v)
    (r_queue v ++ [i]) (r_watcher v) (r_orchestrated v) (r_aborted v).
Definition set_watcher (w : watcher_pc) (v : shared) : shared :=
  MkShared (r_now v) (winner_leg_id v) (first_token_event v) (race_stopped v) (client_cancelled v)
    (winner_first_chunk_emitted v) (cancel_requested v) (cancelled_legs v) (leg_streaming_started v)
    (r_queue v) w (r_orchestrated v) (r_aborted v).
Definition set_orchestrated (v : shared) : shared :=
  MkShared (r_now v) (winner_leg_id v) (first_token_event v) (race_stopped v) (client_cancelled v)
    (winner_first_chunk_emitted v) (cancel_requested v) (cancelled_legs v) (leg_streaming_started v)
    (r_queue v) (r_watcher v) true (r_aborted v).
Definition set_aborted (v : shared) : shared :=
  MkShared (r_now v) (winner_leg_id v) (first_token_event v) (race_stopped v) (client_cancelled v)
    (winner_first_chunk_emitted v) (cancel_requested v) (cancelled_legs v) (leg_streaming_started v)
    (r_queue v) (r_watcher v) (r_orchestrated v) true.

Definition on_vars (f : shared → shared) (s : race_state) : race_state :=
  MkRace (f (vars s)) (handicap_accelerate s) (r_legs s).

Section race.
Context (legs : list race_leg) (meaningful terminal_error : chunk → bool).

Definition find_leg (id : str) : option race_leg := list_find (λ l, leg_id l = id) legs ≫= λ x, Some x.2.

Definition leg_ids : gset string := list_to_set (leg_id <$> legs).

(** [max((leg.handicap_seconds for leg in legs), default=0.0)] *)
Definition max_handicap : Q :=
  match legs with
  | [] => 0
  | l :: ls => foldl (λ m l, Qpymax m (handicap_seconds l)) (handicap_seconds l) ls
  end.

Definition initial_race : race_state :=
  MkRace (MkShared 0 None false false false false ∅ ∅ ∅ [] WIdle false false) false
    (list_to_map ((λ l, (leg_id l, MkLegState PDelay [] (leg_script l) false None)) <$> legs)).

Definition _should_stop (v : shared) : bool := race_stopped v || client_cancelled v.

(** ** Effects shared by the tasks *)

Definition set_leg (id : str) (l : leg_state) (s : race_state) : race_state :=
  MkRace (vars s) (handicap_accelerate s) (<[ id := l ]> (r_legs s)).

Definition put (i : item) : race_state → race_state := on_vars (enqueue i).

Definition accelerate (b : bool) (s : race_state) : race_state :=
  MkRace (vars s) (handicap_accelerate s || b) (r_legs s).

Definition _mark_race_stopped : race_state → race_state := on_vars set_stopped.

(** [_request_leg_cancel]: the callback is called unless it already succeeded;
    [ok] says whether it succeeds. *)
Definition _request_leg_cancel (ok : bool) (id : str) (s : race_state) : race_state :=
  if decide (id ∈ cancelled_legs s) then s else on_vars (add_cancelled id ok) s.

(** [_maybe_accelerate_pending_legs] and the end of the watchdog, in the
    [finally] clause of a leg. *)
Definition finish_leg (id : str) (l : leg_state) (s : race_state) : race_state :=
  let handicapped := match find_leg id with Some leg => Qltb 0 (handicap_seconds leg) | None => false end in
  let started := bool_decide (id ∈ leg_streaming_started s) in
  accelerate (handicapped && started && bool_decide (winner_leg_id s = None) && negb (_should_stop s))
    (set_leg id (MkLegState PDone (l_seen l) (l_left l) (streaming_winner l) None) s).

(** [_cancel_leg_task] of a task that is not done. *)
Definition cancel_task (id : str) (s : race_state) : race_state :=
  match r_legs s !! id with
  | Some l => match l_pc l with PDone => s | _ => finish_leg id l s end
  | None => s
  end.

(** [_stop_all]: a winner that has not emitted its first chunk is spared the
    callback. *)
Definition _stop_all (ok : str → bool) (s : race_state) : race_state :=
  foldl (λ (s : race_state) id,
    let s := if bool_decide (winner_leg_id s = Some id) && negb (winner_first_chunk_emitted s) then s
             else _request_leg_cancel (ok id) id s in
    cancel_task id s) s (leg_id <$> legs).

Definition all_done (s : race_state) : bool :=
  forallb (λ id, match r_legs s !! id with
                 | Some l => match l_pc l with PDone => true | _ => false end
                 | None => true
                 end) (leg_id <$> legs).

(** The watcher and the cleanup wait until a winner has emitted its first chunk,
    or has ended without. *)
Definition winner_settled (s : race_state) : bool :=
  match winner_leg_id s with
  | None => true
  | Some w => winner_first_chunk_emitted s ||
      match r_legs s !! w with Some l => match l_pc l with PDone => true | _ => false end | None => true end
  end.

(** ** Steps *)

Inductive action : Type :=
| ATick (d : Q)                         (* time passes *)
| AClientCancel                         (* the client goes away *)
| AStart (id : str)                     (* the handicap is over *)
| AChunk (id : str)                     (* the stream yields *)
| AStreamEnd (id : str)                 (* the stream ends or raises *)
| ACut (id : str) (how : option stream_end)  (* a cancelled stream ends early *)
| ACheck (id : str)                     (* winner and terminal error checks *)
| AClaim (id : str)                     (* the claim under the lock *)
| ALoser (id loser : str) (ok : bool)   (* one loser's cancel callback *)
| AEmit (id : str)                      (* the winner's first chunk *)
| AFail (id : str) (ok : bool)          (* cleanup after a failure *)
| AWatchdog (id : str) (ok : bool)      (* no first token in time *)
| AKeepalive
| AMark                                 (* the watcher sees the cancellation *)
| AStopAll (ok : str → bool)            (* the watcher stops the legs *)
| AOrchestrated                         (* all legs are done *)
| AAbort                                (* the consumer closes the stream *)
| ACleanup (ok : str → bool).

Definition set_pc (l : leg_state) (pc : leg_pc) : leg_state :=
  MkLegState pc (l_seen l) (l_left l) (streaming_winner l) (l_watchdog l).

(** A leg's task past its handicap. *)
Definition start_leg (leg : race_leg) (l : leg_state) (s : race_state) : race_state :=
  if _should_stop s then finish_leg (leg_id leg) l s
  else match winner_leg_id s with
       | Some _ => finish_leg (leg_id leg) l s
       | None =>
           let watchdog := if Qltb 0 (ttft_timeout_seconds leg)
                           then Some (r_now s + ttft_timeout_seconds leg)%Q else None in
           on_vars (add_started (leg_id leg))
             (set_leg (leg_id leg) (MkLegState PStream (l_seen l) (l_left l) (streaming_winner l) watchdog) s)
       end.

(** After the stop check: is somebody else the winner, is it an error, is it a
    token? *)
Definition check_chunk (id : str) (l : leg_state) (c : chunk) (s : race_state) : race_state :=
  if match winner_leg_id s with Some w => negb (String.eqb w id) | None => false end then finish_leg id l s
  else if terminal_error c then set_leg id (set_pc l PFailing) s
  else if streaming_winner l then put (QChunk c None) (set_leg id (set_pc l PStream) s)
  else if negb (meaningful c) then set_leg id (set_pc l PStream) s
  else set_leg id (set_pc l (PClaim c)) s.

Definition claim (id : str) (l : leg_state) (c : chunk) (s : race_state) : race_state :=
  if bool_decide (winner_leg_id s = None) && negb (_should_stop s) then
    let l' := MkLegState (PLosers c (leg_ids ∖ {[ id ]})) (l_seen l) (l_left l) (streaming_winner l) None in
    on_vars (set_winner id) (set_leg id l' s)
  else set_leg id (set_pc l PStream) s.

(** [_emit(chunk, leg.leg_id)], then [_stop_loser_tasks]. *)
Definition emit_first (id : str) (l : leg_state) (c : chunk) (s : race_state) : race_state :=
  let s := on_vars set_emitted (put (QChunk c (Some id))
             (set_leg id (MkLegState PStream (l_seen l) (l_left l) true (l_watchdog l)) s)) in
  foldl (λ (s : race_state) loser, cancel_task loser s) s (filter (λ j, j ≠ id) (leg_id <$> legs)).

(** [_stop_leg] of the failing leg and [_request_pending_leg_acceleration]. *)
Definition fail_leg (id : str) (l : leg_state) (ok : bool) (s : race_state) : race_state :=
  let s := _request_leg_cancel ok id s in
  let s := accelerate (bool_decide (winner_leg_id s = None) && negb (_should_stop s)) s in
  finish_leg id l s.

Definition exec (a : action) (s : race_state) : option race_state :=
  match a with
  | ATick d =>
      if Qltb d 0 then None else Some (on_vars (advance d) s)
  | AClientCancel =>
      Some (on_vars set_client_cancelled s)
  | AStart id =>
      match find_leg id, r_legs s !! id with
      | Some leg, Some l =>
          match l_pc l with
          | PDelay =>
              if handicap_accelerate s || Qle_bool (max_handicap - handicap_seconds leg) (r_now s)
              then Some (start_leg leg l s) else None
          | _ => None
          end
      | _, _ => None
      end
  | AChunk id =>
      match r_legs s !! id with
      | Some (MkLegState PStream seen (c :: rest) won watchdog) =>
          let l := MkLegState (PChunk c) (seen ++ [c]) rest won watchdog in
          Some (if _should_stop s then finish_leg id l s else set_leg id l s)
      | _ => None
      end
  | AStreamEnd id =>
      match find_leg id, r_legs s !! id with
      | Some leg, Some (MkLegState PStream seen [] won watchdog) =>
          let l := MkLegState PStream seen [] won watchdog in
          Some match leg_end leg with
               | EndNormal => finish_leg id l s
               | EndRoutingError | EndException => set_leg id (set_pc l PFailing) s
               end
      | _, _ => None
      end
  | ACut id how =>
      match r_legs s !! id with
      | Some l =>
          match l_pc l with
          | PStream =>
              if bool_decide (id ∈ cancel_requested s) || client_cancelled s then
                Some match how with
                     | Some EndRoutingError | Some EndException => set_leg id (set_pc l PFailing) s
                     | Some EndNormal | None => finish_leg id l s
                     end
              else None
          | _ => None
          end
      | None => None
      end
  | ACheck id =>
      match r_legs s !! id with
      | Some l => match l_pc l with PChunk c => Some (check_chunk id l c s) | _ => None end
      | None => None
      end
  | AClaim id =>
      match r_legs s !! id with
      | Some l => match l_pc l with PClaim c => Some (claim id l c s) | _ => None end
      | None => None
      end
  | ALoser id loser ok =>
      match r_legs s !! id with
      | Some l =>
          match l_pc l with
          | PLosers c todo =>
              if decide (loser ∈ todo)
              then Some (_request_leg_cancel ok loser (set_leg id (set_pc l (PLosers c (todo ∖ {[ loser ]}))) s))
              else None
          | _ => None
          end
      | None => None
      end
  | AEmit id =>
      match r_legs s !! id with
      | Some l =>
          match l_pc l with
          | PLosers c todo => if decide (todo = ∅) then Some (emit_first id l c s) else None
          | _ => None
          end
      | None => None
      end
  | AFail id ok =>
      match r_legs s !! id with
      | Some l => match l_pc l with PFailing => Some (fail_leg id l ok s) | _ => None end
      | None => None
      end
  | AWatchdog id ok =>
      match r_legs s !! id with
      | Some l =>
          match l_watchdog l with
          | Some deadline =>
              if Qle_bool deadline (r_now s) then
                if bool_decide (winner_leg_id s = None) && negb (_should_stop s)
                then Some (cancel_task id (_request_leg_cancel ok id s))
                else Some (set_leg id (MkLegState (l_pc l) (l_seen l) (l_left l) (streaming_winner l) None) s)
              else None
          | None => None
          end
      | None => None
      end
  | AKeepalive => if _should_stop s || first_token_event s then None else Some (put QKeepalive s)
  | AMark =>
      if client_cancelled s then
        match r_watcher s with WIdle => Some (on_vars (set_watcher WWaiting) (_mark_race_stopped s)) | _ => None end
      else None
  | AStopAll ok =>
      match r_watcher s with
      | WWaiting => if winner_settled s then Some (on_vars (set_watcher WDone) (put QEnd (_stop_all ok s))) else None
      | _ => None
      end
  | AOrchestrated =>
      if all_done s && negb (r_orchestrated s) then
        Some (on_vars set_orchestrated (put QEnd (on_vars (set_watcher WDone) (_mark_race_stopped s))))
      else None
  | AAbort =>
      Some (on_vars set_aborted (_mark_race_stopped s))
  | ACleanup ok =>
      if r_aborted s && winner_settled s then Some (_stop_all ok s) else None
  end.

(** A schedule; [None] when one of its steps is not possible. *)
Fixpoint run (schedule : list action) (s : race_state) : option race_state :=
  match schedule with
  | [] => Some s
  | a :: schedule' => exec a s ≫= run schedule'
  end.

(** States some schedule leads to. *)
Definition reachable (s : race_state) : Prop := ∃ schedule, run schedule initial_race = Some s.
End race.
