(* ===== verification/ParallelRaceFacts.v ===== *)
(** * What every race guarantees

    Invariants of [ParallelRace] over all schedules: the client sees one leg's
    stream from its first token on, the losers have been cancelled by then, a race
    without a winner has read every stream to its end or failure, and a
    handicapped leg starts early only when another leg has failed. *)

From S2P Require Import Prelude PyStr PyDict StreamChunks ParallelRace.
From stdpp Require Import options.

Set Default Proof Using "All".

Section facts.
Context (legs : list race_leg) (meaningful terminal_error : chunk → bool).
Context (Hids : NoDup (leg_id <$> legs)).
Context (Hterm : ∀ c, terminal_error c = true → meaningful c = false).

Implicit Types (s : race_state) (v : shared) (l : leg_state) (id : str).
Local Notation leg_ids := (leg_ids legs).
Local Notation find_leg := (find_leg legs).

(** ** The invariant of one leg *)

Definition dull (h : list chunk) : Prop := Forall (λ c, meaningful c = false) h.

(** No token of the leg has been passed over, unless the race is over for it. *)
Definition quiet v id (h : list chunk) : Prop :=
  dull h ∨ _should_stop v = true ∨ ∃ w, winner_leg_id v = Some w ∧ w ≠ id.

(** Why a leg of a race without a winner is done: its stream is read, or its
    cancellation was requested, possibly with one chunk not looked at. *)
Definition exhausted v id l : Prop :=
  id ∈ leg_streaming_started v ∧ (l_left l = [] ∨ id ∈ cancel_requested v) ∧
  ∃ h t, l_seen l = h ++ t ∧ dull h ∧ (t = [] ∨ length t = 1 ∧ id ∈ cancel_requested v).

(** A leg that is not streaming to the client. *)
Definition contender_ok v id l : Prop :=
  match l_pc l with
  | PDelay => l_seen l = [] ∧ winner_leg_id v ≠ Some id
  | PStream | PFailing =>
      quiet v id (l_seen l) ∧ winner_leg_id v ≠ Some id ∧ id ∈ leg_streaming_started v
  | PChunk c =>
      (∃ h, l_seen l = h ++ [c] ∧ quiet v id h) ∧ winner_leg_id v ≠ Some id ∧ id ∈ leg_streaming_started v
  | PClaim c =>
      (∃ h, l_seen l = h ++ [c] ∧ quiet v id h) ∧ winner_leg_id v ≠ Some id ∧
      id ∈ leg_streaming_started v ∧ meaningful c = true
  | PLosers c todo =>
      (∃ h, l_seen l = h ++ [c] ∧ dull h) ∧ meaningful c = true ∧ winner_leg_id v = Some id ∧
      winner_first_chunk_emitted v = false ∧ leg_ids ∖ {[ id ]} ⊆ todo ∪ cancel_requested v ∧ id ∉ todo
  | PDone =>
      winner_leg_id v ≠ Some id ∧
      (winner_leg_id v = None → client_cancelled v = false → r_aborted v = false → exhausted v id l)
  end.

(** How a streaming leg's stream ends: it is read, or its last chunk is an error. *)
Definition stream_over (left tail : list chunk) : Prop :=
  tail = [] ∧ left = [] ∨ ∃ c, tail = [c] ∧ terminal_error c = true.

Definition tail_ok v (pc : leg_pc) (left tail : list chunk) : Prop :=
  match pc with
  | PStream => tail = []
  | PChunk c => tail = [c]
  | PFailing | PDone => length tail ≤ 1 ∧ (client_cancelled v = true ∨ r_aborted v = true ∨ stream_over left tail)
  | _ => False
  end.

(** The leg that streams: what the client got is its stream from the first token
    on, up to one chunk in hand or dropped. *)
Definition streaming_ok v (body : list item) id l : Prop :=
  winner_leg_id v = Some id ∧ winner_first_chunk_emitted v = true ∧
  ∃ pre c0 cs tail, l_seen l = pre ++ c0 :: cs ++ tail ∧ dull pre ∧ meaningful c0 = true ∧
    body = QChunk c0 (Some id) :: ((λ c, QChunk c None) <$> cs) ∧ tail_ok v (l_pc l) (l_left l) tail.

Record leg_ok v (body : list item) id l : Prop := {
  lo_script : ∃ leg, find_leg id = Some leg ∧ l_seen l ++ l_left l = leg_script leg;
  lo_watchdog : l_watchdog l ≠ None → id ∈ leg_streaming_started v ∧ l_pc l ≠ PDone;
  lo_role : if streaming_winner l then streaming_ok v body id l else contender_ok v id l
}.

(** How the shared variables move while other tasks run. *)
Record later id v v' (body body' : list item) : Prop := {
  lt_winner : winner_leg_id v' = winner_leg_id v ∨
    winner_leg_id v = None ∧ ∃ w, winner_leg_id v' = Some w ∧ w ≠ id;
  lt_emitted : winner_first_chunk_emitted v' = winner_first_chunk_emitted v ∨
    ∃ w, winner_leg_id v' = Some w ∧ w ≠ id;
  lt_stop : _should_stop v = true → _should_stop v' = true;
  lt_client : client_cancelled v = true → client_cancelled v' = true;
  lt_aborted : r_aborted v = true → r_aborted v' = true;
  lt_requested : cancel_requested v ⊆ cancel_requested v';
  lt_started : leg_streaming_started v ⊆ leg_streaming_started v';
  lt_body : body' = body ∨ ∃ w, winner_leg_id v' = Some w ∧ w ≠ id
}.

Lemma later_refl id v body : later id v v body body.
Proof. constructor; auto. Qed.

Lemma quiet_later id v v' body body' h : later id v v' body body' → quiet v id h → quiet v' id h.
Proof.
  intros [Hw _ Hs _ _ _ _ _] [Hd|[Hst|(w & Hw' & Hne)]]; [by left|right; left; auto|].
  right. right. destruct Hw as [->|[Hn _]]; [eauto|congruence].
Qed.

Lemma exhausted_later id v v' body body' l : later id v v' body body' → exhausted v id l → exhausted v' id l.
Proof.
  intros [_ _ _ _ _ Hr Hst _] (H1 & H2 & h & t & H3 & H4 & H5). split; [set_solver|].
  split; [destruct H2; [by left|right; set_solver]|]. exists h, t. split; [done|]. split; [done|].
  destruct H5 as [|[]]; [by left|right; split; [done|set_solver]].
Qed.

Lemma winner_later id v v' body body' :
  later id v v' body body' → winner_leg_id v ≠ Some id → winner_leg_id v' ≠ Some id.
Proof. intros [[->|[_ (w & -> & Hne)]] _ _ _ _ _ _ _]; congruence. Qed.

Lemma leg_ok_later id v v' body body' l : later id v v' body body' → leg_ok v body id l → leg_ok v' body' id l.
Proof.
  intros Hl [Hscr Hwd Hrole]. pose proof (lt_started _ _ _ _ _ Hl) as Hst. split; [done|naive_solver|].
  destruct (streaming_winner l).
  - destruct Hrole as (Hw & He & pre & c0 & cs & tail & H1 & H2 & H3 & H4 & H5).
    destruct Hl as [[Hw'|[? _]] He' _ Hc Ha _ _ Hb]; [|congruence].
    assert (winner_leg_id v' = Some id) as Hwid by congruence.
    destruct He' as [He'|(w & ? & ?)]; [|congruence]. destruct Hb as [->|(w & ? & ?)]; [|congruence].
    split; [done|]. split; [congruence|]. exists pre, c0, cs, tail. split_and!; try done.
    destruct (l_pc l); simpl in *; naive_solver.
  - pose proof (winner_later _ _ _ _ _ Hl) as Hwl.
    unfold contender_ok in *. destruct (l_pc l).
    + naive_solver.
    + destruct Hrole as (? & ? & ?). split_and!; [by eapply quiet_later|auto|set_solver].
    + destruct Hrole as ((h & ? & ?) & ? & ?). split_and!; [exists h; split; [done|by eapply quiet_later]|auto|set_solver].
    + destruct Hrole as ((h & ? & ?) & ? & ? & ?).
      split_and!; [exists h; split; [done|by eapply quiet_later]|auto|set_solver|done].
    + destruct Hrole as (? & ? & Hw & He & ? & ?). destruct Hl as [[Hw'|[? _]] He' _ _ _ Hr _ _]; [|congruence].
      destruct He' as [He'|(w & ? & ?)]; [|congruence]. split_and!; [done|done|congruence|congruence|set_solver|done].
    + destruct Hrole as (? & ? & ?). split_and!; [by eapply quiet_later|auto|set_solver].
    + destruct Hrole as [? Hex]. split; [auto|]. intros Hn Hc Ha. eapply exhausted_later; [done|].
      destruct Hl as [[Hw'|[_ (w & ? & _)]] _ _ Hc' Ha' _ _ _]; [|congruence].
      apply Hex; [congruence|destruct (client_cancelled v); [by rewrite Hc' in Hc|done]|].
      destruct (r_aborted v); [by rewrite Ha' in Ha|done].
Qed.

(** ** The invariant of the race *)

Definition over s : Prop := ∀ id l, r_legs s !! id = Some l → l_pc l = PDone.

(** The queue is keep-alives, then the winner's stream, then end marks. *)
Record race_inv s (body : list item) (k m : nat) : Prop := {
  ri_legs id l : r_legs s !! id = Some l → leg_ok s body id l;
  ri_dom id : id ∈ leg_ids ↔ is_Some (r_legs s !! id);
  ri_queue : r_queue s = replicate k QKeepalive ++ body ++ replicate m QEnd;
  ri_body : winner_first_chunk_emitted s = false → body = [];
  ri_end : 0 < m → race_stopped s = true ∧ over s;
  ri_winner w : winner_leg_id s = Some w → first_token_event s = true ∧
    ∃ l, r_legs s !! w = Some l ∧
      (winner_first_chunk_emitted s = true → streaming_winner l = true ∧ leg_ids ∖ {[ w ]} ⊆ cancel_requested s) ∧
      (winner_first_chunk_emitted s = false → streaming_winner l = false ∧ ∃ c todo, l_pc l = PLosers c todo);
  ri_emitted : winner_first_chunk_emitted s = true → winner_leg_id s ≠ None;
  ri_cancelled : cancelled_legs s ⊆ cancel_requested s;
  ri_stopped : race_stopped s = true →
    first_token_event s = true ∧ (client_cancelled s = true ∨ r_aborted s = true ∨ over s);
  ri_watcher : r_watcher s = WWaiting → client_cancelled s = true ∧ race_stopped s = true
}.

Lemma find_leg_elem leg : leg ∈ legs → find_leg (leg_id leg) = Some leg.
Proof using Hids.
  intros Hin. unfold ParallelRace.find_leg. destruct (list_find _ legs) as [[i x]|] eqn:Hf; simpl.
  - apply list_find_Some in Hf as (Hi & Hx & _). f_equal.
    apply list_elem_of_lookup in Hin as [j Hj]. assert (i = j) as ->; [|congruence].
    eapply (NoDup_lookup (leg_id <$> legs)); [done|by rewrite list_lookup_fmap Hi|].
    rewrite list_lookup_fmap Hj /=. by rewrite Hx.
  - apply list_find_None in Hf. rewrite Forall_forall in Hf. by destruct (Hf leg Hin).
Qed.

Lemma find_leg_id id leg : find_leg id = Some leg → leg_id leg = id ∧ leg ∈ legs.
Proof using Type.
  unfold ParallelRace.find_leg. destruct (list_find _ legs) as [[i x]|] eqn:Hf; simpl; [|done].
  intros [= <-]. apply list_find_Some in Hf as (Hi & Hx & _). split; [done|]. by eapply list_elem_of_lookup_2.
Qed.

Lemma initial_inv : race_inv (initial_race legs) [] 0 0.
Proof.
  assert (∀ id l, r_legs (initial_race legs) !! id = Some l → ∃ leg, leg ∈ legs ∧ id = leg_id leg ∧
    l = MkLegState PDelay [] (leg_script leg) false None) as Hl.
  { intros id l Hl. simpl in Hl. apply elem_of_list_to_map_2 in Hl.
    apply list_elem_of_fmap in Hl as (leg & Heq & Hin). simplify_eq. eauto. }
  constructor; simpl; try done; try lia.
  - intros id l (leg & Hin & -> & ->)%Hl. constructor; simpl; [|done|done].
    exists leg. split; [by apply find_leg_elem|done].
  - intros id. unfold ParallelRace.leg_ids. rewrite elem_of_list_to_set. split.
    + intros (leg & -> & Hin)%list_elem_of_fmap. eexists. apply elem_of_list_to_map_1.
      * rewrite -list_fmap_compose. done.
      * apply list_elem_of_fmap. eauto.
    + intros [l (leg & Hin & -> & _)%Hl]. apply list_elem_of_fmap. eauto.
Qed.

(** A leg that is not done shows that the race is neither at its end nor stopped
    for lack of legs. *)
Lemma running_leg s body k m id l :
  race_inv s body k m → r_legs s !! id = Some l → l_pc l ≠ PDone →
  m = 0 ∧ (race_stopped s = true → client_cancelled s = true ∨ r_aborted s = true).
Proof.
  intros Hinv Hl Hpc. split.
  - destruct m; [done|]. destruct (ri_end _ _ _ _ Hinv) as [_ Ho]; [lia|]. by destruct (Hpc (Ho _ _ Hl)).
  - intros Hs. destruct (ri_stopped _ _ _ _ Hinv Hs) as [_ [?|[?|Ho]]]; [by left|by right|].
    by destruct (Hpc (Ho _ _ Hl)).
Qed.

(** Updating one leg: the other legs' invariants move along. *)
Lemma legs_update s v' body body' id l' :
  (∀ j l, r_legs s !! j = Some l → leg_ok s body j l) →
  (∀ j, j ≠ id → later j s v' body body') → leg_ok v' body' id l' →
  ∀ j l, <[ id := l' ]> (r_legs s) !! j = Some l → leg_ok v' body' j l.
Proof.
  intros Hlegs Hlater Hok j l. rewrite lookup_insert_Some. intros [[<- <-]|[Hne Hl]]; [done|].
  eapply leg_ok_later; [|by apply Hlegs]. by apply Hlater.
Qed.

(** *** A leg that goes on *)

Lemma set_leg_inv s body k m id l l' :
  race_inv s body k m → r_legs s !! id = Some l → l_pc l ≠ PDone → l_pc l' ≠ PDone →
  (∀ c todo, l_pc l = PLosers c todo → ∃ todo', l_pc l' = PLosers c todo') →
  streaming_winner l' = streaming_winner l → leg_ok s body id l' →
  race_inv (set_leg id l' s) body k m.
Proof.
  intros Hinv Hl Hpc Hpc' Hlos Hsw Hok. destruct (running_leg _ _ _ _ _ _ Hinv Hl Hpc) as [-> Hst].
  destruct Hinv as [H1 H2 H3 H4 H5 H6 H7 H8 H9 H10]. constructor; simpl; try done.
  - apply (legs_update s s body body id l'); [done|intros; apply later_refl|done].
  - intros j. rewrite H2 lookup_insert_is_Some. destruct (decide (j = id)); naive_solver.
  - lia.
  - intros w Hw. destruct (H6 w Hw) as (Hf & lw & Hlw & He & Hn). split; [done|].
    destruct (decide (w = id)) as [->|Hne].
    + rewrite lookup_insert_eq. exists l'. simplify_eq. split; [done|]. rewrite Hsw. split; [done|].
      intros Hem. destruct (Hn Hem) as (? & c & todo & Hp). split; [done|]. exists c. by eapply Hlos.
    + rewrite lookup_insert_ne //. eauto.
  - intros Hs. destruct (H9 Hs) as [Hf _]. split; [done|]. destruct (Hst Hs); auto.
Qed.

(** *** A leg that ends *)

Definition ended l : leg_state := MkLegState PDone (l_seen l) (l_left l) (streaming_winner l) None.

Lemma finish_inv s body k m id l l0 :
  race_inv s body k m → r_legs s !! id = Some l0 → streaming_winner l = streaming_winner l0 →
  leg_ok s body id (ended l) → race_inv (finish_leg legs id l s) body k m.
Proof.
  intros [H1 H2 H3 H4 H5 H6 H7 H8 H9 H10] Hl Hsw Hok. constructor; simpl; try done.
  - apply (legs_update s s body body id (ended l)); [done|intros; apply later_refl|done].
  - intros j. rewrite H2 lookup_insert_is_Some. destruct (decide (j = id)); naive_solver.
  - intros Hm. destruct (H5 Hm) as [Hs Ho]. split; [done|]. intros j lj. simpl. rewrite lookup_insert_Some.
    intros [[_ <-]|[_ Hj]]; [done|by eapply Ho].
  - intros w Hw. destruct (H6 w Hw) as (Hf & lw & Hlw & He & Hn). split; [done|].
    destruct (decide (w = id)) as [->|Hne].
    + rewrite lookup_insert_eq. exists (ended l). simplify_eq. split; [done|]. simpl. rewrite Hsw. split; [done|].
      intros Hem. destruct (Hn Hem) as (Hsf & _). destruct Hok as [_ _ Hrole]. simpl in Hrole.
      rewrite Hsw Hsf in Hrole. by destruct Hrole as [? _].
    + rewrite lookup_insert_ne //. eauto.
  - intros Hs. destruct (H9 Hs) as [Hf Hc]. split; [done|]. destruct Hc as [?|[?|Ho]]; auto.
    right. right. intros j lj. simpl. rewrite lookup_insert_Some. intros [[_ <-]|[_ Hj]]; [done|by eapply Ho].
Qed.

Definition cancelling l : Prop := ∃ c todo, l_pc l = PLosers c todo.

Lemma ended_ok v body id l :
  leg_ok v body id l → ¬ cancelling l →
  (streaming_winner l = true → l_pc l ≠ PDone →
   ∀ tail, tail_ok v (l_pc l) (l_left l) tail → tail_ok v PDone (l_left l) tail) →
  (streaming_winner l = false → l_pc l ≠ PDone →
   winner_leg_id v = None → client_cancelled v = false → r_aborted v = false → exhausted v id l) →
  leg_ok v body id (ended l).
Proof.
  intros [Hscr Hwd Hrole] Hlos Hstr Hex. constructor; simpl; [done|done|].
  destruct (streaming_winner l) eqn:Hsw.
  - destruct Hrole as (Hw & He & pre & c0 & cs & tail & H1 & H2 & H3 & H4 & H5).
    split; [done|]. split; [done|]. exists pre, c0, cs, tail. split_and!; try done.
    destruct (l_pc l) eqn:Hpc; try (by destruct H5); try (apply Hstr; [done|done|exact H5]).
  - unfold contender_ok in *. simpl. destruct (l_pc l) eqn:Hpc; try (by destruct Hlos; eexists _, _).
    all: try (split; [naive_solver|]; intros ???; by apply Hex).
    exact Hrole.
Qed.

(** In a running race without a winner, what was quiet was dull. *)
Lemma quiet_dull v id h :
  quiet v id h → winner_leg_id v = None → _should_stop v = false → dull h.
Proof. intros [?|[?|(w & ? & _)]]; [done|congruence..]. Qed.

(** *** Shared variables *)

Lemma request_cancel_inv s body k m ok id :
  race_inv s body k m → race_inv (_request_leg_cancel ok id s) body k m.
Proof.
  intros Hinv. unfold _request_leg_cancel. case_decide; [done|].
  destruct Hinv as [H1 H2 H3 H4 H5 H6 H7 H8 H9 H10]. constructor; simpl; try done.
  - intros j l Hl. eapply leg_ok_later; [|by apply H1]. constructor; simpl; auto. set_solver.
  - intros w Hw. destruct (H6 w Hw) as (Hf & lw & Hlw & He & Hn). split; [done|]. exists lw. split; [done|].
    split; [|done]. intros Hem. destruct (He Hem). split; [done|set_solver].
  - destruct ok; set_solver.
Qed.

Lemma request_cancel_requested ok id s :
  cancelled_legs s ⊆ cancel_requested s → id ∈ cancel_requested (_request_leg_cancel ok id s).
Proof. intros Hs. unfold _request_leg_cancel. case_decide; simpl; set_solver. Qed.

Lemma request_cancel_legs ok id s : r_legs (_request_leg_cancel ok id s) = r_legs s.
Proof using Type. unfold _request_leg_cancel. by case_decide. Qed.

(** The variables a cancellation leaves alone. *)
Lemma request_cancel_vars ok id s :
  let s' := _request_leg_cancel ok id s in
  winner_leg_id s' = winner_leg_id s ∧ race_stopped s' = race_stopped s ∧
  client_cancelled s' = client_cancelled s ∧ r_aborted s' = r_aborted s ∧
  winner_first_chunk_emitted s' = winner_first_chunk_emitted s ∧
  leg_streaming_started s' = leg_streaming_started s ∧ cancel_requested s ⊆ cancel_requested s'.
Proof using Type. unfold _request_leg_cancel. case_decide; simpl; split_and!; try done. apply union_subseteq_r. Qed.

Lemma advance_inv s body k m d : race_inv s body k m → race_inv (on_vars (advance d) s) body k m.
Proof.
  intros [H1 H2 H3 H4 H5 H6 H7 H8 H9 H10]. constructor; simpl; try done.
  intros j l Hl. eapply leg_ok_later; [|by apply H1]. constructor; simpl; auto.
Qed.

Lemma watcher_inv s body k m w :
  race_inv s body k m → (w = WWaiting → client_cancelled s = true ∧ race_stopped s = true) →
  race_inv (on_vars (set_watcher w) s) body k m.
Proof.
  intros [H1 H2 H3 H4 H5 H6 H7 H8 H9 H10] Hw. constructor; simpl; try done.
  intros j l Hl. eapply leg_ok_later; [|by apply H1]. constructor; simpl; auto.
Qed.

Lemma orchestrated_inv s body k m : race_inv s body k m → race_inv (on_vars set_orchestrated s) body k m.
Proof.
  intros [H1 H2 H3 H4 H5 H6 H7 H8 H9 H10]. constructor; simpl; try done.
  intros j l Hl. eapply leg_ok_later; [|by apply H1]. constructor; simpl; auto.
Qed.

Lemma should_stop_or v : _should_stop v = true ↔ race_stopped v = true ∨ client_cancelled v = true.
Proof using Type. apply orb_true_iff. Qed.

Lemma client_cancelled_inv s body k m :
  race_inv s body k m → race_inv (on_vars set_client_cancelled s) body k m.
Proof.
  intros [H1 H2 H3 H4 H5 H6 H7 H8 H9 H10]. constructor; simpl; try done.
  - intros j l Hl. eapply leg_ok_later; [|by apply H1]. constructor; simpl; auto.
    intros _. apply should_stop_or. by right.
  - intros Hs. destruct (H9 Hs). split; [done|by left].
  - intros Hw. by destruct (H10 Hw).
Qed.

(** Stopping is for a reason: the client, the consumer, or nothing left to run. *)
Lemma stopped_inv s body k m :
  race_inv s body k m → client_cancelled s = true ∨ r_aborted s = true ∨ over s →
  race_inv (on_vars set_stopped s) body k m.
Proof.
  intros [H1 H2 H3 H4 H5 H6 H7 H8 H9 H10] Hr. constructor; simpl; try done.
  - intros j l Hl. eapply leg_ok_later; [|by apply H1]. constructor; simpl; auto.
  - intros Hm. by destruct (H5 Hm).
  - intros w Hw. destruct (H6 w Hw) as [_ ?]. done.
  - intros Hw. by destruct (H10 Hw).
Qed.

Lemma abort_inv s body k m :
  race_inv s body k m → race_inv (on_vars set_aborted (_mark_race_stopped s)) body k m.
Proof.
  intros [H1 H2 H3 H4 H5 H6 H7 H8 H9 H10]. constructor; simpl; try done.
  - intros j l Hl. eapply leg_ok_later; [|by apply H1]. constructor; simpl; auto.
  - intros Hm. by destruct (H5 Hm).
  - intros w Hw. destruct (H6 w Hw) as [_ ?]. done.
  - intros _. split; [done|]. right. by left.
  - intros Hw. by destruct (H10 Hw).
Qed.

(** *** Putting items on the queue *)

Lemma keepalive_inv s body k m :
  race_inv s body k m → _should_stop s = false → first_token_event s = false →
  race_inv (put QKeepalive s) body (S k) m.
Proof.
  intros [H1 H2 H3 H4 H5 H6 H7 H8 H9 H10] Hs Hf.
  assert (m = 0) as ->.
  { destruct m; [done|]. destruct H5 as [Hst _]; [lia|]. unfold _should_stop in Hs. by rewrite Hst in Hs. }
  assert (winner_first_chunk_emitted s = false) as He.
  { destruct (winner_first_chunk_emitted s) eqn:He; [|done]. destruct (winner_leg_id s) as [w|] eqn:Hw.
    - destruct (H6 w eq_refl). congruence.
    - by destruct (H7 eq_refl). }
  constructor; simpl; try done.
  - intros j l Hl. eapply leg_ok_later; [|by apply H1]. constructor; simpl; auto.
  - rewrite H3 (H4 He) /= !app_nil_r. change [QKeepalive] with (replicate 1 QKeepalive).
    rewrite -replicate_add Nat.add_1_r. done.
Qed.

Lemma put_end_inv s body k m :
  race_inv s body k m → race_stopped s = true → over s → race_inv (put QEnd s) body k (S m).
Proof.
  intros [H1 H2 H3 H4 H5 H6 H7 H8 H9 H10] Hs Ho. constructor; simpl; try done.
  - intros j l Hl. eapply leg_ok_later; [|by apply H1]. constructor; simpl; auto.
  - rewrite H3 -!app_assoc. do 2 f_equal. change [QEnd] with (replicate 1 QEnd).
    by rewrite -replicate_add Nat.add_1_r.
Qed.

(** ** Steps of a leg *)

Lemma accelerate_inv s body k m b : race_inv s body k m → race_inv (accelerate b s) body k m.
Proof. by intros [H1 H2 H3 H4 H5 H6 H7 H8 H9 H10]. Qed.

Lemma add_started_inv s body k m id : race_inv s body k m → race_inv (on_vars (add_started id) s) body k m.
Proof.
  intros [H1 H2 H3 H4 H5 H6 H7 H8 H9 H10]. constructor; simpl; try done.
  intros j l Hl. eapply leg_ok_later; [|by apply H1]. constructor; simpl; auto. set_solver.
Qed.

(** What allows a leg to end: a winner, the client, the consumer, or that it was
    cancelled or has no more chunks. *)
Definition may_end v id l : Prop :=
  (∃ w, winner_leg_id v = Some w ∧ w ≠ id) ∨ client_cancelled v = true ∨ r_aborted v = true ∨
  (streaming_winner l = false → id ∈ leg_streaming_started v) ∧
  (id ∈ cancel_requested v ∧ (winner_leg_id v = None ∨ l_pc l = PFailing) ∨ l_pc l = PStream ∧ l_left l = []).

Lemma may_end_exhausted s body k m id l l0 :
  race_inv s body k m → r_legs s !! id = Some l0 → l_pc l0 ≠ PDone → leg_ok s body id l →
  streaming_winner l = false → l_pc l ≠ PDone → ¬ cancelling l → may_end s id l →
  winner_leg_id s = None → client_cancelled s = false → r_aborted s = false → exhausted s id l.
Proof.
  intros Hinv Hl Hpc0 [_ _ Hrole] Hsw Hpc Hlos Hend Hw Hc Ha. rewrite Hsw in Hrole.
  destruct Hend as [(w & ? & _)|[?|[?|[Hstart Hend]]]]; [congruence|congruence|congruence|].
  specialize (Hstart Hsw).
  assert (_should_stop s = false) as Hrun.
  { destruct (_should_stop s) eqn:Hst; [|done]. apply should_stop_or in Hst as [Hst|?]; [|congruence].
    destruct (running_leg _ _ _ _ _ _ Hinv Hl Hpc0) as [_ Hr]. destruct (Hr Hst); congruence. }
  split; [done|]. split; [destruct Hend as [[? _]|[_ ?]]; [by right|by left]|].
  unfold contender_ok in Hrole. destruct (l_pc l) eqn:Hp; [..|done].
  - exists [], []. destruct Hrole as [-> _]. split_and!; [done|constructor|by left].
  - exists (l_seen l), []. rewrite app_nil_r. split_and!; [done| |by left].
    destruct Hrole as [Hq _]. by eapply quiet_dull.
  - destruct Hrole as [(h & -> & Hq) _]. exists h, [c]. split_and!; [done|by eapply quiet_dull|].
    right. split; [done|]. by destruct Hend as [[? _]|[? _]].
  - destruct Hrole as [(h & -> & Hq) _]. exists h, [c]. split_and!; [done|by eapply quiet_dull|].
    right. split; [done|]. by destruct Hend as [[? _]|[? _]].
  - destruct Hlos. by eexists _, _.
  - exists (l_seen l), []. rewrite app_nil_r. split_and!; [done| |by left].
    destruct Hrole as [Hq _]. by eapply quiet_dull.
Qed.

Lemma may_end_streaming v body id l tail :
  leg_ok v body id l → streaming_winner l = true → l_pc l ≠ PDone → may_end v id l →
  tail_ok v (l_pc l) (l_left l) tail → tail_ok v PDone (l_left l) tail.
Proof.
  intros [_ _ Hrole] Hsw Hpc Hend Ht. rewrite Hsw in Hrole. destruct Hrole as (Hw & _ & _).
  assert (length tail ≤ 1) as Hlen.
  { unfold tail_ok, stream_over in Ht. destruct (l_pc l); naive_solver. }
  split; [done|]. destruct Hend as [(w & ? & ?)|[?|[?|[_ Hend]]]]; [congruence|auto..|].
  destruct Hend as [[_ [?|Hf]]|[Hp Hleft]]; [congruence|rewrite Hf in Ht; apply Ht|].
  rewrite Hp in Ht. right. right. by left.
Qed.

Lemma finish_leg_inv s body k m id l l0 :
  race_inv s body k m → r_legs s !! id = Some l0 → l_pc l0 ≠ PDone → leg_ok s body id l →
  streaming_winner l = streaming_winner l0 → ¬ cancelling l → may_end s id l →
  race_inv (finish_leg legs id l s) body k m.
Proof.
  intros Hinv Hl Hpc Hok Hsw Hlos Hend. eapply finish_inv; [done..|]. apply ended_ok; [done|done| |].
  - intros Hs Hp tail. by eapply may_end_streaming.
  - intros. by eapply may_end_exhausted.
Qed.

(** A leg sees that the race is over. *)
Lemma stop_may_end s body k m id l l0 :
  race_inv s body k m → r_legs s !! id = Some l0 → l_pc l0 ≠ PDone → _should_stop s = true → may_end s id l.
Proof.
  intros Hinv Hl Hpc [Hst|?]%should_stop_or; [|by right; left].
  destruct (running_leg _ _ _ _ _ _ Hinv Hl Hpc) as [_ Hr]. destruct (Hr Hst); unfold may_end; auto.
Qed.

Lemma not_streaming v body id l :
  leg_ok v body id l → match l_pc l with PDelay | PClaim _ | PLosers _ _ => True | _ => False end →
  streaming_winner l = false ∧ contender_ok v id l.
Proof.
  intros [_ _ Hrole] Hpc. destruct (streaming_winner l); [|done].
  destruct Hrole as (_ & _ & ? & ? & ? & ? & _ & _ & _ & _ & Ht). by destruct (l_pc l).
Qed.

Lemma start_leg_inv s body k m leg l :
  race_inv s body k m → r_legs s !! leg_id leg = Some l → l_pc l = PDelay →
  race_inv (start_leg legs leg l s) body k m.
Proof.
  intros Hinv Hl Hpc. pose proof (ri_legs _ _ _ _ Hinv _ _ Hl) as Hok.
  assert (¬ cancelling l) as Hlos by (intros (? & ? & ?); congruence).
  unfold start_leg. destruct (_should_stop s) eqn:Hst.
  { eapply finish_leg_inv; [done|done|by rewrite Hpc|done|done|done|]. eapply stop_may_end; [done|done|by rewrite Hpc|done]. }
  destruct (not_streaming _ _ _ _ Hok) as [Hsw Hrole]; [by rewrite Hpc|].
  unfold contender_ok in Hrole. rewrite Hpc in Hrole. destruct Hrole as [Hseen Hne].
  destruct (winner_leg_id s) as [w|] eqn:Hw.
  { eapply finish_leg_inv; [done|done|by rewrite Hpc|done|done|done|]. left. exists w. split; [done|congruence]. }
  set (l' := MkLegState PStream _ _ _ _).
  change (race_inv (set_leg (leg_id leg) l' (on_vars (add_started (leg_id leg)) s)) body k m).
  eapply set_leg_inv; [by apply add_started_inv|done|by rewrite Hpc|done|by rewrite Hpc|done|].
  constructor; simpl; [apply Hok|set_solver|]. rewrite Hsw. unfold contender_ok. simpl. rewrite Hseen Hw.
  split_and!; [left; constructor|done|set_solver].
Qed.

(** The next chunk of a stream. *)
Lemma chunk_ok v body id seen c rest won watchdog :
  leg_ok v body id (MkLegState PStream seen (c :: rest) won watchdog) →
  leg_ok v body id (MkLegState (PChunk c) (seen ++ [c]) rest won watchdog).
Proof.
  intros [(leg & Hleg & Hscr) Hwd Hrole]. simpl in *. constructor; simpl.
  - exists leg. split; [done|]. by rewrite -app_assoc.
  - intros H. by destruct (Hwd H).
  - destruct won.
    + destruct Hrole as (Hw & He & pre & c0 & cs & tail & H1 & H2 & H3 & H4 & H5). simpl in *. subst.
      split; [done|]. split; [done|]. exists pre, c0, cs, [c]. split_and!; try done.
      by rewrite app_nil_r -app_assoc.
    + destruct Hrole as (Hq & Hw & Hst). simpl in *. split_and!; [by exists seen|done|done].
Qed.

Lemma stream_chunk_inv s body k m id seen c rest won watchdog :
  race_inv s body k m → r_legs s !! id = Some (MkLegState PStream seen (c :: rest) won watchdog) →
  let l := MkLegState (PChunk c) (seen ++ [c]) rest won watchdog in
  race_inv (if _should_stop s then finish_leg legs id l s else set_leg id l s) body k m.
Proof.
  intros Hinv Hl l. pose proof (chunk_ok _ _ _ _ _ _ _ _ (ri_legs _ _ _ _ Hinv _ _ Hl)) as Hok.
  destruct (_should_stop s) eqn:Hst.
  - eapply finish_leg_inv; [done|done|done|done|done|by intros (? & ? & ?)|].
    eapply stop_may_end; [done|done|done|done].
  - by eapply set_leg_inv.
Qed.

Lemma stream_end_inv s body k m id leg seen won watchdog :
  race_inv s body k m → r_legs s !! id = Some (MkLegState PStream seen [] won watchdog) →
  let l := MkLegState PStream seen [] won watchdog in
  race_inv (match leg_end leg with
            | EndNormal => finish_leg legs id l s
            | EndRoutingError | EndException => set_leg id (set_pc l PFailing) s
            end) body k m.
Proof.
  intros Hinv Hl l. pose proof (ri_legs _ _ _ _ Hinv _ _ Hl) as Hok.
  assert (leg_ok s body id (set_pc l PFailing)) as Hfail.
  { destruct Hok as [Hscr Hwd Hrole]. constructor; simpl in *; [done|intros H; by destruct (Hwd H)|].
    destruct won; [|done]. destruct Hrole as (Hw & He & pre & c0 & cs & tail & H1 & H2 & H3 & H4 & H5).
    simpl in *. subst tail. split; [done|]. split; [done|]. exists pre, c0, cs, []. split_and!; try done. split; [simpl; lia|]. right. right. by left. }
  destruct (leg_end leg); [|by eapply set_leg_inv..].
  eapply finish_leg_inv; [done|done|done|done|done|by intros (? & ? & ?)|].
  right. right. right. destruct Hok as [_ _ Hrole]. simpl in Hrole. split; [|by right].
  simpl. intros ->. apply Hrole.
Qed.

Lemma quiet_snoc v id h c : meaningful c = false → quiet v id h → quiet v id (h ++ [c]).
Proof.
  intros Hc [Hd|Hq]; [|by right]. left. apply Forall_app. split; [done|]. by constructor.
Qed.

(** A winner's further chunks go to the client. *)
Lemma emit_inv s body k m id l c :
  race_inv s body k m → r_legs s !! id = Some l → l_pc l = PChunk c → streaming_winner l = true →
  race_inv (put (QChunk c None) (set_leg id (set_pc l PStream) s)) (body ++ [QChunk c None]) k m.
Proof.
  intros Hinv Hl Hpc Hsw. pose proof (ri_legs _ _ _ _ Hinv _ _ Hl) as [Hscr Hwd Hrole].
  rewrite Hsw in Hrole. destruct Hrole as (Hw & He & pre & c0 & cs & tail & Hseen & Hd & Hc0 & Hbody & Ht).
  rewrite Hpc in Ht. simpl in Ht. subst tail.
  destruct (running_leg _ _ _ _ _ _ Hinv Hl ltac:(by rewrite Hpc)) as [-> Hst].
  destruct Hinv as [H1 H2 H3 H4 H5 H6 H7 H8 H9 H10]. constructor; simpl; try done.
  - apply (legs_update s _ body _ id (set_pc l PStream)); [done| |].
    + intros j Hj. constructor; simpl; auto. right. exists id. done.
    + constructor; simpl; [done|intros H; by destruct (Hwd H)|]. rewrite Hsw. split; [done|]. split; [done|].
      exists pre, c0, (cs ++ [c]), []. simpl. rewrite Hseen Hbody fmap_app app_nil_r.
      split_and!; [done|done|done|done|done].
  - intros j. rewrite H2 lookup_insert_is_Some. destruct (decide (j = id)); naive_solver.
  - by rewrite H3 /= !app_nil_r -app_assoc.
  - congruence.
  - lia.
  - intros w Hw'. assert (w = id) as -> by congruence. destruct (H6 id Hw) as (Hf & lw & Hlw & He' & Hn).
    split; [done|]. rewrite lookup_insert_eq. eexists. split; [done|]. simpl. rewrite Hsw. simplify_eq.
    split; [naive_solver|congruence].
  - intros Hs. destruct (H9 Hs) as [Hf _]. split; [done|]. destruct (Hst Hs); auto.
Qed.

Lemma check_chunk_inv s body k m id l c :
  race_inv s body k m → r_legs s !! id = Some l → l_pc l = PChunk c →
  ∃ body', race_inv (check_chunk legs meaningful terminal_error id l c s) body' k m.
Proof.
  intros Hinv Hl Hpc. pose proof (ri_legs _ _ _ _ Hinv _ _ Hl) as Hok.
  assert (l_pc l ≠ PDone) as Hnd by by rewrite Hpc.
  unfold check_chunk. destruct (match winner_leg_id s with Some w => _ | None => _ end) eqn:Hother.
  { exists body. eapply finish_leg_inv; [done|done|done|done|done| |].
    - intros (? & ? & ?). congruence.
    - left. destruct (winner_leg_id s) as [w|]; [|done]. exists w. split; [done|].
      intros ->. by rewrite String.eqb_refl in Hother. }
  destruct Hok as [Hscr Hwd Hrole].
  assert (∀ pc, pc ≠ PDone → l_watchdog l ≠ None → id ∈ leg_streaming_started s ∧ pc ≠ PDone) as Hwd'.
  { intros pc Hp H. by destruct (Hwd H). }
  destruct (terminal_error c) eqn:Hte.
  { exists body. eapply set_leg_inv; [done|done|done|done|by rewrite Hpc|done|]. constructor; simpl; [done|by apply Hwd'|].
    destruct (streaming_winner l).
    - destruct Hrole as (Hw & He & pre & c0 & cs & tail & H1 & H2 & H3 & H4 & H5). rewrite Hpc in H5. simpl in H5.
      split; [done|]. split; [done|]. exists pre, c0, cs, tail. split_and!; try done. subst tail.
      split; [done|]. right. right. right. by exists c.
    - unfold contender_ok in *. rewrite Hpc in Hrole. destruct Hrole as ((h & Hseen & Hq) & Hw & Hst). simpl.
      rewrite Hseen. split_and!; [|done|done]. apply quiet_snoc; [by apply Hterm|done]. }
  destruct (streaming_winner l) eqn:Hsw; [by eexists; apply emit_inv|].
  unfold contender_ok in Hrole. rewrite Hpc in Hrole. destruct Hrole as ((h & Hseen & Hq) & Hw & Hst).
  exists body. destruct (meaningful c) eqn:Hm; simpl.
  - eapply set_leg_inv; [done|done|done|done|by rewrite Hpc|done|]. constructor; simpl; [done|by apply Hwd'|].
    rewrite Hsw. split_and!; [by exists h|done|done|done].
  - eapply set_leg_inv; [done|done|done|done|by rewrite Hpc|done|]. constructor; simpl; [done|by apply Hwd'|].
    rewrite Hsw. unfold contender_ok. simpl. rewrite Hseen. split_and!; [by apply quiet_snoc|done|done].
Qed.

(** ** The win *)

Lemma not_emitted s body k m : race_inv s body k m → winner_leg_id s = None → winner_first_chunk_emitted s = false.
Proof.
  intros Hinv Hw. destruct (winner_first_chunk_emitted s) eqn:He; [|done].
  by destruct (ri_emitted _ _ _ _ Hinv He).
Qed.

Lemma claim_inv s body k m id l c :
  race_inv s body k m → r_legs s !! id = Some l → l_pc l = PClaim c →
  race_inv (claim legs id l c s) body k m.
Proof.
  intros Hinv Hl Hpc. pose proof (ri_legs _ _ _ _ Hinv _ _ Hl) as Hok.
  assert (l_pc l ≠ PDone) as Hnd by by rewrite Hpc.
  destruct (not_streaming _ _ _ _ Hok) as [Hsw Hrole]; [by rewrite Hpc|].
  unfold contender_ok in Hrole. rewrite Hpc in Hrole. destruct Hrole as ((h & Hseen & Hq) & Hw & Hst & Hm).
  unfold claim. destruct (bool_decide (winner_leg_id s = None)) eqn:Hnone; [destruct (_should_stop s) eqn:Hrun|].
  - simpl. eapply set_leg_inv; [done|done|done|done|by rewrite Hpc|done|].
    destruct Hok as [Hscr Hwd _]. constructor; simpl; [done|intros H; by destruct (Hwd H)|].
    rewrite Hsw. split_and!; [by right; left|done|done].
  - apply bool_decide_eq_true in Hnone. simpl.
    pose proof (not_emitted _ _ _ _ Hinv Hnone) as He.
    destruct (running_leg _ _ _ _ _ _ Hinv Hl Hnd) as [-> Hrs].
    destruct Hinv as [H1 H2 H3 H4 H5 H6 H7 H8 H9 H10]. constructor; simpl; try done.
    + eapply (legs_update s _ body body id); [done| |].
      * intros j Hj. constructor; simpl; eauto.
      * destruct Hok as [Hscr _ _]. constructor; simpl; [done|done|]. rewrite Hsw.
        split_and!; [|done|done|done|set_solver|set_solver]. exists h. split; [done|]. by eapply quiet_dull.
    + intros j. rewrite H2 lookup_insert_is_Some. destruct (decide (j = id)); naive_solver.
    + lia.
    + intros w [= <-]. split; [done|]. rewrite lookup_insert_eq. eexists. split; [done|]. simpl.
      split; [congruence|]. intros _. split; [done|]. by eexists _, _.
    + intros Hs. split; [done|]. destruct (Hrs Hs); auto.
  - simpl. apply bool_decide_eq_false in Hnone. eapply set_leg_inv; [done|done|done|done|by rewrite Hpc|done|].
    destruct Hok as [Hscr Hwd _]. constructor; simpl; [done|intros H; by destruct (Hwd H)|].
    rewrite Hsw. split_and!; [|done|done]. right. right. destruct (winner_leg_id s) as [w|]; [|done].
    exists w. split; [done|congruence].
Qed.

Lemma loser_inv s body k m id l c todo loser ok :
  race_inv s body k m → r_legs s !! id = Some l → l_pc l = PLosers c todo →
  race_inv (_request_leg_cancel ok loser (set_leg id (set_pc l (PLosers c (todo ∖ {[ loser ]}))) s)) body k m.
Proof.
  intros Hinv Hl Hpc. set (l' := set_pc l _). set (s' := _request_leg_cancel ok loser s).
  assert (_request_leg_cancel ok loser (set_leg id l' s) = set_leg id l' s') as ->.
  { subst s'. unfold _request_leg_cancel. simpl. by case_decide. }
  pose proof (request_cancel_inv _ _ _ _ ok loser Hinv) as Hinv'.
  assert (loser ∈ cancel_requested s') as Hreq by (apply request_cancel_requested, Hinv).
  assert (r_legs s' !! id = Some l) as Hl' by by rewrite request_cancel_legs.
  pose proof (ri_legs _ _ _ _ Hinv' _ _ Hl') as Hok.
  destruct (not_streaming _ _ _ _ Hok) as [Hsw Hrole]; [by rewrite Hpc|].
  eapply set_leg_inv; [done|done|by rewrite Hpc|done| |done|].
  { intros c' todo'. rewrite Hpc. intros [= <- <-]. by eexists. }
  destruct Hok as [Hscr Hwd _]. constructor; [done|intros H; by destruct (Hwd H)|]. subst l'. simpl. rewrite Hsw.
  unfold contender_ok in *. rewrite Hpc in Hrole. simpl. destruct Hrole as (? & ? & ? & ? & Hsub & Hnin).
  split_and!; [done|done|done|done| |set_solver]. intros j Hj. destruct (decide (j = loser)); set_solver.
Qed.

(** No leg is cancelling losers before there is a winner, or after it has
    emitted. *)
Definition settled v : Prop := winner_leg_id v = None ∨ winner_first_chunk_emitted v = true.

Lemma settled_not_cancelling s body k m id l :
  race_inv s body k m → settled s → r_legs s !! id = Some l → ¬ cancelling l.
Proof.
  intros Hinv Hset Hl (c & todo & Hpc). pose proof (ri_legs _ _ _ _ Hinv _ _ Hl) as Hok.
  destruct (not_streaming _ _ _ _ Hok) as [_ Hrole]; [by rewrite Hpc|].
  unfold contender_ok in Hrole. rewrite Hpc in Hrole. destruct Hrole as (_ & _ & Hw & He & _).
  destruct Hset; congruence.
Qed.

Lemma winner_settled_settled s body k m : race_inv s body k m → winner_settled s = true → settled s.
Proof.
  intros Hinv. unfold winner_settled. destruct (winner_leg_id s) as [w|] eqn:Hw; [|by left].
  destruct (winner_first_chunk_emitted s) eqn:He; [by right|]. simpl.
  destruct (ri_winner _ _ _ _ Hinv w Hw) as (_ & l & -> & _ & Hn). by destruct (Hn He) as (_ & c & todo & ->).
Qed.

Lemma cancel_task_vars s id : vars (cancel_task legs id s) = vars s.
Proof using Type. unfold cancel_task. destruct (r_legs s !! id) as [l|]; [|done]. by destruct (l_pc l). Qed.

Lemma cancel_task_inv s body k m id :
  race_inv s body k m → settled s → (∀ l, r_legs s !! id = Some l → may_end s id l) →
  race_inv (cancel_task legs id s) body k m.
Proof.
  intros Hinv Hset Hend. unfold cancel_task. destruct (r_legs s !! id) as [l|] eqn:Hl; [|done].
  assert (l_pc l ≠ PDone → race_inv (finish_leg legs id l s) body k m) as Hfin.
  { intros Hpc. eapply finish_leg_inv; [done|done|done|by eapply ri_legs|done| |by apply Hend].
    by eapply settled_not_cancelling. }
  by destruct (l_pc l); try apply Hfin.
Qed.

Lemma cancel_losers_inv ids s body k m :
  race_inv s body k m → settled s → (∃ w, winner_leg_id s = Some w ∧ w ∉ ids) →
  race_inv (foldl (λ s loser, cancel_task legs loser s) s ids) body k m.
Proof.
  revert s. induction ids as [|id ids IH]; intros s Hinv Hset (w & Hw & Hnin); simpl; [done|].
  apply not_elem_of_cons in Hnin as [Hne Hnin].
  apply IH; [|by rewrite cancel_task_vars|rewrite cancel_task_vars; eauto].
  apply cancel_task_inv; [done|done|]. intros l _. left. eauto.
Qed.

Lemma emit_first_inv s body k m id l c :
  race_inv s body k m → r_legs s !! id = Some l → l_pc l = PLosers c ∅ →
  race_inv (emit_first legs id l c s) [QChunk c (Some id)] k m.
Proof.
  intros Hinv Hl Hpc. pose proof (ri_legs _ _ _ _ Hinv _ _ Hl) as Hok.
  destruct (not_streaming _ _ _ _ Hok) as [Hsw Hrole]; [by rewrite Hpc|].
  unfold contender_ok in Hrole. rewrite Hpc in Hrole. destruct Hrole as ((h & Hseen & Hd) & Hm & Hw & He & Hsub & _).
  rewrite (left_id_L ∅ (∪)) in Hsub.
  destruct (running_leg _ _ _ _ _ _ Hinv Hl ltac:(by rewrite Hpc)) as [-> Hrs].
  unfold emit_first. apply cancel_losers_inv; [|by right|].
  2: { exists id. split; [done|]. intros Hin%list_elem_of_filter. naive_solver. }
  destruct Hok as [Hscr Hwd _]. destruct Hinv as [H1 H2 H3 H4 H5 H6 H7 H8 H9 H10]. constructor; simpl; try done.
  - eapply (legs_update s _ body _ id); [done| |].
    + intros j Hj. constructor; simpl; eauto.
    + constructor; simpl; [done|intros H; by destruct (Hwd H)|]. split; [done|]. split; [done|].
      exists h, c, [], []. simpl. split_and!; done.
  - intros j. rewrite H2 lookup_insert_is_Some. destruct (decide (j = id)); naive_solver.
  - by rewrite H3 (H4 He) /= app_nil_r.
  - lia.
  - intros w Hw'. assert (w = id) as -> by congruence. destruct (H6 id Hw) as (Hf & _). split; [done|].
    rewrite lookup_insert_eq. eexists. split; [done|]. simpl. split; [done|congruence].
  - congruence.
  - intros Hs. destruct (H9 Hs) as [Hf _]. split; [done|]. destruct (Hrs Hs); auto.
Qed.

(** ** Failures and stops *)

Lemma fail_leg_inv s body k m id l ok :
  race_inv s body k m → r_legs s !! id = Some l → l_pc l = PFailing →
  race_inv (fail_leg legs id l ok s) body k m.
Proof.
  intros Hinv Hl Hpc. unfold fail_leg. set (s1 := _request_leg_cancel ok id s). set (b := _ && _).
  assert (race_inv (accelerate b s1) body k m) as Hinv' by by apply accelerate_inv, request_cancel_inv.
  assert (r_legs s1 !! id = Some l) as Hl1 by (subst s1; by rewrite request_cancel_legs).
  pose proof (ri_legs _ _ _ _ Hinv' id l Hl1) as Hok.
  eapply finish_leg_inv; [done|done|by rewrite Hpc|done|done|intros (? & ? & ?); congruence|].
  assert (id ∈ cancel_requested s1) as Hreq by (apply request_cancel_requested, Hinv).
  right. right. right. destruct Hok as [_ _ Hrole]. split; [|left; auto]. intros Hsw. rewrite Hsw in Hrole.
  unfold contender_ok in Hrole. rewrite Hpc in Hrole. apply Hrole.
Qed.

Lemma watchdog_inv s body k m id l ok deadline :
  race_inv s body k m → r_legs s !! id = Some l → l_watchdog l = Some deadline →
  race_inv (if bool_decide (winner_leg_id s = None) && negb (_should_stop s)
            then cancel_task legs id (_request_leg_cancel ok id s)
            else set_leg id (MkLegState (l_pc l) (l_seen l) (l_left l) (streaming_winner l) None) s) body k m.
Proof.
  intros Hinv Hl Hwd. pose proof (ri_legs _ _ _ _ Hinv _ _ Hl) as Hok.
  destruct (lo_watchdog _ _ _ _ Hok) as [Hst Hpc]; [by rewrite Hwd|].
  destruct (bool_decide (winner_leg_id s = None) && negb (_should_stop s)) eqn:Hb.
  - apply andb_true_iff in Hb as [Hnone _]. apply bool_decide_eq_true in Hnone.
    destruct (request_cancel_vars ok id s) as (Hw & _ & _ & _ & _ & Hst' & _).
    apply cancel_task_inv; [by apply request_cancel_inv|left; congruence|].
    intros l' _. right. right. right. split; [by rewrite Hst'|]. left.
    split; [apply request_cancel_requested, Hinv|]. left. congruence.
  - eapply set_leg_inv; [done|done|done|done| |done|]; [eauto|].
    destruct Hok as [Hscr _ Hrole]. constructor; [done|done|exact Hrole].
Qed.

(** The loop body of [_stop_all]. *)
Definition stop_one (ok : str → bool) s id : race_state :=
  cancel_task legs id
    (if bool_decide (winner_leg_id s = Some id) && negb (winner_first_chunk_emitted s) then s
     else _request_leg_cancel (ok id) id s).

Lemma stop_all_foldl ok s : _stop_all legs ok s = foldl (stop_one ok) s (leg_id <$> legs).
Proof using Type. done. Qed.

Lemma stop_one_vars ok s id :
  let s' := stop_one ok s id in
  winner_leg_id s' = winner_leg_id s ∧ race_stopped s' = race_stopped s ∧
  client_cancelled s' = client_cancelled s ∧ r_aborted s' = r_aborted s ∧
  winner_first_chunk_emitted s' = winner_first_chunk_emitted s.
Proof using Type.
  simpl. unfold stop_one. rewrite cancel_task_vars. destruct (_ && _); [done|].
  destruct (request_cancel_vars (ok id) id s) as (? & ? & ? & ? & ? & _). by split_and!.
Qed.

Lemma stop_one_inv ok s body k m id :
  race_inv s body k m → settled s → client_cancelled s = true ∨ r_aborted s = true →
  race_inv (stop_one ok s id) body k m.
Proof.
  intros Hinv Hset Hstop. unfold stop_one. destruct (_ && _).
  - apply cancel_task_inv; [done|done|]. intros l _. destruct Hstop; unfold may_end; auto.
  - destruct (request_cancel_vars (ok id) id s) as (Hw & _ & Hc & Ha & He & _).
    apply cancel_task_inv; [by apply request_cancel_inv|unfold settled in *; by rewrite Hw He|].
    intros l _. unfold may_end. rewrite Hc Ha. destruct Hstop; auto.
Qed.

Definition done_leg s id : Prop := ∀ l, r_legs s !! id = Some l → l_pc l = PDone.

Lemma cancel_task_done s id j : done_leg s j ∨ j = id → done_leg (cancel_task legs id s) j.
Proof.
  intros Hj l. unfold cancel_task. destruct (r_legs s !! id) as [l0|] eqn:Hl0; [|naive_solver].
  assert (r_legs (finish_leg legs id l0 s) !! j = Some l → l_pc l = PDone) as Hfin.
  { simpl. rewrite lookup_insert_Some. intros [[_ <-]|[? Hlj]]; [done|]. destruct Hj; [auto|congruence]. }
  destruct (l_pc l0) eqn:Hpc; try exact Hfin. intros Hl. destruct Hj as [Hj| ->]; [auto|congruence].
Qed.

Lemma stop_one_done ok s id j : done_leg s j ∨ j = id → done_leg (stop_one ok s id) j.
Proof.
  intros Hj. unfold stop_one. apply cancel_task_done. destruct (_ && _); [done|].
  unfold done_leg in *. by rewrite request_cancel_legs.
Qed.

Lemma stop_all_inv ok ids s body k m :
  race_inv s body k m → settled s → client_cancelled s = true ∨ r_aborted s = true →
  let s' := foldl (stop_one ok) s ids in
  race_inv s' body k m ∧ race_stopped s' = race_stopped s ∧ ∀ j, done_leg s j ∨ j ∈ ids → done_leg s' j.
Proof.
  revert s. induction ids as [|id ids IH]; intros s Hinv Hset Hstop; simpl.
  { split_and!; [done|done|]. intros j [?|?%elem_of_nil]; done. }
  destruct (stop_one_vars ok s id) as (Hw & Hs & Hc & Ha & He).
  destruct (IH (stop_one ok s id)) as (Hinv' & Hst & Hdone).
  - by apply stop_one_inv.
  - unfold settled in *. by rewrite Hw He.
  - by rewrite Hc Ha.
  - split_and!; [done|congruence|]. intros j Hj. apply Hdone. rewrite elem_of_cons in Hj.
    destruct Hj as [Hj|[Hj|Hj]]; [left; by apply stop_one_done; left|left; by apply stop_one_done; right|by right].
Qed.

Lemma done_over s body k m : race_inv s body k m → (∀ j, j ∈ leg_id <$> legs → done_leg s j) → over s.
Proof.
  intros Hinv Hdone id l Hl. eapply Hdone; [|done]. apply (elem_of_list_to_set (C := gset string)).
  apply (ri_dom _ _ _ _ Hinv). by eexists.
Qed.

Lemma all_done_over s body k m : race_inv s body k m → all_done legs s = true → over s.
Proof.
  intros Hinv Hall. eapply done_over; [done|]. intros j Hj l Hl.
  unfold all_done in Hall. rewrite forallb_forall in Hall. specialize (Hall j). rewrite Hl in Hall.
  apply list_elem_of_In in Hj. specialize (Hall Hj). by destruct (l_pc l).
Qed.

(** ** Every step *)

Definition queue_inv s : Prop := ∃ body k m, race_inv s body k m.

(** A leg that is asked to stop and goes on is a loser, or the race is over. *)
Definition cancel_ok s : Prop :=
  ∀ id l, r_legs s !! id = Some l → id ∈ cancel_requested s → l_pc l ≠ PDone →
    (∃ w, winner_leg_id s = Some w ∧ w ≠ id) ∨ _should_stop s = true.

Lemma cut_inv s body k m id l how :
  race_inv s body k m → cancel_ok s → r_legs s !! id = Some l → l_pc l = PStream →
  bool_decide (id ∈ cancel_requested s) || client_cancelled s = true →
  race_inv match how with
           | Some EndRoutingError | Some EndException => set_leg id (set_pc l PFailing) s
           | Some EndNormal | None => finish_leg legs id l s
           end body k m.
Proof.
  intros Hinv Hcan Hl Hpc Hcut. pose proof (ri_legs _ _ _ _ Hinv _ _ Hl) as Hok.
  assert (l_pc l ≠ PDone) as Hnd by by rewrite Hpc.
  assert ((∃ w, winner_leg_id s = Some w ∧ w ≠ id) ∨ client_cancelled s = true ∨ r_aborted s = true) as Hwhy.
  { apply orb_true_iff in Hcut as [Hreq|?]; [|auto]. apply bool_decide_eq_true in Hreq.
    destruct (Hcan _ _ Hl Hreq Hnd) as [?|Hst]; [by left|]. apply should_stop_or in Hst as [Hst|?]; [|auto].
    right. by eapply (running_leg s body k m id l). }
  assert (leg_ok s body id (set_pc l PFailing)) as Hfail.
  { destruct Hok as [Hscr Hwd Hrole]. constructor; simpl; [done|intros H; by destruct (Hwd H)|].
    destruct (streaming_winner l); [|unfold contender_ok in *; by rewrite Hpc in Hrole].
    destruct Hrole as (Hw & He & pre & c0 & cs & tail & H1 & H2 & H3 & H4 & H5). rewrite Hpc in H5. simpl in H5.
    subst tail. split; [done|]. split; [done|]. exists pre, c0, cs, []. split_and!; try done.
    split; [simpl; lia|]. destruct Hwhy as [(w & ? & ?)|[?|?]]; [congruence|auto..]. }
  assert (race_inv (finish_leg legs id l s) body k m).
  { eapply finish_leg_inv; [done|done|done|done|done|intros (? & ? & ?); congruence|]. unfold may_end. tauto. }
  assert (race_inv (set_leg id (set_pc l PFailing) s) body k m).
  { eapply set_leg_inv; [done|done|done|done|by rewrite Hpc|done|done]. }
  by destruct how as [[]|].
Qed.

Lemma stop_all_exec s body k m ok :
  race_inv s body k m → r_watcher s = WWaiting → winner_settled s = true →
  queue_inv (on_vars (set_watcher WDone) (put QEnd (_stop_all legs ok s))).
Proof.
  intros Hinv Hw Hset. destruct (ri_watcher _ _ _ _ Hinv Hw) as [Hc Hs].
  destruct (stop_all_inv ok (leg_id <$> legs) s body k m) as (Hinv' & Hst & Hdone);
    [done|by eapply winner_settled_settled|by left|].
  exists body, k, (S m). apply watcher_inv; [|done]. apply put_end_inv; [done|by rewrite stop_all_foldl Hst|].
  eapply done_over; [done|]. intros j Hj. apply Hdone. by right.
Qed.

Lemma orchestrated_exec s body k m :
  race_inv s body k m → all_done legs s = true →
  queue_inv (on_vars set_orchestrated (put QEnd (on_vars (set_watcher WDone) (_mark_race_stopped s)))).
Proof.
  intros Hinv Hall. pose proof (all_done_over _ _ _ _ Hinv Hall) as Ho.
  exists body, k, (S m). apply orchestrated_inv, put_end_inv; [|done|done].
  apply watcher_inv; [|done]. apply stopped_inv; auto.
Qed.

Local Ltac step_of H := repeat (case_match; try discriminate H); simplify_eq.

Lemma exec_queue_inv a s s' :
  queue_inv s → cancel_ok s → exec legs meaningful terminal_error a s = Some s' → queue_inv s'.
Proof.
  intros (body & k & m & Hinv) Hcan Hexec. destruct a; simpl in Hexec.
  - step_of Hexec. eexists _, _, _. by apply advance_inv.
  - step_of Hexec. eexists _, _, _. by apply client_cancelled_inv.
  - destruct (find_leg id) as [leg|] eqn:Hleg; [|done]. apply find_leg_id in Hleg as [<- _].
    step_of Hexec. eexists _, _, _. by apply start_leg_inv.
  - destruct (r_legs s !! id) as [[pc seen [|c rest] won wd]|] eqn:Hl; [by destruct pc| |done].
    destruct pc; simplify_eq. eexists _, _, _. by apply stream_chunk_inv.
  - destruct (find_leg id) as [leg|]; [|done].
    destruct (r_legs s !! id) as [[pc seen [|c rest] won wd]|] eqn:Hl; [|by destruct pc|done].
    destruct pc; simplify_eq. eexists _, _, _. by apply stream_end_inv.
  - destruct (r_legs s !! id) as [l|] eqn:Hl; [|done]. destruct (l_pc l) eqn:Hpc; try done.
    destruct (_ || _) eqn:Hcut; [|done]. apply Some_inj in Hexec. subst s'. eexists _, _, _. by apply cut_inv.
  - step_of Hexec. destruct (check_chunk_inv s body k m id l c) as [body' ?]; [done..|]. by eexists _, _, _.
  - step_of Hexec. eexists _, _, _. by apply claim_inv.
  - step_of Hexec. eexists _, _, _. by eapply loser_inv.
  - step_of Hexec. eexists _, _, _. by eapply emit_first_inv.
  - step_of Hexec. eexists _, _, _. by eapply fail_leg_inv.
  - destruct (r_legs s !! id) as [l|] eqn:Hl; [|done]. destruct (l_watchdog l) as [d|] eqn:Hd; [|done].
    destruct (Qle_bool d (r_now s)); [|done].
    pose proof (watchdog_inv s body k m id l ok d Hinv Hl Hd) as Hw.
    destruct (_ && _); simplify_eq; by eexists _, _, _.
  - destruct (_should_stop s || first_token_event s) eqn:Hb; [done|]. apply orb_false_iff in Hb as [? ?]. simplify_eq.
    eexists _, _, _. by apply keepalive_inv.
  - step_of Hexec. eexists _, _, _. apply watcher_inv; [|done]. apply stopped_inv; [done|auto].
  - step_of Hexec. by eapply stop_all_exec.
  - destruct (all_done legs s) eqn:Hall; [|done]. step_of Hexec. by eapply orchestrated_exec.
  - simplify_eq. eexists _, _, _. by apply abort_inv.
  - destruct (r_aborted s) eqn:Ha; [|done]. step_of Hexec. eexists _, _, _.
    eapply stop_all_inv; [done|by eapply winner_settled_settled|by right].
Qed.

End facts.
