(* ===== verification/RaceCancel.v ===== *)
(** * Who is cancelled

    In every state between two steps, a leg whose cancel callback was called and
    which is not done is a loser, or the race is over.  With this the invariant of
    [ParallelRaceFacts] holds in every reachable state. *)

From S2P Require Import Prelude PyStr PyDict StreamChunks ParallelRace ParallelRaceFacts.
From stdpp Require Import options.

Set Default Proof Using "All".

Section cancel.
Context (legs : list race_leg) (meaningful terminal_error : chunk → bool).
Context (Hids : NoDup (leg_id <$> legs)).
Context (Hterm : ∀ c, terminal_error c = true → meaningful c = false).

Implicit Types (s : race_state) (l : leg_state) (id : str).
Local Notation exec := (exec legs meaningful terminal_error).
Local Notation run := (run legs meaningful terminal_error).
Local Notation queue_inv := (queue_inv legs meaningful terminal_error).

(** The consumer's departure stops the race. *)
Definition stop_ok s : Prop := cancel_ok s ∧ (r_aborted s = true → race_stopped s = true).

(** Steps that ask nobody new to stop: legs end, the race goes on or stops. *)
Record calm s s' : Prop := {
  cm_requested : cancel_requested s' ⊆ cancel_requested s;
  cm_winner : winner_leg_id s' = winner_leg_id s;
  cm_stop : _should_stop s = true → _should_stop s' = true;
  cm_aborted : r_aborted s' = r_aborted s;
  cm_stopped : race_stopped s = true → race_stopped s' = true;
  cm_legs id l' : r_legs s' !! id = Some l' → l_pc l' ≠ PDone → ∃ l, r_legs s !! id = Some l ∧ l_pc l ≠ PDone
}.

Lemma calm_ok s s' : calm s s' → stop_ok s → stop_ok s'.
Proof.
  intros [H1 H2 H3 H4 H5 H6] [Hcan Hab]. split; [|rewrite H4; auto].
  intros id l' Hl' Hreq Hpc. destruct (H6 _ _ Hl' Hpc) as (l & Hl & Hpcl). rewrite H2.
  destruct (Hcan id l Hl) as [?|?]; [set_solver|done|by left|right; auto].
Qed.

Lemma calm_refl s s' :
  r_legs s' = r_legs s → cancel_requested s' = cancel_requested s → winner_leg_id s' = winner_leg_id s →
  r_aborted s' = r_aborted s → (race_stopped s = true → race_stopped s' = true) →
  (client_cancelled s = true → client_cancelled s' = true) → calm s s'.
Proof.
  intros Hl Hr Hw Ha Hs Hc. constructor; [by rewrite Hr|done| |done|done|rewrite Hl; eauto].
  intros [?|?]%should_stop_or; apply should_stop_or; auto.
Qed.

Lemma calm_trans s1 s2 s3 : calm s1 s2 → calm s2 s3 → calm s1 s3.
Proof.
  intros [A1 A2 A3 A4 A5 A6] [B1 B2 B3 B4 B5 B6]. constructor; [set_solver|congruence|auto|congruence|auto|].
  intros id l3 H3 Hpc3. destruct (B6 _ _ H3 Hpc3) as (l2 & H2 & Hpc2). eauto.
Qed.

(** Replacing a leg that runs, or by one that is done. *)
Lemma calm_set s s' id l :
  r_legs s' = <[ id := l ]> (r_legs s) → (l_pc l = PDone ∨ ∃ l0, r_legs s !! id = Some l0 ∧ l_pc l0 ≠ PDone) →
  cancel_requested s' = cancel_requested s → winner_leg_id s' = winner_leg_id s → r_aborted s' = r_aborted s →
  race_stopped s' = race_stopped s → client_cancelled s' = client_cancelled s → calm s s'.
Proof.
  intros Hl Hdone Hr Hw Ha Hs Hc. constructor; [by rewrite Hr|done| |done|by rewrite Hs|].
  - unfold _should_stop. by rewrite Hs Hc.
  - intros j l'. rewrite Hl lookup_insert_Some. intros [[<- <-]|[Hne Hj]] Hpc; [|eauto].
    destruct Hdone; [done|done].
Qed.

Lemma calm_finish s id l : calm s (finish_leg legs id l s).
Proof. eapply calm_set; try done. by left. Qed.

Lemma calm_set_leg s id l l0 : r_legs s !! id = Some l0 → l_pc l0 ≠ PDone → calm s (set_leg id l s).
Proof. intros Hl Hpc. eapply calm_set; try done. right. eauto. Qed.

Lemma calm_cancel_task s id : calm s (cancel_task legs id s).
Proof.
  unfold cancel_task. destruct (r_legs s !! id) as [l|]; [|by apply calm_refl].
  destruct (l_pc l); solve [apply calm_finish | by apply calm_refl].
Qed.

Lemma calm_losers ids s : calm s (foldl (λ s loser, cancel_task legs loser s) s ids).
Proof.
  revert s. induction ids as [|id ids IH]; intros s; simpl; [by apply calm_refl|].
  eapply calm_trans; [apply calm_cancel_task|apply IH].
Qed.

(** Once the race is over, anybody may be asked to stop. *)
Lemma stopped_ok s : _should_stop s = true → (r_aborted s = true → race_stopped s = true) → stop_ok s.
Proof. intros Hs Ha. split; [|done]. intros ?????. by right. Qed.

Lemma stop_all_vars ok ids s :
  let s' := foldl (stop_one legs ok) s ids in
  race_stopped s' = race_stopped s ∧ client_cancelled s' = client_cancelled s ∧ r_aborted s' = r_aborted s.
Proof.
  revert s. induction ids as [|id ids IH]; intros s; simpl; [done|].
  destruct (stop_one_vars legs ok s id) as (_ & Hs & Hc & Ha & _).
  destruct (IH (stop_one legs ok s id)) as (Hs' & Hc' & Ha'). split_and!; congruence.
Qed.

Lemma stop_all_ok s ok :
  stop_ok s → client_cancelled s = true ∨ r_aborted s = true → stop_ok (_stop_all legs ok s).
Proof.
  intros [_ Ha] Hwhy. destruct (stop_all_vars ok (leg_id <$> legs) s) as (Hs' & Hc' & Ha').
  apply stopped_ok; rewrite stop_all_foldl; [|by rewrite Ha' Hs'].
  apply should_stop_or. rewrite Hs' Hc'. destruct Hwhy; auto.
Qed.

(** Asking a leg to stop that is a loser or done by the end of the step. *)
Lemma requested_ok s s' id :
  stop_ok s → cancel_requested s' ⊆ {[ id ]} ∪ cancel_requested s → winner_leg_id s' = winner_leg_id s →
  race_stopped s' = race_stopped s → client_cancelled s' = client_cancelled s → r_aborted s' = r_aborted s →
  (∀ j l', r_legs s' !! j = Some l' → l_pc l' ≠ PDone → ∃ l, r_legs s !! j = Some l ∧ l_pc l ≠ PDone) →
  ((∃ w, winner_leg_id s = Some w ∧ w ≠ id) ∨ done_leg s' id) → stop_ok s'.
Proof.
  intros [Hcan Hab] Hreq Hw Hs Hc Ha Hlegs Hid. split; [|rewrite Hs Ha; done].
  intros j l' Hl' Hj Hpc. unfold _should_stop. rewrite Hw Hs Hc.
  destruct (decide (j = id)) as [->|Hne].
  - destruct Hid as [?|Hd]; [by left|by destruct (Hpc (Hd _ Hl'))].
  - destruct (Hlegs _ _ Hl' Hpc) as (l & Hl & Hpcl). apply (Hcan j l Hl); [set_solver|done].
Qed.

Lemma request_requested ok id s : cancel_requested (_request_leg_cancel ok id s) ⊆ {[ id ]} ∪ cancel_requested s.
Proof. unfold _request_leg_cancel. case_decide; simpl; set_solver. Qed.

Lemma loser_ok s id l c todo loser ok :
  stop_ok s → winner_leg_id s = Some id → r_legs s !! id = Some l → l_pc l = PLosers c todo → id ≠ loser →
  stop_ok (_request_leg_cancel ok loser (set_leg id (set_pc l (PLosers c (todo ∖ {[ loser ]}))) s)).
Proof.
  intros Hok Hw Hl Hpc Hne. set (s1 := set_leg _ _ s).
  destruct (request_cancel_vars ok loser s1) as (Hw1 & Hs1 & Hc1 & Ha1 & _).
  eapply (requested_ok s _ loser); [done|apply (request_requested ok loser s1)|done..| |left; eauto].
  intros j l'. rewrite request_cancel_legs. simpl. rewrite lookup_insert_Some.
  intros [[<- <-]|[_ Hj]] Hpc'; [|eauto]. exists l. by rewrite Hpc.
Qed.

Lemma fail_ok s id l ok : stop_ok s → stop_ok (fail_leg legs id l ok s).
Proof.
  intros Hok. destruct (request_cancel_vars ok id s) as (Hw1 & Hs1 & Hc1 & Ha1 & _).
  eapply (requested_ok s _ id); [done|apply (request_requested ok id s)|done..| |].
  - intros j l'. unfold fail_leg. simpl. rewrite request_cancel_legs lookup_insert_Some.
    intros [[<- <-]|[_ Hj]] Hpc; [done|eauto].
  - right. intros l'. unfold fail_leg. simpl. rewrite lookup_insert_eq. by intros [= <-].
Qed.

Lemma watchdog_ok s id ok : stop_ok s → stop_ok (cancel_task legs id (_request_leg_cancel ok id s)).
Proof.
  intros Hok. destruct (request_cancel_vars ok id s) as (Hw1 & Hs1 & Hc1 & Ha1 & _).
  pose proof (calm_cancel_task (_request_leg_cancel ok id s) id) as Hcalm.
  eapply (requested_ok s _ id); [done|..]; try (by rewrite cancel_task_vars).
  - rewrite cancel_task_vars. apply request_requested.
  - intros j l' Hl' Hpc. destruct (cm_legs _ _ Hcalm _ _ Hl' Hpc) as (l & Hl & Hpcl).
    rewrite request_cancel_legs in Hl. eauto.
  - right. apply (cancel_task_done legs meaningful terminal_error Hids Hterm). by right.
Qed.

(** The winner was not asked to stop. *)
Lemma claim_ok s id l c :
  stop_ok s → r_legs s !! id = Some l → l_pc l = PClaim c → stop_ok (claim legs id l c s).
Proof.
  intros Hok Hl Hpc. unfold claim. destruct (bool_decide (winner_leg_id s = None) && negb (_should_stop s)) eqn:Hb.
  - apply andb_true_iff in Hb as [Hnone Hrun]. apply bool_decide_eq_true in Hnone. apply negb_true_iff in Hrun.
    destruct Hok as [Hcan Hab]. split; [|done]. intros j l' Hl' Hreq Hpc'. simpl in *.
    rewrite lookup_insert_Some in Hl'. destruct Hl' as [[<- <-]|[Hne Hj]]; [|left; eauto].
    destruct (Hcan id l Hl Hreq) as [(w & ? & _)|?]; [by rewrite Hpc|congruence..].
  - eapply calm_ok; [|done]. eapply calm_set_leg; [done|by rewrite Hpc].
Qed.

Local Ltac step_of H := repeat (case_match; try discriminate H); simplify_eq.
Local Ltac calm_step := (eapply calm_ok; [|eassumption]).

Lemma check_calm s id l c :
  r_legs s !! id = Some l → l_pc l = PChunk c → calm s (check_chunk legs meaningful terminal_error id l c s).
Proof.
  intros Hl Hpc. assert (∀ l', calm s (set_leg id l' s)) as Hset.
  { intros l'. eapply calm_set_leg; [done|by rewrite Hpc]. }
  unfold check_chunk. destruct (match winner_leg_id s with Some _ => _ | None => _ end); [apply calm_finish|].
  destruct (terminal_error c); [apply Hset|]. destruct (streaming_winner l).
  - eapply calm_trans; [apply Hset|by apply calm_refl].
  - destruct (meaningful c); apply Hset.
Qed.

Lemma exec_stop_ok a s s' : queue_inv s → stop_ok s → exec a s = Some s' → stop_ok s'.
Proof.
  intros (body & k & m & Hinv) Hok Hexec. destruct a; simpl in Hexec.
  - step_of Hexec. calm_step. by apply calm_refl.
  - step_of Hexec. calm_step. by apply calm_refl.
  - destruct (find_leg legs id) as [leg|] eqn:Hleg; [|done]. apply find_leg_id in Hleg as [<- _].
    destruct (r_legs s !! leg_id leg) as [l|] eqn:Hl; [|done]. destruct (l_pc l) eqn:Hpc; try done.
    destruct (_ || _); [|done]. apply Some_inj in Hexec. subst s'. calm_step. unfold start_leg.
    destruct (_should_stop s); [apply calm_finish|]. destruct (winner_leg_id s) eqn:Hw; [apply calm_finish|].
    eapply calm_trans; [eapply calm_set_leg; [done|by rewrite Hpc]|by apply calm_refl].
  - destruct (r_legs s !! id) as [[pc seen [|c rest] won wd]|] eqn:Hl; [by destruct pc| |done].
    destruct pc; simplify_eq. calm_step. destruct (_should_stop s); [apply calm_finish|by eapply calm_set_leg].
  - destruct (find_leg legs id) as [leg|]; [|done].
    destruct (r_legs s !! id) as [[pc seen [|c rest] won wd]|] eqn:Hl; [|by destruct pc|done].
    destruct pc; simplify_eq. calm_step. destruct (leg_end leg); [apply calm_finish|by eapply calm_set_leg..].
  - destruct (r_legs s !! id) as [l|] eqn:Hl; [|done]. destruct (l_pc l) eqn:Hpc; try done.
    destruct (_ || _); [|done]. apply Some_inj in Hexec. subst s'. calm_step.
    assert (∀ l', calm s (set_leg id l' s)) by (intros l'; eapply calm_set_leg; [done|by rewrite Hpc]).
    destruct how as [[]|]; try done; apply calm_finish.
  - step_of Hexec. calm_step. by apply check_calm.
  - step_of Hexec. by apply claim_ok.
  - destruct (r_legs s !! id) as [l|] eqn:Hl; [|done]. destruct (l_pc l) as [| | | |c todo| |] eqn:Hpc; try done.
    case_decide as Hin; [|done]. apply Some_inj in Hexec. subst s'.
    destruct (not_streaming _ _ _ Hids Hterm _ _ _ _ (ri_legs _ _ _ _ _ _ _ Hinv _ _ Hl)) as [_ Hrole]; [by rewrite Hpc|].
    unfold contender_ok in Hrole. rewrite Hpc in Hrole. destruct Hrole as (_ & _ & Hw & _ & _ & Hnin).
    eapply loser_ok; [done..|]. intros ->. done.
  - destruct (r_legs s !! id) as [l|] eqn:Hl; [|done]. destruct (l_pc l) as [| | | |c todo| |] eqn:Hpc; try done.
    case_decide; [|done]. apply Some_inj in Hexec. subst s'. calm_step. unfold emit_first.
    eapply calm_trans; [|apply calm_losers]. eapply calm_trans; [eapply calm_set_leg; [done|by rewrite Hpc]|by apply calm_refl].
  - step_of Hexec. by apply fail_ok.
  - destruct (r_legs s !! id) as [l|] eqn:Hl; [|done]. destruct (l_watchdog l) as [d|] eqn:Hd; [|done].
    destruct (Qle_bool d (r_now s)); [|done]. destruct (_ && _); apply Some_inj in Hexec; subst s'; [by apply watchdog_ok|].
    calm_step. eapply calm_set_leg; [done|].
    apply (lo_watchdog _ _ _ _ _ _ _ (ri_legs _ _ _ _ _ _ _ Hinv _ _ Hl)). by rewrite Hd.
  - step_of Hexec. calm_step. by apply calm_refl.
  - step_of Hexec. calm_step. by apply calm_refl.
  - destruct (r_watcher s) eqn:Hw; [done| |done]. destruct (winner_settled s); [|done].
    apply Some_inj in Hexec. subst s'. destruct (ri_watcher _ _ _ _ _ _ _ Hinv Hw) as [Hc _].
    eapply calm_ok; [|apply (stop_all_ok s ok Hok); by left]. by apply calm_refl.
  - step_of Hexec. calm_step. by apply calm_refl.
  - simplify_eq. apply stopped_ok; [|done]. apply should_stop_or. by left.
  - destruct (r_aborted s) eqn:Ha; [|done]. step_of Hexec. apply stop_all_ok; [done|by right].
Qed.

(** ** Every schedule *)

Definition inv s : Prop := queue_inv s ∧ stop_ok s.

Lemma exec_inv a s s' : inv s → exec a s = Some s' → inv s'.
Proof.
  intros [Hq Hs] Hexec. split; [|by eapply exec_stop_ok]. eapply exec_queue_inv; [done|done|done|apply Hs|done].
Qed.

Lemma run_inv schedule s s' : inv s → run schedule s = Some s' → inv s'.
Proof.
  revert s. induction schedule as [|a schedule IH]; intros s Hinv Hrun; simpl in Hrun; [by simplify_eq|].
  apply bind_Some in Hrun as (s1 & Ha & Hrun). eapply IH; [|done]. by eapply exec_inv.
Qed.

Lemma reachable_inv s : reachable legs meaningful terminal_error s → inv s.
Proof.
  intros [schedule Hrun]. eapply run_inv; [|done]. split; [exists [], 0, 0; by apply initial_inv|].
  split; [|done]. intros id l _ Hreq. simpl in Hreq. set_solver.
Qed.
End cancel.
