(* ===== verification/RaceProgress.v ===== *)
(** * Races end, and handicaps are respected

    A weight of the legs that every step of a leg lowers and no other step raises
    bounds the number of a race's steps; every leg that is not done has a step, at
    the latest when its handicap is over.  The same weights show that a
    handicapped leg is let go early only after another leg has ended in vain. *)

From S2P Require Import Prelude PyStr PyDict StreamChunks ParallelRace ParallelRaceFacts RaceCancel.
From stdpp Require Import options.

Set Default Proof Using "All".

Lemma size_list_to_set_le (xs : list string) : size (list_to_set xs : gset string) ≤ length xs.
Proof.
  induction xs as [|x xs IH]; [done|]. rewrite list_to_set_cons size_union_alt size_singleton. simpl.
  pose proof (subseteq_size (list_to_set xs ∖ {[ x ]}) (list_to_set xs : gset string)) as Hle.
  assert (size (list_to_set xs ∖ {[ x ]} : gset string) ≤ size (list_to_set xs : gset string)); [|lia].
  apply Hle. set_solver.
Qed.

Lemma sum_list_with_le {A} (f g : A → nat) xs :
  (∀ x, f x ≤ g x) → sum_list_with f xs ≤ sum_list_with g xs.
Proof. intros Hle. induction xs as [|x xs IH]; simpl; [done|]. specialize (Hle x). lia. Qed.

Lemma sum_list_with_lt {A} (f g : A → nat) xs y :
  (∀ x, f x ≤ g x) → y ∈ xs → f y < g y → sum_list_with f xs < sum_list_with g xs.
Proof.
  intros Hle Hin Hlt. pose proof (sum_list_with_le f g) as Hsum.
  induction xs as [|x xs IH]; simpl; [by apply elem_of_nil in Hin|].
  apply elem_of_cons in Hin as [<-|Hin]; [specialize (Hsum xs Hle); lia|]. specialize (Hle x). specialize (IH Hin). lia.
Qed.

Section progress.
Context (legs : list race_leg) (meaningful terminal_error : chunk → bool).

Implicit Types (s : race_state) (l : leg_state) (id : str).
Local Notation exec := (exec legs meaningful terminal_error).
Local Notation run := (run legs meaningful terminal_error).
Local Notation inv := (inv legs meaningful terminal_error).

(** ** Weights *)

Definition chunk_weight : nat := length legs + 5.

(** An upper bound on the steps a leg still takes. *)
Definition leg_weight l : nat :=
  let ahead := chunk_weight * length (l_left l) in
  match l_pc l with
  | PDelay => ahead + 3
  | PStream => ahead + 2
  | PChunk _ => ahead + chunk_weight + 1
  | PClaim _ => ahead + chunk_weight
  | PLosers _ todo => ahead + 3 + size todo
  | PFailing => 1
  | PDone => 0
  end.

Definition weight s id : nat := match r_legs s !! id with Some l => leg_weight l | None => 0 end.

(** The leg whose task an action runs. *)
Definition leg_action (a : action) : option str :=
  match a with
  | AStart id | AChunk id | AStreamEnd id | ACut id _ | ACheck id | AClaim id | ALoser id _ _ | AEmit id | AFail id _ => Some id
  | _ => None
  end.

(** A leg has started and ended. *)
Definition ended_leg s id : Prop :=
  is_Some (r_legs s !! id) ∧ weight s id = 0 ∧ id ∈ leg_streaming_started s.

(** No leg goes back, legs stay started, and the delayed legs are let go only when
    one has started and ended. *)
Record advances s s' : Prop := {
  av_weight id : weight s' id ≤ weight s id;
  av_started : leg_streaming_started s ⊆ leg_streaming_started s';
  av_dom id : is_Some (r_legs s !! id) → is_Some (r_legs s' !! id);
  av_accelerate : handicap_accelerate s' = true → handicap_accelerate s = true ∨ ∃ id, ended_leg s' id
}.

Lemma advances_refl s s' :
  r_legs s' = r_legs s → leg_streaming_started s' = leg_streaming_started s →
  handicap_accelerate s' = handicap_accelerate s → advances s s'.
Proof.
  intros Hl Hs Ha. constructor; [intros id; unfold weight; by rewrite Hl|by rewrite Hs|by rewrite Hl|].
  rewrite Ha. by left.
Qed.

Lemma ended_advances s s' id : advances s s' → ended_leg s id → ended_leg s' id.
Proof.
  intros [Hw Hst Hd _] (H1 & H2 & H3). split; [auto|]. split; [specialize (Hw id); lia|set_solver].
Qed.

Lemma advances_trans s1 s2 s3 : advances s1 s2 → advances s2 s3 → advances s1 s3.
Proof.
  intros H12 H23. constructor.
  - intros id. pose proof (av_weight _ _ H12 id). pose proof (av_weight _ _ H23 id). lia.
  - etransitivity; [apply H12|apply H23].
  - intros id H. by apply H23, H12.
  - intros Ha. destruct (av_accelerate _ _ H23 Ha) as [Ha2|?]; [|by right].
    destruct (av_accelerate _ _ H12 Ha2) as [?|[id Hid]]; [by left|]. right. exists id. by eapply ended_advances.
Qed.

Lemma weight_of s id l : r_legs s !! id = Some l → weight s id = leg_weight l.
Proof. unfold weight. by intros ->. Qed.

Lemma weight_insert s s' id l :
  r_legs s' = <[ id := l ]> (r_legs s) → ∀ j, weight s' j = if decide (j = id) then leg_weight l else weight s j.
Proof.
  intros Heq j. unfold weight. rewrite Heq. case_decide as Hj; [subst; by rewrite lookup_insert_eq|].
  by rewrite lookup_insert_ne.
Qed.

(** Replacing one leg by a lighter one. *)
Lemma set_advances s s' id l :
  r_legs s' = <[ id := l ]> (r_legs s) → leg_streaming_started s ⊆ leg_streaming_started s' →
  (handicap_accelerate s' = true → handicap_accelerate s = true ∨ ∃ id, ended_leg s' id) →
  leg_weight l ≤ weight s id → advances s s'.
Proof.
  intros Heq Hst Ha Hle. constructor; [|done| |done].
  - intros j. rewrite (weight_insert _ _ _ _ Heq). case_decide; [by subst|done].
  - intros j Hj. rewrite Heq lookup_insert_is_Some. destruct (decide (id = j)); auto.
Qed.

Lemma set_lowers s s' id l :
  r_legs s' = <[ id := l ]> (r_legs s) → leg_weight l < weight s id → weight s' id < weight s id.
Proof. intros Heq Hlt. rewrite (weight_insert _ _ _ _ Heq) decide_True //. Qed.

Lemma request_advances ok id s : advances s (_request_leg_cancel ok id s).
Proof.
  unfold _request_leg_cancel. case_decide; by apply advances_refl.
Qed.

(** A leg whose end lets the others go has started. *)
Lemma finish_ended id l s :
  handicap_accelerate (finish_leg legs id l s) = true →
  handicap_accelerate s = true ∨ ended_leg (finish_leg legs id l s) id.
Proof.
  simpl. destruct (handicap_accelerate s); [by left|]. simpl.
  destruct (bool_decide (id ∈ leg_streaming_started s)) eqn:Hst; [|by rewrite andb_false_r].
  intros _. right. apply bool_decide_eq_true in Hst.
  unfold ended_leg, weight. simpl. rewrite lookup_insert_eq. split; [by eexists|done].
Qed.

Lemma finish_advances id l s : advances s (finish_leg legs id l s).
Proof.
  eapply set_advances; [done|done| |apply Nat.le_0_l].
  intros Ha. destruct (finish_ended _ _ _ Ha); eauto.
Qed.

Lemma cancel_task_advances id s : advances s (cancel_task legs id s).
Proof.
  unfold cancel_task. destruct (r_legs s !! id) as [l|]; [|by apply advances_refl].
  destruct (l_pc l); solve [apply finish_advances | by apply advances_refl].
Qed.

Lemma foldl_advances {A} (f : race_state → A → race_state) xs s :
  (∀ s x, advances s (f s x)) → advances s (foldl f s xs).
Proof.
  intros Hf. revert s. induction xs as [|x xs IH]; intros s; simpl; [by apply advances_refl|].
  eapply advances_trans; [apply Hf|apply IH].
Qed.

Lemma stop_all_advances ok s : advances s (_stop_all legs ok s).
Proof.
  apply foldl_advances. intros s0 id. eapply advances_trans; [|apply cancel_task_advances].
  destruct (_ && _); [by apply advances_refl|apply request_advances].
Qed.

(** ** Every step *)

Definition lowers (o : option str) s s' : Prop :=
  advances s s' ∧ match o with Some id => weight s' id < weight s id | None => True end.

Lemma set_lowers_leg s s' id l :
  r_legs s' = <[ id := l ]> (r_legs s) → leg_streaming_started s ⊆ leg_streaming_started s' →
  handicap_accelerate s' = handicap_accelerate s → leg_weight l < weight s id → lowers (Some id) s s'.
Proof.
  intros Hl Hst Ha Hlt. split; [|by eapply set_lowers].
  eapply set_advances; [done|done|rewrite Ha; by left|lia].
Qed.

Lemma finish_lowers id l s : 0 < weight s id → lowers (Some id) s (finish_leg legs id l s).
Proof. intros Hw. split; [apply finish_advances|by eapply set_lowers]. Qed.

Lemma lowers_after o s1 s2 s3 : lowers o s1 s2 → advances s2 s3 → lowers o s1 s3.
Proof.
  intros [Ha Hl] Hb. split; [by eapply advances_trans|]. destruct o as [id|]; [|done].
  destruct Hb as [Hw _ _ _]. specialize (Hw id). lia.
Qed.

Lemma start_lowers leg l s :
  r_legs s !! leg_id leg = Some l → l_pc l = PDelay → lowers (Some (leg_id leg)) s (start_leg legs leg l s).
Proof.
  intros Hl Hpc. assert (weight s (leg_id leg) = chunk_weight * length (l_left l) + 3) as Hw.
  { rewrite (weight_of _ _ _ Hl). unfold leg_weight. by rewrite Hpc. }
  unfold start_leg. destruct (_should_stop s); [apply finish_lowers; lia|].
  destruct (winner_leg_id s); [apply finish_lowers; lia|].
  eapply set_lowers_leg; [done|simpl; set_solver|done|]. unfold leg_weight. simpl. lia.
Qed.

Lemma check_lowers id l c s :
  r_legs s !! id = Some l → l_pc l = PChunk c →
  lowers (Some id) s (check_chunk legs meaningful terminal_error id l c s).
Proof.
  intros Hl Hpc. assert (weight s id = chunk_weight * length (l_left l) + chunk_weight + 1) as Hw.
  { rewrite (weight_of _ _ _ Hl). unfold leg_weight. by rewrite Hpc. }
  unfold chunk_weight in Hw. unfold check_chunk.
  destruct (match winner_leg_id s with Some w => _ | None => _ end); [apply finish_lowers; lia|].
  destruct (terminal_error c); [eapply set_lowers_leg; [done|done|done|]; unfold leg_weight; simpl; lia|].
  destruct (streaming_winner l); [eapply set_lowers_leg; [done|done|done|]; unfold leg_weight, chunk_weight; simpl; lia|].
  destruct (meaningful c); (eapply set_lowers_leg; [done|done|done|]; unfold leg_weight, chunk_weight; simpl; lia).
Qed.

Lemma losers_size id : size (leg_ids legs ∖ {[ id ]}) ≤ length legs.
Proof.
  transitivity (size (leg_ids legs)); [apply subseteq_size; set_solver|].
  unfold leg_ids. etransitivity; [apply size_list_to_set_le|by rewrite length_fmap].
Qed.

Lemma claim_lowers id l c s :
  r_legs s !! id = Some l → l_pc l = PClaim c → lowers (Some id) s (claim legs id l c s).
Proof.
  intros Hl Hpc. assert (weight s id = chunk_weight * length (l_left l) + chunk_weight) as Hw.
  { rewrite (weight_of _ _ _ Hl). unfold leg_weight. by rewrite Hpc. }
  pose proof (losers_size id) as Hsize. unfold chunk_weight in Hw. unfold claim. destruct (_ && _);
    (eapply set_lowers_leg; [done|done|done|]; unfold leg_weight, chunk_weight; simpl; lia).
Qed.

Lemma loser_lowers id l c todo loser ok s :
  r_legs s !! id = Some l → l_pc l = PLosers c todo → loser ∈ todo →
  lowers (Some id) s (_request_leg_cancel ok loser (set_leg id (set_pc l (PLosers c (todo ∖ {[ loser ]}))) s)).
Proof.
  intros Hl Hpc Hin. eapply lowers_after; [|apply request_advances]. eapply set_lowers_leg; [done|done|done|].
  rewrite (weight_of _ _ _ Hl). unfold leg_weight. rewrite Hpc. simpl.
  assert (size (todo ∖ {[ loser ]}) < size todo); [|lia]. apply subset_size. set_solver.
Qed.

Lemma emit_lowers id l c s :
  r_legs s !! id = Some l → l_pc l = PLosers c ∅ → lowers (Some id) s (emit_first legs id l c s).
Proof.
  intros Hl Hpc. unfold emit_first. eapply lowers_after; [|apply foldl_advances; intros; apply cancel_task_advances].
  eapply set_lowers_leg; [done|done|done|]. rewrite (weight_of _ _ _ Hl). unfold leg_weight. rewrite Hpc. simpl. lia.
Qed.

Lemma fail_lowers id l ok s :
  r_legs s !! id = Some l → l_pc l = PFailing →
  (winner_leg_id s = None → id ∈ leg_streaming_started s) → lowers (Some id) s (fail_leg legs id l ok s).
Proof.
  intros Hl Hpc Hstart. assert (weight s id = 1) as Hone.
  { rewrite (weight_of _ _ _ Hl). unfold leg_weight. by rewrite Hpc. }
  destruct (request_cancel_vars ok id s) as (Hw & _ & _ & _ & _ & Hst & _).
  assert (r_legs (fail_leg legs id l ok s) = <[ id := ended l ]> (r_legs s)) as Hlegs.
  { unfold fail_leg. simpl. by rewrite request_cancel_legs. }
  split; [|eapply set_lowers; [done|rewrite Hone; apply Nat.lt_0_1]].
  eapply set_advances; [done|unfold fail_leg; simpl; by rewrite Hst| |apply Nat.le_0_l].
  intros Ha. destruct (decide (id ∈ leg_streaming_started s)) as [Hin|Hnin].
  - right. exists id. split; [rewrite Hlegs lookup_insert_eq; by eexists|].
    split; [by rewrite (weight_insert _ _ _ _ Hlegs) decide_True|unfold fail_leg; simpl; by rewrite Hst].
  - left. unfold fail_leg in Ha. simpl in Ha. rewrite Hst in Ha.
    rewrite (bool_decide_eq_false_2 (id ∈ _)) // andb_false_r /= orb_false_r Hw in Ha.
    rewrite (bool_decide_eq_false_2 (winner_leg_id s = None)) in Ha; [tauto|].
    simpl in Ha. rewrite orb_false_r in Ha. unfold _request_leg_cancel in Ha. by case_decide.
Qed.

(** A failing leg of a race without a winner has started. *)
Lemma failing_started s id l :
  inv s → r_legs s !! id = Some l → l_pc l = PFailing → winner_leg_id s = None → id ∈ leg_streaming_started s.
Proof.
  intros [(body & k & m & Hinv) _] Hl Hpc Hw. destruct (ri_legs _ _ _ _ _ _ _ Hinv _ _ Hl) as [_ _ Hrole].
  destruct (streaming_winner l); [destruct Hrole as [? _]; congruence|].
  unfold contender_ok in Hrole. rewrite Hpc in Hrole. apply Hrole.
Qed.

Local Ltac step_of H := repeat (case_match; try discriminate H); simplify_eq.

Lemma exec_lowers a s s' : inv s → exec a s = Some s' → lowers (leg_action a) s s'.
Proof.
  intros Hinv Hexec. destruct a; simpl in *.
  - step_of Hexec. split; [by apply advances_refl|done].
  - step_of Hexec. split; [by apply advances_refl|done].
  - destruct (find_leg legs id) as [leg|] eqn:Hleg; [|done]. apply find_leg_id in Hleg as [<- _].
    step_of Hexec. by apply start_lowers.
  - destruct (r_legs s !! id) as [[pc seen [|c rest] won wd]|] eqn:Hl; [by destruct pc| |done].
    destruct pc; simplify_eq.
    assert (weight s id = chunk_weight * S (length rest) + 2) as Hw by by rewrite (weight_of _ _ _ Hl).
    unfold chunk_weight in Hw. destruct (_should_stop s); [apply finish_lowers; lia|].
    eapply set_lowers_leg; [done|done|done|]. unfold leg_weight, chunk_weight. simpl. lia.
  - destruct (find_leg legs id) as [leg|]; [|done].
    destruct (r_legs s !! id) as [[pc seen [|c rest] won wd]|] eqn:Hl; [|by destruct pc|done].
    destruct pc; simplify_eq.
    assert (weight s id = 2) as Hw by (rewrite (weight_of _ _ _ Hl); unfold leg_weight; simpl; lia).
    destruct (leg_end leg); [apply finish_lowers; lia|..];
      (eapply set_lowers_leg; [done|done|done|]; unfold leg_weight; simpl; lia).
  - destruct (r_legs s !! id) as [l|] eqn:Hl; [|done]. destruct (l_pc l) eqn:Hpc; try done.
    destruct (_ || _); [|done]. apply Some_inj in Hexec. subst s'.
    assert (2 ≤ weight s id) as Hw by (rewrite (weight_of _ _ _ Hl); unfold leg_weight; rewrite Hpc; lia).
    assert (lowers (Some id) s (set_leg id (set_pc l PFailing) s)).
    { eapply set_lowers_leg; [done|done|done|]. unfold leg_weight. simpl. lia. }
    destruct how as [[]|]; try done; apply finish_lowers; lia.
  - step_of Hexec. by apply check_lowers.
  - step_of Hexec. by apply claim_lowers.
  - step_of Hexec. by eapply loser_lowers.
  - step_of Hexec. by eapply emit_lowers.
  - step_of Hexec. eapply fail_lowers; [done|done|]. by eapply failing_started.
  - destruct (r_legs s !! id) as [l|] eqn:Hl; [|done]. destruct (l_watchdog l) as [d|]; [|done].
    destruct (Qle_bool d (r_now s)); [|done]. split; [|done]. destruct (_ && _); simplify_eq.
    + eapply advances_trans; [apply request_advances|apply cancel_task_advances].
    + eapply set_advances; [done|done|by left|]. by rewrite (weight_of _ _ _ Hl).
  - step_of Hexec. split; [by apply advances_refl|done].
  - step_of Hexec. split; [by apply advances_refl|done].
  - step_of Hexec. split; [|done].
    eapply advances_trans; [apply stop_all_advances|by apply advances_refl].
  - step_of Hexec. split; [by apply advances_refl|done].
  - step_of Hexec. split; [by apply advances_refl|done].
  - step_of Hexec. split; [apply stop_all_advances|done].
Qed.

(** ** Bounded races *)

Definition total_weight s : nat := sum_list_with (weight s) (leg_id <$> legs).

(** Only a leg of the race can act. *)
Lemma weighty_leg s id : inv s → 0 < weight s id → id ∈ leg_id <$> legs.
Proof.
  intros [(body & k & m & Hinv) _] Hw. unfold weight in Hw. destruct (r_legs s !! id) as [l|] eqn:Hl; [|lia].
  apply (elem_of_list_to_set (C := gset string)), (ri_dom _ _ _ _ _ _ _ Hinv). by eexists.
Qed.

Lemma exec_total a s s' :
  inv s → exec a s = Some s' →
  total_weight s' + (if decide (leg_action a = None) then 0 else 1) ≤ total_weight s.
Proof.
  intros Hinv Hexec. destruct (exec_lowers _ _ _ Hinv Hexec) as [[Hle _ _ _] Hlow]. unfold total_weight.
  destruct (leg_action a) as [id|]; simpl.
  - assert (sum_list_with (weight s') (leg_id <$> legs) < sum_list_with (weight s) (leg_id <$> legs)); [|lia].
    eapply sum_list_with_lt; [done| |done]. eapply weighty_leg; [done|lia].
  - pose proof (sum_list_with_le _ _ (leg_id <$> legs) Hle). lia.
Qed.

Context (Hids : NoDup (leg_id <$> legs)).
Context (Hterm : ∀ c, terminal_error c = true → meaningful c = false).

Definition leg_steps (schedule : list action) : nat := length (filter (λ a, leg_action a ≠ None) schedule).

Lemma run_total schedule s s' :
  inv s → run schedule s = Some s' → total_weight s' + leg_steps schedule ≤ total_weight s.
Proof.
  revert s. unfold leg_steps. induction schedule as [|a schedule IH]; intros s Hinv Hrun; simpl in Hrun.
  { simplify_eq. simpl. lia. }
  apply bind_Some in Hrun as (s1 & Ha & Hrun). pose proof (exec_total _ _ _ Hinv Ha) as Hstep.
  pose proof (IH s1 ltac:(by eapply exec_inv) Hrun) as Hrest. rewrite filter_cons.
  destruct (leg_action a) eqn:Hact; simpl in *; lia.
Qed.

Lemma initial_weight : total_weight (initial_race legs) =
  sum_list_with (λ leg, chunk_weight * length (leg_script leg) + 3) legs.
Proof.
  unfold total_weight. assert (∀ leg, leg ∈ legs →
    weight (initial_race legs) (leg_id leg) = chunk_weight * length (leg_script leg) + 3) as Hw.
  { intros leg Hin. rewrite (weight_of _ _ (MkLegState PDelay [] (leg_script leg) false None)); [|done].
    apply elem_of_list_to_map_1; [by rewrite -list_fmap_compose|]. apply list_elem_of_fmap. eauto. }
  revert Hw. generalize (weight (initial_race legs)) as f. generalize chunk_weight as n. clear.
  induction legs as [|x xs IH]; intros n f Hw; simpl; [done|].
  rewrite Hw; [apply elem_of_cons; by left|]. rewrite (IH n f); [|done]. intros. apply Hw, elem_of_cons. by right.
Qed.

(** ** Progress *)

(** A leg that is not done has a step, once its handicap is over. *)
Lemma leg_can_step s id l :
  inv s → r_legs s !! id = Some l → l_pc l ≠ PDone →
  ∃ d a s', leg_action a = Some id ∧ run [ATick d; a] s = Some s'.
Proof.
  intros [(body & k & m & Hinv) _] Hl Hpc.
  destruct (ri_legs _ _ _ _ _ _ _ Hinv _ _ Hl) as [(leg & Hleg & Hscr) _ _].
  destruct l as [pc seen left won wd]. simpl in *.
  assert (∀ a d, Qltb d 0 = false → is_Some (exec a (on_vars (advance d) s)) → leg_action a = Some id →
    ∃ d a s', leg_action a = Some id ∧ run [ATick d; a] s = Some s') as Hstep.
  { intros a d Hd [s' Ha] Hid. exists d, a, s'. split; [done|]. simpl. rewrite Hd. simpl. by rewrite Ha. }
  assert (Qltb 0 0 = false) as H0 by done.
  destruct pc; try done.
  - set (d := Qpymax 0 (max_handicap legs - handicap_seconds leg - r_now s)).
    assert (0 <= d)%Q by apply Qpymax_ge_l.
    assert (max_handicap legs - handicap_seconds leg - r_now s <= d)%Q by apply Qpymax_ge_r.
    apply (Hstep (AStart id) d); [by destruct (Qltb_spec d 0); [exfalso; lra|]| |done]. simpl. rewrite Hleg Hl. simpl.
    assert (Qle_bool (max_handicap legs - handicap_seconds leg) (r_now s + d) = true) as ->; [|rewrite orb_true_r; by eexists].
    apply Qle_bool_iff. lra.
  - destruct left as [|c rest].
    + apply (Hstep (AStreamEnd id) 0%Q H0); [|done]. simpl. rewrite Hleg Hl. by eexists.
    + apply (Hstep (AChunk id) 0%Q H0); [|done]. simpl. rewrite Hl. by eexists.
  - apply (Hstep (ACheck id) 0%Q H0); [|done]. simpl. rewrite Hl. by eexists.
  - apply (Hstep (AClaim id) 0%Q H0); [|done]. simpl. rewrite Hl. by eexists.
  - destruct (decide (todo = ∅)) as [->|Hne].
    + apply (Hstep (AEmit id) 0%Q H0); [|done]. simpl. rewrite Hl. by eexists.
    + apply set_choose_L in Hne as [loser Hin]. apply (Hstep (ALoser id loser true) 0%Q H0); [|done].
      simpl. rewrite Hl. simpl. rewrite decide_True //.
  - apply (Hstep (AFail id true) 0%Q H0); [|done]. simpl. rewrite Hl. by eexists.
Qed.

Lemma not_all_done s : all_done legs s = false → ∃ id l, r_legs s !! id = Some l ∧ l_pc l ≠ PDone.
Proof.
  unfold all_done. clear Hids. induction (leg_id <$> legs) as [|id ids IH]; simpl; [done|].
  destruct (r_legs s !! id) as [l|] eqn:Hl; [|exact IH]. destruct (l_pc l) eqn:Hpc; simpl; [..|exact IH];
    intros _; exists id, l; by rewrite Hpc.
Qed.

(** What happens in a race left to itself: time passes and legs run. *)
Definition undisturbed (a : action) : Prop :=
  match a with ATick _ => True | _ => leg_action a ≠ None end.

Lemma can_finish n s :
  inv s → total_weight s ≤ n →
  ∃ schedule s', Forall undisturbed schedule ∧ run schedule s = Some s' ∧ all_done legs s' = true.
Proof.
  revert s. induction n as [|n IH]; intros s Hinv Hn; (destruct (all_done legs s) eqn:Hall;
    [exists [], s; split_and!; [constructor|done|done]|]);
    apply not_all_done in Hall as (id & l & Hl & Hpc);
    destruct (leg_can_step s id l Hinv Hl Hpc) as (d & a & s1 & Hact & Hrun);
    pose proof (run_total _ _ _ Hinv Hrun) as Htot; unfold leg_steps in Htot; rewrite !filter_cons Hact in Htot;
    simpl in Htot; [lia|].
  destruct (IH s1) as (schedule & s' & Hun & Hrun' & Hdone).
  - eapply run_inv; [done|done|exact Hinv|exact Hrun].
  - lia.
  - exists (ATick d :: a :: schedule), s'. split_and!; [|  |done].
    + constructor; [done|]. constructor; [|done]. unfold undisturbed. by destruct a.
    + simpl in Hrun |- *. destruct (Qltb d 0); [done|]. simpl in *. destruct (exec a _); simpl in *; [|done].
      by simplify_eq.
Qed.
End progress.
