(* ===== verification/RaceGuarantees.v ===== *)
(** * Guarantees of a parallel race

    The theorems of [ParallelCompletionRacer.race] with the real notions of a
    meaningful token and of a terminal error, for every schedule: what the client
    gets, how the losers are treated, when a race without a winner ends, that
    every race ends, and when a handicap is shortened. *)

From S2P Require Import Prelude PyStr PyDict StreamChunks ParallelRace ParallelRaceFacts RaceCancel RaceProgress.
From stdpp Require Import options.

Set Default Proof Using "All".

(** What the consumer of the queue yields: everything before the first end mark. *)
Fixpoint client_view (q : list item) : list item :=
  match q with
  | [] | QEnd :: _ => []
  | i :: q' => i :: client_view q'
  end.

(** The first chunk of a stream, with the winner's name, and the others. *)
Definition stream_items (w : str) (c0 : chunk) (cs : list chunk) : list item :=
  QChunk c0 (Some w) :: ((λ c, QChunk c None) <$> cs).

Lemma client_view_app q m : QEnd ∉ q → client_view (q ++ replicate m QEnd) = q.
Proof.
  induction q as [|i q IH]; simpl; [by destruct m|]. intros [Hi Hq]%not_elem_of_cons.
  destruct i; [by rewrite IH..|done].
Qed.

Lemma keepalives_not_end k : QEnd ∉ replicate k QKeepalive.
Proof. intros [? _]%elem_of_replicate. done. Qed.

Lemma stream_items_not_end w c0 cs : QEnd ∉ stream_items w c0 cs.
Proof. unfold stream_items. rewrite elem_of_cons list_elem_of_fmap. naive_solver. Qed.

Section guarantees.
Context (json_loads : str → option json) (utf8_decode : str → str).
Context (legs : list race_leg) (Hids : NoDup (leg_id <$> legs)).

Implicit Types (s : race_state).
Local Notation meaningful := (_is_meaningful_token json_loads utf8_decode).
Local Notation run := (run legs meaningful is_terminal_error).
Local Notation exec := (exec legs meaningful is_terminal_error).
Local Notation reachable := (reachable legs meaningful is_terminal_error).
Local Notation inv := (inv legs meaningful is_terminal_error).

Local Lemma race_reachable_inv s : reachable s → inv s.
Proof. apply reachable_inv; [done|apply terminal_error_not_meaningful]. Qed.

(** The winner that has emitted, with what the queue holds of it. *)
Lemma emitted_stream s body k m :
  race_inv legs meaningful is_terminal_error s body k m → winner_first_chunk_emitted s = true →
  ∃ leg l pre c0 cs tail, leg ∈ legs ∧ winner_leg_id s = Some (leg_id leg) ∧ r_legs s !! leg_id leg = Some l ∧
    leg_script leg = pre ++ c0 :: cs ++ tail ++ l_left l ∧ Forall (λ c, meaningful c = false) pre ∧
    meaningful c0 = true ∧ body = stream_items (leg_id leg) c0 cs ∧
    tail_ok is_terminal_error s (l_pc l) (l_left l) tail ∧
    ∀ other, other ∈ legs → other ≠ leg → leg_id other ∈ cancel_requested s.
Proof.
  intros Hinv He. destruct (winner_leg_id s) as [w|] eqn:Hw; [|by destruct (ri_emitted _ _ _ _ _ _ _ Hinv He)].
  destruct (ri_winner _ _ _ _ _ _ _ Hinv w Hw) as (_ & l & Hl & Hem & _). destruct (Hem He) as [Hsw Hreq].
  destruct (ri_legs _ _ _ _ _ _ _ Hinv w l Hl) as [(leg & Hleg & Hscr) _ Hrole].
  apply find_leg_id in Hleg as [<- Hin]. rewrite Hsw in Hrole.
  destruct Hrole as (_ & _ & pre & c0 & cs & tail & Hseen & Hd & Hc0 & Hbody & Ht).
  exists leg, l, pre, c0, cs, tail. split_and!; try done.
  - rewrite -Hscr Hseen. by rewrite -!app_assoc /= -!app_assoc.
  - intros other Hother Hne. apply Hreq, elem_of_difference. split.
    + unfold leg_ids. apply elem_of_list_to_set, list_elem_of_fmap. eauto.
    + rewrite elem_of_singleton. intros Heq. apply Hne.
      assert (find_leg legs (leg_id other) = Some other) as Ho by by apply find_leg_elem.
      assert (find_leg legs (leg_id leg) = Some leg) as Hle by by apply find_leg_elem.
      rewrite Heq in Ho. congruence.
Qed.

(** What the queue holds for the client. *)
Lemma client_stream s :
  reachable s →
  ∃ k, client_view (r_queue s) = replicate k QKeepalive ∨
    ∃ leg pre c0 cs rest, leg ∈ legs ∧ winner_leg_id s = Some (leg_id leg) ∧
      leg_script leg = pre ++ c0 :: cs ++ rest ∧
      Forall (λ c, meaningful c = false) pre ∧ meaningful c0 = true ∧
      client_view (r_queue s) = replicate k QKeepalive ++ stream_items (leg_id leg) c0 cs ∧
      ∀ other, other ∈ legs → other ≠ leg → leg_id other ∈ cancel_requested s.
Proof.
  intros [(body & k & m & Hinv) _]%race_reachable_inv. exists k. rewrite (ri_queue _ _ _ _ _ _ _ Hinv) app_assoc.
  destruct (winner_first_chunk_emitted s) eqn:He.
  - right. destruct (emitted_stream _ _ _ _ Hinv He)
      as (leg & l & pre & c0 & cs & tail & Hin & Hw & _ & Hscr & Hd & Hc0 & -> & _ & Hreq).
    exists leg, pre, c0, cs, (tail ++ l_left l). split_and!; try done.
    apply client_view_app. rewrite elem_of_app. intros [H|H]; [by apply keepalives_not_end in H|].
    by apply stream_items_not_end in H.
  - left. rewrite (ri_body _ _ _ _ _ _ _ Hinv He) app_nil_r. apply client_view_app, keepalives_not_end.
Qed.

(** C5: The client gets keep-alives, then nothing but the stream of one leg, the
    winner, from its first meaningful token on and without a gap; by then the
    cancel callback of every other leg has been called. *)
Theorem client_sees_one_stream s :
  reachable s →
  ∃ k, client_view (r_queue s) = replicate k QKeepalive ∨
    ∃ leg pre c0 cs rest, leg ∈ legs ∧ winner_leg_id s = Some (leg_id leg) ∧
      leg_script leg = pre ++ c0 :: cs ++ rest ∧
      Forall (λ c, meaningful c = false) pre ∧ meaningful c0 = true ∧
      client_view (r_queue s) = replicate k QKeepalive ++ stream_items (leg_id leg) c0 cs ∧
      ∀ other, other ∈ legs → other ≠ leg → leg_id other ∈ cancel_requested s.
Proof. apply client_stream. Qed.

(** What it holds at the end. *)
Lemma finished_stream s :
  reachable s → QEnd ∈ r_queue s → client_cancelled s = false → r_aborted s = false →
  ∃ k, match winner_leg_id s with
  | Some w => ∃ leg pre c0 cs rest, leg ∈ legs ∧ leg_id leg = w ∧ leg_script leg = pre ++ c0 :: cs ++ rest ∧
      Forall (λ c, meaningful c = false) pre ∧ meaningful c0 = true ∧
      (rest = [] ∨ ∃ c rest', rest = c :: rest' ∧ is_terminal_error c = true) ∧
      client_view (r_queue s) = replicate k QKeepalive ++ stream_items w c0 cs
  | None => client_view (r_queue s) = replicate k QKeepalive ∧
      ∀ leg, leg ∈ legs → leg_id leg ∈ leg_streaming_started s ∧
        ∃ seen unseen rest, leg_script leg = seen ++ unseen ++ rest ∧ Forall (λ c, meaningful c = false) seen ∧
          (unseen = [] ∧ rest = [] ∨ leg_id leg ∈ cancel_requested s ∧ length unseen ≤ 1)
  end.
Proof.
  intros [(body & k & m & Hinv) _]%race_reachable_inv Hend Hc Ha. exists k.
  pose proof (ri_queue _ _ _ _ _ _ _ Hinv) as Hq. rewrite app_assoc in Hq.
  assert (QEnd ∉ replicate k QKeepalive ++ body) as Hnot.
  { rewrite elem_of_app. intros [H|H]; [by apply keepalives_not_end in H|].
    destruct (winner_first_chunk_emitted s) eqn:He.
    - destruct (emitted_stream _ _ _ _ Hinv He) as (leg & l & pre & c0 & cs & tail & _ & _ & _ & _ & _ & _ & -> & _).
      by apply stream_items_not_end in H.
    - rewrite (ri_body _ _ _ _ _ _ _ Hinv He) in H. by apply elem_of_nil in H. }
  assert (0 < m) as Hm.
  { destruct m; [|lia]. by rewrite Hq app_nil_r in Hend. }
  destruct (ri_end _ _ _ _ _ _ _ Hinv Hm) as [_ Hover].
  rewrite Hq (client_view_app _ _ Hnot). destruct (winner_leg_id s) as [w|] eqn:Hw.
  - destruct (winner_first_chunk_emitted s) eqn:He.
    + destruct (emitted_stream _ _ _ _ Hinv He)
        as (leg & l & pre & c0 & cs & tail & Hin & Hw' & Hl & Hscr & Hd & Hc0 & Hbody & Ht & _).
      rewrite (Hover _ _ Hl) in Ht. exists leg, pre, c0, cs, (tail ++ l_left l). split_and!; try done; [congruence| |].
      * destruct Ht as [_ [?|[?|[[-> ->]|(c & -> & Hte)]]]]; [congruence..|by left|]. right. by eexists _, _.
      * rewrite Hbody. do 2 f_equal. congruence.
    + destruct (ri_winner _ _ _ _ _ _ _ Hinv w Hw) as (_ & l & Hl & _ & Hn).
      destruct (Hn He) as (_ & c & todo & Hpc). by rewrite (Hover _ _ Hl) in Hpc.
  - split.
    { rewrite (ri_body _ _ _ _ _ _ _ Hinv); [|by rewrite app_nil_r]. eapply not_emitted; [..|done|done];
        [done|apply terminal_error_not_meaningful]. }
    intros leg Hin. assert (is_Some (r_legs s !! leg_id leg)) as [l Hl].
    { apply (ri_dom _ _ _ _ _ _ _ Hinv). unfold leg_ids. apply elem_of_list_to_set, list_elem_of_fmap. eauto. }
    destruct (ri_legs _ _ _ _ _ _ _ Hinv _ _ Hl) as [(leg' & Hleg & Hscr) _ Hrole].
    rewrite find_leg_elem // in Hleg. simplify_eq. destruct (streaming_winner l); [destruct Hrole as [? _]; congruence|].
    unfold contender_ok in Hrole. rewrite (Hover _ _ Hl) in Hrole.
    destruct Hrole as [_ Hex]. destruct (Hex Hw Hc Ha) as (Hst & Hleft & h & t & Hseen & Hd & Ht).
    split; [done|]. exists h, t, (l_left l). split_and!; [|done|].
    + by rewrite -Hscr Hseen -app_assoc.
    + destruct Hleft as [->|?], Ht as [->|[? ?]]; auto; right; split; try done; simpl; lia.
Qed.

(** C16: A race that has ended, neither cancelled by the client nor abandoned by the
    consumer.  With a winner, the client has got the winner's stream to its end
    or up to a terminal error.  Without one, every leg was started and either read
    to its end without a meaningful token or cancelled after a failure or a missed
    first-token deadline, at most one chunk unseen. *)
Theorem finished_race_complete s :
  reachable s → QEnd ∈ r_queue s → client_cancelled s = false → r_aborted s = false →
  ∃ k, match winner_leg_id s with
  | Some w => ∃ leg pre c0 cs rest, leg ∈ legs ∧ leg_id leg = w ∧ leg_script leg = pre ++ c0 :: cs ++ rest ∧
      Forall (λ c, meaningful c = false) pre ∧ meaningful c0 = true ∧
      (rest = [] ∨ ∃ c rest', rest = c :: rest' ∧ is_terminal_error c = true) ∧
      client_view (r_queue s) = replicate k QKeepalive ++ stream_items w c0 cs
  | None => client_view (r_queue s) = replicate k QKeepalive ∧
      ∀ leg, leg ∈ legs → leg_id leg ∈ leg_streaming_started s ∧
        ∃ seen unseen rest, leg_script leg = seen ++ unseen ++ rest ∧ Forall (λ c, meaningful c = false) seen ∧
          (unseen = [] ∧ rest = [] ∨ leg_id leg ∈ cancel_requested s ∧ length unseen ≤ 1)
  end.
Proof. apply finished_stream. Qed.

(** A schedule holds at most a fixed number of steps of legs, and from every state
    it reaches, time and the legs alone bring all legs to their end.  This is a
    fact of the steps: that a stream yields or ends when it is asked, that a
    cancel callback returns and that a lock is given up again is taken for
    granted. *)
Theorem every_race_ends schedule s :
  run schedule (initial_race legs) = Some s →
  leg_steps schedule ≤ sum_list_with (λ leg, (length legs + 5) * length (leg_script leg) + 3) legs ∧
  ∃ schedule' s', Forall undisturbed schedule' ∧ run schedule' s = Some s' ∧ all_done legs s' = true.
Proof.
  intros Hrun. assert (inv s) as Hinv by (apply race_reachable_inv; by exists schedule).
  assert (inv (initial_race legs)) as Hinit by (apply race_reachable_inv; by exists []).
  pose proof terminal_error_not_meaningful as Hterm. split.
  - pose proof (initial_weight legs meaningful is_terminal_error Hids (Hterm _ _)) as Hiw.
    unfold chunk_weight in Hiw. rewrite -Hiw.
    pose proof (run_total legs meaningful is_terminal_error Hids (Hterm _ _) _ _ _ Hinit Hrun). lia.
  - by eapply (can_finish legs meaningful is_terminal_error Hids (Hterm _ _)).
Qed.

Lemma accelerated_ended s :
  reachable s → handicap_accelerate s = true → ∃ id, ended_leg legs s id.
Proof.
  intros [schedule Hrun]. revert s Hrun. induction schedule as [|a schedule IH] using rev_ind; intros s Hrun.
  { simpl in Hrun. by simplify_eq. }
  assert (∃ s1, run schedule (initial_race legs) = Some s1 ∧ exec a s1 = Some s) as (s1 & Hrun1 & Ha).
  { clear IH. revert Hrun. generalize (initial_race legs) as s0.
    induction schedule as [|b schedule IH]; intros s0 Hrun; simpl in *.
    - apply bind_Some in Hrun as (s1 & Ha & [= <-]). eauto.
    - apply bind_Some in Hrun as (s1 & Hb & Hrun). rewrite Hb. simpl. by apply IH. }
  intros Hacc. assert (inv s1) as Hinv by (apply race_reachable_inv; by exists schedule).
  destruct (exec_lowers _ _ _ _ _ _ Hinv Ha) as [Hadv _].
  destruct (av_accelerate _ _ _ Hadv Hacc) as [Hacc1|?]; [|done].
  destruct (IH _ Hrun1 Hacc1) as [id Hid]. exists id. by eapply (ended_advances legs meaningful is_terminal_error).
Qed.

(** C17: The handicaps are kept.  A leg is due when its start delay, the largest handicap
    of the race less its own, has passed.  In every state any schedule reaches, a
    leg that starts before it is due does so because another leg had started
    before and has ended. *)
Theorem handicap_respected s s' leg :
  reachable s → leg ∈ legs → exec (AStart (leg_id leg)) s = Some s' →
  (max_handicap legs - handicap_seconds leg <= r_now s)%Q ∨
  ∃ other l, other ∈ legs ∧ other ≠ leg ∧ leg_id other ∈ leg_streaming_started s ∧
    r_legs s !! leg_id other = Some l ∧ l_pc l = PDone.
Proof.
  intros Hreach Hin Hexec. pose proof (race_reachable_inv _ Hreach) as [(body & k & m & Hinv) _].
  simpl in Hexec. rewrite find_leg_elem // in Hexec.
  destruct (r_legs s !! leg_id leg) as [l0|] eqn:Hl0; [|done]. destruct (l_pc l0) eqn:Hpc0; try done.
  destruct (handicap_accelerate s) eqn:Hacc; simpl in Hexec.
  - right. destruct (accelerated_ended s Hreach Hacc) as (id & [l Hl] & Hw & Hst).
    destruct (ri_legs _ _ _ _ _ _ _ Hinv _ _ Hl) as [(other & Hother & _) _ _].
    apply find_leg_id in Hother as [<- Ho]. exists other, l.
    assert (l_pc l = PDone) as Hpc.
    { rewrite (weight_of legs meaningful is_terminal_error _ _ _ Hl) in Hw. unfold leg_weight, chunk_weight in Hw. destruct (l_pc l); [lia..|done]. }
    split_and!; try done. congruence.
  - left. destruct (Qle_bool _ _) eqn:Hle; [|done]. by apply Qle_bool_iff.
Qed.
End guarantees.

(** ** Witnesses and an observation

    Two legs: the second has the larger handicap and so starts first; its stream
    begins with a role chunk. *)

Definition example_legs : list race_leg :=
  [MkLeg "a" 0 0 [ChStr "slow"] EndNormal;
   MkLeg "b" 2 5 [ChStr ""; ChStr "he"; ChStr "llo"] EndNormal].

Definition no_json (_ : str) : option json := None.

Definition example_run (schedule : list action) : option race_state :=
  run example_legs (_is_meaningful_token no_json id) is_terminal_error schedule (initial_race example_legs).

(** The second leg wins. *)
Definition winning_schedule : list action :=
  [AStart "b"; AChunk "b"; ACheck "b"; AKeepalive; ATick 2; AStart "a"; AChunk "b"; ACheck "b"; AChunk "a"; AClaim "b";
   ALoser "b" "a" true; AEmit "b"; AChunk "b"; ACheck "b"; AStreamEnd "b"; AOrchestrated].

Lemma example_ids : NoDup (leg_id <$> example_legs).
Proof. vm_compute. repeat constructor; rewrite ?elem_of_cons ?elem_of_nil; naive_solver. Qed.

Lemma client_sees_one_stream_witness :
  match example_run winning_schedule with
  | Some s => ∃ leg, leg ∈ example_legs ∧ winner_leg_id s = Some (leg_id leg)
  | None => False
  end.
Proof.
  destruct (example_run winning_schedule) as [s|] eqn:Hs; [|by vm_compute in Hs].
  destruct (client_sees_one_stream no_json id example_legs example_ids s (ex_intro _ _ Hs))
    as (k & [Hview|(leg & _ & _ & _ & _ & Hin & Hw & _)]).
  - vm_compute in Hs. simplify_eq. vm_compute in Hview. by destruct k as [|[|k]].
  - exists leg. exact (conj Hin Hw).
Defined.

(** The end of a race the second leg wins. *)
Lemma finished_race_complete_witness :
  match example_run winning_schedule with
  | Some s => ∃ k c0 cs, client_view (r_queue s) = replicate k QKeepalive ++ stream_items "b" c0 cs
  | None => False
  end.
Proof.
  destruct (example_run winning_schedule) as [s|] eqn:Hs; [|by vm_compute in Hs].
  destruct (finished_race_complete no_json id example_legs example_ids s (ex_intro _ _ Hs)) as (k & Hk).
  - vm_compute in Hs. simplify_eq. simpl. rewrite !elem_of_cons. tauto.
  - vm_compute in Hs. by simplify_eq.
  - vm_compute in Hs. by simplify_eq.
  - assert (winner_leg_id s = Some "b"%string) as Hw by (vm_compute in Hs; by simplify_eq). rewrite Hw in Hk.
    destruct Hk as (leg & pre & c0 & cs & rest & _ & _ & _ & _ & _ & _ & Hview). by exists k, c0, cs.
Defined.

Lemma every_race_ends_witness :
  match example_run winning_schedule with
  | Some s => leg_steps winning_schedule ≤ 34 ∧ ∃ schedule' s', run example_legs (_is_meaningful_token no_json id)
      is_terminal_error schedule' s = Some s' ∧ all_done example_legs s' = true
  | None => False
  end.
Proof.
  destruct (example_run winning_schedule) as [s|] eqn:Hs; [|by vm_compute in Hs].
  destruct (every_race_ends no_json id example_legs example_ids _ _ Hs) as (Hle & schedule' & s' & _ & Hrun & Hdone).
  split; [exact Hle|]. exists schedule', s'. exact (conj Hrun Hdone).
Defined.

(** The first leg starts early when the second misses its first-token deadline. *)
Definition early_schedule : list action := [AStart "b"; ATick (1 # 2); AStreamEnd "b"].

(** A leg that ends at once lets the other go. *)
Definition handicapped_legs : list race_leg :=
  [MkLeg "a" 0 0 [ChStr "slow"] EndNormal; MkLeg "b" 2 5 [] EndNormal].

Lemma handicap_respected_witness :
  match run handicapped_legs (_is_meaningful_token no_json id) is_terminal_error early_schedule
          (initial_race handicapped_legs) with
  | Some s => Qle_bool (max_handicap handicapped_legs) (r_now s) = false ∧
      ∃ other, other ∈ handicapped_legs ∧ leg_id other ∈ leg_streaming_started s
  | None => False
  end.
Proof.
  assert (NoDup (leg_id <$> handicapped_legs)) as Hids.
  { vm_compute. repeat constructor; rewrite ?elem_of_cons ?elem_of_nil; naive_solver. }
  destruct (run handicapped_legs _ _ early_schedule _) as [s|] eqn:Hs; [|by vm_compute in Hs].
  assert (Qle_bool (max_handicap handicapped_legs) (r_now s) = false) as Hearly.
  { vm_compute in Hs. simplify_eq. by vm_compute. }
  split; [done|].
  destruct (exec handicapped_legs (_is_meaningful_token no_json id) is_terminal_error (AStart "a") s)
    as [s'|] eqn:Hs'; [|vm_compute in Hs; simplify_eq; vm_compute in Hs'; discriminate Hs'].
  destruct (handicap_respected no_json id handicapped_legs Hids s s'
    (MkLeg "a" 0 0 [ChStr "slow"] EndNormal)) as [Hle|(other & l & Hin & _ & Hst & _)].
  - by exists early_schedule.
  - apply elem_of_cons. by left.
  - done.
  - exfalso. apply Qle_bool_iff in Hle. vm_compute in Hs. by simplify_eq.
  - by exists other.
Defined.

(** A terminal error of the winner after its first token never reaches the client:
    its stream just stops, as if it were complete. *)
Theorem winner_error_dropped :
  ∃ schedule s, let error := ChProcessed (ChStr "") [("error", JStr "boom")] in
    let legs := [MkLeg "a" 0 0 [ChStr "he"; error] EndNormal] in
    run legs (_is_meaningful_token no_json id) is_terminal_error schedule (initial_race legs) = Some s ∧
    r_queue s = [QChunk (ChStr "he") (Some "a"%string); QEnd] ∧ all_done legs s = true.
Proof.
  eexists [AStart "a"; AChunk "a"; ACheck "a"; AClaim "a"; AEmit "a"; AChunk "a"; ACheck "a"; AFail "a" true; AOrchestrated], _.
  split; [by vm_compute|]. split; by vm_compute.
Qed.
