(* ===== verification/ParallelOrchestrator.v ===== *)
(** * Parallel completions

    [src/core/services/parallel_completion_orchestrator.py] with
    [parallel_routing_policy.py] and the entry point in
    [backend_completion_flow/service.py]: when a request is raced, over which
    legs, how a leg is dispatched and cancelled, and what the client of a
    non-streaming request gets.

    What a branch's upstream yields is a parameter, as is [parse_qs]. *)

From Stdlib Require Import Ascii.
From S2P Require Import Prelude PyStr PyDict CompositeDomain SelectorParser WeightedSelector RoutingState.
From S2P Require Import RoutingCoordinator StreamChunks ParallelRace ParallelRaceFacts RaceCancel RaceGuarantees.
From stdpp Require Import options.

(** ** Policy *)

Definition is_parallel_composite_plan (plan : CompositeRoutePlan) : bool :=
  match plan_root_node plan with ParallelGroup _ => true | _ => false end.

Definition PARALLEL_COMPLETION_ACTIVE_KEY : string := "parallel_completion_active".

(** ** Which requests are raced *)

Section planning.
Context (parse_qs : str → option (list (str * list str))).
Implicit Types (context : option RequestContext) (plan : CompositeRoutePlan).

(** [parser.parse(CompositeRoutingInput(selector=..., surface=...))] *)
Definition parse_selector (selector : str) context : res composite_exn CompositeRoutePlan :=
  routing_input ← mk_routing_input
    (MkInput selector (resolve_composite_routing_surface context) false None 32 "" false None None);
  parse parse_qs routing_input.

Definition embedded_text (child : CompositeLeafNode) : str :=
  default "" (leaf_embedded_selector (leaf_selector child)).

(** The executor and the thinker of a group of one of each. *)
Definition special_children (children : list CompositeLeafNode) : option (CompositeLeafNode * CompositeLeafNode) :=
  if negb (length children =? 2) then None
  else match filter (λ child, is_empty (embedded_text child) = false) children,
             filter (λ child, is_thinker child = true) children with
       | [executor], [thinker] => Some (executor, thinker)
       | _, _ => None
       end.

Definition _try_select_special_thinker_parallel_executor plan context :
    res composite_exn (option CompositeRoutePlan) * option RequestContext :=
  match plan_root_node plan with
  | WeightedGroup children =>
      match special_children (nodes children) with
      | None => (Ok None, context)
      | Some (executor, thinker) =>
          let sequence := [executor; thinker] in
          let next_index := cycle_next_index sequence (plan_normalized_selector plan)
                              (ctx_get INTERLEAVED_THINKING_WEIGHTED_CYCLE_STATE_KEY context) false in
          let selected := if next_index =? 0 then executor else thinker in
          if is_thinker selected then (Ok None, context)
          else if is_empty (embedded_text selected) then (Ok None, context)
          else match parse_selector (embedded_text selected) context with
               | Err e => (Err e, context)
               | Ok embedded_plan =>
                   if negb (is_parallel_composite_plan embedded_plan) then (Ok None, context)
                   else (Ok (Some embedded_plan),
                         ctx_set INTERLEAVED_THINKING_WEIGHTED_CYCLE_STATE_KEY
                           (cycle_state_json (plan_normalized_selector plan) sequence next_index) context)
               end
      end
  | _ => (Ok None, context)
  end.

Definition try_parse_parallel_plan (model : str) context :
    res composite_exn (option CompositeRoutePlan) * option RequestContext :=
  let model := strip model in
  if is_empty model || negb (contains_top_level_operator model "!"%char) then (Ok None, context)
  else match parse_selector model context with
       | Err e => (Err e, context)
       | Ok plan =>
           if is_parallel_composite_plan plan then (Ok (Some plan), context)
           else _try_select_special_thinker_parallel_executor plan context
       end.

(** *** The entry point, with the session's stored cycle state

    [session] is the session the resolver finds, if any, as its cycle state. *)

Definition _is_thinker_parallel_selector (model : str) : bool :=
  let selector := strip model in
  str_contains "[thinker]" selector && contains_top_level_operator selector "^"%char &&
  contains_top_level_operator selector "!"%char.

Definition _load_special_parallel_cycle_state (session : option (option json)) (model : str) context :
    option (option json) * option RequestContext :=
  match context with
  | None => (None, context)
  | Some _ =>
      if negb (_is_thinker_parallel_selector model) then (None, context)
      else match session with
           | None => (None, context)
           | Some (Some (JDict d)) =>
               (session, ctx_set INTERLEAVED_THINKING_WEIGHTED_CYCLE_STATE_KEY (JDict d) context)
           | Some _ => (session, context)
           end
  end.

(** [session.update_state] with the context's cycle state. *)
Definition _persist_special_parallel_cycle_state (special_route_session : option (option json)) context
    (session : option (option json)) : option (option json) :=
  match special_route_session, ctx_get INTERLEAVED_THINKING_WEIGHTED_CYCLE_STATE_KEY context with
  | Some _, Some (JDict d) => Some (Some (JDict d))
  | _, _ => session
  end.

(** The plan that is raced, if any, with the context and the session afterwards. *)
Definition _maybe_execute_parallel_completion (session : option (option json)) (model : str) context :
    res composite_exn (option CompositeRoutePlan) * option RequestContext * option (option json) :=
  match ctx_get PARALLEL_COMPLETION_ACTIVE_KEY context with
  | Some (JBool true) => (Ok None, context, session)
  | _ =>
      let '(special_route_session, context) := _load_special_parallel_cycle_state session model context in
      let ephemeral := match context, special_route_session with
                       | Some _, None => _is_thinker_parallel_selector model
                       | _, _ => false
                       end in
      let '(plan, parse_context) := try_parse_parallel_plan model context in
      let context := if ephemeral then context else parse_context in
      match plan with
      | Ok (Some plan) =>
          (Ok (Some plan), context, _persist_special_parallel_cycle_state special_route_session context session)
      | Ok None => (Ok None, context, session)
      | Err e => (Err e, context, session)
      end
  end.

(** [_clone_context_for_leg]: a deep copy that is marked. *)
Definition _clone_context_for_leg context : option RequestContext :=
  ctx_set PARALLEL_COMPLETION_ACTIVE_KEY (JBool true) context.
End planning.

(** ** The legs of a race *)

Definition Q_of_float (x : pyfloat) : option Q :=
  match x with
  | FDec m e => Some (if (0 <=? e)%Z then inject_Z (m * 10 ^ e) else (m # Z.to_pos (10 ^ (- e)))%Q)
  | _ => None
  end.

Definition race_leg_id (index : nat) (leaf : CompositeLeafSelector) : str :=
  "parallel-" +:+ str_of_N (N.of_nat index) +:+ "-" +:+ leaf_normalized_selector leaf.

Section execution.
(** The chunks [call_completion] streams for a branch, and how the stream ends. *)
Context (upstream : nat → CompositeLeafSelector → list chunk * stream_end).

Definition _build_race_leg (index : nat) (leaf : CompositeLeafSelector) : option race_leg :=
  handicap ← Q_of_float (leaf_handicap_seconds leaf);
  ttft ← Q_of_float (leaf_ttft_timeout_seconds leaf);
  let '(script, how) := upstream index leaf in
  Some (MkLeg (race_leg_id index leaf) handicap ttft script how).

Fixpoint build_race_legs (index : nat) (children : list CompositeLeafSelector) : option (list race_leg) :=
  match children with
  | [] => Some []
  | leaf :: children' =>
      leg ← _build_race_leg index leaf;
      legs ← build_race_legs (S index) children';
      Some (leg :: legs)
  end.

(** The legs [execute] races; [None] is its [ValueError]. *)
Definition execute_legs (plan : CompositeRoutePlan) : option (list race_leg) :=
  match plan_root_node plan with
  | ParallelGroup children => build_race_legs 0 children
  | _ => None
  end.
End execution.

(** [_keepalive_factory] *)
Definition _keepalive_factory : chunk :=
  ChProcessed (ChStr (": keep-alive" +:+ newline +:+ newline)) [("_keepalive", JBool true)].

(** [_race_stream]: an item of the race as the envelope yields it. *)
Definition race_stream_item (i : item) : chunk :=
  match i with
  | QChunk (ChProcessed content metadata) _ => ChProcessed content metadata
  | QChunk c _ => ChProcessed c []
  | QKeepalive => _keepalive_factory
  | QEnd => ChNone
  end.

(** [item.content] *)
Definition item_content (c : chunk) : chunk := match c with ChProcessed content _ => content | _ => c end.

(** What [execute] returns without streaming. *)
Definition execute_collected (json_loads : str → option json) (utf8_decode : str → str) (now_ms : Z)
    (items : list item) : list (str * json) :=
  _collect_streaming_envelope_to_response json_loads utf8_decode now_ms
    (item_content <$> (race_stream_item <$> items)).

(** ** Dispatch and cancellation of a leg

    [_LegRuntime] with the task of the upstream call, the generator
    [_stream_factory] and [_cancel_leg_runtime].  An envelope is the presence of a
    cancel callback; [rt_cancel_calls] counts the callback's calls. *)

Inductive call_state : Type := CallNone | CallRunning | CallReturned (envelope : bool) | CallCancelled.

Inductive factory_pc : Type := FReady | FAwaiting | FStreaming | FEnded.

Record _LegRuntime : Type := MkRuntime {
  rt_envelope : option bool;
  rt_call_task : call_state;
  rt_cancelled : bool;
  rt_factory : factory_pc;
  rt_cancel_calls : nat
}.

Definition new_runtime : _LegRuntime := MkRuntime None CallNone false FReady 0.

(** What can happen to a runtime: the racer pulls the stream for the first time,
    the call returns, the generator resumes, somebody cancels. *)
Inductive runtime_op : Type := OpPull | OpReturn (envelope : bool) | OpResume | OpCancel.

Definition _stream_factory_start (r : _LegRuntime) : _LegRuntime :=
  if rt_cancelled r then MkRuntime (rt_envelope r) (rt_call_task r) true FEnded (rt_cancel_calls r)
  else MkRuntime (rt_envelope r) CallRunning false FAwaiting (rt_cancel_calls r).

Definition _stream_factory_resume (r : _LegRuntime) : option _LegRuntime :=
  match rt_call_task r with
  | CallReturned envelope =>
      Some (MkRuntime (Some envelope) (rt_call_task r) (rt_cancelled r)
              (if rt_cancelled r then FEnded else FStreaming) (rt_cancel_calls r))
  | CallCancelled => Some (MkRuntime (rt_envelope r) CallCancelled (rt_cancelled r) FEnded (rt_cancel_calls r))
  | _ => None
  end.

Definition _cancel_leg_runtime (r : _LegRuntime) : _LegRuntime :=
  if rt_cancelled r then r
  else
    let calls := match rt_envelope r with Some true => S (rt_cancel_calls r) | _ => rt_cancel_calls r end in
    let task := match rt_call_task r with CallRunning => CallCancelled | task => task end in
    MkRuntime (rt_envelope r) task true (rt_factory r) calls.

Definition runtime_step (op : runtime_op) (r : _LegRuntime) : option _LegRuntime :=
  match op with
  | OpPull => match rt_factory r with FReady => Some (_stream_factory_start r) | _ => None end
  | OpReturn envelope =>
      match rt_call_task r with
      | CallRunning => Some (MkRuntime (rt_envelope r) (CallReturned envelope) (rt_cancelled r) (rt_factory r)
                               (rt_cancel_calls r))
      | _ => None
      end
  | OpResume => match rt_factory r with FAwaiting => _stream_factory_resume r | _ => None end
  | OpCancel => Some (_cancel_leg_runtime r)
  end.

Fixpoint runtime_run (ops : list runtime_op) (r : _LegRuntime) : option _LegRuntime :=
  match ops with
  | [] => Some r
  | op :: ops' => runtime_step op r ≫= runtime_run ops'
  end.

(** ** Facts *)

(** *** Cancelling *)

Record runtime_ok (r : _LegRuntime) : Prop := {
  ro_calls : rt_cancelled r = false → rt_cancel_calls r = 0;
  ro_once : rt_cancel_calls r ≤ 1;
  ro_running : rt_cancelled r = true → rt_call_task r ≠ CallRunning;
  ro_ready : rt_factory r = FReady → rt_call_task r = CallNone;
  ro_streaming : rt_factory r = FStreaming → ∃ envelope, rt_call_task r = CallReturned envelope ∧
    rt_envelope r = Some envelope ∧ (rt_cancelled r = true → envelope = true → rt_cancel_calls r = 1)
}.

Lemma runtime_step_ok op r r' : runtime_ok r → runtime_step op r = Some r' → runtime_ok r'.
Proof.
  intros [H1 H2 H3 H4 H5] Hstep. destruct op; simpl in Hstep.
  - destruct (rt_factory r) eqn:Hf; try done. simplify_eq. unfold _stream_factory_start.
    destruct (rt_cancelled r) eqn:Hc; constructor; simpl; naive_solver.
  - destruct (rt_call_task r) eqn:Hcall; try done. simplify_eq.
    constructor; simpl; [done|done|done| |]; intros Hf; [by rewrite Hf in H4; specialize (H4 eq_refl)|].
    destruct (H5 Hf) as (? & ? & _). congruence.
  - destruct (rt_factory r) eqn:Hf; try done. unfold _stream_factory_resume in Hstep.
    destruct (rt_call_task r) as [| |env|] eqn:Hcall; simplify_eq; constructor; simpl; try done.
    + by destruct (rt_cancelled r).
    + destruct (rt_cancelled r) eqn:Hc; [done|]. intros _. exists env. naive_solver.
  - simplify_eq. unfold _cancel_leg_runtime. destruct (rt_cancelled r) eqn:Hc; [by constructor; rewrite ?Hc|].
    specialize (H1 eq_refl). constructor; simpl; [done| | | |].
    + destruct (rt_envelope r) as [[]|]; lia.
    + intros _. by destruct (rt_call_task r).
    + intros Hf. by rewrite (H4 Hf).
    + intros Hf. destruct (H5 Hf) as (env & Hcall & Henv & _). exists env. rewrite Hcall Henv.
      split_and!; [done|done|]. intros _ ->. lia.
Qed.

Lemma runtime_run_ok ops r r' : runtime_ok r → runtime_run ops r = Some r' → runtime_ok r'.
Proof.
  revert r. induction ops as [|op ops IH]; intros r Hok Hrun; simpl in Hrun; [by simplify_eq|].
  apply bind_Some in Hrun as (r1 & Hstep & Hrun). eapply IH; [|done]. by eapply runtime_step_ok.
Qed.

(** Whatever happens to a leg, its upstream is told to stop at most once, never
    before it is cancelled, and exactly once when a stream it is reading is
    cancelled; a cancelled leg has no call in flight. *)
Theorem leg_cancelled_once ops r :
  runtime_run ops new_runtime = Some r →
  rt_cancel_calls r ≤ 1 ∧ (rt_cancelled r = false → rt_cancel_calls r = 0) ∧
  (rt_cancelled r = true → rt_call_task r ≠ CallRunning) ∧
  (rt_cancelled r = true → rt_factory r = FStreaming → rt_envelope r = Some true → rt_cancel_calls r = 1).
Proof.
  intros Hrun. assert (runtime_ok r) as [H1 H2 H3 H4 H5]; [by eapply runtime_run_ok; [|done]; constructor; naive_solver|].
  split_and!; [done|done|done|]. intros Hc Hf He. destruct (H5 Hf) as (env & _ & Henv & Hone).
  apply Hone; congruence.
Qed.

Lemma leg_cancelled_once_witness :
  match runtime_run [OpPull; OpReturn true; OpResume; OpCancel; OpCancel] new_runtime with
  | Some r => rt_cancel_calls r ≤ 1
  | None => False
  end.
Proof.
  destruct (runtime_run _ _) as [r|] eqn:Hr; [|done]. by destruct (leg_cancelled_once _ _ Hr).
Defined.

(** A leg that is cancelled after its call has returned, and before its generator
    resumes, keeps its upstream: the callback of the envelope is never called. *)
Theorem cancel_misses_returned_call :
  ∃ r, runtime_run [OpPull; OpReturn true; OpCancel; OpResume; OpCancel] new_runtime = Some r ∧
    rt_envelope r = Some true ∧ rt_cancelled r = true ∧ rt_factory r = FEnded ∧ rt_cancel_calls r = 0.
Proof. by eexists. Qed.

(** *** Leg ids *)

Lemma race_leg_id_index i j a b : race_leg_id i a = race_leg_id j b → i = j.
Proof.
  unfold race_leg_id. rewrite !sapp_cons !sapp_nil_l. intros [= H].
  assert (∀ n t, take_digits (str_of_N n +:+ String "-" t) = (str_of_N n, String "-" t)) as Ht.
  { intros n t. apply take_digits_all; [apply str_of_N_digits|]. by intros c r [= <- <-]. }
  apply (f_equal take_digits) in H. rewrite !Ht in H. injection H as Hn _.
  apply (f_equal parse_nat) in Hn. rewrite !parse_nat_str_of_N in Hn. injection Hn as Hn. lia.
Qed.

Section legs.
Context (upstream : nat → CompositeLeafSelector → list chunk * stream_end).

Lemma build_leg_id i leaf leg :
  _build_race_leg upstream i leaf = Some leg → leg_id leg = race_leg_id i leaf.
Proof.
  unfold _build_race_leg. intros (h & _ & H)%bind_Some. apply bind_Some in H as (q & _ & H).
  destruct (upstream i leaf). by simplify_eq.
Qed.

Lemma build_legs_ids i children legs id :
  build_race_legs upstream i children = Some legs → id ∈ leg_id <$> legs →
  ∃ j leaf, i ≤ j ∧ id = race_leg_id j leaf.
Proof.
  revert i legs. induction children as [|leaf children IH]; intros i legs H Hin; simpl in H.
  { simplify_eq. by apply elem_of_nil in Hin. }
  apply bind_Some in H as (leg & Hleg & H). apply bind_Some in H as (rest & Hrest & [= <-]).
  rewrite fmap_cons elem_of_cons in Hin. destruct Hin as [->|Hin].
  - exists i, leaf. split; [done|]. by apply build_leg_id.
  - destruct (IH _ _ Hrest Hin) as (j & l & Hj & ->). exists j, l. split; [lia|done].
Qed.

(** The legs of a race have different ids, whatever the selectors are. *)
Lemma build_legs_NoDup i children legs :
  build_race_legs upstream i children = Some legs → NoDup (leg_id <$> legs).
Proof.
  revert i legs. induction children as [|leaf children IH]; intros i legs H; simpl in H.
  { simplify_eq. constructor. }
  apply bind_Some in H as (leg & Hleg & H). apply bind_Some in H as (rest & Hrest & [= <-]).
  rewrite fmap_cons. constructor; [|by eapply IH]. intros Hin.
  destruct (build_legs_ids _ _ _ _ Hrest Hin) as (j & l & Hj & Heq).
  rewrite (build_leg_id _ _ _ Hleg) in Heq. apply race_leg_id_index in Heq. lia.
Qed.

Lemma finite_Q x : finite x → is_Some (Q_of_float x).
Proof. intros (m & e & ->). by eexists. Qed.

Lemma build_legs_total i children :
  Forall (leaf_wf KParallel) children → ∃ legs, build_race_legs upstream i children = Some legs ∧
    length legs = length children.
Proof.
  intros Hwf. revert i. induction Hwf as [|leaf children Hleaf _ IH]; intros i; simpl; [by eexists|].
  destruct Hleaf as [_ _ _ _ _ (Hh & Ht & _)]. apply finite_Q in Hh as [h Hh]. apply finite_Q in Ht as [q Hq].
  destruct (IH (S i)) as (legs & Hlegs & Hlen). unfold _build_race_leg. rewrite Hh Hq /=.
  destruct (upstream i leaf). simpl. rewrite Hlegs. eexists. split; [done|]. simpl. by rewrite Hlen.
Qed.
End legs.

(** *** Plans that are raced *)

Lemma parse_selector_wf parse_qs selector context plan :
  parse_selector parse_qs selector context = Ok plan → plan_wf plan.
Proof.
  unfold parse_selector. destruct (mk_routing_input _) as [inp|e]; cbn [mbind res_bind]; [|done].
  intros Hp. pose proof (parse_outcome parse_qs inp) as Ho. unfold parse_outcome_ok in Ho. rewrite Hp in Ho. apply Ho.
Qed.

Lemma raced_plan_wf parse_qs model context plan context' :
  try_parse_parallel_plan parse_qs model context = (Ok (Some plan), context') →
  ∃ children, plan_root_node plan = ParallelGroup children ∧ 2 ≤ length children ∧ Forall (leaf_wf KParallel) children.
Proof.
  assert (∀ sel p, parse_selector parse_qs sel context = Ok p → is_parallel_composite_plan p = true →
    ∃ children, plan_root_node p = ParallelGroup children ∧ 2 ≤ length children ∧ Forall (leaf_wf KParallel) children) as Hwf.
  { intros sel p Hp Hpar. apply parse_selector_wf in Hp as (_ & _ & Hnode). unfold is_parallel_composite_plan in Hpar.
    destruct (plan_root_node p) as [| | |children]; try done. exists children. split; [done|]. exact Hnode. }
  unfold try_parse_parallel_plan. destruct (_ || _); [done|].
  destruct (parse_selector parse_qs (strip model) context) as [plan0|e] eqn:Hparse; [|done].
  destruct (is_parallel_composite_plan plan0) eqn:Hpar; [intros [= <- <-]; by eapply Hwf|].
  unfold _try_select_special_thinker_parallel_executor. destruct (plan_root_node plan0) as [| |children|]; try done.
  destruct (special_children (nodes children)) as [[executor thinker]|]; [|done].
  set (selected := if _ =? 0 then executor else thinker). destruct (is_thinker selected); [done|].
  destruct (is_empty (embedded_text selected)); [done|].
  destruct (parse_selector parse_qs (embedded_text selected) context) as [embedded|e] eqn:Hemb; [|done].
  destruct (is_parallel_composite_plan embedded) eqn:Hpe; simpl; [|done]. intros [= <- <-]. by eapply Hwf.
Qed.

(** *** The aggregated response *)

Lemma item_content_chunk c w : item_content (race_stream_item (QChunk c w)) = item_content c.
Proof. by destruct c. Qed.

Section aggregate.
Context (json_loads : str → option json) (utf8_decode : str → str).
Local Notation coerce := (_coerce_stream_chunk_to_dict json_loads utf8_decode).

Lemma omap_keepalives k xs :
  omap coerce (item_content <$> (race_stream_item <$> replicate k QKeepalive ++ xs)) =
  omap coerce (item_content <$> (race_stream_item <$> xs)).
Proof. induction k as [|k IH]; [done|]. exact IH. Qed.

Lemma stream_contents w c0 cs :
  item_content <$> (race_stream_item <$> stream_items w c0 cs) = item_content <$> c0 :: cs.
Proof.
  unfold stream_items. rewrite !fmap_cons item_content_chunk. f_equal.
  induction cs as [|c cs IH]; [done|]. rewrite !fmap_cons IH item_content_chunk. done.
Qed.

(** Keep-alives leave no trace in an aggregated response. *)
Lemma collected_stream now_ms k w c0 cs :
  execute_collected json_loads utf8_decode now_ms (replicate k QKeepalive ++ stream_items w c0 cs) =
  _collect_streaming_envelope_to_response json_loads utf8_decode now_ms (item_content <$> c0 :: cs).
Proof.
  unfold execute_collected, _collect_streaming_envelope_to_response. by rewrite omap_keepalives (stream_contents w).
Qed.

(** C18: Every request that is raced has at least two legs with ids of their own, and
    when its race is over with a winner the aggregated response is that of the
    winner's stream alone: from its first meaningful token to its end or to a
    terminal error, keep-alives and the other legs' chunks left out. *)
Theorem raced_request_gets_winner parse_qs upstream model context plan context' :
  try_parse_parallel_plan parse_qs model context = (Ok (Some plan), context') →
  ∃ legs, execute_legs upstream plan = Some legs ∧ 2 ≤ length legs ∧ NoDup (leg_id <$> legs) ∧
    ∀ s w now_ms, reachable legs (_is_meaningful_token json_loads utf8_decode) is_terminal_error s →
      QEnd ∈ r_queue s → client_cancelled s = false → r_aborted s = false → winner_leg_id s = Some w →
      ∃ leg pre c0 cs rest, leg ∈ legs ∧ leg_id leg = w ∧ leg_script leg = pre ++ c0 :: cs ++ rest ∧
        Forall (λ c, _is_meaningful_token json_loads utf8_decode c = false) pre ∧
        _is_meaningful_token json_loads utf8_decode c0 = true ∧
        (rest = [] ∨ ∃ c rest', rest = c :: rest' ∧ is_terminal_error c = true) ∧
        execute_collected json_loads utf8_decode now_ms (client_view (r_queue s)) =
        _collect_streaming_envelope_to_response json_loads utf8_decode now_ms (item_content <$> c0 :: cs).
Proof.
  intros (children & Hroot & Hlen & Hwf)%raced_plan_wf.
  destruct (build_legs_total upstream 0 children Hwf) as (legs & Hlegs & Hlen').
  exists legs. unfold execute_legs. rewrite Hroot Hlegs.
  assert (NoDup (leg_id <$> legs)) as Hids by by eapply build_legs_NoDup.
  split_and!; [done|lia|done|]. intros s w now_ms Hreach Hend Hc Ha Hw.
  destruct (finished_stream json_loads utf8_decode legs Hids s Hreach Hend Hc Ha) as (k & Hk).
  rewrite Hw in Hk. destruct Hk as (leg & pre & c0 & cs & rest & Hin & Hid & Hscr & Hd & Hm & Hrest & Hview).
  exists leg, pre, c0, cs, rest. split_and!; [done..|]. rewrite Hview. apply collected_stream.
Qed.
End aggregate.

Lemma raced_request_gets_winner_witness :
  ∃ legs, 2 ≤ length legs ∧ NoDup (leg_id <$> legs).
Proof.
  destruct (try_parse_parallel_plan no_query "a:x![handicap=2]b:y" None) as [[[plan|]|e] context'] eqn:Hp;
    [|vm_compute in Hp; discriminate Hp..].
  destruct (raced_request_gets_winner no_json id no_query (λ _ _, ([ChStr "hi"], EndNormal)) _ _ _ _ Hp)
    as (legs & _ & Hlen & Hids & _).
  exists legs. exact (conj Hlen Hids).
Defined.

(** *** Executor and thinker take turns *)

Section turns.
Context (parse_qs : str → option (list (str * list str))).

Definition unit_executor (l : CompositeLeafSelector) : Prop :=
  leaf_embedded_selector l = None ∨ leaf_weight_annotation l = Some 1%Z ∧ leaf_thinker_annotation l = false.

Lemma mk_embedded_leaf_unit raw normalized mc l s :
  mk_embedded_leaf raw normalized mc = Ok (l, s) → unit_executor l.
Proof.
  unfold mk_embedded_leaf, mk_leaf_selector. simpl.
  destruct (require_text _ raw); [|done]. destruct (require_text _ normalized); [|done]. simpl.
  destruct (require_positive _ mc); [|done]. simpl. intros [= <- <-]. by right.
Qed.

Lemma parse_embedded_unit inp text l s :
  _parse_leaf_allowing_embedded_selector parse_qs inp text = Ok (l, s) → unit_executor l.
Proof.
  assert (∀ t, _parse_leaf parse_qs inp true false t = Ok (l, s) → unit_executor l) as Hleaf.
  { intros t Ht. apply (parse_leaf_ok parse_qs inp KWeighted) in Ht as (_ & Hn & _). by left. }
  unfold _parse_leaf_allowing_embedded_selector. destruct (is_empty _); [done|].
  destruct (_ && _); [apply mk_embedded_leaf_unit|].
  destruct (_extract_prefix_annotations _ _) as [[a n]|]; cbn [mbind res_bind]; [|done].
  destruct (_ || _); [apply Hleaf|]. destruct (ann_thinker a); [apply Hleaf|].
  destruct (contains_any_operator n); [|apply Hleaf]. destruct (_ || _); [done|apply mk_embedded_leaf_unit].
Qed.

Lemma group_plan_root inp op mk ctor what leaves p :
  mk = (λ ls, ctor <$> require_multiple_children what ls) →
  mk_group_plan inp op mk leaves = Ok p → plan_root_node p = ctor leaves.*1.
Proof.
  intros ->. unfold mk_group_plan, require_multiple_children. destruct (_ <? 2); [done|]. simpl.
  unfold mk_plan. destruct (require_text _ (in_selector inp)); [|done]. simpl.
  destruct (require_text _ (join _ _)); [|done]. by intros [= <-].
Qed.

(** An opaque executor weighs one and does not think. *)
Lemma parse_executor_unit inp plan children :
  parse parse_qs inp = Ok plan → plan_root_node plan = WeightedGroup children → Forall unit_executor children.
Proof.
  intros Hp Hroot. unfold parse in Hp. destruct (is_empty _); [done|].
  destruct (_detect_primary_operator _) as [op|]; cycle 1.
  { destruct (_parse_leaf _ _ _ _ _) as [[l s]|]; [|done]. simpl in Hp. unfold mk_plan in Hp.
    apply bind_Ok_inv in Hp as (? & _ & Hp). apply bind_Ok_inv in Hp as (? & _ & Hp). by simplify_eq/=. }
  set (parts := _split_top_level _ _) in Hp.
  destruct (mixes_operators op parts).
  { destruct (Ascii.eqb op "^"); [|done].
    unfold _try_parse_thinker_side_channel_selector in Hp. destruct (negb _); [done|].
    destruct (mapM _ parts) as [leaves|] eqn:Hl; [|done]. cbn [mbind res_bind] in Hp.
    assert (Forall unit_executor leaves.*1) as Hall.
    { apply mapM_Ok_Forall2 in Hl. apply Forall_fmap. eapply Forall2_Forall_r; [exact Hl|].
      apply Forall_true. intros t [l s] Ht. simpl. by eapply parse_embedded_unit. }
    destruct (filter _ leaves) as [|? []]; [done| |done]. destruct (filter _ leaves) as [|ex []]; [done| |done].
    destruct (is_empty _); [done|].
    destruct (mk_group_plan _ _ _ _) as [plan'|] eqn:Hg; [|done]. simpl in Hp. simplify_eq.
    rewrite (group_plan_root _ _ _ WeightedGroup _ _ _ eq_refl Hg) in Hroot. by simplify_eq. }
  assert (∀ mk ctor what leaves, mk = (λ ls, ctor <$> require_multiple_children what ls) →
    (∀ ls, ctor ls ≠ WeightedGroup children) → mk_group_plan inp (String op "") mk leaves = Ok plan → False) as Hother.
  { intros mk ctor what leaves Hmk Hne Hg. apply (Hne leaves.*1). rewrite -Hroot. symmetry. by eapply group_plan_root. }
  destruct (Ascii.eqb op "|") eqn:Hbar.
  { apply Ascii.eqb_eq in Hbar as ->. destruct (mapM _ parts) as [leaves|]; [|done].
    destruct (Hother _ FailoverGroup _ leaves eq_refl ltac:(done) Hp). }
  destruct (Ascii.eqb op "^").
  { destruct (mapM _ parts) as [leaves|] eqn:Hl; [|done]. cbn [mbind res_bind] in Hp.
    destruct (check_weighted_group _ _); [|done]. cbn [mbind res_bind] in Hp.
    rewrite (group_plan_root _ _ _ WeightedGroup _ _ _ eq_refl Hp) in Hroot. simplify_eq.
    apply (mapM_leaves_ok parse_qs inp KWeighted) in Hl as (_ & _ & Hnone & _).
    eapply Forall_impl; [exact Hnone|]. by left. }
  destruct (Ascii.eqb op "!") eqn:Hbang; [|done]. apply Ascii.eqb_eq in Hbang as ->. destruct (existsb _ parts); [done|].
  destruct (mapM _ parts) as [leaves|]; [|done]. destruct (Hother _ ParallelGroup _ leaves eq_refl ltac:(done) Hp).
Qed.

(** What a turn of a session does: race the executor, or go to one branch. *)
Inductive turn : Type := TRace (plan : CompositeRoutePlan) | TLeaf (leaf : CompositeLeafNode) | TFail.

(** A request of a session, given the plan of its selector: the parallel entry
    point, then weighted routing, which reads and stores the cycle state of the
    session too. *)
Definition session_turn (model : str) (plan : CompositeRoutePlan) (children : list CompositeLeafSelector)
    (prefer_first : bool) (c : RequestContext) (cycle : option json) : turn * option json :=
  match _maybe_execute_parallel_completion parse_qs (Some cycle) model (Some c) with
  | (Ok (Some raced), _, Some cycle') => (TRace raced, cycle')
  | (Ok None, context, _) =>
      match _select_interleaved_thinking_weighted_cycle_leaf (nodes children) (plan_normalized_selector plan)
              cycle prefer_first context with
      | (Ok leaf, context') =>
          (TLeaf leaf,
           match ctx_get INTERLEAVED_THINKING_WEIGHTED_CYCLE_STATE_KEY context' with
           | Some (JDict d) => Some (JDict d)
           | _ => cycle
           end)
      | _ => (TFail, cycle)
      end
  | _ => (TFail, cycle)
  end.

Fixpoint session_turns (model : str) (plan : CompositeRoutePlan) (children : list CompositeLeafSelector)
    (prefer_first : bool) (cs : list RequestContext) (cycle : option json) : list turn :=
  match cs with
  | [] => []
  | c :: cs' =>
      let '(t, cycle') := session_turn model plan children prefer_first c cycle in
      t :: session_turns model plan children prefer_first cs' cycle'
  end.

Lemma session_turns_length model plan children prefer_first cs cycle :
  length (session_turns model plan children prefer_first cs cycle) = length cs.
Proof.
  revert cycle. induction cs as [|c cs IH]; intros cycle; [done|]. cbn [session_turns].
  destruct (session_turn _ _ _ _ _ _). cbn [length]. by rewrite IH.
Qed.

(** The sequence of the orchestrator is the one weighted routing builds. *)
Lemma special_sequence children executor thinker :
  Forall unit_executor children → special_children (nodes children) = Some (executor, thinker) →
  _build_interleaved_thinking_sequence (nodes children) = [executor; thinker] ∧
  is_thinker executor = false ∧ is_thinker thinker = true ∧ is_empty (embedded_text executor) = false.
Proof.
  intros Hunit. unfold special_children, nodes. destruct children as [|l1 [|l2 []]]; [done|done| |done].
  apply Forall_cons in Hunit as [H1 H2]. apply Forall_cons in H2 as [H2 _]. simpl.
  rewrite !filter_cons !filter_nil. simpl.
  assert (∀ i l, unit_executor l → is_empty (embedded_text (i, l)) = false →
    is_thinker (i, l) = false ∧ repeat_node (i, l) = [(i, l)]) as Hex.
  { intros i l [Hn|[Hw Ht]] He; [unfold embedded_text in He; simpl in He; by rewrite Hn in He|].
    split; [exact Ht|]. unfold repeat_node, resolved_weight. simpl. by rewrite Hw. }
  unfold _build_interleaved_thinking_sequence. simpl.
  destruct (is_empty (embedded_text (0, l1))) eqn:E1, (is_empty (embedded_text (1, l2))) eqn:E2; simpl; try done.
  - destruct (Hex 1 l2 H2 E2) as [T2 ->]. rewrite T2.
    destruct (is_thinker (0, l1)) eqn:T1; simpl; [|done]. intros [= <- <-]. by rewrite E2.
  - destruct (Hex 0 l1 H1 E1) as [T1 ->]. rewrite T1.
    destruct (is_thinker (1, l2)) eqn:T2; simpl; [|done]. intros [= <- <-]. by rewrite E1.
Qed.

(** The surface of a context plays no role in parsing. *)
Lemma parse_selector_context selector context context' :
  parse_selector parse_qs selector context = parse_selector parse_qs selector context'.
Proof.
  unfold parse_selector, mk_routing_input. cbn [in_selector]. by destruct (require_text _ selector).
Qed.

Section alternation.
Context (model : str) (plan raced : CompositeRoutePlan) (children : list CompositeLeafSelector).
Context (executor thinker : CompositeLeafNode) (prefer_first : bool).
Context (Hsel : _is_thinker_parallel_selector model = true).
Context (Hplan : parse_selector parse_qs (strip model) None = Ok plan).
Context (Hroot : plan_root_node plan = WeightedGroup children).
Context (Hspecial : special_children (nodes children) = Some (executor, thinker)).
Context (Hraced : parse_selector parse_qs (embedded_text executor) None = Ok raced).
Context (Hparallel : is_parallel_composite_plan raced = true).
Set Default Proof Using "All".

Local Notation sequence := [executor; thinker].
Local Notation selector := (plan_normalized_selector plan).
Local Notation key := INTERLEAVED_THINKING_WEIGHTED_CYCLE_STATE_KEY.

Lemma alternation_sequence :
  _build_interleaved_thinking_sequence (nodes children) = sequence ∧
  is_thinker executor = false ∧ is_thinker thinker = true ∧ is_empty (embedded_text executor) = false.
Proof.
  apply special_sequence; [|done]. unfold parse_selector in Hplan. apply bind_Ok_inv in Hplan as (inp & _ & Hp).
  by eapply parse_executor_unit.
Qed.

Lemma index_json i pf :
  cycle_next_index sequence selector (Some (cycle_state_json selector sequence i)) pf = S i mod 2.
Proof.
  destruct alternation_sequence as [Hseq _].
  pose proof (cycle_index_json (nodes children) selector pf i) as H. rewrite Hseq in H. by apply H.
Qed.

(** The parallel entry point, by whose turn it is. *)
Lemma try_parse_turn context :
  try_parse_parallel_plan parse_qs model context =
  if cycle_next_index sequence selector (ctx_get key context) false =? 0
  then (Ok (Some raced), ctx_set key (cycle_state_json selector sequence 0) context)
  else (Ok None, context).
Proof.
  destruct alternation_sequence as (_ & Hex & Hth & Hemb).
  assert (contains_top_level_operator (strip model) "!" = true) as Hbang.
  { unfold _is_thinker_parallel_selector in Hsel. apply andb_true_iff in Hsel as [_ ?]. done. }
  unfold try_parse_parallel_plan. rewrite Hbang.
  destruct (strip model) as [|a rest] eqn:Hm; [done|]. rewrite -Hm. cbn [is_empty orb negb].
  rewrite (parse_selector_context _ context None) Hm Hplan.
  unfold is_parallel_composite_plan. rewrite Hroot. unfold _try_select_special_thinker_parallel_executor.
  rewrite Hroot Hspecial. cbv zeta. destruct (cycle_next_index _ _ _ _ =? 0) eqn:Hi; [|by rewrite Hth].
  rewrite Hex Hemb (parse_selector_context _ context None) Hraced Hparallel. apply Nat.eqb_eq in Hi. by rewrite Hi.
Qed.

Definition fresh (c : RequestContext) : Prop :=
  ctx_get PARALLEL_COMPLETION_ACTIVE_KEY (Some c) ≠ Some (JBool true) ∧ ctx_get key (Some c) = None.

Definition state_is (cycle : option json) (i : nat) : Prop :=
  i = 0 ∧ cycle = None ∨ ∃ j, i = S j mod 2 ∧ cycle = Some (cycle_state_json selector sequence j).

(** The entry point with the cycle state of the session. *)
Lemma maybe_execute_turn c cycle i :
  fresh c → state_is cycle i →
  _maybe_execute_parallel_completion parse_qs (Some cycle) model (Some c) =
  if i =? 0 then (Ok (Some raced), ctx_set key (cycle_state_json selector sequence 0)
                    match cycle with Some st => ctx_set key st (Some c) | None => Some c end,
                  Some (Some (cycle_state_json selector sequence 0)))
  else (Ok None, match cycle with Some st => ctx_set key st (Some c) | None => Some c end, Some cycle).
Proof.
  intros [Hact Hkey] Hst. unfold _maybe_execute_parallel_completion.
  set (inactive := let '(_, _) := _load_special_parallel_cycle_state _ _ _ in _).
  assert (match ctx_get PARALLEL_COMPLETION_ACTIVE_KEY (Some c) with
          | Some (JBool true) => (Ok None, Some c, Some cycle) | _ => inactive end = inactive) as ->.
  { by destruct (ctx_get _ _) as [[| [] | | | | |]|]. }
  subst inactive. unfold _load_special_parallel_cycle_state. rewrite Hsel. cbn [negb].
  destruct Hst as [[-> ->]|(j & -> & ->)].
  - cbv iota beta. rewrite try_parse_turn Hkey. cbn [cycle_next_index Nat.eqb].
    unfold _persist_special_parallel_cycle_state. rewrite (ctx_get_set_eq _ _ c). reflexivity.
  - unfold cycle_state_json at 1 2. cbv iota beta. fold (cycle_state_json selector sequence j).
    rewrite try_parse_turn (ctx_get_set_eq _ _ c) index_json.
    destruct (S j mod 2 =? 0); [|reflexivity].
    unfold _persist_special_parallel_cycle_state. cbn [ctx_set]. rewrite (ctx_get_set_eq _ _ (MkContext _ _)). reflexivity.
Qed.

Lemma session_turn_alternates c cycle i :
  fresh c → state_is cycle i → i < 2 →
  ∃ j, session_turn model plan children prefer_first c cycle =
    (if i =? 0 then TRace raced else TLeaf thinker, Some (cycle_state_json selector sequence j)) ∧
    S j mod 2 = 1 - i.
Proof.
  intros Hc Hst Hi. unfold session_turn. rewrite (maybe_execute_turn c cycle i Hc Hst).
  destruct i as [|[|i]]; [..|lia]; cbn [Nat.eqb].
  { exists 0. split; [reflexivity|done]. }
  destruct Hst as [[? _]|(k & Hk & ->)]; [done|]. cbn [ctx_set].
  unfold _select_interleaved_thinking_weighted_cycle_leaf. destruct alternation_sequence as (-> & _).
  rewrite index_json -Hk. cbn [length Nat.eqb].
  change ([executor; thinker] !! 1) with (Some thinker). unfold mbind, stm_bind, modify, mret, stm_ret.
  cbn [ctx_set]. rewrite (ctx_get_set_eq _ _ (MkContext _ _)). exists 1. split; [reflexivity|done].
Qed.

Lemma session_turns_alternate cs cycle i j t :
  Forall fresh cs → state_is cycle j → j < 2 →
  session_turns model plan children prefer_first cs cycle !! i = Some t →
  t = if (j + i) mod 2 =? 0 then TRace raced else TLeaf thinker.
Proof.
  revert cycle i j. induction cs as [|c cs IH]; intros cycle i j Hcs Hst Hj; [done|].
  apply Forall_cons in Hcs as [Hc Hcs]. cbn [session_turns].
  destruct (session_turn_alternates c cycle j Hc Hst Hj) as (k & -> & Hk). destruct i as [|i].
  - intros [= <-]. rewrite Nat.add_0_r Nat.mod_small //.
  - intros Ht. rewrite (IH _ i (1 - j) Hcs _ _ Ht).
    + right. exists k. done.
    + lia.
    + destruct j as [|[|j]]; [done| |lia].
      assert ((1 + S i) mod 2 = (1 - 1 + i) mod 2) as Hm; [|by rewrite Hm].
      rewrite -(Nat.Div0.mod_add (1 - 1 + i) 1 2). f_equal. lia.
Qed.
End alternation.
End turns.

(** In a session that asks for [[thinker]t^a!b], requests are raced and sent to
    the thinker in turn: the two components that read and write the cycle state
    agree on its contents and on whose turn it is. *)
Theorem executor_and_thinker_alternate parse_qs model plan raced children executor thinker prefer_first cs i t :
  _is_thinker_parallel_selector model = true →
  parse_selector parse_qs (strip model) None = Ok plan → plan_root_node plan = WeightedGroup children →
  special_children (nodes children) = Some (executor, thinker) →
  parse_selector parse_qs (embedded_text executor) None = Ok raced → is_parallel_composite_plan raced = true →
  Forall fresh cs → session_turns parse_qs model plan children prefer_first cs None !! i = Some t →
  t = if i mod 2 =? 0 then TRace raced else TLeaf thinker.
Proof.
  intros H1 H2 H3 H4 H5 H6 Hcs Ht.
  eapply (session_turns_alternate parse_qs model plan raced children executor thinker prefer_first
    H1 H2 H3 H4 H5 H6 cs None i 0 t Hcs); [by left|lia|done].
Qed.

(** Four turns of a session. *)
Definition sample_model : str := "[thinker]t:m^a:x!b:y".
Definition sample_context : RequestContext := MkContext None ∅.

Definition plan_of (r : res composite_exn CompositeRoutePlan) : CompositeRoutePlan :=
  match r with Ok plan => plan | Err _ => MkPlan "" "" (ParallelGroup []) end.

Definition sample_plan : CompositeRoutePlan :=
  Eval vm_compute in plan_of (parse_selector no_query sample_model None).
Definition sample_children : list CompositeLeafSelector :=
  Eval vm_compute in match plan_root_node sample_plan with WeightedGroup children => children | _ => [] end.
Definition sample_raced : CompositeRoutePlan := Eval vm_compute in plan_of (parse_selector no_query "a:x!b:y" None).

Lemma executor_and_thinker_alternate_witness :
  ∃ thinker, is_thinker thinker = true ∧
    session_turns no_query sample_model sample_plan sample_children true (replicate 4 sample_context) None =
    [TRace sample_raced; TLeaf thinker; TRace sample_raced; TLeaf thinker].
Proof.
  destruct (special_children (nodes sample_children)) as [[executor thinker]|] eqn:Hs;
    [|vm_compute in Hs; discriminate Hs].
  assert (parse_selector no_query (embedded_text executor) None = Ok sample_raced) as Hr.
  { vm_compute in Hs. injection Hs as <- _. vm_compute. reflexivity. }
  exists thinker. split; [vm_compute in Hs; injection Hs as _ <-; reflexivity|].
  assert (Forall fresh (replicate 4 sample_context)) as Hfresh by (repeat constructor; discriminate).
  pose proof (λ i t, executor_and_thinker_alternate no_query sample_model sample_plan sample_raced sample_children
    executor thinker true (replicate 4 sample_context) i t ltac:(vm_compute; reflexivity)
    ltac:(vm_compute; reflexivity) ltac:(vm_compute; reflexivity) Hs Hr ltac:(vm_compute; reflexivity) Hfresh) as Hall.
  pose proof (session_turns_length no_query sample_model sample_plan sample_children true
    (replicate 4 sample_context) None) as Hlen.
  revert Hall Hlen.
  generalize (session_turns no_query sample_model sample_plan sample_children true (replicate 4 sample_context) None).
  intros turns Hall Hlen. destruct turns as [|t0 [|t1 [|t2 [|t3 [|]]]]]; try discriminate Hlen.
  pose proof (Hall 0 t0 eq_refl) as H0. pose proof (Hall 1 t1 eq_refl) as H1.
  pose proof (Hall 2 t2 eq_refl) as H2. pose proof (Hall 3 t3 eq_refl) as H3.
  cbn in H0, H1, H2, H3. subst t0 t1 t2 t3. reflexivity.
Defined.

(** A leg's own request is never raced again. *)
Lemma leg_request_not_raced parse_qs session model c :
  _maybe_execute_parallel_completion parse_qs session model (_clone_context_for_leg (Some c)) =
  (Ok None, _clone_context_for_leg (Some c), session).
Proof. unfold _maybe_execute_parallel_completion, _clone_context_for_leg. by rewrite (ctx_get_set_eq _ _ c). Qed.
