(* ===== verification/ToolAccess.v ===== *)
(** * Tool access policies

    [src/core/services/tool_access_policy_service.py] and the handler of
    [tool_call_handlers/tool_access_control_handler.py]: policies are loaded from
    the configuration, selected by model and agent through a cache, and applied at
    two places - to the tools a request offers and to the calls a model makes.

    Compiling and searching regular expressions are parameters ([re_valid] says
    whether a pattern compiles).  Priorities are integers. *)

From stdpp Require Import sorting.
From S2P Require Import Prelude PyStr PyDict.
From stdpp Require Import options.

(** The characters of a string, as strings. *)
Fixpoint chars (s : str) : list str :=
  match s with "" => [] | String c s' => String c "" :: chars s' end.

Section policies.
Context (re_valid : str → bool) (re_search : str → str → bool).

(** ** Policies *)

(** A policy with its compiled patterns. *)
Record AccessPolicy : Type := MkPolicy {
  ap_name : json;
  ap_model_regex : option str;
  ap_agent_pattern : option str;
  ap_agent_regex : option str;
  ap_allowed_regexes : list str;
  ap_blocked_regexes : list str;
  ap_default_policy : json;
  ap_block_message : json;
  ap_priority : Z
}.

(** [re.compile]: [None] raises [TypeError], [Some None] is a pattern with an
    error, which is logged and left out. *)
Definition compile (pattern : json) : option (option str) :=
  match pattern with JStr p => Some (if re_valid p then Some p else None) | _ => None end.

(** What iterating over a value yields; [None] raises [TypeError]. *)
Definition iterate (v : json) : option (list json) :=
  match v with
  | JList l => Some l
  | JStr s => Some (JStr <$> chars s)
  | JDict d => Some ((λ e, JStr e.1) <$> d)
  | _ => None
  end.

(** The loop over the patterns of a list: what it has appended, and whether it
    ran to its end. *)
Fixpoint compile_list (patterns : list json) : list str * bool :=
  match patterns with
  | [] => ([], true)
  | pattern :: patterns' =>
      match compile pattern with
      | None => ([], false)
      | Some compiled =>
          let '(rest, ok) := compile_list patterns' in (option_list compiled ++ rest, ok)
      end
  end.

Definition compile_all (v : json) : list str * bool :=
  match iterate v with None => ([], false) | Some patterns => compile_list patterns end.

(** [AccessPolicy(...)] and [compile_patterns()]: the policy as it is left, and
    whether compilation raised. *)
Definition mk_policy (name model_pattern : json) (agent_pattern : json) (allowed blocked : json)
    (default_policy block_message : json) (priority : Z) : AccessPolicy * bool :=
  let policy model agent_text agent allowed blocked :=
    MkPolicy name model agent_text agent allowed blocked default_policy block_message priority in
  let has_agent := truthy (Some agent_pattern) in
  let agent_text := if has_agent then Some (default "" (as_str (Some agent_pattern))) else None in
  match compile model_pattern with
  | None => (policy None agent_text None [] [], false)
  | Some model =>
      match (if has_agent then compile agent_pattern else Some None) with
      | None => (policy model agent_text None [] [], false)
      | Some agent =>
          match compile_all allowed with
          | (allowed', false) => (policy model agent_text agent allowed' [], false)
          | (allowed', true) =>
              let '(blocked', ok) := compile_all blocked in (policy model agent_text agent allowed' blocked', ok)
          end
      end
  end.

Definition matches_context (policy : AccessPolicy) (model_name : str) (agent : option str) : bool :=
  match ap_model_regex policy with
  | None => false
  | Some model_regex =>
      if negb (re_search model_regex model_name) then false
      else match ap_agent_pattern policy with
           | None => true
           | Some _ =>
               match agent, ap_agent_regex policy with
               | Some a, Some agent_regex => re_search agent_regex a
               | _, _ => false
               end
           end
  end.

(** [AccessPolicy.is_tool_allowed] *)
Definition policy_allows (policy : AccessPolicy) (tool_name : str) : bool :=
  if existsb (λ r, re_search r tool_name) (ap_allowed_regexes policy) then true
  else if existsb (λ r, re_search r tool_name) (ap_blocked_regexes policy) then false
  else bool_decide (as_str (Some (ap_default_policy policy)) = Some "allow"%string).

(** ** Loading *)

Definition DEFAULT_BLOCK_MESSAGE : json := JStr "This tool is not allowed by the current access policy.".

(** One entry of the configuration; [None] is an entry that is skipped. *)
Definition load_policy (policy_data : json) : option AccessPolicy :=
  match policy_data with
  | JDict d =>
      if negb (truthy (od_get "name" d)) || negb (truthy (od_get "model_pattern" d)) ||
         negb (truthy (od_get "default_policy" d)) then None
      else match as_str (od_get "default_policy" d) with
           | Some default_policy =>
               if negb (str_in default_policy ["allow"; "deny"]) then None
               else
                 let get k v := default v (od_get k d) in
                 match mk_policy (get "name" JNull) (get "model_pattern" JNull) (get "agent_pattern" JNull)
                         (get "allowed_patterns" (JList [])) (get "blocked_patterns" (JList []))
                         (JStr default_policy) (get "block_message" DEFAULT_BLOCK_MESSAGE)
                         (default 0%Z (as_int (od_get "priority" d))) with
                 | (policy, true) => Some policy
                 | (_, false) => None
                 end
           | None => None
           end
  | _ => None
  end.

Definition _load_policies (access_policies : list json) : list AccessPolicy := omap load_policy access_policies.

(** The global policy is in place before its patterns are compiled. *)
Definition _apply_global_overrides (overrides : list (str * json)) : AccessPolicy :=
  let get k v := default v (od_get k overrides) in
  (mk_policy (JStr "global_override") (JStr ".*") JNull (get "allowed_patterns" (JList []))
     (get "blocked_patterns" (JList [])) (get "default_policy" (JStr "allow"))
     (get "block_message" (JStr "This tool is not allowed by global policy.")) 1000).1.

(** [sort(key=priority, reverse=True)], which keeps the order of equals. *)
Fixpoint insert_policy (policy : AccessPolicy) (l : list AccessPolicy) : list AccessPolicy :=
  match l with
  | [] => [policy]
  | p :: l' => if (ap_priority policy <=? ap_priority p)%Z then p :: insert_policy policy l' else policy :: l
  end.

Definition sort_policies (l : list AccessPolicy) : list AccessPolicy := foldl (λ acc p, insert_policy p acc) [] l.

(** ** The service *)

Definition cache_key : Type := str * option str.

Record ToolAccessPolicyService : Type := MkService {
  tp_policies : list AccessPolicy;
  tp_global_policy : option AccessPolicy;
  tp_policy_cache : list (cache_key * option AccessPolicy);
  tp_cache_hits : nat;
  tp_cache_misses : nat
}.

Definition _policy_cache_size : nat := 128.

Definition new_policy_service (access_policies : list json) (global_overrides : list (str * json)) :
    ToolAccessPolicyService :=
  MkService (sort_policies (_load_policies access_policies))
    (match global_overrides with [] => None | _ => Some (_apply_global_overrides global_overrides) end) [] 0 0.

(** The first locked section of [_select_policy]. *)
Definition cache_lookup (key : cache_key) (s : ToolAccessPolicyService) :
    option (option AccessPolicy) * ToolAccessPolicyService :=
  match od_get key (tp_policy_cache s) with
  | Some policy =>
      (Some policy, MkService (tp_policies s) (tp_global_policy s)
                      (default [] (od_move_to_end key (tp_policy_cache s))) (S (tp_cache_hits s)) (tp_cache_misses s))
  | None => (None, MkService (tp_policies s) (tp_global_policy s) (tp_policy_cache s) (tp_cache_hits s)
                     (S (tp_cache_misses s)))
  end.

Definition find_policy (policies : list AccessPolicy) (key : cache_key) : option AccessPolicy :=
  snd <$> list_find (λ p, matches_context p key.1 key.2 = true) policies.

(** The second locked section. *)
Definition cache_store (key : cache_key) (selected : option AccessPolicy) (s : ToolAccessPolicyService) :
    ToolAccessPolicyService :=
  let cache := od_set key selected (tp_policy_cache s) in
  let cache := if _policy_cache_size <? length cache then tail cache else cache in
  MkService (tp_policies s) (tp_global_policy s) cache (tp_cache_hits s) (tp_cache_misses s).

(** [_select_policy], when nobody comes in between the two sections. *)
Definition _select_policy (model_name : str) (agent : option str) (s : ToolAccessPolicyService) :
    option AccessPolicy * ToolAccessPolicyService :=
  match tp_global_policy s with
  | Some policy => (Some policy, s)
  | None =>
      match cache_lookup (model_name, agent) s with
      | (Some policy, s') => (policy, s')
      | (None, s') =>
          let selected := find_policy (tp_policies s') (model_name, agent) in
          (selected, cache_store (model_name, agent) selected s')
      end
  end.

(** ** The two enforcement points *)

Definition _extract_tool_name (tool : list (str * json)) : option json :=
  match od_get "function" tool with
  | Some (JDict f) => od_get "name" f
  | _ => match od_get "name" tool with
         | Some (JStr name) => Some (JStr name)
         | _ => None
         end
  end.

(** [policy.is_tool_allowed(name)] for a name that may not be a string: [None] is
    the [TypeError] of a search. *)
Definition allows_value (policy : AccessPolicy) (name : json) : option bool :=
  match name with
  | JStr s => Some (policy_allows policy s)
  | _ => match ap_allowed_regexes policy ++ ap_blocked_regexes policy with
         | [] => Some (bool_decide (as_str (Some (ap_default_policy policy)) = Some "allow"%string))
         | _ => None
         end
  end.

(** The loop over the tools: those that stay and the names of those that go. *)
Fixpoint filter_tools (policy : AccessPolicy) (tools : list (list (str * json))) :
    option (list (list (str * json)) * list json) :=
  match tools with
  | [] => Some ([], [])
  | tool :: tools' =>
      let tool_name := _extract_tool_name tool in
      if truthy tool_name then
        allowed ← allows_value policy (default JNull tool_name);
        '(kept, names) ← filter_tools policy tools';
        Some (if allowed : bool then (tool :: kept, names) else (kept, default JNull tool_name :: names))
      else filter_tools policy tools'
  end.

Definition filter_tool_definitions (tools : list (list (str * json))) (model_name : str) (agent : option str)
    (s : ToolAccessPolicyService) :
    option (list (list (str * json)) * list json) * ToolAccessPolicyService :=
  let '(policy, s') := _select_policy model_name agent s in
  match policy with
  | None => (Some (tools, []), s')
  | Some policy => (filter_tools policy tools, s')
  end.

(** [is_tool_allowed] of the service, with the reason. *)
Definition is_tool_allowed (tool_name model_name : str) (agent : option str) (s : ToolAccessPolicyService) :
    bool * str * ToolAccessPolicyService :=
  let '(policy, s') := _select_policy model_name agent s in
  match policy with
  | None => (true, "no_policy_matched", s')
  | Some policy =>
      let allowed := policy_allows policy tool_name in (allowed, if allowed then "allowed" else "blocked", s')
  end.

Definition get_block_message (model_name : str) (agent : option str) (s : ToolAccessPolicyService) :
    json * ToolAccessPolicyService :=
  let '(policy, s') := _select_policy model_name agent s in
  (match policy with Some p => ap_block_message p | None => DEFAULT_BLOCK_MESSAGE end, s').

(** The handler: it passes a call, or swallows it with a message, which has a
    notice in front when [first_block] is set.  [seen] says whether the session is
    in the handler's [TTLCache] of sessions with a blocked call. *)
Inductive reaction : Type := Pass | Swallow (message : json) (first_block : bool).

Definition passes (r : reaction) : bool := match r with Pass => true | Swallow _ _ => false end.

Definition handle (seen : bool) (tool_name model_name : str) (agent : option str)
    (s : ToolAccessPolicyService) : reaction * ToolAccessPolicyService :=
  let '(allowed, _, s') := is_tool_allowed tool_name model_name agent s in
  if allowed then (Pass, s')
  else let '(message, s'') := get_block_message model_name agent s' in (Swallow message (negb seen), s'').

(** ** Selection is exact *)

(** The best match in the order of the configuration: the first of those with
    the highest priority. *)
Definition better (key : cache_key) (best : option AccessPolicy) (p : AccessPolicy) : option AccessPolicy :=
  if matches_context p key.1 key.2 then
    match best with
    | Some q => if (ap_priority q <? ap_priority p)%Z then Some p else Some q
    | None => Some p
    end
  else best.

Definition best_match (policies : list AccessPolicy) (key : cache_key) : option AccessPolicy :=
  foldl (better key) None policies.

Definition by_priority (p q : AccessPolicy) : Prop := (ap_priority q <= ap_priority p)%Z.

Lemma elem_of_insert p q l : q ∈ insert_policy p l ↔ q = p ∨ q ∈ l.
Proof.
  induction l as [|a l IH]; simpl; [by rewrite list_elem_of_singleton elem_of_nil; tauto|].
  destruct (_ <=? _)%Z; rewrite !elem_of_cons; [rewrite IH|]; tauto.
Qed.

Lemma insert_sorted p l : StronglySorted by_priority l → StronglySorted by_priority (insert_policy p l).
Proof.
  induction 1 as [|a l Hl IH Hall]; simpl; [repeat constructor|]. destruct (Z.leb_spec (ap_priority p) (ap_priority a)).
  - constructor; [done|]. apply Forall_forall. intros q [->|Hq]%elem_of_insert; [done|].
    rewrite Forall_forall in Hall. by apply Hall.
  - constructor; [by constructor|]. constructor; [unfold by_priority; lia|].
    eapply Forall_impl; [exact Hall|]. unfold by_priority. intros q Hq. lia.
Qed.

Lemma find_cons p l key :
  find_policy (p :: l) key = if matches_context p key.1 key.2 then Some p else find_policy l key.
Proof.
  unfold find_policy. simpl. destruct (matches_context p key.1 key.2); simpl; [done|].
  by destruct (list_find _ l) as [[]|].
Qed.

Lemma find_elem p l key : find_policy l key = Some p → p ∈ l.
Proof.
  induction l as [|a l IH]; [done|]. rewrite find_cons elem_of_cons. destruct (matches_context _ _ _); [|auto].
  intros [= ->]. by left.
Qed.

Lemma find_insert p l key :
  StronglySorted by_priority l → find_policy (insert_policy p l) key = better key (find_policy l key) p.
Proof.
  unfold better. induction 1 as [|a l Hl IH Hall]; simpl.
  { rewrite find_cons. by destruct (matches_context p key.1 key.2). }
  destruct (Z.leb_spec (ap_priority p) (ap_priority a)) as [Hle|Hlt]; rewrite !find_cons.
  - rewrite IH. destruct (matches_context a key.1 key.2); [|done].
    destruct (matches_context p key.1 key.2); [|done]. destruct (Z.ltb_spec (ap_priority a) (ap_priority p)); [lia|done].
  - destruct (matches_context p key.1 key.2) eqn:Hp; [|done].
    assert (∀ q, q ∈ a :: l → (ap_priority q < ap_priority p)%Z) as Hlow.
    { intros q [->|Hq]%elem_of_cons; [done|]. rewrite Forall_forall in Hall. specialize (Hall q Hq).
      unfold by_priority in Hall. lia. }
    rewrite -find_cons. destruct (find_policy (a :: l) key) as [q|] eqn:Hq; [|done].
    apply find_elem, Hlow in Hq. destruct (Z.ltb_spec (ap_priority q) (ap_priority p)); [done|lia].
Qed.

Lemma sort_policies_spec l key :
  StronglySorted by_priority (sort_policies l) ∧ find_policy (sort_policies l) key = best_match l key.
Proof.
  induction l as [|p l [IHs IHf]] using rev_ind; [split; [constructor|done]|].
  unfold sort_policies, best_match in *. rewrite !foldl_app. simpl. split; [by apply insert_sorted|].
  by rewrite find_insert // IHf.
Qed.

(** ** The cache under interleaving *)

(** Every cached answer is the right one. *)
Record service_ok (policies : list AccessPolicy) (global : option AccessPolicy) (s : ToolAccessPolicyService) : Prop := {
  so_policies : tp_policies s = policies;
  so_global : tp_global_policy s = global;
  so_cache : od_ok (tp_policy_cache s);
  so_size : length (tp_policy_cache s) ≤ _policy_cache_size;
  so_right key policy : od_get key (tp_policy_cache s) = Some policy → policy = find_policy policies key
}.

(** The locked sections of any number of callers, in any order; a caller stores
    what it has found in the policies. *)
Inductive cache_op : Type := OLookup (key : cache_key) | OStore (key : cache_key).

Definition cache_step (s : ToolAccessPolicyService) (op : cache_op) : ToolAccessPolicyService :=
  match op with
  | OLookup key => (cache_lookup key s).2
  | OStore key => cache_store key (find_policy (tp_policies s) key) s
  end.

Lemma lookup_ok policies global key s : service_ok policies global s → service_ok policies global (cache_lookup key s).2.
Proof.
  intros [H1 H2 H3 H4 H5]. unfold cache_lookup. destruct (od_get key (tp_policy_cache s)) as [v|] eqn:Hk; [|by constructor].
  destruct (od_move_to_end_Some key (tp_policy_cache s)) as [d' Hd]; [by eexists|].
  constructor; simpl; rewrite ?Hd; simpl; try done.
  - by eapply od_move_to_end_ok.
  - by rewrite (od_move_to_end_length _ _ _ Hd).
  - intros k p. rewrite (od_move_to_end_get _ _ _ _ H3 Hd). apply H5.
Qed.

Lemma lookup_answer policies global key s policy :
  service_ok policies global s → (cache_lookup key s).1 = Some policy → policy = find_policy policies key.
Proof.
  intros H. unfold cache_lookup. destruct (od_get key (tp_policy_cache s)) as [v|] eqn:Hk; intros [= <-].
  by apply (so_right _ _ _ H).
Qed.

Lemma store_ok policies global key s :
  service_ok policies global s → service_ok policies global (cache_store key (find_policy policies key) s).
Proof.
  intros [H1 H2 H3 H4 H5]. unfold cache_store.
  pose proof (od_set_ok key (find_policy policies key) _ H3) as Hok.
  assert (∀ k p, od_get k (od_set key (find_policy policies key) (tp_policy_cache s)) = Some p →
    p = find_policy policies k) as Hright.
  { intros k p. destruct (decide (k = key)) as [->|Hne]; [by rewrite od_get_set_eq; intros [= <-]|].
    rewrite od_get_set_ne //. apply H5. }
  assert (length (od_set key (find_policy policies key) (tp_policy_cache s)) ≤ S _policy_cache_size) as Hlen.
  { destruct (od_get key (tp_policy_cache s)) eqn:Hk; [|rewrite od_set_length_new //; lia].
    rewrite -(length_fmap fst) od_set_keys; [by eexists|]. rewrite length_fmap. lia. }
  destruct (Nat.ltb_spec _policy_cache_size (length (od_set key (find_policy policies key) (tp_policy_cache s))));
    constructor; simpl; try done.
  - by apply od_tail_ok.
  - destruct (od_set _ _ _); simpl in *; lia.
  - intros k p Hp. by eapply Hright, od_get_tail.
Qed.

Lemma steps_ok policies global s ops :
  service_ok policies global s → service_ok policies global (foldl cache_step s ops).
Proof.
  revert s. induction ops as [|[key|key] ops IH]; intros s Hs; simpl; [done| |]; apply IH.
  - by apply lookup_ok.
  - rewrite (so_policies _ _ _ Hs). by apply store_ok.
Qed.

Lemma new_service_ok access_policies overrides :
  let s := new_policy_service access_policies overrides in service_ok (tp_policies s) (tp_global_policy s) s.
Proof. intros s. constructor; simpl; [done|done|constructor|lia|done]. Qed.

(** The policy in force, from the configuration. *)
Definition policy_in_force (access_policies : list json) (overrides : list (str * json)) (key : cache_key) :
    option AccessPolicy :=
  match overrides with
  | [] => best_match (_load_policies access_policies) key
  | _ => Some (_apply_global_overrides overrides)
  end.

(** The states of a service, whatever the order of its callers. *)
Definition reached access_policies overrides (s : ToolAccessPolicyService) : Prop :=
  ∃ ops, s = foldl cache_step (new_policy_service access_policies overrides) ops.

Lemma reached_ok access_policies overrides s :
  reached access_policies overrides s →
  let s0 := new_policy_service access_policies overrides in service_ok (tp_policies s0) (tp_global_policy s0) s.
Proof. intros [ops ->]. apply steps_ok, new_service_ok. Qed.

Lemma select_in_force access_policies overrides s model_name agent :
  reached access_policies overrides s →
  (_select_policy model_name agent s).1 = policy_in_force access_policies overrides (model_name, agent).
Proof.
  intros H%reached_ok. unfold _select_policy, policy_in_force. rewrite (so_global _ _ _ H).
  destruct overrides as [|o overrides]; simpl; [|done].
  pose proof (λ p, lookup_answer _ _ (model_name, agent) s p H) as Ha. pose proof (lookup_ok _ _ (model_name, agent) _ H) as Hs.
  destruct (sort_policies_spec (_load_policies access_policies) (model_name, agent)) as [_ <-].
  destruct (cache_lookup _ s) as [[p|] s']; simpl in *; [by apply Ha|]. by rewrite (so_policies _ _ _ Hs).
Qed.

Lemma select_reached access_policies overrides s model_name agent :
  reached access_policies overrides s → reached access_policies overrides (_select_policy model_name agent s).2.
Proof.
  intros [ops Hs]. unfold _select_policy. destruct (tp_global_policy s); [by exists ops|].
  destruct (cache_lookup (model_name, agent) s) as [[p|] s'] eqn:Hl; simpl.
  - exists (ops ++ [OLookup (model_name, agent)]). by rewrite foldl_app -Hs /= Hl.
  - exists (ops ++ [OLookup (model_name, agent); OStore (model_name, agent)]). by rewrite foldl_app -Hs /= Hl.
Qed.

(** The declarative reading of [best_match]. *)
Definition is_best (policies : list AccessPolicy) (key : cache_key) (best : option AccessPolicy) : Prop :=
  match best with
  | None => ∀ q, q ∈ policies → matches_context q key.1 key.2 = false
  | Some p =>
      ∃ before after, policies = before ++ p :: after ∧ matches_context p key.1 key.2 = true ∧
        (∀ q, q ∈ before → matches_context q key.1 key.2 = true → (ap_priority q < ap_priority p)%Z) ∧
        (∀ q, q ∈ after → matches_context q key.1 key.2 = true → (ap_priority q <= ap_priority p)%Z)
  end.

Lemma is_best_snoc l p key best : is_best l key best → is_best (l ++ [p]) key (better key best p).
Proof.
  unfold is_best, better. intros Hb. destruct (matches_context p key.1 key.2) eqn:Hp.
  - destruct best as [q|].
    + destruct Hb as (before & after & -> & Hq & Hbefore & Hafter).
      destruct (Z.ltb_spec (ap_priority q) (ap_priority p)) as [Hlt|Hge].
      * exists (before ++ q :: after), []. split_and!; [done|done| |set_solver].
        intros r [Hr|[->|Hr]%elem_of_cons]%elem_of_app Hm; [specialize (Hbefore r Hr Hm); lia|lia|].
        specialize (Hafter r Hr Hm). lia.
      * exists before, (after ++ [p]). split_and!; [by rewrite -app_assoc|done|done|].
        intros r [Hr| ->%list_elem_of_singleton]%elem_of_app Hm; [by apply Hafter|lia].
    + exists l, []. split_and!; [done|done| |set_solver]. intros q Hq. by rewrite (Hb q Hq).
  - destruct best as [q|].
    + destruct Hb as (before & after & -> & Hq & Hbefore & Hafter). exists before, (after ++ [p]).
      split_and!; [by rewrite -app_assoc|done|done|].
      intros r [Hr| ->%list_elem_of_singleton]%elem_of_app Hm; [by apply Hafter|congruence].
    + intros q [Hq| ->%list_elem_of_singleton]%elem_of_app; [by apply Hb|done].
Qed.

Lemma best_match_is_best l key : is_best l key (best_match l key).
Proof.
  induction l as [|p l IH] using rev_ind; [intros q Hq; by apply elem_of_nil in Hq|].
  unfold best_match. rewrite foldl_app. by apply is_best_snoc.
Qed.

(** ** The two enforcement points agree *)

Definition tool_name_of (tool : list (str * json)) : str := default "" (as_str (_extract_tool_name tool)).

Definition verdict (policy : option AccessPolicy) (tool_name : str) : bool :=
  match policy with Some p => policy_allows p tool_name | None => true end.

Lemma handle_verdict access_policies overrides s seen tool_name model_name agent :
  reached access_policies overrides s →
  passes (handle seen tool_name model_name agent s).1 =
  verdict (policy_in_force access_policies overrides (model_name, agent)) tool_name.
Proof.
  intros Hs. rewrite -(select_in_force _ _ _ model_name agent Hs). unfold handle, is_tool_allowed, verdict.
  destruct (_select_policy model_name agent s) as [[p|] s']; simpl; [|done].
  destruct (policy_allows p tool_name); [done|]. by destruct (get_block_message _ _ s').
Qed.

Lemma filter_all (P : list (str * json) → Prop) `{∀ tool, Decision (P tool)} (tools : list (list (str * json))) :
  (∀ tool, P tool) → filter P tools = tools.
Proof. intros HP. induction tools as [|tool tools IH]; [done|]. by rewrite filter_cons decide_True // IH. Qed.

(** The name of a definition, if it has one, is a string. *)
Definition readable (tool : list (str * json)) : Prop :=
  truthy (_extract_tool_name tool) = true → ∃ name, _extract_tool_name tool = Some (JStr name).

Lemma readable_name tool :
  readable tool →
  (tool_name_of tool ≠ "" ∧ truthy (_extract_tool_name tool) = true ∧
     _extract_tool_name tool = Some (JStr (tool_name_of tool))) ∨
  (tool_name_of tool = "" ∧ truthy (_extract_tool_name tool) = false).
Proof.
  unfold readable, tool_name_of. intros H. destruct (truthy (_extract_tool_name tool)) eqn:Ht.
  - left. destruct (H eq_refl) as [name Hn]. rewrite Hn in Ht |- *. simpl in *. destruct name; done.
  - right. split; [|done]. destruct (_extract_tool_name tool) as [[| | | |name| |]|]; try done. by destruct name.
Qed.

Lemma filter_readable policy tools :
  Forall readable tools →
  filter_tools policy tools =
    Some (filter (λ tool, policy_allows policy (tool_name_of tool) = true ∧ tool_name_of tool ≠ "") tools,
          JStr <$> (tool_name_of <$> filter (λ tool, policy_allows policy (tool_name_of tool) = false ∧ tool_name_of tool ≠ "") tools)).
Proof.
  induction 1 as [|tool tools Hr _ IH]; [done|]. cbn [filter_tools]. rewrite IH. clear IH.
  destruct (readable_name tool Hr) as [(Hne & -> & Hname)|(He & ->)].
  - rewrite !filter_cons Hname. cbn [default from_option allows_value id mbind option_bind].
    destruct (policy_allows policy (tool_name_of tool)); repeat case_decide; naive_solver.
  - rewrite !filter_cons. repeat case_decide; naive_solver.
Qed.

(** C37: Whatever callers came before, in whatever order their locked sections
    ran, and whatever the cache has evicted since: with overrides from the command
    line the global policy is selected; otherwise the selected policy is, among the
    policies of the configuration that match the model and the agent, the first of
    those with the highest priority, and none is selected only if none matches.
    Among policies of one priority the order of the configuration decides, however
    specific their patterns are.  The cache never holds more than 128 answers. *)
Theorem select_policy_exact access_policies overrides s model_name agent :
  reached access_policies overrides s →
  let '(selected, s') := _select_policy model_name agent s in
  match overrides with
  | [] => is_best (_load_policies access_policies) (model_name, agent) selected
  | _ => selected = Some (_apply_global_overrides overrides)
  end ∧
  reached access_policies overrides s' ∧ length (tp_policy_cache s') ≤ 128.
Proof.
  intros Hs. pose proof (select_in_force _ _ _ model_name agent Hs) as Hp.
  pose proof (select_reached _ _ _ model_name agent Hs) as Hr. pose proof (reached_ok _ _ _ Hr) as Hok.
  destruct (_select_policy model_name agent s) as [selected s']; simpl in *. subst selected.
  split_and!; [|done|apply (so_size _ _ _ Hok)]. unfold policy_in_force.
  destruct overrides; [apply best_match_is_best|done].
Qed.

(** C38: The two places where a policy is enforced agree.  When the model and the
    agent that the filter takes from the request are those that the handler takes from
    the response, and whatever happened to the service before the request and between the request and
    the call: the definitions that stay in a request are those whose calls the
    handler would pass, and the names reported as removed are those of the
    definitions whose calls it would block, in their order.  One kind is left to the
    filter alone: a definition without a name, as the built-in tools of a provider
    have it, stays exactly if no policy is in force, whatever the policy allows.
    (A name that is neither a string nor empty makes the filter raise.) *)
Theorem enforcement_agrees access_policies overrides s1 s2 seen tools model_name agent :
  reached access_policies overrides s1 →
  reached access_policies overrides s2 →
  Forall readable tools →
  let passed tool := passes (handle seen (tool_name_of tool) model_name agent s2).1 in
  (filter_tool_definitions tools model_name agent s1).1 =
  Some (filter (λ tool, passed tool = true ∧
          (tool_name_of tool ≠ "" ∨ policy_in_force access_policies overrides (model_name, agent) = None)) tools,
        JStr <$> (tool_name_of <$> filter (λ tool, passed tool = false ∧ tool_name_of tool ≠ "") tools)).
Proof.
  intros H1 H2 Hnamed passed. pose proof (select_in_force _ _ _ model_name agent H1) as Hp.
  assert (∀ tool, passed tool = verdict (policy_in_force access_policies overrides (model_name, agent)) (tool_name_of tool))
    as Hpassed by (intros tool; apply (handle_verdict _ _ _ seen _ model_name agent H2)).
  unfold filter_tool_definitions. destruct (_select_policy model_name agent s1) as [policy s1']; simpl in *.
  rewrite -Hp in Hpassed |- *. destruct policy as [p|]; simpl.
  - rewrite filter_readable //. do 3 f_equal; [|do 2 f_equal]; apply list_filter_iff; intros tool; rewrite Hpassed /=; naive_solver.
  - do 2 f_equal.
    + symmetry. apply filter_all. intros tool. rewrite Hpassed. simpl. by auto.
    + assert (filter (λ tool, passed tool = false ∧ tool_name_of tool ≠ "") tools = []) as ->; [|done].
      clear -Hpassed. induction tools as [|tool tools IH]; [done|]. rewrite filter_cons decide_False //.
      intros [Hf _]. by rewrite Hpassed in Hf.
Qed.
End policies.

(** ** On concrete policies *)

(** Plain words as patterns, with [".*"] for everything and an unclosed
    parenthesis for a pattern with an error. *)
Definition word_valid (p : str) : bool := negb (String.eqb p "(").
Definition word_search (p s : str) : bool := String.eqb p ".*" || String.eqb p s.

Definition sample_policies : list json :=
  [JDict [("name", JStr "careful"); ("model_pattern", JStr ".*"); ("default_policy", JStr "allow");
          ("blocked_patterns", JList [JStr "delete_file"]); ("priority", JInt 5)];
   JDict [("name", JStr "strict"); ("model_pattern", JStr "small-model"); ("default_policy", JStr "deny");
          ("allowed_patterns", JList [JStr "read_file"]); ("priority", JInt 10)];
   JDict [("name", JStr "late"); ("model_pattern", JStr ".*"); ("default_policy", JStr "deny"); ("priority", JInt 5)]].

Definition sample_tools : list (list (str * json)) :=
  [[("type", JStr "function"); ("function", JDict [("name", JStr "read_file")])]; [("name", JStr "delete_file")];
   [("name", JStr "write_file")]].

Definition sample_service : ToolAccessPolicyService :=
  foldl (cache_step word_search) (new_policy_service word_valid sample_policies [])
    [OLookup ("big-model", None); OLookup ("big-model", None); OStore ("big-model", None); OStore ("big-model", None)].

Lemma select_policy_exact_witness :
  ap_name <$> (_select_policy word_search "big-model" None sample_service).1 = Some (JStr "careful") ∧
  is_best word_search (_load_policies word_valid sample_policies) ("small-model"%string, None)
    (_select_policy word_search "small-model" None sample_service).1.
Proof.
  split; [vm_compute; reflexivity|].
  exact (proj1 (select_policy_exact word_valid word_search sample_policies [] sample_service "small-model" None
    (ex_intro _ _ eq_refl))).
Defined.

Lemma enforcement_agrees_witness :
  tool_name_of <$> default [] (fst <$> (filter_tool_definitions word_search sample_tools "big-model" None sample_service).1)
    = ["read_file"; "write_file"]%string ∧
  (filter_tool_definitions word_search sample_tools "small-model" None sample_service).1 =
    Some (filter (λ tool, passes (handle word_search false (tool_name_of tool) "small-model" None
      (new_policy_service word_valid sample_policies [])).1 = true ∧
      (tool_name_of tool ≠ "" ∨ policy_in_force word_valid word_search sample_policies [] ("small-model"%string, None) = None))
      sample_tools, [JStr "delete_file"; JStr "write_file"]).
Proof.
  split; [vm_compute; reflexivity|].
  pose proof (enforcement_agrees word_valid word_search sample_policies [] sample_service
    (new_policy_service word_valid sample_policies []) false sample_tools "small-model" None
    (ex_intro _ _ eq_refl) (ex_intro _ [] eq_refl)) as H.
  etrans; [apply H|]; [|do 2 f_equal; vm_compute; reflexivity].
  repeat apply List.Forall_cons; try apply List.Forall_nil; intros _; eexists; reflexivity.
Defined.

(** A policy that allows everything removes the built-in tools of a provider, whose
    definitions have no name. *)
Theorem nameless_tools_removed :
  let policy := JDict [("name", JStr "open"); ("model_pattern", JStr ".*"); ("default_policy", JStr "allow")] in
  (filter_tool_definitions word_search [[("type", JStr "web_search")]; [("name", JStr "ls")]]%string "m" None
     (new_policy_service word_valid [policy] [])).1 = Some ([[("name", JStr "ls")]]%string, []).
Proof. vm_compute. reflexivity. Qed.

(** A blocked pattern that does not compile is left out of its policy, and the
    policy stays in force: the tools it named are offered and their calls pass. *)
Theorem broken_block_pattern_allows :
  let policy pattern :=
    JDict [("name", JStr "safe"); ("model_pattern", JStr ".*"); ("default_policy", JStr "allow");
           ("blocked_patterns", JList [JStr pattern; JStr "rm"])] in
  let offered pattern tool :=
    (handle word_search false tool "m" None (new_policy_service word_valid [policy pattern] [])).1 in
  offered "delete_file" "delete_file" = Swallow DEFAULT_BLOCK_MESSAGE true ∧
  offered "(" "delete_file" = Pass ∧ offered "(" "rm" = Swallow DEFAULT_BLOCK_MESSAGE true.
Proof. vm_compute. done. Qed.

(** An override whose list of allowed patterns has an entry that is no string
    leaves the global policy in place without its list of blocked patterns. *)
Theorem half_compiled_override_allows :
  let overrides allowed :=
    [("allowed_patterns", JList allowed); ("blocked_patterns", JList [JStr "delete_file"])] in
  let offered allowed :=
    (handle word_search true "delete_file" "m" None (new_policy_service word_valid [] (overrides allowed))).1 in
  offered [JStr "ls"] = Swallow (JStr "This tool is not allowed by global policy.") false ∧
  offered [JStr "ls"; JInt 1] = Pass.
Proof. vm_compute. done. Qed.
