(* ===== verification/CommandParser.v ===== *)
(** * In-chat commands: the parser

    [src/core/commands/parser.py] and the data of [models.py].  A command is the
    prefix, a name and an optional argument list in parentheses; the parser finds
    all commands of a text from left to right.  Positions are counted in
    characters, as the code does; the loop over positions carries fuel, and
    [parse_loop_fuel] shows that the length of the text is enough. *)

From Stdlib Require Import Ascii.
From S2P Require Import Prelude PyStr PyDict.
From stdpp Require Import options.

(** [str.isalnum] on one character. *)
Definition is_alnum (c : ascii) : bool :=
  let n := nat_of_ascii c in
  ((48 <=? n) && (n <=? 57)) || ((65 <=? n) && (n <=? 90)) || ((97 <=? n) && (n <=? 122)) ||
  bool_decide (n ∈ [170; 178; 179; 181; 185; 186; 188; 189; 190]) ||
  ((192 <=? n) && (n <=? 214)) || ((216 <=? n) && (n <=? 246)) || (248 <=? n).

Definition is_name_char (c : ascii) : bool := is_alnum c || Ascii.eqb c "-" || Ascii.eqb c "_".

Definition is_quote (c : ascii) : bool := Ascii.eqb c (ascii_of_nat 34) || Ascii.eqb c "'".
Definition is_opening (c : ascii) : bool := Ascii.eqb c "(" || Ascii.eqb c "{" || Ascii.eqb c "[".
Definition is_closing (c : ascii) : bool := Ascii.eqb c ")" || Ascii.eqb c "}" || Ascii.eqb c "]".

Record Command : Type := MkCommand { cmd_name : str; cmd_args : list (str * str) }.

Record ParsedCommand : Type := MkParsed {
  pc_command : Command;
  pc_matched_text : str;
  pc_start : nat;
  pc_end : nat
}.

(** ** Arguments *)

(** The loop over the text behind the opening parenthesis: the text up to the
    parenthesis that closes it and the rest behind it, or [None] when nothing
    closes it. *)
Fixpoint scan_args (depth : nat) (quote_char : option ascii) (escape_next : bool) (s : str) : option (str * str) :=
  match s with
  | "" => None
  | String char s' =>
      let continue d q e := '(args, rest) ← scan_args d q e s'; Some (String char args, rest) in
      if escape_next then continue depth quote_char false
      else match quote_char with
           | Some q =>
               if Ascii.eqb char "\" then continue depth quote_char true
               else if Ascii.eqb char q then continue depth None false
               else continue depth quote_char false
           | None =>
               if is_quote char then continue depth (Some char) false
               else if Ascii.eqb char "(" then continue (S depth) None false
               else if Ascii.eqb char ")" then
                 (if depth =? 1 then Some ("", s') else continue (pred depth) None false)
               else continue depth None false
           end
  end.

(** One part, if something is left of it. *)
Definition part_of (current : str) : list str :=
  let part := strip current in if is_empty part then [] else [part].

Fixpoint split_args (current : str) (depth : nat) (quote_char : option ascii) (escape_next : bool) (raw : str) :
    list str :=
  match raw with
  | "" => part_of current
  | String char raw' =>
      let continue d q e := split_args (current +:+ String char "") d q e raw' in
      if escape_next then continue depth quote_char false
      else match quote_char with
           | Some q =>
               if Ascii.eqb char "\" then continue depth quote_char true
               else continue depth (if Ascii.eqb char q then None else Some q) false
           | None =>
               if is_quote char then continue depth (Some char) false
               else if is_opening char then continue (S depth) None false
               else if is_closing char then continue (pred depth) None false
               else if Ascii.eqb char "," && (depth =? 0) then part_of current ++ split_args "" 0 None false raw'
               else if Ascii.eqb char "\" then continue depth None true
               else continue depth None false
           end
  end.

Definition add_arg (args : list (str * str)) (part : str) : list (str * str) :=
  match str_find "=" part with
  | Some _ => let '(key, value) := partition "=" part in od_set (strip key) (strip value) args
  | None => od_set (strip part) "" args
  end.

Definition _parse_args (args_str : str) : list (str * str) :=
  foldl add_arg [] (split_args "" 0 None false args_str).

(** ** Commands *)

Fixpoint take_name (s : str) : str * str :=
  match s with
  | "" => ("", "")
  | String c s' => if is_name_char c then let '(name, rest) := take_name s' in (String c name, rest) else ("", s)
  end.

(** The command whose prefix is at [start], with its text and its end. *)
Definition _parse_from_index (content prefix : str) (start : nat) : option (Command * str * nat) :=
  let '(name, rest) := take_name (str_drop (start + String.length prefix) content) in
  if is_empty name then None
  else
    let name_end := String.length content - String.length rest in
    let found args matched_end :=
      Some (MkCommand name args, str_take (matched_end - start) (str_drop start content), matched_end) in
    match lstrip rest with
    | String c body =>
        if Ascii.eqb c "(" then
          match scan_args 1 None false body with
          | None => None
          | Some (args_str, after) => found (_parse_args args_str) (String.length content - String.length after)
          end
        else found [] name_end
    | "" => found [] name_end
    end.

(** [s.find(p)] *)
Fixpoint find_sub (p s : str) : option nat :=
  if startswith p s then Some 0
  else match s with
       | "" => None
       | String _ s' => S <$> find_sub p s'
       end.

(** [s.find(p, i)] *)
Definition find_from (p s : str) (i : nat) : option nat := Nat.add i <$> find_sub p (str_drop i s).

Fixpoint parse_loop (fuel : nat) (content prefix : str) (search_index : nat) : list ParsedCommand :=
  match fuel with
  | 0 => []
  | S fuel =>
      if search_index <? String.length content then
        match find_from prefix content search_index with
        | None => []
        | Some start =>
            match _parse_from_index content prefix start with
            | None => parse_loop fuel content prefix (start + String.length prefix)
            | Some (command, matched_text, end_index) =>
                MkParsed command matched_text start end_index ::
                parse_loop fuel content prefix (max end_index (start + String.length prefix))
            end
        end
      else []
  end.

Definition parse (content prefix : str) : list ParsedCommand :=
  if is_empty content || is_empty prefix then []
  else parse_loop (String.length content) content prefix 0.

(** ** Facts on the pieces *)

Definition occurs (p s : str) (i : nat) : Prop := startswith p (str_drop i s) = true.

Lemma find_sub_spec p s :
  match find_sub p s with
  | Some n => occurs p s n ∧ ∀ m, m < n → ¬ occurs p s m
  | None => ∀ m, ¬ occurs p s m
  end.
Proof.
  unfold occurs. induction s as [|c s IH]; simpl.
  - destruct (startswith p "") eqn:H; [split; [done|lia]|]. intros m. destruct m; simpl; by rewrite H.
  - destruct (startswith p (String c s)) eqn:H; [split; [done|lia]|]. destruct (find_sub p s) as [n|]; simpl.
    + destruct IH as [Hn Hlow]. split; [done|]. intros [|m] Hm; simpl; [by rewrite H|]. apply Hlow. lia.
    + intros [|m]; simpl; [by rewrite H|apply IH].
Qed.

Lemma find_from_spec p s i :
  match find_from p s i with
  | Some n => i ≤ n ∧ occurs p s n ∧ ∀ m, i ≤ m < n → ¬ occurs p s m
  | None => ∀ m, i ≤ m → ¬ occurs p s m
  end.
Proof.
  unfold find_from. pose proof (find_sub_spec p (str_drop i s)) as H. unfold occurs in *.
  destruct (find_sub p (str_drop i s)) as [n|]; simpl.
  - destruct H as [Hn Hlow]. rewrite str_drop_drop in Hn. split_and!; [lia|done|].
    intros m Hm. specialize (Hlow (m - i)). rewrite str_drop_drop in Hlow.
    replace (i + (m - i)) with m in Hlow by lia. apply Hlow. lia.
  - intros m Hm. specialize (H (m - i)). rewrite str_drop_drop in H. by replace (i + (m - i)) with m in H by lia.
Qed.

Lemma take_name_spec s :
  let '(name, rest) := take_name s in
  s = name +:+ rest ∧ str_all is_name_char name = true ∧
  match rest with "" => True | String c _ => is_name_char c = false end.
Proof.
  induction s as [|c s IH]; simpl; [done|]. destruct (is_name_char c) eqn:Hc; [|by rewrite sapp_nil_l].
  destruct (take_name s) as [name rest]. destruct IH as (-> & Hn & Hr). by rewrite sapp_cons /= Hc Hn.
Qed.

Lemma scan_args_spec depth q e s args after :
  scan_args depth q e s = Some (args, after) → s = args +:+ String ")" after.
Proof.
  revert depth q e args after. induction s as [|c s IH]; intros depth q e args after; simpl; [done|].
  assert (∀ d q e, (scan_args d q e s ≫= λ '(args, rest), Some (String c args, rest)) = Some (args, after) →
    String c s = args +:+ String ")" after) as Hgo.
  { intros d q' e' ([a r] & Ha & [= <- <-])%bind_Some. by rewrite sapp_cons -(IH _ _ _ _ _ Ha). }
  destruct e; [apply Hgo|]. destruct q as [q|].
  - by repeat case_match; eauto.
  - destruct (is_quote c); [apply Hgo|]. destruct (Ascii.eqb c "("); [apply Hgo|].
    destruct (Ascii.eqb_spec c ")") as [->|]; [|apply Hgo]. destruct (depth =? 1); [|apply Hgo].
    by intros [= <- <-].
Qed.

(** A command found at an occurrence of the prefix: its text is the part of the
    content between its start and its end, and holds more than the prefix. *)
Lemma parse_from_spec content prefix start command text end_index :
  occurs prefix content start →
  _parse_from_index content prefix start = Some (command, text, end_index) →
  start + String.length prefix < end_index ≤ String.length content ∧
  text = str_take (end_index - start) (str_drop start content) ∧
  str_all is_name_char (cmd_name command) = true ∧ cmd_name command ≠ "".
Proof.
  unfold occurs, _parse_from_index. intros [t Ht]%startswith_inv Hp.
  assert (String.length content - start = String.length prefix + String.length t) as Hlen.
  { by rewrite -slength_drop Ht slength_app. }
  rewrite -str_drop_drop Ht str_drop_app in Hp. rewrite Ht.
  pose proof (take_name_spec t) as Hn. destruct (take_name t) as [name rest]. destruct Hn as (-> & Hname & _).
  destruct name as [|c name]; [done|]. rewrite slength_app in Hlen. simpl in Hp, Hlen.
  pose proof (lstrip_length rest) as Hl.
  destruct (lstrip rest) as [|d body] eqn:Hr.
  { simplify_eq/=. split_and!; try done; lia. }
  destruct (Ascii.eqb d "("); [|simplify_eq/=; split_and!; try done; lia].
  destruct (scan_args 1 None false body) as [[args after]|] eqn:Hs; [|done].
  apply scan_args_spec in Hs. rewrite Hs /= slength_app /= in Hl.
  simplify_eq/=. split_and!; try done; lia.
Qed.

(** ** All commands of a text *)

(** The commands of a list lie one behind the other, from a position on, and
    each is what stands at its place. *)
Fixpoint well_parsed (content prefix : str) (from : nat) (l : list ParsedCommand) : Prop :=
  match l with
  | [] => True
  | pc :: l' =>
      from ≤ pc_start pc ∧ occurs prefix content (pc_start pc) ∧
      _parse_from_index content prefix (pc_start pc) = Some (pc_command pc, pc_matched_text pc, pc_end pc) ∧
      well_parsed content prefix (pc_end pc) l'
  end.

Lemma well_parsed_weaken content prefix i j l : j ≤ i → well_parsed content prefix i l → well_parsed content prefix j l.
Proof. destruct l; [done|]. simpl. intros ? (? & ?). split; [lia|done]. Qed.

Section loop.
Context (content prefix : str) (Hprefix : 0 < String.length prefix).

Lemma parse_loop_sound fuel i : well_parsed content prefix i (parse_loop fuel content prefix i).
Proof using Hprefix.
  revert i. induction fuel as [|fuel IH]; intros i; [done|]. simpl. destruct (i <? _); [|done].
  pose proof (find_from_spec prefix content i) as Hf. destruct (find_from prefix content i) as [start|]; [|done].
  destruct Hf as (Hi & Hocc & _). destruct (_parse_from_index content prefix start) as [[[c t] e]|] eqn:Hp.
  - simpl. split_and!; [done|done|done|]. destruct (parse_from_spec _ _ _ _ _ _ Hocc Hp) as (He & _).
    eapply well_parsed_weaken; [|apply IH]. lia.
  - eapply well_parsed_weaken; [|apply IH]. lia.
Qed.

(** Every command that stands in the text is found, or lies inside one that is,
    or its prefix overlaps an occurrence of the prefix before it. *)
Lemma parse_loop_complete fuel i k :
  String.length content - i ≤ fuel → i ≤ k → occurs prefix content k →
  is_Some (_parse_from_index content prefix k) →
  (∃ pc, pc ∈ parse_loop fuel content prefix i ∧ pc_start pc ≤ k < pc_end pc) ∨
  (∃ j, j < k < j + String.length prefix ∧ occurs prefix content j).
Proof using Hprefix.
  revert i. induction fuel as [|fuel IH]; intros i Hfuel Hik Hocc [[[c t] e] Hp];
    destruct (parse_from_spec _ _ _ _ _ _ Hocc Hp) as (He & _); [lia|].
  simpl. destruct (Nat.ltb_spec i (String.length content)); [|lia].
  pose proof (find_from_spec prefix content i) as Hf.
  destruct (find_from prefix content i) as [start|]; [|by destruct (Hf k Hik)].
  destruct Hf as (Hi & Hs & Hlow).
  destruct (decide (k < start)) as [Hlt|Hge]; [by destruct (Hlow k (conj Hik Hlt))|].
  destruct (_parse_from_index content prefix start) as [[[c' t'] e']|] eqn:Hp'.
  - destruct (parse_from_spec _ _ _ _ _ _ Hs Hp') as (He' & _). replace (max e' (start + String.length prefix)) with e' by lia.
    destruct (decide (k < e')) as [Hin|Hout].
    + left. eexists. split; [by left|]. simpl. lia.
    + destruct (IH e') as [(pc & Hpc & Hr)|?]; [lia|lia|done|by eexists| |by right].
      left. exists pc. split; [by right|done].
  - destruct (decide (k < start + String.length prefix)).
    + right. exists start. split; [|done]. destruct (decide (k = start)) as [->|]; [congruence|lia].
    + apply IH; [lia|lia|done|by eexists].
Qed.

(** The length of the text is enough fuel. *)
Lemma parse_loop_fuel fuel fuel' i :
  String.length content - i ≤ fuel → String.length content - i ≤ fuel' →
  parse_loop fuel content prefix i = parse_loop fuel' content prefix i.
Proof using Hprefix.
  revert fuel' i. induction fuel as [|fuel IH]; intros [|fuel'] i H1 H2; simpl; try done;
    destruct (Nat.ltb_spec i (String.length content)); try done; try lia.
  pose proof (find_from_spec prefix content i) as Hf.
  destruct (find_from prefix content i) as [start|]; [|done]. destruct Hf as (Hi & Hs & _).
  destruct (_parse_from_index content prefix start) as [[[c t] e]|] eqn:Hp; [|apply IH; lia].
  destruct (parse_from_spec _ _ _ _ _ _ Hs Hp) as (He & _). f_equal. apply IH; lia.
Qed.
End loop.

(** ** Printing and parsing *)

(** A character that has no meaning of its own in an argument list. *)
Definition is_plain (c : ascii) : bool :=
  negb (is_quote c || is_opening c || is_closing c || Ascii.eqb c "," || Ascii.eqb c "\").

Definition plain (s : str) : Prop := str_all is_plain s = true.

Definition print_arg (arg : str * str) : str := arg.1 +:+ "=" +:+ arg.2.

Definition print_command (prefix : str) (c : Command) : str :=
  prefix +:+ cmd_name c +:+ "(" +:+ join "," (print_arg <$> cmd_args c) +:+ ")".

(** Arguments that can be written down as they are. *)
Definition arg_ok (arg : str * str) : Prop :=
  stripped arg.1 ∧ stripped arg.2 ∧ plain arg.1 ∧ plain arg.2 ∧ str_find "=" arg.1 = None.

Lemma plain_char c :
  is_plain c = true →
  is_quote c = false ∧ is_opening c = false ∧ is_closing c = false ∧ Ascii.eqb c "," = false ∧ Ascii.eqb c "\" = false.
Proof. unfold is_plain. destruct (is_quote c), (is_opening c), (is_closing c), (Ascii.eqb c ","), (Ascii.eqb c "\"); done. Qed.

(** Text without quotes and parentheses is scanned up to the parenthesis that
    follows it. *)
Lemma scan_args_flat s post :
  str_all (λ c, negb (is_quote c || is_opening c || is_closing c)) s = true →
  scan_args 1 None false (s +:+ String ")" post) = Some (s, post).
Proof.
  induction s as [|c s IH]; [done|]. rewrite sapp_cons. simpl. intros [Hc Hs]%andb_true_iff. rewrite IH //.
  unfold is_opening, is_closing in Hc. destruct (is_quote c), (Ascii.eqb c "("), (Ascii.eqb c ")"); rewrite ?orb_true_r in Hc; done.
Qed.

Lemma split_args_plain cur s raw :
  plain s → split_args cur 0 None false (s +:+ raw) = split_args (cur +:+ s) 0 None false raw.
Proof.
  unfold plain. revert cur. induction s as [|c s IH]; intros cur; [by rewrite sapp_nil_l sapp_nil_r|].
  intros [(Hq & Ho & Hc & Hk & Hb)%plain_char Hs]%andb_true_iff. rewrite sapp_cons. simpl.
  rewrite Hq Ho Hc Hk Hb /= IH // sapp_assoc sapp_cons sapp_nil_l //.
Qed.

Lemma split_args_join parts :
  Forall (λ p, plain p ∧ stripped p ∧ p ≠ "") parts → split_args "" 0 None false (join "," parts) = parts.
Proof.
  assert (∀ p, stripped p → p ≠ "" → part_of p = [p]) as Hpart.
  { intros p Hp Hne. unfold part_of. rewrite Hp. by destruct p. }
  induction parts as [|p [|p' parts] IH]; [done| |]; intros [(Hp & Hs & Hne) Hrest]%Forall_cons.
  - simpl. rewrite -(sapp_nil_r p) split_args_plain // sapp_nil_l. simpl. by rewrite sapp_nil_r Hpart.
  - change (join "," (p :: p' :: parts)) with (p +:+ "," +:+ join "," (p' :: parts)).
    rewrite split_args_plain // sapp_nil_l. rewrite sapp_cons sapp_nil_l.
    change (split_args p 0 None false (String "," (join "," (p' :: parts))))
      with (part_of p ++ split_args "" 0 None false (join "," (p' :: parts))).
    by rewrite Hpart // IH.
Qed.

Lemma print_arg_stripped arg : stripped arg.1 → stripped arg.2 → stripped (print_arg arg).
Proof.
  intros H1 H2. destruct arg as [k v]; simpl in *. unfold print_arg; simpl. unfold stripped, strip.
  assert (rstrip (String "=" v) = String "=" v) as Hr.
  { simpl. rewrite (stripped_rstrip v H2). by destruct v. }
  assert (rstrip (k +:+ String "=" v) = k +:+ String "=" v) as Hkv.
  { rewrite rstrip_app Hr //. }
  rewrite sapp_cons sapp_nil_l. destruct (stripped_head k H1) as [->|(c & t & -> & Hc)].
  - rewrite sapp_nil_l. simpl (lstrip _). by rewrite Hr.
  - rewrite sapp_cons. simpl (lstrip _). rewrite Hc -sapp_cons. done.
Qed.

Lemma partition_app c k v : str_find c k = None → partition c (k +:+ String c v) = (k, v).
Proof.
  intros Hf. unfold partition. rewrite (find_app _ _ _ Hf) str_take_app. f_equal.
  by rewrite -(Nat.add_1_r (String.length k)) -str_drop_drop str_drop_app.
Qed.

Lemma add_arg_print args arg :
  arg_ok arg → od_get arg.1 args = None → add_arg args (print_arg arg) = args ++ [arg].
Proof.
  intros (H1 & H2 & _ & _ & Hf) Hnew. destruct arg as [k v]; cbn [fst snd] in *. unfold add_arg, print_arg.
  cbn [fst snd]. rewrite sapp_cons sapp_nil_l (find_app _ _ _ Hf) partition_app //. unfold stripped in *.
  by rewrite H1 H2 od_set_new.
Qed.

Lemma parse_args_print args :
  NoDup args.*1 → Forall arg_ok args → _parse_args (join "," (print_arg <$> args)) = args.
Proof.
  intros Hnd Hok. unfold _parse_args. rewrite split_args_join.
  - apply Forall_fmap. eapply Forall_impl; [exact Hok|]. intros arg (H1 & H2 & H3 & H4 & _). simpl.
    split_and!; [|by apply print_arg_stripped|by destruct arg as [[] ?]].
    unfold plain, print_arg in *. by rewrite !str_all_app H3 H4.
  - assert (∀ acc l, NoDup (acc ++ l).*1 → Forall arg_ok l → foldl add_arg acc (print_arg <$> l) = acc ++ l) as Hgo.
    { intros acc l. revert acc. induction l as [|a l IH]; intros acc Hn Hl; csimpl; [by rewrite app_nil_r|].
      apply Forall_cons in Hl as [Ha Hl]. rewrite add_arg_print //.
      - apply od_get_None. rewrite fmap_app in Hn. csimpl in Hn. apply NoDup_app in Hn as (_ & Hn & _).
        intros Hin. apply (Hn _ Hin). by left.
      - rewrite IH // -assoc_L //. }
    by rewrite Hgo.
Qed.

Lemma join_all (f : ascii → bool) l :
  f ","%char = true → Forall (λ s, str_all f s = true) l → str_all f (join "," l) = true.
Proof.
  intros Hf. induction 1 as [|s [|s' l] Hs _ IH]; [done|done|].
  change (join "," (s :: s' :: l)) with (s +:+ "," +:+ join "," (s' :: l)).
  by rewrite !str_all_app /= Hf Hs IH.
Qed.

Lemma take_name_app name rest :
  str_all is_name_char name = true → take_name (name +:+ String "(" rest) = (name, String "(" rest).
Proof.
  induction name as [|c name IH]; [done|]. rewrite sapp_cons. simpl. intros [-> Hn]%andb_true_iff. by rewrite IH.
Qed.

(** A printed command is found where it stands. *)
Lemma parse_printed_at pre prefix c post :
  str_all is_name_char (cmd_name c) = true → cmd_name c ≠ "" → NoDup (cmd_args c).*1 → Forall arg_ok (cmd_args c) →
  _parse_from_index (pre +:+ print_command prefix c +:+ post) prefix (String.length pre) =
  Some (c, print_command prefix c, String.length pre + String.length (print_command prefix c)).
Proof.
  intros Hname Hne Hnd Hok. unfold _parse_from_index.
  set (text := join "," (print_arg <$> cmd_args c)).
  assert (print_command prefix c +:+ post = prefix +:+ cmd_name c +:+ String "(" (text +:+ String ")" post)) as Heq.
  { unfold print_command. fold text. by rewrite !sapp_assoc !sapp_cons !sapp_nil_l. }
  rewrite -str_drop_drop str_drop_app Heq str_drop_app take_name_app //.
  destruct (is_empty (cmd_name c)) eqn:He; [by apply is_empty_spec in He|].
  simpl (lstrip _). change (is_space "(") with false. cbv iota. rewrite Ascii.eqb_refl scan_args_flat.
  { apply join_all; [done|]. apply Forall_fmap. eapply Forall_impl; [exact Hok|]. intros arg (_ & _ & H3 & H4 & _).
      simpl. unfold print_arg. rewrite !str_all_app.
      assert (∀ s, plain s → str_all (λ c, negb (is_quote c || is_opening c || is_closing c)) s = true) as Hw.
      { intros s. apply str_all_weaken. intros d Hd. by destruct (plain_char d Hd) as (-> & -> & -> & _). }
      by rewrite !Hw. }
  unfold text. rewrite parse_args_print //. fold text. rewrite -Heq.
  assert (String.length (pre +:+ print_command prefix c +:+ post) - String.length post =
    String.length pre + String.length (print_command prefix c)) as Hl by (rewrite !slength_app; lia).
  rewrite Hl. replace (_ + _ - _) with (String.length (print_command prefix c)) by lia.
  rewrite str_take_app. by destruct c.
Qed.

(** The commands of a text are found in order, without overlap, each between
    its start and its end with the prefix in front; and none is missed: a command
    that stands in the text is one of them, lies inside one of them, or its prefix
    overlaps an occurrence of the prefix before it. *)
Theorem parse_finds_commands content prefix :
  well_parsed content prefix 0 (parse content prefix) ∧
  ∀ k, prefix ≠ "" → occurs prefix content k → is_Some (_parse_from_index content prefix k) →
    (∃ pc, pc ∈ parse content prefix ∧ pc_start pc ≤ k < pc_end pc) ∨
    (∃ j, j < k < j + String.length prefix ∧ occurs prefix content j).
Proof.
  unfold parse. destruct prefix as [|c0 p0]; [rewrite orb_true_r; by split|]. rewrite orb_false_r.
  destruct (is_empty content) eqn:Hc.
  - apply is_empty_spec in Hc as ->. split; [done|]. intros k _ Hocc [[[c t] e] Hp].
    destruct (parse_from_spec _ _ _ _ _ _ Hocc Hp) as [He _]. simpl in He. lia.
  - split; [apply parse_loop_sound; simpl; lia|]. intros k _ Hocc Hp.
    apply parse_loop_complete; [simpl; lia|lia|lia|done|done].
Qed.

(** C21: Printing and parsing a command: a command whose arguments have distinct
    names and plain, trimmed texts is read back exactly, with its text and its
    position, from any message in which the prefix occurs first where the command
    was written and not behind it. *)
Theorem parse_print pre prefix c post :
  prefix ≠ "" → str_all is_name_char (cmd_name c) = true → cmd_name c ≠ "" →
  NoDup (cmd_args c).*1 → Forall arg_ok (cmd_args c) →
  find_sub prefix (pre +:+ print_command prefix c +:+ post) = Some (String.length pre) →
  find_sub prefix post = None →
  parse (pre +:+ print_command prefix c +:+ post) prefix =
  [MkParsed c (print_command prefix c) (String.length pre)
     (String.length pre + String.length (print_command prefix c))].
Proof.
  intros Hprefix Hname Hne Hnd Hok Hfirst Hpost.
  pose proof (parse_printed_at pre prefix c post Hname Hne Hnd Hok) as Hp.
  set (content := pre +:+ print_command prefix c +:+ post) in *.
  assert (occurs prefix content (String.length pre)) as Hocc.
  { pose proof (find_sub_spec prefix content) as Hs. rewrite Hfirst in Hs. apply Hs. }
  destruct (parse_from_spec _ _ _ _ _ _ Hocc Hp) as (He & _). unfold parse.
  destruct prefix as [|c0 p0]; [done|]. rewrite orb_false_r. destruct (is_empty content) eqn:Hc.
  { apply is_empty_spec in Hc. rewrite Hc in He. simpl in He. lia. }
  remember (String c0 p0) as prefix eqn:Hpre.
  destruct (String.length content) as [|fuel] eqn:Hlen; [lia|]. simpl. rewrite Hlen /=.
  unfold find_from. simpl (str_drop 0 _). rewrite Hfirst /= Hp. f_equal.
  rewrite Nat.max_l; [lia|]. destruct fuel as [|fuel]; [done|]. simpl.
  destruct (_ <? _); [|done]. unfold find_from, content.
  by rewrite -sapp_assoc -slength_app str_drop_app Hpost.
Qed.

Definition sample_command : Command := MkCommand "set" [("model", "openai:gpt-4o"); ("temperature", "0.5")].

Lemma parse_print_witness :
  print_command "!/" sample_command = "!/set(model=openai:gpt-4o,temperature=0.5)"%string ∧
  parse ("please " +:+ print_command "!/" sample_command +:+ " now") "!/" =
  [MkParsed sample_command (print_command "!/" sample_command) 7 49].
Proof.
  split; [reflexivity|].
  apply (parse_print "please " "!/" sample_command " now"); try reflexivity; try discriminate.
  - apply (bool_decide_eq_true_1 _). vm_compute. reflexivity.
  - repeat apply List.Forall_cons; try apply List.Forall_nil; (split; [|split; [|split; [|split]]]; reflexivity).
Defined.

Lemma parse_finds_commands_witness :
  (pc_start <$> parse "a !/x(1) !/y" "!/" = [2; 9]) ∧
  (∃ pc, pc ∈ parse "a !/x(1) !/y" "!/" ∧ pc_start pc ≤ 9 < pc_end pc) ∨
  (∃ j, j < 9 < j + String.length "!/" ∧ occurs "!/" "a !/x(1) !/y" j).
Proof.
  destruct (proj2 (parse_finds_commands "a !/x(1) !/y" "!/") 9 ltac:(discriminate) eq_refl (ex_intro _ _ eq_refl)) as [H|H].
  - left. split; [reflexivity|exact H].
  - right. exact H.
Defined.
