(* ===== verification/NonForwardable.v ===== *)
(** * Messages that must not be forwarded

    [src/core/services/non_forwardable_message_identity_service.py],
    [non_forwardable_message_registry.py] and [non_forwardable_message_enforcer.py],
    with the messages of [domain/chat.py] and the step of the completion flow that
    calls the enforcer.  A session remembers the identities of the messages that must
    not reach a backend; the enforcer drops them right before the backend call.

    The JSON text of an identity ([json.dumps] with sorted keys) and its SHA-256 are
    parameters.  A tool call is the dictionary it dumps to. *)

From Stdlib Require Import Ascii.
From S2P Require Import Prelude PyStr PyDict Exceptions.
From stdpp Require Import options.

(** ** Messages *)

Inductive MessageContentPart : Type :=
| TextPart (part_type text : str) (cache_control : option json)
| ImagePart (part_type url : str) (detail : option str) (cache_control : option json)
| AudioPart (part_type data format : str).

Inductive message_content : Type :=
| NoContent
| TextContent (text : str)
| PartsContent (parts : list MessageContentPart).

Record ChatMessage : Type := MkMessage {
  cm_role : str;
  cm_content : message_content;
  cm_reasoning_content : option str;
  cm_name : option str;
  cm_tool_calls : option (list (list (str * json)));
  cm_tool_call_id : option str;
  cm_metadata : option json
}.

Definition opt_json (v : option str) : json := match v with Some s => JStr s | None => JNull end.

Definition dump_cache (cache_control : option json) (d : list (str * json)) : list (str * json) :=
  match cache_control with Some c => od_set "cache_control" c d | None => d end.

(** [part.model_dump()] *)
Definition part_dump (part : MessageContentPart) : list (str * json) :=
  match part with
  | TextPart t text c => dump_cache c [("type", JStr t); ("text", JStr text)]
  | ImagePart t url detail c =>
      dump_cache c [("type", JStr t); ("image_url", JDict [("url", JStr url); ("detail", opt_json detail)])]
  | AudioPart t data format =>
      [("type", JStr t); ("input_audio", JDict [("data", JStr data); ("format", JStr format)])]
  end%string.

(** ** Identities *)

(** [text.replace("\r\n", "\n")] *)
Fixpoint replace_crlf (s : str) : str :=
  match s with
  | "" => ""
  | String c s' =>
      match s' with
      | String d s'' =>
          if Ascii.eqb c CR && Ascii.eqb d LF then String LF (replace_crlf s'') else String c (replace_crlf s')
      | "" => String c ""
      end
  end.

Definition _normalize_text (text : str) : str := replace_char CR LF (replace_crlf text).

(** [_normalize_dict_text_fields] on one value; a list inside a list stays as it
    is. *)
Fixpoint normalize_value (v : json) : json :=
  match v with
  | JStr s => JStr (_normalize_text s)
  | JDict d => JDict (map (λ e, (e.1, normalize_value e.2)) d)
  | JList l => JList (map (λ w, match w with JList _ => w | _ => normalize_value w end) l)
  | _ => v
  end.

Definition _normalize_dict_text_fields (d : list (str * json)) : list (str * json) :=
  (λ e, (e.1, normalize_value e.2)) <$> d.

Definition _normalize_content (content : message_content) : json :=
  match content with
  | NoContent => JNull
  | TextContent text => JStr (_normalize_text text)
  | PartsContent parts =>
      JList ((λ part, JDict (_normalize_dict_text_fields (od_pop "cache_control" (part_dump part)))) <$> parts)
  end.

Definition _normalize_tool_calls (tool_calls : list (list (str * json))) : json :=
  JList ((λ call, JDict (_normalize_dict_text_fields call)) <$> tool_calls).

(** [d[key] = value], for a value that is there. *)
Definition set_some (key : str) (value : option json) (d : list (str * json)) : list (str * json) :=
  match value with Some v => od_set key v d | None => d end.

Definition is_tool_result (m : ChatMessage) : bool :=
  bool_decide (cm_role m = "tool"%string) && bool_decide (is_Some (cm_tool_call_id m)).

Definition _build_identity_input (m : ChatMessage) : list (str * json) :=
  let role := [("role"%string, JStr (cm_role m))] in
  let name := (λ n, JStr (_normalize_text n)) <$> cm_name m in
  if is_tool_result m then set_some "name" name (set_some "tool_call_id" (JStr <$> cm_tool_call_id m) role)
  else
    let content := match cm_content m with NoContent => None | c => Some (_normalize_content c) end in
    let reasoning := (λ r, JStr (_normalize_text r)) <$> cm_reasoning_content m in
    set_some "tool_call_id" (JStr <$> cm_tool_call_id m)
      (set_some "tool_calls" (_normalize_tool_calls <$> cm_tool_calls m)
        (set_some "name" name (set_some "reasoning_content" reasoning (set_some "content" content role)))).

Definition MessageIdentity : Type := str.

(** ** Tags *)

Inductive NonForwardableTagScope : Type := NEVER_FORWARD | CLIENT_HISTORY_ONLY.

#[global] Instance scope_eq_dec : EqDecision NonForwardableTagScope.
Proof. solve_decision. Defined.

#[global] Instance scope_countable : Countable NonForwardableTagScope.
Proof.
  by refine (inj_countable' (λ s, match s with NEVER_FORWARD => true | CLIENT_HISTORY_ONLY => false end)
    (λ b : bool, if b then NEVER_FORWARD else CLIENT_HISTORY_ONLY) _); intros [].
Defined.

(** The tags of a session; two tags are the same when identity and scope are, so
    the reason is data of the tag. *)
Definition tag_set : Type := gmap (MessageIdentity * NonForwardableTagScope) str.

Definition registry : Type := gmap string tag_set.

Definition session_tags (reg : registry) (session_id : str) : tag_set := default ∅ (reg !! session_id).

Definition empty_session : exn := py_exception "ValueError" "session_id must be non-empty".

Definition limit_exceeded (session_id : str) (max_limit new_count : nat) : exn :=
  mk_LLMProxyError NonForwardableTagLimitExceededError
    ("Non-forwardable tag capacity exceeded for session " +:+ session_id +:+ ". Limit: " +:+
     str_of_N (N.of_nat max_limit) +:+ ", Would result in: " +:+ str_of_N (N.of_nat new_count) +:+ " tags")
    ([("session_id"%string, JStr session_id)] ++
     if max_limit =? 0 then [] else [("max_limit"%string, JInt (Z.of_nat max_limit))]) (Some 400%Z).

(** [tag_identities]; the union keeps the tags that are there. *)
Definition tag_identities (max_limit : nat) (session_id : str) (identities : list MessageIdentity)
    (scope : NonForwardableTagScope) (reason : str) : stm registry exn unit := λ reg,
  if is_empty session_id then (Err empty_session, reg)
  else match identities with
       | [] => (Ok tt, reg)
       | _ =>
           let new_tags : tag_set := list_to_map ((λ i, ((i, scope), reason)) <$> identities) in
           let combined_tags := session_tags reg session_id ∪ new_tags in
           let new_count := size combined_tags in
           if max_limit <? new_count then (Err (limit_exceeded session_id max_limit new_count), reg)
           else (Ok tt, <[session_id := combined_tags]> reg)
       end.

Definition is_tagged (session_id : str) (identity : MessageIdentity) (scope : NonForwardableTagScope)
    (reg : registry) : res exn bool :=
  if is_empty session_id then Err empty_session
  else Ok (bool_decide (is_Some (session_tags reg session_id !! (identity, scope)))).

Section enforcer.
Context (dumps : json → str) (sha256 : str → str).

(** ** Computing an identity *)

(** The request-local cache, from the JSON text of an identity to its hash. *)
Definition identity_cache : Type := gmap string MessageIdentity.

Definition _get_cache_key (identity_input : list (str * json)) : str := dumps (JDict identity_input).
Definition _compute_hash (identity_input : list (str * json)) : MessageIdentity := sha256 (_get_cache_key identity_input).

Definition compute_identity (m : ChatMessage) (cache : identity_cache) : MessageIdentity * identity_cache :=
  let identity_input := _build_identity_input m in
  let cache_key := _get_cache_key identity_input in
  match cache !! cache_key with
  | Some identity => (identity, cache)
  | None => let identity := _compute_hash identity_input in (identity, <[cache_key := identity]> cache)
  end.

(** The identity, without the cache. *)
Definition identity_of (m : ChatMessage) : MessageIdentity := _compute_hash (_build_identity_input m).

(** ** The enforcer *)

Definition enforcement_error (message : str) (details : list (str * json)) : exn :=
  mk_LLMProxyError NonForwardableEnforcementError message details (Some 500%Z).

Definition PROXY_INJECTED_MESSAGES_START_INDEX_KEY : str := "proxy_injected_messages_start_index".

(** [type(value).__name__] *)
Definition type_name (v : json) : str :=
  match v with
  | JNull => "NoneType"
  | JBool _ => "bool"
  | JInt _ => "int"
  | JFloat _ => "float"
  | JStr _ => "str"
  | JList _ => "list"
  | JDict _ => "dict"
  end.

(** [context] is the extensions of the request context.  The details of the first
    error hold the value instead of its [str]. *)
Definition _extract_provenance_boundary (context : option (list (str * json))) (message_count : nat) :
    res exn (option nat) :=
  match context ≫= od_get PROXY_INJECTED_MESSAGES_START_INDEX_KEY with
  | None | Some JNull => Ok None
  | Some boundary_value =>
      match as_int (Some boundary_value) with
      | None =>
          Err (enforcement_error ("Invalid provenance boundary: expected integer, got " +:+ type_name boundary_value)
                 [("boundary_value"%string, boundary_value)])
      | Some z =>
          if (z <? 0)%Z || (Z.of_nat message_count <? z)%Z then
            Err (enforcement_error
                   ("Invalid provenance boundary: " +:+ str_of_Z z +:+ " must be in range [0, " +:+
                    str_of_Z (Z.of_nat message_count) +:+ "]")
                   [("boundary_value"%string, boundary_value); ("message_count"%string, JInt (Z.of_nat message_count))])
          else Ok (Some (Z.to_nat z))
      end
  end.

Definition _has_content (m : ChatMessage) : bool :=
  match cm_content m with
  | NoContent => false
  | TextContent text => negb (is_empty (strip text))
  | PartsContent parts => negb (bool_decide (parts = []))
  end.

Definition user_content (m : ChatMessage) : bool := bool_decide (cm_role m = "user"%string) && _has_content m.

Definition _validate_forwardable_content (filtered original : list ChatMessage) : res exn unit :=
  if existsb user_content original && negb (existsb user_content filtered) then
    Err (mk_LLMProxyError NoForwardableContentError
           "All forwardable user-provided content was removed by filtering"
           [("original_message_count"%string, JInt (Z.of_nat (length original)));
            ("filtered_message_count"%string, JInt (Z.of_nat (length filtered)))] (Some 400%Z))
  else Ok tt.

(** What a run of the enforcer reads: other requests of the session may add tags
    between its lookups, so the registry is given by the number of the lookup. *)
Section run.
Context (view : nat → registry).

(** The number of lookups so far and the identity cache. *)
Definition run_state : Type := nat * identity_cache.

Definition lookup_tag (session_id : str) (identity : MessageIdentity) (scope : NonForwardableTagScope) :
    stm run_state exn bool := λ s, (is_tagged session_id identity scope (view s.1), (S s.1, s.2)).

Definition message_identity (m : ChatMessage) : stm run_state exn MessageIdentity := λ s,
  let '(identity, cache) := compute_identity m s.2 in (Ok identity, (s.1, cache)).

(** Any error of a lookup is wrapped. *)
Definition wrap_error {A} (session_id : str) (m : stm run_state exn A) : stm run_state exn A := λ s,
  match m s with
  | (Err e, s') =>
      (Err (enforcement_error ("Error checking tag status for message: " +:+ ex_message e)
              [("session_id"%string, JStr session_id); ("error_type"%string, JStr (ex_type e))]), s')
  | r => r
  end.

Definition should_filter (session_id : str) (filter_client_history_only : bool) (m : ChatMessage) :
    stm run_state exn bool :=
  wrap_error session_id (
    identity ← message_identity m;
    is_never_forward ← lookup_tag session_id identity NEVER_FORWARD;
    if is_never_forward : bool then mret true
    else if filter_client_history_only then lookup_tag session_id identity CLIENT_HISTORY_ONLY
    else mret false).

Fixpoint _filter_message_segment (session_id : str) (filter_client_history_only : bool) (messages : list ChatMessage) :
    stm run_state exn (list ChatMessage * nat) :=
  match messages with
  | [] => mret ([], 0)
  | m :: messages' =>
      drop ← should_filter session_id filter_client_history_only m;
      '(filtered, filtered_count) ← _filter_message_segment session_id filter_client_history_only messages';
      mret (if drop : bool then (filtered, S filtered_count) else (m :: filtered, filtered_count))
  end.

Definition filter_messages (session_id : str) (messages : list ChatMessage) (context : option (list (str * json))) :
    stm run_state exn (list ChatMessage * nat) :=
  if is_empty session_id then
    raise (enforcement_error "session_id must be non-empty" [("session_id"%string, JStr session_id)])
  else match messages with
       | [] => mret ([], 0)
       | _ =>
           injected_start_index ← lift (_extract_provenance_boundary context (length messages));
           match injected_start_index with
           | Some k =>
               '(filtered_client_history, client_filtered_count) ←
                 _filter_message_segment session_id true (take k messages);
               '(filtered_injected, injected_filtered_count) ←
                 _filter_message_segment session_id false (drop k messages);
               _ ← match filtered_injected with
                   | [] => lift (_validate_forwardable_content filtered_client_history (take k messages))
                   | _ => mret tt
                   end;
               mret (filtered_client_history ++ filtered_injected, client_filtered_count + injected_filtered_count)
           | None =>
               '(filtered_messages, total_filtered_count) ← _filter_message_segment session_id true messages;
               _ ← lift (_validate_forwardable_content filtered_messages messages);
               mret (filtered_messages, total_filtered_count)
           end
       end.

(** [BackendCompletionFlow._enforce_non_forwardable_content]: the messages of the
    request that goes on to the backend call, or the error that takes its place. *)
Definition _enforce_non_forwardable_content (session_id : str) (messages : list ChatMessage)
    (context : option (list (str * json))) : stm run_state exn (list ChatMessage) := λ s,
  match filter_messages session_id messages context s with
  | (Ok (filtered_messages, _), s') => (Ok filtered_messages, s')
  | (Err e, s') =>
      if isinstance (ex_class e) [NoForwardableContentError; NonForwardableEnforcementError] then
        (Err (mk_BackendError BackendError ("Non-forwardable message enforcement failed: " +:+ ex_message e)
                [] None None None), s')
      else (Err e, s')
  end.
End run.

(** ** Identities and their cache *)

Definition cache_ok (cache : identity_cache) : Prop := ∀ k i, cache !! k = Some i → i = sha256 k.

Lemma compute_identity_spec m cache :
  cache_ok cache → (compute_identity m cache).1 = identity_of m ∧ cache_ok (compute_identity m cache).2.
Proof.
  intros Hc. unfold compute_identity, identity_of, _compute_hash.
  destruct (cache !! _get_cache_key (_build_identity_input m)) as [i|] eqn:Hi; simpl; [by split; [apply Hc|]|].
  split; [done|]. intros k i [[<- <-]|[_ Hk]]%lookup_insert_Some; [done|by apply Hc].
Qed.

(** ** The enforcer on its messages *)

Definition tagged (reg : registry) (session_id : str) (identity : MessageIdentity) (scope : NonForwardableTagScope) : bool :=
  bool_decide (is_Some (session_tags reg session_id !! (identity, scope))).

(** A message that a registry keeps back, in the client's history ([client]) or
    among the messages of the proxy. *)
Definition blocked (reg : registry) (session_id : str) (client : bool) (m : ChatMessage) : bool :=
  tagged reg session_id (identity_of m) NEVER_FORWARD ||
  client && tagged reg session_id (identity_of m) CLIENT_HISTORY_ONLY.

Definition reg_le (r1 r2 : registry) : Prop :=
  ∀ session_id identity scope, tagged r1 session_id identity scope = true → tagged r2 session_id identity scope = true.

#[global] Instance reg_le_preorder : PreOrder reg_le.
Proof. split; [by intros ? ?|]. intros ? ? ? H1 H2 ? ? ? ?. by apply H2, H1. Qed.

Lemma blocked_mono r1 r2 session_id client m :
  reg_le r1 r2 → blocked r1 session_id client m = true → blocked r2 session_id client m = true.
Proof.
  unfold blocked. intros Hle [H|[-> H]%andb_true_iff]%orb_true_iff; apply Hle in H; rewrite H; [done|apply orb_true_r].
Qed.

Section facts.
Context (view : nat → registry) (session_id : str) (Hsession : is_empty session_id = false).

(** One message: the two lookups see the registry at two moments of the run. *)
Lemma should_filter_spec client m s :
  cache_ok s.2 →
  ∃ n1 n2 s',
    should_filter view session_id client m s =
      (Ok (tagged (view n1) session_id (identity_of m) NEVER_FORWARD ||
           client && tagged (view n2) session_id (identity_of m) CLIENT_HISTORY_ONLY), s') ∧
    cache_ok s'.2 ∧ s.1 ≤ n1 ∧ s.1 ≤ n2 ∧ s.1 ≤ s'.1.
Proof using Hsession.
  intros Hc. unfold should_filter, wrap_error, message_identity, lookup_tag, is_tagged. rewrite Hsession.
  destruct (compute_identity_spec m s.2 Hc) as [Hi Hc']. unfold mbind, stm_bind.
  destruct (compute_identity m s.2) as [i cache]; simpl in *. subst i.
  fold (tagged (view s.1) session_id (identity_of m) NEVER_FORWARD).
  exists s.1, (S s.1). destruct (tagged (view s.1) session_id (identity_of m) NEVER_FORWARD); simpl.
  - eexists. split_and!; [done|done|lia|lia|simpl; lia].
  - destruct client; eexists; (split_and!; [done|done|lia|lia|simpl; lia]).
Qed.

(** With a registry that does not change. *)
Lemma segment_const reg client messages s :
  (∀ n, view n = reg) → cache_ok s.2 →
  ∃ s', _filter_message_segment view session_id client messages s =
      (Ok (filter (λ m, blocked reg session_id client m = false) messages,
           length (filter (λ m, blocked reg session_id client m = true) messages)), s') ∧ cache_ok s'.2.
Proof using Hsession.
  intros Hv. revert s. induction messages as [|m messages IH]; intros s Hc; [by eexists|]. simpl.
  destruct (should_filter_spec client m s Hc) as (n1 & n2 & s1 & Hf & Hc1 & _). rewrite !Hv in Hf.
  fold (blocked reg session_id client m) in Hf.
  destruct (IH s1 Hc1) as (s2 & Hg & Hc2). unfold mbind, stm_bind in *. rewrite Hf Hg. rewrite !filter_cons.
  destruct (blocked reg session_id client m); simpl; eexists; split; done.
Qed.

(** With a registry that grows: what it kept back at the start stays back. *)
Lemma segment_safe client messages s :
  (∀ n n', n ≤ n' → reg_le (view n) (view n')) → cache_ok s.2 →
  ∃ kept count s', _filter_message_segment view session_id client messages s = (Ok (kept, count), s') ∧
    cache_ok s'.2 ∧ s.1 ≤ s'.1 ∧ sublist kept messages ∧ length kept + count = length messages ∧
    ∀ m n, m ∈ kept → n ≤ s.1 → blocked (view n) session_id client m = false.
Proof using Hsession.
  intros Hv. revert s. induction messages as [|m messages IH]; intros s Hc.
  { exists [], 0, s. split_and!; [done|done|lia|constructor|done|]. by intros ? ? ?%elem_of_nil. }
  simpl. destruct (should_filter_spec client m s Hc) as (n1 & n2 & s1 & Hf & Hc1 & Hn1 & Hn2 & Hs1).
  destruct (IH s1 Hc1) as (kept & count & s2 & Hg & Hc2 & Hs2 & Hsub & Hlen & Hsafe).
  unfold mbind, stm_bind in *. rewrite Hf Hg.
  destruct (tagged (view n1) session_id (identity_of m) NEVER_FORWARD ||
    client && tagged (view n2) session_id (identity_of m) CLIENT_HISTORY_ONLY) eqn:Hb; simpl.
  - exists kept, (S count), s2. split_and!; [done|done|lia|by constructor|lia|].
    intros m' n Hm' Hn. apply Hsafe; [done|lia].
  - exists (m :: kept), count, s2. split_and!; [done|done|lia|by constructor|simpl; lia|].
    intros m' n [->|Hm']%elem_of_cons Hn; [|apply Hsafe; [done|lia]].
    apply not_true_iff_false. intros Hbl. apply orb_false_iff in Hb as [Hb1 Hb2]. unfold blocked in Hbl.
    apply orb_true_iff in Hbl as [H|[-> H]%andb_true_iff].
    + apply (Hv n n1) in H; [congruence|lia].
    + apply (Hv n n2) in H; [|lia]. by rewrite H in Hb2.
Qed.
End facts.

(** ** The registry *)

Lemma session_tags_insert reg session_id tags session_id' :
  session_tags (<[session_id := tags]> reg) session_id' =
  if decide (session_id = session_id') then tags else session_tags reg session_id'.
Proof.
  unfold session_tags. case_decide; subst; [by rewrite lookup_insert_eq|by rewrite lookup_insert_ne].
Qed.

(** A call that returns has tagged its identities and kept all tags; one that
    raises has changed nothing. *)
Lemma tag_identities_spec max_limit session_id identities scope reason reg :
  let '(r, reg') := tag_identities max_limit session_id identities scope reason reg in
  reg_le reg reg' ∧
  match r with
  | Ok _ => ∀ i, i ∈ identities → tagged reg' session_id i scope = true
  | Err e => reg' = reg ∧ (session_id = "" ∨ ex_class e = NonForwardableTagLimitExceededError)
  end.
Proof.
  unfold tag_identities. destruct (is_empty session_id) eqn:Hs.
  { split; [done|]. split; [done|]. left. by apply is_empty_spec. }
  destruct identities as [|i0 identities]; [split; [done|]; by intros ? ?%elem_of_nil|].
  remember (i0 :: identities) as ids. destruct (_ <? _); [by split; [|split; [|right]]|].
  split; unfold tagged; [intros session_id' i sc|intros i Hi]; rewrite !bool_decide_eq_true session_tags_insert.
  - case_decide as Hd; [subst session_id'|done]. intros [x Hx]. exists x. by apply lookup_union_Some_l.
  - rewrite decide_True //. apply lookup_union_is_Some. right. apply elem_of_dom. rewrite dom_list_to_map_L.
    apply elem_of_list_to_set, list_elem_of_fmap. exists ((i, scope), reason). split; [done|].
    apply list_elem_of_fmap. by exists i.
Qed.

Definition reg_bounded (max_limit : nat) (reg : registry) : Prop :=
  ∀ session_id, size (session_tags reg session_id) ≤ max_limit.

Lemma tag_identities_bounded max_limit session_id identities scope reason reg :
  reg_bounded max_limit reg → reg_bounded max_limit (tag_identities max_limit session_id identities scope reason reg).2.
Proof.
  intros Hb. unfold tag_identities. destruct (is_empty session_id); [done|].
  destruct identities as [|i0 identities]; [done|]. remember (i0 :: identities) as ids.
  destruct (Nat.ltb_spec max_limit (size (session_tags reg session_id ∪
    list_to_map ((λ i, ((i, scope), reason)) <$> ids)))) as [|Hle]; [done|].
  intros session_id'. simpl. rewrite session_tags_insert. by case_decide.
Qed.

(** The calls of all requests, in the order of the lock. *)
Record tag_call : Type := MkTagCall {
  tc_session : str; tc_identities : list MessageIdentity; tc_scope : NonForwardableTagScope; tc_reason : str
}.

Definition call_tag (max_limit : nat) (reg : registry) (c : tag_call) : registry :=
  (tag_identities max_limit (tc_session c) (tc_identities c) (tc_scope c) (tc_reason c) reg).2.

Definition call_tags (max_limit : nat) (calls : list tag_call) (reg : registry) : registry :=
  foldl (call_tag max_limit) reg calls.

Lemma call_tags_le max_limit calls reg : reg_le reg (call_tags max_limit calls reg).
Proof.
  revert reg. induction calls as [|c calls IH]; intros reg; [done|]. simpl. etrans; [|apply IH]. unfold call_tag.
  pose proof (tag_identities_spec max_limit (tc_session c) (tc_identities c) (tc_scope c) (tc_reason c) reg) as H.
  by destruct (tag_identities _ _ _ _ _ reg) as [r reg'], H as [H _].
Qed.

Lemma call_tags_bounded max_limit calls reg :
  reg_bounded max_limit reg → reg_bounded max_limit (call_tags max_limit calls reg).
Proof.
  revert reg. induction calls as [|c calls IH]; intros reg Hb; [done|]. by apply IH, tag_identities_bounded.
Qed.

(** ** What a client may change *)

Inductive line_ending : Type := EndLF | EndCRLF | EndCR.

Definition ending_str (e : line_ending) : str :=
  match e with EndLF => String LF "" | EndCRLF => String CR (String LF "") | EndCR => String CR "" end.

(** A text with each line feed written in one style. *)
Fixpoint with_ending (e : line_ending) (s : str) : str :=
  match s with
  | "" => ""
  | String c s' => (if Ascii.eqb c LF then ending_str e else String c "") +:+ with_ending e s'
  end.

Definition no_cr (s : str) : Prop := str_all (λ c, negb (Ascii.eqb c CR)) s = true.

Lemma replace_crlf_cons c s :
  Ascii.eqb c CR = false → replace_crlf (String c s) = String c (replace_crlf s).
Proof. intros Hc. simpl. rewrite Hc. by destruct s. Qed.

Lemma normalize_with_ending e s : no_cr s → _normalize_text (with_ending e s) = s.
Proof.
  unfold _normalize_text, no_cr. destruct e; intros Hs.
  - induction s as [|c s IH]; [done|]. simpl in Hs. apply andb_true_iff in Hs as [Hc%negb_true_iff Hs].
    change (with_ending EndLF (String c s)) with
      ((if Ascii.eqb c LF then String LF "" else String c "") +:+ with_ending EndLF s).
    destruct (Ascii.eqb_spec c LF) as [->|]; rewrite sapp_cons sapp_nil_l replace_crlf_cons //; simpl;
      by rewrite ?Hc IH.
  - induction s as [|c s IH]; [done|]. simpl in Hs. apply andb_true_iff in Hs as [Hc%negb_true_iff Hs].
    change (with_ending EndCRLF (String c s)) with
      ((if Ascii.eqb c LF then String CR (String LF "") else String c "") +:+ with_ending EndCRLF s).
    destruct (Ascii.eqb_spec c LF) as [->|].
    + rewrite !sapp_cons sapp_nil_l. simpl. by rewrite IH.
    + rewrite sapp_cons sapp_nil_l replace_crlf_cons //. simpl. by rewrite Hc IH.
  - assert (replace_crlf (with_ending EndCR s) = with_ending EndCR s ∧
      ∀ t, with_ending EndCR s ≠ String LF t) as [-> _].
    { induction s as [|c s IH]; [done|]. simpl in Hs. apply andb_true_iff in Hs as [Hc%negb_true_iff Hs].
      destruct (IH Hs) as [IH1 IH2].
      change (with_ending EndCR (String c s)) with
        ((if Ascii.eqb c LF then String CR "" else String c "") +:+ with_ending EndCR s).
      destruct (Ascii.eqb_spec c LF) as [->|Hne]; rewrite sapp_cons sapp_nil_l.
      - split; [|by intros t [=]]. destruct (with_ending EndCR s) as [|d u] eqn:Hu; [done|].
        change (replace_crlf (String CR (String d u))) with
          (if Ascii.eqb CR CR && Ascii.eqb d LF then String LF (replace_crlf u) else String CR (replace_crlf (String d u))).
        rewrite Ascii.eqb_refl. destruct (Ascii.eqb_spec d LF) as [->|]; [by destruct (IH2 u)|]. by rewrite IH1.
      - split; [by rewrite replace_crlf_cons // IH1|by intros t [=]]. }
    induction s as [|c s IH]; [done|]. simpl in Hs. apply andb_true_iff in Hs as [Hc%negb_true_iff Hs].
    change (with_ending EndCR (String c s)) with
      ((if Ascii.eqb c LF then String CR "" else String c "") +:+ with_ending EndCR s).
    destruct (Ascii.eqb_spec c LF) as [->|]; rewrite sapp_cons sapp_nil_l; simpl; by rewrite ?Hc IH.
Qed.

(** A part in another style of line ending or with other cache control. *)
Inductive same_part : MessageContentPart → MessageContentPart → Prop :=
| same_part_refl p : same_part p p
| same_text t text e e' c c' :
    no_cr text → same_part (TextPart t (with_ending e text) c) (TextPart t (with_ending e' text) c')
| same_image t url detail c c' : same_part (ImagePart t url detail c) (ImagePart t url detail c').

(** What may happen to a message on its way to the client and back: its metadata
    change, its texts come in another style of line ending, cache control is added
    or dropped, and the content of a tool result is rewritten. *)
Inductive resubmitted : ChatMessage → ChatMessage → Prop :=
| rs_metadata role content reasoning name calls call_id meta meta' :
    resubmitted (MkMessage role content reasoning name calls call_id meta)
                (MkMessage role content reasoning name calls call_id meta')
| rs_text role text e e' reasoning name calls call_id meta :
    no_cr text →
    resubmitted (MkMessage role (TextContent (with_ending e text)) reasoning name calls call_id meta)
                (MkMessage role (TextContent (with_ending e' text)) reasoning name calls call_id meta)
| rs_parts role parts parts' reasoning name calls call_id meta :
    Forall2 same_part parts parts' →
    resubmitted (MkMessage role (PartsContent parts) reasoning name calls call_id meta)
                (MkMessage role (PartsContent parts') reasoning name calls call_id meta)
| rs_tool_result content content' reasoning name calls call_id meta :
    resubmitted (MkMessage "tool" content reasoning name calls (Some call_id) meta)
                (MkMessage "tool" content' reasoning name calls (Some call_id) meta).

Lemma dump_cache_pop c (d : list (str * json)) :
  od_get "cache_control"%string d = None → od_pop "cache_control"%string (dump_cache c d) = d.
Proof.
  intros Hd. destruct c as [c|]; simpl; [|by apply od_pop_None]. rewrite od_set_new //.
  clear -Hd. induction d as [|[k v] d IH]; simpl in *; [done|].
  case_decide; [done|]. by rewrite IH.
Qed.

Lemma same_part_dump p p' :
  same_part p p' →
  _normalize_dict_text_fields (od_pop "cache_control"%string (part_dump p)) =
  _normalize_dict_text_fields (od_pop "cache_control"%string (part_dump p')).
Proof.
  destruct 1; simpl; [done| |]; rewrite !dump_cache_pop //. unfold _normalize_dict_text_fields; csimpl.
  by rewrite !normalize_with_ending.
Qed.

Lemma resubmitted_input m m' : resubmitted m m' → _build_identity_input m = _build_identity_input m'.
Proof.
  destruct 1 as [| |role parts parts' ????? H|]; try done; unfold _build_identity_input; simpl.
  - unfold is_tool_result; simpl. by rewrite !normalize_with_ending.
  - unfold is_tool_result; simpl. replace ((λ part, JDict (_normalize_dict_text_fields (od_pop "cache_control"%string (part_dump part)))) <$> parts')
      with ((λ part, JDict (_normalize_dict_text_fields (od_pop "cache_control"%string (part_dump part)))) <$> parts); [done|].
    induction H as [|p p' ps ps' Hp _ IH]; [done|]. csimpl. by rewrite (same_part_dump p p' Hp) IH.
Qed.

Lemma resubmitted_identity m m' : rtc resubmitted m m' → identity_of m = identity_of m'.
Proof.
  unfold identity_of. intros Hr. f_equal. induction Hr as [|m1 m2 m3 H _ IH]; [done|]. by rewrite (resubmitted_input _ _ H).
Qed.

(** A message keeps its identity however the client sends it back: with other
    metadata, with its line feeds written in another style, with cache control added
    or dropped, and, for the result of a tool call, with other content. *)
Theorem identity_stable m m' cache cache' :
  rtc resubmitted m m' → cache_ok cache → cache_ok cache' →
  (compute_identity m cache).1 = (compute_identity m' cache').1.
Proof.
  intros Hr Hc Hc'. rewrite (proj1 (compute_identity_spec m _ Hc)) (proj1 (compute_identity_spec m' _ Hc')).
  by apply resubmitted_identity.
Qed.

(** Tags are for the lifetime of the session: whatever calls are made before and
    after it, a call that returns has tagged its identities for good, a call that
    raises has changed nothing, and no session ever holds more tags than the limit. *)
Theorem tags_are_for_good max_limit before after c :
  let reg := call_tags max_limit before ∅ in
  let '(r, reg') := tag_identities max_limit (tc_session c) (tc_identities c) (tc_scope c) (tc_reason c) reg in
  let final := call_tags max_limit after reg' in
  reg_bounded max_limit final ∧
  match r with
  | Ok _ => ∀ i, i ∈ tc_identities c → tagged final (tc_session c) i (tc_scope c) = true
  | Err e => reg' = reg ∧ (tc_session c = ""%string ∨ ex_class e = NonForwardableTagLimitExceededError)
  end.
Proof.
  intros reg. assert (reg_bounded max_limit reg) as Hb.
  { apply call_tags_bounded. intros session_id. unfold session_tags. rewrite lookup_empty. simpl. rewrite map_size_empty. lia. }
  pose proof (tag_identities_spec max_limit (tc_session c) (tc_identities c) (tc_scope c) (tc_reason c) reg) as Hs.
  pose proof (tag_identities_bounded max_limit (tc_session c) (tc_identities c) (tc_scope c) (tc_reason c) reg Hb) as Hb'.
  destruct (tag_identities _ _ _ _ _ reg) as [[[]|e] reg'] eqn:E; destruct Hs as [Hle Hs];
    (split; [by apply call_tags_bounded|]).
  - intros i Hi. by apply (call_tags_le max_limit after), Hs.
  - done.
Qed.

Lemma boundary_error context n e :
  _extract_provenance_boundary context n = Err e → ex_class e = NonForwardableEnforcementError.
Proof.
  unfold _extract_provenance_boundary. destruct (context ≫= _) as [[]|]; simpl; try congruence;
    try (intros [= <-]; done); case_match; intros [= <-]; done.
Qed.

(** C22: With a registry at rest and a session id, the enforcer drops exactly the
    messages that are tagged never-forward and, in the client's part of the
    request, those that are tagged client-history-only; the others stay in order and
    untouched, and the count is the number of messages dropped.  It raises instead
    exactly in two cases: the boundary of a request with messages is not an index
    of them, or the client's user content is all gone and no message of the proxy
    is left (messages of the proxy are forwarded also then).  Without a session id
    it always raises. *)
Theorem enforcer_exact reg session_id messages context s :
  cache_ok s.2 →
  let boundary := _extract_provenance_boundary context (length messages) in
  let client := match boundary with Ok (Some k) => take k messages | _ => messages end in
  let injected := match boundary with Ok (Some k) => drop k messages | _ => [] end in
  let kept who := filter (λ m, blocked reg session_id who m = false) in
  let lost := existsb user_content client && negb (existsb user_content (kept true client)) &&
              bool_decide (kept false injected = []) in
  match (filter_messages (λ _, reg) session_id messages context s).1 with
  | Ok (filtered, count) =>
      is_empty session_id = false ∧ (messages = [] ∨ ∃ k, boundary = Ok k) ∧ lost = false ∧
      filtered = kept true client ++ kept false injected ∧ length filtered + count = length messages
  | Err e =>
      is_empty session_id = true ∧ ex_class e = NonForwardableEnforcementError ∨
      messages ≠ [] ∧ Err e = boundary ∧ ex_class e = NonForwardableEnforcementError ∨
      (∃ k, boundary = Ok k) ∧ lost = true ∧ ex_class e = NoForwardableContentError
  end.
Proof.
  intros Hc boundary client injected kept lost. unfold filter_messages.
  destruct (is_empty session_id) eqn:Hsession; [by left|].
  destruct messages as [|m0 ms].
  { simpl. assert (client = [] ∧ injected = []) as [E1 E2].
    { unfold client, injected. destruct boundary as [[k|]|]; by rewrite ?take_nil ?drop_nil. }
    unfold lost. rewrite E1 E2. split_and!; [done|by left|done..]. }
  remember (m0 :: ms) as messages. assert (messages ≠ []) as Hne by (by subst).
  unfold mbind, stm_bind, lift. fold boundary.
  assert (∀ who l, length (kept who l) + length (filter (λ m, blocked reg session_id who m = true) l) = length l) as Hlen.
  { intros who l. induction l as [|m l IH]; [done|]. unfold kept in *. rewrite !filter_cons.
    destruct (blocked reg session_id who m); simpl; lia. }
  destruct boundary as [[k|]|e] eqn:Hb; [| |right; left; by apply boundary_error in Hb].
  - destruct (segment_const (λ _, reg) session_id Hsession reg true (take k messages) s) as (s1 & -> & Hc1); [done|done|].
    destruct (segment_const (λ _, reg) session_id Hsession reg false (drop k messages) s1) as (s2 & -> & Hc2); [done|done|].
    fold client injected. pose proof (Hlen true client) as Hl1. pose proof (Hlen false injected) as Hl2.
    assert (length client + length injected = length messages) as Hl.
    { rewrite -length_app. unfold client, injected. by rewrite take_drop. }
    fold (kept true client) (kept false injected) in *. unfold lost.
    destruct (kept false injected) as [|i0 rest] eqn:Hi; simpl in *.
    + unfold _validate_forwardable_content. fold (kept true client).
      destruct (existsb user_content client && negb (existsb user_content (kept true client))) eqn:Hu; simpl.
      * right; right. split; [by eexists|]. done.
      * split_and!; [done|right; by eexists|done|done|]. rewrite app_nil_r. lia.
    + split_and!; [done|right; by eexists|by rewrite andb_false_r|done|]. rewrite length_app. simpl. lia.
  - destruct (segment_const (λ _, reg) session_id Hsession reg true messages s) as (s1 & -> & Hc1); [done|done|].
    fold client. pose proof (Hlen true client) as Hl1. fold (kept true client) in *. unfold lost, injected; simpl.
    unfold _validate_forwardable_content. fold (kept true client).
    destruct (existsb user_content client && negb (existsb user_content (kept true client))) eqn:Hu; simpl.
    + right; right. split; [by eexists|]. done.
    + split_and!; [done|right; by eexists|done|by rewrite app_nil_r|done].
Qed.

(** What goes on to the backend, whatever happens to the registry meanwhile. *)
Lemma enforce_safe view session_id messages context s :
  (∀ n n', n ≤ n' → reg_le (view n) (view n')) → cache_ok s.2 →
  match (_enforce_non_forwardable_content view session_id messages context s).1 with
  | Ok kept =>
      ∃ client injected,
        kept = client ++ injected ∧ sublist kept messages ∧
        (∀ m, m ∈ client → blocked (view s.1) session_id true m = false) ∧
        (∀ m, m ∈ injected → blocked (view s.1) session_id false m = false) ∧
        match _extract_provenance_boundary context (length messages) with
        | Ok (Some k) => sublist client (take k messages) ∧ sublist injected (drop k messages)
        | _ => injected = []
        end
  | Err e => ex_class e = BackendError
  end.
Proof.
  intros Hv Hc. unfold _enforce_non_forwardable_content, filter_messages.
  destruct (is_empty session_id) eqn:Hs; [done|].
  destruct messages as [|m0 ms].
  { simpl. exists [], []. split_and!; try done; try by intros ? ?%elem_of_nil.
    destruct (_extract_provenance_boundary context 0) as [[k|]|]; [|done|done]. by rewrite take_nil drop_nil. }
  remember (m0 :: ms) as messages. unfold mbind, stm_bind, lift.
  destruct (_extract_provenance_boundary context (length messages)) as [[k|]|e] eqn:Hb.
  - destruct (segment_safe view session_id Hs true (take k messages) s) as (k1 & c1 & s1 & -> & Hc1 & Hle & Hsub1 & _ & Hsafe1); [done|done|].
    destruct (segment_safe view session_id Hs false (drop k messages) s1) as (k2 & c2 & s2 & -> & Hc2 & _ & Hsub2 & _ & Hsafe2); [done|done|].
    assert (sublist (k1 ++ k2) messages) as Hsub by (rewrite -(take_drop k messages); by apply sublist_app).
    destruct k2 as [|m2 k2].
    + unfold _validate_forwardable_content. destruct (existsb _ _ && _); [done|]. simpl. exists k1, [].
      split_and!; try done; [intros m Hm; by apply Hsafe1|by intros ? ?%elem_of_nil].
    + simpl. exists k1, (m2 :: k2). split_and!; try done; [intros m Hm; by apply Hsafe1|].
      intros m Hm. by apply Hsafe2.
  - destruct (segment_safe view session_id Hs true messages s) as (k1 & c1 & s1 & -> & Hc1 & Hle & Hsub1 & _ & Hsafe1); [done|done|].
    unfold _validate_forwardable_content. destruct (existsb _ _ && _); [done|]. simpl. exists k1, [].
    split_and!; [by rewrite app_nil_r|done|intros m Hm; by apply Hsafe1|by intros ? ?%elem_of_nil|done].
  - assert (ex_class e = NonForwardableEnforcementError) as He; [|simpl; by rewrite He].
    revert Hb. unfold _extract_provenance_boundary. destruct (context ≫= _) as [[]|]; simpl; try done;
      try (by intros [= <-]); case_match; try done; by intros [= <-].
Qed.

(** Whatever other requests of the session do meanwhile, a message that is
    tagged never-forward when the enforcer starts is not in what goes on to the
    backend, and neither is a message of the client's part that is tagged
    client-history-only; what goes on are messages of the request, in their order.
    When the enforcer fails, the request ends in a backend error. *)
Theorem tagged_never_forwarded view session_id messages context s :
  (∀ n n', n ≤ n' → reg_le (view n) (view n')) → cache_ok s.2 →
  match (_enforce_non_forwardable_content view session_id messages context s).1 with
  | Ok kept =>
      sublist kept messages ∧
      (∀ m, m ∈ kept → tagged (view s.1) session_id (identity_of m) NEVER_FORWARD = false) ∧
      (context = None → ∀ m, m ∈ kept → tagged (view s.1) session_id (identity_of m) CLIENT_HISTORY_ONLY = false)
  | Err e => ex_class e = BackendError
  end.
Proof.
  intros Hv Hc. pose proof (enforce_safe view session_id messages context s Hv Hc) as H.
  destruct (_enforce_non_forwardable_content view session_id messages context s).1 as [kept|e]; [|done].
  destruct H as (client & injected & -> & Hsub & H1 & H2 & Hb). split; [done|]. split.
  - intros m [Hm|Hm]%elem_of_app; [apply H1 in Hm|apply H2 in Hm]; by apply orb_false_iff in Hm as [-> _].
  - intros -> m. simpl in Hb. rewrite Hb app_nil_r. intros Hm%H1. by apply orb_false_iff in Hm as [_ Hm].
Qed.
End enforcer.

(** ** On concrete messages *)

(** A printer of JSON values and the identity as hash, for computing examples. *)
Fixpoint sample_dumps (j : json) : str :=
  match j with
  | JNull => "null"
  | JBool b => if b then "true" else "false"
  | JInt z => str_of_Z z
  | JFloat _ => "float"
  | JStr s => "'" +:+ s +:+ "'"
  | JList l => "[" +:+ join "," (map sample_dumps l) +:+ "]"
  | JDict d => "{" +:+ join "," (map (λ e, e.1 +:+ ":" +:+ sample_dumps e.2) d) +:+ "}"
  end.

Definition sample_hash (s : str) : str := s.

Definition text_message (role text : str) : ChatMessage := MkMessage role (TextContent text) None None None None None.

Definition note : ChatMessage := text_message "user" "keep this".
Definition secret : ChatMessage := text_message "user" "!/help".

Definition sample_identity : ChatMessage → MessageIdentity := identity_of sample_dumps sample_hash.

Definition sample_registry : registry :=
  call_tags 2 [MkTagCall "s" [sample_identity secret] NEVER_FORWARD "slash_command"] ∅.

Lemma identity_stable_witness :
  (compute_identity sample_dumps sample_hash (text_message "user" ("a" +:+ String LF "b")) ∅).1 =
  (compute_identity sample_dumps sample_hash (text_message "user" ("a" +:+ String CR (String LF "b"))) ∅).1.
Proof.
  apply (identity_stable sample_dumps sample_hash); [|intros ? ? [=]|intros ? ? [=]].
  apply rtc_once. exact (rs_text "user" ("a" +:+ String LF "b") EndLF EndCRLF None None None None None eq_refl).
Defined.

Lemma empty_cache_ok : cache_ok sample_hash ∅.
Proof. intros k i Hi. by rewrite lookup_empty in Hi. Qed.

Lemma enforcer_exact_witness :
  (filter_messages sample_dumps sample_hash (λ _, sample_registry) "s" [note; secret] None (0, ∅)).1 = Ok ([note], 1) ∧
  (filter_messages sample_dumps sample_hash (λ _, sample_registry) "s" [secret] None (0, ∅)).1 ≠ Ok ([], 1).
Proof.
  split; [vm_compute; reflexivity|]. intros Heq.
  pose proof (enforcer_exact sample_dumps sample_hash sample_registry "s" [secret] None (0, ∅) empty_cache_ok) as H.
  rewrite Heq in H. destruct H as (_ & _ & H & _). revert H. vm_compute. discriminate.
Defined.

Lemma tagged_never_forwarded_witness :
  (_enforce_non_forwardable_content sample_dumps sample_hash (λ _, sample_registry) "s" [secret; note] None (0, ∅)).1
    = Ok [note] ∧
  ∀ m, m ∈ [note] → tagged sample_registry "s" (sample_identity m) NEVER_FORWARD = false.
Proof.
  assert ((_enforce_non_forwardable_content sample_dumps sample_hash (λ _, sample_registry) "s" [secret; note] None (0, ∅)).1
    = Ok [note]) as Heq by (vm_compute; reflexivity).
  split; [exact Heq|].
  pose proof (tagged_never_forwarded sample_dumps sample_hash (λ _, sample_registry) "s" [secret; note] None (0, ∅)
    (λ _ _ _ _ _ _ H, H) empty_cache_ok) as H.
  rewrite Heq in H. exact (proj1 (proj2 H)).
Defined.

Lemma tags_are_for_good_witness :
  let c := MkTagCall "s" ["id"%string] NEVER_FORWARD "slash_command" in
  tagged (call_tags 1 [MkTagCall "s" ["other"%string] NEVER_FORWARD "late"] (call_tag 1 ∅ c)) "s" "id" NEVER_FORWARD = true.
Proof.
  intros c.
  exact (proj2 (tags_are_for_good 1 [] [MkTagCall "s" ["other"%string] NEVER_FORWARD "late"] c) "id"%string
    (list_elem_of_here _ _)).
Defined.
