(* ===== verification/CommandService.v ===== *)
(** * In-chat commands: the service

    The pipeline of [src/core/commands/service.py]: the tail of the latest user
    message ([pipeline/tail_extractor.py]), the commands at its end
    ([pipeline/match_filter.py]), the policy of [command_policy_service.py], and
    [process_commands], which tags the message, runs one handler and takes the
    command out of the text.  Then the command handler of the request path
    ([src/core/services/command_handler.py]) and the choice of the messages of the
    backend request ([backend_request_preparation_service.py]).

    The handlers of the commands are a parameter (they are registered by name), as
    are the JSON text and the hash of an identity. *)

From Stdlib Require Import Ascii.
From S2P Require Import Prelude PyStr PyDict Exceptions CommandParser NonForwardable.
From stdpp Require Import options.

(** ** The tail of the conversation *)

Fixpoint first_nonblank (lines : list str) : str :=
  match lines with
  | [] => ""
  | line :: lines' => let trimmed := strip line in if is_empty trimmed then first_nonblank lines' else trimmed
  end.

Definition _strip_trailing_lines (text : str) : str := first_nonblank (reverse (splitlines text)).

Record TailSegment : Type := MkTail { ts_content : str; ts_message_index : option nat; ts_part_index : option nat }.

Definition _coerce_text (part : MessageContentPart) : option str :=
  match part with TextPart _ text _ => Some text | _ => None end.

(** The last part with a text, from the index [i] of the first on. *)
Fixpoint last_text_part (i : nat) (parts : list MessageContentPart) : option (str * nat) :=
  match parts with
  | [] => None
  | part :: parts' =>
      match last_text_part (S i) parts' with
      | Some r => Some r
      | None => match _coerce_text part with
                | Some text => if is_empty text then None else Some (text, i)
                | None => None
                end
      end
  end.

Definition _extract_text_from_message (m : ChatMessage) : option (str * option nat) :=
  match cm_content m with
  | NoContent => None
  | TextContent text => Some (text, None)
  | PartsContent parts =>
      match last_text_part 0 parts with Some (text, i) => Some (text, Some i) | None => Some ("", None) end
  end.

Fixpoint last_user_index (i : nat) (messages : list ChatMessage) : option (nat * ChatMessage) :=
  match messages with
  | [] => None
  | m :: messages' =>
      match last_user_index (S i) messages' with
      | Some r => Some r
      | None => if bool_decide (cm_role m = "user"%string) then Some (i, m) else None
      end
  end.

Definition extract_tail_segment (messages : list ChatMessage) : TailSegment :=
  match last_user_index 0 messages with
  | None => MkTail "" None None
  | Some (i, m) =>
      match _extract_text_from_message m with
      | None => MkTail "" (Some i) None
      | Some (tail_text, part_index) => MkTail (_strip_trailing_lines tail_text) (Some i) part_index
      end
  end.

(** ** Commands at the end of the tail *)

Definition filter_tail_commands (parsed_commands : list ParsedCommand) (tail_text : str) : list ParsedCommand :=
  let trimmed_tail := rstrip tail_text in
  if is_empty trimmed_tail then []
  else filter (λ parsed, (pc_end parsed =? String.length trimmed_tail) && negb (is_empty (pc_matched_text parsed)) &&
                         endswith (pc_matched_text parsed) trimmed_tail = true) parsed_commands.

(** ** Policy *)

Definition _coerce_env_flag (value : option str) : option bool :=
  v ← value;
  let normalized := lower (strip v) in
  if str_in normalized ["1"; "true"; "yes"; "on"; "enable"; "enabled"] then Some true
  else if str_in normalized ["0"; "false"; "no"; "off"; "disable"; "disabled"] then Some false
  else None.

(** What the policy reads: the session, the application state, the environment and
    the configuration. *)
Record policy_env : Type := MkPolicyEnv {
  pe_session_prefix : option str;
  pe_app_prefix : option str;
  pe_config_prefix : option str;
  pe_app_disable_commands : bool;
  pe_app_disable_interactive : bool;
  pe_env_disable_interactive : option str;
  pe_config_disable_interactive : bool
}.

Definition usable_prefix (p : option str) : option str :=
  match p with Some s => if is_empty (strip s) then None else Some s | None => None end.

Definition resolve_command_prefix (env : policy_env) (fallback_prefix : str) : str :=
  match usable_prefix (pe_session_prefix env), usable_prefix (pe_app_prefix env), usable_prefix (pe_config_prefix env) with
  | Some p, _, _ | None, Some p, _ | None, None, Some p => p
  | None, None, None => if is_empty fallback_prefix then "!/" else fallback_prefix
  end.

Definition are_interactive_commands_disabled (env : policy_env) : bool :=
  if pe_app_disable_interactive env then true
  else match _coerce_env_flag (pe_env_disable_interactive env) with
       | Some b => b
       | None => pe_config_disable_interactive env
       end.

(** ** Taking the command out of the message *)

(** [s.rfind(p)] *)
Fixpoint rfind_sub (p s : str) : option nat :=
  match s with
  | "" => if startswith p "" then Some 0 else None
  | String _ s' =>
      match rfind_sub p s' with
      | Some n => Some (S n)
      | None => if startswith p s then Some 0 else None
      end
  end.

Definition remove_command (matched_text text : str) : option str :=
  match rfind_sub matched_text text with
  | Some idx => Some (rstrip (str_take idx text +:+ str_drop (idx + String.length matched_text) text))
  | None => None
  end.

(** The content of the message without the command. *)
Definition strip_content (matched_text : str) (part_index : option nat) (content : message_content) : message_content :=
  match content with
  | NoContent => NoContent
  | TextContent text => TextContent (default text (remove_command matched_text text))
  | PartsContent parts =>
      match part_index with
      | None => PartsContent parts
      | Some i =>
          match parts !! i with
          | Some (TextPart t text c) =>
              match remove_command matched_text text with
              | Some new_text =>
                  if is_empty new_text then PartsContent (delete i parts)
                  else PartsContent (<[i := TextPart t new_text c]> parts)
              | None => PartsContent parts
              end
          | _ => PartsContent parts
          end
      end
  end.

Definition with_content (m : ChatMessage) (content : message_content) : ChatMessage :=
  MkMessage (cm_role m) content (cm_reasoning_content m) (cm_name m) (cm_tool_calls m) (cm_tool_call_id m) (cm_metadata m).

(** The copy of the message shares its list of parts with the message itself. *)
Definition stripped_original (matched_text : str) (part_index : option nat) (m : ChatMessage) : ChatMessage :=
  match cm_content m with
  | PartsContent _ => with_content m (strip_content matched_text part_index (cm_content m))
  | _ => m
  end.

Definition _has_meaningful_user_content (messages : list ChatMessage) : bool := existsb user_content messages.

Definition command_only_names : list str :=
  ["create-failover-route"; "delete-failover-route"; "list-failover-routes"; "route-append"; "route-clear";
   "route-list"; "route-prepend"].

(** ** Facts on texts *)

Definition spaces (s : str) : Prop := str_all is_space s = true.

Lemma spaces_app s t : spaces (s +:+ t) ↔ spaces s ∧ spaces t.
Proof. unfold spaces. rewrite str_all_app. apply andb_true_iff. Qed.

Lemma lstrip_split s : ∃ a, s = a +:+ lstrip s ∧ spaces a.
Proof.
  induction s as [|c s (a & Ha & Hs)]; [by exists ""|]. simpl. destruct (is_space c) eqn:Hc; [|by exists ""].
  exists (String c a). rewrite sapp_cons -Ha. split; [done|]. unfold spaces in *. by rewrite /= Hc Hs.
Qed.

Lemma rstrip_split s : ∃ b, s = rstrip s +:+ b ∧ spaces b.
Proof.
  induction s as [|c s (b & Hb & Hs)]; [by exists ""|]. simpl. destruct (rstrip s) as [|d u] eqn:Hr.
  - rewrite sapp_nil_l in Hb. subst b. destruct (is_space c) eqn:Hc; [|by exists s].
    exists (String c s). split; [done|]. unfold spaces in *. by rewrite /= Hc Hs.
  - exists b. split; [|done]. by rewrite sapp_cons -Hb.
Qed.

Lemma strip_split s : ∃ a b, s = a +:+ strip s +:+ b ∧ spaces a ∧ spaces b.
Proof.
  destruct (lstrip_split s) as (a & Ha & Hsa), (rstrip_split (lstrip s)) as (b & Hb & Hsb).
  exists a, b. unfold strip. by rewrite -Hb.
Qed.

Lemma rstrip_spaces s : spaces s → rstrip s = "".
Proof. unfold spaces. induction s as [|c s IH]; [done|]. simpl. intros [-> Hs]%andb_true_iff. by rewrite IH. Qed.

Lemma rstrip_app_spaces s t : spaces t → rstrip (s +:+ t) = rstrip s.
Proof.
  intros Ht. induction s as [|c s IH]; [by rewrite sapp_nil_l rstrip_spaces|]. rewrite sapp_cons. simpl. by rewrite IH.
Qed.

Lemma linebreak_space c : is_linebreak c = true → is_space c = true.
Proof.
  unfold is_linebreak, is_space. generalize (nat_of_ascii c) as n. intros n.
  rewrite !orb_true_iff !andb_true_iff !Nat.leb_le !Nat.eqb_eq. lia.
Qed.

Lemma first_nonblank_cons x l :
  first_nonblank (reverse (x :: l)) =
  let r := first_nonblank (reverse l) in if is_empty r then strip x else r.
Proof.
  rewrite reverse_cons. simpl. generalize (reverse l) as k. intros k. induction k as [|y k IH]; simpl.
  - destruct (is_empty (strip x)) eqn:He; [|done]. by apply is_empty_spec in He as ->.
  - destruct (is_empty (strip y)) eqn:He; [done|]. by rewrite He.
Qed.

(** What is left of the lines of a text: blank, or its end up to whitespace. *)
Definition is_tail (t s : str) : Prop :=
  if is_empty t then spaces s else stripped t ∧ ∃ pre ws, s = pre +:+ t +:+ ws ∧ spaces ws.

Lemma is_tail_line cur sep s t : spaces sep → is_tail t s → is_tail (if is_empty t then strip cur else t) (cur +:+ sep +:+ s).
Proof.
  unfold is_tail. intros Hsep Ht. destruct (is_empty t) eqn:He.
  - destruct (strip_split cur) as (a & b & Hcur & Ha & Hb). destruct (is_empty (strip cur)) eqn:Hc.
    + apply is_empty_spec in Hc. rewrite Hc sapp_nil_l in Hcur. rewrite Hcur !spaces_app. done.
    + split; [apply strip_stripped|]. exists a, (b +:+ sep +:+ s). rewrite {1}Hcur !sapp_assoc !spaces_app. done.
  - destruct Ht as (Hs & pre & ws & -> & Hws). rewrite He. split; [done|].
    exists (cur +:+ sep +:+ pre), ws. by rewrite !sapp_assoc.
Qed.

Lemma splitlines_tail n cur s :
  String.length s ≤ n → is_tail (first_nonblank (reverse (splitlines_go cur s))) (cur +:+ s).
Proof.
  revert cur s. induction n as [|n IH]; intros cur [|c s] Hn; simpl in Hn; try lia.
  1, 2: rewrite sapp_nil_r; simpl; destruct (is_empty cur) eqn:He;
    [by apply is_empty_spec in He as ->|];
    pose proof (is_tail_line cur "" "" "" eq_refl eq_refl) as H; rewrite !sapp_nil_r in H;
    change (first_nonblank (reverse [cur])) with (if is_empty (strip cur) then "" else strip cur);
    by destruct (is_empty (strip cur)) eqn:Hc; [apply is_empty_spec in Hc; rewrite Hc in H|].
  simpl. destruct (is_linebreak c) eqn:Hc.
  - apply linebreak_space in Hc.
    assert (∀ t, cur +:+ String c t = cur +:+ String c "" +:+ t) as Hsep by done.
    destruct s as [|d s].
    + rewrite first_nonblank_cons. rewrite Hsep. apply (is_tail_line cur (String c "") "" ""); [|done].
      unfold spaces. by rewrite /= Hc.
    + destruct (Ascii.eqb c CR && Ascii.eqb d LF) eqn:Hcr; rewrite first_nonblank_cons.
      * apply andb_true_iff in Hcr as [_ ->%Ascii.eqb_eq].
        replace (cur +:+ String c (String LF s)) with (cur +:+ String c (String LF "") +:+ s) by done.
        apply is_tail_line; [unfold spaces; by rewrite /= Hc|]. apply (IH "" s). simpl in Hn. lia.
      * rewrite Hsep. apply is_tail_line; [unfold spaces; by rewrite /= Hc|]. apply (IH "" (String d s)). lia.
  - replace (cur +:+ String c s) with ((cur +:+ String c "") +:+ s) by by rewrite sapp_assoc.
    apply IH. lia.
Qed.

Lemma strip_trailing_tail text : is_tail (_strip_trailing_lines text) text.
Proof. apply (splitlines_tail (String.length text) "" text). lia. Qed.

(** *** The last occurrence *)

Lemma startswith_spaces p q c s :
  p = q +:+ String c "" → is_space c = false → spaces (str_drop (String.length q) s) → startswith p s = false.
Proof.
  intros -> Hc Hs. apply not_true_iff_false. intros [t ->]%startswith_inv.
  rewrite sapp_assoc str_drop_app in Hs. unfold spaces in Hs. simpl in Hs. by rewrite Hc in Hs.
Qed.

Lemma rfind_none q c x ws :
  is_space c = false → spaces ws → String.length x ≤ String.length q →
  rfind_sub (q +:+ String c "") (x +:+ ws) = None.
Proof.
  intros Hc Hws. assert (∀ n u, spaces u → spaces (str_drop n u)) as Hdrop.
  { intros n u Hu. rewrite -(str_take_drop n u) in Hu. by apply spaces_app in Hu as [_ Hu]. }
  induction x as [|d x IH]; intros Hlen.
  - rewrite sapp_nil_l. induction ws as [|d ws IH].
    + simpl. rewrite (startswith_spaces _ q c) //. by apply Hdrop.
    + unfold spaces in Hws. simpl in Hws. apply andb_true_iff in Hws as [Hd Hws].
      change (rfind_sub (q +:+ String c "") (String d ws)) with
        (match rfind_sub (q +:+ String c "") ws with Some n => Some (S n)
         | None => if startswith (q +:+ String c "") (String d ws) then Some 0 else None end).
      rewrite IH // (startswith_spaces _ q c) //. apply Hdrop. unfold spaces. by rewrite /= Hd.
  - rewrite sapp_cons.
    change (rfind_sub (q +:+ String c "") (String d (x +:+ ws))) with
      (match rfind_sub (q +:+ String c "") (x +:+ ws) with Some n => Some (S n)
       | None => if startswith (q +:+ String c "") (String d (x +:+ ws)) then Some 0 else None end).
    simpl in Hlen. rewrite IH; [lia|]. rewrite (startswith_spaces _ q c) //.
    replace (String.length q) with (String.length (String d x) + (String.length q - String.length (String d x)))
      by (simpl; lia).
    by rewrite -str_drop_drop -sapp_cons str_drop_app; apply Hdrop.
Qed.

Lemma rfind_last b q c ws :
  is_space c = false → spaces ws →
  rfind_sub (q +:+ String c "") (b +:+ (q +:+ String c "") +:+ ws) = Some (String.length b).
Proof.
  intros Hc Hws. induction b as [|d b IH].
  - rewrite sapp_nil_l. destruct (q +:+ String c "") as [|e p'] eqn:Hp; [by destruct q|]. rewrite sapp_cons.
    change (rfind_sub (String e p') (String e (p' +:+ ws))) with
      (match rfind_sub (String e p') (p' +:+ ws) with Some n => Some (S n)
       | None => if startswith (String e p') (String e p' +:+ ws) then Some 0 else None end).
    rewrite startswith_app -Hp rfind_none //.
    apply (f_equal String.length) in Hp. rewrite slength_app /= in Hp. lia.
  - rewrite sapp_cons. destruct (q +:+ String c "") as [|e p'] eqn:Hp; [by destruct q|].
    change (rfind_sub (String e p') (String d (b +:+ String e p' +:+ ws))) with
      (match rfind_sub (String e p') (b +:+ String e p' +:+ ws) with Some n => Some (S n)
       | None => if startswith (String e p') (String d (b +:+ String e p' +:+ ws)) then Some 0 else None end).
    by rewrite IH.
Qed.

Lemma last_char s : s = "" ∨ ∃ q c, s = q +:+ String c "".
Proof.
  induction s as [|d s [->|(q & c & ->)]]; [by left| |]; right; [by exists "", d|]. exists (String d q), c. by rewrite sapp_cons.
Qed.

(** A trimmed text is removed from its last place, with the whitespace around
    it at the end. *)
Lemma remove_command_last before matched ws :
  matched ≠ "" → rstrip matched = matched → spaces ws →
  remove_command matched (before +:+ matched +:+ ws) = Some (rstrip before).
Proof.
  intros Hne Hst Hws. destruct (last_char matched) as [->|(q & c & ->)]; [done|].
  assert (is_space c = false) as Hc.
  { destruct (is_space c) eqn:Hc; [|done]. rewrite rstrip_app_spaces in Hst; [unfold spaces; by rewrite /= Hc|].
    destruct (rstrip_split q) as (b & Hb & _). rewrite Hst in Hb. apply (f_equal String.length) in Hb.
    rewrite !slength_app /= in Hb. lia. }
  unfold remove_command. rewrite rfind_last // str_take_app.
  by rewrite -str_drop_drop str_drop_app str_drop_app rstrip_app_spaces.
Qed.

(** ** The service *)

Section service.
Context (dumps : json → str) (sha256 : str → str).
Context {Session Result : Type} (handlers : str → option (Command → Session → res exn Result * Session)).

Record ProcessedResult : Type := MkProcessed {
  pr_modified_messages : list ChatMessage;
  pr_command_executed : bool;
  pr_command_results : list (str * Result)
}.

(** The configuration: the prefix of the parser, what the policy reads for a
    session, and the tag limit when the tagging services are there. *)
Record NewCommandService : Type := MkCommandService {
  cs_parser_prefix : str;
  cs_policy : option Session → policy_env;
  cs_tagging : option nat
}.

(** [__init__]: the prefix that the policy resolves without a session. *)
Definition new_command_service (parser_prefix : str) (policy : option Session → policy_env) (tagging : option nat) :
    NewCommandService :=
  MkCommandService (resolve_command_prefix (policy None) parser_prefix) policy tagging.

(** What a call changes: the tags, the identity cache, the sessions, and the
    messages of the request, whose content lists are shared with the copies. *)
Record service_state : Type := MkServiceState {
  sv_registry : registry;
  sv_cache : identity_cache;
  sv_sessions : gmap string Session;
  sv_request_messages : list ChatMessage
}.

Definition put_tags (reg : registry) (cache : identity_cache) (s : service_state) : service_state :=
  MkServiceState reg cache (sv_sessions s) (sv_request_messages s).
Definition put_session (session_id : str) (session : Session) (s : service_state) : service_state :=
  MkServiceState (sv_registry s) (sv_cache s) (<[session_id := session]> (sv_sessions s)) (sv_request_messages s).
Definition put_messages (messages : list ChatMessage) (s : service_state) : service_state :=
  MkServiceState (sv_registry s) (sv_cache s) (sv_sessions s) messages.

Definition tagging_failed (message : str) (session_id : str) (e : exn) : exn :=
  if isinstance (ex_class e) [NonForwardableTagLimitExceededError] then e
  else enforcement_error (message +:+ ex_message e) [("session_id"%string, JStr session_id)].

(** Tagging the message with the command, before anything else happens to it. *)
Definition tag_message (tagging : option nat) (failure : str) (session_id : str) (m : ChatMessage) :
    stm service_state exn unit := λ s,
  match tagging with
  | None => (Ok tt, s)
  | Some max_limit =>
      let '(identity, cache) := compute_identity dumps sha256 m (sv_cache s) in
      match tag_identities max_limit session_id [identity] NEVER_FORWARD "slash_command" (sv_registry s) with
      | (Ok _, reg) => (Ok tt, put_tags reg cache s)
      | (Err e, reg) => (Err (tagging_failed failure session_id e), put_tags reg cache s)
      end
  end.

(** The command that a request carries: the index of its message, the message, the
    part of the message and the command. *)
Definition find_command (prefix : str) (messages : list ChatMessage) :
    option (nat * ChatMessage * option nat * ParsedCommand) :=
  let tail_segment := extract_tail_segment messages in
  match ts_message_index tail_segment with
  | None => None
  | Some i =>
      if is_empty (ts_content tail_segment) then None
      else
        match last (filter_tail_commands (parse (ts_content tail_segment) prefix) (ts_content tail_segment)), messages !! i with
        | Some parsed_command, Some m => Some (i, m, ts_part_index tail_segment, parsed_command)
        | _, _ => None
        end
  end.

Definition unchanged (messages : list ChatMessage) : ProcessedResult := MkProcessed messages false [].

(** What is done with a command that was found. *)
Definition execute_found (cs : NewCommandService) (messages : list ChatMessage) (session_id : str) (session : Session)
    (i : nat) (m : ChatMessage) (part_index : option nat) (parsed_command : ParsedCommand) :
    stm service_state exn ProcessedResult :=
  let command := pc_command parsed_command in
  _ ← tag_message (cs_tagging cs) "Failed to tag command message as non-forwardable: " session_id m;
  match handlers (cmd_name command) with
  | None =>
      _ ← tag_message (cs_tagging cs) "Failed to tag invalid command message as non-forwardable: " session_id m;
      mret (unchanged messages)
  | Some handle =>
      let text := pc_matched_text parsed_command in
      let modified := <[i := with_content m (strip_content text part_index (cm_content m))]> messages in
      _ ← modify (put_messages (<[i := stripped_original text part_index m]> messages));
      let '(result, session') := handle command session in
      _ ← modify (put_session session_id session');
      match result with
      | Err e => raise e
      | Ok r =>
          let should_command_only := str_in (cmd_name command) command_only_names in
          mret (MkProcessed
                  (if should_command_only && negb (_has_meaningful_user_content modified) then [] else modified)
                  true [(cmd_name command, r)])
      end
  end.

Definition process_commands (cs : NewCommandService) (messages : list ChatMessage) (session_id : str) :
    stm service_state exn ProcessedResult := λ s,
  match messages with
  | [] => (Ok (unchanged []), s)
  | _ =>
      match sv_sessions s !! session_id with
      | None => (Ok (unchanged messages), s)
      | Some session =>
          let env := cs_policy cs (Some session) in
          if are_interactive_commands_disabled env then (Ok (unchanged messages), s)
          else match find_command (resolve_command_prefix env (cs_parser_prefix cs)) messages with
               | None => (Ok (unchanged messages), s)
               | Some (i, m, part_index, parsed_command) =>
                   execute_found cs messages session_id session i m part_index parsed_command s
               end
      end
  end.

(** ** The command handler of the request path *)

(** The text without the commands, from [last_end] on. *)
Fixpoint cut_commands (content : str) (last_end : nat) (commands : list ParsedCommand) : str :=
  match commands with
  | [] => str_drop last_end content
  | c :: commands' =>
      str_take (pc_start c - last_end) (str_drop last_end content) +:+ cut_commands content (pc_end c) commands'
  end.

Definition filter_message (command_prefix : str) (m : ChatMessage) : ChatMessage :=
  match cm_content m with
  | TextContent content =>
      match parse content command_prefix with
      | [] => m
      | commands => with_content m (TextContent (cut_commands content 0 commands))
      end
  | _ => m
  end.

Definition _filter_commands_from_messages (env : policy_env) (messages : list ChatMessage) : list ChatMessage :=
  let command_prefix := match pe_app_prefix env with
                        | Some p => if is_empty p then "!/" else p
                        | None => "!/"
                        end%string in
  filter_message command_prefix <$> messages.

(** [_handle_command_processing] *)
Definition _handle_command_processing (cs : NewCommandService) (messages : list ChatMessage) (session_id : str) :
    stm service_state exn ProcessedResult :=
  let env := cs_policy cs None in
  if pe_app_disable_commands env || pe_app_disable_interactive env then
    mret (unchanged (_filter_commands_from_messages env messages))
  else process_commands cs messages session_id.

(** [handle]: a response to the client, or a result for the backend. *)
Inductive handled : Type := CommandResponse (r : ProcessedResult) | BackendFlow (r : ProcessedResult).

Definition handle_request (cs : NewCommandService) (is_cline : bool) (messages : list ChatMessage) (session_id : str) :
    stm service_state exn handled :=
  _ ← modify (put_messages messages);
  command_result ← _handle_command_processing cs messages session_id;
  if is_cline && pr_command_executed command_result then mret (CommandResponse command_result)
  else if pr_command_executed command_result && bool_decide (pr_modified_messages command_result = []) then
    mret (CommandResponse command_result)
  else mret (BackendFlow command_result).

(** The messages of the backend request; [None] skips the backend.  The results of
    commands are wrappers without messages of their own. *)
Definition prepare_messages (request_messages : list ChatMessage) (command_result : ProcessedResult) :
    option (list ChatMessage) :=
  match pr_modified_messages command_result with
  | [] => Some request_messages
  | modified => if existsb user_content modified then Some modified else None
  end.

(** ** The command that is found *)

Lemma last_user_lookup j messages i m :
  last_user_index j messages = Some (i, m) → j ≤ i ∧ messages !! (i - j) = Some m.
Proof.
  revert j. induction messages as [|m0 messages IH]; intros j; simpl; [done|].
  destruct (last_user_index (S j) messages) as [[i' m']|] eqn:Hl.
  - intros [= -> ->]. destruct (IH _ Hl) as [Hj Hm]. split; [lia|]. replace (i - j) with (S (i - S j)) by lia. done.
  - case_bool_decide; [|done]. intros [= -> ->]. split; [lia|]. by rewrite Nat.sub_diag.
Qed.

Lemma well_parsed_elem content prefix from l pc :
  well_parsed content prefix from l → pc ∈ l →
  occurs prefix content (pc_start pc) ∧
  _parse_from_index content prefix (pc_start pc) = Some (pc_command pc, pc_matched_text pc, pc_end pc).
Proof.
  revert from. induction l as [|p l IH]; intros from Hw Hpc; [by apply elem_of_nil in Hpc|].
  destruct Hw as (_ & Ho & Hp & Hw). apply elem_of_cons in Hpc as [->|Hpc]; [done|by eapply IH].
Qed.

Lemma parse_elem content prefix pc :
  pc ∈ parse content prefix →
  occurs prefix content (pc_start pc) ∧
  _parse_from_index content prefix (pc_start pc) = Some (pc_command pc, pc_matched_text pc, pc_end pc).
Proof.
  unfold parse. destruct (is_empty content || is_empty prefix) eqn:He; [by intros ?%elem_of_nil|].
  apply orb_false_iff in He as [_ Hp]. apply well_parsed_elem with 0, parse_loop_sound.
  destruct prefix; [done|simpl; lia].
Qed.

(** A command at the end of a trimmed tail is its last part. *)
Lemma tail_command_split tail prefix pc :
  stripped tail → pc ∈ filter_tail_commands (parse tail prefix) tail →
  ∃ before, tail = before +:+ pc_matched_text pc ∧ pc_matched_text pc ≠ "" ∧
    rstrip (pc_matched_text pc) = pc_matched_text pc.
Proof.
  intros Hs. pose proof (stripped_rstrip tail Hs) as Hr. unfold filter_tail_commands. rewrite Hr.
  destruct (is_empty tail); [by intros ?%elem_of_nil|].
  intros [[[Hend%Nat.eqb_eq Hne%negb_true_iff]%andb_true_iff _]%andb_true_iff Hpc]%list_elem_of_filter.
  destruct (parse_elem _ _ _ Hpc) as [Ho Hp]. destruct (parse_from_spec _ _ _ _ _ _ Ho Hp) as (Hrange & Htext & _).
  assert (tail = str_take (pc_start pc) tail +:+ pc_matched_text pc) as Hsplit.
  { rewrite Htext Hend. rewrite -{1}(str_take_drop (pc_start pc) tail). f_equal.
    rewrite -(slength_drop (pc_start pc) tail).
    pose proof (str_take_app (str_drop (pc_start pc) tail) "") as Ht. by rewrite sapp_nil_r in Ht. }
  exists (str_take (pc_start pc) tail). split_and!; [done|by intros He; rewrite He in Hne|].
  destruct (rstrip_split (pc_matched_text pc)) as (b & Hb & Hbs).
  assert (String.length b = 0) as Hb0; [|destruct b; [by rewrite sapp_nil_r in Hb|done]].
  rewrite Hsplit {1}Hb -sapp_assoc rstrip_app_spaces // in Hr.
  destruct (rstrip_split (str_take (pc_start pc) tail +:+ rstrip (pc_matched_text pc))) as (b' & Hb' & _).
  apply (f_equal String.length) in Hr, Hb', Hb. rewrite !slength_app in Hr Hb' Hb. lia.
Qed.

(** The text at a place of a content, and the content with another text there (a part
    that is left empty is removed). *)
Definition text_at (content : message_content) (part_index : option nat) : option str :=
  match content, part_index with
  | TextContent text, None => Some text
  | PartsContent parts, Some k => parts !! k ≫= _coerce_text
  | _, _ => None
  end.

Definition with_text_at (content : message_content) (part_index : option nat) (text : str) : message_content :=
  match content, part_index with
  | TextContent _, None => TextContent text
  | PartsContent parts, Some k =>
      PartsContent (if is_empty text then delete k parts
                    else alter (λ part, match part with TextPart t _ c => TextPart t text c | _ => part end) k parts)
  | _, _ => content
  end.

Lemma last_text_part_lookup j parts text k :
  last_text_part j parts = Some (text, k) → j ≤ k ∧ parts !! (k - j) ≫= _coerce_text = Some text.
Proof.
  revert j. induction parts as [|part parts IH]; intros j; simpl; [done|].
  destruct (last_text_part (S j) parts) as [[text' k']|] eqn:E.
  - intros [= -> ->]. destruct (IH _ E) as [Hle Hk]. split; [lia|].
    replace (k - j) with (S (k - S j)) by lia. done.
  - destruct (_coerce_text part) as [t|] eqn:Ht; [|done]. destruct (is_empty t); [done|]. intros [= -> ->].
    split; [lia|]. by rewrite Nat.sub_diag.
Qed.

Lemma find_command_spec prefix messages i m part_index pc :
  find_command prefix messages = Some (i, m, part_index, pc) →
  messages !! i = Some m ∧ cm_role m = "user"%string ∧
  ∃ text before trailing, text_at (cm_content m) part_index = Some text ∧
    text = before +:+ pc_matched_text pc +:+ trailing ∧ spaces trailing ∧
    pc_matched_text pc ≠ "" ∧ rstrip (pc_matched_text pc) = pc_matched_text pc.
Proof.
  unfold find_command, extract_tail_segment.
  destruct (last_user_index 0 messages) as [[i' m']|] eqn:Hl; [|done].
  destruct (last_user_lookup _ _ _ _ Hl) as [_ Hm]. rewrite Nat.sub_0_r in Hm.
  assert (cm_role m' = "user"%string) as Hrole.
  { clear Hm. revert Hl. generalize 0. induction messages as [|m0 ms IH]; intros j; simpl; [done|].
    destruct (last_user_index (S j) ms) as [[]|] eqn:Hl; [intros [= -> ->]; by eapply IH|].
    case_bool_decide; [|done]. by intros [= _ <-]. }
  destruct (_extract_text_from_message m') as [[text part]|] eqn:Ht; [|done]. simpl.
  destruct (is_empty (_strip_trailing_lines text)) eqn:He; [done|]. rewrite Hm.
  destruct (last _) as [pc'|] eqn:Hlast; [|done]. intros [= <- <- <- <-]. split_and!; [done|done|].
  pose proof (strip_trailing_tail text) as Htail. unfold is_tail in Htail. rewrite He in Htail.
  destruct Htail as (Hs & pre & ws & Heq & Hws).
  assert (pc' ∈ filter_tail_commands (parse (_strip_trailing_lines text) prefix) (_strip_trailing_lines text)) as Hpc.
  { rewrite last_lookup in Hlast. by eapply list_elem_of_lookup_2. }
  destruct (tail_command_split _ _ _ Hs Hpc) as (before & Hb & Hne & Hr).
  exists text, (pre +:+ before), ws. split_and!; [|by rewrite {1}Heq {1}Hb !sapp_assoc|done|done|done].
  unfold _extract_text_from_message in Ht. destruct (cm_content m') as [|t|parts]; simplify_eq; [done|].
  destruct (last_text_part 0 parts) as [[t k]|] eqn:Hp; simplify_eq.
  apply last_text_part_lookup in Hp as [_ Hp]. by rewrite Nat.sub_0_r in Hp.
Qed.

Lemma tag_message_result tagging failure session_id m s :
  cache_ok sha256 (sv_cache s) →
  let '(r, s') := tag_message tagging failure session_id m s in
  sv_sessions s' = sv_sessions s ∧ sv_request_messages s' = sv_request_messages s ∧
  cache_ok sha256 (sv_cache s') ∧ reg_le (sv_registry s) (sv_registry s') ∧
  match r with
  | Ok _ => is_Some tagging → tagged (sv_registry s') session_id (identity_of dumps sha256 m) NEVER_FORWARD = true
  | Err e => ex_class e = NonForwardableTagLimitExceededError ∨ ex_class e = NonForwardableEnforcementError
  end.
Proof.
  intros Hc. unfold tag_message. destruct tagging as [max_limit|]; [|by split_and!; [..|intros [? ?]]].
  destruct (compute_identity_spec dumps sha256 m _ Hc) as [Hi Hc'].
  destruct (compute_identity dumps sha256 m (sv_cache s)) as [identity cache]. simpl in *. subst identity.
  pose proof (tag_identities_spec max_limit session_id [identity_of dumps sha256 m] NEVER_FORWARD "slash_command"
    (sv_registry s)) as Ht.
  destruct (tag_identities _ _ _ _ _ _) as [[[]|e] reg]; destruct Ht as [Hle Ht]; simpl; split_and!; try done.
  - intros _. apply Ht. by left.
  - unfold tagging_failed. destruct (isinstance (ex_class e) [NonForwardableTagLimitExceededError]) eqn:Hi; [|by right].
    left. revert Hi. unfold isinstance. by destruct (ex_class e).
Qed.

(** A message that will not reach a backend: from the registry [reg] on, whatever
    is tagged and whatever is sent, no form in which a client can send [m] back goes
    through the enforcer. *)
Definition kept_back (reg : registry) (session_id : str) (m : ChatMessage) : Prop :=
  ∀ max_limit calls view messages context cache,
    reg_le (call_tags max_limit calls reg) (view 0) →
    (∀ n n', n ≤ n' → reg_le (view n) (view n')) →
    cache_ok sha256 cache →
    match (_enforce_non_forwardable_content dumps sha256 view session_id messages context (0, cache)).1 with
    | Ok sent => ∀ m', rtc resubmitted m m' → m' ∉ sent
    | Err e => ex_class e = BackendError
    end.

Lemma tagged_kept_back reg session_id m :
  tagged reg session_id (identity_of dumps sha256 m) NEVER_FORWARD = true → kept_back reg session_id m.
Proof.
  intros Ht max_limit calls view messages context cache Hle Hv Hc.
  pose proof (enforce_safe dumps sha256 view session_id messages context (0, cache) Hv Hc) as H.
  destruct (_enforce_non_forwardable_content dumps sha256 view session_id messages context (0, cache)).1 as [sent|e];
    [|done].
  destruct H as (client & injected & -> & _ & H1 & H2 & _). simpl in H1, H2. intros m' Hr Hm'.
  apply (call_tags_le max_limit calls), Hle in Ht. rewrite (resubmitted_identity dumps sha256 _ _ Hr) in Ht.
  apply elem_of_app in Hm' as [Hm'|Hm']; [apply H1 in Hm'|apply H2 in Hm'];
    apply orb_false_iff in Hm' as [Hm' _]; congruence.
Qed.

(** The tags only grow while a command is handled, and come first. *)
Lemma execute_found_tags cs messages session_id session i m part_index pc s :
  cache_ok sha256 (sv_cache s) → is_Some (cs_tagging cs) →
  let '(r, s') := execute_found cs messages session_id session i m part_index pc s in
  tagged (sv_registry s') session_id (identity_of dumps sha256 m) NEVER_FORWARD = true ∨
  ∃ e, r = Err e ∧ (ex_class e = NonForwardableTagLimitExceededError ∨ ex_class e = NonForwardableEnforcementError).
Proof.
  intros Hc Htag. unfold execute_found, mbind, stm_bind.
  pose proof (tag_message_result (cs_tagging cs) "Failed to tag command message as non-forwardable: " session_id m s Hc) as H1.
  destruct (tag_message (cs_tagging cs) _ session_id m s) as [[[]|e] s1];
    destruct H1 as (_ & _ & Hc1 & _ & H1); [|right; by exists e].
  specialize (H1 Htag). destruct (handlers _) as [handle|].
  - simpl. destruct (handle (pc_command pc) session) as [[r|e] session']; by left.
  - pose proof (tag_message_result (cs_tagging cs) "Failed to tag invalid command message as non-forwardable: " session_id m s1 Hc1) as H2.
    destruct (tag_message (cs_tagging cs) _ session_id m s1) as [[[]|e] s2];
      destruct H2 as (_ & _ & _ & Hle & H2); left; by apply Hle.
Qed.

(** C4: A command that the service acts on never reaches a backend.  When commands are
    allowed in the session, messages are tagged, and the parser finds a command at the
    end of the latest user message, then - whether the command is known or not, and
    whether its handler succeeds, fails or raises - either tagging has failed and the
    request is refused with the tagging error, or the message with the command is kept
    back for good: in this request and in every later one of the session, whatever
    other calls tag in between or meanwhile, and also when the client sends the message
    again with other metadata, other line endings, cache control added or dropped, or a
    rewritten tool result.  (A command elsewhere in the message is no command to the
    service: [leading_command_forwarded].) *)
Theorem tail_command_kept_back cs messages session_id session i m part_index pc s :
  cache_ok sha256 (sv_cache s) → is_Some (cs_tagging cs) →
  sv_sessions s !! session_id = Some session →
  are_interactive_commands_disabled (cs_policy cs (Some session)) = false →
  find_command (resolve_command_prefix (cs_policy cs (Some session)) (cs_parser_prefix cs)) messages =
    Some (i, m, part_index, pc) →
  let '(r, s') := process_commands cs messages session_id s in
  kept_back (sv_registry s') session_id m ∨
  ∃ e, r = Err e ∧ (ex_class e = NonForwardableTagLimitExceededError ∨ ex_class e = NonForwardableEnforcementError).
Proof.
  intros Hc Htag Hsession Hallowed Hfind. unfold process_commands.
  destruct messages as [|m0 ms]; [done|]. remember (m0 :: ms) as messages. rewrite Hsession Hallowed Hfind.
  pose proof (execute_found_tags cs messages session_id session i m part_index pc s Hc Htag) as H.
  destruct (execute_found _ _ _ _ _ _ _ _ _) as [r s']. destruct H as [H|H]; [left; by apply tagged_kept_back|by right].
Qed.

(** C20: What a command does to a request.  When the parser finds a command at the end
    of the latest user message - in its text, or in its last text part - and the
    message could be tagged, then the handler that is registered for the command's name
    runs once, on the session of the request, and the answer is: the messages with the
    command and the whitespace around it taken out of that text, a part left empty
    removed, and all else as it was; or no messages at all, when the command is one of
    those that need no model and no user text is left.  The messages that the caller
    holds stay as they are if the content is a text; if it is a list of parts, which the
    copy shares, the caller's message changes in the same way. *)
Theorem command_taken_out cs messages session_id session i m part_index pc handle s :
  cache_ok sha256 (sv_cache s) →
  sv_sessions s !! session_id = Some session →
  are_interactive_commands_disabled (cs_policy cs (Some session)) = false →
  find_command (resolve_command_prefix (cs_policy cs (Some session)) (cs_parser_prefix cs)) messages =
    Some (i, m, part_index, pc) →
  handlers (cmd_name (pc_command pc)) = Some handle →
  (tag_message (cs_tagging cs) "Failed to tag command message as non-forwardable: " session_id m s).1 = Ok tt →
  ∃ before trailing,
    text_at (cm_content m) part_index = Some (before +:+ pc_matched_text pc +:+ trailing) ∧ spaces trailing ∧
    let modified := <[i := with_content m (with_text_at (cm_content m) part_index (rstrip before))]> messages in
    let '(result, session') := handle (pc_command pc) session in
    let '(r, s') := process_commands cs messages session_id s in
    sv_sessions s' = <[session_id := session']> (sv_sessions s) ∧
    sv_request_messages s' = match cm_content m with PartsContent _ => modified | _ => messages end ∧
    match result with
    | Err e => r = Err e
    | Ok value =>
        r = Ok (MkProcessed (if str_in (cmd_name (pc_command pc)) command_only_names &&
                                negb (_has_meaningful_user_content modified) then [] else modified)
                  true [(cmd_name (pc_command pc), value)])
    end.
Proof.
  intros Hc Hsession Hallowed Hfind Hhandle Htag.
  destruct (find_command_spec _ _ _ _ _ _ Hfind) as (Hm & _ & text & before & trailing & Htext & Heq & Hws & Hne & Hr).
  exists before, trailing. rewrite -Heq. split_and!; [done|done|].
  unfold process_commands. destruct messages as [|m0 ms]; [done|]. remember (m0 :: ms) as messages.
  rewrite Hsession Hallowed Hfind. unfold execute_found, mbind, stm_bind.
  pose proof (tag_message_result (cs_tagging cs) "Failed to tag command message as non-forwardable: " session_id m s Hc) as H1.
  destruct (tag_message (cs_tagging cs) _ session_id m s) as [r1 s1]. simpl in Htag. subst r1.
  destruct H1 as (Hs1 & _). rewrite Hhandle -Hs1.
  assert (strip_content (pc_matched_text pc) part_index (cm_content m) =
    with_text_at (cm_content m) part_index (rstrip before)) as Hstrip.
  { unfold text_at in Htext. destruct (cm_content m) as [|t|parts], part_index as [k|]; simplify_eq; simpl.
    - by rewrite remove_command_last.
    - destruct (parts !! k) as [[ty t c| |]|] eqn:Hk; simplify_eq/=. rewrite remove_command_last //.
      destruct (is_empty (rstrip before)); [done|]. f_equal.
      apply list_eq. intros j. rewrite list_lookup_alter list_lookup_insert.
      destruct (decide (k = j)) as [->|Hne']; [|by rewrite decide_False; [naive_solver|]].
      rewrite Hk decide_True //. split; [done|]. by eapply lookup_lt_Some. }
  unfold stripped_original. rewrite Hstrip.
  destruct (cm_content m) eqn:Hcm; rewrite ?(list_insert_id messages i m Hm) //;
    by destruct (handle (pc_command pc) session) as [[value|e] session'].
Qed.
End service.

(** ** On concrete conversations *)

Definition sample_handlers (name : str) : option (Command → nat → res exn str * nat) :=
  if String.eqb name "set" then Some (λ c calls, (Ok (join "," (cmd_args c).*1), S calls)) else None.

Definition sample_env (disabled : bool) : policy_env := MkPolicyEnv None None None false disabled None false.

Definition sample_commands (disabled : bool) : NewCommandService (Session := nat) :=
  new_command_service "!/" (λ _, sample_env disabled) (Some 10).

Definition sample_start : service_state (Session := nat) := MkServiceState ∅ ∅ {[ "s"%string := 0 ]} [].

Definition ask : ChatMessage := text_message "user" "hi".
Definition answer : ChatMessage := text_message "assistant" "hello".
Definition order : ChatMessage := text_message "user" "do it !/set(model=x) ".

Definition sample_parsed : ParsedCommand := MkParsed (MkCommand "set" [("model", "x")]%string) "!/set(model=x)" 6 20.

Lemma sample_cache_ok : cache_ok sample_hash (sv_cache sample_start).
Proof. apply empty_cache_ok. Qed.

Lemma tail_command_kept_back_witness :
  find_command "!/" [ask; answer; order] = Some (2, order, None, sample_parsed) ∧
  let '(r, s') := process_commands sample_dumps sample_hash sample_handlers (sample_commands false) [ask; answer; order] "s"
                    sample_start in
  kept_back sample_dumps sample_hash (sv_registry s') "s" order ∨
  ∃ e, r = Err e ∧ (ex_class e = NonForwardableTagLimitExceededError ∨ ex_class e = NonForwardableEnforcementError).
Proof.
  split; [vm_compute; reflexivity|].
  exact (tail_command_kept_back sample_dumps sample_hash sample_handlers (sample_commands false) [ask; answer; order] "s" 0
    2 order None sample_parsed sample_start sample_cache_ok (ex_intro _ 10 eq_refl) eq_refl eq_refl eq_refl).
Defined.

Lemma command_taken_out_witness :
  (process_commands sample_dumps sample_hash sample_handlers (sample_commands false) [ask; answer; order] "s" sample_start).1
    = Ok (MkProcessed [ask; answer; text_message "user" "do it"] true [("set", "model")]%string) ∧
  ∃ before trailing,
    "do it !/set(model=x) "%string = before +:+ pc_matched_text sample_parsed +:+ trailing ∧ spaces trailing.
Proof.
  split; [vm_compute; reflexivity|].
  destruct (command_taken_out sample_dumps sample_hash sample_handlers (sample_commands false) [ask; answer; order] "s" 0
    2 order None sample_parsed
    (λ c calls, (Ok (join "," (cmd_args c).*1), S calls)) sample_start sample_cache_ok eq_refl eq_refl eq_refl eq_refl
    eq_refl) as (before & trailing & H1 & H2 & _).
  exists before, trailing. split; [by injection H1|exact H2].
Defined.

(** The backend call that a request ends in: what the client's messages become
    through the command handler, the choice of messages and the enforcer. *)
Definition sent_to_backend (messages : list ChatMessage) : option (list ChatMessage) :=
  match handle_request sample_dumps sample_hash sample_handlers (sample_commands false) false messages "s" sample_start with
  | (Ok (BackendFlow command_result), s') =>
      prepared ← prepare_messages (sv_request_messages s') command_result;
      match (_enforce_non_forwardable_content sample_dumps sample_hash (λ _, sv_registry s') "s" prepared None
               (0, sv_cache s')).1 with
      | Ok sent => Some sent
      | Err _ => None
      end
  | _ => None
  end.

(** A command in the course of a conversation is executed and the backend is called
    all the same, with an empty user message in its place; at the start of a
    conversation it is not. *)
Theorem command_still_calls_backend :
  sent_to_backend [ask; answer; text_message "user" "!/set(model=x)"] = Some [ask; answer; text_message "user" ""] ∧
  sent_to_backend [text_message "user" "!/set(model=x)"] = None.
Proof. split; vm_compute; reflexivity. Qed.

(** An unknown command is no error: the backend is called with the conversation
    before it. *)
Theorem unknown_command_calls_backend :
  sent_to_backend [ask; answer; text_message "user" "!/bogus"] = Some [ask; answer].
Proof. vm_compute. reflexivity. Qed.

(** With commands disabled, what is left around a removed command can be a command
    again, and commands in the parts of a message are not removed at all. *)
Theorem filtering_leaves_commands :
  let filtered := filter_message "!/" (text_message "user" "!!/x/set(model=y)") in
  let parts := MkMessage "user" (PartsContent [TextPart "text" "!/set(model=y)" None]) None None None None None in
  cm_content filtered = TextContent "!/set(model=y)" ∧
  pc_command <$> parse "!/set(model=y)" "!/" = [MkCommand "set" [("model", "y")]%string] ∧
  filter_message "!/" parts = parts.
Proof. repeat split; vm_compute; reflexivity. Qed.

(** The copy that is made to keep the request as it is shares the list of parts:
    taking the command out of a part changes the request of the caller too. *)
Theorem caller_parts_changed :
  let parts texts := MkMessage "user" (PartsContent ((λ t, TextPart "text" t None) <$> texts)) None None None None None in
  sv_request_messages
    (handle_request sample_dumps sample_hash sample_handlers (sample_commands false) false
       [parts ["look"; "!/set(model=x)"]%string] "s" sample_start).2 = [parts ["look"]%string].
Proof. vm_compute. reflexivity. Qed.

(** A command in front of other text is not recognised, and the message goes to the
    backend as it is. *)
Theorem leading_command_forwarded :
  let m := text_message "user" "!/set(model=x) and go on" in
  pc_command <$> parse "!/set(model=x) and go on" "!/" = [MkCommand "set" [("model", "x")]%string] ∧
  sent_to_backend [m] = Some [m].
Proof. split; vm_compute; reflexivity. Qed.
