(* ===== verification/FileSandbox.v ===== *)
(** * File sandboxing

    [src/core/services/path_validation_service.py] and
    [src/core/services/file_sandboxing_handler.py], with the configuration of
    [src/core/domain/configuration/sandboxing_config.py]: a tool call that changes
    files is stopped when one of its paths lies outside the project.

    The platform is POSIX.  What the file system and the process environment
    decide is a parameter ([realpath] resolves symbolic links and [..] of an
    absolute path, the home and the working directory), and so are the search of
    regular expressions, [json.loads] and the text of values that are no strings. *)

From Stdlib Require Import Ascii.
From S2P Require Import Prelude PyStr PyDict Exceptions.
From stdpp Require Import options.

(** ** Paths *)

(** A [pathlib] path: whether it is absolute and its parts, without empty ones and
    single dots. *)
Record py_path : Type := MkPath { absolute : bool; parts : list str }.

#[global] Instance py_path_eq_dec : EqDecision py_path.
Proof. solve_decision. Defined.

Definition path_of (s : str) : py_path :=
  MkPath (startswith "/" s) (filter (λ p, p ≠ "" ∧ p ≠ "."%string) (split_char "/" s)).

(** [base / p] *)
Definition path_join (base p : py_path) : py_path :=
  if absolute p then p else MkPath (absolute base) (parts base ++ parts p).

(** [str(path)] *)
Definition path_str (p : py_path) : str := (if absolute p then "/" else "") +:+ join "/" (parts p).

(** [path.relative_to(boundary)] does not raise. *)
Definition relative_to (path boundary : py_path) : bool :=
  bool_decide (absolute path = absolute boundary) && bool_decide (parts boundary `prefix_of` parts path).

(** What the code reads of the file system and the environment; a resolution that
    is [None] raises [OSError] or [RuntimeError]. *)
Record os_env : Type := MkOs {
  realpath : list str → option (list str);
  home : str;
  cwd : py_path
}.

(** [path.resolve()] of an absolute path. *)
Definition resolve (os : os_env) (p : py_path) : option py_path := MkPath true <$> realpath os (parts p).

Fixpoint rstrip_slash (s : str) : str :=
  match s with
  | "" => ""
  | String c s' => match rstrip_slash s' with "" => if Ascii.eqb c "/" then "" else String c "" | t => String c t end
  end.

(** [os.path.expanduser] of a path that starts with [~/]. *)
Definition expanduser (os : os_env) (path : str) : str :=
  let expanded := rstrip_slash (home os) +:+ str_drop 1 path in if is_empty expanded then "/" else expanded.

(** ** The validator *)

Definition cache_key : Type := str * option str.
Definition validator : Type := list (cache_key * py_path).

(** A normalization, without the cache; [None] is the [ValueError]. *)
Definition normalize_uncached (os : os_env) (path : str) (base_dir : option str) : option py_path :=
  if is_empty (strip path) then None
  else
    let path := replace_char "\" "/" path in
    let path := if startswith "~/" path then expanduser os path else path in
    let path_obj := path_of path in
    let base := match base_dir with Some b => if is_empty b then cwd os else path_of b | None => cwd os end in
    resolve os (if absolute path_obj then path_obj else path_join base path_obj).

Definition normalize_path (cache_max_size : nat) (os : os_env) (path : str) (base_dir : option str) :
    stm validator unit py_path := λ cache,
  match od_get (path, base_dir) cache with
  | Some normalized => (Ok normalized, cache)
  | None =>
      match normalize_uncached os path base_dir with
      | None => (Err tt, cache)
      | Some normalized =>
          (Ok normalized,
           if length cache <? cache_max_size then od_set (path, base_dir) normalized cache else cache)
      end
  end.

Definition is_within_boundary (path boundary : py_path) (allow_parent : bool) : bool :=
  if negb (absolute path) || negb (absolute boundary) then false
  else relative_to path boundary || allow_parent && relative_to boundary path.

Definition path_text (v : option json) : list str :=
  match v with Some (JStr s) => if is_empty (strip s) then [] else [s] | _ => [] end.

Definition NESTED_PARAMETERS : list str := ["file_path"; "filepath"; "file"; "target_file"].

(** The paths of one parameter. *)
Definition value_paths (v : json) : list str :=
  match v with
  | JStr _ => path_text (Some v)
  | JList l =>
      l ≫= λ item, match item with
                   | JStr _ => path_text (Some item)
                   | JDict d => path_text (od_get "path" d)
                   | _ => []
                   end
  | JDict d => path_text (od_get "path" d) ++ (NESTED_PARAMETERS ≫= λ n, path_text (od_get n d))
  | _ => []
  end.

Section sandbox.
Context (json_loads : str → option json).

Definition extract_paths_from_arguments (arguments : json) (parameter_names : list str) : list str :=
  let dict := match arguments with
              | JDict d => Some d
              | JStr s => match json_loads s with Some (JDict d) => Some d | _ => None end
              | _ => None
              end in
  match dict with
  | None => []
  | Some d => parameter_names ≫= λ n, match od_get n d with Some v => value_paths v | None => [] end
  end.

(** ** The handler *)

Record SandboxingConfiguration : Type := MkSandboxing {
  enabled : bool;
  strict_mode : bool;
  allow_parent_access : bool;
  custom_tool_patterns : list str;
  excluded_tools : list str;
  default_tool_patterns : list str;
  path_parameter_names : list str
}.

(** [search patterns text]: one of the patterns matches somewhere.
    [command_paths command]: the paths that the extraction patterns find in a
    command, in the order of the set they are put in.  [str_of] is [str] of a value
    that is no string. *)
Context (search : list str → str → bool) (command_paths : str → list str) (str_of : json → str).

Definition shell_patterns_list : list str :=
  ["\bexecute\b"; "execute_command"; "run_shell_command"; "run_terminal_command"; "exec_command"; "\bshell\b";
   "\bbash\b"; "local_shell"; "container\.exec"].

Definition _is_file_changing_tool (config : SandboxingConfiguration) (tool_name : str) : bool :=
  if negb (bool_decide (excluded_tools config = [])) && search (excluded_tools config) tool_name then false
  else
    let all_patterns := default_tool_patterns config ++ custom_tool_patterns config in
    negb (bool_decide (all_patterns = [])) && search all_patterns tool_name.

Definition can_handle (config : SandboxingConfiguration) (tool_name : str) : bool :=
  enabled config && _is_file_changing_tool config tool_name.

Definition _is_shell_tool (tool_name : str) : bool := search shell_patterns_list tool_name.

Definition text_of (v : json) : str := match v with JStr s => s | _ => str_of v end.

Definition _extract_command_strings (arguments : list (str * json)) : list str :=
  let command := od_get "command" arguments in
  let cmd := if truthy command then command else od_get "cmd" arguments in
  match cmd with
  | Some (JStr s) => if is_empty (strip s) then [] else [s]
  | Some (JList l) => [join " " (text_of <$> l)]
  | _ => []
  end ++
  match od_get "args" arguments with
  | Some (JList l) => let joined := join " " (text_of <$> l) in if is_empty (strip joined) then [] else [joined]
  | _ => []
  end.

Inductive verdict : Type := Inside | Outside | Invalid.

#[global] Instance verdict_eq_dec : EqDecision verdict.
Proof. solve_decision. Defined.

Record handler_state : Type := MkHandler {
  hs_cache : validator;
  blocked_count : nat;
  allowed_count : nat;
  validation_errors : nat
}.

Section call.
Context (cache_max_size : nat) (config : SandboxingConfiguration) (os : os_env).

(** [normalize_path] and [is_within_boundary] for one path. *)
Definition judge (project_root : py_path) (path : str) (cache : validator) : verdict * validator :=
  match normalize_path cache_max_size os path (Some (path_str project_root)) cache with
  | (Ok normalized, cache') =>
      (if is_within_boundary normalized project_root (allow_parent_access config) then Inside else Outside, cache')
  | (Err _, cache') => (Invalid, cache')
  end.

Fixpoint judge_all (project_root : py_path) (paths : list str) (cache : validator) :
    list (str * verdict) * validator :=
  match paths with
  | [] => ([], cache)
  | path :: paths' =>
      let '(v, cache1) := judge project_root path cache in
      let '(vs, cache2) := judge_all project_root paths' cache1 in ((path, v) :: vs, cache2)
  end.

Definition with_verdict (v : verdict) (judged : list (str * verdict)) : list str :=
  (filter (λ e, e.2 = v) judged).*1.

(** The candidates of a command that do not lie inside the project. *)
Definition _extract_paths_from_command_strings (commands : list str) (project_root : py_path) (cache : validator) :
    list str * validator :=
  let '(judged, cache') := judge_all project_root (remove_dups (commands ≫= command_paths)) cache in
  ((filter (λ e, e.2 ≠ Inside) judged).*1, cache').

Inductive sandbox_reaction : Type :=
| Allow (decision : str)
| Block (reason : str) (violating_paths invalid_paths : list str).

Definition put_cache (cache : validator) (s : handler_state) : handler_state :=
  MkHandler cache (blocked_count s) (allowed_count s) (validation_errors s).
Definition count_block (errors : nat) (s : handler_state) : handler_state :=
  MkHandler (hs_cache s) (S (blocked_count s)) (allowed_count s) (validation_errors s + errors).
Definition count_allow (s : handler_state) : handler_state :=
  MkHandler (hs_cache s) (blocked_count s) (S (allowed_count s)) (validation_errors s).

(** The checks of the paths that were found. *)
Definition check_paths (project_root : py_path) (paths : list str) (s : handler_state) :
    sandbox_reaction * handler_state :=
  let '(judged, cache) := judge_all project_root paths (hs_cache s) in
  let s := put_cache cache s in
  let violating_paths := with_verdict Outside judged in
  let invalid_paths := with_verdict Invalid judged in
  match violating_paths, invalid_paths with
  | [], [] => (Allow "allowed", count_allow s)
  | _, _ =>
      let s := count_block (length invalid_paths) s in
      if strict_mode config || negb (bool_decide (violating_paths = [])) then
        (Block "path_validation_failed" violating_paths invalid_paths, s)
      else (Allow "allowed", count_allow s)
  end.

Definition no_paths_found (s : handler_state) : sandbox_reaction * handler_state :=
  if strict_mode config then (Block "no_paths_found" [] [], count_block 0 s) else (Allow "no_paths_found", s).

(** [handle]; [arguments] that are no dictionary raise [AttributeError] where the
    code calls a method of theirs, and every exception lets the call through. *)
Definition handle (project_dir : option str) (tool_name : str) (arguments : json) (s : handler_state) :
    sandbox_reaction * handler_state :=
  match project_dir with
  | None | Some "" => (Allow "skipped_no_project_dir", s)
  | Some dir =>
      match resolve os (path_join (cwd os) (path_of dir)) with
      | None => (Allow "error_fail_open", s)
      | Some project_root =>
          match extract_paths_from_arguments arguments (path_parameter_names config) with
          | [] =>
              match arguments with
              | JDict d =>
                  if _is_shell_tool tool_name then
                    let '(paths, cache) :=
                      _extract_paths_from_command_strings (_extract_command_strings d) project_root (hs_cache s) in
                    let s := put_cache cache s in
                    match paths with [] => no_paths_found s | _ => check_paths project_root paths s end
                  else no_paths_found s
              | _ => (Allow "error_fail_open", s)
              end
          | paths => check_paths project_root paths s
          end
      end
  end.

(** ** Facts *)

(** The verdict on a path, without the cache. *)
Definition verdict_of (project_root : py_path) (path : str) : verdict :=
  match normalize_uncached os path (Some (path_str project_root)) with
  | Some normalized =>
      if is_within_boundary normalized project_root (allow_parent_access config) then Inside else Outside
  | None => Invalid
  end.

(** Cached answers are those of the file system, and there are not too many. *)
Definition cache_ok (cache : validator) : Prop :=
  (∀ k p, od_get k cache = Some p → normalize_uncached os k.1 k.2 = Some p) ∧ length cache ≤ cache_max_size.

Lemma judge_spec project_root path cache :
  cache_ok cache →
  (judge project_root path cache).1 = verdict_of project_root path ∧ cache_ok (judge project_root path cache).2.
Proof.
  intros [Hget Hlen]. unfold judge, verdict_of, normalize_path.
  destruct (od_get (path, Some (path_str project_root)) cache) as [p|] eqn:Hp.
  { apply Hget in Hp. simpl in Hp. by rewrite Hp. }
  destruct (normalize_uncached os path (Some (path_str project_root))) as [p|] eqn:Hn; [|done].
  split; [done|]. simpl. destruct (Nat.ltb_spec (length cache) cache_max_size) as [Hlt|Hge]; [|done].
  split; [|rewrite od_set_length_new //; lia].
  intros k q. destruct (decide (k = (path, Some (path_str project_root)))) as [->|Hne].
  - rewrite od_get_set_eq. by intros [= <-].
  - rewrite od_get_set_ne //. apply Hget.
Qed.

Lemma judge_all_spec project_root paths cache :
  cache_ok cache →
  (judge_all project_root paths cache).1 = (λ p, (p, verdict_of project_root p)) <$> paths ∧
  cache_ok (judge_all project_root paths cache).2.
Proof.
  revert cache. induction paths as [|path paths IH]; intros cache Hc; [done|]. simpl.
  destruct (judge_spec project_root path cache Hc) as [H1 H2].
  destruct (judge project_root path cache) as [v cache1]. simpl in *. subst v.
  destruct (IH cache1 H2) as [H3 H4]. destruct (judge_all project_root paths cache1) as [vs cache2]. simpl in *.
  by rewrite H3.
Qed.

Definition passes (r : sandbox_reaction) : bool := match r with Allow _ => true | Block _ _ _ => false end.

(** What a path may be for its call to pass. *)
Definition acceptable (project_root : py_path) (path : str) : Prop :=
  verdict_of project_root path = Inside ∨ strict_mode config = false ∧ verdict_of project_root path = Invalid.

Lemma with_verdict_nil v project_root paths :
  with_verdict v ((λ p, (p, verdict_of project_root p)) <$> paths) = [] ↔
  ∀ p, p ∈ paths → verdict_of project_root p ≠ v.
Proof.
  unfold with_verdict. induction paths as [|p paths IH]; csimpl.
  - split; [by intros _ ? ?%elem_of_nil|done].
  - rewrite filter_cons /=. case_decide as Hd; csimpl.
    + split; [done|]. intros H. by destruct (H p (list_elem_of_here _ _)).
    + rewrite IH. split; [intros H q [->|Hq]%elem_of_cons; [done|by apply H]|intros H q Hq; apply H; by right].
Qed.

Lemma check_paths_spec project_root paths s :
  cache_ok (hs_cache s) →
  (passes (check_paths project_root paths s).1 = true ↔ ∀ p, p ∈ paths → acceptable project_root p) ∧
  cache_ok (hs_cache (check_paths project_root paths s).2).
Proof.
  intros Hc. unfold check_paths. destruct (judge_all_spec project_root paths (hs_cache s) Hc) as [H1 H2].
  destruct (judge_all project_root paths (hs_cache s)) as [judged cache]. simpl in *. subst judged.
  pose proof (with_verdict_nil Outside project_root paths) as Ho.
  pose proof (with_verdict_nil Invalid project_root paths) as Hi. unfold acceptable.
  destruct (with_verdict Outside _) as [|o os'] eqn:Eo.
  - pose proof (proj1 Ho eq_refl) as Ho'. destruct (with_verdict Invalid _) as [|i is'] eqn:Ei.
    + pose proof (proj1 Hi eq_refl) as Hi'. split; [|done]. split; [|done]. intros _ p Hp. left.
      specialize (Ho' p Hp). specialize (Hi' p Hp). by destruct (verdict_of project_root p).
    + rewrite bool_decide_eq_true_2 //. simpl. rewrite orb_false_r.
      destruct (strict_mode config) eqn:Hs; (split; [|done]); simpl.
      * split; [done|]. intros H. exfalso. assert (∀ p, p ∈ paths → verdict_of project_root p ≠ Invalid) as Hno.
        { intros p Hp. destruct (H p Hp) as [->|[? _]]; done. }
        apply Hi in Hno. done.
      * split; [|done]. intros _ p Hp. specialize (Ho' p Hp). destruct (verdict_of project_root p); [by left|done|by right].
  - assert (bool_decide (o :: os' = []) = false) as -> by done. simpl. rewrite orb_true_r.
    destruct (with_verdict Invalid _); (split; [|done]); (split; [done|]);
      intros H; exfalso; assert (∀ p, p ∈ paths → verdict_of project_root p ≠ Outside) as Hno;
      try (by apply Ho in Hno); intros p Hp; destruct (H p Hp) as [->|[_ ->]]; done.
Qed.

(** The paths of a command that the handler goes on with: those not inside. *)
Lemma command_strings_spec commands project_root cache :
  cache_ok cache →
  let '(paths, cache') := _extract_paths_from_command_strings commands project_root cache in
  cache_ok cache' ∧
  ∀ p, p ∈ paths ↔ (p ∈ commands ≫= command_paths) ∧ verdict_of project_root p ≠ Inside.
Proof.
  intros Hc. unfold _extract_paths_from_command_strings.
  destruct (judge_all_spec project_root (remove_dups (commands ≫= command_paths)) cache Hc) as [H1 H2].
  destruct (judge_all project_root _ cache) as [judged cache']. simpl in *. subst judged. split; [done|].
  intros p. rewrite list_elem_of_fmap. split.
  - intros ([q v] & -> & [Hv (r & [= -> ->] & Hr)%list_elem_of_fmap]%list_elem_of_filter). simpl in *.
    rewrite elem_of_remove_dups in Hr. by split.
  - intros [Hp Hv]. exists (p, verdict_of project_root p). split; [done|]. apply list_elem_of_filter. split; [done|].
    apply list_elem_of_fmap. exists p. split; [done|]. by rewrite elem_of_remove_dups.
Qed.

Lemma handle_cache_ok project_dir tool_name arguments s :
  cache_ok (hs_cache s) → cache_ok (hs_cache (handle project_dir tool_name arguments s).2).
Proof.
  intros Hc. unfold handle, no_paths_found. destruct project_dir as [[|c dir]|]; try done.
  destruct (resolve os _) as [root|]; [|done].
  destruct (extract_paths_from_arguments _ _) as [|p paths]; [|by apply check_paths_spec].
  destruct arguments as [| | | | | |d]; try done.
  destruct (_is_shell_tool tool_name); [|by destruct (strict_mode config)].
  pose proof (command_strings_spec (_extract_command_strings d) root (hs_cache s) Hc) as Hx.
  destruct (_extract_paths_from_command_strings _ _ _) as [paths cache]. destruct Hx as [Hx _].
  destruct paths; [by destruct (strict_mode config)|by apply check_paths_spec].
Qed.

Record sandbox_call : Type := MkCall { sc_project : option str; sc_tool : str; sc_arguments : json }.

(** The handler after a sequence of calls. *)
Definition after_calls (calls : list sandbox_call) : handler_state :=
  foldl (λ s c, (handle (sc_project c) (sc_tool c) (sc_arguments c) s).2) (MkHandler [] 0 0 0) calls.

Lemma after_calls_ok calls : cache_ok (hs_cache (after_calls calls)).
Proof.
  unfold after_calls. assert (cache_ok (hs_cache (MkHandler [] 0 0 0))) as H; [split; [done|simpl; lia]|].
  revert H. generalize (MkHandler [] 0 0 0). induction calls as [|c calls IH]; intros s Hs; [done|].
  by apply IH, handle_cache_ok.
Qed.

(** ** Where a path leads

    The place a path denotes, as the components of a resolved path: from the root, the
    home directory or the project root [root] on, by what the file system says; a
    blank text is no path.  Backslashes separate components like slashes. *)
Definition place_of (root : list str) (path : str) : option (list str) :=
  if is_empty (strip path) then None
  else
    let path := replace_char "\" "/" path in
    let path := if startswith "~/" path then expanduser os path else path in
    let components := filter (λ p, p ≠ "" ∧ p ≠ "."%string) (split_char "/" path) in
    realpath os (if startswith "/" path then components else root ++ components).

(** A component of a resolved path. *)
Definition component (p : str) : Prop := p ≠ "" ∧ p ≠ "."%string ∧ p ≠ ".."%string ∧ str_find "/" p = None.

Lemma path_of_path_str root : Forall component root → path_of (path_str (MkPath true root)) = MkPath true root.
Proof.
  intros Hr. clear - Hr. unfold path_of, path_str. simpl. f_equal.
  assert (filter (λ p, p ≠ "" ∧ p ≠ "."%string) root = root) as Hf.
  { induction Hr as [|p root (H1 & H2 & _) Hr IH]; [done|]. by rewrite filter_cons_True // IH. }
  unfold split_char. rewrite (split_char_go_sep "/" "" "" (join "/" root)) // filter_cons_False; [naive_solver|].
  destruct root as [|p root]; [done|].
  rewrite split_char_join //. eapply Forall_impl; [exact Hr|]. by intros q (_ & _ & _ & ?).
Qed.

Lemma normalize_place root path :
  Forall component root → normalize_uncached os path (Some (path_str (MkPath true root))) = MkPath true <$> place_of root path.
Proof.
  intros Hr. unfold normalize_uncached, place_of. destruct (is_empty (strip path)); [done|]. cbv zeta.
  set (q := if startswith _ _ then expanduser _ _ else _).
  assert (is_empty (path_str (MkPath true root)) = false) as -> by done.
  rewrite path_of_path_str // /resolve /path_join. cbn [path_of absolute parts].
  by destruct (startswith "/" q).
Qed.

Lemma verdict_place root path :
  Forall component root →
  verdict_of (MkPath true root) path =
  match place_of root path with
  | Some place =>
      if decide (root `prefix_of` place ∨ allow_parent_access config = true ∧ place `prefix_of` root)
      then Inside else Outside
  | None => Invalid
  end.
Proof.
  clear json_loads search command_paths str_of cache_max_size.
  intros Hr. unfold verdict_of. rewrite normalize_place //. destruct (place_of root path) as [place|]; [|done]. simpl.
  unfold is_within_boundary, relative_to. cbn [absolute parts negb orb]. rewrite (bool_decide_eq_true_2 (true = true)) //.
  case_decide as Hd; destruct (allow_parent_access config); simpl;
    repeat case_bool_decide; simpl; try done; exfalso; naive_solver.
Qed.

(** C36: A call with path arguments, in a session whose project lies at [root]: whatever
    calls came before, as long as the file system is the same, it passes exactly if
    every path leads to a place whose components begin with those of the project
    (or, if that is allowed, to a directory above the project) - or, out of strict
    mode, leads nowhere.  So no path that leads outside the project passes.  [root]
    is what resolving the configured directory gave, so it has no empty component, no
    dots and no slash in it. *)
Theorem sandbox_confines calls dir tool_name arguments root :
  dir ≠ "" → realpath os (parts (path_join (cwd os) (path_of dir))) = Some root → Forall component root →
  extract_paths_from_arguments arguments (path_parameter_names config) ≠ [] →
  passes (handle (Some dir) tool_name arguments (after_calls calls)).1 = true ↔
  ∀ p, p ∈ extract_paths_from_arguments arguments (path_parameter_names config) →
    match place_of root p with
    | Some place => root `prefix_of` place ∨ allow_parent_access config = true ∧ place `prefix_of` root
    | None => strict_mode config = false
    end.
Proof.
  intros Hdir Hroot Hr Hpaths. unfold handle. destruct dir as [|c dir]; [done|].
  unfold resolve. rewrite Hroot. cbn [fmap option_fmap option_map].
  destruct (extract_paths_from_arguments arguments (path_parameter_names config)) as [|p paths]; [done|].
  etrans; [apply check_paths_spec, after_calls_ok|]. unfold acceptable.
  split; intros H q Hq; specialize (H q Hq); rewrite verdict_place // in H |- *;
    (destruct (place_of root q) as [place|]; [try destruct (decide _); naive_solver|naive_solver]).
Qed.

(** A shell command without path arguments passes exactly if strict mode is off
    and no path that the extraction finds in it resolves outside the project; in
    strict mode it never passes. *)
Theorem shell_command_confined calls dir tool_name arguments project_root :
  dir ≠ "" →
  resolve os (path_join (cwd os) (path_of dir)) = Some project_root →
  extract_paths_from_arguments (JDict arguments) (path_parameter_names config) = [] →
  _is_shell_tool tool_name = true →
  passes (handle (Some dir) tool_name (JDict arguments) (after_calls calls)).1 = true ↔
  strict_mode config = false ∧
  ∀ p, p ∈ _extract_command_strings arguments ≫= command_paths → verdict_of project_root p ≠ Outside.
Proof.
  intros Hdir Hroot Hpaths Hshell. unfold handle. destruct dir as [|c dir]; [done|]. rewrite Hroot Hpaths Hshell.
  pose proof (command_strings_spec (_extract_command_strings arguments) project_root _ (after_calls_ok calls)) as Hx.
  destruct (_extract_paths_from_command_strings _ _ _) as [paths cache]. destruct Hx as [Hc Hx].
  destruct paths as [|p0 paths].
  - unfold no_paths_found. destruct (strict_mode config); simpl; split; try done; [by intros [? _]|].
    intros _. split; [done|]. intros p Hp Ho. apply (not_elem_of_nil p), Hx. by rewrite Ho.
  - destruct (check_paths_spec project_root (p0 :: paths) (put_cache cache (after_calls calls)) Hc) as [-> _].
    unfold acceptable. split.
    + intros H. split.
      * destruct (H p0 (list_elem_of_here _ _)) as [Hin|[Hs _]]; [|done].
        by destruct (proj1 (Hx p0) (list_elem_of_here _ _)).
      * intros p Hp Ho. assert (p ∈ p0 :: paths) as Hin by (apply Hx; by rewrite Ho).
        destruct (H p Hin) as [H1|[_ H1]]; congruence.
    + intros [Hs H] p Hp. apply Hx in Hp as [Hp Hv]. specialize (H p Hp).
      destruct (verdict_of project_root p); [done|done|by right].
Qed.
End call.
End sandbox.

(** ** On a concrete file system *)

(** Dots resolved by name, with one symbolic link [/home/me/project/link] that
    points to [target]. *)
Fixpoint resolve_dots (done todo : list str) : list str :=
  match todo with
  | [] => done
  | p :: todo' => if String.eqb p ".." then resolve_dots (removelast done) todo' else resolve_dots (done ++ [p]) todo'
  end.

Definition sample_os (target : list str) : os_env :=
  MkOs (λ ps, let ps := resolve_dots [] ps in
        Some (if bool_decide (["home"; "me"; "project"; "link"]%string `prefix_of` ps) then target ++ drop 4 ps else ps))
    "/home/me" (path_of "/").

Definition inside_target : list str := ["home"; "me"; "project"; "src"]%string.
Definition etc_target : list str := ["etc"]%string.

Definition sample_config (strict : bool) : SandboxingConfiguration :=
  MkSandboxing true strict false [] [] ["write_file"; "apply_patch"; "bash"]%string ["path"; "patch"; "workdir"]%string.

Definition no_json (_ : str) : option json := None.
Definition sample_search (patterns : list str) (text : str) : bool :=
  existsb (λ p, str_contains p text) patterns || String.eqb text "bash".
Definition sample_paths (command : str) : list str := if str_contains "/etc" command then ["/etc"%string] else ["src"%string].
Definition no_text (_ : json) : str := "".

Definition sample_handle (strict : bool) (target : list str) (tool_name : str) (arguments : json) (s : handler_state) :
    sandbox_reaction * handler_state :=
  handle no_json sample_search sample_paths no_text 1000 (sample_config strict) (sample_os target) (Some "/home/me/project")
    tool_name arguments s.

Definition fresh_handler : handler_state := MkHandler [] 0 0 0.
Definition path_call (path : str) : json := JDict [("path", JStr path)]%string.
Definition project : py_path := MkPath true ["home"; "me"; "project"]%string.

Lemma sandbox_confines_witness :
  (sample_handle false etc_target "write_file" (path_call "src/../../project/a.py") fresh_handler).1 = Allow "allowed" ∧
  passes (sample_handle false etc_target "write_file" (path_call "src/../../other") fresh_handler).1 = false.
Proof.
  split; [vm_compute; reflexivity|].
  destruct (passes _) eqn:Hp; [|reflexivity].
  pose proof (proj1 (sandbox_confines no_json sample_search sample_paths no_text 1000 (sample_config false) (sample_os etc_target) []
    "/home/me/project" "write_file" (path_call "src/../../other") ["home"; "me"; "project"]%string ltac:(discriminate) eq_refl
    ltac:(repeat constructor; discriminate) ltac:(discriminate)) Hp "src/../../other"%string ltac:(left)) as H.
  vm_compute in H. destruct H as [[k Hk]|[H _]]; discriminate.
Defined.

Lemma shell_command_confined_witness :
  passes (sample_handle false etc_target "bash" (JDict [("command", JStr "rm -rf /etc")]%string) fresh_handler).1 = false ∧
  (passes (sample_handle false etc_target "bash" (JDict [("command", JStr "ls src")]%string) fresh_handler).1 = true ↔
   strict_mode (sample_config false) = false ∧
   ∀ p, p ∈ ["src"]%string → verdict_of (sample_config false) (sample_os etc_target) project p ≠ Outside).
Proof.
  split; [vm_compute; reflexivity|].
  exact (shell_command_confined no_json sample_search sample_paths no_text 1000 (sample_config false) (sample_os etc_target) []
    "/home/me/project" "bash" [("command", JStr "ls src")]%string project ltac:(discriminate) eq_refl eq_refl eq_refl).
Defined.

(** The cache has no expiry: a path through a symbolic link that was fine once
    passes after the link has been turned to a place outside. *)
Theorem retargeted_link_passes :
  let s := (sample_handle false inside_target "write_file" (path_call "link/passwd") fresh_handler).2 in
  (sample_handle false etc_target "write_file" (path_call "link/passwd") s).1 = Allow "allowed" ∧
  passes (sample_handle false etc_target "write_file" (path_call "link/passwd") fresh_handler).1 = false.
Proof. split; vm_compute; reflexivity. Qed.

(** A shell command is looked at only when no argument is a path: with a working
    directory in the arguments any command passes, in strict mode too. *)
Theorem command_with_workdir_unchecked :
  (sample_handle true etc_target "bash" (JDict [("command", JStr "rm -rf /etc"); ("workdir", JStr ".")]%string) fresh_handler).1
    = Allow "allowed".
Proof. vm_compute. reflexivity. Qed.

(** The text of a patch is taken as a path, and is one inside the project whatever
    files it names. *)
Theorem patch_text_is_a_path :
  (sample_handle true etc_target "apply_patch" (JDict [("patch", JStr "*** Update File: /etc/passwd")]%string) fresh_handler).1
    = Allow "allowed".
Proof. vm_compute. reflexivity. Qed.

(** Arguments that are still JSON text make the extraction from commands raise, and
    the call passes, in strict mode too. *)
Theorem text_arguments_pass :
  (sample_handle true etc_target "bash" (JStr "{...}") fresh_handler).1 = Allow "error_fail_open".
Proof. vm_compute. reflexivity. Qed.

(** In strict mode a command that touches only the project is stopped because no
    paths were found in it. *)
Theorem strict_stops_harmless_command :
  (sample_handle true etc_target "bash" (JDict [("command", JStr "rm -rf src")]%string) fresh_handler).1
    = Block "no_paths_found" [] [].
Proof. vm_compute. reflexivity. Qed.
