(* ===== verification/ToolHistory.v ===== *)
(** * The tool call history

    [InMemoryToolCallHistoryTracker] of
    [src/core/services/tool_call_reactor_service.py]: the calls of every session, with
    a limit on the entries of a session, a limit on the sessions and a lifetime.

    Timestamps are rationals; a timestamp without a time zone is one in UTC, so there
    is a single kind.  A method reads its clock once. *)

From S2P Require Import Prelude PyStr PySort PyDict.
From stdpp Require Import options.

(** What the reactor records about a call. *)
Record history_context : Type := MkHistoryContext {
  hc_backend_name : str;
  hc_model_name : str;
  hc_calling_agent : option str;
  hc_tool_arguments : json
}.

Record history_entry : Type := MkEntry {
  he_tool_name : str;
  he_timestamp : Q;
  he_context : history_context
}.

Record tracker : Type := MkTracker {
  _history : list (str * list history_entry);
  _session_last_access : list (str * Q);
  _total_entries : Z
}.

Definition empty_tracker : tracker := MkTracker [] [] 0.

(** Ascending by the time of the last access. *)
Definition older (x y : str * Q) : bool := Qle_bool x.2 y.2.

Section tracker.
Context (session_ttl_seconds : Q) (max_sessions max_entries_per_session : nat).

(** [_history.pop(session_id, None)], [_session_last_access.pop(session_id, None)] *)
Definition drop_session (t : tracker) (session_id : str) : tracker :=
  MkTracker (od_pop session_id (_history t)) (od_pop session_id (_session_last_access t)) (_total_entries t).

(** A session removed to make room; its entries leave the total. *)
Definition evict_session (t : tracker) (session_id : str) : tracker :=
  let session_history := default [] (od_get session_id (_history t)) in
  drop_session
    (MkTracker (_history t) (_session_last_access t) (_total_entries t - Z.of_nat (length session_history)))
    session_id.

Definition expired_sessions (now : Q) (t : tracker) : list str :=
  (filter (λ e, Qltb e.2 (now - session_ttl_seconds) = true) (_session_last_access t)).*1.

Definition oldest_sessions (t : tracker) : list str :=
  let to_remove := length (_history t) - max_sessions in
  take to_remove (py_sorted older (_session_last_access t)).*1.

Definition _cleanup_expired_sessions_locked (now : Q) (t : tracker) : tracker :=
  let t := foldl drop_session t (expired_sessions now t) in
  if max_sessions <? length (_history t) then foldl evict_session t (oldest_sessions t) else t.

Definition record_tool_call (session_id tool_name : str) (timestamp : option Q) (context : history_context)
    (now : Q) (t : tracker) : tracker :=
  let t := _cleanup_expired_sessions_locked now t in
  let session_history :=
    default [] (od_get session_id (_history t)) ++ [MkEntry tool_name (default now timestamp) context] in
  let excess_count := length session_history - max_entries_per_session in
  MkTracker
    (od_set session_id
       (if max_entries_per_session <? length session_history
        then drop max_entries_per_session session_history else session_history)
       (_history t))
    (od_set session_id now (_session_last_access t))
    (_total_entries t + 1 - (if max_entries_per_session <? length session_history then Z.of_nat excess_count else 0%Z)).

Definition in_window (tool_name : str) (cutoff : Q) (e : history_entry) : Prop :=
  he_tool_name e = tool_name ∧ Qle_bool cutoff (he_timestamp e) = true.

#[global] Instance in_window_dec tool_name cutoff e : Decision (in_window tool_name cutoff e).
Proof. unfold in_window. apply _. Defined.

Definition get_call_count (session_id tool_name : str) (time_window_seconds now : Q) (t : tracker) : nat :=
  match od_get session_id (_history t) with
  | None => 0
  | Some session_history => length (filter (in_window tool_name (now - time_window_seconds)) session_history)
  end.

Definition get_total_entries_count (t : tracker) : Z := _total_entries t.

Definition clear_history (session_id : option str) (t : tracker) : tracker :=
  match session_id with
  | None => empty_tracker
  | Some sid =>
      match od_get sid (_history t) with
      | None => t
      | Some session_history =>
          MkTracker (od_set sid [] (_history t)) (od_pop sid (_session_last_access t))
            (_total_entries t - Z.of_nat (length session_history))
      end
  end.

(** ** Histories of calls *)

Inductive history_op : Type :=
| RecordCall (session_id tool_name : str) (timestamp : option Q) (context : history_context) (now : Q)
| ClearHistory (session_id : option str).

Definition run_op (t : tracker) (op : history_op) : tracker :=
  match op with
  | RecordCall session_id tool_name timestamp context now => record_tool_call session_id tool_name timestamp context now t
  | ClearHistory session_id => clear_history session_id t
  end.

Definition run_ops (ops : list history_op) : tracker := foldl run_op empty_tracker ops.

(** The calls of a session, as they were made. *)
Definition entry_of (session_id : str) (op : history_op) : option history_entry :=
  match op with
  | RecordCall sid tool_name timestamp context now =>
      if bool_decide (sid = session_id) then Some (MkEntry tool_name (default now timestamp) context) else None
  | ClearHistory _ => None
  end.

Definition calls_of (session_id : str) (ops : list history_op) : list history_entry := omap (entry_of session_id) ops.

(** ** The state *)

Definition tracker_ok (t : tracker) : Prop :=
  od_ok (_history t) ∧ od_ok (_session_last_access t) ∧
  (∀ sid, is_Some (od_get sid (_session_last_access t)) → is_Some (od_get sid (_history t))).

(** What a cleanup leaves of a session is what was there, or nothing. *)
Definition part_of (t' t : tracker) : Prop :=
  (∀ sid, od_get sid (_history t') = od_get sid (_history t) ∨ od_get sid (_history t') = None) ∧
  length (_history t') ≤ length (_history t).

#[global] Instance part_of_preorder : PreOrder part_of.
Proof.
  split.
  - intros t. split; [by left|done].
  - intros t1 t2 t3 [H1 L1] [H2 L2]. split; [|lia]. intros sid.
    destruct (H1 sid) as [->| ->]; [apply H2|by right].
Qed.

Lemma od_pop_length_le {A} k (d : list (str * A)) : length (od_pop k d) ≤ length d.
Proof. apply sublist_length, od_pop_sublist. Qed.

Lemma drop_session_ok t sid : tracker_ok t → tracker_ok (drop_session t sid) ∧ part_of (drop_session t sid) t.
Proof.
  intros (Hh & Ha & Hs). split.
  - unfold tracker_ok; split_and!; simpl; [by apply od_pop_ok..|]. intros sid'. destruct (decide (sid' = sid)) as [->|Hne].
    + rewrite od_get_pop_eq //.
    + rewrite !od_get_pop_ne //. apply Hs.
  - split; simpl; [|apply od_pop_length_le]. intros sid'. destruct (decide (sid' = sid)) as [->|Hne].
    + rewrite od_get_pop_eq //. by right.
    + rewrite od_get_pop_ne //. by left.
Qed.

Lemma evict_session_ok t sid : tracker_ok t → tracker_ok (evict_session t sid) ∧ part_of (evict_session t sid) t.
Proof. intros Ht. unfold evict_session. by apply (drop_session_ok (MkTracker _ _ _) sid). Qed.

Lemma foldl_ok (f : tracker → str → tracker) sids t :
  (∀ t sid, tracker_ok t → tracker_ok (f t sid) ∧ part_of (f t sid) t) →
  tracker_ok t → tracker_ok (foldl f t sids) ∧ part_of (foldl f t sids) t.
Proof.
  intros Hf. revert t. induction sids as [|sid sids IH]; intros t Ht; simpl; [done|].
  destruct (Hf t sid Ht) as [H1 H2]. destruct (IH _ H1) as [H3 H4]. split; [done|]. by trans (f t sid).
Qed.

Lemma history_cleanup_ok now t :
  tracker_ok t →
  tracker_ok (_cleanup_expired_sessions_locked now t) ∧ part_of (_cleanup_expired_sessions_locked now t) t.
Proof.
  intros Ht. unfold _cleanup_expired_sessions_locked.
  destruct (foldl_ok drop_session (expired_sessions now t) t) as [H1 H2]; [apply drop_session_ok|done|].
  case_match; [|done].
  destruct (foldl_ok evict_session (oldest_sessions (foldl drop_session t (expired_sessions now t))) _
              (λ t sid, evict_session_ok t sid) H1) as [H3 H4].
  split; [done|]. by etrans.
Qed.

Lemma record_ok sid tool ts c now t : tracker_ok t → tracker_ok (record_tool_call sid tool ts c now t).
Proof.
  intros Ht. destruct (history_cleanup_ok now t Ht) as [(Hh & Ha & Hs) _]. unfold record_tool_call.
  set (t1 := _cleanup_expired_sessions_locked now t) in *.
  unfold tracker_ok; split_and!; simpl; [by apply od_set_ok..|]. intros sid'. destruct (decide (sid' = sid)) as [->|Hne].
  - rewrite !od_get_set_eq. intros _. by eexists.
  - rewrite !od_get_set_ne //. apply Hs.
Qed.

Lemma empty_ok : tracker_ok empty_tracker.
Proof. unfold tracker_ok. split_and!; [constructor..|]. by intros ? []. Qed.

Lemma clear_ok s t : tracker_ok t → tracker_ok (clear_history s t).
Proof.
  intros (Hh & Ha & Hs). destruct s as [sid|]; simpl; [|apply empty_ok].
  destruct (od_get sid (_history t)) eqn:Hg; [|done]. unfold tracker_ok; split_and!; simpl; [by apply od_set_ok|by apply od_pop_ok|].
  intros sid'. destruct (decide (sid' = sid)) as [->|Hne].
  - rewrite od_get_set_eq. intros _. by eexists.
  - rewrite od_get_pop_ne // od_get_set_ne //. apply Hs.
Qed.

Lemma run_op_ok t op : tracker_ok t → tracker_ok (run_op t op).
Proof. destruct op; [apply record_ok|apply clear_ok]. Qed.

Lemma run_ops_snoc ops op : run_ops (ops ++ [op]) = run_op (run_ops ops) op.
Proof. unfold run_ops. by rewrite foldl_app. Qed.

Lemma run_ops_ok ops : tracker_ok (run_ops ops).
Proof.
  induction ops as [|op ops IH] using rev_ind; [apply empty_ok|]. rewrite run_ops_snoc. by apply run_op_ok.
Qed.

(** The history of a session after a call. *)
Lemma record_get sid' sid tool ts c now t :
  od_get sid' (_history (record_tool_call sid tool ts c now t)) =
  let t1 := _cleanup_expired_sessions_locked now t in
  if decide (sid' = sid) then
    let h := default [] (od_get sid (_history t1)) ++ [MkEntry tool (default now ts) c] in
    Some (if max_entries_per_session <? length h then drop max_entries_per_session h else h)
  else od_get sid' (_history t1).
Proof.
  unfold record_tool_call. simpl. case_decide as Hd.
  - subst. by rewrite od_get_set_eq.
  - by rewrite od_get_set_ne.
Qed.

Lemma calls_of_snoc sid ops op :
  calls_of sid (ops ++ [op]) = calls_of sid ops ++ option_list (entry_of sid op).
Proof. unfold calls_of. rewrite omap_app. simpl. by destruct (entry_of sid op). Qed.

(** ** Soundness *)

Lemma history_is_recorded ops sid h :
  od_get sid (_history (run_ops ops)) = Some h → sublist h (calls_of sid ops).
Proof.
  revert sid h. induction ops as [|op ops IH] using rev_ind; intros sid h; [done|].
  rewrite run_ops_snoc calls_of_snoc. pose proof (run_ops_ok ops) as Hok.
  destruct op as [sid' tool ts c now|s]; simpl.
  - destruct (history_cleanup_ok now _ Hok) as [_ [Hp _]]. rewrite record_get /=.
    assert (sublist (default [] (od_get sid (_history (_cleanup_expired_sessions_locked now (run_ops ops)))))
              (calls_of sid ops)) as Hsub.
    { destruct (Hp sid) as [->| ->]; [|apply sublist_nil_l].
      destruct (od_get sid (_history (run_ops ops))) eqn:Hg; [by apply IH|apply sublist_nil_l]. }
    case_decide as Hd; [subst sid'|].
    + rewrite bool_decide_eq_true_2 //. simpl. intros [= <-].
      assert (sublist (default [] (od_get sid (_history (_cleanup_expired_sessions_locked now (run_ops ops)))) ++
                [MkEntry tool (default now ts) c]) (calls_of sid ops ++ [MkEntry tool (default now ts) c])) as Hs.
      { by apply sublist_app. }
      case_match; [|done]. by etrans; [apply sublist_drop|].
    + rewrite bool_decide_eq_false_2 //= app_nil_r. intros Hg. by rewrite Hg in Hsub.
  - rewrite app_nil_r. destruct s as [sid'|]; simpl; [|done].
    destruct (od_get sid' (_history (run_ops ops))) eqn:Hg; [|apply IH]. simpl.
    destruct (decide (sid = sid')) as [->|Hne].
    + rewrite od_get_set_eq. intros [= <-]. apply sublist_nil_l.
    + rewrite od_get_set_ne //. apply IH.
Qed.

(** The tracker never counts a call that was not made: whatever is recorded,
    evicted, expired and cleared, the number of calls of a tool it reports for a session
    and a window is at most the number of such calls that the session made. *)
Theorem counts_sound ops session_id tool_name time_window_seconds now :
  get_call_count session_id tool_name time_window_seconds now (run_ops ops) ≤
  length (filter (in_window tool_name (now - time_window_seconds)) (calls_of session_id ops)).
Proof.
  unfold get_call_count. destruct (od_get session_id (_history (run_ops ops))) as [h|] eqn:Hg; [|lia].
  apply filter_length_sublist. by apply history_is_recorded.
Qed.

(** The limit on a session holds. *)
Lemma session_limit ops sid h :
  1 ≤ max_entries_per_session → od_get sid (_history (run_ops ops)) = Some h → length h ≤ max_entries_per_session.
Proof.
  intros Hmax. revert sid h. induction ops as [|op ops IH] using rev_ind; intros sid h; [done|].
  rewrite run_ops_snoc. pose proof (run_ops_ok ops) as Hok. destruct op as [sid' tool ts c now|s]; simpl.
  - destruct (history_cleanup_ok now _ Hok) as [_ [Hp _]]. rewrite record_get /=.
    assert (length (default [] (od_get sid (_history (_cleanup_expired_sessions_locked now (run_ops ops))))) ≤
              max_entries_per_session) as Hl.
    { destruct (Hp sid) as [->| ->]; [|simpl; lia].
      destruct (od_get sid (_history (run_ops ops))) eqn:Hg; [by apply (IH sid)|simpl; lia]. }
    case_decide as Hd.
    + subst sid'. intros [= <-]. rewrite length_app /=.
      case_match eqn:Hlt; [rewrite length_drop length_app /=; lia|]. apply Nat.ltb_ge in Hlt. rewrite length_app /= in Hlt |- *. lia.
    + intros Hg. by rewrite Hg in Hl.
  - destruct s as [sid'|]; simpl; [|done].
    destruct (od_get sid' (_history (run_ops ops))) eqn:Hg; [|apply IH]. simpl.
    destruct (decide (sid = sid')) as [->|Hne].
    + rewrite od_get_set_eq. intros [= <-]. simpl. lia.
    + rewrite od_get_set_ne //. apply IH.
Qed.

(** ** Exactness *)

(** What is left of the calls of a session: the newest of them, counted from the last
    time that the limit was passed. *)
Definition retained (l : list history_entry) : list history_entry :=
  drop (max_entries_per_session * ((length l - 1) / max_entries_per_session)) l.

Lemma retained_snoc l e :
  1 ≤ max_entries_per_session →
  retained (l ++ [e]) =
  let h := retained l ++ [e] in
  if max_entries_per_session <? length h then drop max_entries_per_session h else h.
Proof.
  intros Hm. unfold retained. cbv zeta. rewrite !length_app length_drop /=.
  set (M := max_entries_per_session) in *. set (n := length l).
  destruct (decide (n = 0)) as [Hn|Hn].
  { apply nil_length_inv in Hn as ->. simpl. rewrite Nat.Div0.div_0_l Nat.mul_0_r /=. by destruct (Nat.ltb_spec M 1); [lia|]. }
  replace (n + 1 - 1) with n by lia.
  pose proof (Nat.div_mod_eq (n - 1) M) as Hd. assert (M ≠ 0) as HM by lia.
  pose proof (Nat.mod_upper_bound (n - 1) M HM) as Hr.
  set (q := (n - 1) / M) in *. set (r := (n - 1) mod M) in *.
  clearbody q r. assert (M * (q + 1) = M * q + M) as Hmul by lia.
  destruct (Nat.ltb_spec M (n - M * q + 1)) as [Hlt|Hge].
  - assert (n = M * (q + 1) + 0) as Hn' by lia. rewrite -(Nat.div_unique n M (q + 1) 0 ltac:(lia) ltac:(lia)).
    rewrite -drop_app_le; [lia|]. rewrite drop_drop. f_equal. lia.
  - rewrite -(Nat.div_unique n M q (r + 1) ltac:(lia) ltac:(lia)). rewrite drop_app_le //. subst n. lia.
Qed.

(** A record of calls, without clears. *)
Record call : Type := MkCall {
  c_session : str;
  c_tool : str;
  c_timestamp : option Q;
  c_context : history_context;
  c_now : Q
}.

Definition op_of (c : call) : history_op :=
  RecordCall (c_session c) (c_tool c) (c_timestamp c) (c_context c) (c_now c).

Definition sessions_of (calls : list call) : list str := remove_dups (c_session <$> calls).

Definition total_of (t : tracker) : nat := sum_list (length <$> (_history t).*2).

Lemma total_set k (v : list history_entry) (d : list (str * list history_entry)) :
  sum_list (length <$> (od_set k v d).*2) + length (default [] (od_get k d)) =
  sum_list (length <$> d.*2) + length v.
Proof.
  induction d as [|[k' v'] d IH]; csimpl; [lia|]. case_decide; csimpl; [lia|]. rewrite -Nat.add_assoc IH. lia.
Qed.

Lemma cleanup_idle now t :
  Forall (λ e, now - session_ttl_seconds <= e.2)%Q (_session_last_access t) →
  length (_history t) ≤ max_sessions →
  _cleanup_expired_sessions_locked now t = t.
Proof.
  intros Ha Hl. unfold _cleanup_expired_sessions_locked, expired_sessions.
  assert (filter (λ e, Qltb e.2 (now - session_ttl_seconds) = true) (_session_last_access t) = []) as ->.
  { induction Ha as [|e l He _ IH]; [done|]. rewrite filter_cons IH. case_decide as Hd; [|done]. exfalso.
    revert Hd. qcase; [lra|done]. }
  simpl. by rewrite (proj2 (Nat.ltb_ge _ _)).
Qed.

(** The times of the calls lie in one lifetime. *)
Definition within_ttl (t0 : Q) (calls : list call) : Prop :=
  Forall (λ c, t0 <= c_now c /\ c_now c <= t0 + session_ttl_seconds)%Q calls.

Lemma quiet_history t0 calls :
  1 ≤ max_entries_per_session → within_ttl t0 calls → length (sessions_of calls) ≤ max_sessions →
  let t := run_ops (op_of <$> calls) in
  (∀ sid, default [] (od_get sid (_history t)) = retained (calls_of sid (op_of <$> calls))) ∧
  Forall (λ e, t0 <= e.2)%Q (_session_last_access t) ∧
  ∀ sid, is_Some (od_get sid (_history t)) → sid ∈ c_session <$> calls.
Proof.
  intros Hm. induction calls as [|c calls IH] using rev_ind; intros Ht Hn; cbv zeta.
  { split_and!; [intros; symmetry; apply drop_nil|constructor|by intros ? []]. }
  apply Forall_app in Ht as [Ht [Hc _]%Forall_cons].
  assert (length (sessions_of calls) ≤ max_sessions) as Hn'.
  { etrans; [|exact Hn]. apply submseteq_length, NoDup_submseteq; [apply NoDup_remove_dups|].
    intros x. unfold sessions_of. rewrite !elem_of_remove_dups fmap_app. set_solver. }
  destruct (IH Ht Hn') as (H1 & H2 & H3). clear IH. rewrite fmap_app run_ops_snoc /=.
  pose proof (run_ops_ok (op_of <$> calls)) as (Hok & _ & _).
  set (t := run_ops (op_of <$> calls)) in *.
  assert (length (_history t) ≤ max_sessions) as Hl.
  { rewrite -(length_fmap fst). etrans; [|exact Hn']. apply submseteq_length, NoDup_submseteq; [done|].
    intros x Hx. unfold sessions_of. rewrite elem_of_remove_dups. apply H3.
    destruct (od_get x (_history t)) eqn:Hg; [by eexists|]. by apply od_get_None in Hg. }
  unfold record_tool_call. rewrite cleanup_idle //.
  { eapply Forall_impl; [done|]. intros e He. simpl in *. lra. }
  set (h := default [] (od_get (c_session c) (_history t)) ++ [MkEntry (c_tool c) (default (c_now c) (c_timestamp c)) (c_context c)]).
  assert (h = retained (calls_of (c_session c) (op_of <$> calls)) ++
            [MkEntry (c_tool c) (default (c_now c) (c_timestamp c)) (c_context c)]) as Hh by by rewrite -H1.
  split_and!; simpl.
  - intros sid. rewrite calls_of_snoc /=. destruct (decide (sid = c_session c)) as [->|Hne].
    + rewrite od_get_set_eq bool_decide_eq_true_2 //=. rewrite retained_snoc // -Hh. done.
    + rewrite od_get_set_ne // bool_decide_eq_false_2 //= app_nil_r. apply H1.
  - apply od_set_Forall; [done|]. simpl. by destruct Hc.
  - intros sid. rewrite fmap_app elem_of_app /=. destruct (decide (sid = c_session c)) as [->|Hne]; [set_solver|].
    rewrite od_get_set_ne //. intros Hs. left. by apply H3.
Qed.

(** Within one lifetime and the limit on sessions the tracker's answer is exact: it
    counts the calls of the tool in the window among the retained ones - all calls of
    the session, as long as they are at most [max_entries_per_session]. *)
Theorem call_count_exact t0 calls session_id tool_name time_window_seconds now :
  1 ≤ max_entries_per_session → within_ttl t0 calls → length (sessions_of calls) ≤ max_sessions →
  let made := calls_of session_id (op_of <$> calls) in
  get_call_count session_id tool_name time_window_seconds now (run_ops (op_of <$> calls)) =
  length (filter (in_window tool_name (now - time_window_seconds))
    (if length made <=? max_entries_per_session then made else retained made)).
Proof.
  intros Hm Ht Hn made. destruct (quiet_history t0 calls Hm Ht Hn) as (H1 & _ & _).
  assert ((if length made <=? max_entries_per_session then made else retained made) = retained made) as ->.
  { destruct (Nat.leb_spec (length made) max_entries_per_session); [|done]. unfold retained.
    rewrite Nat.div_small; [lia|]. by rewrite Nat.mul_0_r. }
  unfold made. rewrite -H1. unfold get_call_count. by destruct (od_get session_id _).
Qed.

(** The call after the limit leaves one entry: the tracker forgets all calls before it. *)
Lemma limit_forgets l e :
  1 < max_entries_per_session → length l = max_entries_per_session → retained (l ++ [e]) = [e].
Proof.
  intros Hm Hl. unfold retained. rewrite length_app /= Hl.
  replace (max_entries_per_session + 1 - 1) with max_entries_per_session by lia.
  rewrite Nat.div_same; [lia|]. rewrite Nat.mul_1_r drop_app_le; [lia|]. by rewrite -Hl drop_all.
Qed.

End tracker.

(** ** Observations *)

Definition example_context : history_context := MkHistoryContext "openai" "gpt-4" None (JDict []).
Definition example_call (sid tool : str) (now : Q) : history_op := RecordCall sid tool None example_context now.

(** Four calls of one tool within a minute, with a limit of three: the count goes to
    three and then back to one, and the total says three. *)
Example history_reset_at_limit :
  let counts n := get_call_count "s" "bash" 60 10 (run_ops 3600 10 3 (replicate n (example_call "s" "bash" 10))) in
  (counts 3, counts 4, get_total_entries_count (run_ops 3600 10 3 (replicate 4 (example_call "s" "bash" 10)))) = (3, 1, 3%Z).
Proof. vm_compute. reflexivity. Qed.

(** Entries that expire stay in the total. *)
Example total_keeps_expired :
  let t := run_ops 3600 10 100 [example_call "a" "bash" 0; example_call "a" "bash" 1; example_call "b" "bash" 4000] in
  (get_total_entries_count t, (λ e, (e.1, length e.2)) <$> _history t) = (3%Z, [("b", 1)]).
Proof. vm_compute. reflexivity. Qed.

(** A cleared session keeps its place and never expires; with the limit on sessions
    reached, a live session is evicted at every call in its stead. *)
Example cleared_session_crowds_out :
  let t := run_ops 3600 1 100
    [example_call "a" "bash" 0; ClearHistory (Some "a"); example_call "b" "bash" 1; example_call "b" "bash" 2;
     example_call "b" "bash" 3] in
  ((λ e, (e.1, length e.2)) <$> _history t) = [("a", 0); ("b", 1)].
Proof. vm_compute. reflexivity. Qed.

Lemma call_count_exact_witness :
  let calls := [MkCall "s" "bash" None example_context 1; MkCall "t" "bash" None example_context 2;
                MkCall "s" "bash" None example_context 3; MkCall "s" "read" None example_context 4] in
  get_call_count "s" "bash" 60 10 (run_ops 3600 10 3 (op_of <$> calls)) = 2.
Proof.
  intros calls. rewrite (call_count_exact 3600 10 3 0 calls "s" "bash" 60 10); [lia| | |].
  - repeat constructor; simpl; discriminate.
  - vm_compute. lia.
  - vm_compute. reflexivity.
Defined.
