(* ===== verification/ToolReactor.v ===== *)
(** * The tool call reactor

    [ToolCallReactorService] of [src/core/services/tool_call_reactor_service.py], with
    the types of [src/core/interfaces/tool_call_reactor_interface.py]: handlers are
    registered by name and asked in the order of their priority whether they swallow
    a tool call.

    A handler is an object with its own state; the states of all handlers together are
    the type [W].  A handler may raise; cancellation of the task is no [Exception] and
    passes through the reactor.  [uuid4], [json.dumps] and [json.loads] are parameters. *)

From Stdlib Require Import Ascii Sorted.
From S2P Require Import Prelude PyStr PySort PyDict ToolHistory.
From stdpp Require Import options.

Record ToolCallContext : Type := MkToolCallContext {
  tcx_session_id : str;
  tcx_backend_name : str;
  tcx_model_name : str;
  tcx_full_response : json;
  tcx_tool_name : str;
  tcx_tool_arguments : json;
  tcx_calling_agent : option str;
  tcx_timestamp : option Q
}.

Record ToolCallReactionResult : Type := MkReaction {
  should_swallow : bool;
  replacement_response : option str;
  reaction_metadata : option (list (str * json))
}.

(** What a handler raises: an [Exception], or the cancellation of its task. *)
Inductive handler_exn : Type := HandlerError | Interrupted.

Record IToolCallHandler (W : Type) : Type := MkHandler {
  h_name : str;
  h_priority : Z;
  h_can_handle : ToolCallContext → stm W handler_exn bool;
  h_handle : ToolCallContext → stm W handler_exn ToolCallReactionResult
}.
Arguments MkHandler {W}.
Arguments h_name {W}.
Arguments h_priority {W}.
Arguments h_can_handle {W}.
Arguments h_handle {W}.

(** ** Snapshots of arguments *)

Section snapshot.
Context (json_dumps : json → str) (json_loads : str → option json).

Definition _MAX_ARGUMENT_SNAPSHOT_BYTES : N := 16384.

(** A code point up to 255 takes one byte of UTF-8, or two. *)
Definition utf8_width (c : ascii) : N := if nat_of_ascii c <? 128 then 1%N else 2%N.

Fixpoint utf8_len (s : str) : N :=
  match s with
  | "" => 0%N
  | String c s' => (utf8_width c + utf8_len s')%N
  end.

(** [encoded[:n].decode("utf-8", errors="ignore")]: a code point that is cut in two is
    dropped. *)
Fixpoint utf8_take (n : N) (s : str) : str :=
  match s with
  | "" => ""
  | String c s' => if (utf8_width c <=? n)%N then String c (utf8_take (n - utf8_width c) s') else ""
  end.

Definition bounded_snapshot (whole : json) (text : str) : json :=
  if (utf8_len text <=? _MAX_ARGUMENT_SNAPSHOT_BYTES)%N then whole
  else JDict [("__truncated__", JBool true); ("preview", JStr (utf8_take _MAX_ARGUMENT_SNAPSHOT_BYTES text));
              ("omitted_bytes", JInt (Z.of_N (utf8_len text - _MAX_ARGUMENT_SNAPSHOT_BYTES)))].

(** On JSON values, which [json.dumps] serializes. *)
Definition _snapshot_tool_arguments (arguments : json) : json :=
  match arguments with
  | JNull | JBool _ | JInt _ | JFloat _ => arguments
  | JStr s => bounded_snapshot arguments s
  | JList _ | JDict _ =>
      let serialized := json_dumps arguments in
      bounded_snapshot (default (JStr serialized) (json_loads serialized)) serialized
  end.

Lemma utf8_take_len n s : (utf8_len (utf8_take n s) <= n)%N.
Proof.
  revert n. induction s as [|c s IH]; intros n; cbn [utf8_take utf8_len]; [lia|].
  destruct (N.leb_spec (utf8_width c) n); cbn [utf8_len]; [|lia]. specialize (IH (n - utf8_width c)%N). lia.
Qed.

Lemma utf8_take_prefix n s : startswith (utf8_take n s) s = true.
Proof.
  revert n. induction s as [|c s IH]; intros n; simpl; [done|]. destruct (utf8_width c <=? n)%N; simpl; [|done].
  by rewrite Ascii.eqb_refl IH.
Qed.

(** What the history keeps of the arguments of a call: all of them, or a beginning of
    their text of at most 16384 bytes, with the number of bytes left out. *)
Lemma snapshot_bounded d :
  (∀ j, json_loads (json_dumps j) = Some j) →
  let text := json_dumps (JDict d) in
  (_snapshot_tool_arguments (JDict d) = JDict d ∧ (utf8_len text <= _MAX_ARGUMENT_SNAPSHOT_BYTES)%N) ∨
  ∃ preview, _snapshot_tool_arguments (JDict d) =
    JDict [("__truncated__", JBool true); ("preview", JStr preview);
           ("omitted_bytes", JInt (Z.of_N (utf8_len text) - Z.of_N _MAX_ARGUMENT_SNAPSHOT_BYTES))] ∧
    (utf8_len preview <= _MAX_ARGUMENT_SNAPSHOT_BYTES)%N ∧ startswith preview text = true.
Proof.
  intros Hj text. unfold _snapshot_tool_arguments, bounded_snapshot. rewrite Hj. fold text. simpl.
  destruct (N.leb_spec (utf8_len text) _MAX_ARGUMENT_SNAPSHOT_BYTES) as [Hle|Hgt]; [by left|right].
  exists (utf8_take _MAX_ARGUMENT_SNAPSHOT_BYTES text). split_and!; [|apply utf8_take_len|apply utf8_take_prefix].
  by rewrite N2Z.inj_sub; [lia|].
Qed.
End snapshot.

(** ** The service *)

Section reactor.
Context {W : Type}.
Context (session_alias_ttl_seconds : Q) (max_session_aliases : nat).
Context (session_ttl_seconds : Q) (max_sessions max_entries_per_session : nat).
Context (json_dumps : json → str) (json_loads : str → option json).

Record ToolCallReactorService : Type := MkReactor {
  _handlers : list (str * IToolCallHandler W);
  _sorted_handlers : option (list (IToolCallHandler W));
  _session_aliases : list (str * str);
  _session_aliases_last_access : list (str * Q);
  _tool_definitions_filtered_count : Z;
  _tool_calls_blocked_count : Z;
  _tool_calls_allowed_count : Z;
  _tool_argument_repair_stats : list (str * Z)
}.

Definition new_reactor : ToolCallReactorService :=
  MkReactor [] None [] [] 0 0 0 [("success", 0%Z); ("recovered", 0%Z); ("failed", 0%Z)].

Definition set_handlers (hs : list (str * IToolCallHandler W)) (sorted : option (list (IToolCallHandler W)))
    (r : ToolCallReactorService) : ToolCallReactorService :=
  MkReactor hs sorted (_session_aliases r) (_session_aliases_last_access r) (_tool_definitions_filtered_count r)
    (_tool_calls_blocked_count r) (_tool_calls_allowed_count r) (_tool_argument_repair_stats r).

Definition set_aliases (aliases : list (str * str)) (last_access : list (str * Q))
    (r : ToolCallReactorService) : ToolCallReactorService :=
  MkReactor (_handlers r) (_sorted_handlers r) aliases last_access (_tool_definitions_filtered_count r)
    (_tool_calls_blocked_count r) (_tool_calls_allowed_count r) (_tool_argument_repair_stats r).

(** [sorted(key=priority, reverse=True)] *)
Definition higher (a b : IToolCallHandler W) : bool := (h_priority b <=? h_priority a)%Z.

Definition _get_sorted_handlers (r : ToolCallReactorService) : list (IToolCallHandler W) * ToolCallReactorService :=
  match _sorted_handlers r with
  | Some hs => (hs, r)
  | None => let hs := py_sorted higher (_handlers r).*2 in (hs, set_handlers (_handlers r) (Some hs) r)
  end.

(** [register_handler] and [register_handler_sync]; [Err tt] is [ToolCallReactorError]. *)
Definition register_handler (handler : IToolCallHandler W) : stm ToolCallReactorService unit unit := λ r,
  if od_mem (h_name handler) (_handlers r) then (Err tt, r)
  else (Ok tt, set_handlers (od_set (h_name handler) handler (_handlers r)) None r).

Definition unregister_handler (handler_name : str) : stm ToolCallReactorService unit unit := λ r,
  if od_mem handler_name (_handlers r) then (Ok tt, set_handlers (od_pop handler_name (_handlers r)) None r)
  else (Err tt, r).

Definition get_registered_handlers (r : ToolCallReactorService) : list str := (_handlers r).*1.

Definition pop_aliases (alias_keys : list str) (r : ToolCallReactorService) : ToolCallReactorService :=
  set_aliases (od_del alias_keys (_session_aliases r)) (od_del alias_keys (_session_aliases_last_access r)) r.

Definition _cleanup_expired_session_aliases_locked (now : Q) (r : ToolCallReactorService) : ToolCallReactorService :=
  let cutoff := (now - session_alias_ttl_seconds)%Q in
  let expired := (filter (λ e, Qltb e.2 cutoff = true) (_session_aliases_last_access r)).*1 in
  let r := pop_aliases expired r in
  if max_session_aliases <? length (_session_aliases r) then
    let to_remove := length (_session_aliases r) - max_session_aliases in
    pop_aliases (take to_remove (py_sorted older (_session_aliases_last_access r)).*1) r
  else r.

(** The session id under which a call is recorded; [fresh] is [uuid4().hex]. *)
Definition resolve_session (raw_session_id fresh : str) (now : Q) (r : ToolCallReactorService) :
    str * ToolCallReactorService :=
  if is_empty raw_session_id then (fresh, r)
  else
    let r := _cleanup_expired_session_aliases_locked now r in
    let aliases := if od_mem raw_session_id (_session_aliases r) then _session_aliases r
                   else od_set raw_session_id raw_session_id (_session_aliases r) in
    let r := set_aliases aliases (od_set raw_session_id now (_session_aliases_last_access r)) r in
    (default raw_session_id (od_get raw_session_id aliases), _cleanup_expired_session_aliases_locked now r).

(** One handler: the result it swallows the call with, if it does. *)
Definition ask_handler (context : ToolCallContext) (handler : IToolCallHandler W) :
    stm W handler_exn (option ToolCallReactionResult) := λ w,
  match (accepts ← h_can_handle handler context;
         if accepts : bool then
           result ← h_handle handler context;
           mret (if should_swallow result then Some result else None)
         else mret None) w with
  | (Err HandlerError, w') => (Ok None, w')
  | outcome => outcome
  end.

Fixpoint ask_handlers (context : ToolCallContext) (handlers : list (IToolCallHandler W)) :
    stm W handler_exn (option ToolCallReactionResult) :=
  match handlers with
  | [] => mret None
  | handler :: handlers' =>
      result ← ask_handler context handler;
      match result with Some r => mret (Some r) | None => ask_handlers context handlers' end
  end.

(** The reactor with its tracker and its handlers' states. *)
Record reactor_state : Type := MkReactorState {
  rs_reactor : ToolCallReactorService;
  rs_tracker : option tracker;
  rs_handlers : W
}.

Definition record_call (session : str) (context : ToolCallContext) (now : Q) (t : tracker) : tracker :=
  record_tool_call session_ttl_seconds max_sessions max_entries_per_session session (tcx_tool_name context)
    (Some (default now (tcx_timestamp context)))
    (MkHistoryContext (tcx_backend_name context) (tcx_model_name context) (tcx_calling_agent context)
       (_snapshot_tool_arguments json_dumps json_loads (tcx_tool_arguments context)))
    now t.

Definition process_tool_call (fresh : str) (now : Q) (context : ToolCallContext) :
    stm reactor_state handler_exn (option ToolCallReactionResult) := λ s,
  let '(session, r) := resolve_session (tcx_session_id context) fresh now (rs_reactor s) in
  let t := record_call session context now <$> rs_tracker s in
  let '(handlers, r) := _get_sorted_handlers r in
  let '(result, w) := ask_handlers context handlers (rs_handlers s) in
  (result, MkReactorState r t w).

(** ** Telemetry *)

Definition increment_counts (filtered blocked allowed : Z) (r : ToolCallReactorService) : ToolCallReactorService :=
  MkReactor (_handlers r) (_sorted_handlers r) (_session_aliases r) (_session_aliases_last_access r)
    (_tool_definitions_filtered_count r + filtered) (_tool_calls_blocked_count r + blocked)
    (_tool_calls_allowed_count r + allowed) (_tool_argument_repair_stats r).

Definition increment_tool_definitions_filtered (count : Z) := increment_counts count 0 0.
Definition increment_tool_calls_blocked (count : Z) := increment_counts 0 count 0.
Definition increment_tool_calls_allowed (count : Z) := increment_counts 0 0 count.

Definition record_tool_argument_repair_outcome (outcome : str) (r : ToolCallReactorService) : ToolCallReactorService :=
  match od_get outcome (_tool_argument_repair_stats r) with
  | None => r
  | Some n =>
      MkReactor (_handlers r) (_sorted_handlers r) (_session_aliases r) (_session_aliases_last_access r)
        (_tool_definitions_filtered_count r) (_tool_calls_blocked_count r) (_tool_calls_allowed_count r)
        (od_set outcome (n + 1)%Z (_tool_argument_repair_stats r))
  end.

Definition get_telemetry_stats (r : ToolCallReactorService) : list (str * Z) :=
  [("tool_definitions_filtered", _tool_definitions_filtered_count r); ("tool_calls_blocked", _tool_calls_blocked_count r);
   ("tool_calls_allowed", _tool_calls_allowed_count r)].

(** ** Histories of a reactor *)

Inductive reactor_op : Type :=
| RegisterHandler (handler : IToolCallHandler W)
| UnregisterHandler (handler_name : str)
| ProcessToolCall (fresh : str) (now : Q) (context : ToolCallContext)
| CountCalls (filtered blocked allowed : Z)
| CountRepair (outcome : str).

Definition with_reactor (f : ToolCallReactorService → ToolCallReactorService) (s : reactor_state) : reactor_state :=
  MkReactorState (f (rs_reactor s)) (rs_tracker s) (rs_handlers s).

Definition run_reactor_op (s : reactor_state) (op : reactor_op) : reactor_state :=
  match op with
  | RegisterHandler handler => with_reactor (λ r, (register_handler handler r).2) s
  | UnregisterHandler name => with_reactor (λ r, (unregister_handler name r).2) s
  | ProcessToolCall fresh now context => (process_tool_call fresh now context s).2
  | CountCalls filtered blocked allowed => with_reactor (increment_counts filtered blocked allowed) s
  | CountRepair outcome => with_reactor (record_tool_argument_repair_outcome outcome) s
  end.

(** A new reactor after some calls. *)
Definition after_ops (t : option tracker) (w : W) (ops : list reactor_op) : reactor_state :=
  foldl run_reactor_op (MkReactorState new_reactor t w) ops.

Definition registered (s : reactor_state) : list (IToolCallHandler W) := (_handlers (rs_reactor s)).*2.

(** ** The state *)

Definition registry_ok (r : ToolCallReactorService) : Prop :=
  od_ok (_handlers r) ∧ Forall (λ e, e.1 = h_name e.2) (_handlers r) ∧
  match _sorted_handlers r with Some hs => hs = py_sorted higher (_handlers r).*2 | None => True end.

Definition aliases_ok (r : ToolCallReactorService) : Prop :=
  od_ok (_session_aliases r) ∧ (_session_aliases r).*1 = (_session_aliases_last_access r).*1 ∧
  Forall (λ e, e.2 = e.1) (_session_aliases r).

Lemma od_pop_fst {A B} k (d : list (str * A)) (d' : list (str * B)) :
  d.*1 = d'.*1 → (od_pop k d).*1 = (od_pop k d').*1.
Proof.
  revert d'. induction d as [|[k1 v] d IH]; intros [|[k2 v'] d'] H; simplify_eq/=; [done|].
  case_decide; csimpl; [done|]. f_equal. by apply IH.
Qed.

Lemma od_del_fst {A B} ks (d : list (str * A)) (d' : list (str * B)) :
  d.*1 = d'.*1 → (od_del ks d).*1 = (od_del ks d').*1.
Proof.
  unfold od_del. revert d d'. induction ks as [|k ks IH]; intros d d' H; simpl; [done|]. by apply IH, od_pop_fst.
Qed.

Lemma pop_aliases_ok ks r : aliases_ok r → aliases_ok (pop_aliases ks r).
Proof.
  intros (H1 & H2 & H3). split_and!; simpl; [by apply od_del_ok|by apply od_del_fst|].
  apply Forall_forall. intros e He. eapply Forall_forall in H3; [done|]. by eapply elem_of_sublist, od_del_sublist.
Qed.

Lemma cleanup_aliases_ok now r :
  aliases_ok r →
  aliases_ok (_cleanup_expired_session_aliases_locked now r) ∧
  length (_session_aliases (_cleanup_expired_session_aliases_locked now r)) ≤ max_session_aliases.
Proof.
  intros Hr. unfold _cleanup_expired_session_aliases_locked. cbv zeta.
  set (ks := (filter _ (_session_aliases_last_access r)).*1). apply (pop_aliases_ok ks) in Hr.
  set (r1 := pop_aliases ks r) in *. destruct (Nat.ltb_spec max_session_aliases (length (_session_aliases r1))); [|done].
  split; [by apply pop_aliases_ok|]. destruct Hr as (H1 & H2 & H3). simpl.
  assert ((py_sorted older (_session_aliases_last_access r1)).*1 ≡ₚ (_session_aliases r1).*1) as Hp.
  { rewrite H2. by rewrite py_sorted_perm. }
  simpl in Hp. rewrite od_del_length //.
  - eapply sublist_NoDup; [|apply sublist_take]. by rewrite Hp.
  - intros k Hk%elem_of_take. destruct Hk as (i & Hk & _). apply list_elem_of_lookup_2 in Hk. by rewrite Hp in Hk.
  - rewrite length_take Hp length_fmap. lia.
Qed.

Lemma resolve_session_spec raw fresh now r :
  aliases_ok r →
  (resolve_session raw fresh now r).1 = (if is_empty raw then fresh else raw) ∧
  aliases_ok (resolve_session raw fresh now r).2 ∧
  (length (_session_aliases r) ≤ max_session_aliases →
   length (_session_aliases (resolve_session raw fresh now r).2) ≤ max_session_aliases).
Proof.
  intros Hr. unfold resolve_session. destruct (is_empty raw); [done|]. cbv zeta.
  destruct (cleanup_aliases_ok now r Hr) as [(H1 & H2 & H3) _].
  set (r1 := _cleanup_expired_session_aliases_locked now r) in *. unfold od_mem.
  destruct (od_get raw (_session_aliases r1)) as [v|] eqn:Hg; cbn [fst snd].
  - assert (v = raw) as ->. { apply od_get_Some_elem in Hg. exact (proj1 (Forall_forall _ _) H3 _ Hg). }
    rewrite Hg. assert (is_Some (od_get raw (_session_aliases_last_access r1))) as Hs.
    { destruct (od_get raw (_session_aliases_last_access r1)) eqn:Hn; [by eexists|]. apply od_get_None in Hn.
      rewrite -H2 in Hn. destruct Hn. apply od_get_Some_elem in Hg. apply list_elem_of_fmap. by exists (raw, raw). }
    split; [done|]. destruct (cleanup_aliases_ok now
      (set_aliases (_session_aliases r1) (od_set raw now (_session_aliases_last_access r1)) r1)) as [? ?]; [|done].
    split_and!; simpl; [done|by rewrite od_set_keys|done].
  - rewrite od_get_set_eq. split; [done|]. destruct (cleanup_aliases_ok now
      (set_aliases (od_set raw raw (_session_aliases r1)) (od_set raw now (_session_aliases_last_access r1)) r1)) as [? ?]; [|done].
    assert (od_get raw (_session_aliases_last_access r1) = None) as Hn.
    { apply od_get_None. rewrite -H2. by apply od_get_None. }
    split_and!; simpl; [by apply od_set_ok| |by apply od_set_Forall].
    rewrite !od_set_new // !fmap_app /=. by rewrite H2.
Qed.

Lemma resolve_session_handlers raw fresh now r :
  _handlers (resolve_session raw fresh now r).2 = _handlers r ∧
  _sorted_handlers (resolve_session raw fresh now r).2 = _sorted_handlers r.
Proof.
  assert (∀ now r, _handlers (_cleanup_expired_session_aliases_locked now r) = _handlers r ∧
    _sorted_handlers (_cleanup_expired_session_aliases_locked now r) = _sorted_handlers r) as Hc.
  { intros n q. unfold _cleanup_expired_session_aliases_locked. by case_match. }
  unfold resolve_session. case_match; [done|]. simpl.
  split; [rewrite (proj1 (Hc _ _)) /=; apply Hc|rewrite (proj2 (Hc _ _)) /=; apply Hc].
Qed.

Lemma sorted_handlers_spec r :
  registry_ok r →
  (_get_sorted_handlers r).1 = py_sorted higher (_handlers r).*2 ∧ registry_ok (_get_sorted_handlers r).2 ∧
  _handlers (_get_sorted_handlers r).2 = _handlers r.
Proof.
  intros (H1 & H2 & H3). unfold _get_sorted_handlers. destruct (_sorted_handlers r) as [hs|] eqn:Hs; simpl.
  - unfold registry_ok. by rewrite Hs.
  - done.
Qed.

Definition reactor_ok (r : ToolCallReactorService) : Prop :=
  registry_ok r ∧ aliases_ok r ∧ length (_session_aliases r) ≤ max_session_aliases.

Lemma register_ok h r : reactor_ok r → reactor_ok (register_handler h r).2.
Proof.
  intros Hr. unfold register_handler. destruct (od_mem (h_name h) (_handlers r)); [done|].
  destruct Hr as ((H1 & H2 & _) & Ha).
  split; [|done]. split_and!; simpl; [by apply od_set_ok|by apply od_set_Forall|done].
Qed.

Lemma unregister_ok n r : reactor_ok r → reactor_ok (unregister_handler n r).2.
Proof.
  intros Hr. unfold unregister_handler. destruct (od_mem n (_handlers r)); [|done].
  destruct Hr as ((H1 & H2 & _) & Ha).
  split; [|done]. split_and!; simpl; [by apply od_pop_ok| |done].
  apply Forall_forall. intros e He. apply (proj1 (Forall_forall _ _) H2). by eapply elem_of_sublist, od_pop_sublist.
Qed.

Lemma process_spec fresh now context s :
  reactor_ok (rs_reactor s) →
  ask_handlers context (py_sorted higher (registered s)) (rs_handlers s)
    = ((process_tool_call fresh now context s).1, rs_handlers (process_tool_call fresh now context s).2) ∧
  reactor_ok (rs_reactor (process_tool_call fresh now context s).2).
Proof.
  intros (Hr & Ha & Hl). unfold process_tool_call, registered.
  destruct (resolve_session_spec (tcx_session_id context) fresh now _ Ha) as (_ & Ha' & Hl').
  destruct (resolve_session_handlers (tcx_session_id context) fresh now (rs_reactor s)) as [Hh Hs].
  destruct (resolve_session (tcx_session_id context) fresh now (rs_reactor s)) as [session r]. simpl in *.
  assert (registry_ok r) as Hr' by (unfold registry_ok; by rewrite Hh Hs).
  destruct (sorted_handlers_spec r Hr') as (H1 & H2 & H3).
  assert (_session_aliases (_get_sorted_handlers r).2 = _session_aliases r ∧
          _session_aliases_last_access (_get_sorted_handlers r).2 = _session_aliases_last_access r) as [E1 E2].
  { unfold _get_sorted_handlers. by case_match. }
  destruct (_get_sorted_handlers r) as [hs r']. simpl in *. subst hs. rewrite Hh.
  destruct (ask_handlers context _ (rs_handlers s)) as [result w]. simpl. split; [done|].
  split; [done|]. unfold aliases_ok. rewrite E1 E2. split; [done|]. by apply Hl'.
Qed.

Lemma after_ops_ok t w ops : reactor_ok (rs_reactor (after_ops t w ops)).
Proof.
  unfold after_ops. assert (reactor_ok new_reactor) as H0.
  { repeat split; simpl; try constructor. lia. }
  change (rs_reactor (MkReactorState new_reactor t w)) with new_reactor in H0.
  revert H0. change new_reactor with (rs_reactor (MkReactorState new_reactor t w)) at 1.
  generalize (MkReactorState new_reactor t w). induction ops as [|op ops IH]; intros s Hs; [done|]. simpl. apply IH.
  destruct op as [h|n|fresh now c|a b c|o]; simpl.
  - by apply register_ok.
  - by apply unregister_ok.
  - by apply process_spec.
  - done.
  - unfold record_tool_argument_repair_outcome. by case_match.
Qed.

(** ** Who answers *)

(** The handlers in turn, each in the state the one before left, decline a call (they
    cannot handle it, do not swallow it or raise an [Exception]); the state after. *)
Fixpoint all_decline (context : ToolCallContext) (handlers : list (IToolCallHandler W)) (w : W) : option W :=
  match handlers with
  | [] => Some w
  | h :: handlers' =>
      match ask_handler context h w with
      | (Ok None, w') => all_decline context handlers' w'
      | _ => None
      end
  end.

Lemma ask_handlers_spec context hs w :
  let '(outcome, w') := ask_handlers context hs w in
  match outcome with
  | Ok None => all_decline context hs w = Some w'
  | _ => ∃ before h after w1, hs = before ++ h :: after ∧ all_decline context before w = Some w1 ∧
           ask_handler context h w1 = (outcome, w')
  end.
Proof.
  revert w. induction hs as [|h hs IH]; intros w; [done|]. simpl. unfold mbind, stm_bind.
  destruct (ask_handler context h w) as [[[r|]|e] w1] eqn:Hh; simpl; [by exists [], h, hs, w| |by exists [], h, hs, w].
  specialize (IH w1). destruct (ask_handlers context hs w1) as [outcome w2].
  assert (∀ P : Prop, (∃ before h0 after w0, hs = before ++ h0 :: after ∧ all_decline context before w1 = Some w0 ∧
    ask_handler context h0 w0 = (outcome, w2)) → ∃ before h0 after w0, h :: hs = before ++ h0 :: after ∧
      all_decline context before w = Some w0 ∧ ask_handler context h0 w0 = (outcome, w2)) as Hcons.
  { intros _ (before & h0 & after & w0 & -> & Hd & Ha). exists (h :: before), h0, after, w0.
    split; [done|]. simpl. by rewrite Hh. }
  destruct outcome as [[r|]|e]; [by apply (Hcons True)|done|by apply (Hcons True)].
Qed.

Lemma higher_trans x y z : higher x y = true → higher y z = true → higher x z = true.
Proof. unfold higher. rewrite !Z.leb_le. lia. Qed.

Lemma higher_total x y : higher x y = false → higher y x = true.
Proof. unfold higher. rewrite Z.leb_le Z.leb_gt. lia. Qed.

(** The handlers by falling priority, those with the same in the order of [l]. *)
Definition priority_order (l order : list (IToolCallHandler W)) : Prop :=
  order ≡ₚ l ∧ StronglySorted (λ a b, h_priority b <= h_priority a)%Z order ∧
  ∀ p, filter (λ h, h_priority h = p) order = filter (λ h, h_priority h = p) l.

Lemma sorted_priority_order l : priority_order l (py_sorted higher l).
Proof.
  split_and!; [apply py_sorted_perm| |].
  - induction (py_sorted_sorted higher higher_trans higher_total l) as [|x k Hk IH Hx]; constructor; [done|].
    eapply Forall_impl; [exact Hx|]. intros y. apply Z.leb_le.
  - intros p. apply py_sorted_stable. intros x y Hx Hy. unfold higher. apply Z.leb_le. lia.
Qed.

(** C33: Whatever was registered, removed and processed before, and whatever state the
    handlers are in: there is the order of the registered handlers by falling
    priority, earlier registrations first among equals, such that a tool call that
    is swallowed is swallowed with the result of the first handler in this order
    that swallows it, each asked in the state the ones before it left; all the
    handlers before it declined (a handler that raises declines), and those behind it
    were not asked.  The call passes only if every handler declined; and the
    cancellation of a handler's task goes through at the first handler it meets. *)
Theorem highest_priority_swallows t w ops fresh now context :
  let s := after_ops t w ops in
  ∃ order, priority_order (registered s) order ∧
  let '(outcome, s') := process_tool_call fresh now context s in
  match outcome with
  | Ok None => all_decline context order (rs_handlers s) = Some (rs_handlers s')
  | _ => ∃ before h after w1, order = before ++ h :: after ∧
           all_decline context before (rs_handlers s) = Some w1 ∧
           ask_handler context h w1 = (outcome, rs_handlers s')
  end.
Proof.
  intros s. exists (py_sorted higher (registered s)). split; [apply sorted_priority_order|].
  destruct (process_spec fresh now context s (after_ops_ok t w ops)) as [Heq _].
  pose proof (ask_handlers_spec context (py_sorted higher (registered s)) (rs_handlers s)) as Hs.
  destruct (process_tool_call fresh now context s) as [outcome s']. simpl in Heq. by rewrite Heq in Hs.
Qed.

(** The session ids under which calls are recorded are those of the calls (a call
    without one gets an id of its own): the alias table changes nothing, and it never
    holds more than [max_session_aliases] entries. *)
Theorem aliases_are_transparent t w ops raw fresh now :
  let r := rs_reactor (after_ops t w ops) in
  (resolve_session raw fresh now r).1 = (if is_empty raw then fresh else raw) ∧
  length (_session_aliases r) ≤ max_session_aliases.
Proof.
  intros r. destruct (after_ops_ok t w ops) as (_ & Ha & Hl). split; [|done]. by apply resolve_session_spec.
Qed.

End reactor.

(** ** Examples *)

Definition example_tool_call : ToolCallContext := MkToolCallContext "s" "openai" "gpt-4" JNull "bash" (JDict []) None None.
Definition example_swallows (text : str) : ToolCallReactionResult := MkReaction true (Some text) None.
Definition example_handler (name : str) (priority : Z) (answer : res handler_exn ToolCallReactionResult) : IToolCallHandler unit :=
  MkHandler name priority (λ _, mret true) (λ _ w, (answer, w)).

(** A handler that counts the calls it was asked about, and swallows from the second
    on. *)
Definition counting_handler (name : str) (priority : Z) : IToolCallHandler nat :=
  MkHandler name priority (λ _ n, (Ok true, S n))
    (λ _ n, (Ok (MkReaction (1 <? n) (Some name) None), n)).

(** Four handlers: one raises, one passes the call, two swallow it. *)
Example high_priority_sample :
  (process_tool_call 3600 10 3600 10 100 (λ _, "") (λ _, None) "fresh" 1 example_tool_call
     (after_ops 3600 10 3600 10 100 (λ _, "") (λ _, None) (Some empty_tracker) tt
        [RegisterHandler (example_handler "low" 5 (Ok (example_swallows "low"))); RegisterHandler (example_handler "broken" 90 (Err HandlerError));
         RegisterHandler (example_handler "high" 50 (Ok (example_swallows "high")));
         RegisterHandler (example_handler "lenient" 70 (Ok (MkReaction false None None)));
         RegisterHandler (example_handler "low" 99 (Ok (example_swallows "again")))])).1 =
  Ok (Some (example_swallows "high")).
Proof. vm_compute. reflexivity. Qed.

(** The same call again finds the handlers in other states: two are asked about the
    first, of which the second swallows it, one about the next. *)
Example stateful_handlers_sample :
  let s := after_ops 3600 10 3600 10 100 (λ _, "") (λ _, None) None 0
    [RegisterHandler (counting_handler "first" 2); RegisterHandler (counting_handler "second" 1)] in
  let '(outcome, s) := process_tool_call 3600 10 3600 10 100 (λ _, "") (λ _, None) "fresh" 1 example_tool_call s in
  let '(outcome', s) := process_tool_call 3600 10 3600 10 100 (λ _, "") (λ _, None) "fresh" 2 example_tool_call s in
  outcome = Ok (Some (example_swallows "second")) ∧ outcome' = Ok (Some (example_swallows "first")) ∧ rs_handlers s = 3.
Proof. vm_compute. done. Qed.
