(* ===== verification/ToolArguments.v ===== *)
(** * Tool arguments

    How the tool call reactor reads the arguments of a call:
    [src/core/services/tool_call_reactor/arguments_parser.py] with
    [normalize_tool_arguments] of
    [src/core/interfaces/tool_call_reactor_internal.py], and the fixups of
    [arguments_fixup_pipeline.py]: [fixups/droid_path_fixup.py] and
    [src/core/services/windows_double_ampersand_fixer.py].

    [json.loads], the [json_repair] package and [str] of values that are no strings
    are parameters.  The platform of the proxy is POSIX. *)

From Stdlib Require Import Ascii.
From S2P Require Import Prelude PyStr PyDict FileSandbox ToolReactor.
From stdpp Require Import options.

Inductive ParseOutcome : Type := Success | Recovered | Failed.

#[global] Instance ParseOutcome_eq_dec : EqDecision ParseOutcome.
Proof. solve_decision. Defined.

Definition outcome_text (o : ParseOutcome) : str :=
  match o with Success => "success" | Recovered => "recovered" | Failed => "failed" end.

Record ToolArgumentsEnvelope : Type := MkEnvelope {
  parse_outcome : ParseOutcome;
  raw_arguments : option str;
  normalized_arguments : list (str * json);
  was_modified_by_fixups : bool
}.

(** ** The parser *)

Section parser.
Context (json_loads : str → option json) (repair_json : str → option str) (str_of : json → str).

Definition PROXY_ARGS_LIST_KEY : str := "__proxy_args_list__".
Definition PROXY_ARGS_RAW_KEY : str := "__proxy_args_raw__".

(** The wrapping of a value that was parsed from [raw_text]. *)
Definition wrap_parsed (parsed_value : json) (raw_text : str) : list (str * json) :=
  match parsed_value with
  | JDict d => d
  | JList l => [(PROXY_ARGS_LIST_KEY, JList l)]
  | _ => [(PROXY_ARGS_RAW_KEY, JStr raw_text)]
  end.

(** [None] is a value that the parse did not give, or gave as [None]. *)
Definition parsed_or_none (v : option json) : option json := match v with Some JNull => None | v => v end.

Definition normalize_tool_arguments (raw_input : json) (outcome : option ParseOutcome) : ToolArgumentsEnvelope :=
  match raw_input with
  | JDict d => MkEnvelope (default Success outcome) None d false
  | JList l => MkEnvelope (default Success outcome) None [(PROXY_ARGS_LIST_KEY, JList l)] false
  | JStr raw_text =>
      let '(parsed_value, outcome) :=
        match outcome with
        | Some o => (None, o)
        | None =>
            match json_loads raw_text with
            | Some v => (parsed_or_none (Some v), Success)
            | None =>
                match repair_json raw_text ≫= json_loads with
                | Some v => (parsed_or_none (Some v), Recovered)
                | None => (None, Failed)
                end
            end
        end in
      match parsed_value with
      | Some v => MkEnvelope outcome (Some raw_text) (wrap_parsed v raw_text) false
      | None => MkEnvelope outcome (Some raw_text) [(PROXY_ARGS_RAW_KEY, JStr raw_text)] false
      end
  | _ => MkEnvelope (default Failed outcome) (Some (str_of raw_input)) [(PROXY_ARGS_RAW_KEY, JStr (str_of raw_input))] false
  end.

Definition MAX_JSON_REPAIR_INPUT_SIZE : N := 1048576.

Definition with_raw (raw : str) (e : ToolArgumentsEnvelope) : ToolArgumentsEnvelope :=
  MkEnvelope (parse_outcome e) (Some raw) (normalized_arguments e) (was_modified_by_fixups e).

(** The texts that are tried, the repaired one first. *)
Definition candidates (raw : str) : list str :=
  let repaired := if (MAX_JSON_REPAIR_INPUT_SIZE <? utf8_len raw)%N then [] else option_list (repair_json raw) in
  if str_in raw repaired then repaired else repaired ++ [raw].

Fixpoint parse_candidates (raw : str) (texts : list str) : ToolArgumentsEnvelope :=
  match texts with
  | [] => normalize_tool_arguments (JStr raw) (Some Failed)
  | text :: texts' =>
      match json_loads text with
      | Some parsed => with_raw raw (normalize_tool_arguments parsed (Some Success))
      | None => parse_candidates raw texts'
      end
  end.

Definition _parse_string (raw : str) : ToolArgumentsEnvelope :=
  if is_empty (strip raw) then with_raw raw (normalize_tool_arguments (JDict []) (Some Success))
  else parse_candidates raw (candidates raw).

(** [parse]; the outcome is what the telemetry callback is given. *)
Definition parse_arguments (raw : json) : ToolArgumentsEnvelope :=
  match raw with
  | JStr s => _parse_string s
  | _ => normalize_tool_arguments raw None
  end.
End parser.

(** ** Double ampersands for Windows clients *)

Definition COMMAND_EXECUTION_TOOLS : list str :=
  ["execute"; "run_command"; "bash"; "shell"; "terminal"; "exec"; "run"; "execute_command"; "cmd"; "powershell"; "command";
   "run_terminal_command"; "execute_bash"; "run_shell"; "run_in_terminal"; "execute_shell"; "shell_exec"; "terminal_command"].

Definition FILE_EDITING_TOOLS : list str :=
  ["write_file"; "edit"; "create"; "str_replace"; "patch_file"; "apply_diff"; "multiedit"; "insert_content"; "replace_lines";
   "replace_in_file"; "write_to_file"; "fs_write_text_file"; "fs/write_text_file"; "patchfile"; "strreplace"; "multi_edit";
   "read"; "read_file"; "grep"; "glob"; "ls"; "todowrite"].

Definition normalized_tool_name (tool_name : str) : str :=
  replace_char "/" "_" (replace_char "-" "_" (lower tool_name)).

Definition is_command_execution_tool (tool_name : str) : bool :=
  negb (is_empty tool_name) && str_in (normalized_tool_name tool_name) COMMAND_EXECUTION_TOOLS.
Definition is_file_editing_tool (tool_name : str) : bool :=
  negb (is_empty tool_name) && str_in (normalized_tool_name tool_name) FILE_EDITING_TOOLS.

Definition is_windows_client (client_os : option str) : bool :=
  match client_os with
  | None | Some "" => false
  | Some os => let lower_os := lower os in
      if str_contains "darwin" lower_os then false else str_contains "win" lower_os || str_contains "windows" lower_os
  end.

Definition should_process (enabled : bool) (tool_name : str) (client_os : option str) : bool :=
  if negb enabled then false
  else if negb (is_windows_client client_os) then false
  else if is_file_editing_tool tool_name then false
  else is_command_execution_tool tool_name.

(** [re.sub(r"\s*&&\s*", " ; ", s)]: at a position where only whitespace stands before
    two ampersands they are replaced with the whitespace around them. *)
Fixpoint sub_ampersands (fuel : nat) (s : str) : str :=
  match fuel with
  | O => s
  | S fuel =>
      match s with
      | "" => ""
      | String c s' =>
          if startswith "&&" (lstrip s) then " ; " +:+ sub_ampersands fuel (lstrip (str_drop 2 (lstrip s)))
          else String c (sub_ampersands fuel s')
      end
  end.

(** The fixed command, if it was modified. *)
Definition fix_command_string (command : str) : option str :=
  if str_contains "&&" command then Some (sub_ampersands (String.length command) command) else None.

Inductive key_path : Type := OneKey (key : str) | TwoKeys (outer_key key : str).

Definition command_text (d : list (str * json)) (key : str) : option str :=
  match od_get key d with Some (JStr s) => if is_empty (strip s) then None else Some s | _ => None end.

Fixpoint first_command {A} (f : A → option (str * key_path)) (l : list A) : option (str * key_path) :=
  match l with
  | [] => None
  | x :: l' => match f x with Some r => Some r | None => first_command f l' end
  end.

(** [_extract_command_string] of a dictionary. *)
Definition _extract_command_string (d : list (str * json)) : option (str * key_path) :=
  match first_command (λ key, s ← command_text d key; Some (s, OneKey key)) ["command"; "cmd"; "script"; "shell_command"] with
  | Some r => Some r
  | None =>
      first_command (λ outer_key,
        match od_get outer_key d with
        | Some (JDict inner) =>
            first_command (λ key, s ← command_text inner key; Some (s, TwoKeys outer_key key)) ["command"; "cmd"]
        | _ => None
        end) ["input"; "body"; "data"]
  end.

Definition set_if_present (key : str) (v : json) (d : list (str * json)) : list (str * json) :=
  if od_mem key d then od_set key v d else d.

Definition _set_nested_value (d : list (str * json)) (path : key_path) (v : json) : list (str * json) :=
  match path with
  | OneKey key => set_if_present key v d
  | TwoKeys outer_key key =>
      match od_get outer_key d with
      | Some (JDict inner) => od_set outer_key (JDict (set_if_present key v inner)) d
      | _ => d
      end
  end.

(** [fix_tool_arguments] of a dictionary: the new one, if it was modified. *)
Definition fix_tool_arguments (enabled : bool) (d : list (str * json)) (tool_name : str) (client_os : option str) :
    option (list (str * json)) :=
  if should_process enabled tool_name client_os then
    '(command, path) ← _extract_command_string d;
    fixed_command ← fix_command_string command;
    Some (_set_nested_value d path (JStr fixed_command))
  else None.

(** ** Paths of Droid agents *)

Definition PATH_KEYS : list str := ["file_path"; "path"; "AbsolutePath"; "filepath"; "File"].

Definition should_apply (calling_agent : option str) : bool :=
  match calling_agent with
  | None | Some "" => false
  | Some a => str_contains "droid" (lower a) || str_contains "factory" (lower a)
  end.

Fixpoint _extract_path (keys : list str) (d : list (str * json)) : option (str * str) :=
  match keys with
  | [] => None
  | key :: keys' =>
      match od_get key d with
      | Some (JStr v) => if is_empty (strip v) then _extract_path keys' d else Some (strip v, key)
      | _ => _extract_path keys' d
      end
  end.

Definition is_letter (c : ascii) : bool :=
  let n := nat_of_ascii c in ((65 <=? n) && (n <=? 90)) || ((97 <=? n) && (n <=? 122)).

Definition _needs_fix (path : str) : bool :=
  match path with
  | String c (String ":" _) => if is_letter c then false else negb (startswith "\\" path)
  | _ => negb (startswith "\\" path)
  end.

Fixpoint lstrip_separators (s : str) : str :=
  match s with
  | String c s' => if Ascii.eqb c "/" || Ascii.eqb c "\" then lstrip_separators s' else s
  | "" => ""
  end.

(** [cwd] holds the parts of the working directory. *)
Definition _fix_path (cwd : list str) (path : str) : str :=
  let resolved := resolve_dots [] (cwd ++ parts (path_of (lstrip_separators path))) in
  if bool_decide (cwd `prefix_of` resolved) then path_str (MkPath true resolved) else path.

(** [DroidPathFixup.apply]: the new arguments, if they were modified. *)
Definition droid_apply (cwd : list str) (d : list (str * json)) (calling_agent : option str) : option (list (str * json)) :=
  if should_apply calling_agent then
    '(path, key) ← _extract_path PATH_KEYS d;
    let fixed_path := _fix_path cwd path in
    if _needs_fix path && negb (String.eqb fixed_path path) then Some (od_set key (JStr fixed_path) d) else None
  else None.

(** ** The pipeline *)

Record FixupContext : Type := MkFixupContext {
  fc_tool_name : str;
  fc_calling_agent : option str;
  fc_client_os : option str
}.

Definition apply_fixups (cwd : list str) (ampersand_fixer_enabled : bool) (e : ToolArgumentsEnvelope) (context : FixupContext) :
    ToolArgumentsEnvelope :=
  let droid := droid_apply cwd (normalized_arguments e) (fc_calling_agent context) in
  let args := default (normalized_arguments e) droid in
  let windows := fix_tool_arguments ampersand_fixer_enabled args (fc_tool_name context) (fc_client_os context) in
  MkEnvelope (parse_outcome e) (raw_arguments e) (default args windows)
    (was_modified_by_fixups e || bool_decide (is_Some droid) || bool_decide (is_Some windows)).

(** ** Facts *)

Section parser_facts.
Context (json_loads : str → option json) (repair_json : str → option str) (str_of : json → str).

(** A call whose argument text is a JSON object, and is left alone by the repair, has
    this object as its arguments. *)
Lemma object_text_parsed s d :
  strip s ≠ "" → json_loads s = Some (JDict d) → repair_json s = Some s ∨ repair_json s = None →
  parse_arguments json_loads repair_json str_of (JStr s) = MkEnvelope Success (Some s) d false.
Proof.
  intros Hs Hl Hr. simpl. unfold _parse_string. destruct (strip s) eqn:E; [done|]. simpl.
  assert (candidates repair_json s = [s]) as ->.
  { unfold candidates. destruct (_ <? _)%N; simpl; [done|]. destruct Hr as [->| ->]; simpl; [|done]. by rewrite String.eqb_refl. }
  simpl. by rewrite Hl.
Qed.

(** The text of a call that no attempt can parse is kept whole. *)
Lemma unparsable_text_kept s :
  strip s ≠ "" → json_loads s = None → repair_json s ≫= json_loads = None →
  parse_arguments json_loads repair_json str_of (JStr s) =
  MkEnvelope Failed (Some s) [(PROXY_ARGS_RAW_KEY, JStr s)] false.
Proof.
  intros Hs Hl Hr. simpl. unfold _parse_string. destruct (strip s) eqn:E; [done|]. simpl. unfold candidates.
  destruct (_ <? _)%N; simpl; [by rewrite Hl|].
  destruct (repair_json s) as [t|]; simpl in *; [|by rewrite Hl].
  by destruct (String.eqb s t); simpl; rewrite Hr /= ?Hl.
Qed.

(** The outcome [recovered] is never reported: a repaired text counts as a success. *)
Lemma recovered_never_reported raw : parse_outcome (parse_arguments json_loads repair_json str_of raw) ≠ Recovered.
Proof.
  destruct raw as [| | | |s| |]; simpl; try done. unfold _parse_string. destruct (is_empty (strip s)); [done|].
  induction (candidates repair_json s) as [|t l IH]; simpl; [done|].
  destruct (json_loads t) as [[]|]; simpl; done.
Qed.
End parser_facts.

(** ** The ampersands are gone *)

Lemma sub_ampersands_head fuel s : startswith "&" (sub_ampersands fuel s) = true → startswith "&" s = true.
Proof.
  destruct fuel as [|fuel]; [done|]. destruct s as [|c s]; [done|]. cbn [sub_ampersands].
  destruct (startswith "&&" _); simpl; [done|]. by destruct (Ascii.eqb "&" c).
Qed.

Lemma ampersands_not_split c s :
  startswith "&&" (lstrip (String c s)) = false → startswith "&" (String c s) = true → startswith "&" s = false.
Proof.
  simpl. destruct (Ascii.eqb_spec "&" c) as [<-|]; [|done]. simpl. destruct s as [|c' s]; simpl; [done|].
  by destruct (Ascii.eqb "&" c').
Qed.

(** A rewritten command has no double ampersand left. *)
Theorem no_ampersands_left command fixed_command :
  fix_command_string command = Some fixed_command → str_contains "&&" fixed_command = false.
Proof.
  unfold fix_command_string. case_match; [|done]. intros [= <-].
  assert (∀ fuel s, String.length s ≤ fuel → str_contains "&&" (sub_ampersands fuel s) = false) as Hsub; [|by apply Hsub].
  intros fuel. induction fuel as [|fuel IH]; intros s Hl; [by destruct s; simpl in *; [|lia]|].
  destruct s as [|c s]; [done|]. cbn [sub_ampersands]. destruct (startswith "&&" (lstrip (String c s))) eqn:Hm.
  - apply IH. pose proof (lstrip_length (str_drop 2 (lstrip (String c s)))) as H1. rewrite str_drop_length in H1.
    pose proof (lstrip_length (String c s)). simpl String.length in *. lia.
  - specialize (IH s ltac:(simpl in Hl; lia)).
    change (startswith "&&" (String c (sub_ampersands fuel s)) || str_contains "&&" (sub_ampersands fuel s) = false).
    rewrite IH orb_false_r. simpl. destruct (Ascii.eqb_spec "&" c) as [<-|]; [|done]. simpl.
    apply not_true_is_false. intros Hh%sub_ampersands_head. by rewrite (ampersands_not_split "&" s Hm eq_refl) in Hh.
Qed.

Lemma no_ampersands_left_witness :
  fix_command_string "cd src  && make &&& ls" = Some "cd src ; make ; & ls"%string ∧
  str_contains "&&" "cd src ; make ; & ls" = false.
Proof. split; [vm_compute; reflexivity|]. by apply (no_ampersands_left "cd src  && make &&& ls"). Defined.

(** ** Droid paths *)

(** A path that the fixup changes lies in the working directory afterwards, whatever it
    named before. *)
Lemma droid_path_in_cwd cwd path :
  _fix_path cwd path ≠ path → ∃ rest, _fix_path cwd path = path_str (MkPath true (cwd ++ rest)).
Proof.
  unfold _fix_path. case_bool_decide as Hp; [|done]. intros _. destruct Hp as [rest ->]. by exists rest.
Qed.

(** An absolute path of the client is no relative one, but is moved into the proxy's
    working directory all the same; when this lies in the project, the sandbox sees a
    path inside the project, where it would have stopped the path of the client. *)
Theorem rerooted_path_passes_sandbox :
  let args := [("path", JStr "/etc/passwd")]%string in
  let fixed := default args (droid_apply ["home"; "me"; "project"] args (Some "factory-cli/0.9"%string)) in
  fixed = [("path", JStr "/home/me/project/etc/passwd")]%string ∧
  (sample_handle true etc_target "write_file" (JDict fixed) fresh_handler).1 = Allow "allowed" ∧
  passes (sample_handle true etc_target "write_file" (JDict args) fresh_handler).1 = false.
Proof. split_and!; vm_compute; reflexivity. Qed.
