(* ===== verification/ToolCalls.v ===== *)
(** * Tool calls of a response

    How the tool call reactor finds the calls of a response and recognizes those it has
    seen: [extractor.py], [normalizer.py], [deduplicator.py], [stream_buffer_adapter.py]
    and [stream_context_resolver.py] of [src/core/services/tool_call_reactor/], the
    models [ToolCall] and [FunctionCall] of [src/core/domain/chat.py], and
    [src/tool_call_loop/lifecycle_registry.py].

    Contents and metadata of a response are JSON values.  [json.loads], SHA-256 and
    [str] of values that are no strings are parameters, and the cache of the registry
    is the expiring cache of [TTLCache].  An index that is an infinite float, on which
    [int] raises [OverflowError], is left out. *)

From S2P Require Import Prelude PyStr PyDict TTLCache FileSandbox.
From stdpp Require Import options.

(** ** Calls *)

Record ToolCall : Type := MkToolCall {
  tc_id : option str;
  tc_type : str;
  tc_name : option str;
  tc_arguments : option str;
  tc_function_extra : list (str * json);
  tc_extra_content : option (list (str * json));
  tc_extra : list (str * json)
}.

(** A field of type [str | None]. *)
Definition optional_str (key : str) (d : list (str * json)) : option (option str) :=
  match od_get key d with
  | None | Some JNull => Some None
  | Some (JStr s) => Some (Some s)
  | Some _ => None
  end.

(** [ToolCall] of a dictionary's fields; [None] is the validation error. *)
Definition to_tool_call (d : list (str * json)) : option ToolCall :=
  id ← optional_str "id" d;
  type ← match od_get "type" d with None => Some "function" | Some (JStr s) => Some s | Some _ => None end;
  f ← match od_get "function" d with Some (JDict f) => Some f | _ => None end;
  name ← optional_str "name" f;
  arguments ← optional_str "arguments" f;
  extra_content ← match od_get "extra_content" d with
                  | None | Some JNull => Some None
                  | Some (JDict e) => Some (Some e)
                  | Some _ => None
                  end;
  Some (MkToolCall id type name arguments (od_del ["name"; "arguments"] f) extra_content
          (od_del ["id"; "type"; "function"; "extra_content"] d)).

Definition opt_json (s : option str) : json := match s with Some s => JStr s | None => JNull end.

Definition function_dump (tc : ToolCall) : list (str * json) :=
  [("name", opt_json (tc_name tc)); ("arguments", opt_json (tc_arguments tc))] ++ tc_function_extra tc.

Definition model_dump (tc : ToolCall) : list (str * json) :=
  [("id", opt_json (tc_id tc)); ("type", JStr (tc_type tc)); ("function", JDict (function_dump tc))] ++
  match tc_extra_content tc with Some e => [("extra_content", JDict e)] | None => [] end ++ tc_extra tc.

Definition named (tc : ToolCall) : bool := match tc_name tc with Some s => negb (is_empty s) | None => false end.

(** ** Extraction *)

Record ProcessedResponse : Type := MkResponse {
  pr_content : json;
  pr_usage : json;
  pr_metadata : list (str * json)
}.

Definition is_dict (j : json) : bool := match j with JDict _ => true | _ => false end.

Section extraction.
Context (json_loads : str → option json).

Definition message_calls (choice : json) : list json :=
  match choice with
  | JDict c =>
      match od_get "message" c with
      | Some (JDict message) =>
          match od_get "tool_calls" message with
          | Some (JList l) => if forallb is_dict l then l else []
          | _ => []
          end
      | _ => []
      end
  | _ => []
  end.

Definition has_function (j : json) : bool := match j with JDict d => od_mem "function" d | _ => false end.

Definition _extract_from_content (content : json) : list json :=
  match (match content with JStr s => json_loads s | _ => Some content end) with
  | Some (JDict d) => match od_get "choices" d with Some (JList choices) => choices ≫= message_calls | _ => [] end
  | Some (JList l) => if forallb has_function l then l else []
  | _ => []
  end.

(** A [ProcessedResponse] has no attribute [tool_calls]. *)
Definition extract (response : ProcessedResponse) : list json :=
  match od_get "tool_calls" (pr_metadata response) with
  | Some (JList meta_calls) => meta_calls
  | _ => if truthy (Some (pr_content response)) then _extract_from_content (pr_content response) else []
  end.
End extraction.

(** [normalize], and the test that its result is not empty. *)
Definition normalize (tool_call : json) : option (list (str * json)) :=
  match tool_call with JDict (e :: d) => Some (e :: d) | _ => None end.

(** ** Signatures *)

Section signatures.
Context (sha256 : str → str) (str_of : json → str).

Definition none_text (s : option str) : str := default "None" s.

(** [f"{int(idx)}"], or the text of what is no integer. *)
Definition index_text (idx : json) : str :=
  match idx with
  | JInt z => str_of_Z z
  | JBool b => if b then "1" else "0"
  | JStr s => match py_int s with Some z => str_of_Z z | None => s end
  | JFloat x => match int_of_float x with Ok z => str_of_Z z | Err _ => str_of idx end
  | _ => str_of idx
  end.

Definition index_of (tc : ToolCall) : option json :=
  match od_get "index" (tc_extra tc) with Some JNull => None | idx => idx end.

(** [build_tool_call_signature] of a call without an id. *)
Definition build_tool_call_signature (tc : ToolCall) : str :=
  match index_of tc, named tc with
  | Some index, true => "idx:" +:+ text_of str_of index +:+ ":" +:+ none_text (tc_name tc)
  | _, _ =>
      let name := none_text (tc_name tc) in
      name +:+ ":" +:+ sha256 (name +:+ ":" +:+ none_text (tc_arguments tc))
  end.

Definition build_reactor_processing_signature (tc : ToolCall) (is_streaming : bool) : str :=
  match is_streaming && named tc, index_of tc with
  | true, Some idx => "idx:" +:+ index_text idx +:+ ":" +:+ none_text (tc_name tc)
  | _, _ =>
      match tc_id tc with
      | Some (String c id) => String c id
      | _ => build_tool_call_signature tc
      end
  end.
End signatures.

(** ** The lifecycle registry *)

Record ToolCallStreamState : Type := MkStreamState {
  inflight_signatures : gset str;
  processed_signatures : gset str
}.

Section registry.
Context {C : Type} `{TTLCache str ToolCallStreamState C}.
Context (now : Q).

Definition stream_of (stream_key : str) : str := if is_empty stream_key then "anonymous-stream" else stream_key.

Definition add_inflight (signature : str) (st : ToolCallStreamState) : ToolCallStreamState :=
  MkStreamState ({[ signature ]} ∪ inflight_signatures st) (processed_signatures st).
Definition add_processed (signature : str) (st : ToolCallStreamState) : ToolCallStreamState :=
  MkStreamState (inflight_signatures st ∖ {[ signature ]}) ({[ signature ]} ∪ processed_signatures st).

(** The state object of a stream is created in the cache and changed in place. *)
Definition register_detection (stream_key signature : str) (registry : C) : bool * C :=
  let key := stream_of stream_key in
  match cget now key registry with
  | None => (true, cset now key (MkStreamState {[ signature ]} ∅) registry)
  | Some st =>
      if bool_decide (signature ∈ inflight_signatures st) || bool_decide (signature ∈ processed_signatures st)
      then (false, registry)
      else (true, cmutate now (add_inflight signature) key registry)
  end.

Definition registry_mark_processed (stream_key signature : str) (registry : C) : C :=
  let key := stream_of stream_key in
  match cget now key registry with None => registry | Some _ => cmutate now (add_processed signature) key registry end.

Definition registry_is_processed (stream_key signature : str) (registry : C) : bool :=
  match cget now (stream_of stream_key) registry with
  | None => false
  | Some st => bool_decide (signature ∈ processed_signatures st)
  end.

Definition clear_stream (stream_key : str) (registry : C) : C := cpop now (stream_of stream_key) registry.

(** ** The buffer of a stream, and the deduplicator *)

Record ToolCallBufferState : Type := MkBuffer {
  detected_calls : list (list (str * json));
  reactor_cursor : nat;
  buffer_processed : gset str
}.

Definition consume_new_reactor_calls (b : ToolCallBufferState) : list ToolCall * ToolCallBufferState :=
  if length (detected_calls b) <=? reactor_cursor b then ([], b)
  else (omap to_tool_call (drop (reactor_cursor b) (detected_calls b)),
        MkBuffer (detected_calls b) (length (detected_calls b)) (buffer_processed b)).

Definition buffer_mark_processed (signature : str) (b : ToolCallBufferState) : ToolCallBufferState :=
  MkBuffer (detected_calls b) (reactor_cursor b) ({[ signature ]} ∪ buffer_processed b).

Definition namespaced (signature : str) : str := "reactor:" +:+ signature.

Section dedup.
Context (sha256 : str → str) (str_of : json → str) (is_streaming : bool) (stream_key : str).

Definition signature_of (tc : ToolCall) : str := build_reactor_processing_signature sha256 str_of tc is_streaming.

(** The calls of the response that are new, and the registry with their signatures. *)
Fixpoint new_response_calls (buffer : option ToolCallBufferState) (tool_calls : list ToolCall) (registry : C) :
    list ToolCall * C :=
  match tool_calls with
  | [] => ([], registry)
  | tc :: tool_calls' =>
      let signature := signature_of tc in
      if is_streaming && negb (named tc) then new_response_calls buffer tool_calls' registry
      else if match buffer with Some b => bool_decide (signature ∈ buffer_processed b) | None => false end
      then new_response_calls buffer tool_calls' registry
      else
        let '(is_new, registry1) := register_detection stream_key (namespaced signature) registry in
        let '(new_calls, registry2) := new_response_calls buffer tool_calls' registry1 in
        (if is_new then tc :: new_calls else new_calls, registry2)
  end.

Definition filter_new_calls (tool_calls : list ToolCall) (buffer : option ToolCallBufferState) (registry : C) :
    list ToolCall * option ToolCallBufferState * C :=
  let '(buffered_calls, buffer) :=
    match buffer with
    | Some b => let '(calls, b) := consume_new_reactor_calls b in (calls, Some b)
    | None => ([], None)
    end in
  let '(new_calls, registry) := new_response_calls buffer tool_calls registry in
  (buffered_calls ++ new_calls, buffer, registry).

Definition mark_processed (signature : str) (buffer : option ToolCallBufferState) (registry : C) :
    option ToolCallBufferState * C :=
  let registry := (register_detection stream_key (namespaced signature) registry).2 in
  (buffer_mark_processed signature <$> buffer, registry_mark_processed stream_key (namespaced signature) registry).

Definition is_processed (signature : str) (registry : C) : bool :=
  registry_is_processed stream_key (namespaced signature) registry.
End dedup.
End registry.

(** ** What the registry knows *)

Section knowledge.
Context {C : Type} `{Laws : TTLCacheLaws str ToolCallStreamState C}.
Context (now : Q).

(** The signatures of a stream that were seen, and those that were processed. *)
Definition known (stream_key : str) (registry : C) : gset str :=
  match cget now (stream_of stream_key) registry with
  | None => ∅
  | Some st => inflight_signatures st ∪ processed_signatures st
  end.

Definition processed (stream_key : str) (registry : C) : gset str :=
  match cget now (stream_of stream_key) registry with None => ∅ | Some st => processed_signatures st end.

Lemma processed_known k registry : processed k registry ⊆ known k registry.
Proof. unfold processed, known. destruct (cget now _ registry); [apply union_subseteq_r|done]. Qed.

Lemma cget_now_set k (v : ToolCallStreamState) registry : cget now k (cset now k v registry) = Some v.
Proof using Laws. pose proof (ttl_pos (C := C)). apply cget_set; lra. Qed.

Lemma register_detection_spec k signature registry :
  let '(is_new, registry') := register_detection now k signature registry in
  is_new = bool_decide (signature ∉ known k registry) ∧
  known k registry' = {[ signature ]} ∪ known k registry ∧ processed k registry' = processed k registry.
Proof using Laws.
  unfold register_detection, known, processed. destruct (cget now (stream_of k) registry) as [st|] eqn:Hg.
  - destruct (bool_decide (signature ∈ inflight_signatures st) || bool_decide (signature ∈ processed_signatures st)) eqn:Hb.
    + rewrite Hg. assert (signature ∈ inflight_signatures st ∪ processed_signatures st) as Hin.
      { apply orb_true_iff in Hb as [Hb|Hb]; apply bool_decide_eq_true in Hb; set_solver. }
      split; [symmetry; apply bool_decide_eq_false_2; by intros Hn|]. split; [|done]. apply leibniz_equiv. set_solver.
    + rewrite cget_mutate; [lra|]. rewrite Hg /=. apply orb_false_iff in Hb as [H1 H2].
      apply bool_decide_eq_false in H1, H2. split; [symmetry; apply bool_decide_eq_true_2; set_solver|].
      split; [|done]. apply leibniz_equiv. set_solver.
  - rewrite cget_now_set /=. split_and!; [by rewrite bool_decide_eq_true_2; [set_solver|]| |done]. apply leibniz_equiv. set_solver.
Qed.

Lemma mark_processed_spec k signature buffer registry :
  processed k (mark_processed now k signature buffer registry).2 = {[ namespaced signature ]} ∪ processed k registry.
Proof using Laws.
  unfold mark_processed. simpl. pose proof (register_detection_spec k (namespaced signature) registry) as Hr.
  destruct (register_detection now k (namespaced signature) registry) as [b registry']. destruct Hr as (_ & Hk & Hp).
  simpl. rewrite -Hp. clear Hp. unfold registry_mark_processed.
  assert (is_Some (cget now (stream_of k) registry')) as [st Hg].
  { unfold known in Hk. destruct (cget now (stream_of k) registry'); [by eexists|]. exfalso. set_solver. }
  rewrite Hg. unfold processed. rewrite cget_mutate; [lra|]. by rewrite Hg.
Qed.

Lemma is_processed_spec k signature registry :
  is_processed now k signature registry = bool_decide (namespaced signature ∈ processed k registry).
Proof.
  clear Laws.
  unfold is_processed, registry_is_processed, processed. destruct (cget now (stream_of k) registry); [done|].
  by rewrite bool_decide_eq_false_2; [set_solver|].
Qed.

Lemma namespaced_inj s t : namespaced s = namespaced t → s = t.
Proof. unfold namespaced. by intros [= ?]. Qed.

Section dedup_facts.
Context (sha256 : str → str) (str_of : json → str) (is_streaming : bool).

Notation sig tc := (namespaced (signature_of sha256 str_of is_streaming tc)).

(** The first call with each signature that is not in [seen]. *)
Fixpoint distinct_calls (seen : gset str) (tool_calls : list ToolCall) : list ToolCall :=
  match tool_calls with
  | [] => []
  | tc :: tool_calls' =>
      if is_streaming && negb (named tc) then distinct_calls seen tool_calls'
      else if bool_decide (sig tc ∈ seen) then distinct_calls seen tool_calls'
      else tc :: distinct_calls ({[ sig tc ]} ∪ seen) tool_calls'
  end.

Lemma new_response_calls_spec k tool_calls registry :
  let '(new_calls, registry') := new_response_calls now sha256 str_of is_streaming k None tool_calls registry in
  new_calls = distinct_calls (known k registry) tool_calls ∧ processed k registry' = processed k registry.
Proof using Laws.
  revert registry. induction tool_calls as [|tc tool_calls IH]; intros registry; [done|]. simpl.
  destruct (is_streaming && negb (named tc)); [apply IH|].
  pose proof (register_detection_spec k (sig tc) registry) as Hr.
  destruct (register_detection now k (sig tc) registry) as [is_new registry1]. destruct Hr as (-> & Hk & Hp).
  specialize (IH registry1). destruct (new_response_calls _ _ _ _ _ _ _ _) as [new_calls registry2].
  destruct IH as [-> IH2]. split; [|by rewrite IH2]. rewrite Hk. destruct (decide (sig tc ∈ known k registry)) as [Hin|Hni].
  - rewrite bool_decide_eq_false_2 //; [set_solver|]. rewrite bool_decide_eq_true_2 //. f_equal. apply leibniz_equiv. set_solver.
  - by rewrite bool_decide_eq_true_2 // bool_decide_eq_false_2.
Qed.

Lemma distinct_calls_spec seen tool_calls :
  NoDup ((λ tc, sig tc) <$> distinct_calls seen tool_calls) ∧
  Forall (λ tc, sig tc ∉ seen) (distinct_calls seen tool_calls) ∧ sublist (distinct_calls seen tool_calls) tool_calls.
Proof.
  clear Laws.
  revert seen. induction tool_calls as [|tc tool_calls IH]; intros seen; simpl; [split_and!; constructor|].
  destruct (is_streaming && negb (named tc)).
  { destruct (IH seen) as (H1 & H2 & H3). split_and!; [done..|by constructor]. }
  case_bool_decide as Hin.
  { destruct (IH seen) as (H1 & H2 & H3). split_and!; [done..|by constructor]. }
  destruct (IH ({[ sig tc ]} ∪ seen)) as (H1 & H2 & H3). split_and!; csimpl.
  - constructor; [|done]. intros (tc' & Heq & Hin')%list_elem_of_fmap. apply (proj1 (Forall_forall _ _) H2 _ Hin').
    rewrite -Heq. by apply elem_of_union_l, elem_of_singleton.
  - constructor; [done|]. eapply Forall_impl; [done|]. intros tc' Hni Hin'. by apply Hni, elem_of_union_r.
  - by constructor.
Qed.

(** Calls with signatures of their own that the stream has not seen are all new. *)
Lemma distinct_calls_all seen tool_calls :
  NoDup ((λ tc, sig tc) <$> tool_calls) → Forall (λ tc, sig tc ∉ seen ∧ named tc = true) tool_calls →
  distinct_calls seen tool_calls = tool_calls.
Proof.
  clear Laws.
  revert seen. induction tool_calls as [|tc tool_calls IH]; intros seen Hn Hs; [done|]. csimpl.
  apply NoDup_cons in Hn as [Hn1 Hn2]. apply Forall_cons in Hs as [[Hs1 Hs2] Hs].
  rewrite Hs2 andb_false_r bool_decide_eq_false_2 //. f_equal. apply IH; [done|].
  apply Forall_forall. intros tc' Hin. split; [|by apply (proj1 (Forall_forall _ _) Hs)].
  destruct (proj1 (Forall_forall _ _) Hs _ Hin) as [Hs' _]. assert (sig tc ≠ sig tc'); [|set_solver].
  intros Heq. apply Hn1, list_elem_of_fmap. by exists tc'.
Qed.
End dedup_facts.
End knowledge.

(** ** Stream keys *)

(** [a or b] of two entries. *)
Definition get_or (k1 k2 : str) (d : list (str * json)) : option json :=
  if truthy (od_get k1 d) then od_get k1 d else od_get k2 d.

Definition nonempty_text (v : option json) : option str :=
  match v with Some (JStr (String c s)) => Some (String c s) | _ => None end.

Definition resolve_stream_key (session_id : str) (context : option (list (str * json))) (response : ProcessedResponse) : str :=
  match nonempty_text (get_or "stream_id" "id" (pr_metadata response)) with
  | Some key => key
  | None =>
      match context ≫= λ c, nonempty_text (get_or "stream_id" "response_stream_id" c) with
      | Some key => key
      | None => if is_empty session_id then "anonymous-stream" else session_id
      end
  end.
