(* ===== verification/ToolOrchestrator.v ===== *)
(** * The tool call orchestrator

    [src/core/services/tool_call_reactor/orchestrator.py] and
    [replacement_response_factory.py]: every new tool call of a response is put to the
    reactor, and a response with a call that the reactor swallows is replaced by a
    steering message.

    The orchestrator is written against [IToolCallReactor]; the reactor of
    [ToolReactor] is an instance.  Parameters are those of [ToolArguments] and
    [ToolCalls], [time.time] in seconds, and what the end-of-session service answers.
    Backend, model and agent in the metadata are strings where they are present. *)

From S2P Require Import Prelude PyStr PyDict TTLCache FileSandbox ToolHistory ToolReactor ToolArguments ToolCalls.
From stdpp Require Import options.

(** The interface [IToolCallReactor.process_tool_call]; a result it returns swallows the
    call. *)
Class ToolCallReactor (R : Type) : Type := {
  react : ToolCallContext → stm R handler_exn (option ToolCallReactionResult)
}.

(** The reactor service, at a time and with a supply of session ids. *)
Definition service_reactor {W} (alias_ttl : Q) (max_aliases : nat) (ttl : Q) (max_sessions max_entries : nat)
    (json_dumps : json → str) (json_loads : str → option json) (fresh : str) (now : Q) : ToolCallReactor (@reactor_state W) :=
  {| react := process_tool_call alias_ttl max_aliases ttl max_sessions max_entries json_dumps json_loads fresh now |}.

Definition _DEFAULT_BACKEND_STEERING_MESSAGE : str :=
  "A tool call was blocked by proxy policy. Do not repeat the blocked tool call. Respond to the user with a compliant approach that does not require tools.".

(** ** The replacement *)

Definition _MAX_SWALLOWED_ORIGINAL_CONTENT_CHARS : nat := Z.to_nat 4000.

Definition _truncate_text (value : str) (limit : nat) : str :=
  if String.length value <=? limit then value
  else str_take limit value +:+ String LF "...[truncated]".

Definition dict_items (v : option json) : list json :=
  match v with Some (JList l) => filter (λ j, is_dict j = true) l | _ => [] end.

Definition od_update (d new : list (str * json)) : list (str * json) := foldl (λ d e, od_set e.1 e.2 d) d new.

Definition build_replacement (now : Z) (original_response : ProcessedResponse) (replacement_content : str)
    (original_tool_call : ToolCall) (reaction_metadata : option (list (str * json))) : ProcessedResponse :=
  let merged := pr_metadata original_response in
  let merged :=
    match reaction_metadata with
    | Some m =>
        let existing := match od_get "tool_call_reactor" merged with Some (JDict e) => e | _ => [] end in
        od_set "tool_call_reactor" (JDict (od_update existing m)) merged
    | None => merged
    end in
  let tool_call_dict := JDict (model_dump original_tool_call) in
  let swallowed := dict_items (od_get "tool_calls" merged) ++ [tool_call_dict] in
  let merged := od_pop "tool_calls" merged in
  let merged := od_update merged
    [("tool_call_swallowed", JBool true); ("original_tool_call", tool_call_dict); ("replacement_provided", JBool true);
     ("role", JStr "tool"); ("tool_call_id", opt_json (tc_id original_tool_call)); ("finish_reason", JStr "stop");
     ("tool_name", opt_json (tc_name original_tool_call)); ("steering_message", JStr replacement_content);
     ("swallowed_tool_calls", JList swallowed);
     ("swallowed_original_content",
      match pr_content original_response with
      | JStr s => JStr (_truncate_text s _MAX_SWALLOWED_ORIGINAL_CONTENT_CHARS)
      | _ => JNull
      end);
     ("_steering_replacement", JBool true)] in
  let message := JDict [("role", JStr "assistant"); ("content", JStr replacement_content)] in
  let choice := JDict [("index", JInt 0); ("message", message); ("finish_reason", JStr "stop")] in
  MkResponse
    (JDict [("id", JStr ("chatcmpl-proxy-" +:+ str_of_Z now)); ("object", JStr "chat.completion"); ("created", JInt now);
            ("model", default (JStr "proxy-assistant") (od_get "model" merged)); ("choices", JList [choice]);
            ("usage", pr_usage original_response)])
    (pr_usage original_response) merged.

(** ** The orchestrator *)

Record ToolCallReactorContext : Type := MkReactorContext { rx_client_os : option str; rx_stream_key : option str }.

Section orchestrator.
Context {C R : Type} `{TTLCache str ToolCallStreamState C} `{ToolCallReactor R}.
Context (json_loads : str → option json) (repair_json : str → option str) (str_of : json → str) (sha256 : str → str).
Context (working_directory : list str) (ampersand_fixer_enabled : bool).
(** [has_ended], [None] where there is no such service or it raises. *)
Context (has_ended : str → option bool).
Context (now : Q) (epoch : Z).

Record orchestrator_state : Type := MkOrchestrator {
  os_registry : C;
  os_buffer : option ToolCallBufferState;
  os_reactor : R
}.

Definition _should_reset_stream_state (response : ProcessedResponse) (is_streaming : bool) : bool :=
  if truthy (od_get "is_done" (pr_metadata response)) then true
  else if is_streaming then false
  else match od_get "finish_reason" (pr_metadata response) with
       | Some (JStr s) => str_in s ["stop"; "length"; "tool_calls"]
       | _ => false
       end.

Definition _reset_stream_state_if_needed (stream_key : str) (response : ProcessedResponse) (is_streaming : bool)
    (s : orchestrator_state) : orchestrator_state :=
  if _should_reset_stream_state response is_streaming
  then MkOrchestrator (clear_stream now stream_key (os_registry s)) (os_buffer s) (os_reactor s) else s.

Definition text_or (default_text : str) (key : str) (d : list (str * json)) : str :=
  match as_str (od_get key d) with Some s => if is_empty s then default_text else s | None => default_text end.

(** The arguments as the reactor gets them. *)
Definition reactor_arguments (context : ToolCallReactorContext) (metadata : list (str * json)) (tool_name : str) (tc : ToolCall) :
    ToolArgumentsEnvelope :=
  apply_fixups working_directory ampersand_fixer_enabled
    (parse_arguments json_loads repair_json str_of (opt_json (tc_arguments tc)))
    (MkFixupContext tool_name (as_str (od_get "calling_agent" metadata)) (rx_client_os context)).

(** [_write_back_modified_arguments]: it changes the dictionary it is given, which is a
    dump of the call made for this purpose; the response keeps its own. *)
Definition _write_back_modified_arguments (json_dumps : json → str) (tool_call : list (str * json))
    (new_arguments : list (str * json)) : list (str * json) :=
  match od_get "function" tool_call with
  | Some (JDict f) =>
      let value := match od_get "arguments" f with Some (JStr _) => JStr (json_dumps (JDict new_arguments))
                   | _ => JDict new_arguments end in
      od_set "function" (JDict (od_set "arguments" value f)) tool_call
  | _ => tool_call
  end.

Definition tool_context (session_id : str) (context : ToolCallReactorContext) (response : ProcessedResponse)
    (tool_name : str) (tc : ToolCall) : ToolCallContext :=
  let metadata := pr_metadata response in
  MkToolCallContext session_id (text_or "unknown" "backend_name" metadata) (text_or "unknown" "model_name" metadata)
    (pr_content response) tool_name (JDict (normalized_arguments (reactor_arguments context metadata tool_name tc)))
    (as_str (od_get "calling_agent" metadata)) None.

Definition steering_message (result : ToolCallReactionResult) : str :=
  match replacement_response result with
  | Some text => if is_empty (strip text) then _DEFAULT_BACKEND_STEERING_MESSAGE else text
  | None => _DEFAULT_BACKEND_STEERING_MESSAGE
  end.

(** [ToolCallReactionMetadata] from the metadata of a result, if there is any; a reactor
    name that is no string is a validation error. *)
Definition reaction_metadata_of (result : ToolCallReactionResult) : option (option (list (str * json))) :=
  match reaction_metadata result with
  | None | Some [] => Some None
  | Some m =>
      name ← optional_str "reactor_name" m;
      Some (Some [("reaction_type", JStr "swallowed"); ("reactor_name", opt_json name)])
  end.

Definition swallow (response : ProcessedResponse) (tc : ToolCall) (result : ToolCallReactionResult) : option ProcessedResponse :=
  m ← reaction_metadata_of result;
  Some (build_replacement epoch response (steering_message result) tc m).

(** The loop over the new calls: the replacement, or [None] when the response stays. *)
Fixpoint process_calls (session_id stream_key : str) (context : ToolCallReactorContext) (response : ProcessedResponse)
    (is_streaming : bool) (tool_calls : list ToolCall) : stm orchestrator_state handler_exn (option ProcessedResponse) := λ s,
  match tool_calls with
  | [] => (Ok None, s)
  | tc :: tool_calls' =>
      let signature := signature_of sha256 str_of is_streaming tc in
      if is_processed now stream_key signature (os_registry s) || negb (named tc) then
        process_calls session_id stream_key context response is_streaming tool_calls' s
      else
        let '(outcome, reactor) :=
          react (tool_context session_id context response (default "" (tc_name tc)) tc) (os_reactor s) in
        let '(buffer, registry) := mark_processed now stream_key signature (os_buffer s) (os_registry s) in
        match outcome with
        | Err Interrupted => (Err Interrupted, MkOrchestrator (os_registry s) (os_buffer s) reactor)
        | Ok (Some result) =>
            match swallow response tc result with
            | Some replacement => (Ok (Some replacement), MkOrchestrator registry buffer reactor)
            | None =>
                let '(buffer, registry) := mark_processed now stream_key signature buffer registry in
                process_calls session_id stream_key context response is_streaming tool_calls'
                  (MkOrchestrator registry buffer reactor)
            end
        | Ok None | Err HandlerError =>
            process_calls session_id stream_key context response is_streaming tool_calls'
              (MkOrchestrator registry buffer reactor)
        end
  end.

(** The calls are shown in the metadata unless it has calls already. *)
Definition expose_calls (normalized_tool_calls : list (list (str * json))) (response : ProcessedResponse) : ProcessedResponse :=
  let keep := match od_get "tool_calls" (pr_metadata response) with
              | Some (JList (item :: items)) => forallb is_dict (item :: items)
              | _ => false
              end in
  if keep then response
  else MkResponse (pr_content response) (pr_usage response)
         (od_set "tool_calls" (JList (JDict <$> (od_pop "_already_processed" <$> normalized_tool_calls))) (pr_metadata response)).

Definition handle (response : ProcessedResponse) (session_id : str) (context : ToolCallReactorContext) (is_streaming : bool) :
    stm orchestrator_state handler_exn ProcessedResponse := λ s,
  let stream_key := match rx_stream_key context with
                    | Some (String c k) => String c k
                    | _ => resolve_stream_key session_id None response
                    end in
  let unchanged := (Ok response, _reset_stream_state_if_needed stream_key response is_streaming s) in
  if truthy (od_get "vtc_tool_calls" (pr_metadata response)) then unchanged
  else
    let normalized_tool_calls := omap normalize (extract json_loads response) in
    let tool_calls := omap to_tool_call normalized_tool_calls in
    if bool_decide (tool_calls = []) then unchanged
    else if default false (has_ended session_id) then unchanged
    else
      let '(new_tool_calls, buffer, registry) :=
        filter_new_calls now sha256 str_of is_streaming stream_key tool_calls (os_buffer s) (os_registry s) in
      let s := MkOrchestrator registry buffer (os_reactor s) in
      match new_tool_calls with
      | [] => (Ok response, _reset_stream_state_if_needed stream_key response is_streaming s)
      | _ =>
          let response := expose_calls normalized_tool_calls response in
          match process_calls session_id stream_key context response is_streaming new_tool_calls s with
          | (Ok replacement, s) =>
              (Ok (default response replacement), _reset_stream_state_if_needed stream_key response is_streaming s)
          | (Err e, s) => (Err e, s)
          end
      end.
End orchestrator.

(** ** The replacement has no calls *)

Lemma od_update_get k d new : k ∉ new.*1 → od_get k (od_update d new) = od_get k d.
Proof.
  unfold od_update. revert d. induction new as [|[k' v] new IH]; intros d Hk; [done|]. simpl in *.
  apply not_elem_of_cons in Hk as [Hne Hk]. rewrite IH // od_get_set_ne //.
Qed.

Lemma od_update_ok (d new : list (str * json)) : od_ok d → od_ok (od_update d new).
Proof. unfold od_update. revert d. induction new as [|e new IH]; intros d Hd; simpl; [done|]. by apply IH, od_set_ok. Qed.

Lemma replacement_has_no_calls json_loads now response text tc m :
  od_ok (pr_metadata response) → extract json_loads (build_replacement now response text tc m) = [].
Proof.
  intros Hok. unfold extract, build_replacement. cbn [pr_metadata pr_content].
  rewrite od_update_get; [by apply (bool_decide_unpack _)|]. rewrite od_get_pop_eq; [|done].
  destruct m; [by apply od_set_ok|done].
Qed.

(** ** What reaches the client *)

Section guarantees.
Context {C R : Type} `{Laws : TTLCacheLaws str ToolCallStreamState C} `{ToolCallReactor R}.
Context (json_loads : str → option json) (repair_json : str → option str) (str_of : json → str) (sha256 : str → str).
Context (working_directory : list str) (ampersand_fixer_enabled : bool) (has_ended : str → option bool).
Context (now : Q) (epoch : Z).
Context (session_id : str) (context : ToolCallReactorContext) (is_streaming : bool).

#[local] Notation sig tc := (namespaced (signature_of sha256 str_of is_streaming tc)).

(** What is to happen with the new calls of a response: the reactor is asked about
    them in order, each in the state the one before left, up to the first that it
    swallows; what it raises lets the call pass, unless it is an interruption.  A
    call without a name is not asked about, and a result whose reactor name is no
    string swallows nothing. *)
Fixpoint ask_reactor (response : ProcessedResponse) (tool_calls : list ToolCall) (r : R) :
    res handler_exn (option ProcessedResponse) * R :=
  match tool_calls with
  | [] => (Ok None, r)
  | tc :: tool_calls' =>
      if named tc then
        match react (tool_context json_loads repair_json str_of working_directory ampersand_fixer_enabled session_id
                       context response (default "" (tc_name tc)) tc) r with
        | (Err Interrupted, r') => (Err Interrupted, r')
        | (Ok (Some result), r') =>
            match swallow epoch response tc result with
            | Some replacement => (Ok (Some replacement), r')
            | None => ask_reactor response tool_calls' r'
            end
        | (_, r') => ask_reactor response tool_calls' r'
        end
      else ask_reactor response tool_calls' r
  end.

Lemma process_calls_spec response stream_key tool_calls s :
  NoDup ((λ tc, sig tc) <$> tool_calls) →
  Forall (λ tc, sig tc ∉ processed now stream_key (os_registry s)) tool_calls →
  let '(outcome, s') := process_calls json_loads repair_json str_of sha256 working_directory ampersand_fixer_enabled now epoch
     session_id stream_key context response is_streaming tool_calls s in
  (outcome, os_reactor s') = ask_reactor response tool_calls (os_reactor s).
Proof using Laws.
  clear has_ended. revert s. induction tool_calls as [|tc tool_calls IH]; intros s Hn Hp; [done|]. csimpl in Hn.
  apply NoDup_cons in Hn as [Hn1 Hn2]. apply Forall_cons in Hp as [Hp1 Hp2].
  cbn [process_calls ask_reactor]. rewrite is_processed_spec bool_decide_eq_false_2 //.
  destruct (named tc); simpl; [|by apply IH].
  destruct (react _ (os_reactor s)) as [outcome reactor].
  set (signature := signature_of sha256 str_of is_streaming tc) in *.
  assert (∀ registry, processed now stream_key registry ⊆ {[ sig tc ]} ∪ processed now stream_key (os_registry s) →
    Forall (λ tc, sig tc ∉ processed now stream_key registry) tool_calls) as Hnew.
  { intros registry Hsub. apply Forall_forall. intros tc' Hin Hk%Hsub.
    pose proof (proj1 (Forall_forall _ _) Hp2 _ Hin) as Hni. simpl in Hni.
    apply elem_of_union in Hk as [Heq%elem_of_singleton|Hk]; [|done].
    apply Hn1, list_elem_of_fmap. by exists tc'. }
  pose proof (mark_processed_spec now stream_key signature (os_buffer s) (os_registry s)) as Hm.
  pose proof (mark_processed_spec now stream_key signature
    (mark_processed now stream_key signature (os_buffer s) (os_registry s)).1
    (mark_processed now stream_key signature (os_buffer s) (os_registry s)).2) as Hm2.
  simpl in Hm, Hm2. rewrite Hm in Hm2.
  destruct outcome as [[result|]|[]]; try done; [|apply IH; [done|apply Hnew; cbn [os_registry]; by rewrite Hm]..].
  destruct (swallow epoch response tc result); [done|].
  apply IH; [done|]. apply Hnew. cbn [os_registry]. rewrite Hm2. set_solver.
Qed.

(** The calls of a response, as the orchestrator reads them. *)
Definition calls_in (response : ProcessedResponse) : list ToolCall := omap to_tool_call (omap normalize (extract json_loads response)).

Definition key_of (response : ProcessedResponse) : str :=
  match rx_stream_key context with Some (String c k) => String c k | _ => resolve_stream_key session_id None response end.

(** C32: A response that comes without a stream buffer: unless its calls are virtual
    ones that were processed before, or its session is known to have ended, the
    reactor is asked about exactly the calls whose signature the stream has not seen
    yet, the first with each signature, in their order and with their parsed
    arguments, up to the first call that it swallows.  Then the client gets the
    steering message for that call, which contains no tool call; if none is
    swallowed, it gets the response with its calls shown in the metadata.  Calls
    that are no valid calls (arguments that are an object) are not among these, and
    those after the swallowed one are not asked about. *)
Theorem response_is_checked response s :
  os_buffer s = None → od_ok (pr_metadata response) →
  let skipped := truthy (od_get "vtc_tool_calls" (pr_metadata response)) || default false (has_ended session_id) in
  let new_calls := if skipped then [] else
    distinct_calls sha256 str_of is_streaming (known now (key_of response) (os_registry s)) (calls_in response) in
  let shown := expose_calls (omap normalize (extract json_loads response)) response in
  let '(outcome, reactor) := ask_reactor shown new_calls (os_reactor s) in
  let '(result, s') := handle json_loads repair_json str_of sha256 working_directory ampersand_fixer_enabled has_ended now
                         epoch response session_id context is_streaming s in
  os_reactor s' = reactor ∧
  match outcome with
  | Ok (Some replacement) => result = Ok replacement ∧ extract json_loads replacement = []
  | Ok None => result = Ok (if bool_decide (new_calls = []) then response else shown)
  | Err e => result = Err e
  end.
Proof using Laws.
  intros Hb Hok skipped new_calls shown.
  assert (∀ calls r, match (ask_reactor shown calls r).1 with
    | Ok (Some replacement) => extract json_loads replacement = [] | _ => True end) as Hno.
  { assert (od_ok (pr_metadata shown)) as Hshown.
    { unfold shown, expose_calls. case_match; [done|]. simpl. by apply od_set_ok. }
    intros calls. induction calls as [|tc calls IH]; intros r; simpl; [done|].
    destruct (named tc); [|apply IH]. destruct (react _ r) as [[[result|]|[]] r']; try apply IH; [|done].
    destruct (swallow epoch shown tc result) as [replacement|] eqn:Hs; [|apply IH]. simpl. unfold swallow in Hs.
    destruct (reaction_metadata_of result) as [m|]; simpl in Hs; [|done]. injection Hs as <-.
    by apply replacement_has_no_calls. }
  specialize (Hno new_calls (os_reactor s)). unfold handle. fold (key_of response). fold (calls_in response).
  assert (∀ r0 (s0 : @orchestrator_state C R), os_reactor (_reset_stream_state_if_needed now (key_of response) r0 is_streaming s0) = os_reactor s0)
    as Hreset by (intros r0 s0; unfold _reset_stream_state_if_needed; by destruct (_should_reset_stream_state _ _)).
  unfold skipped in new_calls. clear skipped.
  destruct (truthy (od_get "vtc_tool_calls" (pr_metadata response))); [by rewrite /new_calls /= Hreset|].
  destruct (bool_decide (calls_in response = [])) eqn:Hc.
  { apply bool_decide_eq_true in Hc.
    assert (new_calls = []) as -> by (unfold new_calls; rewrite Hc; by destruct (default false _)). by rewrite /= Hreset. }
  destruct (default false (has_ended session_id)); [by rewrite /new_calls /= Hreset|]. simpl in new_calls.
  rewrite Hb. unfold filter_new_calls.
  pose proof (new_response_calls_spec now sha256 str_of is_streaming (key_of response) (calls_in response) (os_registry s)) as Hspec.
  destruct (new_response_calls _ _ _ _ _ _ _ _) as [calls registry]. destruct Hspec as [-> Hp]. fold new_calls. simpl.
  destruct (distinct_calls_spec sha256 str_of is_streaming (known now (key_of response) (os_registry s)) (calls_in response))
    as (Hn & Hk & _). fold new_calls in Hn, Hk.
  assert (Forall (λ tc, sig tc ∉ processed now (key_of response) registry) new_calls) as Hk'.
  { eapply Forall_impl; [exact Hk|]. intros tc Hni. rewrite Hp. intros Hin. by apply Hni, processed_known. }
  pose proof (process_calls_spec shown (key_of response) new_calls (MkOrchestrator registry None (os_reactor s)) Hn Hk') as Hrun.
  destruct new_calls as [|tc calls]; [by rewrite /= Hreset|].
  fold shown. destruct (process_calls _ _ _ _ _ _ _ _ _ _ _ _ _ _ _) as [outcome s']. cbn [os_reactor] in Hrun.
  destruct (ask_reactor shown (tc :: calls) (os_reactor s)) as [outcome' reactor']. injection Hrun as <- <-.
  destruct outcome as [[replacement|]|e]; simpl in *; by rewrite ?Hreset.
Qed.
End guarantees.

(** ** On concrete responses *)

(** A reactor that swallows calls of [rm] and keeps the calls it was asked about. *)
Definition swallow_rm (c : ToolCallContext) : option ToolCallReactionResult :=
  if String.eqb (tcx_tool_name c) "rm" then Some (MkReaction true (Some "Do not remove files."%string) None) else None.

Definition recording_reactor : ToolCallReactor (list ToolCallContext) :=
  {| react := λ c asked, (Ok (swallow_rm c), asked ++ [c]) |}.

Definition sample_registry : TTLCache str ToolCallStreamState (list_cache str ToolCallStreamState) := list_cache_ops 3600 1024.

(** The text [ampersands] stands for the JSON text of a command with ampersands. *)
Definition sample_loads (s : str) : option json :=
  if String.eqb s "{}" then Some (JDict [])
  else if String.eqb s "ampersands" then Some (JDict [("command", JStr "make && ls")]%string) else None.

Definition sample_state : @orchestrator_state (list_cache str ToolCallStreamState) (list ToolCallContext) :=
  MkOrchestrator (MkListCache []) None [].

Definition sample_run (client_os : option str) (response : ProcessedResponse)
    (s : @orchestrator_state (list_cache str ToolCallStreamState) (list ToolCallContext)) :=
  handle (H := sample_registry) (H0 := recording_reactor) sample_loads (λ _, None) (λ _, "") (λ s, s) [] true (λ _, None)
    1 1700000000 response "session" (MkReactorContext client_os None) false s.

Definition sample_call (id name : str) (arguments : json) : json :=
  JDict [("id", JStr id); ("type", JStr "function");
         ("function", JDict [("name", JStr name); ("arguments", arguments)])]%string.

Definition sample_response (metadata : list (str * json)) (calls : list json) : ProcessedResponse :=
  MkResponse (JDict [("choices", JList [JDict [("message", JDict [("tool_calls", JList calls)])]])]%string) JNull metadata.

(** The names of the calls that the reactor was asked about, and those the client gets. *)
Definition asked_and_delivered (client_os : option str) (response : ProcessedResponse)
    (s : @orchestrator_state (list_cache str ToolCallStreamState) (list ToolCallContext)) : list str * list (option str) :=
  let '(outcome, s') := sample_run client_os response s in
  (tcx_tool_name <$> os_reactor s',
   match outcome with Ok out => tc_name <$> calls_in sample_loads out | Err _ => [] end).

Lemma response_is_checked_witness :
  let response := sample_response [] [sample_call "1" "ls" (JStr "{}"); sample_call "2" "rm" (JStr "{}")] in
  (∃ replacement, (sample_run None response sample_state).1 = Ok replacement ∧ extract sample_loads replacement = []) ∧
  asked_and_delivered None response sample_state = (["ls"; "rm"]%string, []).
Proof.
  intros response. split; [|vm_compute; reflexivity].
  pose proof (response_is_checked (H := sample_registry) (Laws := list_cache_laws (K := str) (V := ToolCallStreamState) 3600 1024 eq_refl ltac:(lia)) (H0 := recording_reactor)
    sample_loads (λ _, None) (λ _, "") (λ s, s) [] true (λ _, None) 1 1700000000 "session" (MkReactorContext None None) false
    response sample_state eq_refl ltac:(constructor)) as Hr.
  cbv zeta in Hr. unfold sample_run. destruct (handle _ _ _ _ _ _ _ _ _ _ _ _ _ _) as [result s'].
  destruct (ask_reactor _ _ _ _ _ _ _ _ _ _ _) as [outcome reactor] eqn:Ha.
  assert (is_Some (match outcome with Ok o => o | Err _ => None end)) as [replacement Ho].
  { apply (f_equal fst) in Ha. simpl in Ha. rewrite -Ha. vm_compute. by eexists. }
  destruct outcome as [[o|]|]; [|discriminate Ho..]. destruct Hr as (_ & Hr & Hx). exists o. split; [exact Hr|exact Hx].
Defined.

(** A call that was swallowed counts as processed: when the model repeats it in the same
    stream - for a response without an id the stream is the session - it passes. *)
Theorem repeated_call_passes :
  let response := sample_response [] [sample_call "1" "rm" (JStr "{}")] in
  asked_and_delivered None response sample_state = (["rm"]%string, []) ∧
  asked_and_delivered None response (sample_run None response sample_state).2 = (["rm"]%string, [Some "rm"%string]).
Proof. split; vm_compute; reflexivity. Qed.

(** Of two calls with one id only the first is put to the reactor. *)
Theorem same_id_unchecked :
  asked_and_delivered None (sample_response [] [sample_call "1" "ls" (JStr "{}"); sample_call "1" "rm" (JStr "{}")]) sample_state =
  (["ls"]%string, [Some "ls"; Some "rm"]%string).
Proof. vm_compute. reflexivity. Qed.

(** A call whose arguments are an object, not its text, is no valid call and passes
    unseen. *)
Theorem object_arguments_unchecked :
  let response := sample_response [] [sample_call "1" "rm" (JDict [])] in
  (sample_run None response sample_state).1 = Ok response ∧
  os_reactor (sample_run None response sample_state).2 = [] ∧ extract sample_loads response ≠ [].
Proof. split_and!; [vm_compute; reflexivity..|discriminate]. Qed.

(** An empty list of calls in the metadata hides those of the content. *)
Theorem empty_metadata_hides_calls :
  let response := sample_response [("tool_calls", JList [])]%string [sample_call "1" "rm" (JStr "{}")] in
  (sample_run None response sample_state).1 = Ok response ∧
  os_reactor (sample_run None response sample_state).2 = [].
Proof. split; vm_compute; reflexivity. Qed.

(** Fixups reach the reactor and not the client: for a Windows client the reactor sees a
    command without ampersands, and the client gets the arguments of the model. *)
Theorem fixups_stay_in_proxy :
  let response := sample_response [] [sample_call "1" "bash" (JStr "ampersands")] in
  let '(outcome, s) := sample_run (Some "Windows 11"%string) response sample_state in
  tcx_tool_arguments <$> os_reactor s = [JDict [("command", JStr "make ; ls")]%string] ∧
  match outcome with
  | Ok out => pr_content out = pr_content response ∧ tc_arguments <$> calls_in sample_loads out = [Some "ampersands"%string]
  | Err _ => False
  end.
Proof. vm_compute. done. Qed.
