(* ===== verification/EndpointHealth.v ===== *)
(** * Endpoint health

    [src/core/domain/health/endpoint_health_state.py] with the registry
    [services/health/endpoint_registry.py], the state manager
    [services/health/state_manager.py] and the notifier
    [services/health/backend_notifier.py]: check results become the health of an API
    URL, by which the resilience coordinator gates the backends that use it.

    A state is updated under its lock, so an update is one step.  The splitting of a URL
    ([urlparse], with the errors of its attributes) is a parameter; latencies are
    rationals. *)

From Stdlib Require Import Ascii.
From S2P Require Import Prelude PyStr PyDict Exceptions CircuitBreaker TTLCache RateLimitState ErrorHandlers Resilience.
From stdpp Require Import options.

(** ** The health of a URL *)

Record CheckState : Type := MkCheck {
  check_success : bool;
  last_check_timestamp : option Q;
  last_successful_timestamp : option Q;
  last_state_transition_timestamp : option Q;
  consecutive_failures : Z;
  last_latency_ms : option Q;
  last_error : option str
}.

(** The state of both checks; the HTTP check also keeps a status code. *)
Record EndpointHealthState : Type := MkHealth {
  eh_api_url : str;
  eh_ping : CheckState;
  eh_http : CheckState;
  last_http_status_code : option Z
}.

Definition new_check : CheckState := MkCheck true None None None 0 None None.

Definition new_health (api_url : str) : EndpointHealthState := MkHealth api_url new_check new_check None.

Definition is_healthy (st : EndpointHealthState) : bool := check_success (eh_ping st) && check_success (eh_http st).

(** [record_ping_success] and what [record_http_success] shares with it. *)
Definition check_succeeds (now latency_ms : Q) (c : CheckState) : bool * CheckState :=
  if check_success c then
    (false, MkCheck true (Some now) (Some now) (last_state_transition_timestamp c) 0 (Some latency_ms) None)
  else (true, MkCheck true (Some now) (Some now) (Some now) 0 (Some latency_ms) None).

(** [record_ping_failure] and [record_http_failure] *)
Definition check_fails (now : Q) (error : str) (failure_threshold : Z) (c : CheckState) : bool * CheckState :=
  let failures := (consecutive_failures c + 1)%Z in
  if check_success c && (failure_threshold <=? failures)%Z then
    (true, MkCheck false (Some now) (last_successful_timestamp c) (Some now) failures (last_latency_ms c) (Some error))
  else
    (false, MkCheck (check_success c) (Some now) (last_successful_timestamp c) (last_state_transition_timestamp c)
              failures (last_latency_ms c) (Some error)).

Definition set_ping (c : CheckState) (st : EndpointHealthState) : EndpointHealthState :=
  MkHealth (eh_api_url st) c (eh_http st) (last_http_status_code st).
Definition set_http (c : CheckState) (st : EndpointHealthState) : EndpointHealthState :=
  MkHealth (eh_api_url st) (eh_ping st) c (last_http_status_code st).
Definition set_status (status_code : Z) (st : EndpointHealthState) : EndpointHealthState :=
  MkHealth (eh_api_url st) (eh_ping st) (eh_http st) (Some status_code).

Definition record_ping_success (now latency_ms : Q) (st : EndpointHealthState) : bool * EndpointHealthState :=
  let '(t, c) := check_succeeds now latency_ms (eh_ping st) in (t, set_ping c st).
Definition record_ping_failure (now : Q) (error : str) (threshold : Z) (st : EndpointHealthState) : bool * EndpointHealthState :=
  let '(t, c) := check_fails now error threshold (eh_ping st) in (t, set_ping c st).
Definition record_http_success (now : Q) (status_code : Z) (latency_ms : Q) (st : EndpointHealthState) :
    bool * EndpointHealthState :=
  let '(t, c) := check_succeeds now latency_ms (eh_http st) in (t, set_status status_code (set_http c st)).
Definition record_http_failure (now : Q) (error : str) (threshold : Z) (st : EndpointHealthState) : bool * EndpointHealthState :=
  let '(t, c) := check_fails now error threshold (eh_http st) in (t, set_http c st).

(** ** The registry *)

Record ParsedUrl : Type := MkUrl {
  pu_scheme : str;
  pu_hostname : option str;
  pu_port : option Z;
  pu_path : str
}.

Fixpoint rstrip_slashes (s : str) : str :=
  match s with
  | "" => ""
  | String c s' =>
      let s' := rstrip_slashes s' in
      if is_empty s' && Ascii.eqb c "/"%char then "" else String c s'
  end.

Section registry.
Context (urlparse : str → res exn ParsedUrl).

Definition _normalize_url (url : str) : res exn str :=
  if is_empty url then Ok EmptyString
  else
    match urlparse url with
    | Err e => Err e
    | Ok parsed =>
        let scheme := if is_empty (pu_scheme parsed) then "https"%string else lower (pu_scheme parsed) in
        let host := match pu_hostname parsed with Some h => lower h | None => ""%string end in
        let netloc :=
          match pu_port parsed with
          | Some port =>
              if (port =? 0)%Z then host
              else
                let default_port := if String.eqb scheme "https" then 443%Z else 80%Z in
                if negb (port =? default_port)%Z then host +:+ ":" +:+ str_of_Z port else host
          | None => host
          end in
        Ok (scheme +:+ "://" +:+ netloc +:+ rstrip_slashes (pu_path parsed))
    end.

Record EndpointRegistry : Type := MkRegistry {
  url_to_backends : gmap string (gset string);
  backend_to_url : gmap string str;
  health_states : gmap string EndpointHealthState
}.

Definition empty_registry : EndpointRegistry := MkRegistry ∅ ∅ ∅.

(** [self._url_to_backends[url].discard(backend_name)], and the entry goes when it is
    empty. *)
Definition discard_backend (backend_name url : str) (m : gmap string (gset string)) : gmap string (gset string) :=
  let backends := default ∅ (m !! url) ∖ {[ backend_name ]} in
  if bool_decide (backends = ∅) then delete url m else <[url := backends]> m.

Definition register_backend (backend_name api_url : str) (r : EndpointRegistry) : res exn EndpointHealthState * EndpointRegistry :=
  match _normalize_url api_url with
  | Err e => (Err e, r)
  | Ok url =>
      let m :=
        match backend_to_url r !! backend_name with
        | Some old_url =>
            if negb (is_empty old_url) && negb (String.eqb old_url url)
            then discard_backend backend_name old_url (url_to_backends r) else url_to_backends r
        | None => url_to_backends r
        end in
      let st := default (new_health url) (health_states r !! url) in
      (Ok st,
       MkRegistry (<[url := {[ backend_name ]} ∪ default ∅ (m !! url)]> m) (<[backend_name := url]> (backend_to_url r))
         (<[url := st]> (health_states r)))
  end.

Definition unregister_backend (backend_name : str) (r : EndpointRegistry) : EndpointRegistry :=
  match backend_to_url r !! backend_name with
  | None => r
  | Some url =>
      let names := delete backend_name (backend_to_url r) in
      if is_empty url then MkRegistry (url_to_backends r) names (health_states r)
      else
        let m := discard_backend backend_name url (url_to_backends r) in
        MkRegistry m names (match m !! url with None => delete url (health_states r) | Some _ => health_states r end)
  end.

Definition get_all_urls (r : EndpointRegistry) : list str :=
  (filter (λ e : string * gset string, e.2 ≠ ∅) (map_to_list (url_to_backends r))).*1.

Definition get_backends_for_url (api_url : str) (r : EndpointRegistry) : res exn (gset string) :=
  match _normalize_url api_url with Ok url => Ok (default ∅ (url_to_backends r !! url)) | Err e => Err e end.

Definition get_health_state (api_url : str) (r : EndpointRegistry) : res exn (option EndpointHealthState) :=
  match _normalize_url api_url with Ok url => Ok (health_states r !! url) | Err e => Err e end.

Definition is_url_healthy (api_url : str) (r : EndpointRegistry) : res exn bool :=
  match get_health_state api_url r with
  | Ok (Some st) => Ok (is_healthy st)
  | Ok None => Ok true
  | Err e => Err e
  end.

Definition is_backend_healthy (backend_name : str) (r : EndpointRegistry) : res exn bool :=
  match backend_to_url r !! backend_name with
  | Some url => if is_empty url then Ok true else is_url_healthy url r
  | None => Ok true
  end.

Definition clear (r : EndpointRegistry) : EndpointRegistry := empty_registry.

(** ** The state manager *)

Inductive health_event : Type :=
| PingTransition (api_url : str) (old_state new_state : bool) (failures : Z)
| HttpTransition (api_url : str) (old_state new_state : bool) (failures : Z)
| EndpointHealthChanged (api_url : str) (healthy ping_healthy http_healthy : bool).

Inductive check_result : Type :=
| PingCheckSucceeded (latency_ms : Q)
| PingCheckFailed (error : str)
| HttpCheckSucceeded (status_code : Z) (latency_ms : Q)
| HttpCheckFailed (error : str).

Context (ping_threshold http_threshold : Z).

Definition record_check (now : Q) (result : check_result) (st : EndpointHealthState) : bool * EndpointHealthState :=
  match result with
  | PingCheckSucceeded latency_ms => record_ping_success now latency_ms st
  | PingCheckFailed error => record_ping_failure now error ping_threshold st
  | HttpCheckSucceeded status_code latency_ms => record_http_success now status_code latency_ms st
  | HttpCheckFailed error => record_http_failure now error http_threshold st
  end.

Definition transition_event (api_url : str) (result : check_result) (old new : EndpointHealthState) : health_event :=
  match result with
  | PingCheckSucceeded _ => PingTransition api_url (check_success (eh_ping old)) true 0
  | PingCheckFailed _ => PingTransition api_url (check_success (eh_ping old)) false (consecutive_failures (eh_ping new))
  | HttpCheckSucceeded _ _ => HttpTransition api_url (check_success (eh_http old)) true 0
  | HttpCheckFailed _ => HttpTransition api_url (check_success (eh_http old)) false (consecutive_failures (eh_http new))
  end.

(** A handler of the manager up to the publication of its transition; the combined
    event follows, with the state as it is then ([_check_overall_health_change]). *)
Definition handle_check (now : Q) (api_url : str) (result : check_result) (r : EndpointRegistry) :
    res exn (option health_event) * EndpointRegistry :=
  match _normalize_url api_url with
  | Err e => (Err e, r)
  | Ok url =>
      match health_states r !! url with
      | None => (Ok None, r)
      | Some st =>
          let '(transitioned, st') := record_check now result st in
          (Ok (if transitioned then Some (transition_event api_url result st st') else None),
           MkRegistry (url_to_backends r) (backend_to_url r) (<[url := st']> (health_states r)))
      end
  end.

Definition _check_overall_health_change (api_url : str) (st : EndpointHealthState) : health_event :=
  EndpointHealthChanged api_url (is_healthy st) (check_success (eh_ping st)) (check_success (eh_http st)).

(** ** The notifier

    Its map from URLs to the backends that want to know, and the notifications it makes,
    in the order of the set.  A backend is an object with a URL; what a notification
    raises is logged. *)
Definition notifier : Type := gmap string (gset string).

Definition notifier_register (backend api_url : str) (n : notifier) : res exn notifier :=
  if is_empty api_url then Ok n
  else match _normalize_url api_url with
       | Ok url => Ok (<[url := {[ backend ]} ∪ default ∅ (n !! url)]> n)
       | Err e => Err e
       end.

Definition notifier_unregister (backend api_url : str) (n : notifier) : res exn notifier :=
  if is_empty api_url then Ok n
  else match _normalize_url api_url with
       | Ok url =>
           match n !! url with
           | Some backends =>
               let backends := backends ∖ {[ backend ]} in
               Ok (if bool_decide (backends = ∅) then delete url n else <[url := backends]> n)
           | None => Ok n
           end
       | Err e => Err e
       end.

Inductive notification : Type :=
| on_endpoint_healthy (backend api_url : str)
| on_endpoint_unhealthy (backend api_url reason : str).

Definition _handle_endpoint_health_changed (event : health_event) (n : notifier) : res exn (list notification) :=
  match event with
  | EndpointHealthChanged api_url healthy ping_healthy http_healthy =>
      let reasons : list str := (if ping_healthy then [] else ["ping unhealthy"]) ++ (if http_healthy then [] else ["HTTP unhealthy"]) in
      let reason : str := match reasons with [] => "recovered" | _ => join ", " reasons end in
      match _normalize_url api_url with
      | Ok url =>
          Ok ((λ backend, if healthy then on_endpoint_healthy backend api_url else on_endpoint_unhealthy backend api_url reason)
                <$> elements (default ∅ (n !! url)))
      | Err e => Err e
      end
  | _ => Ok []
  end.

(** ** A check state counts failures *)

(** The failures since the last success, in the order the results came. *)
Definition trailing_failures (results : list bool) : Z := foldl (λ (n : Z) (ok : bool), if ok then 0 else n + 1)%Z 0%Z results.

Definition counts (threshold : Z) (results : list bool) (c : CheckState) : Prop :=
  consecutive_failures c = trailing_failures results ∧
  check_success c = (trailing_failures results <? threshold)%Z.

Lemma trailing_nonneg results : (0 <= trailing_failures results)%Z.
Proof.
  unfold trailing_failures. induction results as [|ok results IH] using rev_ind; [done|].
  rewrite foldl_app /=. destruct ok; lia.
Qed.

Lemma counts_new threshold : (1 <= threshold)%Z → counts threshold [] new_check.
Proof. intros Ht. split; [done|]. symmetry. apply Z.ltb_lt. change (0 < threshold)%Z. lia. Qed.

Lemma success_counts now latency_ms threshold results c :
  (1 <= threshold)%Z → counts threshold results c →
  counts threshold (results ++ [true]) (check_succeeds now latency_ms c).2 ∧
  (check_succeeds now latency_ms c).1 = negb (check_success c).
Proof.
  intros Ht _. unfold counts, check_succeeds, trailing_failures. rewrite foldl_app /=.
  assert ((0 <? threshold)%Z = true) as -> by (apply Z.ltb_lt; lia). by destruct (check_success c).
Qed.

Lemma failure_counts now error threshold results c :
  (1 <= threshold)%Z → counts threshold results c →
  counts threshold (results ++ [false]) (check_fails now error threshold c).2 ∧
  (check_fails now error threshold c).1 =
  (check_success c && negb (check_success (check_fails now error threshold c).2)).
Proof.
  intros Ht [Hn Hs]. unfold counts, check_fails. pose proof (trailing_nonneg results).
  assert (trailing_failures (results ++ [false]) = (trailing_failures results + 1)%Z) as -> by (by rewrite /trailing_failures foldl_app).
  rewrite Hn Hs. destruct (trailing_failures results <? threshold)%Z eqn:Hlt;
    destruct (threshold <=? trailing_failures results + 1)%Z eqn:Hle; simpl; split; try done; split; try done; lia.
Qed.

(** ** Histories of a registry *)

Inductive registry_op : Type :=
| RegisterBackend (backend_name api_url : str)
| UnregisterBackend (backend_name : str)
| CheckDone (now : Q) (api_url : str) (result : check_result)
| ClearAll.

Definition run_op (r : EndpointRegistry) (o : registry_op) : EndpointRegistry :=
  match o with
  | RegisterBackend backend_name api_url => (register_backend backend_name api_url r).2
  | UnregisterBackend backend_name => unregister_backend backend_name r
  | CheckDone now api_url result => (handle_check now api_url result r).2
  | ClearAll => clear r
  end.

Definition run_ops (ops : list registry_op) (r : EndpointRegistry) : EndpointRegistry := foldl run_op r ops.

(** The maps agree: a backend is among the users of its URL and of no other, and a URL
    with users has a state. *)
Definition registry_ok (r : EndpointRegistry) : Prop :=
  (∀ b u, u ≠ EmptyString → b ∈ default ∅ (url_to_backends r !! u) ↔ backend_to_url r !! b = Some u) ∧
  (∀ u, u ≠ EmptyString → is_Some (url_to_backends r !! u) → is_Some (health_states r !! u)).

Lemma discard_lookup b u m u' :
  default ∅ (discard_backend b u m !! u') = (if decide (u' = u) then default ∅ (m !! u) ∖ {[ b ]} else default ∅ (m !! u')) ∧
  (is_Some (discard_backend b u m !! u') → u' = u ∨ is_Some (m !! u')).
Proof.
  unfold discard_backend. case_bool_decide as He; case_decide as Hu; subst.
  - rewrite lookup_delete_eq /= He. split; [done|by left].
  - rewrite lookup_delete_ne //. split; [done|by right].
  - rewrite lookup_insert_eq /=. split; [done|by left].
  - rewrite lookup_insert_ne //. split; [done|by right].
Qed.
Lemma registry_register_ok b api r : registry_ok r → registry_ok (register_backend b api r).2.
Proof.
  intros [Hiff Hst]. unfold register_backend. destruct (_normalize_url api) as [url|e]; [|by split]. simpl.
  set (m := match backend_to_url r !! b with Some _ => _ | None => _ end).
  assert (∀ b' u, u ≠ EmptyString → b' ∈ default ∅ (m !! u) ↔ backend_to_url r !! b' = Some u ∧ (b' = b → u = url)) as Hm.
  { intros b' u Hu. subst m. destruct (backend_to_url r !! b) as [old|] eqn:Hold.
    - destruct (is_empty old) eqn:He; simpl.
      { apply is_empty_spec in He as ->. rewrite Hiff //. split; [|by intros [? _]]. intros Hb'. split; [done|]. intros ->. congruence. }
      destruct (String.eqb_spec old url) as [->|Hne]; simpl.
      { rewrite Hiff //. split; [|by intros [? _]]. intros Hb'. split; [done|]. intros ->. congruence. }
      rewrite (proj1 (discard_lookup b old _ u)). case_decide as Hd.
      + subst u. rewrite elem_of_difference Hiff // elem_of_singleton. split.
        * intros [? ?]. split; [done|]. by intros ->.
        * intros [? Himp]. split; [done|]. intros ->. by apply Hne, Himp.
      + rewrite Hiff //. split; [|by intros [? _]]. intros Hb'. split; [done|]. intros ->. congruence.
    - rewrite Hiff //. split; [|by intros [? _]]. intros Hb'. split; [done|]. intros ->. congruence. }
  split; simpl.
  - intros b' u Hu. destruct (decide (u = url)) as [->|Hne].
    + rewrite lookup_insert_eq /= elem_of_union elem_of_singleton Hm //.
      destruct (decide (b' = b)) as [->|Hb]; [rewrite lookup_insert_eq; naive_solver|rewrite lookup_insert_ne //; naive_solver].
    + rewrite lookup_insert_ne // Hm //.
      destruct (decide (b' = b)) as [->|Hb]; [rewrite lookup_insert_eq; naive_solver|rewrite lookup_insert_ne //; naive_solver].
  - intros u Hu. destruct (decide (u = url)) as [->|Hne]; [rewrite !lookup_insert_eq; by eexists|].
    rewrite !lookup_insert_ne //. intros Hs. apply Hst; [done|]. subst m. revert Hs.
    destruct (backend_to_url r !! b) as [old|] eqn:Hold; [|done].
    destruct (negb (is_empty old) && negb (old =? url)%string) eqn:Hc; [|done].
    apply andb_true_iff in Hc as [He _]. apply negb_true_iff in He.
    intros Hs. destruct (proj2 (discard_lookup b old _ u) Hs) as [->|?]; [|done].
    destruct (url_to_backends r !! old) eqn:Hl; [by eexists|]. exfalso.
    apply (Hiff b old) in Hold; [|by intros ->]. rewrite Hl in Hold. by apply not_elem_of_empty in Hold.
Qed.

Lemma registry_unregister_ok b r : registry_ok r → registry_ok (unregister_backend b r).
Proof.
  clear urlparse ping_threshold http_threshold.
  intros [Hiff Hst]. unfold unregister_backend. destruct (backend_to_url r !! b) as [url|] eqn:Hb; [|by split].
  destruct (is_empty url) eqn:He.
  { apply is_empty_spec in He as ->. split; simpl; [|done]. intros b' u Hu. rewrite Hiff //.
    destruct (decide (b' = b)) as [->|]; [rewrite lookup_delete_eq; naive_solver|by rewrite lookup_delete_ne]. }
  split; simpl.
  - intros b' u Hu. rewrite (proj1 (discard_lookup b url _ u)). case_decide as Hd.
    + subst u. rewrite elem_of_difference Hiff // elem_of_singleton.
      destruct (decide (b' = b)) as [->|]; [rewrite lookup_delete_eq; naive_solver|rewrite lookup_delete_ne //; naive_solver].
    + rewrite Hiff //. destruct (decide (b' = b)) as [->|]; [rewrite lookup_delete_eq; naive_solver|by rewrite lookup_delete_ne].
  - intros u Hu Hs. destruct (decide (u = url)) as [->|Hne].
    + destruct (discard_backend b url (url_to_backends r) !! url); [|by destruct Hs].
      apply Hst; [done|]. destruct (url_to_backends r !! url) eqn:Hl; [by eexists|]. exfalso.
      apply (Hiff b url) in Hb; [|done]. rewrite Hl in Hb. by apply not_elem_of_empty in Hb.
    + destruct (proj2 (discard_lookup b url _ u) Hs) as [->|Hs']; [done|].
      destruct (discard_backend b url (url_to_backends r) !! url); [by apply Hst|]. rewrite lookup_delete_ne //. by apply Hst.
Qed.

Lemma check_ok now api result r : registry_ok r → registry_ok (handle_check now api result r).2.
Proof.
  intros [Hiff Hst]. unfold handle_check. destruct (_normalize_url api) as [url|e]; [|by split].
  destruct (health_states r !! url) eqn:Hl; [|by split]. destruct (record_check _ _ _). split; simpl; [done|].
  intros u Hu Hs. destruct (decide (u = url)) as [->|]; [rewrite lookup_insert_eq; by eexists|rewrite lookup_insert_ne //; by apply Hst].
Qed.

Lemma registry_run_op_ok o r : registry_ok r → registry_ok (run_op r o).
Proof.
  intros Hok. destruct o; simpl; [by apply registry_register_ok|by apply registry_unregister_ok|by apply check_ok|].
  split; simpl; [|by intros u _ []]. intros b u _. rewrite !lookup_empty /=. set_solver.
Qed.

Lemma empty_registry_ok : registry_ok empty_registry.
Proof. clear urlparse ping_threshold http_threshold. split; simpl; [|by intros u _ []]. intros b u _. rewrite !lookup_empty /=. set_solver. Qed.

Lemma registry_run_ops_ok ops r : registry_ok r → registry_ok (run_ops ops r).
Proof. revert r. induction ops as [|o ops IH]; intros r Hok; simpl; [done|]. by apply IH, registry_run_op_ok. Qed.
(** The results of the checks of a URL, in order. *)
Definition ping_result (o : check_result) : option bool :=
  match o with PingCheckSucceeded _ => Some true | PingCheckFailed _ => Some false | _ => None end.

Definition http_result (o : check_result) : option bool :=
  match o with HttpCheckSucceeded _ _ => Some true | HttpCheckFailed _ => Some false | _ => None end.

Definition checks_url (url api_url : str) : bool :=
  match _normalize_url api_url with Ok u => String.eqb u url | Err _ => false end.

Definition results_of (kind : check_result → option bool) (url : str) (o : registry_op) : option bool :=
  match o with CheckDone _ api_url result => if checks_url url api_url then kind result else None | _ => None end.

(** Does an operation register or unregister the backend? *)
Definition concerns (backend_name : str) (o : registry_op) : Prop :=
  match o with RegisterBackend b _ | UnregisterBackend b => b = backend_name | CheckDone _ _ _ => False | ClearAll => True end.

Definition tracks (b url : str) (pings https : list bool) (r : EndpointRegistry) : Prop :=
  registry_ok r ∧ backend_to_url r !! b = Some url ∧
  ∃ st, health_states r !! url = Some st ∧ counts ping_threshold pings (eh_ping st) ∧ counts http_threshold https (eh_http st).

Definition add_result (kind : check_result → option bool) (url : str) (o : registry_op) (results : list bool) : list bool :=
  match results_of kind url o with Some ok => results ++ [ok] | None => results end.

Lemma record_tracks now result st pings https :
  (1 <= ping_threshold)%Z → (1 <= http_threshold)%Z →
  counts ping_threshold pings (eh_ping st) → counts http_threshold https (eh_http st) →
  let st' := (record_check now result st).2 in
  counts ping_threshold (match ping_result result with Some ok => pings ++ [ok] | None => pings end) (eh_ping st') ∧
  counts http_threshold (match http_result result with Some ok => https ++ [ok] | None => https end) (eh_http st').
Proof.
  intros Hp Hh Hpings Hhttps. destruct result as [l|e|c l|e]; simpl;
    unfold record_ping_success, record_ping_failure, record_http_success, record_http_failure.
  - pose proof (proj1 (success_counts now l _ _ _ Hp Hpings)). by destruct (check_succeeds _ _ _).
  - pose proof (proj1 (failure_counts now e _ _ _ Hp Hpings)). by destruct (check_fails _ _ _ _).
  - pose proof (proj1 (success_counts now l _ _ _ Hh Hhttps)). by destruct (check_succeeds _ _ _).
  - pose proof (proj1 (failure_counts now e _ _ _ Hh Hhttps)). by destruct (check_fails _ _ _ _).
Qed.

Lemma step_tracks b url o pings https r :
  (1 <= ping_threshold)%Z → (1 <= http_threshold)%Z → url ≠ EmptyString → ¬ concerns b o →
  tracks b url pings https r →
  tracks b url (add_result ping_result url o pings) (add_result http_result url o https) (run_op r o).
Proof.
  intros Hp Hh Hu Hc (Hok & Hb & st & Hst & Hpings & Hhttps). split; [by apply registry_run_op_ok|].
  unfold add_result. destruct o as [b' api|b'|now api result|]; simpl in *; [..|done].
  - unfold register_backend. destruct (_normalize_url api) as [u'|e]; simpl; [|eauto].
    rewrite lookup_insert_ne //. split; [done|]. exists st. split; [|done].
    destruct (decide (u' = url)) as [->|]; [by rewrite lookup_insert_eq Hst|by rewrite lookup_insert_ne].
  - unfold unregister_backend. destruct (backend_to_url r !! b') as [u'|] eqn:Hb'; [|eauto].
    destruct (is_empty u'); simpl; (rewrite lookup_delete_ne //; split; [done|]); exists st; (split; [|done]); [done|].
    destruct (discard_backend b' u' (url_to_backends r) !! u') as [us|] eqn:Hd; [done|].
    destruct (decide (u' = url)) as [->|]; [|by rewrite lookup_delete_ne]. exfalso.
    pose proof (proj1 (discard_lookup b' url (url_to_backends r) url)) as Hdis.
    rewrite decide_True // Hd /= in Hdis. apply (proj1 Hok) in Hb; [|done]. set_solver.
  - unfold handle_check, checks_url. destruct (_normalize_url api) as [u'|e]; [|eauto].
    destruct (String.eqb_spec u' url) as [->|Hne].
    + rewrite Hst. pose proof (record_tracks now result st pings https Hp Hh Hpings Hhttps) as Hr.
      destruct (record_check now result st) as [t st']. simpl in *. split; [done|]. exists st'. by rewrite lookup_insert_eq.
    + destruct (health_states r !! u') eqn:Hl; [|eauto]. destruct (record_check _ _ _). simpl. rewrite lookup_insert_ne //. eauto.
Qed.

Lemma run_tracks b url ops pings https r :
  (1 <= ping_threshold)%Z → (1 <= http_threshold)%Z → url ≠ EmptyString → Forall (λ o, ¬ concerns b o) ops →
  tracks b url pings https r →
  tracks b url (pings ++ omap (results_of ping_result url) ops) (https ++ omap (results_of http_result url) ops) (run_ops ops r).
Proof.
  intros Hp Hh Hu Hc. revert pings https r. induction Hc as [|o ops Ho Hc IH]; intros pings https r Ht; simpl; [by rewrite !app_nil_r|].
  apply (step_tracks _ _ o) in Ht; [|done..]. apply IH in Ht. revert Ht. unfold add_result.
  destruct (results_of ping_result url o), (results_of http_result url o); by rewrite -?app_assoc.
Qed.

(** C30: From the moment a backend is registered with a URL that has no health state
    yet, whatever else happens to the registry (the backend itself is not registered
    again or removed, nothing is cleared), the registry answers for it as follows.
    The URL is stored normalized, and is normalized again when health is asked.  When
    that changes nothing, the backend counts as healthy exactly as long as neither
    the last ping checks nor the last HTTP checks of its URL have failed as often in
    a row as the configuration allows (at least once).  When it raises, so does the question; and
    when it gives another URL, the answer is the health of that one, healthy if there
    is none. *)
Theorem backend_gated_by_checks b api_url url ops r :
  (1 <= ping_threshold)%Z → (1 <= http_threshold)%Z → registry_ok r →
  _normalize_url api_url = Ok url → url ≠ EmptyString →
  health_states r !! url = None → Forall (λ o, ¬ concerns b o) ops →
  let r' := run_ops ops (register_backend b api_url r).2 in
  is_backend_healthy b r' =
  match _normalize_url url with
  | Ok url' =>
      Ok (if decide (url' = url) then
            (trailing_failures (omap (results_of ping_result url) ops) <? ping_threshold)%Z &&
            (trailing_failures (omap (results_of http_result url) ops) <? http_threshold)%Z
          else match health_states r' !! url' with Some st => is_healthy st | None => true end)
  | Err e => Err e
  end.
Proof.
  intros Hp Hh Hok Hapi Hu Hnew Hops r'.
  assert (tracks b url [] [] (register_backend b api_url r).2) as Ht.
  { split; [by apply registry_register_ok|]. unfold register_backend. rewrite Hapi Hnew /=. rewrite lookup_insert_eq. split; [done|].
    exists (new_health url). rewrite lookup_insert_eq. split; [done|]. split; by apply counts_new. }
  apply (run_tracks _ _ ops) in Ht as (_ & Hb & st & Hst & [_ Hps] & [_ Hhs]); [|done..].
  fold r' in Hb, Hst. unfold is_backend_healthy, is_url_healthy, get_health_state. rewrite Hb.
  assert (is_empty url = false) as -> by (by destruct url).
  destruct (_normalize_url url) as [url'|e]; [|done]. case_decide as Hurl.
  - rewrite Hurl Hst. unfold is_healthy. by rewrite Hps Hhs.
  - by destruct (health_states r' !! url').
Qed.

(** A combined event follows every transition, so it may say what backends were told
    before. *)
Lemma combined_event_current api_url now result st :
  let st' := (record_check now result st).2 in
  _check_overall_health_change api_url st' =
  EndpointHealthChanged api_url (check_success (eh_ping st') && check_success (eh_http st'))
    (check_success (eh_ping st')) (check_success (eh_http st')).
Proof. done. Qed.

(** ** The gate of the resilience coordinator

    What the coordinator asks; the registry's own URLs are read without an error. *)
Definition gate (r : EndpointRegistry) (backend_name : str) : bool :=
  match is_backend_healthy backend_name r with Ok healthy => healthy | Err _ => true end.

End registry.

Section gated.
Context {IC MC : Type} `{ICache : !TTLCache str InstanceState IC, MCache : !TTLCache model_key ModelState MC}.
Context (cfg : CircuitBreakerConfig) (urlparse : str → res exn ParsedUrl).

(** A backend whose endpoint is down is rejected before anything else is asked. *)
Lemma unhealthy_endpoint_rejected r now instance_id model (st : resilience_state (IC := IC) (MC := MC)) :
  is_backend_healthy urlparse (partition ":" instance_id).1 r = Ok false →
  check_availability cfg (Some (gate urlparse r)) now instance_id model st =
  (MkDecision REJECT "endpoint_unhealthy" None, st).
Proof. intros Hr. unfold check_availability, healthy, gate. by rewrite Hr. Qed.

End gated.

(** ** Witness and observations *)

Definition example_url : str := "https://api.example.com/v1".

(** [urlparse] on the URLs of the examples; [https://::1/v1] has no valid port. *)
Definition example_parse (url : str) : res exn ParsedUrl :=
  if String.eqb url "HTTPS://API.Example.com:443/v1/" then Ok (MkUrl "https" (Some "api.example.com"%string) (Some 443%Z) "/v1/")
  else if String.eqb url example_url then Ok (MkUrl "https" (Some "api.example.com"%string) None "/v1")
  else if String.eqb url "API.Example.com/v1" then Ok (MkUrl "" None None "API.Example.com/v1")
  else if String.eqb url "https://API.Example.com/v1" then Ok (MkUrl "https" (Some "api.example.com"%string) None "/v1")
  else if String.eqb url "https://[::1]/v1" then Ok (MkUrl "https" (Some "::1"%string) None "/v1")
  else Err (py_exception "ValueError" "Port could not be cast to integer value").

Definition example_ops : list registry_op :=
  [CheckDone 1 example_url (PingCheckFailed "timeout"); RegisterBackend "other" example_url;
   CheckDone 2 example_url (HttpCheckFailed "refused"); CheckDone 3 example_url (PingCheckFailed "timeout");
   CheckDone 4 example_url (HttpCheckSucceeded 200 12); UnregisterBackend "other";
   CheckDone 5 example_url (PingCheckFailed "timeout")].

Lemma backend_gated_by_checks_witness :
  is_backend_healthy example_parse "openai.1"
    (run_ops example_parse 3 2 example_ops
      (register_backend example_parse "openai.1" "HTTPS://API.Example.com:443/v1/" empty_registry).2) = Ok false.
Proof.
  etrans; [apply (backend_gated_by_checks example_parse 3 2 "openai.1" "HTTPS://API.Example.com:443/v1/" example_url)|
    vm_compute; reflexivity]; try (by vm_compute).
  - split; simpl; [|by intros u _ []]. intros b u _. rewrite !lookup_empty /=. set_solver.
  - repeat (apply Forall_cons_2; [intros Hx; vm_compute in Hx; first [discriminate Hx | by destruct Hx]|]). apply Forall_nil_2.
Defined.

(** The host of an IPv6 URL loses its brackets, so the health of the backend cannot be
    read back. *)
Example ipv6_backend_cannot_be_asked :
  is_backend_healthy example_parse "local.1" (register_backend example_parse "local.1" "https://[::1]/v1" empty_registry).2 =
  Err (py_exception "ValueError" "Port could not be cast to integer value").
Proof. vm_compute. reflexivity. Qed.

(** A URL without a scheme has no host for [urlparse]: the case of its host is kept
    when it is registered and lost at every later use, so neither the results of its
    checks nor the questions for its health find its state: the backend counts as
    healthy whatever its checks say. *)
Example bare_host_is_never_gated :
  let r := run_ops example_parse 1 1 [CheckDone 1 "https://API.Example.com/v1" (PingCheckFailed "timeout")]
    (register_backend example_parse "openai.1" "API.Example.com/v1" empty_registry).2 in
  get_all_urls r = ["https://API.Example.com/v1"%string] ∧
  is_healthy <$> health_states r !! "https://API.Example.com/v1"%string = Some true ∧
  is_backend_healthy example_parse "openai.1" r = Ok true.
Proof. vm_compute. done. Qed.

(** A ping that recovers while the HTTP check still fails: the backend, which is known
    to be unhealthy, is told so again. *)
Example recovered_ping_notifies_unhealthy :
  let st := (record_http_failure 2 "refused" 1 (record_ping_failure 1 "timeout" 1 (new_health example_url)).2).2 in
  let '(transitioned, st') := record_ping_success 3 10 st in
  transitioned = true ∧ is_healthy st = false ∧
  _handle_endpoint_health_changed example_parse (_check_overall_health_change example_url st')
    {[example_url := {["openai.1"%string]}]} =
  Ok [on_endpoint_unhealthy "openai.1" example_url "HTTP unhealthy"].
Proof. vm_compute. done. Qed.

(** The state of a URL that a backend has left stays, and is the state of the next
    backend with that URL. *)
Example abandoned_health_returns :
  let parse := λ url, Ok (MkUrl "https" (Some url) None EmptyString) in
  let r := run_ops parse 1 1
    [RegisterBackend "a" "one"; CheckDone 1 "one" (PingCheckFailed "timeout"); RegisterBackend "a" "two"] empty_registry in
  (is_Some (health_states r !! "https://one"%string) ∧ url_to_backends r !! "https://one"%string = None).
Proof. vm_compute. split; [by eexists|done]. Qed.
