(* ===== verification/EndOfSession.v ===== *)
(** * The end of a session

    [src/core/services/end_of_session_service.py] and
    [session_metrics_initializer.py], with the signals and events of
    [src/core/domain/events/end_of_session_events.py], the rows of
    [src/core/database/models/usage.py], the operations of
    [src/core/database/repositories/usage_repository.py] on them, and the handler of
    [usage_tracking_eos_subscriber.py].

    The tasks that record signals are interleaved where they wait for the database; a
    step is what happens between two such points.  A lock that is held across no wait is
    never contended, so what it guards is part of one step.  An operation of the database
    is atomic and may fail, also after it was committed.  The event counts as published
    when its delivery is started.  One time line serves all clocks, and a step reads it
    once. *)

From S2P Require Import Prelude PyStr PyDict.
From stdpp Require Import options.

(** ** Signals, events and rows *)

Inductive EndOfSessionSignalType : Type :=
| DONE_SENTINEL | FINISH_REASON | RESPONSE_COMPLETED | TOOL_COMPLETION | ERROR_TERMINATION | CLIENT_TERMINATION.

Definition signal_type_value (t : EndOfSessionSignalType) : str :=
  match t with
  | DONE_SENTINEL => "done_sentinel" | FINISH_REASON => "finish_reason"
  | RESPONSE_COMPLETED => "response_completed" | TOOL_COMPLETION => "tool_completion"
  | ERROR_TERMINATION => "error_termination" | CLIENT_TERMINATION => "client_termination"
  end.

Inductive EndOfSessionTerminationCategory : Type := NORMAL | ERROR.

Inductive EndOfSessionErrorClassification : Type := TRANSPORT_ERROR | HTTP_ERROR | BACKEND_ERROR | UNKNOWN_ERROR.

Definition classification_value (c : EndOfSessionErrorClassification) : str :=
  match c with
  | TRANSPORT_ERROR => "transport_error" | HTTP_ERROR => "http_error" | BACKEND_ERROR => "backend_error"
  | UNKNOWN_ERROR => "unknown_error"
  end.

Record EndOfSessionSignal : Type := MkSignal {
  sg_session_id : str;
  sg_signal_type : EndOfSessionSignalType;
  sg_termination_category : EndOfSessionTerminationCategory;
  sg_observed_at : Q;
  sg_reason : option str;
  sg_error_classification : option EndOfSessionErrorClassification;
  sg_error_status_code : option Z;
  sg_protocol : option str;
  sg_request_id : option str;
  sg_backend : option str
}.

Record RemoteBackendConnectionEndOfSessionEvent : Type := MkEvent {
  ev_session_id : str;
  ev_signal_type : EndOfSessionSignalType;
  ev_termination_category : EndOfSessionTerminationCategory;
  ev_reason : option str;
  ev_error_classification : option EndOfSessionErrorClassification;
  ev_error_status_code : option Z;
  ev_protocol : option str;
  ev_request_id : option str;
  ev_backend : option str;
  ev_timestamp : Q
}.

Record EndOfSessionConfig : Type := MkEosConfig {
  eos_enabled : bool;
  emit_events : bool
}.

(** A row of [session_metrics]; its key is the session id. *)
Record SessionMetrics : Type := MkMetrics {
  start_time : Q;
  last_activity : Q;
  turn_count : Z;
  total_tokens : Z;
  total_tool_calls : Z;
  is_completed : bool;
  backend_type : option str;
  model : option str;
  proxy_user : option str;
  eos_emitted_at : option Q;
  eos_signal_type : option str;
  eos_reason : option str;
  eos_error_classification : option str;
  eos_error_status_code : option Z
}.

Definition metrics_table : Type := gmap string SessionMetrics.

(** ** The repository *)

(** [SessionMetricsRepository.upsert] *)
Definition upsert (session_id : str) (metrics : SessionMetrics) (t : metrics_table) : metrics_table :=
  <[session_id :=
    match t !! session_id with
    | Some existing =>
        MkMetrics (start_time existing) (last_activity metrics) (turn_count metrics) (total_tokens metrics)
          (total_tool_calls metrics) (is_completed metrics) (backend_type metrics) (model metrics) (proxy_user metrics)
          (match eos_emitted_at metrics with Some v => Some v | None => eos_emitted_at existing end)
          (match eos_signal_type metrics with Some v => Some v | None => eos_signal_type existing end)
          (match eos_reason metrics with Some v => Some v | None => eos_reason existing end)
          (eos_error_classification existing) (eos_error_status_code existing)
    | None => metrics
    end]> t.

(** [claim_eos_emission]: was a row updated, and the table afterwards. *)
Definition claim_eos_emission (session_id : str) (emitted_at : Q) (signal_type : str) (reason : option str)
    (t : metrics_table) : bool * metrics_table :=
  match t !! session_id with
  | Some m =>
      match eos_emitted_at m with
      | None =>
          (true, <[session_id :=
            MkMetrics (start_time m) (last_activity m) (turn_count m) (total_tokens m) (total_tool_calls m) true
              (backend_type m) (model m) (proxy_user m) (Some emitted_at) (Some signal_type) reason
              (eos_error_classification m) (eos_error_status_code m)]> t)
      | Some _ => (false, t)
      end
  | None => (false, t)
  end.

(** [SessionMetricsRepository.has_ended] *)
Definition repository_has_ended (session_id : str) (t : metrics_table) : bool :=
  match t !! session_id with Some m => bool_decide (is_Some (eos_emitted_at m)) | None => false end.

(** [UsageTrackingEosSubscriber._handle_eos_event]. *)
Definition track_usage (now : Q) (event : RemoteBackendConnectionEndOfSessionEvent) (t : metrics_table) : metrics_table :=
  let is_error := match ev_termination_category event with ERROR => true | NORMAL => false end in
  let classification := if is_error then classification_value <$> ev_error_classification event else None in
  let status_code := if is_error then ev_error_status_code event else None in
  let signal_type := Some (signal_type_value (ev_signal_type event)) in
  <[ev_session_id event :=
    match t !! ev_session_id event with
    | Some m =>
        MkMetrics (start_time m) now (turn_count m) (total_tokens m) (total_tool_calls m) true (backend_type m)
          (model m) (proxy_user m) (Some (ev_timestamp event)) signal_type (ev_reason event) classification status_code
    | None =>
        MkMetrics (ev_timestamp event) now 0 0 0 true None None None (Some (ev_timestamp event)) signal_type
          (ev_reason event) classification status_code
    end]> t.

(** ** The initializer of session metrics

    What [ensure_session_metrics] does before the database: the cache afterwards, and
    whether the row is written.  The lock of a session is new whenever it is taken. *)

Definition minimal_metrics (observed_at : Q) : SessionMetrics :=
  MkMetrics observed_at observed_at 0 0 0 false None None None None None None None None.

Definition ensure_session_metrics (cache_ttl_seconds now : Q) (session_id : str) (cache : list (str * Q)) :
    list (str * Q) * bool :=
  let create cache :=
    let cache := if od_mem session_id cache then cache else od_set session_id now cache in
    match od_get session_id cache with
    | Some cached_time => (cache, negb (Qltb (now - cached_time) cache_ttl_seconds))
    | None => (cache, true)
    end in
  match od_get session_id cache with
  | Some cached_time =>
      if Qltb (now - cached_time) cache_ttl_seconds then (cache, false) else create (od_pop session_id cache)
  | None => create cache
  end.

(** ** The cache of ended sessions *)

Definition FAIL_OPEN_CACHE_TTL_SECONDS : Q := 300.
Definition MAX_CACHE_SIZE : Z := 100000.

Definition truthy_id (id : option str) : option str :=
  match id with Some s => if is_empty s then None else Some s | None => None end.

Fixpoint check_keys (now : Q) (keys : list str) (ended : list (str * Q)) : bool * list (str * Q) :=
  match keys with
  | [] => (false, ended)
  | key :: keys =>
      match od_get key ended with
      | None => check_keys now keys ended
      | Some timestamp =>
          if Qltb FAIL_OPEN_CACHE_TTL_SECONDS (now - timestamp) then check_keys now keys (od_pop key ended)
          else (true, ended)
      end
  end.

Definition has_ended (now : Q) (session_id : str) (request_id : option str) (ended : list (str * Q)) :
    bool * list (str * Q) :=
  check_keys now
    (match truthy_id request_id with Some r => [r; session_id] | None => [session_id] end) ended.

Definition _prune_expired_entries (now : Q) (ended : list (str * Q)) : list (str * Q) :=
  od_del (filter (λ e, Qltb FAIL_OPEN_CACHE_TTL_SECONDS (now - e.2) = true) ended).*1 ended.

Definition _mark_ended (now : Q) (key : str) (ended : list (str * Q)) : list (str * Q) :=
  let ended := _prune_expired_entries now ended in
  let ended := if od_mem key ended then od_pop key ended else ended in
  let ended := od_set key now ended in
  if (MAX_CACHE_SIZE <? Z.of_nat (length ended))%Z then tail ended else ended.

(** ** The service

    Where a task stands: before the claim, with the answer of the claim ([None] when it
    raised), before and after the check of the repository, before the row of the
    initializer is written, or at its end. *)
Inductive task : Type :=
| Claiming (signal : EndOfSessionSignal) (emitted_at : Q)
| Claimed (signal : EndOfSessionSignal) (emitted_at : Q) (answer : option bool)
| Checking (signal : EndOfSessionSignal)
| Checked (signal : EndOfSessionSignal) (answer : option bool)
| Upserting (session_id : str) (observed_at : Q)
| Ended.

Record eos_state : Type := MkEos {
  table : metrics_table;
  ended_sessions : list (str * Q);
  initialization_cache : list (str * Q);
  tasks : list task;
  published : list RemoteBackendConnectionEndOfSessionEvent
}.

Definition set_ended (e : list (str * Q)) (s : eos_state) : eos_state :=
  MkEos (table s) e (initialization_cache s) (tasks s) (published s).
Definition set_table (t : metrics_table) (s : eos_state) : eos_state :=
  MkEos t (ended_sessions s) (initialization_cache s) (tasks s) (published s).
Definition set_init_cache (c : list (str * Q)) (s : eos_state) : eos_state :=
  MkEos (table s) (ended_sessions s) c (tasks s) (published s).
Definition set_task (i : nat) (t : task) (s : eos_state) : eos_state :=
  MkEos (table s) (ended_sessions s) (initialization_cache s) (<[i := t]> (tasks s)) (published s).
Definition add_task (t : task) (s : eos_state) : eos_state :=
  MkEos (table s) (ended_sessions s) (initialization_cache s) (tasks s ++ [t]) (published s).
Definition publish (event : RemoteBackendConnectionEndOfSessionEvent) (s : eos_state) : eos_state :=
  MkEos (table s) (ended_sessions s) (initialization_cache s) (tasks s) (published s ++ [event]).

Definition mark_ended (now : Q) (key : str) (s : eos_state) : eos_state :=
  set_ended (_mark_ended now key (ended_sessions s)) s.

Definition dedupe_key (signal : EndOfSessionSignal) : str :=
  match truthy_id (sg_request_id signal) with Some r => r | None => sg_session_id signal end.

Definition event_of (signal : EndOfSessionSignal) (emitted_at : Q) : RemoteBackendConnectionEndOfSessionEvent :=
  let error_classification :=
    match sg_termination_category signal, sg_error_classification signal with
    | ERROR, None => Some UNKNOWN_ERROR
    | _, c => c
    end in
  MkEvent (sg_session_id signal) (sg_signal_type signal) (sg_termination_category signal) (sg_reason signal)
    error_classification (sg_error_status_code signal) (sg_protocol signal) (sg_request_id signal) (sg_backend signal)
    emitted_at.

(** [record_signal] up to its first wait. *)
Definition record_signal (config : EndOfSessionConfig) (now : Q) (signal : EndOfSessionSignal) (s : eos_state) :
    eos_state :=
  if negb (eos_enabled config) then s
  else if negb (emit_events config) then s
  else if is_empty (sg_session_id signal) then s
  else
    let '(ended, cache) := has_ended now (sg_session_id signal) (sg_request_id signal) (ended_sessions s) in
    let s := set_ended cache s in
    if ended then s else add_task (Claiming signal now) s.

(** What happens to a query: it succeeds, fails and is rolled back, or fails although
    it was committed. *)
Inductive db_outcome : Type := DbOk | DbFailed | DbLost.

Definition run_claim (i : nat) (signal : EndOfSessionSignal) (emitted_at : Q) (o : db_outcome) (s : eos_state) :
    eos_state :=
  let '(claimed, t) :=
    claim_eos_emission (sg_session_id signal) emitted_at (signal_type_value (sg_signal_type signal)) (sg_reason signal)
      (table s) in
  match o with
  | DbOk => set_task i (Claimed signal emitted_at (Some claimed)) (set_table t s)
  | DbFailed => set_task i (Claimed signal emitted_at None) s
  | DbLost => set_task i (Claimed signal emitted_at None) (set_table t s)
  end.

(** [record_signal] from the answer of the claim to its next wait. *)
Definition after_claim (i : nat) (now : Q) (signal : EndOfSessionSignal) (emitted_at : Q) (answer : option bool)
    (s : eos_state) : eos_state :=
  match answer with
  | Some true =>
      let s := mark_ended now (dedupe_key signal) (mark_ended now (sg_session_id signal) s) in
      publish (event_of signal emitted_at) (set_task i Ended s)
  | Some false => set_task i (Checking signal) (mark_ended now (dedupe_key signal) s)
  | None =>
      let '(ended, cache) := has_ended now (sg_session_id signal) (sg_request_id signal) (ended_sessions s) in
      let s := set_task i Ended (set_ended cache s) in
      if ended then s else publish (event_of signal emitted_at) (mark_ended now (dedupe_key signal) s)
  end.

(** [ensure_session_metrics] up to its first wait. *)
Definition ensure_metrics (cache_ttl_seconds now : Q) (session_id : str) (observed_at : Q) (s : eos_state) : eos_state :=
  let '(cache, write) := ensure_session_metrics cache_ttl_seconds now session_id (initialization_cache s) in
  let s := set_init_cache cache s in
  if write then add_task (Upserting session_id observed_at) s else s.

Definition run_upsert (i : nat) (now : Q) (session_id : str) (observed_at : Q) (o : db_outcome) (s : eos_state) :
    eos_state :=
  let t := upsert session_id (minimal_metrics observed_at) (table s) in
  let s := set_task i Ended s in
  match o with
  | DbOk => set_init_cache (od_set session_id now (initialization_cache s)) (set_table t s)
  | DbFailed => s
  | DbLost => set_table t s
  end.

(** The steps: a signal is recorded, a query of a task runs, a task goes on, a task is
    cancelled, the usage subscriber gets an event, the initializer is called, and the
    proxy is started anew. *)
Inductive step_label : Type :=
| LSignal (now : Q) (signal : EndOfSessionSignal)
| LQuery (i : nat) (now : Q) (o : db_outcome)
| LResume (i : nat) (now : Q)
| LCancel (i : nat)
| LTrack (n : nat) (now : Q) (o : db_outcome)
| LEnsure (now : Q) (session_id : str) (observed_at : Q)
| LRestart.

Section service.
Context (config : EndOfSessionConfig) (cache_ttl_seconds : Q).

Definition step (l : step_label) (s : eos_state) : option eos_state :=
  match l with
  | LSignal now signal => Some (record_signal config now signal s)
  | LQuery i now o =>
      match tasks s !! i with
      | Some (Claiming signal emitted_at) => Some (run_claim i signal emitted_at o s)
      | Some (Checking signal) =>
          let answer := match o with DbOk => Some (repository_has_ended (sg_session_id signal) (table s)) | _ => None end in
          Some (set_task i (Checked signal answer) s)
      | Some (Upserting session_id observed_at) => Some (run_upsert i now session_id observed_at o s)
      | _ => None
      end
  | LResume i now =>
      match tasks s !! i with
      | Some (Claimed signal emitted_at answer) => Some (after_claim i now signal emitted_at answer s)
      | Some (Checked signal answer) =>
          let s := set_task i Ended s in
          Some (match answer with Some true => mark_ended now (sg_session_id signal) s | _ => s end)
      | _ => None
      end
  | LCancel i => match tasks s !! i with Some _ => Some (set_task i Ended s) | None => None end
  | LTrack n now o =>
      match published s !! n with
      | Some event => Some (match o with DbFailed => s | _ => set_table (track_usage now event (table s)) s end)
      | None => None
      end
  | LEnsure now session_id observed_at => Some (ensure_metrics cache_ttl_seconds now session_id observed_at s)
  | LRestart => Some (MkEos (table s) [] [] [] (published s))
  end.

Fixpoint run (ls : list step_label) (s : eos_state) : option eos_state :=
  match ls with [] => Some s | l :: ls => match step l s with Some s' => run ls s' | None => None end end.

End service.

Definition initial (t : metrics_table) : eos_state := MkEos t [] [] [] [].

(** ** At most one event

    The events of a session, its claims that succeeded or may have, and the claims that
    failed. *)

Definition of_session (session_id : str) (e : RemoteBackendConnectionEndOfSessionEvent) : bool :=
  String.eqb (ev_session_id e) session_id.

Definition events_of (session_id : str) (events : list RemoteBackendConnectionEndOfSessionEvent) : nat :=
  length (filter (λ e, of_session session_id e = true) events).

(** A task whose claim for the session was answered with anything but a refusal. *)
Definition may_publish (session_id : str) (t : task) : bool :=
  match t with
  | Claimed signal _ answer =>
      String.eqb (sg_session_id signal) session_id && match answer with Some false => false | _ => true end
  | _ => false
  end.

Definition pending (session_id : str) (ts : list task) : nat := length (filter (λ t, may_publish session_id t = true) ts).

#[local] Arguments events_of : simpl never.
#[local] Arguments pending : simpl never.

(** Does the step make a claim for the session fail? *)
Definition claim_fails (session_id : str) (l : step_label) (s : eos_state) : bool :=
  match l with
  | LQuery i _ o =>
      match o, tasks s !! i with
      | DbOk, _ => false
      | _, Some (Claiming signal _) => String.eqb (sg_session_id signal) session_id
      | _, _ => false
      end
  | _ => false
  end.

Section once.
Context (config : EndOfSessionConfig) (cache_ttl_seconds : Q).

Notation step := (step config cache_ttl_seconds).
Notation run := (run config cache_ttl_seconds).

Fixpoint failed_claims (session_id : str) (ls : list step_label) (s : eos_state) : nat :=
  match ls with
  | [] => 0
  | l :: ls =>
      Nat.b2n (claim_fails session_id l s) + match step l s with Some s' => failed_claims session_id ls s' | None => 0 end
  end.

Lemma pending_set sid i t t' ts :
  ts !! i = Some t →
  pending sid (<[i := t']> ts) + Nat.b2n (may_publish sid t) = pending sid ts + Nat.b2n (may_publish sid t').
Proof.
  unfold pending. revert i. induction ts as [|u ts IH]; intros [|i] Hi; simplify_eq/=.
  - rewrite !filter_cons. by repeat case_decide; destruct (may_publish sid t), (may_publish sid t'); simpl; try lia.
  - specialize (IH _ Hi). rewrite !filter_cons. case_decide; simpl; lia.
Qed.

Lemma pending_snoc sid t ts : pending sid (ts ++ [t]) = pending sid ts + Nat.b2n (may_publish sid t).
Proof. unfold pending. rewrite filter_app length_app filter_cons. by case_decide; destruct (may_publish sid t). Qed.

Lemma events_snoc sid e es : events_of sid (es ++ [e]) = events_of sid es + Nat.b2n (of_session sid e).
Proof. unfold events_of. rewrite filter_app length_app filter_cons. by case_decide; destruct (of_session sid e). Qed.

(** Whether a session is claimed, as a number. *)
Definition claimed (session_id : str) (t : metrics_table) : nat := Nat.b2n (repository_has_ended session_id t).

Lemma claim_claims sid x at_ ty r t :
  let res := claim_eos_emission x at_ ty r t in
  claimed sid res.2 = claimed sid t + Nat.b2n (String.eqb x sid && res.1).
Proof.
  unfold claim_eos_emission, claimed, repository_has_ended.
  destruct (t !! x) as [m|] eqn:Hx; simpl; [|rewrite andb_false_r /=; lia].
  destruct (eos_emitted_at m) eqn:Hm; simpl; [rewrite andb_false_r /=; lia|].
  rewrite andb_true_r. destruct (String.eqb_spec x sid) as [->|Hs]; [by rewrite lookup_insert_eq Hx Hm|].
  by rewrite lookup_insert_ne // Nat.add_0_r.
Qed.

Lemma claimed_insert sid x m t :
  (repository_has_ended x t = true → is_Some (eos_emitted_at m)) → claimed sid t ≤ claimed sid (<[x := m]> t).
Proof.
  unfold claimed, repository_has_ended. intros Hm. destruct (decide (x = sid)) as [<-|Hne].
  - rewrite lookup_insert_eq. destruct (t !! x) as [m'|]; [|simpl; lia].
    case_bool_decide; [|simpl; lia]. by rewrite bool_decide_true; [apply Hm|].
  - by rewrite lookup_insert_ne.
Qed.

Lemma track_claims sid now e t : claimed sid t ≤ claimed sid (track_usage now e t).
Proof. apply claimed_insert. intros _. by destruct (t !! _). Qed.

Lemma upsert_claims sid x obs t : claimed sid t ≤ claimed sid (upsert x (minimal_metrics obs) t).
Proof.
  apply claimed_insert. unfold repository_has_ended. destruct (t !! x); [|done]. by intros H%bool_decide_eq_true.
Qed.

(** The account of a session: what counts against it may not grow faster than what
    counts for it. *)
Definition accounts (sid : str) (s s' : eos_state) (fails : nat) : Prop :=
  events_of sid (published s') + pending sid (tasks s') + claimed sid (table s) ≤
  events_of sid (published s) + pending sid (tasks s) + claimed sid (table s') + fails.

Lemma record_signal_accounts sid now signal s : accounts sid s (record_signal config now signal s) 0.
Proof.
  unfold record_signal, accounts. repeat (case_match; simpl; [lia|]).
  destruct (has_ended _ _ _ _) as [[] cache]; simpl; [lia|]. rewrite pending_snoc /=. lia.
Qed.

Lemma after_claim_accounts sid i now signal at_ answer s :
  tasks s !! i = Some (Claimed signal at_ answer) → accounts sid s (after_claim i now signal at_ answer s) 0.
Proof.
  intros Hi. pose proof (λ t', pending_set sid i _ t' _ Hi) as Hp. unfold accounts.
  assert (of_session sid (event_of signal at_) = String.eqb (sg_session_id signal) sid) as He by done.
  destruct answer as [[]|]; cbn.
  - specialize (Hp Ended). rewrite events_snoc He. rewrite /= andb_true_r in Hp. lia.
  - specialize (Hp (Checking signal)). rewrite /= andb_false_r in Hp. simpl in Hp. lia.
  - specialize (Hp Ended). rewrite /= andb_true_r in Hp.
    destruct (has_ended _ _ _ _) as [[] cache]; cbn; [lia|]. rewrite events_snoc He. lia.
Qed.

Lemma run_claim_accounts sid i signal at_ o s :
  tasks s !! i = Some (Claiming signal at_) →
  accounts sid s (run_claim i signal at_ o s)
    (Nat.b2n match o with DbOk => false | _ => String.eqb (sg_session_id signal) sid end).
Proof.
  intros Hi. pose proof (λ t', pending_set sid i _ t' _ Hi) as Hp. unfold accounts, run_claim.
  pose proof (claim_claims sid (sg_session_id signal) at_ (signal_type_value (sg_signal_type signal)) (sg_reason signal) (table s)) as Hc.
  destruct (claim_eos_emission _ _ _ _ _) as [ok t]. cbn [fst snd] in Hc.
  destruct o; cbn.
  - specialize (Hp (Claimed signal at_ (Some ok))). destruct ok; simpl in Hp; lia.
  - specialize (Hp (Claimed signal at_ None)). rewrite /= andb_true_r in Hp. lia.
  - specialize (Hp (Claimed signal at_ None)). rewrite /= andb_true_r in Hp. lia.
Qed.

Lemma idle_accounts sid i t t' s s' :
  tasks s !! i = Some t → may_publish sid t' = false → published s' = published s →
  tasks s' = <[i := t']> (tasks s) → claimed sid (table s) ≤ claimed sid (table s') → accounts sid s s' 0.
Proof.
  intros Hi Ht Hpub Htasks Htab. unfold accounts. rewrite Hpub Htasks.
  pose proof (pending_set sid i _ t' _ Hi) as Hp. rewrite Ht in Hp. simpl in Hp. lia.
Qed.

Lemma step_accounts sid l s s' :
  step l s = Some s' → accounts sid s s' (Nat.b2n (claim_fails sid l s)).
Proof.
  destruct l as [now signal|i now o|i now|i|n now o|now x obs|]; cbn.
  - intros [= <-]. apply record_signal_accounts.
  - destruct (tasks s !! i) as [[]|] eqn:Hi; try done; intros [= <-].
    + destruct o; by apply run_claim_accounts.
    + replace (Nat.b2n _) with 0 by (by destruct o). by eapply (idle_accounts _ _ _ (Checked _ _)).
    + replace (Nat.b2n _) with 0 by (by destruct o). unfold run_upsert.
      destruct o; (eapply (idle_accounts _ _ _ Ended); [done..|]); simpl; try lia; apply upsert_claims.
  - destruct (tasks s !! i) as [[]|] eqn:Hi; try done; intros [= <-]; [by apply after_claim_accounts|].
    destruct answer as [[]|]; by eapply (idle_accounts _ _ _ Ended).
  - destruct (tasks s !! i) eqn:Hi; [|done]. intros [= <-]. by eapply (idle_accounts _ _ _ Ended).
  - destruct (published s !! n) as [e|] eqn:He; [|done]. intros [= <-]. unfold accounts.
    pose proof (track_claims sid now e (table s)). destruct o; simpl; lia.
  - intros [= <-]. unfold accounts, ensure_metrics. destruct (ensure_session_metrics _ _ _ _) as [c []]; simpl; [|lia].
    rewrite pending_snoc /=. lia.
  - intros [= <-]. unfold accounts. simpl. assert (pending sid [] = 0) as -> by done. lia.
Qed.

Lemma run_accounts sid ls s s' :
  run ls s = Some s' → accounts sid s s' (failed_claims sid ls s).
Proof.
  revert s. induction ls as [|l ls IH]; intros s; simpl; [intros [= ->]; unfold accounts; lia|].
  destruct (step l s) as [s1|] eqn:Hl; [|done]. intros Hrun%IH. apply (step_accounts sid) in Hl.
  unfold accounts in *. lia.
Qed.

Lemma claimed_le sid t : claimed sid t ≤ 1.
Proof. unfold claimed. by destruct (repository_has_ended _ _); simpl; lia. Qed.

(** C29: Along every interleaving of signals, database answers, cancellations and
    restarts, a session gets at most one end-of-session event more than claims for it
    failed, and none more if it had ended already: without database failures at most
    one event, for ever. *)
Theorem one_event_per_session ls t s session_id :
  run ls (initial t) = Some s →
  events_of session_id (published s) + Nat.b2n (repository_has_ended session_id t) ≤
  1 + failed_claims session_id ls (initial t).
Proof.
  intros Hrun%(run_accounts session_id). pose proof (claimed_le session_id (table s)).
  unfold accounts, claimed in *. simpl in *. lia.
Qed.
End once.

(** ** The cache blocks repetitions *)

Lemma prune_spec now ended :
  od_ok ended →
  od_ok (_prune_expired_entries now ended) ∧
  ∀ key, od_get key (_prune_expired_entries now ended) =
    match od_get key ended with
    | Some t => if Qltb FAIL_OPEN_CACHE_TTL_SECONDS (now - t) then None else Some t
    | None => None
    end.
Proof.
  intros Hok. unfold _prune_expired_entries. split; [by apply od_del_ok|]. intros key. rewrite od_del_get //.
  destruct (od_get key ended) as [t|] eqn:Hk; [|by case_decide].
  destruct (Qltb FAIL_OPEN_CACHE_TTL_SECONDS (now - t)) eqn:Ht; case_decide as Hin; try done; exfalso.
  - apply Hin, list_elem_of_fmap. exists (key, t). split; [done|].
    apply list_elem_of_filter. split; [done|]. by apply od_get_Some_elem.
  - apply list_elem_of_fmap in Hin as ([k t'] & -> & [Ht' Hin]%list_elem_of_filter).
    apply od_elem_get in Hin; [|done]. simpl in *. congruence.
Qed.

Lemma pop_absent (key : str) (ended : list (str * Q)) :
  od_ok ended → od_get key (if od_mem key ended then od_pop key ended else ended) = None.
Proof. intros Hok. unfold od_mem. destruct (od_get key ended) eqn:Hk; [by apply od_get_pop_eq|done]. Qed.

Lemma mark_ok now key ended : od_ok ended → od_ok (_mark_ended now key ended).
Proof.
  intros Hok. unfold _mark_ended. apply (prune_spec now) in Hok as [Hok _].
  assert (od_ok (od_set key now (if od_mem key (_prune_expired_entries now ended)
    then od_pop key (_prune_expired_entries now ended) else _prune_expired_entries now ended))).
  { apply od_set_ok. destruct (od_mem _ _); [by apply od_pop_ok|done]. }
  destruct (MAX_CACHE_SIZE <? _)%Z; [by apply od_tail_ok|done].
Qed.

(** A key that was just marked is in the cache, however full it is. *)
Lemma mark_get now key ended : od_ok ended → od_get key (_mark_ended now key ended) = Some now.
Proof.
  intros Hok. unfold _mark_ended. apply (prune_spec now) in Hok as [Hok _].
  pose proof (pop_absent key _ Hok) as Hk. set (d := if od_mem _ _ then _ else _) in *.
  rewrite od_set_new //. destruct (MAX_CACHE_SIZE <? _)%Z eqn:Hm.
  - apply Z.ltb_lt in Hm. rewrite length_app /= in Hm. destruct d as [|e d]; [simpl in Hm; unfold MAX_CACHE_SIZE in Hm; lia|].
    simpl. rewrite od_get_app. cbn in Hk. destruct e as [k v]. case_decide; [done|]. rewrite Hk /=. by rewrite decide_True.
  - rewrite od_get_app Hk /=. by rewrite decide_True.
Qed.

Lemma check_keys_hit now keys key t ended :
  key ∈ keys → od_ok ended → od_get key ended = Some t → (now - t <= FAIL_OPEN_CACHE_TTL_SECONDS)%Q →
  (check_keys now keys ended).1 = true.
Proof.
  intros Hin Hok Hk Ht. revert ended Hok Hk. induction keys as [|k keys IH]; intros ended Hok Hk; [set_solver|]. simpl.
  destruct (decide (k = key)) as [->|Hne].
  - rewrite Hk. by qcase; [exfalso; lra|].
  - assert (key ∈ keys) as Hin' by set_solver. destruct (od_get k ended) as [t'|]; [|by apply IH].
    destruct (Qltb _ _); [|done]. apply IH; [done|by apply od_pop_ok|by rewrite od_get_pop_ne].
Qed.

Lemma check_keys_ok now keys ended : od_ok ended → od_ok (check_keys now keys ended).2.
Proof.
  revert ended. induction keys as [|k keys IH]; intros ended Hok; simpl; [done|].
  destruct (od_get k ended); [|by apply IH]. destruct (Qltb _ _); [|done]. by apply IH, od_pop_ok.
Qed.

Lemma dedupe_key_checked signal :
  dedupe_key signal ∈
  match truthy_id (sg_request_id signal) with Some r => [r; sg_session_id signal] | None => [sg_session_id signal] end.
Proof. unfold dedupe_key. destruct (truthy_id _); set_solver. Qed.

Section emission.
Context (config : EndOfSessionConfig) (cache_ttl_seconds : Q).

Notation step := (step config cache_ttl_seconds).
Notation run := (run config cache_ttl_seconds).

Lemma record_signal_published now signal s : published (record_signal config now signal s) = published s.
Proof. unfold record_signal. repeat (case_match; [done|]). by destruct (has_ended _ _ _ _) as [[] cache]. Qed.

(** A signal with a key that was marked in the last five minutes is dropped. *)
Lemma marked_signal_dropped signal now marked s :
  od_ok (ended_sessions s) → od_get (dedupe_key signal) (ended_sessions s) = Some marked →
  (now - marked <= FAIL_OPEN_CACHE_TTL_SECONDS)%Q → tasks (record_signal config now signal s) = tasks s.
Proof.
  intros Hok Hk Ht. unfold record_signal. repeat (case_match; [done|]). unfold has_ended.
  pose proof (check_keys_hit now _ _ _ _ (dedupe_key_checked signal) Hok Hk Ht) as Hhit.
  destruct (check_keys _ _ _) as [ended cache]. simpl in Hhit. by subst ended.
Qed.

Lemma record_signal_starts now signal s :
  eos_enabled config = true → emit_events config = true → sg_session_id signal ≠ EmptyString →
  od_ok (ended_sessions s) →
  (has_ended now (sg_session_id signal) (sg_request_id signal) (ended_sessions s)).1 = false →
  ∃ cache, od_ok cache ∧ record_signal config now signal s = add_task (Claiming signal now) (set_ended cache s).
Proof.
  intros Hen Hem Hsid Hok Hnot. unfold record_signal. rewrite Hen Hem.
  assert (is_empty (sg_session_id signal) = false) as -> by (by destruct (sg_session_id signal)).
  unfold has_ended in *. set (keys := match truthy_id _ with Some _ => _ | None => _ end) in *.
  pose proof (check_keys_ok now keys _ Hok) as Hok'. destruct (check_keys _ _ _) as [ended cache]. simpl in *. subst ended.
  by exists cache.
Qed.

(** A signal of a session that has a row and has not ended is emitted: the claim
    marks the row, exactly one event is published, with the data of the signal, and for
    five minutes further signals with the same request (or session) are dropped. *)
Theorem signal_is_emitted s signal m now now1 now2 :
  eos_enabled config = true → emit_events config = true → sg_session_id signal ≠ EmptyString →
  od_ok (ended_sessions s) →
  (has_ended now (sg_session_id signal) (sg_request_id signal) (ended_sessions s)).1 = false →
  table s !! sg_session_id signal = Some m → eos_emitted_at m = None →
  ∃ s', run [LSignal now signal; LQuery (length (tasks s)) now1 DbOk; LResume (length (tasks s)) now2] s = Some s' ∧
    published s' = published s ++ [event_of signal now] ∧
    table s' = (claim_eos_emission (sg_session_id signal) now (signal_type_value (sg_signal_type signal))
                  (sg_reason signal) (table s)).2 ∧
    repository_has_ended (sg_session_id signal) (table s') = true ∧
    ∀ later t, dedupe_key later = dedupe_key signal → (t - now2 <= FAIL_OPEN_CACHE_TTL_SECONDS)%Q →
      tasks (record_signal config t later s') = tasks s'.
Proof.
  intros Hen Hem Hsid Hok Hnot Hrow Hun.
  destruct (record_signal_starts now signal s Hen Hem Hsid Hok Hnot) as (cache & Hok' & Hstart).
  cbn [EndOfSession.run EndOfSession.step]. rewrite Hstart /=.
  rewrite list_lookup_middle //. unfold run_claim. cbn [table set_ended add_task]. unfold claim_eos_emission.
  rewrite Hrow Hun /=. rewrite list_lookup_insert_eq; [rewrite length_app /=; lia|]. eexists. split; [done|].
  split; [done|]. split; [done|]. split; [by rewrite /repository_has_ended /= lookup_insert_eq|].
  intros later t Hkey Ht. apply (marked_signal_dropped later t now2); [..|done]; cbn.
  - by repeat apply mark_ok.
  - rewrite Hkey. by apply mark_get, mark_ok.
Qed.

(** While the database fails, the cache still lets only one of several signals of a
    request through. *)
Lemma fail_open_deduplicates s i j signal signal' a a' now now' :
  i ≠ j → tasks s !! i = Some (Claimed signal a None) → tasks s !! j = Some (Claimed signal' a' None) →
  dedupe_key signal' = dedupe_key signal → od_ok (ended_sessions s) →
  (has_ended now (sg_session_id signal) (sg_request_id signal) (ended_sessions s)).1 = false →
  (now' - now <= FAIL_OPEN_CACHE_TTL_SECONDS)%Q →
  ∃ s', run [LResume i now; LResume j now'] s = Some s' ∧ published s' = published s ++ [event_of signal a].
Proof.
  intros Hij Hi Hj Hkey Hok Hnot Ht. cbn [EndOfSession.run EndOfSession.step]. rewrite Hi. cbn [after_claim].
  unfold has_ended in *. set (keys := match truthy_id _ with Some _ => _ | None => _ end) in *.
  pose proof (check_keys_ok now keys _ Hok) as Hok'. destruct (check_keys now keys _) as [ended cache]. simpl in *. subst ended.
  cbn. rewrite list_lookup_insert_ne // Hj. cbn. unfold has_ended.
  pose proof (check_keys_hit now' _ (dedupe_key signal) now (_mark_ended now (dedupe_key signal) cache)
    (eq_ind _ (λ k, k ∈ _) (dedupe_key_checked signal') _ Hkey) (mark_ok _ _ _ Hok') (mark_get _ _ _ Hok') Ht) as Hhit.
  destruct (check_keys now' _ _) as [ended' cache']. simpl in Hhit. subst ended'. cbn. by eexists.
Qed.

(** ** Who writes the rows *)

(** With a positive lifetime the initializer finds the entry it has just made and
    takes it for the work of another task: it never writes a row. *)
Lemma initializer_writes_nothing now session_id cache :
  (0 < cache_ttl_seconds)%Q → od_ok cache → (ensure_session_metrics cache_ttl_seconds now session_id cache).2 = false.
Proof.
  intros Hpos Hok. unfold ensure_session_metrics.
  assert (Qltb (now - now) cache_ttl_seconds = true) as Hnow by (qcase; [done|exfalso; lra]).
  assert (∀ c : list (str * Q), od_get session_id c = None → od_mem session_id c = false) as Hmem by (by intros c Hc; rewrite /od_mem Hc).
  destruct (od_get session_id cache) as [t|] eqn:Hc.
  - destruct (Qltb (now - t) cache_ttl_seconds); [done|].
    rewrite Hmem; [by apply od_get_pop_eq|]. by rewrite od_get_set_eq Hnow.
  - rewrite Hmem //. by rewrite od_get_set_eq Hnow.
Qed.
(** With an empty table, no row that an event could be claimed on is ever there. *)
Definition barren (s : eos_state) : Prop :=
  table s = ∅ ∧ published s = [] ∧ od_ok (initialization_cache s) ∧
  Forall (λ t, match t with Upserting _ _ => False | Claimed _ _ answer => answer = Some false | _ => True end) (tasks s).

Lemma create_ok now session_id (cache : list (str * Q)) :
  od_ok cache → od_ok (ensure_session_metrics cache_ttl_seconds now session_id cache).1.
Proof.
  intros Hok. unfold ensure_session_metrics.
  assert (∀ c : list (str * Q), od_ok c → od_ok (if od_mem session_id c then c else od_set session_id now c)) as Hset.
  { intros c Hc. destruct (od_mem _ _); [done|by apply od_set_ok]. }
  destruct (od_get session_id cache); [destruct (Qltb _ _); [done|]|];
    destruct (od_get session_id _); simpl; auto using od_pop_ok.
Qed.

Lemma barren_step l s s' :
  (0 < cache_ttl_seconds)%Q → (∀ i now o, l = LQuery i now o → o = DbOk) → barren s → step l s = Some s' → barren s'.
Proof.
  intros Hpos Hdb (Ht & Hp & Hc & Hts). unfold barren.
  destruct l as [now signal|i now o|i now|i|n now o|now x obs|]; cbn.
  - intros [= <-]. unfold record_signal. repeat (case_match; [done|]).
    destruct (has_ended _ _ _ _) as [[] cache]; cbn; repeat split; try done. by apply Forall_app_2; [|constructor].
  - rewrite (Hdb i now o eq_refl). destruct (tasks s !! i) as [[]|] eqn:Hi; try done; intros [= <-].
    + unfold run_claim, claim_eos_emission. rewrite Ht lookup_empty /=. repeat split; try done. by apply Forall_insert.
    + repeat split; try done. by apply Forall_insert.
    + by apply (Forall_lookup_1 _ _ _ _ Hts) in Hi.
  - destruct (tasks s !! i) as [[]|] eqn:Hi; try done; intros [= <-].
    + apply (Forall_lookup_1 _ _ _ _ Hts) in Hi as ->. repeat split; try done. by apply Forall_insert.
    + destruct answer as [[]|]; repeat split; try done; by apply Forall_insert.
  - destruct (tasks s !! i) eqn:Hi; [|done]. intros [= <-]. repeat split; try done. by apply Forall_insert.
  - by rewrite Hp.
  - intros [= <-]. unfold ensure_metrics. pose proof (initializer_writes_nothing now x _ Hpos Hc) as Hw.
    pose proof (create_ok now x _ Hc) as Hok.
    destruct (ensure_session_metrics _ _ _ _) as [cache write]. simpl in Hw, Hok. by subst write.
  - intros [= <-]. repeat split; try done. by constructor.
Qed.

(** A proxy that starts with an empty table never emits an event, as long as the
    database works: the only other writer of rows is the handler of the events. *)
Theorem no_event_without_failure ls s :
  (0 < cache_ttl_seconds)%Q → (∀ i now o, LQuery i now o ∈ ls → o = DbOk) →
  run ls (initial ∅) = Some s → published s = [].
Proof.
  intros Hpos Hdb Hrun. assert (barren (initial ∅)) as Hb by (repeat split; constructor).
  revert Hdb Hb Hrun. generalize (initial ∅). induction ls as [|l ls IH]; simpl; intros s0 Hdb Hb Hrun.
  - injection Hrun as <-. apply Hb.
  - destruct (step l s0) as [s1|] eqn:Hl; [|done]. eapply IH; [set_solver| |done].
    eapply barren_step; [done| |done..]. intros i now o ->. eapply Hdb, list_elem_of_here.
Qed.
End emission.

(** ** Witnesses and observations *)

Definition sample_config : EndOfSessionConfig := MkEosConfig true true.

Definition sample_signal (request_id : option str) : EndOfSessionSignal :=
  MkSignal "s1" DONE_SENTINEL NORMAL 0 None None None (Some "openai"%string) request_id None.

Definition sample_table : metrics_table := {["s1"%string := minimal_metrics 0]}.

Lemma one_event_per_session_witness :
  ∃ s, run sample_config 5 [LSignal 0 (sample_signal None); LSignal 0 (sample_signal None); LQuery 1 1 DbOk;
    LQuery 0 1 DbOk; LResume 0 2; LResume 1 2] (initial sample_table) = Some s ∧
    events_of "s1" (published s) + 0 ≤ 1 + 0.
Proof.
  eexists. split; [vm_compute; reflexivity|]. eapply (one_event_per_session sample_config 5
    [LSignal 0 (sample_signal None); LSignal 0 (sample_signal None); LQuery 1 1 DbOk;
     LQuery 0 1 DbOk; LResume 0 2; LResume 1 2] sample_table). vm_compute. reflexivity.
Defined.

Lemma signal_is_emitted_witness :
  ∃ s', run sample_config 5 [LSignal 0 (sample_signal (Some "r1"%string)); LQuery 0 1 DbOk; LResume 0 2] (initial sample_table) = Some s' ∧
    published s' = [event_of (sample_signal (Some "r1"%string)) 0].
Proof.
  destruct (signal_is_emitted sample_config 5 (initial sample_table) (sample_signal (Some "r1"%string)) (minimal_metrics 0) 0 1 2)
    as (s' & Hrun & Hp & _); [done|done|done|by constructor|done|by vm_compute|done|]. by exists s'.
Defined.

(** A claim that fails next to one that succeeds: the session gets two events. *)
Example failed_claim_doubles_event :
  (λ s, events_of "s1" (published s)) <$>
    run sample_config 5 [LSignal 0 (sample_signal None); LSignal 0 (sample_signal None); LQuery 0 1 DbFailed;
      LQuery 1 1 DbOk; LResume 0 2; LResume 1 2] (initial sample_table) = Some 2.
Proof. vm_compute. reflexivity. Qed.

(** Two requests of a session, while the database fails. *)
Example failing_database_event_per_request :
  (λ s, events_of "s1" (published s)) <$>
    run sample_config 5 [LSignal 0 (sample_signal (Some "r1"%string)); LQuery 0 1 DbFailed; LResume 0 2;
      LSignal 3 (sample_signal (Some "r2"%string)); LQuery 1 4 DbFailed; LResume 1 5] (initial sample_table) = Some 2.
Proof. vm_compute. reflexivity. Qed.

(** The controller announces the session, its completion is signalled, nothing is
    emitted and no row is written. *)
Example announced_session_never_ends :
  (λ s, (published s, table s, tasks s)) <$>
    run sample_config 5 [LEnsure 0 "s1" 0; LSignal 1 (sample_signal None); LQuery 0 2 DbOk; LResume 0 3; LQuery 0 4 DbOk; LResume 0 5]
      (initial ∅) = Some ([], ∅, [Ended]).
Proof. vm_compute. reflexivity. Qed.
