(* ===== verification/EosDetection.v ===== *)
(** * Where end-of-session signals come from

    The three observers that call the service of [EndOfSession]: the stream processor of
    [src/core/services/streaming/end_of_session_stream_processor.py], the tool call
    handler of [end_of_session_tool_call_handler.py] with the detector of
    [src/services/test_execution_reminder/completion_signal_detector.py], and the adapter
    for failed backend calls of [backend_completion_flow/eos_adapter.py].

    Values of metadata that are read as strings are strings where they are present.
    [str] of other values and the decoding of bytes are parameters. *)

From Stdlib Require Import Ascii.
From S2P Require Import Prelude PyStr PyDict Exceptions ToolHistory ToolReactor EndOfSession.
From stdpp Require Import options.

Record DetectionConfig : Type := MkDetection {
  dc_eos :> EndOfSessionConfig;
  detect_stream_signals : bool;
  detect_tool_completion : bool
}.

(** ** The stream processor *)

Inductive chunk_content : Type :=
| TextChunk (text : str)
| BytesChunk (bytes : list Byte.byte)
| DictChunk (fields : list (str * json)).

Record StreamingContent : Type := MkStreaming {
  sc_content : chunk_content;
  sc_metadata : list (str * json);
  sc_is_done : bool
}.

Section detection.
Context (str_of : json → str) (decode_ignore : list Byte.byte → str) (config : DetectionConfig).

Definition str_value (v : json) : str := match v with JStr s => s | _ => str_of v end.

Definition _extract_session_id (content : StreamingContent) : option str :=
  let md := sc_metadata content in
  let first := od_get "session_id" md in
  let session_id := if truthy first then first else od_get "id" md in
  if truthy session_id then str_value <$> session_id else None.

Definition md_str (key : str) (md : list (str * json)) : option str := as_str (od_get key md).

(** The signal for a marker, of a type and with a reason. *)
Definition marker_signal (now : Q) (content : StreamingContent) (session_id : str) (t : EndOfSessionSignalType) (reason : str) :
    EndOfSessionSignal :=
  let md := sc_metadata content in
  MkSignal session_id t NORMAL now (Some reason) None None (md_str "protocol" md) (md_str "request_id" md)
    (if truthy (od_get "backend_name" md) then md_str "backend_name" md else md_str "backend" md).

Definition is_tool_calls (finish_reason : option json) : bool :=
  match finish_reason with Some (JStr s) => String.eqb s "tool_calls" | _ => false end.

(** The finish reason a chunk that is done is judged by. *)
Definition done_reason (content : StreamingContent) : option json :=
  match od_get "finish_reason" (sc_metadata content), sc_content content with
  | (None | Some JNull), DictChunk fields => od_get "finish_reason" fields
  | reason, _ => reason
  end.

Definition content_text (content : StreamingContent) : str :=
  match sc_content content with
  | TextChunk text => text
  | BytesChunk bytes => decode_ignore bytes
  | DictChunk fields => match od_get "content" fields with Some v => str_value v | None => "" end
  end.

Definition _detect_completion_signal (now : Q) (content : StreamingContent) (session_id : str) : option EndOfSessionSignal :=
  let md := sc_metadata content in
  let signal := marker_signal now content session_id in
  if sc_is_done content then
    if is_tool_calls (done_reason content) then None
    else Some (signal DONE_SENTINEL "Stream completed (is_done=True)")
  else if str_contains "[DONE]" (content_text content) then
    Some (signal DONE_SENTINEL "Stream completion sentinel [DONE] detected")
  else
    let finish_reason := od_get "finish_reason" md in
    if truthy finish_reason then
      if is_tool_calls finish_reason then None
      else Some (signal FINISH_REASON ("Finish reason: " +:+ str_value (default JNull finish_reason)))
    else if truthy (od_get "message_stop" md) then
      Some (signal RESPONSE_COMPLETED "Message stop marker detected")
    else if truthy (od_get "response.completed" md) || truthy (od_get "response_completed" md) then
      Some (signal RESPONSE_COMPLETED "Response completion event detected")
    else None.

(** The content is passed on as it is. *)
Definition process (now : Q) (content : StreamingContent) (s : eos_state) : StreamingContent * eos_state :=
  if negb (eos_enabled config) || negb (detect_stream_signals config) then (content, s)
  else
    match _extract_session_id content with
    | None => (content, s)
    | Some session_id =>
        if is_empty session_id then (content, s)
        else
          let '(ended, cache) := has_ended now session_id (md_str "request_id" (sc_metadata content)) (ended_sessions s) in
          let s := set_ended cache s in
          if ended then (content, s)
          else
            match _detect_completion_signal now content session_id with
            | None => (content, s)
            | Some signal => (content, record_signal config now signal s)
            end
    end.

(** ** The tool call handler *)

Fixpoint without_char (c : ascii) (s : str) : str :=
  match s with
  | "" => ""
  | String d s' => if Ascii.eqb c d then without_char c s' else String d (without_char c s')
  end.

Definition normalized_tool (name : str) : str := without_char "-" (without_char "_" name).

Definition COMPLETION_TOOLS : list str :=
  ["attempt_completion"; "finish"; "finish_task"; "task_complete"; "mark_complete"; "complete"; "done"]%string.

Definition is_completion_tool (tool_name : str) : bool :=
  if is_empty tool_name then false
  else existsb (λ pattern, String.eqb (normalized_tool (lower tool_name)) (normalized_tool pattern)) COMPLETION_TOOLS.

Definition completion_signal (now : Q) (context : ToolCallContext) : EndOfSessionSignal :=
  MkSignal (tcx_session_id context) TOOL_COMPLETION NORMAL now
    (Some ("Completion tool call detected: " +:+ tcx_tool_name context)) None None None None (Some (tcx_backend_name context)).

(** The handler waits for [record_signal], whose outcome it does not use. *)
Definition EndOfSessionToolCallHandler (now : Q) : IToolCallHandler eos_state :=
  MkHandler "end_of_session_tool_call_handler" 85
    (λ context s,
      if negb (eos_enabled config) || negb (detect_tool_completion config) then (Ok false, s)
      else if is_empty (tcx_session_id context) then (Ok false, s)
      else
        let '(ended, cache) := has_ended now (tcx_session_id context) None (ended_sessions s) in
        (Ok (if ended then false else is_completion_tool (tcx_tool_name context)), set_ended cache s))
    (λ context s,
      let result := MkReaction false None None in
      if is_empty (tcx_session_id context) then (Ok result, s)
      else (Ok result, record_signal config now (completion_signal now context) s)).

(** ** The adapter for failed backend calls

    What the adapter reads of the cause of an error: the name of its class, the status
    of its response, and its own status. *)
Record error_cause : Type := MkCause {
  cause_type : str;
  cause_response_status : option Z;
  cause_status : option Z
}.

Definition _classify_error (error : exn) (cause : option error_cause) : EndOfSessionErrorClassification :=
  let by_class :=
    if isinstance (ex_class error) [APIConnectionError; APITimeoutError] then TRANSPORT_ERROR
    else if isinstance (ex_class error) [BackendError] then BACKEND_ERROR
    else if isinstance (ex_class error) [LLMProxyError] && (400 <=? ex_status_code error)%Z then HTTP_ERROR
    else UNKNOWN_ERROR in
  match cause with
  | Some c =>
      if str_contains "Timeout" (cause_type c) then TRANSPORT_ERROR
      else if str_contains "Connect" (cause_type c) || str_contains "Connection" (cause_type c) then TRANSPORT_ERROR
      else if str_contains "HTTPStatus" (cause_type c) || str_contains "HTTPError" (cause_type c) then HTTP_ERROR
      else by_class
  | None => by_class
  end.

Definition _extract_status_code (error : exn) (cause : option error_cause) : option Z :=
  let own := if isinstance (ex_class error) [LLMProxyError] then Some (ex_status_code error) else None in
  match cause with
  | Some c =>
      match cause_response_status c, cause_status c with
      | Some status, _ => Some status
      | None, Some status => Some status
      | None, None => own
      end
  | None => own
  end.

(** A request context, as far as the adapter reads it: session and request. *)
Definition error_signal (now : Q) (error : exn) (cause : option error_cause) (session_id : str) (backend_type : option str)
    (context : option (option str * option str)) : EndOfSessionSignal :=
  MkSignal session_id ERROR_TERMINATION ERROR now
    (Some ("Backend/transport error: " +:+ ex_type error +:+ ": " +:+ str_take 200 (ex_message error)))
    (Some (_classify_error error cause)) (_extract_status_code error cause) None
    (match context with Some (_, request_id) => request_id | None => None end) backend_type.

Definition record_error_termination (now : Q) (error : exn) (cause : option error_cause) (session_id : option str)
    (backend_type : option str) (context : option (option str * option str)) (s : eos_state) : eos_state :=
  if negb (eos_enabled config) || negb (emit_events config) then s
  else
    let session_id := match truthy_id session_id, context with None, Some (sid, _) => sid | _, _ => session_id end in
    match truthy_id session_id with
    | None => s
    | Some session_id =>
        let '(ended, cache) := has_ended now session_id None (ended_sessions s) in
        let s := set_ended cache s in
        if ended then s else record_signal config now (error_signal now error cause session_id backend_type context) s
    end.

(** ** What is a signal and what is not *)

(** A pause for tool calls does not end the session: neither a chunk that is done nor a
    chunk with a finish reason, unless its text contains the sentinel. *)
Lemma tool_pause_is_no_signal now content session_id :
  (if sc_is_done content then is_tool_calls (done_reason content) = true
   else is_tool_calls (od_get "finish_reason" (sc_metadata content)) = true ∧
        str_contains "[DONE]" (content_text content) = false) →
  _detect_completion_signal now content session_id = None.
Proof.
  unfold _detect_completion_signal. destruct (sc_is_done content); [by intros ->|]. intros [Ht ->]. rewrite Ht.
  destruct (od_get "finish_reason" (sc_metadata content)) as [[]|]; try done. simpl in *.
  apply String.eqb_eq in Ht as ->. done.
Qed.

(** Every signal of the stream ends its session normally, and names its request. *)
Lemma stream_signals_normal now content session_id signal :
  _detect_completion_signal now content session_id = Some signal →
  sg_session_id signal = session_id ∧ sg_termination_category signal = NORMAL ∧
  sg_error_classification signal = None ∧ sg_request_id signal = md_str "request_id" (sc_metadata content) ∧
  sg_signal_type signal ∈ [DONE_SENTINEL; FINISH_REASON; RESPONSE_COMPLETED].
Proof.
  unfold _detect_completion_signal. intros Hd. repeat (case_match; try done); simplify_eq; repeat split; set_solver.
Qed.

(** Errors are classified, with the cause before the error itself. *)
Lemma error_signal_classified now error cause session_id backend_type context :
  let signal := error_signal now error cause session_id backend_type context in
  sg_termination_category signal = ERROR ∧ is_Some (sg_error_classification signal) ∧
  (isinstance (ex_class error) [BackendError] = true → isinstance (ex_class error) [APIConnectionError; APITimeoutError] = false →
    cause = None → sg_error_classification signal = Some BACKEND_ERROR).
Proof. repeat split; [by eexists|]. intros Hb Ha ->. simpl. by rewrite Ha Hb. Qed.

(** Observing changes neither the content nor the verdict on a tool call, and publishes
    nothing by itself. *)
Lemma observers_pass_through now content context s :
  (process now content s).1 = content ∧ published (process now content s).2 = published s ∧
  (h_handle (EndOfSessionToolCallHandler now) context s).1 = Ok (MkReaction false None None) ∧
  published (h_handle (EndOfSessionToolCallHandler now) context s).2 = published s.
Proof.
  split; [|split; [|split]].
  - unfold process. repeat (case_match; try done).
  - unfold process. repeat (case_match; try done); by rewrite record_signal_published.
  - simpl. by case_match.
  - simpl. case_match; [done|]. by rewrite record_signal_published.
Qed.

End detection.

(** A chunk of text that quotes the sentinel ends the session. *)
Example quoted_sentinel_ends_session :
  is_Some (_detect_completion_signal (λ _, EmptyString) (λ _, EmptyString) 0
    (MkStreaming (TextChunk "Each stream ends with data: [DONE] as its last line.") [] false) "s1").
Proof. vm_compute. by eexists. Qed.

(** A chunk without a session is counted for the session named by its own id. *)
Example chunk_id_taken_for_session :
  _extract_session_id (λ _, EmptyString)
    (MkStreaming (TextChunk "hello") [("id"%string, JStr "chatcmpl-1")] true) = Some "chatcmpl-1"%string.
Proof. vm_compute. reflexivity. Qed.
