(* ===== verification/SessionCancellation.v ===== *)
(** * The cancellation of sessions

    [src/core/services/session_cancellation_coordinator.py] with the keys of
    [src/core/domain/session_key.py] and [common/session_key_resolver.py], the guard of
    [backend_work_guard.py], the reasons of [client_termination_reason_mapper.py], the
    cleanup of [session_cancellation_cleanup_eos_subscriber.py], and the service of
    [client_end_of_session_service.py] that brings cancellation and the end-of-session
    event together.

    The coordinator is used by many threads.  What it does under its lock is one step;
    the loop that cancels the work of a session runs outside of it, one piece of work at
    a time.  A piece of work is an object [W]; calling its [cancel] is recorded, whether it
    raises or not.  The cache is the expiring cache of [TTLCache]. *)

From S2P Require Import Prelude PyStr PyDict Exceptions TTLCache EndOfSession.
From stdpp Require Import options.

(** ** Keys *)

Record SessionKey : Type := MkKey {
  protocol : str;
  primary_id : str;
  group_id : option str
}.

#[global] Instance SessionKey_eq_dec : EqDecision SessionKey.
Proof. solve_decision. Defined.

Definition mk_SessionKey (protocol primary_id : str) (group_id : option str) : res exn SessionKey :=
  if is_empty primary_id || is_empty (strip primary_id) then Err (py_exception "ValueError" "primary_id cannot be empty")
  else Ok (MkKey protocol primary_id group_id).

(** What the resolver reads of a request context: the headers are a dictionary, the
    request has an attribute [conversation_id], or else an [extra_body], or neither. *)
Inductive domain_request : Type :=
| WithConversationId (conversation_id : json)
| WithExtraBody (extra_body : json)
| PlainRequest.

Record KeyContext : Type := MkKeyContext {
  kc_request_id : option str;
  kc_headers : list (str * json);
  kc_domain_request : option domain_request
}.

(** [value.strip()] of a non-empty string; [None] for anything else, and for a blank
    one. *)
Definition group_value (value : option json) : option str :=
  match value with
  | Some (JStr s) => if is_empty (strip s) then None else Some (strip s)
  | _ => None
  end.

Definition resolve_session_key (context : option KeyContext) : option SessionKey :=
  match context with
  | None => None
  | Some c =>
      match kc_request_id c with
      | None => None
      | Some request_id =>
          if is_empty request_id || is_empty (strip request_id) then None
          else
            let group_id := group_value (od_get "x-conversation-id" (kc_headers c)) in
            let group_id :=
              match group_id, kc_domain_request c with
              | None, Some (WithConversationId v) => group_value (Some v)
              | None, Some (WithExtraBody (JDict body)) => group_value (od_get "conversation_id" body)
              | g, _ => g
              end in
            match mk_SessionKey "http" (strip request_id) group_id with Ok key => Some key | _ => None end
      end
  end.

(** ** Reasons *)

Inductive ClientTerminationReason : Type := CLIENT_DISCONNECTED | CLIENT_CANCELLED | UNKNOWN_CLIENT_TERMINATION.

Definition reason_value (r : ClientTerminationReason) : str :=
  match r with
  | CLIENT_DISCONNECTED => "client_disconnected" | CLIENT_CANCELLED => "client_cancelled"
  | UNKNOWN_CLIENT_TERMINATION => "unknown_client_termination"
  end.

Definition map_reason (marker : option str) : ClientTerminationReason :=
  match marker with
  | Some m =>
      if String.eqb m "client_disconnect" then CLIENT_DISCONNECTED
      else if String.eqb m "stream_cancelled" || String.eqb m "user_cancelled" then CLIENT_CANCELLED
      else UNKNOWN_CLIENT_TERMINATION
  | None => UNKNOWN_CLIENT_TERMINATION
  end.

Inductive observed_exception : Type := GeneratorExit | AsyncCancelledError | OtherException.

Definition map_exception (e : option observed_exception) : ClientTerminationReason :=
  match e with
  | Some GeneratorExit => CLIENT_DISCONNECTED
  | Some AsyncCancelledError => CLIENT_CANCELLED
  | _ => UNKNOWN_CLIENT_TERMINATION
  end.

(** ** The coordinator *)

Section coordinator.
Context {W C : Type}.

Record cancellation_state : Type := MkCancellation {
  cs_cancelled : bool;
  cs_reason : ClientTerminationReason;
  cs_cancelled_at : Q;
  cancellables : list W
}.

Context `{TTLCache SessionKey cancellation_state C}.

(** The cache, the works that loops are still about to cancel, with their sessions,
    and the works whose [cancel] was called. *)
Record coordinator : Type := MkCoordinator {
  co_cache : C;
  co_loops : list (SessionKey * list W);
  co_cancelled : list (SessionKey * W)
}.

Definition is_cancelled (now : Q) (key : SessionKey) (c : coordinator) : bool :=
  match cget now key (co_cache c) with Some st => cs_cancelled st | None => false end.

Definition session_cancelled_error (key : SessionKey) (reason : ClientTerminationReason) : exn :=
  mk_LLMProxyError SessionCancelledError ("Session cancelled: " +:+ primary_id key)
    [("session_key", JDict [("protocol", JStr (protocol key)); ("primary_id", JStr (primary_id key));
                            ("group_id", match group_id key with Some g => JStr g | None => JNull end)]);
     ("reason", JStr (reason_value reason))]%string (Some 499%Z).

Definition ensure_not_cancelled (now : Q) (key : SessionKey) (c : coordinator) : res exn unit :=
  match cget now key (co_cache c) with
  | Some st => if cs_cancelled st then Err (session_cancelled_error key (cs_reason st)) else Ok tt
  | None => Ok tt
  end.

(** [cancel_session] under the lock: the works to cancel are handed to a loop. *)
Definition cancel_session (now : Q) (key : SessionKey) (reason : ClientTerminationReason) (c : coordinator) : coordinator :=
  match cget now key (co_cache c) with
  | None => MkCoordinator (cset now key (MkCancellation true reason now []) (co_cache c)) (co_loops c) (co_cancelled c)
  | Some st =>
      if cs_cancelled st then c
      else
        let cache := cmutate now (λ st, MkCancellation true reason now []) key (co_cache c) in
        match cancellables st with
        | [] => MkCoordinator cache (co_loops c) (co_cancelled c)
        | works => MkCoordinator cache (co_loops c ++ [(key, works)]) (co_cancelled c)
        end
  end.

(** One turn of the [i]-th loop. *)
Definition cancel_next (i : nat) (c : coordinator) : coordinator :=
  match co_loops c !! i with
  | Some (key, w :: works) =>
      MkCoordinator (co_cache c) (<[i := (key, works)]> (co_loops c)) (co_cancelled c ++ [(key, w)])
  | _ => c
  end.

Definition register_cancellable (now : Q) (key : SessionKey) (work : W) (c : coordinator) : coordinator :=
  let cache :=
    match cget now key (co_cache c) with
    | None => cset now key (MkCancellation false UNKNOWN_CLIENT_TERMINATION now []) (co_cache c)
    | Some _ => co_cache c
    end in
  let cancelled := match cget now key (co_cache c) with Some st => cs_cancelled st | None => false end in
  if cancelled then MkCoordinator cache (co_loops c) (co_cancelled c ++ [(key, work)])
  else
    MkCoordinator
      (cmutate now (λ st, MkCancellation (cs_cancelled st) (cs_reason st) (cs_cancelled_at st) (cancellables st ++ [work]))
        key cache) (co_loops c) (co_cancelled c).

Definition cleanup (now : Q) (key : SessionKey) (c : coordinator) : coordinator :=
  match cget now key (co_cache c) with
  | Some _ => MkCoordinator (cpop now key (co_cache c)) (co_loops c) (co_cancelled c)
  | None => c
  end.

(** ** Calls of many threads

    A schedule lists the calls and the turns of the loops with their times. *)
Inductive call : Type :=
| Register (key : SessionKey) (work : W)
| Cancel (key : SessionKey) (reason : ClientTerminationReason)
| LoopTurn (i : nat)
| Cleanup (key : SessionKey).

Definition run_call (now : Q) (a : call) (c : coordinator) : coordinator :=
  match a with
  | Register key work => register_cancellable now key work c
  | Cancel key reason => cancel_session now key reason c
  | LoopTurn i => cancel_next i c
  | Cleanup key => cleanup now key c
  end.

Definition run_calls (calls : list (Q * call)) (c : coordinator) : coordinator :=
  foldl (λ c a, run_call a.1 a.2 c) c calls.

(** The works of a session: those whose [cancel] was called, those that loops are about
    to cancel, those the coordinator holds, and those that were registered. *)
Definition stopped (key : SessionKey) (c : coordinator) : list W :=
  (filter (λ x, x.1 = key) (co_cancelled c)).*2.

Definition stopping (key : SessionKey) (c : coordinator) : list W :=
  concat (filter (λ x, x.1 = key) (co_loops c)).*2.

Definition held (now : Q) (key : SessionKey) (c : coordinator) : list W :=
  match cget now key (co_cache c) with Some st => cancellables st | None => [] end.

Definition registers (key : SessionKey) (a : call) : list W :=
  match a with Register key' work => if decide (key' = key) then [work] else [] | _ => [] end.

Definition registered (key : SessionKey) (calls : list (Q * call)) : list W := concat ((λ a, registers key a.2) <$> calls).

Definition all_works (now : Q) (key : SessionKey) (c : coordinator) : list W :=
  stopped key c ++ stopping key c ++ held now key c.

(** A call keeps the session, if the coordinator knows it: its state has not expired,
    has not been evicted and is not cleaned up. *)
Definition call_keeps (key : SessionKey) (t now : Q) (c c' : coordinator) : Prop :=
  is_Some (cget t key (co_cache c)) →
  is_Some (cget now key (co_cache c)) ∧ is_Some (cget now key (co_cache c')).

Fixpoint keeps (key : SessionKey) (t : Q) (c : coordinator) (calls : list (Q * call)) : Prop :=
  match calls with
  | [] => True
  | a :: calls => call_keeps key t a.1 c (run_call a.1 a.2 c) ∧ keeps key a.1 (run_call a.1 a.2 c) calls
  end.

Fixpoint in_order (t : Q) (calls : list (Q * call)) : Prop :=
  match calls with [] => True | a :: calls => (t <= a.1)%Q ∧ in_order a.1 calls end.

Definition end_time (t : Q) (calls : list (Q * call)) : Q := default t (last calls.*1).

Context {Laws : TTLCacheLaws SessionKey cancellation_state C}.

Definition tidy (now : Q) (c : coordinator) : Prop :=
  ∀ t key st, (now <= t)%Q → cget t key (co_cache c) = Some st → cs_cancelled st = true → cancellables st = [].
Lemma cget_at_set now key st cache : cget now key (cset now key st cache) = Some st.
Proof using Laws. apply cget_set; [lra|]. pose proof ttl_pos. lra. Qed.

(** What the cache knows of a session, when calls for others change it. *)
Definition fades (a b : option cancellation_state) : Prop := b = a ∨ b = None.

Lemma fades_trans a b d : fades a b → fades b d → fades a d.
Proof. unfold fades. intros [-> | ->] [-> | ->]; auto. Qed.

Lemma other_call now a key c t :
  (now <= t)%Q → (match a with Register k _ | Cancel k _ | Cleanup k => k ≠ key | LoopTurn _ => True end) →
  fades (cget t key (co_cache c)) (cget t key (co_cache (run_call now a c))).
Proof using Laws.
  unfold fades. destruct a as [k work|k reason|i|k]; simpl; intros Ht Hne.
  - unfold register_cancellable.
    assert (∀ cache, fades (cget t key cache) (cget t key (match cget now k (co_cache c) with Some _ => cache | None => cset now k (MkCancellation false UNKNOWN_CLIENT_TERMINATION now []) cache end))) as Hset.
    { intros cache. destruct (cget now k _); [by left|]. by apply cget_set_other. }
    destruct (match cget now k _ with Some st => cs_cancelled st | None => false end); simpl; [apply Hset|].
    rewrite cget_mutate_other //. apply Hset.
  - unfold cancel_session. destruct (cget now k _) as [st|]; simpl; [|by apply cget_set_other].
    destruct (cs_cancelled st); [by left|]. destruct (cancellables st); simpl; rewrite cget_mutate_other //; by left.
  - unfold cancel_next. repeat case_match; by left.
  - unfold cleanup. destruct (cget now k _); simpl; [rewrite cget_pop_other //|]; by left.
Qed.

Lemma stopped_snoc key key' w works :
  (filter (λ x : SessionKey * W, x.1 = key) (works ++ [(key', w)])).*2 =
  (filter (λ x : SessionKey * W, x.1 = key) works).*2 ++ (if decide (key' = key) then [w] else []).
Proof. rewrite filter_app fmap_app filter_cons /=. by case_decide. Qed.

Lemma stopping_turn key key' w works i (loops : list (SessionKey * list W)) :
  loops !! i = Some (key', w :: works) →
  concat (filter (λ x, x.1 = key) loops).*2 ≡ₚ
  (if decide (key' = key) then [w] else []) ++ concat (filter (λ x, x.1 = key) (<[i := (key', works)]> loops)).*2.
Proof.
  revert i. induction loops as [|[k ws] loops IH]; intros [|i] Hi; simplify_eq/=.
  - rewrite !filter_cons /=. by case_decide.
  - rewrite !filter_cons /=. destruct (decide (k = key)); simpl; [|by apply IH]. rewrite (IH _ Hi). apply Permutation_app_swap_app.
Qed.
(** What a call does to the works of a session: none is lost while it is kept. *)
Definition balanced (key : SessionKey) (t now : Q) (a : call) (c c' : coordinator) : Prop :=
  ∃ lost, all_works t key c ++ registers key a ≡ₚ all_works now key c' ++ lost ∧
    (call_keeps key t now c c' → lost = []).

Lemma balanced_held key t now a c c' :
  stopped key c' = stopped key c → stopping key c' = stopping key c → registers key a = [] →
  fades (cget t key (co_cache c)) (cget now key (co_cache c')) → balanced key t now a c c'.
Proof.
  intros Hs Hl Hr Hf. unfold balanced, all_works. rewrite Hs Hl Hr app_nil_r.
  destruct Hf as [Heq|Hnone].
  - exists []. unfold held. rewrite Heq app_nil_r. done.
  - exists (held t key c). unfold held at 2. rewrite Hnone app_nil_r app_assoc. split; [done|].
    unfold call_keeps, held. destruct (cget t key (co_cache c)); [|done]. intros [_ [? Hk]]; [done|]. congruence.
Qed.

Lemma register_balanced key t now work c :
  (t <= now)%Q → balanced key t now (Register key work) c (register_cancellable now key work c).
Proof using Laws.
  intros Ht. unfold balanced, all_works, register_cancellable. simpl. rewrite decide_True //.
  pose proof (cget_later t now key (co_cache c) Ht) as Hlater.
  destruct (cget now key (co_cache c)) as [st|] eqn:Hnow.
  - exists []. rewrite app_nil_r. assert (held t key c = cancellables st) as -> by (unfold held; destruct Hlater as [<- |]; done).
    destruct (cs_cancelled st) eqn:Hst; split; try done.
    + unfold stopped, stopping, held. simpl. rewrite stopped_snoc decide_True // Hnow -!app_assoc.
      f_equiv. rewrite (app_assoc _ _ [work]). apply Permutation_app_comm.
    + unfold stopped, stopping, held. simpl. rewrite cget_mutate; [lra|]. by rewrite Hnow /= !app_assoc.
  - exists (held t key c). split.
    + unfold stopped, stopping. simpl. unfold held at 2. simpl. rewrite cget_mutate; [lra|]. rewrite cget_at_set /=.
      rewrite -!app_assoc. do 2 f_equiv. apply Permutation_app_comm.
    + unfold call_keeps, held. destruct (cget t key (co_cache c)); [|done].
      intros [[? Hk] _]; [done|]. congruence.
Qed.

Lemma cancel_balanced key t now reason c :
  (t <= now)%Q → balanced key t now (Cancel key reason) c (cancel_session now key reason c).
Proof using Laws.
  intros Ht. pose proof (cget_later t now key (co_cache c) Ht) as Hlater. unfold cancel_session.
  destruct (cget now key (co_cache c)) as [st|] eqn:Hnow.
  - destruct (cs_cancelled st) eqn:Hst.
    { apply balanced_held; [done..|]. unfold fades. by rewrite Hnow. }
    assert (held t key c = cancellables st) as Hh by (unfold held; destruct Hlater as [<- |]; done).
    exists []. unfold all_works. rewrite Hh !app_nil_r. split; [|done].
    destruct (cancellables st) as [|w works] eqn:Hc; unfold stopped, stopping, held; simpl;
      (rewrite cget_mutate; [lra|]); rewrite Hnow /= ?app_nil_r; [done|].
    rewrite filter_app fmap_app concat_app filter_cons /= decide_True //= app_nil_r. by rewrite !app_assoc.
  - exists (held t key c). unfold all_works. simpl. rewrite app_nil_r. split.
    + unfold stopped, stopping. simpl. unfold held at 2. simpl. by rewrite cget_at_set /= app_nil_r app_assoc.
    + unfold call_keeps, held. destruct (cget t key (co_cache c)); [|done].
      intros [[? Hk] _]; [done|]. congruence.
Qed.

Lemma other_works key now a c :
  (match a with Register k _ | Cancel k _ | Cleanup k => k ≠ key | LoopTurn _ => False end) →
  stopped key (run_call now a c) = stopped key c ∧ stopping key (run_call now a c) = stopping key c.
Proof.
  destruct a as [k work|k reason|i|k]; simpl; intros Hne; [| |done|].
  - unfold register_cancellable, stopped, stopping.
    destruct (match cget now k _ with Some st => cs_cancelled st | None => false end); simpl; [|done].
    split; [|done]. by rewrite stopped_snoc decide_False // app_nil_r.
  - unfold cancel_session, stopped, stopping. destruct (cget now k _) as [st|]; [|done].
    destruct (cs_cancelled st); [done|]. destruct (cancellables st); simpl; [done|].
    split; [done|]. by rewrite filter_app filter_cons /= decide_False // app_nil_r.
  - unfold cleanup. split; by destruct (cget now k _).
Qed.

Lemma turn_balanced key t now i c : (t <= now)%Q → balanced key t now (LoopTurn i) c (cancel_next i c).
Proof using Laws.
  intros Ht. unfold cancel_next.
  assert (balanced key t now (LoopTurn i) c c) as Hid by (apply balanced_held; try done; by apply cget_later).
  destruct (co_loops c !! i) as [[k [|w works]]|] eqn:Hi; [done| |done].
  pose proof (stopping_turn key _ _ _ _ _ Hi) as Hp. destruct Hid as (lost & Hperm & Hlost).
  exists lost. split; [|done]. rewrite Hperm. f_equiv. unfold all_works, stopped, stopping, held. simpl.
  by rewrite stopped_snoc Hp -!app_assoc.
Qed.

Lemma call_balanced key t now a c : (t <= now)%Q → balanced key t now a c (run_call now a c).
Proof using Laws.
  intros Ht.
  assert ((match a with Register k _ | Cancel k _ | Cleanup k => k ≠ key | LoopTurn _ => False end) →
    balanced key t now a c (run_call now a c)) as Hother.
  { intros Hne. destruct (other_works key now a c Hne) as [Hs Hl]. apply balanced_held; [done|done| |].
    - destruct a; simpl; [by rewrite decide_False|done..].
    - eapply fades_trans; [by apply (cget_later t now)|]. apply other_call; [lra|by destruct a]. }
  destruct a as [k work|k reason|i|k]; [| |by apply turn_balanced|];
    (destruct (decide (k = key)) as [->|]; [clear Hother|by apply Hother]); simpl.
  - by apply register_balanced.
  - by apply cancel_balanced.
  - unfold cleanup. destruct (cget now key (co_cache c)) eqn:Hnow; (apply balanced_held; [done..|]); unfold fades.
    + right. simpl. rewrite cget_pop //. lra.
    + by right.
Qed.
(** A session that is kept stays cancelled. *)
Lemma cancel_cancels now key reason c : is_cancelled now key (cancel_session now key reason c) = true.
Proof using Laws.
  unfold is_cancelled, cancel_session. destruct (cget now key (co_cache c)) as [st|] eqn:Hnow; simpl; [|by rewrite cget_at_set].
  destruct (cs_cancelled st) eqn:Hst; [by rewrite Hnow|].
  destruct (cancellables st); simpl; (rewrite cget_mutate; [lra|]); by rewrite Hnow.
Qed.

Lemma stays_cancelled key t now a c :
  (t <= now)%Q → call_keeps key t now c (run_call now a c) → is_cancelled t key c = true →
  is_cancelled now key (run_call now a c) = true.
Proof using Laws.
  intros Ht Hk. unfold is_cancelled at 1. destruct (cget t key (co_cache c)) as [st|] eqn:Hold; [|done]. intros Hst.
  destruct Hk as [Hnow [st' Hst']]; [by rewrite Hold|].
  assert (cget now key (co_cache c) = Some st) as Hsame.
  { destruct (cget_later t now key (co_cache c) Ht) as [-> | Hn]; [done|]. rewrite Hn in Hnow. by destruct Hnow. }
  assert ((match a with Register k _ | Cancel k _ | Cleanup k => k ≠ key | LoopTurn _ => True end) →
    is_cancelled now key (run_call now a c) = true) as Hother.
  { intros Hne. unfold is_cancelled. destruct (other_call now a key c now) as [-> | Hn]; [lra|done|by rewrite Hsame|]. congruence. }
  destruct a as [k work|k reason|i|k]; [| |by apply Hother|];
    (destruct (decide (k = key)) as [->|]; [clear Hother|by apply Hother]); simpl in *.
  - unfold is_cancelled, register_cancellable. by rewrite Hsame Hst /= Hsame.
  - apply cancel_cancels.
  - exfalso. revert Hst'. unfold cleanup. rewrite Hsame /= cget_pop; [lra|done].
Qed.

Lemma cset_tidy now key st cache t key' st' :
  (now <= t)%Q → cget t key' (cset now key st cache) = Some st' →
  st' = st ∧ key' = key ∨ key' ≠ key ∧ cget t key' cache = Some st'.
Proof using Laws.
  intros Ht Hget. destruct (decide (key' = key)) as [->|Hne].
  - left. split; [|done]. destruct (Qlt_le_dec t (now + ttl)) as [Hlt|Hle].
    + rewrite cget_set in Hget; [done|done|]. congruence.
    + by rewrite cget_set_expired in Hget.
  - right. split; [done|]. destruct (cget_set_other now t key key' st cache) as [E|E]; congruence || done.
Qed.

(** The coordinator holds no work of a cancelled session. *)
Lemma run_call_tidy t now a c : (t <= now)%Q → tidy t c → tidy now (run_call now a c).
Proof using Laws.
  intros Ht Htidy.
  assert (tidy now c) as Hc by (intros t' key st Hle; apply Htidy; lra). clear Htidy Ht.
  intros t' key st Hle Hget Hst.
  destruct a as [k work|k reason|i|k]; simpl in *.
  - unfold register_cancellable in Hget. destruct (cget now k (co_cache c)) as [st0|] eqn:Hnow; [destruct (cs_cancelled st0) eqn:Hst0|]; simpl in Hget.
    + by eapply Hc.
    + destruct (decide (k = key)) as [->|Hne]; [|rewrite cget_mutate_other // in Hget; by eapply Hc].
      rewrite cget_mutate // in Hget. destruct (cget_later now t' key (co_cache c) Hle) as [E|E]; rewrite E ?Hnow /= in Hget; [|done].
      injection Hget as <-. simpl in Hst. congruence.
    + destruct (decide (k = key)) as [->|Hne].
      * rewrite cget_mutate // in Hget. apply fmap_Some in Hget as (st1 & Hget & ->).
        apply cset_tidy in Hget as [[-> _]|[? _]]; [|done..]. done.
      * rewrite cget_mutate_other // in Hget. apply cset_tidy in Hget as [[_ ?]|[_ Hget]]; [congruence| |done]. by eapply Hc.
  - unfold cancel_session in Hget. destruct (cget now k (co_cache c)) as [st0|] eqn:Hnow; simpl in Hget.
    + destruct (cs_cancelled st0); [by eapply Hc|].
      assert (cget t' key (cmutate now (λ _, MkCancellation true reason now []) k (co_cache c)) = Some st) as Hm by (by destruct (cancellables st0)).
      destruct (decide (k = key)) as [->|Hne]; [|rewrite cget_mutate_other // in Hm; by eapply Hc].
      rewrite cget_mutate // in Hm. apply fmap_Some in Hm as (? & _ & ->). done.
    + apply cset_tidy in Hget as [[-> _]|[_ Hget]]; [done| |done]. by eapply Hc.
  - assert (co_cache (cancel_next i c) = co_cache c) as E by (unfold cancel_next; by repeat case_match). rewrite E in Hget. by eapply Hc.
  - unfold cleanup in Hget. destruct (cget now k (co_cache c)); [|by eapply Hc]. simpl in Hget.
    destruct (decide (k = key)) as [->|Hne]; [by rewrite cget_pop in Hget|]. rewrite cget_pop_other // in Hget. by eapply Hc.
Qed.

(** A coordinator that has not been used. *)
Definition fresh_coordinator (c : coordinator) : Prop :=
  (∀ t key, cget t key (co_cache c) = None) ∧ co_loops c = [] ∧ co_cancelled c = [].

Lemma end_time_cons t now a calls : end_time t ((now, a) :: calls) = end_time now calls.
Proof. unfold end_time. csimpl. rewrite last_cons. by destruct (last _). Qed.

Lemma run_calls_balanced key t calls c :
  in_order t calls →
  ∃ lost, all_works t key c ++ registered key calls ≡ₚ all_works (end_time t calls) key (run_calls calls c) ++ lost ∧
    (keeps key t c calls → lost = []).
Proof using Laws.
  revert t c. induction calls as [|[now a] calls IH]; intros t c Hord; simpl in Hord.
  - exists []. by rewrite !app_nil_r.
  - destruct Hord as [Ht Hord]. destruct (call_balanced key t now a c Ht) as (lost & Hp & Hlost).
    destruct (IH now (run_call now a c) Hord) as (lost' & Hp' & Hlost').
    exists (lost ++ lost'). split.
    + rewrite end_time_cons.
      change (registered key ((now, a) :: calls)) with (registers key a ++ registered key calls). simpl.
      rewrite app_assoc Hp -app_assoc (Permutation_app_comm lost) app_assoc Hp' -app_assoc.
      f_equiv. apply Permutation_app_comm.
    + intros [Hk1 Hk2]. by rewrite Hlost // Hlost'.
Qed.

Lemma run_calls_tidy t calls c : in_order t calls → tidy t c → tidy (end_time t calls) (run_calls calls c).
Proof using Laws.
  revert t c. induction calls as [|[now a] calls IH]; intros t c Hord Htidy; [done|]. destruct Hord as [Ht Hord].
  rewrite end_time_cons.
  apply IH; [done|]. by eapply run_call_tidy.
Qed.

Lemma run_calls_cancelled key t calls c :
  in_order t calls → keeps key t c calls →
  (is_cancelled t key c = true ∨ ∃ tc reason, (tc, Cancel key reason) ∈ calls) →
  is_cancelled (end_time t calls) key (run_calls calls c) = true.
Proof using Laws.
  revert t c. induction calls as [|[now a] calls IH]; intros t c Hord Hk Hc.
  { destruct Hc as [?|(? & ? & Hin)]; [done|]. by apply elem_of_nil in Hin. }
  destruct Hord as [Ht Hord]. destruct Hk as [Hk Hks].
  rewrite end_time_cons.
  apply IH; [done..|]. destruct Hc as [Hc|(tc & reason & Hin)].
  - left. by eapply stays_cancelled.
  - apply elem_of_cons in Hin as [[= -> <-]|Hin]; [left; apply cancel_cancels|right; eauto].
Qed.

(** C31: For every interleaving of registrations, cancellations, turns of the cancelling
    loops and cleanups, no work is cancelled more often than it was registered.  Once a
    session was cancelled - and as long as the coordinator keeps its state - the gate
    refuses new work, and every piece of work that was registered, before or after, has
    been cancelled or is next in a loop. *)
Theorem cancelled_session_stops key t calls c reason tc :
  fresh_coordinator c → in_order t calls →
  let now := end_time t calls in let c' := run_calls calls c in
  stopped key c' ++ stopping key c' ⊆+ registered key calls ∧
  ((tc, Cancel key reason) ∈ calls → keeps key t c calls →
    stopped key c' ++ stopping key c' ≡ₚ registered key calls ∧
    ∃ r, ensure_not_cancelled now key c' = Err (session_cancelled_error key r)).
Proof using Laws.
  intros (Hempty & Hl & Hs) Hord now c'.
  assert (all_works t key c = []) as Hnil.
  { unfold all_works, stopped, stopping, held. by rewrite Hl Hs Hempty. }
  destruct (run_calls_balanced key t calls c Hord) as (lost & Hp & Hlost). rewrite Hnil /= -/c' -/now in Hp.
  unfold all_works in Hp. split.
  - rewrite Hp -!app_assoc app_assoc. apply submseteq_inserts_r. done.
  - intros Hin Hk. rewrite (Hlost Hk) app_nil_r app_assoc in Hp.
    pose proof (run_calls_cancelled key t calls c Hord Hk (or_intror (ex_intro _ tc (ex_intro _ reason Hin)))) as Hc.
    assert (tidy t c) as Htidy by (intros t' k st _; by rewrite Hempty).
    apply (run_calls_tidy _ _ _ Hord) in Htidy. fold now c' in Htidy, Hc. unfold is_cancelled in Hc.
    unfold ensure_not_cancelled, held in *. destruct (cget now key (co_cache c')) as [st|] eqn:Hst; [|done].
    rewrite (Htidy now key st (Qle_refl _) Hst Hc) app_nil_r in Hp. rewrite Hc. split; [done|eauto].
Qed.
(** ** Work of a session

    [BackendWorkGuard]: the coordinator may be absent. *)
Definition ensure_session_active (strict_http_scope : bool) (now : Q) (c : option coordinator)
    (context : option KeyContext) (purpose : str) (require_scope : bool) : res exn (option SessionKey) :=
  let session_key := resolve_session_key context in
  match context, session_key with
  | Some ctx, None =>
      if require_scope && strict_http_scope then
        Err (mk_LLMProxyError LLMProxyError "Unscoped HTTP backend work blocked (missing request_id/session scope)"
               [("purpose", JStr purpose); ("request_id", match kc_request_id ctx with Some r => JStr r | None => JNull end)]%string
               (Some 500%Z))
      else Ok None
  | _, _ =>
      match c, session_key with
      | Some c, Some key => match ensure_not_cancelled now key c with Ok _ => Ok session_key | Err e => Err e end
      | _, _ => Ok session_key
      end
  end.

Definition guard_is_cancelled (now : Q) (c : option coordinator) (session_key : option SessionKey) : bool :=
  match c, session_key with Some c, Some key => is_cancelled now key c | _, _ => false end.

(** [wrap_stream_with_cancellation]: a chunk arrives at a time, when the coordinator is
    in a state; what the client gets. *)
Fixpoint guarded {A} (session_key : option SessionKey) (arrivals : list (A * Q * option coordinator)) : list A :=
  match arrivals with
  | [] => []
  | (chunk, now, c) :: arrivals =>
      if guard_is_cancelled now c session_key then [] else chunk :: guarded session_key arrivals
  end.

Definition wrap_stream_with_cancellation {A} (now : Q) (c : option coordinator) (session_key : option SessionKey)
    (arrivals : list (A * Q * option coordinator)) : list A :=
  if guard_is_cancelled now c session_key then [] else guarded session_key arrivals.

(** [SessionCancellationCleanupEosSubscriber._handle_eos_event] *)
Definition handle_eos_event (now : Q) (event : RemoteBackendConnectionEndOfSessionEvent) (c : coordinator) : coordinator :=
  if is_empty (ev_session_id event) then c
  else match mk_SessionKey "http" (ev_session_id event) None with Ok key => cleanup now key c | Err _ => c end.

(** ** The end of a session, reported by the client

    [ClientEndOfSessionService]: the loop of [cancel_session] runs to its end before
    anything else. *)
Record ClientEndOfSessionSignal : Type := MkClientSignal {
  cl_session_key : SessionKey;
  cl_observed_at : Q;
  cl_reason : ClientTerminationReason
}.

(** [cancel_session] with its loop. *)
Definition cancel_and_stop (now : Q) (key : SessionKey) (reason : ClientTerminationReason) (c : coordinator) : coordinator :=
  let i := length (co_loops c) in
  let c := cancel_session now key reason c in
  match co_loops c !! i with Some (_, works) => foldl (λ c _, cancel_next i c) c works | None => c end.

Definition client_signal (signal : ClientEndOfSessionSignal) : EndOfSessionSignal :=
  MkSignal (primary_id (cl_session_key signal)) CLIENT_TERMINATION NORMAL (cl_observed_at signal)
    (Some (reason_value (cl_reason signal))) None None (Some (protocol (cl_session_key signal))) None None.

(** [report_client_termination] up to its first wait: the flag says whether it waits
    for the initializer; [record_signal] follows when that is done. *)
Definition report_client_termination (config : EndOfSessionConfig) (cache_ttl_seconds now : Q)
    (signal : ClientEndOfSessionSignal) (c : coordinator) (s : eos_state) : coordinator * eos_state * bool :=
  let key := cl_session_key signal in
  if is_cancelled now key c then (c, s, false)
  else
    let c := cancel_and_stop now key (cl_reason signal) c in
    let '(cache, write) := ensure_session_metrics cache_ttl_seconds now (primary_id key) (initialization_cache s) in
    let s := set_init_cache cache s in
    if write then (c, add_task (Upserting (primary_id key) (cl_observed_at signal)) s, true)
    else (c, record_signal config now (client_signal signal) s, false).

Definition report_client_termination_if_applicable (config : EndOfSessionConfig) (cache_ttl_seconds now : Q)
    (key : SessionKey) (observed : option observed_exception) (c : coordinator) (s : eos_state) :
    coordinator * eos_state * bool :=
  match observed with
  | None => (c, s, false)
  | Some _ =>
      match map_exception observed with
      | UNKNOWN_CLIENT_TERMINATION => (c, s, false)
      | reason => report_client_termination config cache_ttl_seconds now (MkClientSignal key now reason) c s
      end
  end.
Lemma loop_runs i key works c :
  co_loops c !! i = Some (key, works) →
  foldl (λ c (_ : W), cancel_next i c) c works =
  MkCoordinator (co_cache c) (<[i := (key, [])]> (co_loops c)) (co_cancelled c ++ (pair key <$> works)).
Proof.
  revert c. induction works as [|w works IH]; intros c Hi; simpl.
  - rewrite app_nil_r list_insert_id //. by destruct c.
  - assert (cancel_next i c = MkCoordinator (co_cache c) (<[i := (key, works)]> (co_loops c)) (co_cancelled c ++ [(key, w)])) as ->
      by (unfold cancel_next; by rewrite Hi).
    rewrite IH /=; [by eapply list_lookup_insert_eq, lookup_lt_Some|]. by rewrite list_insert_insert_eq -app_assoc.
Qed.

Lemma cancel_and_stop_spec now key reason c :
  is_cancelled now key c = false →
  is_cancelled now key (cancel_and_stop now key reason c) = true ∧
  co_cancelled (cancel_and_stop now key reason c) = co_cancelled c ++ (pair key <$> held now key c) ∧
  (∀ k, stopping k (cancel_and_stop now key reason c) = stopping k c).
Proof using Laws.
  intros Hnot. pose proof (cancel_cancels now key reason c) as Hc. unfold cancel_and_stop.
  assert (co_loops c !! length (co_loops c) = None) as Hnone by (by apply lookup_ge_None).
  revert Hnot Hc. unfold is_cancelled, cancel_session, held.
  destruct (cget now key (co_cache c)) as [st|] eqn:Hnow; intros Hnot Hc.
  - rewrite Hnot in Hc |- *. destruct (cancellables st) as [|w works] eqn:Hw; simpl.
    + rewrite Hnone app_nil_r. done.
    + rewrite list_lookup_middle //. rewrite (loop_runs _ key (w :: works)); [by rewrite /= list_lookup_middle|].
      split; [done|]. split; [done|]. intros k. unfold stopping. simpl. rewrite insert_app_r_alt // Nat.sub_diag /=.
      rewrite filter_app fmap_app concat_app filter_cons. case_decide; by rewrite /= app_nil_r.
  - simpl. rewrite Hnone app_nil_r. done.
Qed.
Lemma cancel_and_stop_cache now key reason c :
  co_cache (cancel_and_stop now key reason c) = co_cache (cancel_session now key reason c).
Proof.
  unfold cancel_and_stop. destruct (co_loops (cancel_session now key reason c) !! length (co_loops c)) as [[k works]|] eqn:Hi; [|done].
  by rewrite (loop_runs _ _ _ _ Hi).
Qed.

Lemma cancel_session_held now key reason c :
  is_cancelled now key c = false → held now key (cancel_session now key reason c) = [].
Proof using Laws.
  unfold is_cancelled, cancel_session, held. destruct (cget now key (co_cache c)) as [st|] eqn:Hnow; simpl.
  - intros ->. destruct (cancellables st); simpl; (rewrite cget_mutate; [lra|]); by rewrite Hnow.
  - by rewrite cget_at_set.
Qed.

Lemma is_cancelled_later now later key c :
  (now <= later)%Q → is_cancelled now key c = true → is_Some (cget later key (co_cache c)) → is_cancelled later key c = true.
Proof using Laws.
  intros Hle. unfold is_cancelled. by destruct (cget_later now later key (co_cache c) Hle) as [-> | ->]; [|intros _ []].
Qed.

Lemma pairs_of (k key : SessionKey) (works : list W) :
  (filter (λ x : SessionKey * W, x.1 = k) (pair key <$> works)).*2 = if decide (key = k) then works else [].
Proof.
  induction works as [|w works IH]; csimpl; [by case_decide|]. rewrite filter_cons /=.
  destruct (decide (key = k)); csimpl; by rewrite IH.
Qed.

(** C35: The first report that a client has ended its session: from then on the gate
    refuses the session, and no other session is touched (the coordinator may drop
    the state of one to make room).  Exactly the work the coordinator still holds for
    the session is cancelled, once; work whose state was dropped before is not held
    any more and not cancelled.  Nothing is announced yet.  As long as the coordinator
    keeps the state of the session, reporting its end again changes nothing; the
    state goes when it expires or when the end of the session is announced, and the
    gate with it ([event_reopens_gate]). *)
Theorem client_end_stops_session config cache_ttl_seconds now signal c s :
  let key := cl_session_key signal in
  is_cancelled now key c = false →
  let '(c', s', _) := report_client_termination config cache_ttl_seconds now signal c s in
  (∃ r, ensure_not_cancelled now key c' = Err (session_cancelled_error key r)) ∧
  stopped key c' = stopped key c ++ held now key c ∧ held now key c' = [] ∧
  (∀ other, other ≠ key → stopped other c' = stopped other c ∧
    (cget now other (co_cache c') = cget now other (co_cache c) ∨ cget now other (co_cache c') = None)) ∧
  published s' = published s ∧
  ∀ later signal', cl_session_key signal' = key → is_Some (cget later key (co_cache c')) → (now <= later)%Q →
    report_client_termination config cache_ttl_seconds later signal' c' s' = (c', s', false).
Proof using Laws.
  intros key Hnot. unfold report_client_termination. fold key. rewrite Hnot.
  destruct (cancel_and_stop_spec now key (cl_reason signal) c Hnot) as (Hc & Hs & _).
  pose proof (cancel_session_held now key (cl_reason signal) c Hnot) as Hh.
  pose proof (cancel_and_stop_cache now key (cl_reason signal) c) as Hcache.
  set (c' := cancel_and_stop now key (cl_reason signal) c) in *.
  assert (∀ s', published s' = published s →
    (∃ r, ensure_not_cancelled now key c' = Err (session_cancelled_error key r)) ∧
    stopped key c' = stopped key c ++ held now key c ∧ held now key c' = [] ∧
    (∀ other, other ≠ key → stopped other c' = stopped other c ∧
      (cget now other (co_cache c') = cget now other (co_cache c) ∨ cget now other (co_cache c') = None)) ∧
    published s' = published s ∧
    ∀ later signal', cl_session_key signal' = key → is_Some (cget later key (co_cache c')) → (now <= later)%Q →
      report_client_termination config cache_ttl_seconds later signal' c' s' = (c', s', false)) as Hall.
  { intros s' Hp. split; [|split; [|split; [|split; [|split; [done|]]]]].
    - unfold is_cancelled in Hc. unfold ensure_not_cancelled. destruct (cget now key (co_cache c')) as [st|]; [|done].
      rewrite Hc. eauto.
    - unfold stopped. by rewrite Hs filter_app fmap_app pairs_of decide_True.
    - unfold held in *. by rewrite Hcache.
    - intros other Hne. split; [unfold stopped; by rewrite Hs filter_app fmap_app pairs_of decide_False // app_nil_r|].
      rewrite Hcache. apply (other_call now (Cancel key (cl_reason signal)) other c now); [lra|done].
    - intros later signal' Hkey Hsome Hle. unfold report_client_termination. by rewrite Hkey (is_cancelled_later now). }
  destruct (ensure_session_metrics _ _ _ _) as [cache []]; apply Hall; [done|by rewrite record_signal_published].
Qed.

(** ** What the cleanup does to the gate *)

(** The event of a session without a group reopens the gate, also when the session was
    ended by its client; the state of a session with a group is kept. *)
Lemma event_reopens_gate now later id event c :
  (now <= later)%Q → ev_session_id event = id → is_empty (strip id) = false →
  ensure_not_cancelled later (MkKey "http" id None) (handle_eos_event now event c) = Ok tt.
Proof using Laws.
  intros Hle Hid Hs. unfold handle_eos_event, mk_SessionKey. rewrite Hid Hs.
  assert (is_empty id = false) as -> by (by destruct id). simpl. unfold cleanup, ensure_not_cancelled.
  destruct (cget now (MkKey "http" id None) (co_cache c)) eqn:Hnow; simpl; [by rewrite cget_pop|].
  destruct (cget_later now later (MkKey "http" id None) (co_cache c) Hle) as [-> | ->]; by rewrite ?Hnow.
Qed.

Lemma grouped_session_not_cleaned now later id group event c :
  (now <= later)%Q →
  cget later (MkKey "http" id (Some group)) (co_cache (handle_eos_event now event c)) =
  cget later (MkKey "http" id (Some group)) (co_cache c).
Proof using Laws.
  intros Hle. unfold handle_eos_event, mk_SessionKey. repeat (case_match; simplify_eq; try done). unfold cleanup.
  destruct (cget now _ _); simpl; [|done]. by apply cget_pop_other.
Qed.

(** The client gets the chunks that arrived while the session was not cancelled. *)
Lemma guarded_prefix {A} key (before after : list (A * Q * option coordinator)) chunk now c :
  Forall (λ a, guard_is_cancelled a.1.2 a.2 key = false) before → guard_is_cancelled now c key = true →
  guarded key (before ++ (chunk, now, c) :: after) = (λ a, a.1.1) <$> before.
Proof.
  intros Hb Hc. induction Hb as [|[[x t] co] before Hx _ IH]; csimpl; [by rewrite Hc|]. simpl in Hx. by rewrite Hx IH.
Qed.
End coordinator.

(** ** Witnesses and observations *)

Arguments coordinator : clear implicits.
Arguments cancellation_state : clear implicits.
Arguments call : clear implicits.

#[local] Instance sample_cache : TTLCache SessionKey (cancellation_state nat) (list_cache SessionKey (cancellation_state nat)) :=
  list_cache_ops 3600 1000.

#[local] Instance sample_cache_laws :
  TTLCacheLaws SessionKey (cancellation_state nat) (list_cache SessionKey (cancellation_state nat)).
Proof. apply list_cache_laws; [done|by apply Nat.ltb_lt]. Qed.

Definition new_coordinator : coordinator nat (list_cache SessionKey (cancellation_state nat)) :=
  MkCoordinator (MkListCache []) [] [].

Definition sample_key : SessionKey := MkKey "http" "r1" None.

Definition sample_calls : list (Q * call nat) :=
  [(0%Q, Register sample_key 1); (1%Q, Register sample_key 2); (2%Q, Cancel sample_key CLIENT_CANCELLED); (3%Q, LoopTurn 0);
   (4%Q, Register sample_key 3); (5%Q, LoopTurn 0)].

Lemma cancelled_session_stops_witness :
  stopped sample_key (run_calls sample_calls new_coordinator) ++ stopping sample_key (run_calls sample_calls new_coordinator)
  ≡ₚ [1; 2; 3].
Proof.
  apply (cancelled_session_stops sample_key 0 sample_calls new_coordinator CLIENT_CANCELLED 2).
  - by repeat split.
  - repeat split; vm_compute; done.
  - apply list_elem_of_In. simpl. tauto.
  - repeat split; first [by vm_compute; eexists | match goal with Hn : is_Some _ |- _ => vm_compute in Hn; by destruct Hn end].
Defined.

Definition end_signal : ClientEndOfSessionSignal := MkClientSignal sample_key 2 CLIENT_DISCONNECTED.

Definition after_end : coordinator nat (list_cache SessionKey (cancellation_state nat)) * eos_state * bool :=
  report_client_termination sample_config 5 2 end_signal
    (run_calls [(0%Q, Register sample_key 1); (1%Q, Register sample_key 2)] new_coordinator)
    (initial {["r1"%string := minimal_metrics 0]}).

Lemma client_end_stops_session_witness :
  stopped sample_key after_end.1.1 = [1; 2] ∧ held 2 sample_key after_end.1.1 = [].
Proof.
  pose proof (client_end_stops_session sample_config 5 2 end_signal
    (run_calls [(0%Q, Register sample_key 1); (1%Q, Register sample_key 2)] new_coordinator)
    (initial {["r1"%string := minimal_metrics 0]}) eq_refl) as (_ & Hs & Hh & _).
  split; [exact Hs|exact Hh].
Defined.

(** The end a client reported is announced; the cleanup of the announcement lets the
    session work again. *)
Example announced_end_reopens_gate :
  let '(c, s, _) := after_end in
  match run sample_config 5 [LQuery 0 3 DbOk; LResume 0 4] s with
  | Some s' => (λ e, (ensure_not_cancelled 5 sample_key c, ensure_not_cancelled 5 sample_key (handle_eos_event 4 e c))) <$> published s'
  | None => []
  end = [(Err (session_cancelled_error sample_key CLIENT_DISCONNECTED), Ok tt)].
Proof. vm_compute. reflexivity. Qed.

(** The lifetime of a cancellation counts from the first registration. *)
Example late_cancellation_expires :
  ensure_not_cancelled 3601 sample_key
    (run_calls [(0%Q, Register sample_key 1); (3599%Q, Cancel sample_key CLIENT_CANCELLED)] new_coordinator) = Ok tt.
Proof. vm_compute. reflexivity. Qed.

(** Work that was registered longer ago than the lifetime is not cancelled. *)
Example long_work_not_cancelled :
  let c := run_calls [(0%Q, Register sample_key 1); (3601%Q, Cancel sample_key CLIENT_CANCELLED)] new_coordinator in
  is_cancelled 3602 sample_key c = true ∧ co_loops c = [] ∧ co_cancelled c = [].
Proof. vm_compute. repeat split. Qed.
