(* ===== verification/B2buaMapping.v ===== *)
(** * The continuity of client sessions

    [src/core/services/b2bua_mapping_store_service.py]: the settings and the in-memory
    store, with the types and the interface of
    [src/core/interfaces/b2bua_mapping_store_interface.py].  The proxy gives a client
    session an internal session, its A-leg, and the attempts of the A-leg at backends
    numbered B-legs.

    A lock is held across no wait, so an operation is one step; it reads the clock once.
    The source of new A-leg ids is a function from the number of ids drawn so far. *)

From S2P Require Import Prelude PyStr PyDict Exceptions.
From stdpp Require Import options.

(** ** Types *)

Record B2buaContinuityResolution : Type := MkResolution {
  res_a_session_id : str;
  reused_existing : bool;
  had_store_error : bool
}.

Record B2buaAttemptRecord : Type := MkAttempt {
  at_b_session_id : str;
  at_a_session_id : str;
  at_seq : Z;
  at_backend_type : option str;
  at_effective_model : option str;
  at_reason : option str
}.

(** What is recorded of an attempt besides its identity. *)
Record attempt_details : Type := MkDetails {
  dt_backend_type : option str;
  dt_effective_model : option str;
  dt_reason : option str
}.

(** The key of a mapping: auth scope and client session. *)
Definition continuity_key : Type := str * str.

(** [create_a_session_id]: draws an id, and how many are drawn then. *)
Definition id_source : Type := nat → str * nat.

(** ** Settings *)

Definition _DEFAULT_MAX_MAPPINGS : Z := 50000.
Definition _DEFAULT_CONTINUITY_TTL_SECONDS : Z := 3600.

Definition _ANON_AUTH_SCOPE_PREFIX : str := "__b2bua-anon-auth__".
Definition _LOCALHOST_AUTH_SCOPE : str := "localhost".

Definition _echo_continuity_auth_allows (stored_auth_scope_id : str) (requesting_auth_scope_id : option str) : bool :=
  bool_decide (requesting_auth_scope_id = Some stored_auth_scope_id) ||
  (startswith _ANON_AUTH_SCOPE_PREFIX stored_auth_scope_id &&
   match requesting_auth_scope_id with
   | None => true
   | Some scope => String.eqb scope _LOCALHOST_AUTH_SCOPE
   end).

(** The two fields of [config.session.b2bua], where they are there. *)
Record continuity_fields : Type := MkFields {
  continuity_max_age_seconds : option json;
  continuity_sliding_expiration : option json
}.

Definition _read_config_ttl_seconds (config : option continuity_fields) : Z :=
  match config ≫= (as_int ∘ continuity_max_age_seconds) with
  | Some configured => if (1 <=? configured)%Z then configured else _DEFAULT_CONTINUITY_TTL_SECONDS
  | None => _DEFAULT_CONTINUITY_TTL_SECONDS
  end.

Definition _read_config_sliding_expiration (config : option continuity_fields) : bool :=
  match config ≫= continuity_sliding_expiration with Some (JBool configured) => configured | _ => true end.

Record store_settings : Type := MkSettings {
  continuity_ttl_seconds : Z;
  sliding_expiration : bool;
  max_entries : Z
}.

(** What both constructors do with their arguments. *)
Definition mk_settings (config : option continuity_fields) (ttl : option Z) (sliding : option bool) (max_entries : Z) :
    res exn store_settings :=
  ensure (1 <=? max_entries)%Z else py_exception "ValueError" "max_entries must be >= 1";
  Ok (MkSettings (default (_read_config_ttl_seconds config) ttl)
        (default (_read_config_sliding_expiration config) sliding) max_entries).

Definition _normalize_required_identifier (value field_name : str) : res exn str :=
  let normalized := strip value in
  if is_empty normalized then Err (py_exception "ValueError" (field_name +:+ " cannot be empty")) else Ok normalized.

Definition not_found (a_session_id : str) : exn :=
  py_exception "KeyError" ("A-leg session mapping not found for a_session_id=" +:+ a_session_id).

(** ** The interface

    A state may be gone between two calls only by the calls themselves; the clock is an
    argument. *)

Class MappingStore (S : Type) : Type := {
  resolve_or_create_a_session_id : Q → str → str → id_source → nat → S → B2buaContinuityResolution * nat * S;
  try_resolve_echoed_a_session_id : Q → str → option str → S → option B2buaContinuityResolution * S;
  allocate_next_b_seq : Q → str → S → res exn Z * S;
  record_attempt : Q → str → str → Z → attempt_details → S → res exn unit * S;
  get_attempt_records : Q → str → S → res exn (list B2buaAttemptRecord) * S
}.

(** What every store promises.  [leg s a]: the client session that the A-leg belongs to,
    and its last B-leg number; a leg may vanish at any call. *)
Definition only_loses (leg leg' : str → option (continuity_key * Z)) : Prop :=
  ∀ a e, leg' a = Some e → leg a = Some e.

Class MappingStoreLaws (S : Type) `{MappingStore S} : Type := {
  leg : S → str → option (continuity_key * Z);
  store_ok : S → Prop;
  resolve_law : ∀ now auth client create n s,
    store_ok s → leg s (create n).1 = None →
    let '(r, n', s') := resolve_or_create_a_session_id now auth client create n s in
    let a := res_a_session_id r in
    store_ok s' ∧
    if reused_existing r then
      n' = n ∧ only_loses (leg s) (leg s') ∧ ∃ seq, leg s a = Some ((strip auth, strip client), seq)
    else
      (a, n') = create n ∧ (∀ a' e, leg s' a' = Some e → leg s a' = Some e ∨
        had_store_error r = false ∧ a' = a ∧ e = ((strip auth, strip client), 0%Z)) ∨
      (a, n') = create (create n).2 ∧ only_loses (leg s) (leg s');
  echo_law : ∀ now a_session_id scope s,
    store_ok s →
    let '(r, s') := try_resolve_echoed_a_session_id now a_session_id scope s in
    store_ok s' ∧ only_loses (leg s) (leg s') ∧
    ∀ resolution, r = Some resolution →
      res_a_session_id resolution = strip a_session_id ∧ reused_existing resolution = true ∧
      ∃ auth client seq, leg s (strip a_session_id) = Some ((auth, client), seq) ∧
        _echo_continuity_auth_allows auth scope = true;
  allocate_law : ∀ now a_session_id s,
    store_ok s →
    let '(r, s') := allocate_next_b_seq now a_session_id s in
    store_ok s' ∧
    match r with
    | Ok seq => ∃ key, leg s (strip a_session_id) = Some (key, (seq - 1)%Z) ∧
        ∀ a e, leg s' a = Some e → if decide (a = strip a_session_id) then e = (key, seq) else leg s a = Some e
    | Err _ => only_loses (leg s) (leg s')
    end;
  record_law : ∀ now a_session_id b_session_id seq details s,
    store_ok s →
    let '(_, s') := record_attempt now a_session_id b_session_id seq details s in
    store_ok s' ∧ only_loses (leg s) (leg s');
  records_law : ∀ now a_session_id s,
    store_ok s →
    let '(_, s') := get_attempt_records now a_session_id s in store_ok s' ∧ only_loses (leg s) (leg s')
}.

#[global] Instance only_loses_refl : Reflexive only_loses.
Proof. intros leg a e. done. Qed.

#[global] Instance only_loses_trans : Transitive only_loses.
Proof. intros l1 l2 l3 H1 H2 a e H. by apply H1, H2. Qed.

(** ** The in-memory store *)

Record _ContinuityEntry : Type := MkEntry {
  a_session_id : str;
  expires_at : Q;
  last_accessed_at : Q;
  last_b_seq : Z
}.

Record InMemoryB2buaMappingStore : Type := MkMemoryStore {
  _entries : list (continuity_key * _ContinuityEntry);
  _a_session_to_key : gmap string continuity_key;
  _attempt_records : gmap string (list B2buaAttemptRecord)
}.

Definition empty_memory_store : InMemoryB2buaMappingStore := MkMemoryStore [] ∅ ∅.

(** [_entries.pop(key)] with the two maps kept in step. *)
Definition pop_entry (m : InMemoryB2buaMappingStore) (key : continuity_key) : InMemoryB2buaMappingStore :=
  match od_get key (_entries m) with
  | Some entry =>
      MkMemoryStore (od_pop key (_entries m)) (delete (a_session_id entry) (_a_session_to_key m))
        (delete (a_session_id entry) (_attempt_records m))
  | None => m
  end.

Definition _cleanup_expired_entries (now : Q) (m : InMemoryB2buaMappingStore) : InMemoryB2buaMappingStore :=
  foldl pop_entry m (filter (λ item, Qle_bool (expires_at item.2) now = true) (_entries m)).*1.

(** [min(items, key=...)]: the first of the least recently used. *)
Fixpoint oldest_item (items : list (continuity_key * _ContinuityEntry)) : option (continuity_key * _ContinuityEntry) :=
  match items with
  | [] => None
  | item :: items =>
      match oldest_item items with
      | Some other =>
          if Qltb (last_accessed_at other.2) (last_accessed_at item.2) then Some other else Some item
      | None => Some item
      end
  end.

Section memory.
Context (settings : store_settings).

(** The loop pops an entry each time. *)
Fixpoint evict_loop (fuel : nat) (m : InMemoryB2buaMappingStore) : InMemoryB2buaMappingStore :=
  match fuel with
  | O => m
  | S fuel =>
      if (max_entries settings <? Z.of_nat (length (_entries m)))%Z then
        match oldest_item (_entries m) with
        | Some (oldest_key, _) => evict_loop fuel (pop_entry m oldest_key)
        | None => m
        end
      else m
  end.

Definition _evict_if_needed (m : InMemoryB2buaMappingStore) : InMemoryB2buaMappingStore :=
  evict_loop (length (_entries m)) m.

Definition next_expiry (now : Q) : Q := now + inject_Z (continuity_ttl_seconds settings).

(** What an access does to an entry. *)
Definition touch (now : Q) (entry : _ContinuityEntry) : _ContinuityEntry :=
  MkEntry (a_session_id entry) (if sliding_expiration settings then next_expiry now else expires_at entry) now
    (last_b_seq entry).

(** What the allocation of a B-leg does to it. *)
Definition number_leg (now : Q) (entry : _ContinuityEntry) : _ContinuityEntry :=
  touch now (MkEntry (a_session_id entry) (expires_at entry) (last_accessed_at entry) (last_b_seq entry + 1)).

Definition set_entry (key : continuity_key) (entry : _ContinuityEntry) (m : InMemoryB2buaMappingStore) :
    InMemoryB2buaMappingStore :=
  MkMemoryStore (od_set key entry (_entries m)) (_a_session_to_key m) (_attempt_records m).

Definition memory_resolve_core (now : Q) (auth_scope_id client_session_id : str) (create : id_source) (n : nat)
    (m : InMemoryB2buaMappingStore) : res exn (B2buaContinuityResolution * nat) * InMemoryB2buaMappingStore :=
  match
    auth ← _normalize_required_identifier auth_scope_id "auth_scope_id";
    client ← _normalize_required_identifier client_session_id "client_session_id";
    Ok (auth, client)
  with
  | Err e => (Err e, m)
  | Ok key =>
      let m := _cleanup_expired_entries now m in
      match od_get key (_entries m) with
      | Some existing => (Ok (MkResolution (a_session_id existing) true false, n), set_entry key (touch now existing) m)
      | None =>
          let '(a_session_id, n) := create n in
          let m := MkMemoryStore (od_set key (MkEntry a_session_id (next_expiry now) now 0) (_entries m))
                     (<[a_session_id := key]> (_a_session_to_key m)) (_attempt_records m) in
          (Ok (MkResolution a_session_id false false, n), _evict_if_needed m)
      end
  end.

Definition memory_resolve_or_create (now : Q) (auth_scope_id client_session_id : str) (create : id_source) (n : nat)
    (m : InMemoryB2buaMappingStore) : B2buaContinuityResolution * nat * InMemoryB2buaMappingStore :=
  match memory_resolve_core now auth_scope_id client_session_id create n m with
  | (Ok r, m) => (r, m)
  | (Err _, m) => let '(a_session_id, n) := create n in (MkResolution a_session_id false true, n, m)
  end.

Definition memory_try_resolve_echoed (now : Q) (a_session_id : str) (requesting_auth_scope_id : option str)
    (m : InMemoryB2buaMappingStore) : option B2buaContinuityResolution * InMemoryB2buaMappingStore :=
  match _normalize_required_identifier a_session_id "a_session_id" with
  | Err _ => (None, m)
  | Ok normalized_a =>
      let m := _cleanup_expired_entries now m in
      match _a_session_to_key m !! normalized_a with
      | None => (None, m)
      | Some key =>
          match od_get key (_entries m) with
          | None => (None, m)
          | Some entry =>
              if Qle_bool (expires_at entry) now then (None, m)
              else if _echo_continuity_auth_allows key.1 requesting_auth_scope_id then
                (Some (MkResolution (B2buaMapping.a_session_id entry) true false), set_entry key (touch now entry) m)
              else (None, m)
          end
      end
  end.

Definition memory_allocate_next_b_seq (now : Q) (a_session_id : str) (m : InMemoryB2buaMappingStore) :
    res exn Z * InMemoryB2buaMappingStore :=
  match _normalize_required_identifier a_session_id "a_session_id" with
  | Err e => (Err e, m)
  | Ok a =>
      let m := _cleanup_expired_entries now m in
      match _a_session_to_key m !! a with
      | None => (Err (not_found a), m)
      | Some key =>
          match od_get key (_entries m) with
          | None =>
              (Err (not_found a), MkMemoryStore (_entries m) (delete a (_a_session_to_key m)) (_attempt_records m))
          | Some entry =>
              let entry := number_leg now entry in (Ok (last_b_seq entry), set_entry key entry m)
          end
      end
  end.

(** The checks of [record_attempt] before the store is asked. *)
Definition checked_attempt (a_session_id b_session_id : str) (seq : Z) (d : attempt_details) :
    res exn B2buaAttemptRecord :=
  a ← _normalize_required_identifier a_session_id "a_session_id";
  b ← _normalize_required_identifier b_session_id "b_session_id";
  ensure (1 <=? seq)%Z else py_exception "ValueError" "seq must be >= 1";
  Ok (MkAttempt b a seq (dt_backend_type d) (dt_effective_model d) (dt_reason d)).

Definition memory_record_attempt (now : Q) (a_session_id b_session_id : str) (seq : Z) (d : attempt_details)
    (m : InMemoryB2buaMappingStore) : res exn unit * InMemoryB2buaMappingStore :=
  match checked_attempt a_session_id b_session_id seq d with
  | Err e => (Err e, m)
  | Ok record =>
      let a := at_a_session_id record in
      let m := _cleanup_expired_entries now m in
      match _a_session_to_key m !! a with
      | None => (Err (not_found a), m)
      | Some _ =>
          let records := default [] (_attempt_records m !! a) in
          (Ok tt, MkMemoryStore (_entries m) (_a_session_to_key m) (<[a := records ++ [record]]> (_attempt_records m)))
      end
  end.

Definition memory_get_attempt_records (now : Q) (a_session_id : str) (m : InMemoryB2buaMappingStore) :
    res exn (list B2buaAttemptRecord) * InMemoryB2buaMappingStore :=
  match _normalize_required_identifier a_session_id "a_session_id" with
  | Err e => (Err e, m)
  | Ok a =>
      let m := _cleanup_expired_entries now m in (Ok (default [] (_attempt_records m !! a)), m)
  end.

#[global] Instance memory_store_ops : MappingStore InMemoryB2buaMappingStore := {
  resolve_or_create_a_session_id := memory_resolve_or_create;
  try_resolve_echoed_a_session_id := memory_try_resolve_echoed;
  allocate_next_b_seq := memory_allocate_next_b_seq;
  record_attempt := memory_record_attempt;
  get_attempt_records := memory_get_attempt_records
}.
End memory.

(** ** Lists of items *)

Lemma filter_all_id {A} (P : A → Prop) `{∀ x, Decision (P x)} (l : list A) : (∀ x, x ∈ l → P x) → filter P l = l.
Proof.
  intros HP. transitivity (filter (λ _, True) l); [by apply list_filter_ext; naive_solver|].
  clear HP. induction l as [|x l IH]; [done|]. by rewrite filter_cons_True // IH.
Qed.

Section items.
Context {K A : Type} `{EqDecision K}.
Implicit Types (k : K) (d : list (K * A)).

Lemma od_pop_filter k d : od_ok d → od_pop k d = filter (λ x, x.1 ≠ k) d.
Proof.
  unfold od_ok. induction d as [|[k' v] d IH]; [done|]. csimpl. intros [Hk Hd]%NoDup_cons. rewrite filter_cons.
  destruct (decide (k = k')) as [->|Hne]; simpl.
  - rewrite decide_False; [by intros []|]. symmetry. apply filter_all_id. intros [k2 v2] Hin. simpl. intros ->.
    apply Hk, list_elem_of_fmap. by exists (k', v2).
  - rewrite decide_True; [done|]. by rewrite IH.
Qed.

Lemma od_get_filter (P : K * A → Prop) `{∀ x, Decision (P x)} k d :
  od_ok d → od_get k (filter P d) = (v ← od_get k d; if decide (P (k, v)) then Some v else None).
Proof.
  intros Hd. assert (od_ok (filter P d)) as Hf.
  { unfold od_ok in *. eapply sublist_NoDup; [exact Hd|apply fmap_sublist, sublist_filter]. }
  destruct (od_get k d) as [v|] eqn:Hk; simpl.
  - apply od_get_Some_elem in Hk as Hin. case_decide as HP.
    + apply od_elem_get; [done|]. by apply list_elem_of_filter.
    + apply od_get_None. intros ([k2 v2] & -> & [HP2 Hin2]%list_elem_of_filter)%list_elem_of_fmap. simpl in *.
      apply (od_elem_get _ _ _ Hd) in Hin2. congruence.
  - apply od_get_None. apply od_get_None in Hk. intros (x & -> & [_ Hin]%list_elem_of_filter)%list_elem_of_fmap.
    apply Hk, list_elem_of_fmap. by exists x.
Qed.

Lemma od_del_filter (P : K * A → Prop) `{∀ x, Decision (P x)} d :
  od_ok d → od_del (filter P d).*1 d = filter (λ x, ¬ P x) d.
Proof.
  intros Hd. assert (∀ ks, od_del ks d = filter (λ x, x.1 ∉ ks) d) as Hks.
  { intros ks. revert d Hd. induction ks as [|k ks IH]; intros d Hd; simpl.
    - symmetry. apply filter_all_id. intros x _. apply not_elem_of_nil.
    - rewrite IH; [by apply od_pop_ok|]. rewrite (od_pop_filter k d Hd) list_filter_filter. apply list_filter_iff.
      intros x. rewrite not_elem_of_cons. tauto. }
  rewrite Hks. apply list_filter_ext. intros [k v] Hin. simpl. split.
  - intros Hk HP. apply Hk, list_elem_of_fmap. exists (k, v). split; [done|]. by apply list_elem_of_filter.
  - intros HP ([k2 v2] & Hk & [HP2 Hin2]%list_elem_of_filter)%list_elem_of_fmap. simpl in Hk. subst k2.
    apply (od_elem_get _ _ _ Hd) in Hin, Hin2. congruence.
Qed.
End items.

(** ** The invariant of the store *)

Definition live (now : Q) (item : continuity_key * _ContinuityEntry) : Prop := ¬ Qle_bool (expires_at item.2) now = true.

#[global] Instance live_dec now item : Decision (live now item).
Proof. unfold live. apply _. Defined.

(** The index inverts the entries. *)
Record memory_ok (m : InMemoryB2buaMappingStore) : Prop := {
  entries_ok : od_ok (_entries m);
  index_exact : ∀ a key, _a_session_to_key m !! a = Some key ↔
    ∃ entry, od_get key (_entries m) = Some entry ∧ a_session_id entry = a;
  records_indexed : ∀ a, is_Some (_attempt_records m !! a) → is_Some (_a_session_to_key m !! a)
}.

Definition memory_leg (m : InMemoryB2buaMappingStore) (a : str) : option (continuity_key * Z) :=
  key ← _a_session_to_key m !! a; entry ← od_get key (_entries m); Some (key, last_b_seq entry).

Lemma empty_memory_ok : memory_ok empty_memory_store.
Proof. split; simpl; [constructor| |]; intros a; [intros key|]; rewrite lookup_empty; [naive_solver|by intros []]. Qed.

Lemma memory_leg_Some m a key seq :
  memory_ok m →
  memory_leg m a = Some (key, seq) ↔
  ∃ entry, od_get key (_entries m) = Some entry ∧ a_session_id entry = a ∧ last_b_seq entry = seq.
Proof.
  intros Hm. unfold memory_leg. split.
  - intros (k & Hk & (entry & He & [= -> <-])%bind_Some)%bind_Some.
    apply (index_exact _ Hm) in Hk as (entry' & He' & Ha). simplify_eq. by eexists.
  - intros (entry & He & Ha & <-). assert (_a_session_to_key m !! a = Some key) as ->; [|by rewrite /= He].
    apply (index_exact _ Hm). by exists entry.
Qed.

Lemma memory_leg_None m a : memory_ok m → memory_leg m a = None → _a_session_to_key m !! a = None.
Proof.
  intros Hm Hl. destruct (_a_session_to_key m !! a) as [key|] eqn:Hk; [|done].
  apply (index_exact _ Hm) in Hk as (entry & He & Ha).
  assert (memory_leg m a = Some (key, last_b_seq entry)); [|congruence].
  apply memory_leg_Some; [done|]. by exists entry.
Qed.

Lemma pop_entry_ok m key : memory_ok m → memory_ok (pop_entry m key).
Proof.
  intros Hm. unfold pop_entry. destruct (od_get key (_entries m)) as [entry|] eqn:He; [|done].
  assert (∀ a, _a_session_to_key m !! a = Some key ↔ a = a_session_id entry) as Hkey.
  { intros a. rewrite (index_exact _ Hm). naive_solver. }
  split; simpl.
  - apply od_pop_ok, Hm.
  - intros a k. rewrite lookup_delete_Some (index_exact _ Hm). split.
    + intros (Hne & e & Hk & Ha). exists e. rewrite od_get_pop_ne //. intros ->. congruence.
    + intros (e & Hk & Ha). destruct (decide (k = key)) as [->|Hne]; [by rewrite od_get_pop_eq in Hk; [apply Hm|]|].
      rewrite od_get_pop_ne // in Hk. split; [|by exists e]. intros <-.
      assert (_a_session_to_key m !! a_session_id entry = Some k) as Hi by (apply (index_exact _ Hm); by exists e).
      rewrite (proj2 (Hkey _) eq_refl) in Hi. congruence.
  - intros a [rs [Hne Hr]%lookup_delete_Some]. rewrite lookup_delete_ne //. apply (records_indexed _ Hm). eauto.
Qed.

Lemma pop_entry_entries m key : _entries (pop_entry m key) = od_pop key (_entries m).
Proof.
  unfold pop_entry. destruct (od_get key (_entries m)) eqn:He; [done|]. by rewrite od_pop_None.
Qed.

Lemma pop_entry_loses m key : memory_ok m → only_loses (memory_leg m) (memory_leg (pop_entry m key)).
Proof.
  intros Hm a [k seq]. pose proof (pop_entry_ok m key Hm) as Hp. rewrite !memory_leg_Some // pop_entry_entries.
  intros (entry & He & Ha & Hs). exists entry. split; [|done].
  destruct (decide (k = key)) as [->|Hne]; [by rewrite od_get_pop_eq in He; [apply Hm|]|]. by rewrite od_get_pop_ne in He.
Qed.

Lemma pops_spec keys m :
  memory_ok m → memory_ok (foldl pop_entry m keys) ∧ only_loses (memory_leg m) (memory_leg (foldl pop_entry m keys)) ∧
  _entries (foldl pop_entry m keys) = od_del keys (_entries m).
Proof.
  revert m. induction keys as [|key keys IH]; intros m Hm; simpl; [done|].
  destruct (IH (pop_entry m key)) as (Hok & Hl & He); [by apply pop_entry_ok|]. split; [done|]. split.
  - etrans; [by apply pop_entry_loses|done].
  - by rewrite He pop_entry_entries.
Qed.

(** The cleanup keeps the live entries, in their order. *)
Lemma cleanup_spec now m :
  memory_ok m →
  memory_ok (_cleanup_expired_entries now m) ∧
  only_loses (memory_leg m) (memory_leg (_cleanup_expired_entries now m)) ∧
  _entries (_cleanup_expired_entries now m) = filter (live now) (_entries m).
Proof.
  intros Hm. unfold _cleanup_expired_entries.
  destruct (pops_spec (filter (λ item, Qle_bool (expires_at item.2) now = true) (_entries m)).*1 m Hm) as (? & ? & He).
  split; [done|]. split; [done|]. rewrite He od_del_filter; [apply Hm|]. by apply list_filter_iff.
Qed.

Section memory_laws.
Context (settings : store_settings).
Implicit Types m : InMemoryB2buaMappingStore.

Lemma evict_loop_spec fuel m :
  memory_ok m → memory_ok (evict_loop settings fuel m) ∧
  only_loses (memory_leg m) (memory_leg (evict_loop settings fuel m)).
Proof.
  revert m. induction fuel as [|fuel IH]; intros m Hm; simpl; [done|].
  case_match; [|done]. destruct (oldest_item _) as [[key ?]|]; [|done].
  destruct (IH (pop_entry m key)) as [Hok Hl]; [by apply pop_entry_ok|]. split; [done|].
  etrans; [by apply pop_entry_loses|done].
Qed.

Lemma oldest_item_elem items item : oldest_item items = Some item → item ∈ items.
Proof.
  revert item. induction items as [|i items IH]; intros item; simpl; [done|].
  destruct (oldest_item items) as [other|]; [case_match|]; intros [= <-]; try (by left). right. by apply IH.
Qed.

Lemma oldest_item_None items : oldest_item items = None → items = [].
Proof. destruct items as [|i items]; simpl; [done|]. repeat case_match; done. Qed.

(** The fuel is enough: the store ends within its limit. *)
Lemma evict_loop_bounded fuel m :
  (0 <= max_entries settings)%Z → length (_entries m) ≤ fuel →
  (Z.of_nat (length (_entries (evict_loop settings fuel m))) <= max_entries settings)%Z.
Proof.
  intros Hmax. revert m. induction fuel as [|fuel IH]; intros m Hf; simpl; [lia|].
  case_match eqn:Hlt; [|lia]. destruct (oldest_item _) as [[key entry]|] eqn:Ho; [|by apply oldest_item_None in Ho as ->].
  apply IH. rewrite pop_entry_entries. apply oldest_item_elem in Ho.
  destruct (od_get key (_entries m)) as [e|] eqn:He; [apply od_pop_length in He; lia|].
  apply od_get_None in He as []. apply list_elem_of_fmap. by exists (key, entry).
Qed.

Lemma set_entry_spec key entry entry' m :
  memory_ok m → od_get key (_entries m) = Some entry → a_session_id entry' = a_session_id entry →
  memory_ok (set_entry key entry' m) ∧
  ∀ a e, memory_leg (set_entry key entry' m) a = Some e →
    if decide (a = a_session_id entry) then e = (key, last_b_seq entry') else memory_leg m a = Some e.
Proof.
  intros Hm He Ha. assert (memory_ok (set_entry key entry' m)) as Hok.
  { split; simpl; [apply od_set_ok, Hm| |apply Hm]. intros a k. rewrite (index_exact _ Hm).
    destruct (decide (k = key)) as [->|Hne]; [rewrite od_get_set_eq He|by rewrite od_get_set_ne].
    split; [intros (e & [= <-] & <-)|intros (e & [= <-] & <-)]; eauto. }
  split; [done|]. intros a [k seq] (e & Hk & Hae & <-)%(memory_leg_Some _ _ _ _ Hok). simpl in Hk.
  destruct (decide (k = key)) as [->|Hne].
  - rewrite od_get_set_eq in Hk. injection Hk as <-. rewrite decide_True //. by rewrite -Hae.
  - rewrite od_get_set_ne // in Hk. rewrite decide_False.
    + intros ->. assert (Some k = Some key) as [= ?]; [|done].
      transitivity (_a_session_to_key m !! a_session_id entry); [symmetry|]; apply (index_exact _ Hm); eauto.
    + apply memory_leg_Some; eauto.
Qed.

Lemma touch_spec now key entry m :
  memory_ok m → od_get key (_entries m) = Some entry →
  memory_ok (set_entry key (touch settings now entry) m) ∧
  only_loses (memory_leg m) (memory_leg (set_entry key (touch settings now entry) m)).
Proof.
  intros Hm He. destruct (set_entry_spec key entry (touch settings now entry) m Hm He eq_refl) as [Hok Hl].
  split; [done|]. intros a e Hae%Hl. case_decide as Ha; [|done]. subst a e. apply memory_leg_Some; eauto.
Qed.

Lemma add_entry_spec now key a m :
  memory_ok m → od_get key (_entries m) = None → memory_leg m a = None →
  let m' := MkMemoryStore (od_set key (MkEntry a (next_expiry settings now) now 0) (_entries m))
              (<[a := key]> (_a_session_to_key m)) (_attempt_records m) in
  memory_ok m' ∧ ∀ a' e, memory_leg m' a' = Some e → memory_leg m a' = Some e ∨ a' = a ∧ e = (key, 0%Z).
Proof.
  intros Hm Hk Ha%memory_leg_None m'; [|done].
  assert (memory_ok m') as Hok.
  { split; simpl; [apply od_set_ok, Hm| |].
    - intros a' k. rewrite lookup_insert_Some (index_exact _ Hm). split.
      + intros [[<- <-]|(Hne & e & Hg & Hae)]; [rewrite od_get_set_eq; eauto|].
        rewrite od_get_set_ne; [intros ->; congruence|eauto].
      + destruct (decide (k = key)) as [->|Hne]; [rewrite od_get_set_eq; intros (e & [= <-] & <-); by left|].
        rewrite od_get_set_ne //. intros (e & Hg & Hae). right. split; [|eauto]. intros <-.
        assert (_a_session_to_key m !! a = Some k); [|congruence]. apply (index_exact _ Hm). eauto.
    - intros a' Hr%(records_indexed _ Hm). apply lookup_insert_is_Some'. by right. }
  split; [done|]. intros a' [k seq] (e & Hg & Hae & <-)%(memory_leg_Some _ _ _ _ Hok). simpl in Hg.
  destruct (decide (k = key)) as [->|Hne]; [rewrite od_get_set_eq in Hg; injection Hg as <-; by right|].
  rewrite od_get_set_ne // in Hg. left. apply memory_leg_Some; eauto.
Qed.

Lemma identifier_strip value field a : _normalize_required_identifier value field = Ok a → a = strip value.
Proof. unfold _normalize_required_identifier. case_match; congruence. Qed.

Lemma identifiers_strip {A} auth client (k : str * str → res exn A) r :
  (auth ← _normalize_required_identifier auth "auth_scope_id";
   client ← _normalize_required_identifier client "client_session_id"; k (auth, client)) = Ok r →
  k (strip auth, strip client) = Ok r.
Proof.
  intros (a & ->%identifier_strip & (c & ->%identifier_strip & Hk)%bind_Ok_inv)%bind_Ok_inv. done.
Qed.

#[global] Instance memory_store_laws : @MappingStoreLaws InMemoryB2buaMappingStore (memory_store_ops settings).
Proof.
  refine {| leg := memory_leg; store_ok := memory_ok |}; simpl.
  - intros now auth client create n m Hm Hfresh. unfold memory_resolve_or_create, memory_resolve_core.
    destruct (auth' ← _; _) as [key|e] eqn:Hkey; simpl.
    2:{ destruct (create n) as [a n']. simpl. split; [done|]. left. split; [done|]. by left. }
    apply identifiers_strip in Hkey. injection Hkey as <-.
    destruct (cleanup_spec now m Hm) as (Hc & Hl & _). set (m1 := _cleanup_expired_entries now m) in *.
    destruct (od_get _ (_entries m1)) as [entry|] eqn:He; simpl.
    + destruct (touch_spec now _ _ _ Hc He) as [Hok Hl']. split; [done|]. split; [done|]. split; [by etrans|].
      exists (last_b_seq entry). apply Hl, memory_leg_Some; eauto.
    + destruct (create n) as [a n']. simpl in *.
      assert (memory_leg m1 a = None) as Hn.
      { destruct (memory_leg m1 a) as [e|] eqn:E; [|done]. apply Hl in E. congruence. }
      destruct (add_entry_spec now _ a m1 Hc He Hn) as [Hok Hadd].
      destruct (evict_loop_spec (length (od_set (strip auth, strip client) (MkEntry a (next_expiry settings now) now 0) (_entries m1))) _ Hok)
        as [Hok' Hl']. split; [done|]. left. split; [done|].
      intros a' e [Hle| [-> ->]]%Hl'%Hadd; [by left; apply Hl|by right].
  - intros now a scope m Hm. unfold memory_try_resolve_echoed.
    destruct (_normalize_required_identifier _ _) as [a'|e] eqn:Ha; [|done]. apply identifier_strip in Ha as ->.
    destruct (cleanup_spec now m Hm) as (Hc & Hl & _). set (m1 := _cleanup_expired_entries now m) in *.
    destruct (_a_session_to_key m1 !! strip a) as [key|] eqn:Hk; [|done].
    destruct (od_get key (_entries m1)) as [entry|] eqn:He; [|done].
    destruct (Qle_bool _ _); [done|]. destruct (_echo_continuity_auth_allows key.1 scope) eqn:Hallow; [|done].
    destruct (touch_spec now _ _ _ Hc He) as [Hok Hl']. split; [done|]. split; [by etrans|].
    intros r [= <-]. simpl. apply (index_exact _ Hc) in Hk as (entry' & He' & Ha). assert (entry' = entry) as -> by congruence. rewrite -Ha.
    split; [done|]. split; [done|]. destruct key as [auth client]. exists auth, client, (last_b_seq entry). split; [|done].
    apply Hl, memory_leg_Some; eauto.
  - intros now a m Hm. unfold memory_allocate_next_b_seq.
    destruct (_normalize_required_identifier _ _) as [a'|e] eqn:Ha; [|done]. apply identifier_strip in Ha as ->.
    destruct (cleanup_spec now m Hm) as (Hc & Hl & _). set (m1 := _cleanup_expired_entries now m) in *.
    destruct (_a_session_to_key m1 !! strip a) as [key|] eqn:Hk; [|done].
    apply (index_exact _ Hc) in Hk as (entry & He & Ha). rewrite He.
    destruct (set_entry_spec key entry (number_leg settings now entry) m1 Hc He eq_refl) as [Hok Hl']. split; [done|].
    exists key. simpl. rewrite Z.add_simpl_r.
    split; [apply Hl, memory_leg_Some; eauto|]. rewrite Ha in Hl'. intros a' e Hae%Hl'. case_decide; [done|by apply Hl].
  - intros now a b seq d m Hm. unfold memory_record_attempt. destruct (checked_attempt _ _ _ _) as [record|e]; [|done].
    destruct (cleanup_spec now m Hm) as (Hc & Hl & _). set (m1 := _cleanup_expired_entries now m) in *.
    destruct (_a_session_to_key m1 !! _) as [key|] eqn:Hk; [|done]. split; [|done].
    split; simpl; [apply Hc..|]. intros a' [<-|[_ Hr]]%lookup_insert_is_Some; [by rewrite Hk|by apply Hc].
  - intros now a m Hm. unfold memory_get_attempt_records.
    destruct (_normalize_required_identifier _ _); [|done]. by destruct (cleanup_spec now m Hm) as (Hc & Hl & _).
Defined.
End memory_laws.
