(* ===== verification/B2buaPersistent.v ===== *)
(** * The persistent continuity store

    [PersistentB2buaMappingStore] of [src/core/services/b2bua_mapping_store_service.py],
    over its two SQLite tables, and its agreement with the in-memory store.

    A transaction is one step; when the database fails, at its begin or at its commit, it
    leaves the tables as they were, and so does an exception in it.  The order that
    [ORDER BY] leaves open between equal rows is a parameter. *)

From stdpp Require Import sorting.
From S2P Require Import Prelude PyStr PyDict PySort Exceptions B2buaMapping.
From stdpp Require Import options.

(** ** Tables *)

Record mapping_row : Type := MkRow {
  row_auth_scope_id : str;
  row_client_session_id : str;
  row_a_session_id : str;
  row_last_b_seq : Z;
  row_created_at : Q;
  row_last_accessed_at : Q;
  row_expires_at : Q
}.

Record attempt_row : Type := MkAttemptRow {
  row_attempt : B2buaAttemptRecord;
  attempt_created_at : Q
}.

Record tables : Type := MkTables {
  b2bua_mappings : list mapping_row;
  b2bua_attempts : list attempt_row
}.

Inductive db_fault : Type := NoFault | FaultAtBegin | FaultAtCommit.

#[global] Instance db_fault_eq_dec : EqDecision db_fault.
Proof. solve_decision. Defined.

(** The tables, and what the database will do in the coming transactions. *)
Record PersistentB2buaMappingStore : Type := MkPersistent {
  db : tables;
  faults : list db_fault
}.

Definition row_key (row : mapping_row) : continuity_key := (row_auth_scope_id row, row_client_session_id row).

(** [SELECT ... WHERE], the first row. *)
Definition select_one (P : mapping_row → Prop) `{∀ row, Decision (P row)} (t : tables) : option mapping_row :=
  head (filter P (b2bua_mappings t)).

(** [UPDATE b2bua_mappings SET ... WHERE] *)
Definition update_where (P : mapping_row → Prop) `{∀ row, Decision (P row)} (f : mapping_row → mapping_row)
    (t : tables) : tables :=
  MkTables ((λ row, if decide (P row) then f row else row) <$> b2bua_mappings t) (b2bua_attempts t).

(** [DELETE FROM b2bua_mappings WHERE]; the attempts of the rows are deleted with them. *)
Definition delete_where (P : mapping_row → Prop) `{∀ row, Decision (P row)} (t : tables) : tables :=
  let kept := filter (λ row, ¬ P row) (b2bua_mappings t) in
  MkTables kept (filter (λ x, at_a_session_id (row_attempt x) ∈ row_a_session_id <$> kept) (b2bua_attempts t)).

(** [INSERT INTO b2bua_mappings], with the primary key and the unique A-leg id. *)
Definition insert_mapping (row : mapping_row) (t : tables) : res exn tables :=
  if bool_decide (row_key row ∈ row_key <$> b2bua_mappings t ∨
                  row_a_session_id row ∈ row_a_session_id <$> b2bua_mappings t) then
    Err (py_exception "IntegrityError" "UNIQUE constraint failed")
  else Ok (MkTables (b2bua_mappings t ++ [row]) (b2bua_attempts t)).

(** [INSERT INTO b2bua_attempts]: the B-leg id is the primary key. *)
Definition insert_attempt (x : attempt_row) (t : tables) : res exn tables :=
  if bool_decide (at_b_session_id (row_attempt x) ∈ (at_b_session_id ∘ row_attempt) <$> b2bua_attempts t) then
    Err (py_exception "IntegrityError" "UNIQUE constraint failed")
  else Ok (MkTables (b2bua_mappings t) (b2bua_attempts t ++ [x])).

Section persistent.
Context (order_by : ∀ A : Type, (A → A → bool) → list A → list A).
Context (settings : store_settings).

Definition db_cleanup_expired_entries (now : Q) (t : tables) : tables :=
  delete_where (λ row, Qle_bool (row_expires_at row) now = true) t.

Definition accessed_le (x y : mapping_row) : bool := Qle_bool (row_last_accessed_at x) (row_last_accessed_at y).

Definition db_evict_if_needed (t : tables) : tables :=
  let overflow := (Z.of_nat (length (b2bua_mappings t)) - max_entries settings)%Z in
  if (overflow <=? 0)%Z then t
  else
    foldl (λ t row, delete_where (λ other, row_key other = row_key row) t) t
      (take (Z.to_nat overflow) (order_by _ accessed_le (b2bua_mappings t))).

(** [SET last_accessed_at = ?], and [expires_at = ?] with sliding expiration. *)
Definition touch_row (now : Q) (row : mapping_row) : mapping_row :=
  MkRow (row_auth_scope_id row) (row_client_session_id row) (row_a_session_id row) (row_last_b_seq row)
    (row_created_at row) now
    (if sliding_expiration settings then next_expiry settings now else row_expires_at row).

Definition number_row (now : Q) (seq : Z) (row : mapping_row) : mapping_row :=
  let row := touch_row now row in
  MkRow (row_auth_scope_id row) (row_client_session_id row) (row_a_session_id row) seq
    (row_created_at row) (row_last_accessed_at row) (row_expires_at row).

Definition operational_error : exn := py_exception "OperationalError" "database is locked".

(** [BEGIN IMMEDIATE] to [commit]; an exception rolls back. *)
Definition transaction {A} (body : tables → res exn (A * tables)) (s : PersistentB2buaMappingStore) :
    res exn A * PersistentB2buaMappingStore :=
  let coming := tail (faults s) in
  match head (faults s) with
  | Some FaultAtBegin | Some FaultAtCommit => (Err operational_error, MkPersistent (db s) coming)
  | _ =>
      match body (db s) with
      | Ok (a, t) => (Ok a, MkPersistent t coming)
      | Err e => (Err e, MkPersistent (db s) coming)
      end
  end.

(** The ids drawn are drawn also when the transaction fails afterwards. *)
Definition db_resolve_core (now : Q) (auth_scope_id client_session_id : str) (create : id_source) (n : nat)
    (s : PersistentB2buaMappingStore) : res exn B2buaContinuityResolution * nat * PersistentB2buaMappingStore :=
  match
    auth ← _normalize_required_identifier auth_scope_id "auth_scope_id";
    client ← _normalize_required_identifier client_session_id "client_session_id";
    Ok (auth, client)
  with
  | Err e => (Err e, n, s)
  | Ok key =>
      let t := db_cleanup_expired_entries now (db s) in
      if decide (head (faults s) = Some FaultAtBegin) then (Err operational_error, n, MkPersistent (db s) (tail (faults s)))
      else
        match select_one (λ row, row_key row = key) t with
        | Some row =>
            let '(r, s) := transaction (λ _,
              Ok (MkResolution (row_a_session_id row) true false,
                  update_where (λ row, row_key row = key) (touch_row now) t)) s in
            (r, n, s)
        | None =>
            let '(a_session_id, n) := create n in
            let '(r, s) := transaction (λ _,
              t ← insert_mapping (MkRow key.1 key.2 a_session_id 0 now now (next_expiry settings now)) t;
              Ok (MkResolution a_session_id false false, db_evict_if_needed t)) s in
            (r, n, s)
        end
  end.

Definition db_resolve_or_create (now : Q) (auth_scope_id client_session_id : str) (create : id_source) (n : nat)
    (s : PersistentB2buaMappingStore) : B2buaContinuityResolution * nat * PersistentB2buaMappingStore :=
  match db_resolve_core now auth_scope_id client_session_id create n s with
  | (Ok r, n, s) => (r, n, s)
  | (Err _, n, s) => let '(a_session_id, n) := create n in (MkResolution a_session_id false true, n, s)
  end.

Definition db_try_resolve_echoed (now : Q) (a_session_id : str) (requesting_auth_scope_id : option str)
    (s : PersistentB2buaMappingStore) : option B2buaContinuityResolution * PersistentB2buaMappingStore :=
  match _normalize_required_identifier a_session_id "a_session_id" with
  | Err _ => (None, s)
  | Ok a =>
      let '(r, s) := transaction (λ t,
        let t := db_cleanup_expired_entries now t in
        match select_one (λ row, row_a_session_id row = a) t with
        | None => Ok (None, t)
        | Some row =>
            if Qle_bool (row_expires_at row) now then Ok (None, t)
            else if _echo_continuity_auth_allows (row_auth_scope_id row) requesting_auth_scope_id then
              Ok (Some (MkResolution a true false), update_where (λ row, row_a_session_id row = a) (touch_row now) t)
            else Ok (None, t)
        end) s in
      (match r with Ok r => r | Err _ => None end, s)
  end.

Definition db_allocate_next_b_seq (now : Q) (a_session_id : str) (s : PersistentB2buaMappingStore) :
    res exn Z * PersistentB2buaMappingStore :=
  match _normalize_required_identifier a_session_id "a_session_id" with
  | Err e => (Err e, s)
  | Ok a =>
      transaction (λ t,
        let t := db_cleanup_expired_entries now t in
        match select_one (λ row, row_a_session_id row = a) t with
        | None => Err (not_found a)
        | Some row =>
            let next_seq := (row_last_b_seq row + 1)%Z in
            Ok (next_seq, update_where (λ row, row_a_session_id row = a) (number_row now next_seq) t)
        end) s
  end.

Definition db_record_attempt (now : Q) (a_session_id b_session_id : str) (seq : Z) (d : attempt_details)
    (s : PersistentB2buaMappingStore) : res exn unit * PersistentB2buaMappingStore :=
  match checked_attempt a_session_id b_session_id seq d with
  | Err e => (Err e, s)
  | Ok record =>
      let a := at_a_session_id record in
      transaction (λ t,
        let t := db_cleanup_expired_entries now t in
        match select_one (λ row, row_a_session_id row = a) t with
        | None => Err (not_found a)
        | Some _ =>
            t ← insert_attempt (MkAttemptRow record now) t;
            Ok (tt, update_where (λ row, row_a_session_id row = a) (touch_row now) t)
        end) s
  end.

(** [ORDER BY seq ASC, created_at ASC] *)
Definition attempt_le (x y : attempt_row) : bool :=
  (at_seq (row_attempt x) <? at_seq (row_attempt y))%Z ||
  ((at_seq (row_attempt x) =? at_seq (row_attempt y))%Z && Qle_bool (attempt_created_at x) (attempt_created_at y)).

Definition db_get_attempt_records (now : Q) (a_session_id : str) (s : PersistentB2buaMappingStore) :
    res exn (list B2buaAttemptRecord) * PersistentB2buaMappingStore :=
  match _normalize_required_identifier a_session_id "a_session_id" with
  | Err e => (Err e, s)
  | Ok a =>
      transaction (λ t,
        let t := db_cleanup_expired_entries now t in
        Ok (row_attempt <$> order_by _ attempt_le (filter (λ x, at_a_session_id (row_attempt x) = a) (b2bua_attempts t)), t)) s
  end.

#[global] Instance persistent_store_ops : MappingStore PersistentB2buaMappingStore := {
  resolve_or_create_a_session_id := db_resolve_or_create;
  try_resolve_echoed_a_session_id := db_try_resolve_echoed;
  allocate_next_b_seq := db_allocate_next_b_seq;
  record_attempt := db_record_attempt;
  get_attempt_records := db_get_attempt_records
}.
End persistent.

(** ** The constraints of the tables *)

Record tables_ok (t : tables) : Prop := {
  keys_unique : NoDup (row_key <$> b2bua_mappings t);
  ids_unique : NoDup (row_a_session_id <$> b2bua_mappings t);
  attempts_unique : NoDup (at_b_session_id ∘ row_attempt <$> b2bua_attempts t)
}.

Definition row_leg (t : tables) (a : str) : option (continuity_key * Z) :=
  (λ row, (row_key row, row_last_b_seq row)) <$> select_one (λ row, row_a_session_id row = a) t.

Lemma NoDup_fmap_inj {A B} (f : A → B) (l : list A) x y : NoDup (f <$> l) → x ∈ l → y ∈ l → f x = f y → x = y.
Proof.
  intros Hn Hx Hy Hf. induction l as [|z l IH]; [by apply elem_of_nil in Hx|]. rewrite fmap_cons in Hn.
  apply NoDup_cons in Hn as [Hz Hn]. apply elem_of_cons in Hx as [->|Hx], Hy as [->|Hy]; [done| | |by apply IH].
  - exfalso. apply Hz. rewrite Hf. by apply list_elem_of_fmap_2.
  - exfalso. apply Hz. rewrite -Hf. by apply list_elem_of_fmap_2.
Qed.

(** What is selected by a unique column. *)
Lemma select_one_spec P `{∀ row, Decision (P row)} t row :
  (∀ x y, x ∈ b2bua_mappings t → y ∈ b2bua_mappings t → P x → P y → x = y) →
  select_one P t = Some row ↔ row ∈ b2bua_mappings t ∧ P row.
Proof.
  intros Huniq. unfold select_one. split.
  - intros Hh. assert (row ∈ filter P (b2bua_mappings t)) as Hin by (destruct (filter _ _); simplify_eq/=; by left).
    apply list_elem_of_filter in Hin. tauto.
  - intros [Hin HP]. destruct (filter P (b2bua_mappings t)) as [|x l] eqn:Hf.
    + assert (row ∈ filter P (b2bua_mappings t)) as Hr by (by apply list_elem_of_filter). rewrite Hf in Hr. by apply elem_of_nil in Hr.
    + assert (x ∈ filter P (b2bua_mappings t)) as [Hx Hx']%list_elem_of_filter by (rewrite Hf; by left). simpl.
      f_equal. by apply Huniq.
Qed.

Lemma select_id t a row :
  tables_ok t → select_one (λ row, row_a_session_id row = a) t = Some row ↔ row ∈ b2bua_mappings t ∧ row_a_session_id row = a.
Proof. intros Ht. apply select_one_spec. intros x y Hx Hy <- Hxy. by apply (NoDup_fmap_inj _ _ _ _ (ids_unique _ Ht)). Qed.

Lemma select_key t key row :
  tables_ok t → select_one (λ row, row_key row = key) t = Some row ↔ row ∈ b2bua_mappings t ∧ row_key row = key.
Proof. intros Ht. apply select_one_spec. intros x y Hx Hy <- Hxy. by apply (NoDup_fmap_inj _ _ _ _ (keys_unique _ Ht)). Qed.

Lemma row_leg_Some t a key seq :
  tables_ok t → row_leg t a = Some (key, seq) ↔
  ∃ row, row ∈ b2bua_mappings t ∧ row_a_session_id row = a ∧ row_key row = key ∧ row_last_b_seq row = seq.
Proof.
  intros Ht. unfold row_leg. rewrite fmap_Some. setoid_rewrite select_id; [|done]. naive_solver.
Qed.

Lemma row_leg_None t a : row_leg t a = None → a ∉ row_a_session_id <$> b2bua_mappings t.
Proof.
  unfold row_leg, select_one. intros Hh%fmap_None (row & -> & Hin)%list_elem_of_fmap.
  assert (row ∈ filter (λ x, row_a_session_id x = row_a_session_id row) (b2bua_mappings t)) as Hf by (by apply list_elem_of_filter).
  destruct (filter _ _); [by apply elem_of_nil in Hf|done].
Qed.

Lemma delete_where_ok P `{∀ row, Decision (P row)} t : tables_ok t → tables_ok (delete_where P t).
Proof.
  intros [Hk Hi Hb]. split; simpl; (eapply sublist_NoDup; [|apply fmap_sublist, sublist_filter]); done.
Qed.

Lemma delete_where_loses P `{∀ row, Decision (P row)} t :
  tables_ok t → only_loses (row_leg t) (row_leg (delete_where P t)).
Proof.
  intros Ht a [key seq]. rewrite !row_leg_Some //; [by apply delete_where_ok|].
  intros (row & [_ Hin]%list_elem_of_filter & Hrow). eauto.
Qed.

(** An update that keeps the keys and the ids. *)
Lemma update_where_ok P `{∀ row, Decision (P row)} f t :
  (∀ row, row_key (f row) = row_key row ∧ row_a_session_id (f row) = row_a_session_id row) →
  tables_ok t → tables_ok (update_where P f t).
Proof.
  intros Hf Ht. split; simpl; [..|apply Ht]; rewrite -list_fmap_compose.
  - erewrite list_fmap_ext; [apply (keys_unique _ Ht)|]. intros i row _. simpl. case_decide; [by apply Hf|done].
  - erewrite list_fmap_ext; [apply (ids_unique _ Ht)|]. intros i row _. simpl. case_decide; [by apply Hf|done].
Qed.

Lemma update_leg a f t b e :
  (∀ row, row_key (f row) = row_key row ∧ row_a_session_id (f row) = row_a_session_id row) → tables_ok t →
  row_leg (update_where (λ row, row_a_session_id row = a) f t) b = Some e →
  ∃ row, row ∈ b2bua_mappings t ∧ row_a_session_id row = b ∧
    e = (row_key row, row_last_b_seq (if decide (b = a) then f row else row)).
Proof.
  intros Hf Ht. destruct e as [key seq]. rewrite row_leg_Some; [by apply update_where_ok|].
  intros (row & (row' & -> & Hin)%list_elem_of_fmap & Ha & Hk & Hs). exists row'. split; [done|].
  destruct (Hf row') as [Hfk Hfa]. case_decide as Ha'; subst; rewrite ?Hfk ?Hfa.
  - by rewrite decide_True.
  - by rewrite decide_False.
Qed.

Lemma touch_where_loses P `{∀ row, Decision (P row)} settings now t :
  tables_ok t → tables_ok (update_where P (touch_row settings now) t) ∧
  only_loses (row_leg t) (row_leg (update_where P (touch_row settings now) t)).
Proof.
  intros Ht. assert (tables_ok (update_where P (touch_row settings now) t)) as Hok by (by apply update_where_ok).
  split; [done|]. intros b [key seq]. rewrite !row_leg_Some //.
  intros (row & (row' & -> & Hin)%list_elem_of_fmap & Ha & Hk & Hs). exists row'. by case_decide.
Qed.

Lemma insert_mapping_spec row t t' :
  tables_ok t → insert_mapping row t = Ok t' →
  tables_ok t' ∧ b2bua_mappings t' = b2bua_mappings t ++ [row] ∧
  ∀ a e, row_leg t' a = Some e → row_leg t a = Some e ∨ a = row_a_session_id row ∧ e = (row_key row, row_last_b_seq row).
Proof.
  intros Ht. unfold insert_mapping. case_bool_decide as Hdup; [done|]. intros [= <-].
  apply Decidable.not_or in Hdup as [Hk Ha].
  assert (tables_ok (MkTables (b2bua_mappings t ++ [row]) (b2bua_attempts t))) as Hok.
  { split; simpl; [..|apply Ht]; rewrite fmap_app; apply NoDup_app; (split; [apply Ht|]);
      (split; [|apply NoDup_singleton]); intros x Hx ->%list_elem_of_singleton; done. }
  split; [done|]. split; [done|]. intros a [key seq]. rewrite !row_leg_Some //.
  intros (r & [Hr| ->%list_elem_of_singleton]%elem_of_app & Hrow); [left; eauto|right; naive_solver].
Qed.

Lemma deletes_ok l t :
  tables_ok t →
  let t' := foldl (λ t row, delete_where (λ other, row_key other = row_key row) t) t l in
  tables_ok t' ∧ only_loses (row_leg t) (row_leg t').
Proof.
  revert t. induction l as [|row l IH]; intros t Ht; simpl; [done|].
  destruct (IH (delete_where (λ other, row_key other = row_key row) t)) as [Hok Hl]; [by apply delete_where_ok|].
  split; [done|]. etrans; [exact (delete_where_loses (λ other, row_key other = row_key row) t Ht)|done].
Qed.

(** ** The laws *)

Section persistent_laws.
Context (order_by : ∀ A : Type, (A → A → bool) → list A → list A) (settings : store_settings).
Implicit Types s : PersistentB2buaMappingStore.

Definition persistent_ok s : Prop := tables_ok (db s).
Definition persistent_leg s : str → option (continuity_key * Z) := row_leg (db s).

Lemma cleanup_rows now t :
  tables_ok t → tables_ok (db_cleanup_expired_entries now t) ∧
  only_loses (row_leg t) (row_leg (db_cleanup_expired_entries now t)).
Proof. intros Ht. split; [by apply delete_where_ok|by apply delete_where_loses]. Qed.

Lemma evict_rows t :
  tables_ok t → tables_ok (db_evict_if_needed order_by settings t) ∧
  only_loses (row_leg t) (row_leg (db_evict_if_needed order_by settings t)).
Proof. intros Ht. unfold db_evict_if_needed. case_match; [done|]. by apply deletes_ok. Qed.

Lemma insert_attempt_ok x t t' :
  tables_ok t → insert_attempt x t = Ok t' → tables_ok t' ∧ only_loses (row_leg t) (row_leg t').
Proof.
  intros [Hk Hi Hb]. unfold insert_attempt. case_bool_decide as Hdup; [done|]. intros [= <-]. split; [|done].
  split; simpl; [done..|]. rewrite fmap_app. apply NoDup_app. split; [done|]. split; [|apply NoDup_singleton].
  intros b Hb' ->%list_elem_of_singleton. done.
Qed.

(** A transaction is its body on the tables, or nothing. *)
Lemma transaction_spec {A} (body : tables → res exn (A * tables)) s :
  let '(r, s') := transaction body s in
  match r with Ok a => ∃ t, body (db s) = Ok (a, t) ∧ db s' = t | Err _ => db s' = db s end.
Proof.
  unfold transaction. destruct (head (faults s)) as [[]|]; try done;
    destruct (body (db s)) as [[a t]|e]; simpl; eauto.
Qed.

Ltac step_transaction r s' Hr :=
  match goal with
  | |- context [transaction ?body ?s] =>
      pose proof (transaction_spec body s) as Hr; destruct (transaction body s) as [r s']
  end.

Lemma resolve_core_spec now auth client create n s :
  tables_ok (db s) →
  let '(r, n', s') := db_resolve_core order_by settings now auth client create n s in
  match r with
  | Err _ => db s' = db s ∧ (n' = n ∨ n' = (create n).2)
  | Ok r =>
      tables_ok (db s') ∧
      if reused_existing r then
        n' = n ∧ only_loses (row_leg (db s)) (row_leg (db s')) ∧
        ∃ seq, row_leg (db s) (res_a_session_id r) = Some ((strip auth, strip client), seq)
      else
        had_store_error r = false ∧ (res_a_session_id r, n') = create n ∧
        ∀ a e, row_leg (db s') a = Some e →
          row_leg (db s) a = Some e ∨ a = res_a_session_id r ∧ e = ((strip auth, strip client), 0%Z)
  end.
Proof.
  intros Hs. unfold db_resolve_core. destruct (auth' ← _; _) as [key|e] eqn:Hkey; simpl; [|by auto].
  apply identifiers_strip in Hkey. injection Hkey as <-.
  destruct (cleanup_rows now (db s) Hs) as [Hc Hl]. set (t1 := db_cleanup_expired_entries now (db s)) in *.
  case_decide as Hf; [by auto|].
  destruct (select_one _ t1) as [row|] eqn:Hrow.
  - apply select_key in Hrow as [Hin Hrk]; [|done]. step_transaction r s' Hr. destruct r as [r|e]; [|by auto].
    destruct Hr as (t & [= <- <-] & ->). simpl.
    destruct (touch_where_loses (λ row, row_key row = (strip auth, strip client)) settings now t1 Hc) as [Hok Hl'].
    split; [done|]. split; [done|]. split; [by etrans|]. exists (row_last_b_seq row). apply Hl, row_leg_Some; eauto.
  - destruct (create n) as [a n']. step_transaction r s' Hr. destruct r as [r|e]; [|by auto].
    destruct Hr as (t & (t2 & Ht2 & [= <- <-])%bind_Ok_inv & ->). simpl.
    apply insert_mapping_spec in Ht2 as (Hok & _ & Hadd); [|done]. destruct (evict_rows t2 Hok) as [Hok' Hl'].
    split; [done|]. split; [done|]. split; [done|]. intros a' e [Hle|Hnew]%Hl'%Hadd; [by left; apply Hl|by right].
Qed.

#[global] Instance persistent_store_laws :
  @MappingStoreLaws PersistentB2buaMappingStore (persistent_store_ops order_by settings).
Proof.
  refine {| leg := persistent_leg; store_ok := persistent_ok |}; unfold persistent_leg, persistent_ok; simpl.
  - intros now auth client create n s Hs Hfresh. unfold db_resolve_or_create.
    pose proof (resolve_core_spec now auth client create n s Hs) as Hcore.
    destruct (db_resolve_core _ _ _ _ _ _ _ _) as [[[r|e] n'] s'].
    + destruct Hcore as [Hok Hr]. split; [done|]. destruct (reused_existing r); [done|].
      destruct Hr as (He & Hn & Hadd). left. split; [done|]. intros a e Ha. destruct (Hadd a e Ha); [by left|by right].
    + destruct Hcore as [Hdb Hn]. destruct (create n') as [a n''] eqn:Hc. simpl. rewrite Hdb. split; [done|].
      destruct Hn as [-> | ->]; [left|right]; rewrite -Hc; (split; [done|]); [by left|done].
  - intros now a scope s Hs. unfold db_try_resolve_echoed.
    destruct (_normalize_required_identifier _ _) as [a'|e] eqn:Ha; [|done]. apply identifier_strip in Ha as ->.
    destruct (cleanup_rows now (db s) Hs) as [Hc Hl].
    step_transaction r s' Hr. destruct r as [r|e]; [|by rewrite Hr]. destruct Hr as (t & Hbody & ->).
    destruct (select_one _ _) as [row|] eqn:Hrow; [|by injection Hbody as <- <-].
    apply select_id in Hrow as [Hin Hra]; [|done].
    destruct (Qle_bool _ _); [by injection Hbody as <- <-|].
    destruct (_echo_continuity_auth_allows _ _) eqn:Hallow; injection Hbody as <- <-; [|done].
    destruct (touch_where_loses (λ row, row_a_session_id row = strip a) settings now _ Hc) as [Hok Hl'].
    split; [done|]. split; [by etrans|]. intros resolution [= <-]. split; [done|]. split; [done|].
    exists (row_auth_scope_id row), (row_client_session_id row), (row_last_b_seq row). split; [|done].
    apply Hl, row_leg_Some; eauto.
  - intros now a s Hs. unfold db_allocate_next_b_seq.
    destruct (_normalize_required_identifier _ _) as [a'|e] eqn:Ha; [|done]. apply identifier_strip in Ha as ->.
    destruct (cleanup_rows now (db s) Hs) as [Hc Hl].
    step_transaction r s' Hr. destruct r as [r|e]; [|by rewrite Hr]. destruct Hr as (t & Hbody & ->).
    destruct (select_one _ _) as [row|] eqn:Hrow; [|done]. apply select_id in Hrow as [Hin Hra]; [|done].
    injection Hbody as <- <-. split; [by apply update_where_ok|]. exists (row_key row). rewrite Z.add_simpl_r. split.
    + apply Hl, row_leg_Some; eauto.
    + intros b e (row' & Hin' & Hb & ->)%update_leg; [|done..]. case_decide as Hba.
      * simpl. assert (row' = row) as ->; [|done]. apply (NoDup_fmap_inj _ _ _ _ (ids_unique _ Hc)); congruence.
      * apply Hl, row_leg_Some; eauto.
  - intros now a b seq d s Hs. unfold db_record_attempt. destruct (checked_attempt _ _ _ _) as [record|e]; [|done].
    destruct (cleanup_rows now (db s) Hs) as [Hc Hl].
    step_transaction r s' Hr. destruct r as [r|e]; [|by rewrite Hr]. destruct Hr as (t & Hbody & ->).
    destruct (select_one _ _) as [row|]; [|done]. apply bind_Ok_inv in Hbody as (t2 & Ht2 & [= <- <-]).
    apply insert_attempt_ok in Ht2 as [Hok Hl2]; [|done].
    destruct (touch_where_loses (λ row, row_a_session_id row = at_a_session_id record) settings now t2 Hok) as [Hok' Hl'].
    split; [done|]. etrans; [exact Hl|]. by etrans.
  - intros now a s Hs. unfold db_get_attempt_records. destruct (_normalize_required_identifier _ _); [|done].
    destruct (cleanup_rows now (db s) Hs) as [Hc Hl].
    step_transaction r s' Hr. destruct r as [r|e]; [|by rewrite Hr]. destruct Hr as (t & [= <- <-] & ->). done.
Defined.
End persistent_laws.

(** ** Agreement of the stores *)

Inductive continuity_call : Type :=
| Resolve (auth_scope_id client_session_id : str)
| Echo (a_session_id : str) (requesting_auth_scope_id : option str)
| Allocate (a_session_id : str).

Inductive continuity_answer : Type :=
| Resolved (r : B2buaContinuityResolution)
| Echoed (r : option B2buaContinuityResolution)
| Allocated (r : res exn Z).

Section runs.
Context {S : Type} `{MappingStore S} (create : id_source).

Definition run_call (now : Q) (c : continuity_call) (n : nat) (s : S) : continuity_answer * nat * S :=
  match c with
  | Resolve auth client =>
      let '(r, n, s) := resolve_or_create_a_session_id now auth client create n s in (Resolved r, n, s)
  | Echo a scope => let '(r, s) := try_resolve_echoed_a_session_id now a scope s in (Echoed r, n, s)
  | Allocate a => let '(r, s) := allocate_next_b_seq now a s in (Allocated r, n, s)
  end.

Fixpoint run_calls (calls : list (Q * continuity_call)) (n : nat) (s : S) : list continuity_answer :=
  match calls with
  | [] => []
  | (now, c) :: calls => let '(r, n, s) := run_call now c n s in r :: run_calls calls n s
  end.
End runs.

(** The calls come one after the other. *)
Fixpoint increasing (t : Q) (calls : list (Q * continuity_call)) : Prop :=
  match calls with [] => True | (now, _) :: calls => (t < now)%Q ∧ increasing now calls end.

Definition row_item (row : mapping_row) : continuity_key * _ContinuityEntry :=
  (row_key row, MkEntry (row_a_session_id row) (row_expires_at row) (row_last_accessed_at row) (row_last_b_seq row)).

(** Items that were accessed at different times, until now, and whose ids were drawn. *)
Record spaced (ids : nat → str) (n : nat) (now : Q) (items : list (continuity_key * _ContinuityEntry)) : Prop := {
  spaced_distinct : ∀ x y, x ∈ items → y ∈ items → (last_accessed_at x.2 == last_accessed_at y.2)%Q → x = y;
  spaced_until : ∀ x, x ∈ items → (last_accessed_at x.2 <= now)%Q;
  spaced_drawn : ∀ x, x ∈ items → ∃ k, k < n ∧ a_session_id x.2 = ids k
}.

Lemma spaced_sublist ids n t now items items' :
  (t <= now)%Q → (∀ x, x ∈ items' → x ∈ items) → spaced ids n t items → spaced ids n now items'.
Proof.
  intros Ht Hsub [Hd Hu Hi]. split; [by auto| |by auto]. intros x Hx. eapply Qle_trans; [|exact Ht]. auto.
Qed.

Section agreement.
Context (order_by : ∀ A : Type, (A → A → bool) → list A → list A) {Horder : OrderBy order_by}.
Context (settings : store_settings) (ids : nat → str) {Hids : Inj (=) (=) ids}.
Hypothesis some_entries : (1 <= max_entries settings)%Z.

(** The same items, at an operation. *)
Record same_items (n : nat) (now : Q) (m : InMemoryB2buaMappingStore) (t : tables) : Prop := {
  same_memory_ok : memory_ok m;
  same_tables_ok : tables_ok t;
  same_perm : _entries m ≡ₚ row_item <$> b2bua_mappings t;
  same_spaced : spaced ids n now (_entries m);
  same_bounded : (Z.of_nat (length (_entries m)) <= max_entries settings)%Z
}.

(** The same live items, between operations. *)
Record same_live (n : nat) (t : Q) (m : InMemoryB2buaMappingStore) (tb : tables) : Prop := {
  live_memory_ok : memory_ok m;
  live_tables_ok : tables_ok tb;
  live_perm : filter (live t) (_entries m) ≡ₚ filter (live t) (row_item <$> b2bua_mappings tb);
  live_spaced : spaced ids n t (filter (live t) (_entries m));
  live_bounded : (Z.of_nat (length (_entries m)) <= max_entries settings)%Z
}.

Lemma same_items_live n now m t : same_items n now m t → same_live n now m t.
Proof.
  intros [Hm Ht Hp Hs Hb]. split; [done..| | |done]; [by rewrite Hp|].
  eapply spaced_sublist; [apply Qle_refl| |done]. intros x. rewrite list_elem_of_filter. tauto.
Qed.

Lemma live_filter_later t now (items : list (continuity_key * _ContinuityEntry)) : (t <= now)%Q → filter (live now) (filter (live t) items) = filter (live now) items.
Proof.
  intros Ht. apply list_filter_filter_l. intros x. unfold live. rewrite !Qle_bool_iff. intros Hx Hle. apply Hx. lra.
Qed.

Lemma same_live_later n t now m tb : (t <= now)%Q → same_live n t m tb → same_live n now m tb.
Proof.
  intros Ht [Hm Htb Hp Hsp Hb]. split; [done..| | |done].
  - by rewrite -(live_filter_later t now (_entries m) Ht) Hp (live_filter_later t now _ Ht).
  - rewrite -(live_filter_later t now _ Ht). eapply spaced_sublist; [exact Ht| |exact Hsp].
    intros x. rewrite list_elem_of_filter. tauto.
Qed.

Lemma cleanup_items now tb :
  row_item <$> b2bua_mappings (db_cleanup_expired_entries now tb) = filter (live now) (row_item <$> b2bua_mappings tb).
Proof.
  unfold db_cleanup_expired_entries, delete_where. simpl. induction (b2bua_mappings tb) as [|row l IH]; [done|].
  rewrite fmap_cons !filter_cons. unfold live in *. simpl in *. repeat case_decide; try tauto. by rewrite fmap_cons IH.
Qed.

Lemma same_cleanup n t now m tb :
  (t <= now)%Q → same_live n t m tb →
  same_items n t (_cleanup_expired_entries now m) (db_cleanup_expired_entries now tb) ∧
  same_live n now (_cleanup_expired_entries now m) tb.
Proof.
  intros Ht Hlive. pose proof (same_live_later _ _ _ _ _ Ht Hlive) as [Hm Htb Hp Hsp Hb].
  destruct (cleanup_spec now m Hm) as (Hc & _ & He). destruct (cleanup_rows now tb Htb) as [Hd _].
  pose proof (length_filter (live now) (_entries m)) as Hlen.
  split; split; rewrite ?He ?cleanup_items ?list_filter_filter_l //; try lia.
  rewrite -(live_filter_later t now _ Ht). eapply spaced_sublist; [apply Qle_refl| |exact (live_spaced _ _ _ _ Hlive)].
  intros x. rewrite list_elem_of_filter. tauto.
Qed.

Lemma item_selected n now m t key entry :
  same_items n now m t → od_get key (_entries m) = Some entry ↔ ∃ row, row ∈ b2bua_mappings t ∧ row_item row = (key, entry).
Proof.
  intros Hs. transitivity ((key, entry) ∈ row_item <$> b2bua_mappings t); [|rewrite list_elem_of_fmap; naive_solver].
  rewrite -(same_perm _ _ _ _ Hs). split; [apply od_get_Some_elem|apply od_elem_get, Hs].
Qed.

Lemma key_selected n now m t key :
  same_items n now m t →
  match od_get key (_entries m) with
  | Some entry => ∃ row, select_one (λ row, row_key row = key) t = Some row ∧ row_item row = (key, entry)
  | None => select_one (λ row, row_key row = key) t = None
  end.
Proof.
  intros Hs. pose proof (same_tables_ok _ _ _ _ Hs) as Ht. destruct (od_get key (_entries m)) as [entry|] eqn:He.
  - apply (item_selected _ _ _ _ _ _ Hs) in He as (row & Hin & Hrow). exists row. split; [|done].
    apply select_key; [done|]. split; [done|]. by injection Hrow as -> _.
  - destruct (select_one _ t) as [row|] eqn:Hrow; [|done]. apply select_key in Hrow as [Hin Hk]; [|done].
    assert (od_get key (_entries m) = Some (row_item row).2); [|congruence].
    apply (item_selected _ _ _ _ _ _ Hs). exists row. split; [done|]. by rewrite -Hk.
Qed.

Lemma id_selected n now m t a :
  same_items n now m t →
  match _a_session_to_key m !! a with
  | Some key => ∃ entry row, od_get key (_entries m) = Some entry ∧ a_session_id entry = a ∧
      select_one (λ row, row_a_session_id row = a) t = Some row ∧ row_item row = (key, entry)
  | None => select_one (λ row, row_a_session_id row = a) t = None
  end.
Proof.
  intros Hs. pose proof (same_tables_ok _ _ _ _ Hs) as Ht. pose proof (same_memory_ok _ _ _ _ Hs) as Hm.
  destruct (_a_session_to_key m !! a) as [key|] eqn:Ha.
  - apply (index_exact _ Hm) in Ha as (entry & He & Ha). exists entry.
    pose proof He as (row & Hin & Hrow)%(item_selected _ _ _ _ _ _ Hs). exists row. repeat (split; [done|]). split; [|done].
    apply select_id; [done|]. split; [done|]. rewrite -Ha. by injection Hrow as _ <-.
  - destruct (select_one _ t) as [row|] eqn:Hrow; [|done]. apply select_id in Hrow as [Hin Hra]; [|done].
    assert (_a_session_to_key m !! a = Some (row_key row)); [|congruence]. apply (index_exact _ Hm).
    exists (row_item row).2. split; [|done]. apply (item_selected _ _ _ _ _ _ Hs). by exists row.
Qed.

Lemma od_set_map {K A} `{EqDecision K} (k : K) (v : A) d :
  od_ok d → is_Some (od_get k d) → od_set k v d = (λ x, if decide (x.1 = k) then (k, v) else x) <$> d.
Proof.
  unfold od_ok. induction d as [|[k' v'] d IH]; csimpl; [by intros _ []|]. intros [Hk Hd]%NoDup_cons Hget.
  destruct (decide (k = k')) as [<-|Hne]; [|rewrite decide_False //; by rewrite IH].
  rewrite decide_True //. f_equal. symmetry. etrans; [|apply list_fmap_id]. apply list_fmap_ext. intros i x Hx%list_elem_of_lookup_2.
  rewrite decide_False //. intros <-. apply Hk. by apply list_elem_of_fmap_2.
Qed.

(** An access to an item, in both stores. *)
Lemma same_update n t now m tb key entry entry' P `{∀ row, Decision (P row)} f row :
  (t < now)%Q → same_items n t m tb → od_get key (_entries m) = Some entry →
  (∀ other, other ∈ b2bua_mappings tb → P other ↔ row_key other = key) →
  row ∈ b2bua_mappings tb → row_key row = key → row_item (f row) = (key, entry') →
  (∀ row, row_key (f row) = row_key row ∧ row_a_session_id (f row) = row_a_session_id row) →
  a_session_id entry' = a_session_id entry → last_accessed_at entry' = now →
  same_items n now (set_entry key entry' m) (update_where P f tb).
Proof.
  intros Ht Hs He HP Hin Hk Hf Hkeep Ha Hnow. destruct Hs as [Hm Htb Hp [Hd Hu Hi] Hb].
  assert (_entries (set_entry key entry' m) = (λ x, if decide (x.1 = key) then (key, entry') else x) <$> _entries m) as Hset.
  { apply od_set_map; [apply Hm|eauto]. }
  assert (∀ x, x ∈ _entries (set_entry key entry' m) → x = (key, entry') ∨ x ∈ _entries m) as Hitems.
  { intros x. rewrite Hset. intros (y & -> & Hy)%list_elem_of_fmap. case_decide; auto. }
  split.
  - by eapply set_entry_spec.
  - by apply update_where_ok.
  - rewrite Hset Hp /update_where /= -!list_fmap_compose. apply reflexive_eq, list_fmap_ext.
    intros i other Ho%list_elem_of_lookup_2. simpl. destruct (decide (row_key other = key)) as [Hok|Hok].
    + rewrite decide_True; [by apply HP|]. assert (other = row) as ->; [|done].
      apply (NoDup_fmap_inj _ _ _ _ (keys_unique _ Htb)); congruence.
    + rewrite decide_False //. by rewrite HP.
  - split.
    + intros x y [-> |Hx]%Hitems [-> |Hy]%Hitems Hxy; simpl in *; [done| | |by apply Hd]; exfalso.
      * pose proof (Hu y Hy). rewrite Hnow in Hxy. lra.
      * pose proof (Hu x Hx). rewrite Hnow in Hxy. lra.
    + intros x [-> |Hx]%Hitems; simpl; [rewrite Hnow; lra|]. pose proof (Hu x Hx). lra.
    + intros x [-> |Hx]%Hitems; [|by apply Hi]. simpl. rewrite Ha. apply (Hi (key, entry)), od_get_Some_elem, He.
  - by rewrite Hset length_fmap.
Qed.

Lemma oldest_least items x : oldest_item items = Some x → ∀ y, y ∈ items → (last_accessed_at x.2 <= last_accessed_at y.2)%Q.
Proof.
  revert x. induction items as [|i items IH]; intros x; simpl; [done|].
  destruct (oldest_item items) as [other|] eqn:Ho.
  - specialize (IH other eq_refl). destruct (Qltb_spec (last_accessed_at other.2) (last_accessed_at i.2)) as [Hlt|Hge];
      intros [= <-] y [->|Hy]%elem_of_cons; try lra; [by apply IH|]. specialize (IH y Hy). lra.
  - intros [= <-] y. apply oldest_item_None in Ho as ->. intros ->%list_elem_of_singleton. lra.
Qed.

Lemma ordered_head t row :
  head (order_by _ accessed_le (b2bua_mappings t)) = Some row →
  row ∈ b2bua_mappings t ∧ ∀ other, other ∈ b2bua_mappings t → (row_last_accessed_at row <= row_last_accessed_at other)%Q.
Proof using Horder.
  intros Hh. assert (StronglySorted (λ x y, accessed_le x y = true) (order_by _ accessed_le (b2bua_mappings t))) as Hs.
  { apply order_by_sorted; unfold accessed_le; intros x y; [intros z|];
      destruct (Qle_bool_spec (row_last_accessed_at x) (row_last_accessed_at y)); rewrite ?Qle_bool_iff; intros; try done; lra. }
  destruct (order_by _ _ _) as [|r l] eqn:Hl; simplify_eq/=. apply StronglySorted_cons in Hs as [Hr _].
  rewrite Forall_forall in Hr. split; [rewrite -(order_by_perm _ accessed_le (b2bua_mappings t)) Hl; by left|]. intros other Ho.
  rewrite -(order_by_perm _ accessed_le (b2bua_mappings t)) Hl in Ho. apply elem_of_cons in Ho as [->|Ho]; [lra|].
  by apply Qle_bool_iff, Hr.
Qed.

Lemma pop_items key (l : list mapping_row) :
  filter (λ x : continuity_key * _ContinuityEntry, x.1 ≠ key) (row_item <$> l) = row_item <$> filter (λ row, ¬ row_key row = key) l.
Proof.
  induction l as [|row l IH]; [done|]. rewrite fmap_cons !filter_cons. simpl. repeat case_decide; try tauto.
  by rewrite fmap_cons IH.
Qed.

Lemma same_evict n now m t :
  memory_ok m → tables_ok t → _entries m ≡ₚ row_item <$> b2bua_mappings t → spaced ids n now (_entries m) →
  (Z.of_nat (length (_entries m)) <= max_entries settings + 1)%Z →
  same_items n now (_evict_if_needed settings m) (db_evict_if_needed order_by settings t).
Proof using Horder some_entries.
  intros Hm Ht Hp Hs Hlen. pose proof (Permutation_length Hp) as Hl. rewrite length_fmap in Hl.
  unfold _evict_if_needed, db_evict_if_needed. rewrite -Hl.
  destruct (Z.leb_spec (Z.of_nat (length (_entries m)) - max_entries settings) 0) as [Hle|Hgt].
  { assert (∀ fuel, evict_loop settings fuel m = m) as ->; [|by split; [..|lia]].
    intros [|fuel]; simpl; [done|]. by rewrite (proj2 (Z.ltb_ge _ _)); [lia|]. }
  replace (Z.of_nat (length (_entries m)) - max_entries settings)%Z with 1%Z by lia. change (Z.to_nat 1) with 1.
  destruct (length (_entries m)) as [|fuel] eqn:Hfuel; [lia|]. cbn [evict_loop]. rewrite Hfuel (proj2 (Z.ltb_lt _ _)); [lia|].
  destruct (oldest_item (_entries m)) as [[key entry]|] eqn:Ho; [|apply oldest_item_None in Ho as E; rewrite E in Hfuel; done].
  destruct (order_by _ accessed_le (b2bua_mappings t)) as [|row l] eqn:Hl'.
  { pose proof (Permutation_length (order_by_perm _ accessed_le (b2bua_mappings t))) as E. rewrite Hl' /= in E. lia. }
  cbn [take foldl]. rewrite take_0. cbn [foldl]. edestruct (ordered_head t row) as [Hin Hleast]; [by rewrite Hl'|].
  assert (row_key row = key) as Hkey.
  { pose proof (oldest_item_elem _ _ Ho) as Hoi. assert (row_item row ∈ _entries m) as Hri by (rewrite Hp; by apply list_elem_of_fmap_2).
    cut (row_item row = (key, entry)); [by intros [= ?]|]. apply (spaced_distinct _ _ _ _ Hs); [done..|].
    pose proof (oldest_least _ _ Ho _ Hri) as H1. rewrite Hp in Hoi. apply list_elem_of_fmap in Hoi as (row' & E & Hin').
    specialize (Hleast row' Hin'). rewrite E in H1 |- *. simpl in *. lra. }
  assert (Z.of_nat (S (length (_entries (pop_entry m key)))) = Z.of_nat (length (_entries m))) as Hpl.
  { rewrite pop_entry_entries. assert (od_get key (_entries m) = Some entry) as E by (apply od_elem_get; [apply Hm|by apply oldest_item_elem]).
    by rewrite (od_pop_length _ _ _ E). }
  assert (∀ f, evict_loop settings f (pop_entry m key) = pop_entry m key) as ->.
  { intros [|f]; simpl; [done|]. by rewrite (proj2 (Z.ltb_ge _ _)); [lia|]. }
  split; [by apply pop_entry_ok|by apply delete_where_ok| | |lia].
  - rewrite pop_entry_entries od_pop_filter; [apply Hm|]. by rewrite Hp pop_items -Hkey.
  - eapply spaced_sublist; [apply Qle_refl| |exact Hs]. intros x. rewrite pop_entry_entries.
    intros Hx. eapply elem_of_sublist; [exact Hx|apply od_pop_sublist].
Qed.

Lemma same_insert n t now m tb key :
  (t < now)%Q → same_items n t m tb → od_get key (_entries m) = None →
  let row := MkRow key.1 key.2 (ids n) 0 now now (next_expiry settings now) in
  ∃ tb', insert_mapping row tb = Ok tb' ∧
    same_items (S n) now
      (_evict_if_needed settings
        (MkMemoryStore (od_set key (MkEntry (ids n) (next_expiry settings now) now 0) (_entries m))
          (<[ids n := key]> (_a_session_to_key m)) (_attempt_records m)))
      (db_evict_if_needed order_by settings tb').
Proof using Horder Hids some_entries.
  intros Ht [Hm Htb Hp [Hd Hu Hi] Hb] Hk row.
  assert (∀ x, x ∈ _entries m → a_session_id x.2 ≠ ids n) as Hfresh.
  { intros x (k & Hkn & ->)%Hi ->%(inj ids). lia. }
  assert (insert_mapping row tb = Ok (MkTables (b2bua_mappings tb ++ [row]) (b2bua_attempts tb))) as Hins.
  { unfold insert_mapping. rewrite bool_decide_false //.
    assert (∀ r, r ∈ b2bua_mappings tb → row_item r ∈ _entries m) as Hin by (intros r Hr; rewrite Hp; by apply list_elem_of_fmap_2).
    intros [(r & E & Hr)%list_elem_of_fmap|(r & E & Hr)%list_elem_of_fmap].
    - destruct key as [auth client]. apply od_get_None in Hk as []. apply list_elem_of_fmap. exists (row_item r).
      split; [done|by apply Hin].
    - by apply (Hfresh (row_item r)); [apply Hin|]. }
  eexists. split; [exact Hins|]. apply insert_mapping_spec in Hins as (Hok & _ & _); [|done].
  edestruct (add_entry_spec settings now key (ids n) m Hm Hk) as [Hok' _].
  { destruct (memory_leg m (ids n)) as [[k seq]|] eqn:E; [|done].
    apply memory_leg_Some in E as (e & He%od_get_Some_elem & E & _); [|done]. by apply Hfresh in He. }
  assert (∀ x, x ∈ od_set key (MkEntry (ids n) (next_expiry settings now) now 0) (_entries m) →
    x = (key, MkEntry (ids n) (next_expiry settings now) now 0) ∨ x ∈ _entries m) as Hitems.
  { rewrite od_set_new //. intros x [Hx| ->%list_elem_of_singleton]%elem_of_app; auto. }
  apply same_evict; [done..| | |].
  - simpl. rewrite od_set_new // fmap_app Hp. by destruct key.
  - split; simpl.
    + intros x y [-> |Hx]%Hitems [-> |Hy]%Hitems Hxy; simpl in *; [done| | |by apply Hd]; exfalso.
      * pose proof (Hu y Hy). lra.
      * pose proof (Hu x Hx). lra.
    + intros x [-> |Hx]%Hitems; simpl; [lra|]. pose proof (Hu x Hx). lra.
    + intros x [-> |Hx]%Hitems; [exists n; simpl; split; [lia|done]|]. destruct (Hi x Hx) as (k & Hkn & E). exists k. split; [lia|done].
  - simpl. rewrite od_set_length_new //. lia.
Qed.

Lemma same_live_more n n' t m tb : n <= n' → same_live n t m tb → same_live n' t m tb.
Proof.
  intros Hn [Hm Htb Hp [Hd Hu Hi] Hb]. split; [done..| |done]. split; [done..|]. intros x (k & Hk & E)%Hi. exists k. split; [lia|done].
Qed.

Definition next_id : id_source := λ n, (ids n, S n).

(** A transaction of a database that does not fail. *)
Lemma transaction_runs {A} (body : tables → res exn (A * tables)) tb :
  transaction body (MkPersistent tb []) =
  match body tb with Ok (a, t) => (Ok a, MkPersistent t []) | Err e => (Err e, MkPersistent tb []) end.
Proof. unfold transaction. simpl. by destruct (body tb) as [[a t]|e]. Qed.

Lemma same_touch n t now m tb key entry row P `{∀ row, Decision (P row)} :
  (t < now)%Q → same_items n t m tb → od_get key (_entries m) = Some entry →
  (∀ other, other ∈ b2bua_mappings tb → P other ↔ row_key other = key) →
  row ∈ b2bua_mappings tb → row_item row = (key, entry) →
  same_items n now (set_entry key (touch settings now entry) m) (update_where P (touch_row settings now) tb).
Proof. intros Ht Hs He HP Hin [= <- <-]. by eapply same_update. Qed.

(** In a table, an id and a key select the same row. *)
Lemma id_is_key tb row :
  tables_ok tb → row ∈ b2bua_mappings tb →
  ∀ other, other ∈ b2bua_mappings tb → row_a_session_id other = row_a_session_id row ↔ row_key other = row_key row.
Proof.
  intros Htb Hin other Ho. split; intros E; f_equal.
  - by apply (NoDup_fmap_inj _ _ _ _ (ids_unique _ Htb)).
  - by apply (NoDup_fmap_inj _ _ _ _ (keys_unique _ Htb)).
Qed.

Lemma same_echo t now n a scope m tb :
  (t < now)%Q → same_live n t m tb →
  let '(r, m') := memory_try_resolve_echoed settings now a scope m in
  ∃ tb', db_try_resolve_echoed settings now a scope (MkPersistent tb []) = (r, MkPersistent tb' []) ∧ same_live n now m' tb'.
Proof.
  intros Ht Hs. apply Qlt_le_weak in Ht as Hle. destruct (same_cleanup n t now m tb Hle Hs) as [Hi _].
  unfold memory_try_resolve_echoed, db_try_resolve_echoed.
  destruct (_normalize_required_identifier _ _) as [a'|e]; [|eauto using same_live_later]. rewrite transaction_runs.
  pose proof (id_selected _ _ _ _ a' Hi) as Hsel. pose proof (same_live_later _ _ _ _ _ Hle (same_items_live _ _ _ _ Hi)) as Hback.
  destruct (_a_session_to_key _ !! a') as [key|]; [|rewrite Hsel; eauto].
  destruct Hsel as (entry & row & He & Ha & Hrow & Hitem). rewrite He Hrow.
  apply select_id in Hrow as [Hin Hra]; [|apply Hi].
  assert (row_expires_at row = expires_at entry) as -> by (by injection Hitem as _ <-).
  assert (row_auth_scope_id row = key.1) as -> by (by injection Hitem as <- _).
  destruct (Qle_bool _ _); [eauto|]. destruct (_echo_continuity_auth_allows _ _); [|eauto].
  rewrite Ha. eexists. split; [done|]. apply same_items_live.
  eapply (same_touch n t now); [done..| |done|done]. intros other Ho.
  rewrite -Hra (id_is_key _ row) //; [apply Hi|]. by injection Hitem as -> _.
Qed.

Lemma same_allocate t now n a m tb :
  (t < now)%Q → same_live n t m tb →
  let '(r, m') := memory_allocate_next_b_seq settings now a m in
  ∃ tb', db_allocate_next_b_seq settings now a (MkPersistent tb []) = (r, MkPersistent tb' []) ∧ same_live n now m' tb'.
Proof.
  intros Ht Hs. apply Qlt_le_weak in Ht as Hle. destruct (same_cleanup n t now m tb Hle Hs) as [Hi Hroll].
  unfold memory_allocate_next_b_seq, db_allocate_next_b_seq.
  destruct (_normalize_required_identifier _ _) as [a'|e]; [|eauto using same_live_later]. rewrite transaction_runs.
  pose proof (id_selected _ _ _ _ a' Hi) as Hsel.
  destruct (_a_session_to_key _ !! a') as [key|]; [|rewrite Hsel; eauto].
  destruct Hsel as (entry & row & He & Ha & Hrow & Hitem). rewrite He Hrow.
  apply select_id in Hrow as [Hin Hra]; [|apply Hi].
  assert (row_last_b_seq row = last_b_seq entry) as -> by (by injection Hitem as _ <-).
  eexists. split; [done|]. apply same_items_live.
  eapply (same_update n t now _ _ key entry (number_leg settings now entry)); [done..| |exact Hin| | |done|done|done].
  - intros other Ho. rewrite -Hra (id_is_key _ row) //; [apply Hi|]. by injection Hitem as -> _.
  - by injection Hitem as -> _.
  - injection Hitem as <- <-. done.
Qed.

Lemma same_resolve t now n auth client m tb :
  (t < now)%Q → same_live n t m tb →
  let '(r, n', m') := memory_resolve_or_create settings now auth client next_id n m in
  ∃ tb', db_resolve_or_create order_by settings now auth client next_id n (MkPersistent tb []) =
    (r, n', MkPersistent tb' []) ∧ same_live n' now m' tb'.
Proof using Horder Hids some_entries.
  intros Ht Hs. apply Qlt_le_weak in Ht as Hle. destruct (same_cleanup n t now m tb Hle Hs) as [Hi Hroll].
  unfold memory_resolve_or_create, db_resolve_or_create, memory_resolve_core, db_resolve_core.
  destruct (auth' ← _; _) as [key|e].
  2:{ eexists. split; [done|]. apply (same_live_more n); [lia|]. by apply (same_live_later _ t). }
  destruct (decide (head (faults (MkPersistent tb [])) = Some FaultAtBegin)) as [E|_]; [done|]. cbn [db]. pose proof (key_selected _ _ _ _ key Hi) as Hsel.
  destruct (od_get key _) as [entry|] eqn:He.
  - destruct Hsel as (row & Hrow & Hitem). rewrite Hrow transaction_runs. apply select_key in Hrow as [Hin Hk]; [|apply Hi].
    assert (row_a_session_id row = a_session_id entry) as -> by (by injection Hitem as _ <-).
    eexists. split; [done|]. apply same_items_live. by eapply (same_touch n t now).
  - rewrite Hsel. cbn [next_id]. destruct (same_insert n t now _ _ key Ht Hi He) as (tb' & Hins & Hok).
    rewrite transaction_runs Hins. eexists. split; [done|]. by apply same_items_live.
Qed.

Lemma same_call t now c n m tb :
  (t < now)%Q → same_live n t m tb →
  let '(r, n', m') := run_call (H := memory_store_ops settings) next_id now c n m in
  ∃ tb', run_call (H := persistent_store_ops order_by settings) next_id now c n (MkPersistent tb []) =
    (r, n', MkPersistent tb' []) ∧ same_live n' now m' tb'.
Proof using Horder Hids some_entries.
  intros Ht Hs. destruct c as [auth client|a scope|a]; simpl.
  - pose proof (same_resolve t now n auth client m tb Ht Hs) as Hc.
    destruct (memory_resolve_or_create _ _ _ _ _ _ _) as [[r n'] m']. destruct Hc as (tb' & -> & Hok). eauto.
  - pose proof (same_echo t now n a scope m tb Ht Hs) as Hc.
    destruct (memory_try_resolve_echoed _ _ _ _ _) as [r m']. destruct Hc as (tb' & -> & Hok). eauto.
  - pose proof (same_allocate t now n a m tb Ht Hs) as Hc.
    destruct (memory_allocate_next_b_seq _ _ _ _) as [r m']. destruct Hc as (tb' & -> & Hok). eauto.
Qed.

Lemma same_runs t calls n m tb :
  increasing t calls → same_live n t m tb →
  run_calls (H := memory_store_ops settings) next_id calls n m =
  run_calls (H := persistent_store_ops order_by settings) next_id calls n (MkPersistent tb []).
Proof using Horder Hids some_entries.
  revert t n m tb. induction calls as [|[now c] calls IH]; intros t n m tb; [done|]. intros [Ht Hinc] Hs.
  pose proof (same_call t now c n m tb Ht Hs) as Hc. cbn [run_calls].
  destruct (run_call next_id now c n m) as [[r n'] m']. destruct Hc as (tb' & -> & Hok). f_equal. by eapply IH.
Qed.

Lemma same_empty t : same_live 0 t empty_memory_store (MkTables [] []).
Proof using some_entries.
  split; simpl; [apply empty_memory_ok|split; constructor|done| |lia]. split; [intros x y Hx|intros x Hx|intros x Hx]; by apply elem_of_nil in Hx.
Qed.

(** C28: C1. The stores can replace each other: from the start, and as long as the database
    does not fail and no attempts are recorded, every resolution, every echoed session
    and every allocation is answered alike by the in-memory store and by the SQLite
    store, expirations and evictions included. *)
Theorem stores_agree t calls :
  increasing t calls →
  run_calls (H := memory_store_ops settings) next_id calls 0 empty_memory_store =
  run_calls (H := persistent_store_ops order_by settings) next_id calls 0 (MkPersistent (MkTables [] []) []).
Proof using Horder Hids some_entries.
  intros Hinc. by apply (same_runs t), same_empty.
Qed.
End agreement.

(** ** Witness and observations *)

Definition sample_settings : store_settings := MkSettings 10 true 2.

Definition sample_ids (n : nat) : str := "leg-" +:+ str_of_N (N.of_nat n).

#[local] Instance sample_ids_inj : Inj (=) (=) sample_ids.
Proof.
  intros n k E. apply (f_equal (str_drop 4)) in E. simpl in E. apply (f_equal parse_nat) in E.
  rewrite !parse_nat_str_of_N in E. injection E. lia.
Qed.

(** Three sessions in a store of two: the one not used for longest goes, an expired one too. *)
Definition sample_calls : list (Q * continuity_call) :=
  [(1, Resolve "alice" "s1"); (2, Resolve "alice" "s2"); (3, Echo "leg-0" (Some "alice")); (4, Resolve "bob" "s1");
   (5, Echo "leg-1" (Some "alice")); (6, Allocate "leg-0"); (7, Allocate "leg-0"); (20, Allocate "leg-0");
   (21, Resolve "alice" "s1")]%Q%string.

Lemma stores_agree_witness :
  run_calls (H := memory_store_ops sample_settings) (next_id sample_ids) sample_calls 0 empty_memory_store =
  run_calls (H := persistent_store_ops (@py_sorted) sample_settings) (next_id sample_ids) sample_calls 0
    (MkPersistent (MkTables [] []) []) ∧
  run_calls (H := memory_store_ops sample_settings) (next_id sample_ids) sample_calls 0 empty_memory_store =
  [Resolved (MkResolution "leg-0" false false); Resolved (MkResolution "leg-1" false false);
   Echoed (Some (MkResolution "leg-0" true false)); Resolved (MkResolution "leg-2" false false);
   Echoed None; Allocated (Ok 1%Z); Allocated (Ok 2%Z); Allocated (Err (not_found "leg-0"));
   Resolved (MkResolution "leg-3" false false)].
Proof.
  split; [|vm_compute; reflexivity]. apply (stores_agree (@py_sorted) sample_settings sample_ids (Hids := _) ltac:(done) 0).
  repeat split.
Defined.

(** Recording an attempt renews a session in the database, but not in the memory. *)
Definition after_recording {S} `{MappingStore S} (s : S) : option B2buaContinuityResolution :=
  let '(_, n, s) := resolve_or_create_a_session_id 0 "alice" "s1" (next_id sample_ids) 0 s in
  let '(_, s) := record_attempt 8 "leg-0" "leg-0-1" 1 (MkDetails None None None) s in
  (try_resolve_echoed_a_session_id 12 "leg-0" (Some "alice"%string) s).1.

Example recording_renews_only_in_database :
  after_recording (H := memory_store_ops sample_settings) empty_memory_store = None ∧
  after_recording (H := persistent_store_ops (@py_sorted) sample_settings) (MkPersistent (MkTables [] []) []) =
    Some (MkResolution "leg-0" true false).
Proof. by vm_compute. Qed.

(** When the commit of a new mapping fails, the session is served under an id that the
    store does not know: its attempts cannot be numbered. *)
Example unstored_session_has_no_attempts :
  let s := MkPersistent (MkTables [] []) [FaultAtCommit] in
  let '(r, n, s) := resolve_or_create_a_session_id (MappingStore := persistent_store_ops (@py_sorted) sample_settings)
    0 "alice" "s1" (next_id sample_ids) 0 s in
  r = MkResolution "leg-1" false true ∧ n = 2 ∧
  (allocate_next_b_seq (MappingStore := persistent_store_ops (@py_sorted) sample_settings) 1 "leg-1" s).1 = Err (not_found "leg-1").
Proof. by vm_compute. Qed.
