(* ===== verification/B2buaSessions.v ===== *)
(** * Sessions behind the proxy

    Who a request belongs to: the auth scope of
    [src/core/services/auth_scope_resolver_service.py], the client session id of
    [client_session_id_extractor_service.py], the ids of [b2bua_session_id_factory.py], and
    the A-leg that [b2bua_session_resolver_service.py] gives the request, against the
    interface of [B2buaMapping].  The B-legs of [b2bua_bleg_allocator_service.py] for the
    backend attempts, with the completion flow's use of it in
    [backend_completion_flow/service.py] and the projection of [connector_invoker.py].

    Random UUIDs and SHA-256 digests are parameters. *)

From Stdlib Require Import Ascii.
From S2P Require Import Prelude PyStr PyDict PySort Exceptions NonForwardable B2buaMapping B2buaPersistent.
From stdpp Require Import options.

(** ** Identifiers *)

Definition _A_SESSION_PREFIX : str := "llm-b2bua-".
Definition _B_SESSION_PREFIX : str := "llm-b2bua-b-".

(** [0-9a-fA-F] *)
Definition is_hex (c : ascii) : bool :=
  let n := nat_of_ascii c in
  (48 <=? n) && (n <=? 57) || (97 <=? n) && (n <=? 102) || (65 <=? n) && (n <=? 70).

(** The groups of 8, 4, 4, 4 and 12 digits, from position [n] on. *)
Fixpoint uuid_chars (n : nat) (s : str) : bool :=
  match s with
  | EmptyString => n =? 36
  | String c s =>
      (if (n =? 8) || (n =? 13) || (n =? 18) || (n =? 23) then Ascii.eqb c "-" else is_hex c) && uuid_chars (S n) s
  end.

(** [_A_SESSION_PATTERN.fullmatch] *)
Definition matches_a_pattern (candidate : str) : bool :=
  startswith _A_SESSION_PREFIX candidate && uuid_chars 0 (str_drop (String.length _A_SESSION_PREFIX) candidate).

Definition is_canonical_a_session_id (value : str) : bool := matches_a_pattern (strip value).

(** [str(UUID(...))] of such text is its lower case. *)
Definition extract_a_uuid (a_session_id : str) : res exn str :=
  let candidate := strip a_session_id in
  if matches_a_pattern candidate then Ok (lower (str_drop (String.length _A_SESSION_PREFIX) candidate))
  else Err (py_exception "ValueError" "Invalid a_session_id format").

Definition generate_b_session_id (a_session_id : str) (seq : Z) : res exn str :=
  ensure (1 <=? seq)%Z else py_exception "ValueError" "seq must be >= 1";
  uuid ← extract_a_uuid a_session_id; Ok (_B_SESSION_PREFIX +:+ uuid +:+ "-" +:+ str_of_Z seq).

(** ** Identities and contexts *)

Record B2buaIdentity : Type := MkIdentity {
  id_a_session_id : str;
  id_b_session_id : option str;
  id_client_session_id : option str;
  id_auth_scope_id : option str;
  id_b_seq : option Z
}.

(** [__post_init__] *)
Definition check_identity (i : B2buaIdentity) : res exn B2buaIdentity :=
  ensure negb (is_empty (strip (id_a_session_id i))) else py_exception "ValueError" "a_session_id must be a non-empty string";
  ensure match id_b_session_id i with Some b => negb (is_empty (strip b)) | None => true end
    else py_exception "ValueError" "b_session_id cannot be empty when provided";
  ensure match id_b_seq i with Some seq => (1 <=? seq)%Z | None => true end
    else py_exception "ValueError" "b_seq must be a positive integer when provided";
  Ok i.

Record DomainRequest : Type := MkDomainRequest {
  dr_session_id : option json;
  dr_extra_body : option (list (str * json));
  dr_messages : list ChatMessage
}.

(** The fields of a request context that sessions depend on; [ctx_state] is [None] when
    the state is no mapping, and header names are in lower case. *)
Record RequestContext : Type := MkContext {
  ctx_headers : gmap string string;
  ctx_state : option (list (str * json));
  ctx_client_host : option str;
  ctx_agent : option str;
  ctx_domain_request : option DomainRequest;
  ctx_processing : list (str * json);
  ctx_extensions : list (str * json);
  ctx_session_id : option str;
  ctx_identity : option B2buaIdentity
}.

(** [ensure_processing_context().update(...)] *)
Definition update_processing (data : list (str * json)) (ctx : RequestContext) : RequestContext :=
  MkContext (ctx_headers ctx) (ctx_state ctx) (ctx_client_host ctx) (ctx_agent ctx) (ctx_domain_request ctx)
    (foldl (λ d e, od_set e.1 e.2 d) (ctx_processing ctx) data) (ctx_extensions ctx) (ctx_session_id ctx) (ctx_identity ctx).

Definition set_session (session_id : option str) (identity : option B2buaIdentity) (ctx : RequestContext) : RequestContext :=
  MkContext (ctx_headers ctx) (ctx_state ctx) (ctx_client_host ctx) (ctx_agent ctx) (ctx_domain_request ctx)
    (ctx_processing ctx) (ctx_extensions ctx) session_id identity.

(** ** The auth scope *)

(** [host] and [access_mode.is_single_user()] of the configuration. *)
Record access_config : Type := MkAccess {
  access_host : option str;
  access_single_user : bool
}.

Definition normalize_candidate (value : option json) : option str :=
  match as_str value with
  | Some s => let normalized := strip s in if is_empty normalized then None else Some normalized
  | None => None
  end.

Fixpoint first_candidate (keys : list str) (state : list (str * json)) : option str :=
  match keys with
  | [] => None
  | key :: keys =>
      match normalize_candidate (od_get key state) with Some scope => Some scope | None => first_candidate keys state end
  end.

Definition _extract_state_scope_id (state : option (list (str * json))) : option str :=
  state ≫= first_candidate ["auth_scope_id"; "authenticated_token_id"; "token_id"]%string.

Definition _is_single_user_localhost_mode (config : option access_config) : bool :=
  match config with
  | Some config =>
      match access_host config with
      | Some host => str_in (lower (strip host)) ["127.0.0.1"; "localhost"; "::1"]%string && access_single_user config
      | None => false
      end
  | None => false
  end.

Definition resolve_auth_scope_id (config : option access_config) (ctx : RequestContext) : option str :=
  match _extract_state_scope_id (ctx_state ctx) with
  | Some scoped_id => Some scoped_id
  | None => if _is_single_user_localhost_mode config then Some _LOCALHOST_AUTH_SCOPE else None
  end.

(** ** The client's session id *)

Definition _DEFAULT_ECHO_HEADER : str := "x-b2bua-session-id".

Definition _resolve_configured_echo_header_name (configured : option json) : str :=
  match as_str configured with
  | Some name => let normalized := lower (strip name) in if is_empty normalized then _DEFAULT_ECHO_HEADER else normalized
  | None => _DEFAULT_ECHO_HEADER
  end.

Definition header_value (ctx : RequestContext) (name : str) : option json := JStr <$> ctx_headers ctx !! name.

Definition _extract_header_candidate (echo_header : str) (ctx : RequestContext) : option str :=
  if String.eqb echo_header "x-session-id" then None
  else
    match normalize_candidate (header_value ctx "x-session-id") with
    | Some id => Some id
    | None => normalize_candidate (header_value ctx echo_header)
    end.

Definition _extract_body_candidates (ctx : RequestContext) : option str * option str :=
  match ctx_domain_request ctx with
  | None => (None, None)
  | Some request =>
      (normalize_candidate (dr_session_id request),
       dr_extra_body request ≫= λ extra_body, normalize_candidate (od_get "session_id"%string extra_body))
  end.

Definition extract_client_session_id (echo_header : str) (ctx : RequestContext) : option str * RequestContext :=
  let header_candidate := _extract_header_candidate echo_header ctx in
  let '(body_candidate, extra_body_candidate) := _extract_body_candidates ctx in
  let present := omap id [header_candidate; body_candidate; extra_body_candidate] in
  let ctx := if length (remove_dups present) <=? 1 then ctx
             else update_processing [("b2bua_client_session_id_conflict"%string, JBool true)] ctx in
  match head present with
  | Some extracted => (Some extracted, update_processing [("b2bua_client_session_id"%string, JStr extracted)] ctx)
  | None => (None, ctx)
  end.

(** ** The session resolver *)

Definition _ANONYMOUS_AUTH_SCOPE_PREFIX : str := "__b2bua-anon-auth__".
Definition _ANONYMOUS_CLIENT_SESSION_ID : str := "__b2bua-anon-client__".

(** The text of the first user message; the parts of a message are objects, which the
    loop over dictionaries passes over. *)
Fixpoint first_user_text (messages : list ChatMessage) : str :=
  match messages with
  | [] => ""
  | m :: messages =>
      if String.eqb (cm_role m) "user" then match cm_content m with TextContent text => text | _ => "" end
      else first_user_text messages
  end%string.

Section resolver.
Context (uuid : nat → str) (sha256_hex : str → str).
Context (access : option access_config) (echo_header : str).
(** [enable_unsafe_heuristic_session_inference] of the configuration, if there is one. *)
Context (unsafe_heuristics : bool).

Definition a_session_of (n : nat) : str := _A_SESSION_PREFIX +:+ uuid n.

Definition generate_a_session_id : id_source := λ n, (a_session_of n, S n).

Definition digest16 (text : str) : str := str_take 16 (sha256_hex text).

Definition heuristic_client_id (ctx : RequestContext) : option str :=
  if unsafe_heuristics then
    let agent_text := match ctx_agent ctx with Some agent => strip agent | None => ""%string end in
    let host_text := match ctx_client_host ctx with Some host => strip host | None => ""%string end in
    let first_user_msg := match ctx_domain_request ctx with Some r => first_user_text (dr_messages r) | None => ""%string end in
    if negb (is_empty first_user_msg) then Some ("b2bua-fallback:" +:+ digest16 first_user_msg)
    else if negb (is_empty agent_text && is_empty host_text) then
      Some ("b2bua-fallback:" +:+ digest16 (agent_text +:+ "|" +:+ host_text))
    else None
  else None.

(** The note in the processing context. *)
Definition continuity_note (reused store_error : bool) : list (str * json) :=
  [("b2bua_continuity_reused_existing", JBool reused); ("b2bua_continuity_store_error", JBool store_error)]%string.

Section store.
Context {S : Type} `{MappingStore S}.

(** An A-leg of its own for a request without a scope or without a session. *)
Definition resolve_anonymous (now : Q) (n : nat) (s : S) : B2buaContinuityResolution * nat * S :=
  let '(generated, n) := generate_a_session_id n in
  resolve_or_create_a_session_id now (_ANONYMOUS_AUTH_SCOPE_PREFIX +:+ ":" +:+ generated) _ANONYMOUS_CLIENT_SESSION_ID
    (λ n, (generated, n)) n s.

(** What a lookup of the store gives a request: the resolution, the flag noted for it, and
    the client session id that is recorded. *)
Definition resolve_in_store (now : Q) (client_session_id auth_scope_id : option str) (ctx : RequestContext) (n : nat) (s : S) :
    B2buaContinuityResolution * bool * option str * nat * S :=
  match client_session_id, auth_scope_id with
  | Some client, Some scope =>
      let '(r, n, s) := resolve_or_create_a_session_id now scope client generate_a_session_id n s in
      (r, reused_existing r, Some client, n, s)
  | _, _ =>
      let heuristic := match client_session_id with None => heuristic_client_id ctx | Some _ => None end in
      match heuristic, auth_scope_id with
      | Some client, Some scope =>
          let '(r, n, s) := resolve_or_create_a_session_id now scope client generate_a_session_id n s in
          (r, reused_existing r, Some client, n, s)
      | _, _ => let '(r, n, s) := resolve_anonymous now n s in (r, false, client_session_id, n, s)
      end
  end.

(** An A-leg id that the client sent back. *)
Definition resolve_echo (now : Q) (client_session_id auth_scope_id : option str) (s : S) :
    option B2buaContinuityResolution * S :=
  match client_session_id with
  | Some client =>
      if is_canonical_a_session_id client then try_resolve_echoed_a_session_id now (strip client) auth_scope_id s
      else (None, s)
  | None => (None, s)
  end.

Definition resolve_session_id (now : Q) (ctx : RequestContext) (n : nat) (s : S) : str * RequestContext * nat * S :=
  match ctx_identity ctx with
  | Some identity => (id_a_session_id identity, set_session (Some (id_a_session_id identity)) (Some identity) ctx, n, s)
  | None =>
      let '(client_session_id, ctx) := extract_client_session_id echo_header ctx in
      let auth_scope_id := resolve_auth_scope_id access ctx in
      let '(r, noted, client_session_id, n, s) :=
        match resolve_echo now client_session_id auth_scope_id s with
        | (Some r, s) => (r, reused_existing r, client_session_id, n, s)
        | (None, s) => resolve_in_store now client_session_id auth_scope_id ctx n s
        end in
      let a := res_a_session_id r in
      let ctx := update_processing (continuity_note noted (had_store_error r)) ctx in
      (a, set_session (Some a) (Some (MkIdentity a None client_session_id auth_scope_id None)) ctx, n, s)
  end.

(** ** B-legs *)

Record BlegAllocation : Type := MkAllocation {
  al_b_session_id : str;
  al_seq : Z
}.

(** [allocate]; the store reads the clock twice. *)
Definition allocate (now later : Q) (a_session_id : str) (d : attempt_details) (s : S) : res exn BlegAllocation * S :=
  match allocate_next_b_seq now a_session_id s with
  | (Err e, s) => (Err e, s)
  | (Ok seq, s) =>
      match generate_b_session_id a_session_id seq with
      | Err e => (Err e, s)
      | Ok b_session_id =>
          match record_attempt later a_session_id b_session_id seq d s with
          | (Err e, s) => (Err e, s)
          | (Ok _, s) => (Ok (MkAllocation b_session_id seq), s)
          end
      end
  end.

(** [with_b2bua_attempt_identity] *)
Definition with_attempt (b_session_id : str) (seq : Z) (ctx : RequestContext) : res exn RequestContext :=
  match ctx_identity ctx with
  | None => Err (py_exception "ValueError" "b2bua_identity must be set before creating attempt-scoped context")
  | Some i =>
      i ← check_identity (MkIdentity (id_a_session_id i) (Some b_session_id) (id_client_session_id i) (id_auth_scope_id i) (Some seq));
      Ok (set_session (ctx_session_id ctx) (Some i) ctx)
  end.

(** [_allocate_b2bua_attempt_context]: an exception leaves the request as it is.  Whether
    the request is an auxiliary one is decided elsewhere. *)
Definition _allocate_b2bua_attempt_context (now later : Q) (auxiliary : bool) (a_session_id : option str)
    (d : attempt_details) (ctx : option RequestContext) (s : S) : option RequestContext * option str * S :=
  match ctx with
  | None => (None, None, s)
  | Some context =>
      match ctx_identity context with
      | None => (ctx, None, s)
      | Some identity =>
          if auxiliary then (ctx, None, s)
          else
            let resolved := match a_session_id with Some a => if is_empty a then id_a_session_id identity else a
                            | None => id_a_session_id identity end in
            if is_empty resolved then (ctx, None, s)
            else
              match allocate now later resolved d s with
              | (Err _, s) => (ctx, None, s)
              | (Ok allocation, s) =>
                  match with_attempt (al_b_session_id allocation) (al_seq allocation) context with
                  | Ok attempt => (Some attempt, Some (al_b_session_id allocation), s)
                  | Err _ => (ctx, None, s)
                  end
              end
      end
  end.
End store.
End resolver.

(** ** What a connector is told *)

Record ConnectorRequestContext : Type := MkConnector {
  cn_session_id : option str;
  cn_client_host : option str;
  cn_extensions : list (str * json)
}.

Definition sensitive_keys : list str := ["client_session_id"; "a_session_id"; "auth_scope_id"]%string.

Definition _project_context (ctx : RequestContext) : ConnectorRequestContext :=
  let extensions := od_del sensitive_keys (ctx_extensions ctx) in
  let extensions :=
    match od_get "b2bua"%string extensions with
    | Some (JDict b2bua) =>
        let sanitized := od_del sensitive_keys b2bua in
        if bool_decide (sanitized = []) then od_pop "b2bua"%string extensions
        else od_set "b2bua"%string (JDict sanitized) extensions
    | _ => extensions
    end in
  match ctx_identity ctx with
  | Some identity =>
      MkConnector (id_b_session_id identity) (ctx_client_host ctx)
        (match id_b_seq identity with
         | Some seq => od_set "b2bua" (JDict [("b_seq", JInt seq)]) extensions
         | None => extensions
         end)%string
  | None => MkConnector (ctx_session_id ctx) (ctx_client_host ctx) extensions
  end.

(** ** Histories *)

(** What the proxy does with the store, in any order. *)
Inductive proxy_call : Type :=
| Request (ctx : RequestContext)
| AllocateLeg (a_session_id : str)
| RecordLeg (a_session_id b_session_id : str) (seq : Z) (d : attempt_details)
| ReadRecords (a_session_id : str).

(** What is given out: an identity for a request, a number for an attempt. *)
Inductive given : Type :=
| Session (identity : B2buaIdentity)
| Leg (a_session_id : str) (seq : Z).

Section histories.
Context (uuid : nat → str) (sha256_hex : str → str).
Context (access : option access_config) (echo_header : str) (unsafe_heuristics : bool).
Context {S : Type} `{MappingStore S}.

Definition run_proxy_call (now : Q) (c : proxy_call) (n : nat) (s : S) : list given * nat * S :=
  match c with
  | Request ctx =>
      let '(_, ctx, n, s) := resolve_session_id uuid sha256_hex access echo_header unsafe_heuristics now ctx n s in
      (match ctx_identity ctx with Some identity => [Session identity] | None => [] end, n, s)
  | AllocateLeg a =>
      let '(r, s) := allocate_next_b_seq now a s in
      (match r with Ok seq => [Leg (strip a) seq] | Err _ => [] end, n, s)
  | RecordLeg a b seq d => let '(_, s) := record_attempt now a b seq d s in ([], n, s)
  | ReadRecords a => let '(_, s) := get_attempt_records now a s in ([], n, s)
  end.

Fixpoint run_proxy (calls : list (Q * proxy_call)) (n : nat) (s : S) : list given * nat * S :=
  match calls with
  | [] => ([], n, s)
  | (now, c) :: calls =>
      let '(g, n, s) := run_proxy_call now c n s in
      let '(gs, n, s) := run_proxy calls n s in (g ++ gs, n, s)
  end.

Definition sessions (gs : list given) : list B2buaIdentity :=
  omap (λ g, match g with Session i => Some i | Leg _ _ => None end) gs.

Definition legs (gs : list given) : list (str * Z) :=
  omap (λ g, match g with Session _ => None | Leg a seq => Some (a, seq) end) gs.

(** The numbers given to the attempts of an A-leg. *)
Definition numbers_of (a : str) (gs : list given) : list Z := (filter (λ x, x.1 = a) (legs gs)).*2.
End histories.

(** What random UUIDs promise: the canonical form, and no repetition among those drawn. *)
Class Uuids (uuid : nat → str) (limit : nat) : Prop := {
  uuid_form : ∀ n, uuid_chars 0 (uuid n) = true;
  uuid_canonical : ∀ n, lower (uuid n) = uuid n;
  uuid_fresh : ∀ i j, i < limit → j < limit → uuid i = uuid j → i = j
}.

Section uuids.
Context (uuid : nat → str) (limit : nat) {Hu : Uuids uuid limit}.

Lemma a_session_inj i j : i < limit → j < limit → a_session_of uuid i = a_session_of uuid j → i = j.
Proof using Hu.
  intros Hi Hj E. apply uuid_fresh; [done..|]. unfold a_session_of in E.
  apply (f_equal (str_drop (String.length _A_SESSION_PREFIX))) in E. by rewrite !str_drop_app in E.
Qed.

Lemma uuid_chars_length n s : uuid_chars n s = true → n + String.length s = 36.
Proof.
  revert n. induction s as [|c s IH]; intros n; simpl; [intros ->%Nat.eqb_eq; lia|].
  intros [_ Hs]%andb_true_iff. apply IH in Hs. lia.
Qed.

Lemma hex_not_space c : is_hex c = true → is_space c = false.
Proof. by destruct c as [[] [] [] [] [] [] [] []]. Qed.
End uuids.

Definition plain (c : ascii) : bool := negb (is_space c).

Lemma plain_strip s : str_all plain s = true → strip s = s.
Proof.
  intros Hs. assert (rstrip s = s) as Hr.
  { induction s as [|c s IH]; [done|]. simpl in *. apply andb_true_iff in Hs as [Hc Hs]. rewrite IH //.
    unfold plain in Hc. destruct s; [|done]. by destruct (is_space c). }
  unfold strip. destruct s as [|c s]; [done|]. simpl in Hs. apply andb_true_iff in Hs as [Hc _]. unfold plain in Hc.
  simpl lstrip. by destruct (is_space c).
Qed.

Lemma uuid_chars_plain n s : uuid_chars n s = true → str_all plain s = true.
Proof.
  revert n. induction s as [|c s IH]; intros n; [done|]. simpl. intros [Hc Hs]%andb_true_iff.
  apply andb_true_iff. split; [|by eapply IH]. unfold plain. apply negb_true_iff.
  destruct (_ || _); [|by apply hex_not_space]. apply Ascii.eqb_eq in Hc. by subst c.
Qed.

Lemma a_session_plain uuid {limit} {Hu : Uuids uuid limit} n : str_all plain (a_session_of uuid n) = true.
Proof. unfold a_session_of. rewrite str_all_app. apply andb_true_iff. split; [done|]. eapply uuid_chars_plain, uuid_form. Qed.

Lemma a_session_stripped uuid {limit} {Hu : Uuids uuid limit} n : strip (a_session_of uuid n) = a_session_of uuid n.
Proof. apply plain_strip. by eapply a_session_plain. Qed.

Section isolation.
Context (uuid : nat → str) (limit : nat) {Hu : Uuids uuid limit} (sha256_hex : str → str).
Context (access : option access_config) (echo_header : str) (unsafe_heuristics : bool).
Context {S : Type} {Hstore : MappingStore S} {Hlaws : MappingStoreLaws S}.
#[local] Notation run_proxy := (run_proxy uuid sha256_hex access echo_header unsafe_heuristics).
#[local] Notation a_session_of := (a_session_of uuid).

(** Why a session may have an A-leg of the client session [key]: it is its own, the
    request sent the A-leg id back and its scope is allowed to, or the leg is anonymous and
    the request lacks a scope or a session of its own. *)
Definition justified (i : B2buaIdentity) (key : continuity_key) : Prop :=
  (id_auth_scope_id i = Some key.1 ∧ ∃ client, id_client_session_id i = Some client ∧ key.2 = strip client) ∨
  (∃ client, id_client_session_id i = Some client ∧ strip client = id_a_session_id i ∧
    _echo_continuity_auth_allows key.1 (id_auth_scope_id i) = true) ∨
  (startswith _ANON_AUTH_SCOPE_PREFIX key.1 = true ∧ (id_auth_scope_id i = None ∨ id_client_session_id i = None)).

(** How a call may change the legs: an A-leg that is there is given out again, or one
    whose id is new. *)
Definition gives (n : nat) (s : S) (a : str) (key : continuity_key) (n' : nat) (s' : S) : Prop :=
  store_ok s' ∧ n ≤ n' ≤ n + 2 ∧
  (only_loses (leg s) (leg s') ∧ (∃ seq, leg s a = Some (key, seq)) ∨
   (∃ k, n ≤ k < n' ∧ a = a_session_of k) ∧ ∀ a' e, leg s' a' = Some e → leg s a' = Some e ∨ a' = a ∧ e = (key, 0%Z)).

Lemma gives_after n s s1 a key n' s' : only_loses (leg s) (leg s1) → gives n s1 a key n' s' → gives n s a key n' s'.
Proof.
  intros Hl (Hok & Hn & [[Hl1 (seq & Ha)]|[Ha Hl1]]); (split; [done|]); (split; [done|]).
  - left. split; [by etrans|]. exists seq. by apply Hl.
  - right. split; [done|]. intros a' e [Hle|]%Hl1; [|by right]. left. by apply Hl.
Qed.

Lemma resolve_gives now scope client n s :
  store_ok s → leg s (a_session_of n) = None →
  let '(r, n', s') := resolve_or_create_a_session_id now scope client (generate_a_session_id uuid) n s in
  gives n s (res_a_session_id r) (strip scope, strip client) n' s'.
Proof.
  intros Hok Hfresh. pose proof (resolve_law now scope client (generate_a_session_id uuid) n s Hok Hfresh) as Hr.
  destruct (resolve_or_create_a_session_id _ _ _ _ _ _) as [[r n'] s']. destruct Hr as [Hok' Hr]. split; [done|].
  destruct (reused_existing r).
  - destruct Hr as (-> & Hl & Ha). split; [lia|auto].
  - destruct Hr as [[Ha Hl]|[Ha Hl]]; injection Ha as Ha ->; rewrite ?Ha in Hl |- *; (split; [simpl; lia|]); right.
    + split; [exists n; by split; [lia|]|]. intros a' e [|(_ & ? & ?)]%Hl; auto.
    + split; [exists (Datatypes.S n); by split; [lia|]|]. intros a' e Hle. left. by apply Hl.
Qed.

Lemma anonymous_gives now n s :
  store_ok s → leg s (a_session_of n) = None →
  let '(r, n', s') := resolve_anonymous uuid now n s in
  ∃ key, startswith _ANON_AUTH_SCOPE_PREFIX key.1 = true ∧ gives n s (res_a_session_id r) key n' s'.
Proof using Hu.
  intros Hok Hfresh. unfold resolve_anonymous. cbn [generate_a_session_id].
  set (scope := _ANONYMOUS_AUTH_SCOPE_PREFIX +:+ ":" +:+ a_session_of n).
  pose proof (resolve_law now scope _ANONYMOUS_CLIENT_SESSION_ID (λ k, (a_session_of n, k)) (Datatypes.S n) s Hok Hfresh) as Hr.
  destruct (resolve_or_create_a_session_id _ _ _ _ _ _) as [[r n'] s']. destruct Hr as [Hok' Hr].
  exists (strip scope, strip _ANONYMOUS_CLIENT_SESSION_ID). split.
  { assert (str_all plain scope = true) as Hp; [|by rewrite /= plain_strip].
    unfold scope. rewrite !str_all_app. by rewrite (uuid_chars_plain _ _ (uuid_form n)). }
  split; [done|]. destruct (reused_existing r).
  - destruct Hr as (-> & Hl & Ha). split; [lia|auto].
  - destruct Hr as [[Ha Hl]|[Ha Hl]]; injection Ha as Ha ->; rewrite ?Ha in Hl |- *; (split; [simpl; lia|]); right.
    + split; [exists n; by split; [lia|]|]. intros a' e [|(_ & ? & ?)]%Hl; auto.
    + split; [exists n; by split; [lia|]|]. intros a' e Hle. left. by apply Hl.
Qed.

Lemma normalized_stripped value s : normalize_candidate value = Some s → strip s = s.
Proof. unfold normalize_candidate. destruct (as_str value) as [v|]; [|done]. case_match; [done|]. intros [= <-]. apply strip_idem. Qed.

Lemma scope_stripped ctx scope : resolve_auth_scope_id access ctx = Some scope → strip scope = scope.
Proof.
  unfold resolve_auth_scope_id. destruct (_extract_state_scope_id (ctx_state ctx)) as [scoped|] eqn:Hs.
  - intros [= <-]. unfold _extract_state_scope_id in Hs. apply bind_Some in Hs as (state & _ & Hs).
    revert Hs. generalize ["auth_scope_id"; "authenticated_token_id"; "token_id"]%string. intros keys.
    induction keys as [|key keys IH]; simpl; [done|].
    destruct (normalize_candidate (od_get key state)) as [s|] eqn:Hn; [|done]. intros [= <-]. by eapply normalized_stripped.
  - destruct (_is_single_user_localhost_mode access); [|done]. by intros [= <-].
Qed.

Lemma echo_gives now client scope s :
  store_ok s →
  let '(r, s') := resolve_echo now client scope s in
  store_ok s' ∧ only_loses (leg s) (leg s') ∧
  ∀ resolution, r = Some resolution →
    ∃ key, justified (MkIdentity (res_a_session_id resolution) None client scope None) key ∧
      ∀ n, gives n s (res_a_session_id resolution) key n s'.
Proof.
  intros Hok. unfold resolve_echo. destruct client as [client|]; [|done].
  destruct (is_canonical_a_session_id client); [|done]. pose proof (echo_law now (strip client) scope s Hok) as He.
  destruct (try_resolve_echoed_a_session_id _ _ _ _) as [r s']. destruct He as (Hok' & Hl & He).
  split; [done|]. split; [done|]. intros resolution Hr. destruct (He resolution Hr) as (Ha & _ & auth & c & seq & Hleg & Hallow).
  rewrite strip_idem in Ha, Hleg. rewrite Ha. exists (auth, c). split; [right; left; eauto|].
  intros n. split; [done|]. split; [lia|]. left. eauto.
Qed.

Lemma store_gives now client scope ctx n s :
  (∀ sc, scope = Some sc → strip sc = sc) → store_ok s → leg s (a_session_of n) = None →
  let '(r, _, client', n', s') := resolve_in_store uuid sha256_hex unsafe_heuristics now client scope ctx n s in
  ∃ key, justified (MkIdentity (res_a_session_id r) None client' scope None) key ∧ gives n s (res_a_session_id r) key n' s'.
Proof using Hu.
  intros Hsc Hok Hfresh.
  assert (∀ sc c, scope = Some sc →
    let '(r, n', s') := resolve_or_create_a_session_id now sc c (generate_a_session_id uuid) n s in
    ∃ key, justified (MkIdentity (res_a_session_id r) None (Some c) scope None) key ∧ gives n s (res_a_session_id r) key n' s') as Hown.
  { intros sc c ->. pose proof (resolve_gives now sc c n s Hok Hfresh) as Hg.
    destruct (resolve_or_create_a_session_id _ _ _ _ _ _) as [[r n'] s']. eexists. split; [|exact Hg].
    left. rewrite /= (Hsc sc eq_refl). eauto. }
  assert (scope = None ∨ client = None →
    let '(r, n', s') := resolve_anonymous uuid now n s in
    ∃ key, justified (MkIdentity (res_a_session_id r) None client scope None) key ∧ gives n s (res_a_session_id r) key n' s') as Hanon.
  { intros Hnone. pose proof (anonymous_gives now n s Hok Hfresh) as Hg.
    destruct (resolve_anonymous _ _ _ _) as [[r n'] s']. destruct Hg as (key & Hkey & Hg). exists key. split; [|done].
    right. right. auto. }
  unfold resolve_in_store. destruct client as [c|], scope as [sc|].
  - specialize (Hown sc c eq_refl). by destruct (resolve_or_create_a_session_id _ _ _ _ _ _) as [[r n'] s'].
  - specialize (Hanon (or_introl eq_refl)). by destruct (resolve_anonymous _ _ _ _) as [[r n'] s'].
  - destruct (heuristic_client_id _ _ _) as [c|].
    + specialize (Hown sc c eq_refl). by destruct (resolve_or_create_a_session_id _ _ _ _ _ _) as [[r n'] s'].
    + specialize (Hanon (or_intror eq_refl)). by destruct (resolve_anonymous _ _ _ _) as [[r n'] s'].
  - specialize (Hanon (or_introl eq_refl)). destruct (resolve_anonymous _ _ _ _) as [[r n'] s'].
    by destruct (heuristic_client_id _ _ _).
Qed.

(** A request without an identity gets a justified one. *)
Lemma session_gives now ctx n s :
  ctx_identity ctx = None → store_ok s → leg s (a_session_of n) = None →
  let '(a, ctx', n', s') := resolve_session_id uuid sha256_hex access echo_header unsafe_heuristics now ctx n s in
  ∃ i key, ctx_identity ctx' = Some i ∧ id_a_session_id i = a ∧ justified i key ∧ gives n s a key n' s'.
Proof using Hu.
  intros Hid Hok Hfresh. unfold resolve_session_id. rewrite Hid.
  destruct (extract_client_session_id echo_header ctx) as [client ctx1].
  pose proof (scope_stripped ctx1) as Hscope. generalize dependent (resolve_auth_scope_id access ctx1). intros scope Hscope.
  pose proof (echo_gives now client scope s Hok) as He. destruct (resolve_echo now client scope s) as [[r|] s1].
  - destruct He as (_ & _ & He). destruct (He r eq_refl) as (key & Hj & Hg). do 2 eexists. split; [done|]. split; [done|]. split; [exact Hj|]. apply Hg.
  - destruct He as (Hok1 & Hl & _).
    assert (leg s1 (a_session_of n) = None) as Hfresh1.
    { destruct (leg s1 (a_session_of n)) as [e|] eqn:E; [|done]. apply Hl in E. congruence. }
    pose proof (store_gives now client scope ctx1 n s1 Hscope Hok1 Hfresh1) as Hg.
    destruct (resolve_in_store _ _ _ _ _ _ _ _ _) as [[[[r noted] client'] n'] s']. destruct Hg as (key & Hj & Hg).
    do 2 eexists. split; [done|]. split; [done|]. split; [exact Hj|]. by eapply gives_after.
Qed.

(** ** The invariant of a history

    [owner a]: the client session that the A-leg was drawn for. *)
Record history_ok (owner : gmap string continuity_key) (gs : list given) (n : nat) (s : S) : Prop := {
  history_store : store_ok s;
  history_legs : ∀ a e, leg s a = Some e → owner !! a = Some e.1;
  history_drawn : ∀ a, is_Some (owner !! a) → ∃ k, k < n ∧ a = a_session_of k;
  history_sessions : ∀ i, i ∈ sessions gs → ∃ key, owner !! id_a_session_id i = Some key ∧ justified i key;
  history_numbers : ∀ a, ∃ m, numbers_of a gs = Z.of_nat <$> seq 1 m ∧ (m ≠ 0 → is_Some (owner !! a)) ∧
    ∀ key seq, leg s a = Some (key, seq) → seq = Z.of_nat m
}.

Lemma history_fresh owner gs n s : history_ok owner gs n s → n < limit → leg s (a_session_of n) = None.
Proof using Hu.
  intros Hh Hn. destruct (leg s (a_session_of n)) as [e|] eqn:E; [|done]. apply (history_legs _ _ _ _ Hh) in E.
  destruct (history_drawn _ _ _ _ Hh _ (mk_is_Some _ _ E)) as (j & Hj & Ejk).
  apply (a_session_inj _ limit) in Ejk; lia.
Qed.

Lemma sessions_snoc gs i : sessions (gs ++ [Session i]) = sessions gs ++ [i].
Proof. unfold sessions. by rewrite omap_app. Qed.

Lemma numbers_snoc a gs g :
  numbers_of a (gs ++ [g]) =
  numbers_of a gs ++ match g with Leg b seq => if decide (b = a) then [seq] else [] | Session _ => [] end.
Proof.
  unfold numbers_of, legs. rewrite omap_app filter_app fmap_app. f_equal. destruct g as [i|b seq]; simpl; [done|].
  rewrite filter_cons /=. by case_decide.
Qed.

(** A call that gives nothing out and creates nothing. *)
Lemma history_loses owner gs n s s' :
  history_ok owner gs n s → store_ok s' → only_loses (leg s) (leg s') → history_ok owner gs n s'.
Proof.
  intros [Hs Hl Hd Hses Hnum] Hok Hloses. split; [done| |done|done|]; [by intros a e Ha%Hloses%Hl|].
  intros a. destruct (Hnum a) as (m & Hm & Ho & Hq). exists m. split; [done|]. split; [done|]. intros key seq Ha%Hloses. by eapply Hq.
Qed.

Lemma history_session owner gs n s i key n' s' :
  history_ok owner gs n s → n' ≤ limit → justified i key → gives n s (id_a_session_id i) key n' s' →
  ∃ owner', history_ok owner' (gs ++ [Session i]) n' s'.
Proof using Hu.
  intros [Hs Hl Hd Hses Hnum] Hlim Hj (Hok & Hn & Hgives).
  assert (∀ owner' : gmap string continuity_key, (∀ a k, owner !! a = Some k → owner' !! a = Some k) → owner' !! id_a_session_id i = Some key →
    ∀ j, j ∈ sessions (gs ++ [Session i]) → ∃ key, owner' !! id_a_session_id j = Some key ∧ justified j key) as Hall.
  { intros owner' Hsub Hi j. rewrite sessions_snoc. intros [(k & Hk & Hjk)%Hses| ->%list_elem_of_singleton]%elem_of_app; eauto. }
  destruct Hgives as [[Hloses (seq & Ha)]|[(k & Hk & Ha) Hadd]].
  - exists owner. apply Hl in Ha as Hown. split; [done| | | |].
    + by intros a e He%Hloses%Hl.
    + intros a (k & Hk & Hak)%Hd. exists k. split; [lia|done].
    + by apply Hall.
    + intros a. rewrite numbers_snoc app_nil_r. destruct (Hnum a) as (m & Hm & Ho & Hq). exists m.
      split; [done|]. split; [done|]. intros key' seq' Ha'%Hloses. by eapply Hq.
  - assert (owner !! id_a_session_id i = None) as Hnew.
    { destruct (owner !! id_a_session_id i) eqn:E; [|done]. destruct (Hd _ (mk_is_Some _ _ E)) as (j & Hjn & Hja).
      rewrite Ha in Hja. apply (a_session_inj _ limit) in Hja; lia. }
    exists (<[id_a_session_id i := key]> owner). split; [done| | | |].
    + intros a e [He%Hl|[-> ->]]%Hadd; [|by rewrite lookup_insert_eq]. rewrite lookup_insert_ne //. intros <-. congruence.
    + intros a [<-|[_ (j & Hjn & Hja)%Hd]]%lookup_insert_is_Some; [exists k; split; [lia|done]|exists j; split; [lia|done]].
    + apply Hall; [|by rewrite lookup_insert_eq]. intros a k' Hk'. rewrite lookup_insert_ne //. intros <-. congruence.
    + intros a. rewrite numbers_snoc app_nil_r. destruct (Hnum a) as (m & Hm & Ho & Hq). exists m. split; [done|]. split.
      * intros Hm0. apply lookup_insert_is_Some'. right. auto.
      * intros key' seq' [Ha'|[-> [= -> ->]]]%Hadd; [by eapply Hq|]. destruct (decide (m = 0)) as [->|Hm0]; [done|].
        apply Ho in Hm0 as [? ?]. congruence.
Qed.

Lemma history_leg owner gs n s a key seq s' :
  history_ok owner gs n s → store_ok s' → leg s a = Some (key, (seq - 1)%Z) →
  (∀ b e, leg s' b = Some e → if decide (b = a) then e = (key, seq) else leg s b = Some e) →
  history_ok owner (gs ++ [Leg a seq]) n s'.
Proof.
  intros [Hs Hl Hd Hses Hnum] Hok Ha Hadd. split; [done| |done| |].
  - intros b e Hb%Hadd. case_decide as Hba; [|by apply Hl]. subst b e. by apply (Hl _ _ Ha).
  - intros i. unfold sessions. rewrite omap_app app_nil_r. apply Hses.
  - intros b. rewrite numbers_snoc. destruct (Hnum b) as (m & Hm & Ho & Hq). destruct (decide (a = b)) as [<-|Hab].
    + exists (Datatypes.S m). apply Hq in Ha as Hqm. split; [rewrite Hm seq_S fmap_app /=; do 2 f_equal; lia|].
      split; [intros _; rewrite (Hl _ _ Ha); eauto|]. intros key' seq' Hb%Hadd. rewrite decide_True // in Hb.
      injection Hb as -> ->. lia.
    + exists m. rewrite app_nil_r. split; [done|]. split; [done|]. intros key' seq' Hb%Hadd.
      rewrite decide_False // in Hb. by eapply Hq.
Qed.

(** Requests arrive without an identity. *)
Definition bare (c : proxy_call) : Prop := match c with Request ctx => ctx_identity ctx = None | _ => True end.

Lemma history_call owner gs now c n s :
  history_ok owner gs n s → bare c → n + 2 ≤ limit →
  let '(g, n', s') := run_proxy_call uuid sha256_hex access echo_header unsafe_heuristics now c n s in
  n' ≤ n + 2 ∧ ∃ owner', history_ok owner' (gs ++ g) n' s'.
Proof using Hu.
  intros Hh Hc Hlim. pose proof (history_store _ _ _ _ Hh) as Hok. destruct c as [ctx|a|a b seq d|a]; simpl in *.
  - pose proof (session_gives now ctx n s Hc Hok (history_fresh _ _ _ _ Hh ltac:(lia))) as Hg.
    destruct (resolve_session_id _ _ _ _ _ _ _ _ _) as [[[a ctx'] n'] s']. destruct Hg as (i & key & -> & <- & Hj & Hg).
    pose proof Hg as (_ & [_ Hn] & _). split; [done|]. eapply history_session; [done|lia|done..].
  - pose proof (allocate_law now a s Hok) as Hg. destruct (allocate_next_b_seq now a s) as [[seq|e] s']; (split; [lia|]); exists owner.
    + destruct Hg as (Hok' & key & Hleg & Hadd). by eapply history_leg.
    + destruct Hg as [Hok' Hl]. rewrite app_nil_r. by eapply history_loses.
  - pose proof (record_law now a b seq d s Hok) as Hg. destruct (record_attempt now a b seq d s) as [r s']. split; [lia|].
    exists owner. rewrite app_nil_r. by eapply history_loses; [|apply Hg..].
  - pose proof (records_law now a s Hok) as Hg. destruct (get_attempt_records now a s) as [r s']. split; [lia|].
    exists owner. rewrite app_nil_r. by eapply history_loses; [|apply Hg..].
Qed.

Lemma history_run owner gs calls n s :
  history_ok owner gs n s → Forall (λ c, bare c.2) calls → n + 2 * length calls ≤ limit →
  let '(gs', n', s') := run_proxy calls n s in n' ≤ limit ∧ ∃ owner', history_ok owner' (gs ++ gs') n' s'.
Proof using Hu.
  intros Hh Hc. revert owner gs n s Hh. induction Hc as [|[now c] calls Hc _ IH]; intros owner gs n s Hh Hlim.
  { split; [simpl in Hlim; lia|]. exists owner. by rewrite app_nil_r. }
  simpl in *. pose proof (history_call owner gs now c n s Hh Hc ltac:(lia)) as Hg.
  destruct (run_proxy_call _ _ _ _ _ now c n s) as [[g n1] s1]. destruct Hg as (Hn1 & owner1 & Hh1).
  specialize (IH owner1 (gs ++ g) n1 s1 Hh1 ltac:(lia)). destruct (run_proxy calls n1 s1) as [[gs' n'] s'].
  destruct IH as (Hn' & owner' & Hh'). split; [done|]. exists owner'. by rewrite app_assoc.
Qed.

Lemma history_start n s : store_ok s → (∀ a, leg s a = None) → history_ok ∅ [] n s.
Proof.
  intros Hok Hnone. split; [done| | | |].
  - intros a e. by rewrite Hnone.
  - intros a. rewrite lookup_empty. by intros [].
  - intros i Hi. by apply elem_of_nil in Hi.
  - intros a. exists 0. split; [done|]. split; [done|]. intros key seq. by rewrite Hnone.
Qed.

Lemma NoDup_by_key {A} `{EqDecision A} (l : list (str * A)) : (∀ a, NoDup (filter (λ x, x.1 = a) l).*2) → NoDup l.
Proof.
  induction l as [|[a v] l IH]; intros Hl; [constructor|]. constructor.
  - intros Hin. specialize (Hl a). rewrite filter_cons_True // fmap_cons in Hl. apply NoDup_cons in Hl as [Hv _].
    apply Hv, list_elem_of_fmap. exists (a, v). split; [done|]. by apply list_elem_of_filter.
  - apply IH. intros b. specialize (Hl b). rewrite filter_cons in Hl. case_decide; [|done]. by apply NoDup_cons in Hl as [_ ?].
Qed.

Definition b_session_of (k : nat) (seq : Z) : str := _B_SESSION_PREFIX +:+ uuid k +:+ "-" +:+ str_of_Z seq.

Lemma b_session_generated k seq : (1 <= seq)%Z → generate_b_session_id (a_session_of k) seq = Ok (b_session_of k seq).
Proof using Hu.
  intros Hseq. unfold generate_b_session_id. rewrite (proj2 (Z.leb_le _ _) Hseq). unfold extract_a_uuid, matches_a_pattern.
  rewrite a_session_stripped startswith_app str_drop_app uuid_form /=. by rewrite uuid_canonical.
Qed.

Lemma b_session_inj k1 seq1 k2 seq2 : k1 < limit → k2 < limit → b_session_of k1 seq1 = b_session_of k2 seq2 → k1 = k2 ∧ seq1 = seq2.
Proof using Hu.
  intros Hk1 Hk2 E. apply (f_equal (str_drop (String.length _B_SESSION_PREFIX))) in E. rewrite !str_drop_app in E.
  pose proof (uuid_chars_length 0 _ (uuid_form k1)) as H1. pose proof (uuid_chars_length 0 _ (uuid_form k2)) as H2.
  assert (uuid k1 = uuid k2) as Huu.
  { apply (f_equal (str_take 36)) in E. by rewrite -{1}H1 -H2 !str_take_app in E. }
  apply uuid_fresh in Huu as ->; [|done..]. split; [done|]. apply (f_equal (str_drop (String.length (uuid k2)))) in E.
  rewrite !str_drop_app in E. apply (f_equal (str_drop 1)) in E. apply (f_equal parse_int) in E. simpl in E.
  rewrite !parse_int_str_of_Z in E. by injection E.
Qed.

(** C15: C1. The sessions of clients are isolated.  In any history of requests and attempts on
    a store that keeps the laws, a request of a scope with a client session of its own
    shares its A-leg only with requests of the same scope: with those of the same client
    session, and with those that sent the A-leg id itself. *)
Theorem sessions_isolated calls n s i j scope client :
  store_ok s → (∀ a, leg s a = None) → Forall (λ c, bare c.2) calls → n + 2 * length calls ≤ limit →
  let gs := (run_proxy calls n s).1.1 in
  i ∈ sessions gs → j ∈ sessions gs → id_a_session_id i = id_a_session_id j →
  id_auth_scope_id i = Some scope → id_client_session_id i = Some client →
  scope ≠ _LOCALHOST_AUTH_SCOPE → startswith _ANON_AUTH_SCOPE_PREFIX scope = false →
  id_auth_scope_id j = Some scope ∧
  ∃ other, id_client_session_id j = Some other ∧
    (strip other = strip client ∨ strip other = id_a_session_id i ∨ strip client = id_a_session_id i).
Proof using Hu.
  intros Hok Hnone Hbare Hlim gs Hi Hj Ha Hsi Hci Hlocal Hanon.
  pose proof (history_run ∅ [] calls n s (history_start n s Hok Hnone) Hbare Hlim) as Hh. subst gs.
  destruct (run_proxy calls n s) as [[gs n'] s']. destruct Hh as (Hn' & owner & Hh). rewrite app_nil_l in Hh. cbn [fst] in *.
  destruct (history_sessions _ _ _ _ Hh _ Hi) as (key & Hk & Hji). destruct (history_sessions _ _ _ _ Hh _ Hj) as (key' & Hk' & Hjj).
  rewrite -Ha Hk in Hk'. injection Hk' as <-. unfold justified in Hji, Hjj. rewrite Hsi Hci -?Ha in Hji, Hjj.
  assert (key.1 = scope) as Hkey.
  { destruct Hji as [[[= <-] _]|[(c & _ & _ & Hallow)|(_ & [?|?])]]; [done| |done..].
    unfold _echo_continuity_auth_allows in Hallow. case_bool_decide as E; [by injection E|].
    by apply orb_true_iff in Hallow as [|[_ Hl%String.eqb_eq]%andb_true_iff]. }
  rewrite Hkey Hanon in Hjj.
  assert (id_auth_scope_id j = Some scope ∧ ∃ other, id_client_session_id j = Some other ∧
    (key.2 = strip other ∨ strip other = id_a_session_id i)) as (Hsj & other & Hother & Ho).
  { destruct Hjj as [[? (o & ? & ?)]|[(o & ? & ? & Hallow)|[? _]]]; [eauto 6| |done].
    unfold _echo_continuity_auth_allows in Hallow. rewrite Hanon andb_false_l orb_false_r in Hallow.
    apply bool_decide_eq_true in Hallow. eauto 6. }
  split; [done|]. exists other. split; [done|]. destruct Ho as [Ho|Ho]; [|by auto].
  destruct Hji as [[_ (c & [= <-] & E)]|[(c & [= <-] & E & _)|(_ & [?|?])]]; [|by auto|done..]. left. congruence.
Qed.

(** C34: C1. The attempts of an A-leg are numbered 1, 2, 3 and so on without a gap or a
    repetition, whatever is interleaved and whatever expires or is evicted, and the
    B-leg ids made of the numbers are never the same. *)
Theorem b_legs_numbered calls n s :
  store_ok s → (∀ a, leg s a = None) → Forall (λ c, bare c.2) calls → n + 2 * length calls ≤ limit →
  let gs := (run_proxy calls n s).1.1 in
  (∀ a, ∃ m, numbers_of a gs = Z.of_nat <$> seq 1 m) ∧
  ∃ bs, mapM (λ x, generate_b_session_id x.1 x.2) (legs gs) = Ok bs ∧ NoDup bs.
Proof using Hu.
  intros Hok Hnone Hbare Hlim gs.
  pose proof (history_run ∅ [] calls n s (history_start n s Hok Hnone) Hbare Hlim) as Hh. subst gs.
  destruct (run_proxy calls n s) as [[gs n'] s']. destruct Hh as (Hn' & owner & Hh). simpl in *.
  assert (∀ a, ∃ m, numbers_of a gs = Z.of_nat <$> seq 1 m) as Hnum.
  { intros a. destruct (history_numbers _ _ _ _ Hh a) as (m & Hm & _). eauto. }
  split; [done|].
  assert (NoDup (legs gs)) as Hnd.
  { apply NoDup_by_key. intros a. destruct (Hnum a) as (m & Hm). unfold numbers_of in Hm. rewrite Hm.
    apply NoDup_fmap; [apply _|apply NoDup_seq]. }
  assert (∀ x, x ∈ legs gs → ∃ k, k < limit ∧ x.1 = a_session_of k ∧ (1 <= x.2)%Z) as Hlegs.
  { intros [a seq] Hx. destruct (history_numbers _ _ _ _ Hh a) as (m & Hm & Ho & _).
    assert (seq ∈ numbers_of a gs) as Hseq.
    { apply list_elem_of_fmap. exists (a, seq). split; [done|]. by apply list_elem_of_filter. }
    rewrite Hm in Hseq. apply list_elem_of_fmap in Hseq as (k & -> & [Hk1 Hk2]%elem_of_seq).
    destruct (history_drawn _ _ _ _ Hh a) as (j & Hj & ->); [apply Ho; lia|]. exists j. split; [lia|]. split; [done|]. simpl. lia. }
  clear Hnum Hh. revert Hnd Hlegs. generalize (legs gs). intros l. induction l as [|[a seq] l IH]; intros Hnd Hlegs.
  { exists []. split; [done|constructor]. }
  apply NoDup_cons in Hnd as [Hx Hnd]. destruct IH as (bs & Hbs & Hndb); [done|intros x Hxl; apply Hlegs; by right|].
  destruct (Hlegs (a, seq)) as (k & Hk & Ha & Hseq); [by left|]. simpl in Ha, Hseq. subst a.
  exists (b_session_of k seq :: bs). simpl. rewrite b_session_generated // Hbs. split; [done|]. constructor; [|done].
  intros Hin. apply Hx. apply mapM_Ok_Forall2 in Hbs. apply list_elem_of_lookup in Hin as (i & Hi).
  destruct (Forall2_lookup_r _ _ _ _ _ Hbs Hi) as ([a' seq'] & Hl & Hb). apply list_elem_of_lookup_2 in Hl.
  destruct (Hlegs (a', seq')) as (k' & Hk' & Ha' & Hseq'); [by right|]. simpl in Ha', Hseq', Hb. subst a'.
  rewrite b_session_generated // in Hb. assert (b_session_of k' seq' = b_session_of k seq) as E by congruence.
  by apply b_session_inj in E as [-> ->].
Qed.
End isolation.

(** ** What leaves the proxy *)

(** A connector gets the session id of the attempt or none, and the identities are not
    among the extensions it gets. *)
Lemma connector_sees_b_leg ctx identity key :
  ctx_identity ctx = Some identity → od_ok (ctx_extensions ctx) → key ∈ sensitive_keys →
  cn_session_id (_project_context ctx) = id_b_session_id identity ∧
  od_get key (cn_extensions (_project_context ctx)) = None.
Proof.
  intros Hi Hok Hkey. unfold _project_context. rewrite Hi. split; [done|].
  assert (key ≠ "b2bua"%string) as Hne.
  { intros ->. rewrite /sensitive_keys !elem_of_cons elem_of_nil in Hkey. naive_solver. }
  assert (od_get key (od_del sensitive_keys (ctx_extensions ctx)) = None) as Hdel by (by rewrite od_del_get // decide_True).
  generalize dependent (od_del sensitive_keys (ctx_extensions ctx)). intros extensions Hdel. cbn [cn_extensions].
  set (cleaned := match od_get _ extensions with Some (JDict _) => _ | _ => extensions end).
  assert (od_get key cleaned = None) as Hc.
  { unfold cleaned. repeat case_match; rewrite ?od_get_pop_ne ?od_get_set_ne //. }
  clearbody cleaned.
  by case_match; rewrite ?od_get_set_ne.
Qed.

(** An attempt that is allocated: its number follows the last one, its id is made of it. *)
Lemma allocate_spec {S} `{Hs : MappingStore S} {Hl : @MappingStoreLaws S Hs} now later a d (s s' : S) allocation :
  store_ok s → allocate now later a d s = (Ok allocation, s') →
  store_ok s' ∧ (∃ key, leg s (strip a) = Some (key, (al_seq allocation - 1)%Z)) ∧
  generate_b_session_id a (al_seq allocation) = Ok (al_b_session_id allocation).
Proof.
  intros Hok. unfold allocate. pose proof (allocate_law now a s Hok) as Ha.
  destruct (allocate_next_b_seq now a s) as [[seq|e] s1]; [|done]. destruct Ha as (Hok1 & key & Hleg & _).
  destruct (generate_b_session_id a seq) as [b|e] eqn:Hb; [|done].
  pose proof (record_law later a b seq d s1 Hok1) as Hr. destruct (record_attempt later a b seq d s1) as [[|e] s2]; [|done].
  intros [= <- <-]. split; [apply Hr|]. eauto.
Qed.

(** The A-leg id can be read off any of its B-leg ids. *)
Lemma b_leg_reveals_a_leg uuid limit {Hu : Uuids uuid limit} k seq :
  a_session_of uuid k = _A_SESSION_PREFIX +:+ str_take 36 (str_drop (String.length _B_SESSION_PREFIX) (b_session_of uuid k seq)).
Proof.
  unfold a_session_of, b_session_of. rewrite str_drop_app. f_equal. pose proof (uuid_chars_length 0 _ (uuid_form k)) as H1.
  by rewrite -H1 str_take_app.
Qed.

(** ** Witnesses and observations *)

Definition sample_uuid (n : nat) : str := "00000000-0000-4000-8000-00000000000" +:+ str_of_N (N.of_nat (n mod 10)).

#[local] Instance sample_uuids : Uuids sample_uuid 10.
Proof.
  assert (∀ n, n mod 10 ∈ seq 0 10) as Hn by (intros n; apply elem_of_seq; pose proof (Nat.mod_upper_bound n 10); lia).
  split.
  - intros n. unfold sample_uuid. specialize (Hn n). revert Hn. generalize (n mod 10). intros m Hm.
    rewrite /= !elem_of_cons elem_of_nil in Hm. by repeat destruct Hm as [->|Hm].
  - intros n. unfold sample_uuid. specialize (Hn n). revert Hn. generalize (n mod 10). intros m Hm.
    rewrite /= !elem_of_cons elem_of_nil in Hm. by repeat destruct Hm as [->|Hm].
  - intros i j Hi Hj E. unfold sample_uuid in E. rewrite !Nat.mod_small // in E. apply (f_equal (str_drop 35)) in E.
    simpl in E. apply (f_equal parse_nat) in E. rewrite !parse_nat_str_of_N in E. injection E. lia.
Qed.

(** A request of a scope, with the session id that its client sends. *)
Definition sample_request (scope client : option str) : proxy_call :=
  Request (MkContext (match client with Some c => {["x-session-id"%string := c]} | None => ∅ end)
    (Some (match scope with Some s => [("auth_scope_id"%string, JStr s)] | None => [] end)) None None None [] [] None None).

#[local] Instance sample_store : MappingStore InMemoryB2buaMappingStore := memory_store_ops (MkSettings 100 true 10).
#[local] Instance sample_store_laws : MappingStoreLaws InMemoryB2buaMappingStore := memory_store_laws (MkSettings 100 true 10).

Definition sample_run (calls : list (Q * proxy_call)) : list given :=
  (run_proxy sample_uuid id None _DEFAULT_ECHO_HEADER false calls 0 empty_memory_store).1.1.

Definition sample_history : list (Q * proxy_call) :=
  [(1%Q, sample_request (Some "alice") (Some "s1"));
   (3%Q, AllocateLeg (a_session_of sample_uuid 0)); (4%Q, sample_request (Some "alice") (Some (a_session_of sample_uuid 0)));
   (5%Q, AllocateLeg (a_session_of sample_uuid 0)); (6%Q, sample_request (Some "bob") (Some (a_session_of sample_uuid 0)))]%string.

Definition sample_identity (scope client : str) (n : nat) : B2buaIdentity :=
  MkIdentity (a_session_of sample_uuid n) None (Some client) (Some scope) None.

(** Alice gets her A-leg again when she sends its id, Bob does not. *)
Lemma sessions_isolated_witness :
  sample_run sample_history =
    [Session (sample_identity "alice" "s1" 0);
     Leg (a_session_of sample_uuid 0) 1; Session (sample_identity "alice" (a_session_of sample_uuid 0) 0);
     Leg (a_session_of sample_uuid 0) 2; Session (sample_identity "bob" (a_session_of sample_uuid 0) 1)] ∧
  id_auth_scope_id (sample_identity "alice" (a_session_of sample_uuid 0) 0) = Some "alice"%string.
Proof.
  split; [vm_compute; reflexivity|].
  apply (sessions_isolated sample_uuid 10 id None _DEFAULT_ECHO_HEADER false sample_history 0 empty_memory_store
    (sample_identity "alice" "s1" 0) (sample_identity "alice" (a_session_of sample_uuid 0) 0) "alice" "s1").
  - apply empty_memory_ok.
  - done.
  - by repeat constructor.
  - simpl. lia.
  - apply (list_elem_of_lookup_2 _ 0). vm_compute. reflexivity.
  - apply (list_elem_of_lookup_2 _ 1). vm_compute. reflexivity.
  - done.
  - done.
  - done.
  - done.
  - done.
Defined.

Lemma b_legs_numbered_witness :
  numbers_of (a_session_of sample_uuid 0) (sample_run sample_history) = [1; 2]%Z ∧
  ∃ bs, mapM (λ x, generate_b_session_id x.1 x.2) (legs (sample_run sample_history)) = Ok bs ∧ NoDup bs.
Proof.
  split; [vm_compute; reflexivity|].
  apply (b_legs_numbered sample_uuid 10 id None _DEFAULT_ECHO_HEADER false sample_history 0 empty_memory_store).
  - apply empty_memory_ok.
  - done.
  - by repeat constructor.
  - simpl. lia.
Defined.

Definition sample_sessions (calls : list (Q * proxy_call)) : list str := id_a_session_id <$> sessions (sample_run calls).

(** The first A-leg of an authenticated client without a session id is anonymous: when the
    client sends it back, it gets another one. *)
Example echoed_first_leg_is_replaced :
  sample_sessions [(1%Q, sample_request (Some "alice") None);
                   (2%Q, sample_request (Some "alice") (Some (a_session_of sample_uuid 0)))]%string =
  [a_session_of sample_uuid 0; a_session_of sample_uuid 1].
Proof. by vm_compute. Qed.

(** A request without any authentication gets that A-leg if it knows the id. *)
Example anonymous_leg_is_for_everyone :
  sample_sessions [(1%Q, sample_request (Some "alice") None);
                   (2%Q, sample_request None (Some (a_session_of sample_uuid 0)))]%string =
  [a_session_of sample_uuid 0; a_session_of sample_uuid 0].
Proof. by vm_compute. Qed.

(** The heuristic does not read a message of several parts: two conversations of one
    program on one host are taken for the same. *)
Example structured_chats_are_merged :
  let chat text := MkContext ∅ None (Some "10.0.0.1"%string) (Some "agent"%string)
    (Some (MkDomainRequest None None [MkMessage "user" (PartsContent [TextPart "text" text None]) None None None None None]))
    [] [] None None in
  heuristic_client_id id true (chat "first") = heuristic_client_id id true (chat "second") ∧
  is_Some (heuristic_client_id id true (chat "first")).
Proof. vm_compute. split; [done|by eexists]. Qed.
